(* ===== verification/_CoqProject ===== *)
-Q . S2P
Prelude.v
ThreadPool.v
ByteBuffer.v
Float64.v
Meas.v
Delta.v
Xor.v
Flag.v
Bloom.v
Stat.v
Compression.v
StdSort.v
ICursor.v
FullCursor.v
Chunk.v
KMerge.v
Cursors.v
Colapse.v
StripedMap.v
Allocators.v
StdMap.v
TimeTrack.v
TimeTrackSpec.v
Storages.v
MemStorage.v
MemStorageSpec.v
StatFunctions.v
TimeUtil.v
Scheme.v
Settings.v
Aggregator.v
Files.v
Options.v
WalFile.v
WalManager.v
Series.v
WalManagerSpec.v
PageFormat.v
PageIndex.v
Page.v
PageSpec.v
PageWrite.v
PageProps.v
PageManager.v
PageManagerSpec.v
PageManagerOps.v
PageManagerProps.v
Dropper.v
DropperSpec.v
DropperQueue.v
Engine.v
EngineSpec.v
Shard.v
ShardSpec.v
ShardRefine.v
NetData.v
NetServer.v
NetClient.v
NetServerSpec.v
NetSpec.v
NetRefine.v
NetProps.v
