(* ===== verification/Prelude.v ===== *)
(** * Dariadb in Rocq

    A verification of the time-series database under [src/libdariadb] and of its
    server and client under [src/network].  A measurement ([Meas]: identifier, time, value, flag) is appended to a storage,
    which keeps the measurements of each identifier compressed in chunks, and is
    read back through cursors that merge the chunks in the order of time.

    ** The program and the files that model it

    - Compression ([compression/]).  [ByteBuffer] is the buffer that the
      compressors fill from its end; [Delta], [Xor] and [Flag] are the
      compressors of times, values and flags ([delta.cpp], [xor.cpp],
      [flag.cpp]); [Compression] puts them on one buffer ([compression.cpp]).
    - Data ([meas.h], [query.h], [status.h], [stat.h], [storage/bloom_filter.h]).
      [Meas] has the records and predicates, [Float64] the doubles, [Bloom] the
      filters and their hash, [Stat] the statistics of chunks.
    - Chunks ([storage/chunk.cpp]).  [Chunk] is a header with a compressed
      buffer: appending, reading, compaction, statistic, checksum.
    - Cursors ([interfaces/icursor.cpp], [storage/cursors.cpp]).  [ICursor] is
      the interface with its laws, [FullCursor] a cursor on an array, [Cursors]
      the merging and the linear cursor, [Colapse] the factory that arranges the
      readers of a query; [KMerge] is the merge they are compared with.
    - Memory storage ([storage/memstorage/], [utils/striped_map.h]).
      [StripedMap] is the hash map with striped mutexes, [Allocators] the two
      chunk allocators, [TimeTrack] the chunks of one identifier, [MemStorage]
      the storage with the thread that drops chunks.  [TimeTrackSpec] and
      [MemStorageSpec] have their theorems.
    - Interfaces ([interfaces/], [storage/subscribe.cpp],
      [storage/callbacks.cpp]).  [Storages] has the storages as type classes and
      what the code writes over them: range appends, [readInterval], the
      asynchronous [foreach] of the engine, subscriptions.
    - Write-ahead log ([storage/wal/], [storage/manifest.cpp], [utils/fs.cpp]).
      [Files] has the file system and the manifest, [WalFile] a log file,
      [WalManager] the buffers and files of all series, [WalManagerSpec] its
      theorems.
    - Pages ([storage/pages/]).  [PageFormat] has the bytes of the packed structs,
      [PageIndex] the index of a page, [Page] a page: making one from measurements,
      from chunks or from other pages, reading, checking and restoring it.
      [PageSpec] (reading), [PageWrite] (writing) and [PageProps] have the theorems.
      [PageManager] is the manager of all pages ([page_manager.cpp]);
      [PageManagerSpec] (queries), [PageManagerOps] (operations) and
      [PageManagerProps] have its theorems.  [Series] has what a series cut into
      readers gives when they are collapsed.
    - The dropper ([storage/dropper.cpp]).  [Dropper] is the thread that turns log
      files into pages, over both managers; [DropperSpec] has its theorem and
      [DropperQueue] the invariant of its queue while the log goes on.
    - The engine ([engines/engine.cpp]).  [Engine] is a storage of all levels:
      starting it with its lock file and manifest, appends, queries, maintenance
      and stopping, for each strategy; [EngineSpec] has what it promises.
    - The engine over shards ([engines/shard.cpp]).  [Shard] is a set of engines, by
      address, with the maps from identifiers and intervals to them; the interface it
      uses of an engine is the class [IEngine] of that file.  [ShardSpec] states what a
      shard promises ([EngineLaws]) and proves the engine over such shards, [ShardRefine]
      proves that the engine with the strategy [COMPRESSED] keeps these promises.
    - The network ([network/common], [network/libserver], [network/libclient]).
      [NetData] has the bytes of the messages and their framing ([net_data.cpp],
      [async_connection.cpp]); [NetServer] the connections, the readers and clients of the
      server and the server ([ioclient.cpp], [subscribecallback.cpp], [server.cpp]) over
      any [IEngine]; [NetClient] the client ([client.cpp]) and [Link], a server with one
      client that handle each other's messages.  [NetServerSpec] states what a storage
      promises to the server ([StorageLaws]) and what the handlers then send, [NetSpec]
      proves a session of a client over such a storage, [NetRefine] proves that the engine
      with the strategy [COMPRESSED] keeps the promises, [NetProps] has the errors.
    - The thread pool ([utils/async/]).  [ThreadPool] is a transition system of the
      threads and callers, one step per critical section.
    - Statistics and aggregation ([statistic/], [timeutil.cpp], [scheme/],
      [aggregate/], the intervals of [storage/settings.cpp]).  [StatFunctions]
      has the functions and the calculator, [TimeUtil] the calendar intervals,
      [Scheme] the names of the series, [Settings] the intervals and their
      lifetimes, [Aggregator] the aggregation and its timer.  [Options] has all
      options, their text and their file ([settings.cpp], [strategy.cpp]).
    - [StdSort] and [StdMap] are what the code uses of [std::sort] and
      [std::map]; this file has the outcomes of C++ code, fixed-width integers
      and the lemmas the others share.

    A file has one [Module] per class where the class has state: a [Record] of
    the members, one definition per method with the name of the method.  Methods
    that change an object return the new one.

    ** Conventions

    A call returns an [outcome]: [Ok], [Throw] (an exception), [UB] (undefined
    behaviour: an access outside an object, a signed overflow, a mutex locked
    twice, a conversion out of range) or [Diverge] (the fuel of a loop is used
    up).  Loops that are not structural have fuel; the fuel is the length or the
    count the object itself holds, plus one (twice that where a round may only
    open a file), and the theorems show that it is enough.  The fuel of [Link] bounds the
    messages of a call: there is an amount with which, and with more of which, every call
    of a session returns.  Where the code can loop for ever the theorem says so for every
    fuel.  Integers are [Z] with the wrap-around of their width written out
    ([u32], [u64], [s64]).  Values are the 64-bit patterns of doubles, computed
    with by [SpecFloat].  The model is the release build: [ENSURE] is empty.
    The machine is little-endian, [char] is signed.

    Code that is not part of the sources is a parameter with laws: the order of
    [std::sort] on equal keys ([StdSort]), of iteration of [std::unordered_map]
    ([UnorderedMap]), the lock-free queue of Boost ([LockfreeQueue]), the
    calendar of Boost ([Calendar]), its paths and directories ([Paths],
    [DirectoryNames]), file names made from the clock ([FileNames]), the B-tree of
    stx ([BtreeMultimap]), the JSON library ([Json], [ShardJson]), the decimal text of a [float]
    ([FloatText]), CRC-32 and [std::pow].  Interfaces of the
    program are classes too ([ICursor], [IReadCallback], [IMemoryAllocator],
    [IMeasSource], [IMeasWriter], [IChunkStorage], [IErasable], [IWALDropper], [IEngine],
    [ISubscribe]);
    theorems about a client assume only the class, and the instances are proved.

    ** What is shown

    - What is compressed is decompressed unchanged, and a measurement that does
      not fit is refused without harm ([Delta], [Xor], [Flag], [Compression]);
      the inputs on which the code is wrong are characterised exactly.
    - A chunk gives back what was appended, once and in order; its header has
      the bounds, the statistic and the order of its contents; compaction keeps
      them ([Chunk], [Stat]).
    - A cursor built from any readers yields the ascending union of them, the
      first reader winning on equal times, and ends ([Cursors], [Colapse]).
    - The striped map refines a finite map and leaves its mutexes unlocked; the
      region allocator never hands out overlapping memory.
    - A track and the memory storage keep what is appended, in the order of time
      and per series, or refuse it with [bad_alloc]; interval queries deliver
      it ([TimeTrackSpec], [MemStorageSpec]); the asynchronous [foreach] ends
      and delivers it.  A new series is never admitted when memory is full of
      unfinished chunks.
    - A log file gives back what was written to it, and a range that does not fit
      is cut ([WalFile]).  The log manager acknowledges every append, keeps the
      order of each series over buffers and files, and answers interval queries
      with exactly what was appended; after a restart it can skip what was
      written to a reopened file ([WalManagerSpec]).
    - A page made from measurements gives them back from its files, and its index
      can be rebuilt; its footer counts everything twice ([PageProps]).  The page
      manager answers with what was given to it, before and after a check and a
      restart, and erases exactly the pages that are old ([PageManagerProps]).
    - Dropping log files moves their measurements to the pages: no series loses,
      repeats or reorders a measurement ([DropperSpec]).
    - An engine with the strategy [COMPRESSED] refines the list of all that was
      appended to it: started on an empty directory it acknowledges every append,
      answers every query of intervals and of current values from the whole list,
      wherever the dropper has moved its parts, and gives every subscriber what it
      asked for ([EngineSpec]).  An engine over such shards refines the same list: each
      series is in one shard, made when it is first needed ([ShardRefine]); a shard
      that was removed is still used for the series of its interval ([ShardSpec]).
    - A message with measurements arrives whole, and the measurements that can be sent are
      characterised ([NetData]).  A client of a server over a new engine sees the list of
      all it appends, every call of it returns, and its subscription hears what it asked
      for ([NetRefine]).  An error of the server looks like an acceptance: a query of an
      interval that ends before it begins is never answered ([NetProps]).
    - No task of the thread pool is lost or run by two threads, [flush] returns only
      when all are finished, and a pool that is left alone finishes them all; a
      stopped pool abandons its queue ([ThreadPool]).
    - The options of a storage survive its restart ([Options]).
    - The statistic functions, the intervals of the calendar, the scheme and the
      aggregation do what they are for, with the bounds of the integer
      arithmetic made explicit.

    ** Not modelled

    - Concurrency of the storages: each operation runs alone under its locks; the
      dropping thread, the dropper, the tasks and the timer take their turns at the
      points where the code waits for them.  The pool itself is a transition system.
    - Directories of shards that lie in one another: every engine has the files of
      its own directory.
    - The manifest is its tables, not the statements to SQLite, and the JSON of the
      scheme is left out.
    - In [network/]: sockets, which are a stream of bytes with the writes one after the
      other, the threads of the io service (a handler runs to its end before the next),
      signals, the timer that logs, several clients in one session, the [disconnect] of a
      client, the HTTP server and its requests.
    - The server program, the tools and the bundled libraries. *)

From Stdlib Require Import ZArith Lia.
From stdpp Require Import base numbers list.

Declare Scope dariadb_scope.
Delimit Scope dariadb_scope with dariadb.

Local Open Scope Z_scope.

(** ** Outcomes of C++ code *)

(** [Ok a]: the call returns [a].  [Throw]: it raises an exception.  [UB]: it
    reads or writes memory outside the object it addresses.  [Diverge]: the
    fuel of a loop ran out before the loop's own exit test held. *)
Inductive outcome (A : Type) : Type :=
| Ok (a : A)
| Throw
| UB
| Diverge.
Arguments Ok {A} a.
Arguments Throw {A}.
Arguments UB {A}.
Arguments Diverge {A}.

#[export] Instance outcome_ret : MRet outcome := fun A a => Ok a.
#[export] Instance outcome_bind : MBind outcome :=
  fun A B f m =>
    match m with
    | Ok a => f a
    | Throw => Throw
    | UB => UB
    | Diverge => Diverge
    end.
#[export] Instance outcome_fmap : FMap outcome :=
  fun A B f m => a ← m; Ok (f a).

Lemma bind_Ok {A B} (a : A) (f : A → outcome B) : (Ok a ≫= f) = f a.
Proof. reflexivity. Qed.

Lemma bind_Ok_inv {A B} (m : outcome A) (f : A → outcome B) b :
  (m ≫= f) = Ok b → ∃ a, m = Ok a ∧ f a = Ok b.
Proof. destruct m; try done. eauto. Qed.

(** Takes a call that has returned apart into the calls it makes. *)
Ltac inv_Ok :=
  repeat match goal with
  | H : (_ ≫= _) = Ok _ |- _ =>
    let a := fresh "a" in let E := fresh "E" in
    apply bind_Ok_inv in H as (a & E & H)
  | H : (let '(_, _) := ?p in _) = Ok _ |- _ => destruct p eqn:?
  | H : Ok _ = Ok _ |- _ => injection H as H
  | H : Throw = Ok _ |- _ => discriminate H
  | H : UB = Ok _ |- _ => discriminate H
  | H : Diverge = Ok _ |- _ => discriminate H
  end.

(** ** Fixed-width integers *)

(** Unsigned [w]-bit value of [x]: what a C++ conversion to [uintW_t] yields. *)
Definition wrap (w x : Z) : Z := x mod 2 ^ w.
(** Signed [w]-bit value of [x]: what a conversion to [intW_t] yields. *)
Definition swrap (w x : Z) : Z := (x + 2 ^ (w - 1)) mod 2 ^ w - 2 ^ (w - 1).

Abbreviation u8 := (wrap 8).
Abbreviation u16 := (wrap 16).
Abbreviation u32 := (wrap 32).
Abbreviation u64 := (wrap 64).
Abbreviation s8 := (swrap 8).
Abbreviation s64 := (swrap 64).

Lemma wrap_range w x : 0 <= w → 0 <= wrap w x < 2 ^ w.
Proof. intros. apply Z.mod_pos_bound. by apply Z.pow_pos_nonneg. Qed.

Lemma wrap_small w x : 0 <= x < 2 ^ w → wrap w x = x.
Proof. apply Z.mod_small. Qed.

Lemma swrap_range w x : 0 < w → - 2 ^ (w - 1) <= swrap w x < 2 ^ (w - 1).
Proof.
  intros. unfold swrap.
  pose proof (Z.mod_pos_bound (x + 2 ^ (w - 1)) (2 ^ w) ltac:(lia)).
  replace (2 ^ w) with (2 * 2 ^ (w - 1)) in *; [lia|].
  rewrite <- Z.pow_succ_r by lia. f_equal. lia.
Qed.

Lemma swrap_small w x : 0 < w → - 2 ^ (w - 1) <= x < 2 ^ (w - 1) → swrap w x = x.
Proof.
  intros. unfold swrap. rewrite Z.mod_small; [lia|].
  replace (2 ^ w) with (2 * 2 ^ (w - 1)); [lia|].
  rewrite <- Z.pow_succ_r by lia. f_equal. lia.
Qed.

(** A signed reinterpretation does not change the residue. *)
Lemma wrap_swrap w x : 0 < w → wrap w (swrap w x) = wrap w x.
Proof.
  intros. unfold wrap, swrap. rewrite Zminus_mod_idemp_l. f_equal. lia.
Qed.
Lemma swrap_wrap w x : 0 < w → swrap w (wrap w x) = swrap w x.
Proof.
  intros. unfold wrap, swrap. by rewrite Zplus_mod_idemp_l.
Qed.

(** Unsigned addition and subtraction only depend on residues. *)
Lemma wrap_add_l w x y : wrap w (wrap w x + y) = wrap w (x + y).
Proof. apply Zplus_mod_idemp_l. Qed.
Lemma wrap_add_r w x y : wrap w (x + wrap w y) = wrap w (x + y).
Proof. apply Zplus_mod_idemp_r. Qed.
Lemma wrap_wrap w x : wrap w (wrap w x) = wrap w x.
Proof. apply Zmod_mod. Qed.

(** ** Bit arithmetic *)

(** Bits below [k] of a multiple of [2 ^ k] and bits from [k] up of a small
    number do not meet: [Z.lor] adds. *)
Lemma lor_mul_pow2 c k x :
  0 <= k → 0 <= x < 2 ^ k → Z.lor (c * 2 ^ k) x = c * 2 ^ k + x.
Proof.
  intros Hk Hx.
  assert (Hl : Z.land (c * 2 ^ k) x = 0).
  { apply Z.bits_inj'. intros n Hn. rewrite Z.land_spec, Z.bits_0.
    destruct (Z.lt_ge_cases n k) as [?|?].
    - by rewrite Z.mul_pow2_bits_low by lia.
    - rewrite <- (Z.mod_small x (2 ^ k)) by lia.
      rewrite Z.mod_pow2_bits_high by lia. by rewrite andb_false_r. }
  rewrite <- Z.lxor_lor by done. by rewrite Z.add_nocarry_lxor.
Qed.

(** [Z.lor] with the sign-extension mask [- 2 ^ k] keeps the low [k] bits. *)
Lemma lor_neg_pow2 k x : 0 <= k → Z.lor (- 2 ^ k) x = - 2 ^ k + x mod 2 ^ k.
Proof.
  intros Hk. replace (- 2 ^ k) with (-1 * 2 ^ k) by lia.
  rewrite <- lor_mul_pow2 by (try apply Z.mod_pos_bound; lia).
  apply Z.bits_inj'. intros n Hn. rewrite !Z.lor_spec.
  destruct (Z.lt_ge_cases n k) as [?|?].
  - by rewrite Z.mod_pow2_bits_low by lia.
  - rewrite Z.mul_pow2_bits by lia. by rewrite Z.bits_m1 by lia.
Qed.

(** Setting bit 0. *)
Lemma lor_1_r x : Z.lor x 1 = if Z.even x then x + 1 else x.
Proof.
  assert (Hq : ∀ q, Z.lor (q * 2) 1 = q * 2 + 1).
  { intros q. apply (lor_mul_pow2 q 1 1); lia. }
  destruct (Z.even x) eqn:He.
  - apply Z.even_spec in He as [q ->]. rewrite Z.mul_comm. apply Hq.
  - rewrite <- Z.negb_odd in He. apply negb_false_iff, Z.odd_spec in He as [q ->].
    rewrite Z.mul_comm, <- Hq. by rewrite <- Z.lor_assoc, Z.lor_diag.
Qed.

Lemma lor_range k x y : 0 <= x < 2 ^ k → 0 <= y < 2 ^ k → 0 <= Z.lor x y < 2 ^ k.
Proof.
  intros Hx Hy. destruct (Z.lt_ge_cases k 0) as [Hk|Hk]; [rewrite Z.pow_neg_r in * by done; lia|].
  assert (0 <= Z.lor x y) by (apply Z.lor_nonneg; lia). split; [done|].
  destruct (Z.eq_dec (Z.lor x y) 0) as [->|Hn]; [lia|]. apply Z.log2_lt_pow2; [lia|].
  assert (Hl : ∀ z, 0 <= z < 2 ^ k → z = 0 ∨ Z.log2 z < k)
    by (intros z ?; destruct (Z.eq_dec z 0); [by left|right; apply Z.log2_lt_pow2; lia]).
  rewrite Z.log2_lor by lia. pose proof (Z.log2_nonneg x). pose proof (Z.log2_nonneg y).
  destruct (Hl x Hx) as [->|], (Hl y Hy) as [->|]; change (Z.log2 0) with 0 in *; [by destruct Hn|lia..].
Qed.

(** The remainder of a tagged number is its payload. *)
Lemma mod_mul_add c m x : 0 <= x < m → (c * m + x) mod m = x.
Proof. intros. rewrite Z.add_comm, Z_mod_plus_full. by apply Z.mod_small. Qed.

(** A decidable property of a small range of integers, by computation. *)
Lemma forallb_range (P : Z → bool) (lo n x : Z) :
  forallb P (seqZ lo n) = true → lo <= x < lo + n → P x = true.
Proof.
  intros H Hx. rewrite forallb_forall in H. apply H.
  apply list_elem_of_In, elem_of_seqZ. lia.
Qed.

(** ** Bytes of an integer, most significant first *)

(** The [n] low bytes of [z] in little-endian (memory) order. *)
Fixpoint to_le (n : nat) (z : Z) : list Z :=
  match n with
  | O => []
  | S n => z mod 256 :: to_le n (z / 256)
  end.

Fixpoint of_le (l : list Z) : Z :=
  match l with
  | [] => 0
  | b :: l => b + 256 * of_le l
  end.

Definition byte_range (b : Z) : Prop := 0 <= b < 256.

Lemma length_to_le n z : length (to_le n z) = n.
Proof. revert z. induction n; intros; simpl; auto. Qed.

Lemma to_le_range n z : Forall byte_range (to_le n z).
Proof.
  revert z. induction n; intros; simpl; constructor; auto.
  by apply Z.mod_pos_bound.
Qed.

Lemma of_to_le n z : of_le (to_le n z) = z mod 256 ^ Z.of_nat n.
Proof.
  revert z. induction n as [|n IH]; intros z; cbn [to_le of_le].
  - by rewrite Z.mod_1_r.
  - rewrite IH, Nat2Z.inj_succ, Z.pow_succ_r by lia.
    by rewrite Z.rem_mul_r by lia.
Qed.

Lemma of_to_le_small n z :
  0 <= z < 256 ^ Z.of_nat n → of_le (to_le n z) = z.
Proof. intros. by rewrite of_to_le, Z.mod_small. Qed.

Lemma of_le_range l :
  Forall byte_range l → 0 <= of_le l < 256 ^ Z.of_nat (length l).
Proof.
  induction 1 as [|b l Hb Hl IH]; cbn [of_le length]; [lia|].
  rewrite Nat2Z.inj_succ, Z.pow_succ_r by lia. unfold byte_range in *. nia.
Qed.

Lemma to_of_le l :
  Forall byte_range l → to_le (length l) (of_le l) = l.
Proof.
  induction 1 as [|b l Hb Hl IH]; cbn [of_le length to_le]; [done|].
  unfold byte_range in Hb.
  replace (b + 256 * of_le l) with (of_le l * 256 + b) by lia.
  rewrite Z.div_add_l, (Z.div_small b) by lia.
  rewrite Z.add_comm, Z.mod_add, Z.mod_small by lia.
  by rewrite Z.add_0_r, IH.
Qed.

(** ** Lists *)

(** Overwrite [bs] at offset [p] of [d]; the caller checks the range. *)
Definition store (d : list Z) (p : nat) (bs : list Z) : list Z :=
  take p d ++ bs ++ drop (p + length bs) d.

Lemma length_store d p bs :
  (p + length bs <= length d)%nat → length (store d p bs) = length d.
Proof.
  intros. unfold store. rewrite !length_app, length_take, length_drop. lia.
Qed.

Lemma take_store d p bs :
  (p <= length d)%nat → take p (store d p bs) = take p d.
Proof.
  intros. unfold store. rewrite take_app_le by (rewrite length_take; lia).
  by rewrite take_take, Nat.min_id.
Qed.

Lemma drop_store d p bs :
  (p <= length d)%nat →
  drop p (store d p bs) = bs ++ drop (p + length bs) d.
Proof.
  intros. unfold store. rewrite drop_app_ge by (rewrite length_take; lia).
  rewrite length_take, Nat.min_l by lia. by rewrite Nat.sub_diag.
Qed.

Lemma lookup_store d p bs i :
  (p + length bs <= length d)%nat →
  store d p bs !! i =
  if decide (p <= i < p + length bs)%nat then bs !! (i - p)%nat else d !! i.
Proof.
  intros Hl. unfold store. destruct (decide (i < p)%nat) as [Hi|Hi].
  - rewrite decide_False by lia. rewrite lookup_app_l by (rewrite length_take; lia).
    by apply lookup_take_lt.
  - rewrite lookup_app_r by (rewrite length_take; lia).
    rewrite length_take, Nat.min_l by lia. case_decide as Hd.
    + by rewrite lookup_app_l by lia.
    + rewrite lookup_app_r, lookup_drop by lia. f_equal. lia.
Qed.

(** ** Sequencing with state *)

(** [foldM f xs s]: run [f] over [xs], threading [s]; a C++ range-for whose
    body may throw. *)
Fixpoint foldM {A S} (f : S → A → outcome S) (xs : list A) (s : S) : outcome S :=
  match xs with
  | [] => Ok s
  | x :: xs => s' ← f s x; foldM f xs s'
  end.

Lemma foldM_app {A S} (f : S → A → outcome S) l1 l2 s :
  foldM f (l1 ++ l2) s = foldM f l1 s ≫= foldM f l2.
Proof.
  revert s. induction l1 as [|x l1 IH]; intros s; cbn; [done|]. destruct (f s x); cbn; auto.
Qed.

Lemma foldM_concat {A S} (f : S → A → outcome S) ls s :
  foldM (fun s l => foldM f l s) ls s = foldM f (concat ls) s.
Proof.
  revert s. induction ls as [|l ls IH]; intros s; cbn; [done|].
  rewrite foldM_app. destruct (foldM f l s); cbn; auto.
Qed.

Lemma Forall_sublist_of {A} (P : A → Prop) l k : l `sublist_of` k → Forall P k → Forall P l.
Proof. rewrite !Forall_forall. intros Hs H x Hx. apply H. by eapply elem_of_sublist. Qed.

Lemma filter_id {A} (P : A → Prop) `{∀ x, Decision (P x)} l : Forall P l → filter P l = l.
Proof. induction 1 as [|x l Hx Hl IH]; [done|]. rewrite filter_cons_True by done. by rewrite IH. Qed.

Lemma filter_none {A} (P : A → Prop) `{∀ x, Decision (P x)} l :
  Forall (fun x => ¬ P x) l → filter P l = [].
Proof. induction 1 as [|x l Hx Hl IH]; [done|]. by rewrite filter_cons_False. Qed.

(** ** Automation *)

Create HintDb dariadb discriminated.
#[export] Hint Resolve wrap_small to_le_range length_to_le : dariadb.
Create Rewrite HintDb dariadb_rw.
#[export] Hint Rewrite @bind_Ok wrap_wrap wrap_add_l wrap_add_r length_to_le : dariadb_rw.

(** Case analysis on every [if] over a Boolean comparison in the goal. *)
Ltac case_ifs :=
  repeat match goal with
    | |- context [if ?b then _ else _] => destruct b eqn:?
    end.

(** Turn Boolean facts in the context into propositions. *)
Ltac breflect :=
  repeat match goal with
    | H : andb _ _ = true |- _ => apply andb_true_iff in H as [? ?]
    | H : andb _ _ = false |- _ => apply andb_false_iff in H as [?|?]
    | H : orb _ _ = true |- _ => apply orb_true_iff in H as [?|?]
    | H : orb _ _ = false |- _ => apply orb_false_iff in H as [? ?]
    | H : negb _ = true |- _ => apply negb_true_iff in H
    | H : negb _ = false |- _ => apply negb_false_iff in H
    | H : (_ <? _)%Z = true |- _ => apply Z.ltb_lt in H
    | H : (_ <? _)%Z = false |- _ => apply Z.ltb_ge in H
    | H : (_ <=? _)%Z = true |- _ => apply Z.leb_le in H
    | H : (_ <=? _)%Z = false |- _ => apply Z.leb_gt in H
    | H : (_ =? _)%Z = true |- _ => apply Z.eqb_eq in H
    | H : (_ =? _)%Z = false |- _ => apply Z.eqb_neq in H
    end.
