(* ===== verification/ThreadPool.v ===== *)
(** * The thread pool

    [utils/async/thread_pool.cpp] and [thread_manager.cpp].  The pool is a state
    machine: each step is what a thread does between two points where another
    thread can come in, that is under the mutex of the queue, or one access to an
    atomic.  A task may ask to be run again; whether it does is up to the task, so
    both are steps. *)

From Stdlib Require Import ZArith Lia.
From stdpp Require Import base numbers list gmap.
From S2P Require Import Prelude.

Local Open Scope Z_scope.

Inductive TASK_PRIORITY := DEFAULT | WORKER.

#[export] Instance TASK_PRIORITY_eq_dec : EqDecision TASK_PRIORITY.
Proof. solve_decision. Defined.

Inductive THREAD_KINDS := DISK_IO | COMMON.

#[export] Instance THREAD_KINDS_eq_dec : EqDecision THREAD_KINDS.
Proof. solve_decision. Defined.

(** [AsyncTaskWrap]: the pointer to the task is its name. *)
Record AsyncTaskWrap := mkTask { task_ptr : nat; priority : TASK_PRIORITY }.

#[export] Instance AsyncTaskWrap_eq_dec : EqDecision AsyncTaskWrap.
Proof. solve_decision. Defined.

(** Where a thread of the pool is in [_pool_logic]. *)
Inductive worker :=
  | Waiting                         (** at the head of the loop *)
  | Running (task : AsyncTaskWrap)  (** in [task->apply] *)
  | Recalled (task : AsyncTaskWrap) (** [apply] has asked for another run *)
  | Pushing (task : AsyncTaskWrap)  (** before [pushTaskToQueue] *)
  | Finishing                       (** before [--_task_runned] *)
  | Exited.

#[export] Instance worker_eq_dec : EqDecision worker.
Proof. solve_decision. Defined.

Module ThreadPool.

Record t := mk {
  _in_queue : list AsyncTaskWrap;
  _stop_flag : bool;
  _is_stoped : bool;
  _task_runned : Z;
  _threads : list worker;
  (** the callers of [post] that have read [_is_stoped] and not yet pushed *)
  posting : list AsyncTaskWrap;
  (** the results whose lock is free *)
  unlocked : list AsyncTaskWrap;
}.

Definition make (threads_count : nat) : t := mk [] false false 0 (replicate threads_count Waiting) [] [].

Definition set_queue (q : list AsyncTaskWrap) (p : t) : t :=
  mk q (_stop_flag p) (_is_stoped p) (_task_runned p) (_threads p) (posting p) (unlocked p).
Definition set_runned (n : Z) (p : t) : t :=
  mk (_in_queue p) (_stop_flag p) (_is_stoped p) n (_threads p) (posting p) (unlocked p).
Definition set_thread (num : nat) (w : worker) (p : t) : t :=
  mk (_in_queue p) (_stop_flag p) (_is_stoped p) (_task_runned p) (<[num := w]> (_threads p)) (posting p) (unlocked p).
Definition unlock_result (task : AsyncTaskWrap) (p : t) : t :=
  mk (_in_queue p) (_stop_flag p) (_is_stoped p) (_task_runned p) (_threads p) (posting p) (task :: unlocked p).
Definition set_stop_flag (p : t) : t :=
  mk (_in_queue p) true (_is_stoped p) (_task_runned p) (_threads p) (posting p) (unlocked p).
Definition set_stoped (p : t) : t :=
  mk (_in_queue p) (_stop_flag p) true (_task_runned p) (_threads p) (posting p) (unlocked p).

Definition set_posting (l : list AsyncTaskWrap) (p : t) : t :=
  mk (_in_queue p) (_stop_flag p) (_is_stoped p) (_task_runned p) (_threads p) l (unlocked p).

(** The loop over the queue that chooses the next task. *)
Fixpoint pick (task : option AsyncTaskWrap) (q : list AsyncTaskWrap) : option AsyncTaskWrap :=
  match q with
  | [] => task
  | v :: q =>
    match task with
    | None => if decide (priority v ≠ WORKER) then Some v else pick (Some v) q
    | Some tk =>
      if decide (priority v = DEFAULT ∧ priority tk = WORKER) then Some v else pick (Some tk) q
    end
  end.

(** [erase(find(task))] *)
Fixpoint erase (task : AsyncTaskWrap) (q : list AsyncTaskWrap) : list AsyncTaskWrap :=
  match q with
  | [] => []
  | v :: q => if decide (v = task) then q else v :: erase task q
  end.

Definition pushTaskToQueue (task : AsyncTaskWrap) (p : t) : t := set_queue (_in_queue p ++ [task]) p.

(** The first half of [post]: without a result when the pool has been stopped. *)
Definition post (task : AsyncTaskWrap) (p : t) : t * bool :=
  if _is_stoped p then (p, false) else (set_posting (task :: posting p) p, true).

(** The second half. *)
Definition post_push (task : AsyncTaskWrap) (p : t) : t :=
  set_posting (erase task (posting p)) (pushTaskToQueue task p).

(** The body of the critical section of the thread [num], once it has been woken. *)
Definition take_task (num : nat) (p : t) : t :=
  if _stop_flag p then set_thread num Exited p
  else
    match pick None (_in_queue p) with
    | None => p
    | Some task =>
      set_thread num (Running task)
        (set_queue (erase task (_in_queue p)) (set_runned (_task_runned p + 1) p))
    end.

(** [apply] has returned; [false] unlocks the result. *)
Definition applied (num : nat) (task : AsyncTaskWrap) (need_continue : bool) (p : t) : t :=
  if need_continue then set_thread num (Recalled task) p
  else set_thread num Finishing (unlock_result task p).

(** A task that is to be called again goes back to the queue when others wait. *)
Definition after_recall (num : nat) (task : AsyncTaskWrap) (p : t) : t :=
  if negb (bool_decide (_in_queue p = [])) || _stop_flag p || bool_decide (priority task = WORKER)
  then set_thread num (Pushing task) p
  else set_thread num (Running task) p.

Definition push_back (num : nat) (task : AsyncTaskWrap) (p : t) : t :=
  set_thread num Finishing (pushTaskToQueue task p).

Definition finish (num : nat) (p : t) : t := set_thread num Waiting (set_runned (_task_runned p - 1) p).

(** [flush] ends when this holds, which it reads while it has the mutex. *)
Definition flush_done (p : t) : bool :=
  (bool_decide (_in_queue p = []) || forallb (fun v => bool_decide (priority v = WORKER)) (_in_queue p)) &&
  (_task_runned p =? 0).

Definition active_works (p : t) : Z := Z.of_nat (length (_in_queue p)) + _task_runned p.

(** The list has the tasks that came into the queue, in order. *)
Inductive step : list AsyncTaskWrap → t → list AsyncTaskWrap → t → Prop :=
  | step_post posted task p : step posted p posted (post task p).1
  | step_post_push posted task p : task ∈ posting p → step posted p (posted ++ [task]) (post_push task p)
  | step_take posted num p : _threads p !! num = Some Waiting → _stop_flag p = true ∨ _in_queue p ≠ [] →
      step posted p posted (take_task num p)
  | step_apply posted num task need_continue p : _threads p !! num = Some (Running task) →
      step posted p posted (applied num task need_continue p)
  | step_recall posted num task p : _threads p !! num = Some (Recalled task) →
      step posted p posted (after_recall num task p)
  | step_push posted num task p : _threads p !! num = Some (Pushing task) →
      step posted p posted (push_back num task p)
  | step_finish posted num p : _threads p !! num = Some Finishing → step posted p posted (finish num p)
  | step_stop posted p : step posted p posted (set_stop_flag p)
  | step_join posted p : _stop_flag p = true → Forall (eq Exited) (_threads p) →
      step posted p posted (set_stoped p).

Inductive reachable (threads_count : nat) : list AsyncTaskWrap → t → Prop :=
  | reach_start : reachable threads_count [] (make threads_count)
  | reach_step posted p posted' p' : reachable threads_count posted p →
      step posted p posted' p' → reachable threads_count posted' p'.

(** Any number of steps. *)
Inductive runs : list AsyncTaskWrap → t → list AsyncTaskWrap → t → Prop :=
  | runs_refl posted p : runs posted p posted p
  | runs_step posted p posted1 p1 posted2 p2 :
      step posted p posted1 p1 → runs posted1 p1 posted2 p2 → runs posted p posted2 p2.

(** ** The invariant *)

Definition held (w : worker) : list AsyncTaskWrap :=
  match w with
  | Running task | Recalled task | Pushing task => [task]
  | Waiting | Finishing | Exited => []
  end.

Definition busy (w : worker) : bool :=
  match w with Waiting | Exited => false | _ => true end.

Definition busy_count (ws : list worker) : Z := Z.of_nat (length (base.filter (fun w => busy w = true) ws)).

Definition all_held (ws : list worker) : list AsyncTaskWrap := concat (held <$> ws).

Record inv (threads_count : nat) (posted : list AsyncTaskWrap) (p : t) : Prop := {
  i_runned : _task_runned p = busy_count (_threads p);
  i_tasks : posted ≡ₚ _in_queue p ++ all_held (_threads p) ++ unlocked p;
  i_count : length (_threads p) = threads_count;
  i_stop : _stop_flag p = false → Exited ∉ _threads p;
  i_joined : _is_stoped p = true → Forall (eq Exited) (_threads p);
}.

Abbreviation occ := (count_occ AsyncTaskWrap_eq_dec).

Lemma perm_occ l l' : l ≡ₚ l' ↔ ∀ x, occ l x = occ l' x.
Proof. apply Permutation_count_occ. Qed.

(** A thread that goes from [w] to [w']. *)
Lemma busy_insert ws num w w' : ws !! num = Some w →
  busy_count (<[num := w']> ws) = busy_count ws - (if busy w then 1 else 0) + (if busy w' then 1 else 0).
Proof.
  intros Hw. rewrite <- (take_drop_middle ws num w Hw) at 2.
  rewrite (insert_take_drop ws num w') by (by eapply lookup_lt_Some). unfold busy_count.
  rewrite !filter_app, !filter_cons, !length_app.
  destruct (busy w), (busy w'); repeat case_decide; try done; cbn [length]; lia.
Qed.

Lemma held_insert ws num w w' x : ws !! num = Some w →
  (occ (all_held (<[num := w']> ws)) x + occ (held w) x = occ (all_held ws) x + occ (held w') x)%nat.
Proof.
  intros Hw. rewrite <- (take_drop_middle ws num w Hw) at 2.
  rewrite (insert_take_drop ws num w') by (by eapply lookup_lt_Some).
  unfold all_held. rewrite !fmap_app, !fmap_cons, !concat_app. cbn [concat].
  rewrite !count_occ_app. lia.
Qed.

Lemma erase_perm task q : task ∈ q → q ≡ₚ task :: erase task q.
Proof.
  induction q as [|v q IH]; intros Hin; [by apply elem_of_nil in Hin|]. cbn [erase].
  destruct (decide (v = task)) as [->|Hne]; [done|].
  apply elem_of_cons in Hin as [->|Hin]; [done|]. rewrite (IH Hin) at 1. constructor.
Qed.

(** The task that is chosen: the first of the default priority, or, if there is none,
    the first. *)
Record picked (q : list AsyncTaskWrap) (task : AsyncTaskWrap) : Prop := {
  pk_first : ∃ q1 q2, q = q1 ++ task :: q2 ∧ Forall (fun v => priority v = WORKER) q1 ∧
    (priority task = WORKER → q1 = [] ∧ Forall (fun v => priority v = WORKER) q2);
}.

Lemma pick_worker tk q : priority tk = WORKER → ∃ task, pick (Some tk) q = Some task ∧ picked (tk :: q) task.
Proof.
  intros Htk. cut (∀ q0, Forall (fun v => priority v = WORKER) q0 → ∃ task, pick (Some tk) q = Some task ∧
    picked (tk :: q0 ++ q) task); [intros Hc; by apply (Hc [])|].
  induction q as [|v q IH]; intros q0 H0; cbn [pick].
  - exists tk. split; [done|]. split. exists [], q0. rewrite app_nil_r. done.
  - case_decide as Hv.
    + exists v. split; [done|]. split. exists (tk :: q0), q. split; [done|]. split; [by constructor|].
      intros Hw. destruct Hv. congruence.
    + destruct (IH (q0 ++ [v])) as (task & E & Hp).
      * apply Forall_app. split; [done|]. apply Forall_singleton. destruct (priority v); [|done].
        exfalso. by apply Hv.
      * exists task. split; [done|]. by rewrite <- app_assoc in Hp.
Qed.

Lemma pick_ok q : q ≠ [] → ∃ task, pick None q = Some task ∧ picked q task.
Proof.
  destruct q as [|v q]; [done|]. intros _. cbn [pick]. case_decide as Hv.
  - exists v. split; [done|]. split. by exists [], q.
  - apply pick_worker. by destruct (priority v).
Qed.

Lemma picked_elem q task : picked q task → task ∈ q.
Proof. intros [(q1 & q2 & -> & _)]. set_solver. Qed.

Lemma inv_make n : inv n [] (make n).
Proof.
  split; cbn.
  - unfold busy_count. by induction n.
  - rewrite app_nil_r. by induction n.
  - apply length_replicate.
  - intros _ Hin. apply elem_of_replicate in Hin as [? _]. done.
  - done.
Qed.

(** A step of one thread that keeps the other parts in balance. *)
Lemma inv_thread n posted p num w w' q run un :
  inv n posted p → _threads p !! num = Some w → w ≠ Exited → w' ≠ Exited ∨ _stop_flag p = true →
  run = _task_runned p - (if busy w then 1 else 0) + (if busy w' then 1 else 0) →
  held w ++ _in_queue p ++ unlocked p ≡ₚ held w' ++ q ++ un →
  inv n posted (mk q (_stop_flag p) (_is_stoped p) run (<[num := w']> (_threads p)) (posting p) un).
Proof.
  intros [I1 I2 I3 I4 I5] Hw Hx He Hr Hp. rewrite perm_occ in I2; rewrite perm_occ in Hp.
  split; cbn [_task_runned _threads _in_queue unlocked _stop_flag].
  - rewrite (busy_insert _ _ w) by done. by rewrite <- I1.
  - apply perm_occ. intros x. specialize (I2 x). specialize (Hp x). pose proof (held_insert _ num w w' x Hw) as Hh.
    rewrite !count_occ_app in *. lia.
  - by rewrite length_insert.
  - intros Hs (k & Hk)%list_elem_of_lookup_1. apply list_lookup_insert_Some in Hk as [(_ & -> & _)|[_ Hk]].
    + by destruct He; congruence.
    + by apply (I4 Hs), (list_elem_of_lookup_2 _ k).
  - intros Hs. specialize (I5 Hs). rewrite Forall_lookup in I5. by destruct (Hx (eq_sym (I5 _ _ Hw))).
Qed.

Lemma inv_step n posted p posted' p' : inv n posted p → step posted p posted' p' → inv n posted' p'.
Proof.
  intros Hi Hstep. destruct Hstep as [posted task p|posted task p Hin|posted num p Hw Hq|posted num task nc p Hw
    |posted num task p Hw|posted num task p Hw|posted num p Hw|posted p|posted p Hs Hall].
  - unfold post. destruct (_is_stoped p); [done|]. by destruct Hi.
  - destruct Hi as [I1 I2 I3 I4 I5]. split; try done.
    change (posted ++ [task] ≡ₚ (_in_queue p ++ [task]) ++ all_held (_threads p) ++ unlocked p).
    rewrite I2, <- !app_assoc. f_equiv. by rewrite app_assoc, (Permutation_app_comm _ [task]).
  - unfold take_task. destruct (_stop_flag p) eqn:Es.
    + apply (inv_thread n posted p num Waiting); [done..|by right|cbn; lia|done].
    + destruct Hq as [|Hq]; [done|]. destruct (pick_ok _ Hq) as (task & -> & Hp).
      eapply (inv_thread n posted p num Waiting); [done..|by left|cbn; lia|]. cbn [held app].
      rewrite app_comm_cons. f_equiv; [by apply erase_perm, picked_elem|done].
  - unfold applied. destruct nc.
    + by apply (inv_thread n posted p num (Running task)); [| | |left|cbn; lia|].
    + apply (inv_thread n posted p num (Running task)); [done..|by left|cbn; lia|]. cbn.
      apply Permutation_middle.
  - unfold after_recall. destruct (_ || _).
    + by apply (inv_thread n posted p num (Recalled task)); [| | |left|cbn; lia|].
    + by apply (inv_thread n posted p num (Recalled task)); [| | |left|cbn; lia|].
  - apply (inv_thread n posted p num (Pushing task)); [done..|by left|cbn; lia|]. cbn.
    rewrite <- app_assoc. apply Permutation_middle.
  - by apply (inv_thread n posted p num Finishing); [| | |left|cbn; lia|].
  - destruct Hi as [I1 I2 I3 I4 I5]. by split.
  - destruct Hi as [I1 I2 I3 I4 I5]. by split.
Qed.

Lemma reachable_inv n posted p : reachable n posted p → inv n posted p.
Proof. induction 1; [apply inv_make|by eapply inv_step]. Qed.

(** ** Emptying the pool *)

(** The steps of the threads when no task asks to be run again. *)
Inductive quiet : t → t → Prop :=
  | quiet_take num p : _threads p !! num = Some Waiting → _in_queue p ≠ [] → quiet p (take_task num p)
  | quiet_apply num task p : _threads p !! num = Some (Running task) → quiet p (applied num task false p)
  | quiet_recall num task p : _threads p !! num = Some (Recalled task) → quiet p (after_recall num task p)
  | quiet_push num task p : _threads p !! num = Some (Pushing task) → quiet p (push_back num task p)
  | quiet_finish num p : _threads p !! num = Some Finishing → quiet p (finish num p).

Lemma quiet_is_step posted p p' : quiet p p' → step posted p posted p'.
Proof. intros []; [apply step_take; auto|by constructor..]. Qed.

(** The steps that are left to do: five for a task in the queue. *)
Definition left_to_do (w : worker) : nat :=
  match w with
  | Waiting | Exited => 0
  | Finishing => 1
  | Running _ => 2
  | Pushing _ => 7
  | Recalled _ => 8
  end.

Definition work (p : t) : nat := 5 * length (_in_queue p) + sum_list_with left_to_do (_threads p).

Lemma work_insert ws num w w' : ws !! num = Some w →
  (sum_list_with left_to_do (<[num := w']> ws) + left_to_do w = sum_list_with left_to_do ws + left_to_do w')%nat.
Proof.
  intros Hw. rewrite <- (take_drop_middle ws num w Hw) at 2.
  rewrite (insert_take_drop ws num w') by (by eapply lookup_lt_Some).
  rewrite !sum_list_with_app. cbn [sum_list_with]. lia.
Qed.

Lemma quiet_work p p' : _stop_flag p = false → quiet p p' → (work p' < work p)%nat ∧ _stop_flag p' = false.
Proof.
  intros Hl Hq. unfold work. destruct Hq as [num p Hw Hne|num task p Hw|num task p Hw|num task p Hw|num p Hw].
  - unfold take_task. rewrite Hl. destruct (pick_ok _ Hne) as (task & -> & Hp). split; [|done].
    pose proof (work_insert _ num _ (Running task) Hw) as Hi.
    pose proof (Permutation_length (erase_perm _ _ (picked_elem _ _ Hp))) as He. cbn in *. lia.
  - pose proof (work_insert _ num _ Finishing Hw) as Hi. cbn in *. split; [lia|done].
  - unfold after_recall. rewrite Hl. destruct (_ || _); split; try done.
    + pose proof (work_insert _ num _ (Pushing task) Hw) as Hi. cbn in *. lia.
    + pose proof (work_insert _ num _ (Running task) Hw) as Hi. cbn in *. lia.
  - pose proof (work_insert _ num _ Finishing Hw) as Hi. cbn in *. rewrite length_app. cbn. split; [lia|done].
  - pose proof (work_insert _ num _ Waiting Hw) as Hi. cbn in *. split; [lia|done].
Qed.

(** A pool that cannot go on is empty. *)
Lemma quiet_progress n posted p : inv (S n) posted p → _stop_flag p = false →
  (∃ p', quiet p p') ∨ _in_queue p = [] ∧ Forall (eq Waiting) (_threads p).
Proof.
  intros [I1 I2 I3 I4 I5] Hl.
  destruct (Forall_Exists_dec (fun w => Waiting = w) (fun w => Waiting ≠ w) (fun w => decide (Waiting = w)) (_threads p)) as [Hall|Hex].
  - destruct (_in_queue p) as [|task q] eqn:Eq; [by right|left]. destruct (_threads p) as [|w ws] eqn:Et; [done|].
    apply Forall_cons in Hall as [<- _]. exists (take_task 0 p). apply quiet_take; [by rewrite Et|by rewrite Eq].
  - left. apply Exists_exists in Hex as (w & (num & Hw)%list_elem_of_lookup_1 & Hne).
    destruct w as [|task|task|task| |]; [done|..|].
    1-4: eexists; by econstructor.
    exfalso. by apply (I4 Hl), (list_elem_of_lookup_2 _ num).
Qed.

Lemma idle_all_done n posted p : inv n posted p → _in_queue p = [] → Forall (eq Waiting) (_threads p) →
  unlocked p ≡ₚ posted ∧ flush_done p = true.
Proof.
  intros [I1 I2 _ _ _] Eq Hw. assert (Hh : all_held (_threads p) = [] ∧ busy_count (_threads p) = 0).
  { clear -Hw. induction Hw as [|w ws Ew Hw IH]; [done|]. subst w. destruct IH as [IH1 IH2]. split; [exact IH1|].
    unfold busy_count in *. by rewrite filter_cons, decide_False. }
  destruct Hh as [Hh Hb]. rewrite Eq, Hh in I2. split; [by rewrite I2|]. unfold flush_done. by rewrite Eq, I1, Hb.
Qed.

(** The threads of a pool that has been stopped do nothing any more. *)
Lemma stopped_step n posted p posted' p' : inv n posted p → _is_stoped p = true → step posted p posted' p' →
  _is_stoped p' = true ∧ unlocked p' = unlocked p.
Proof.
  intros [_ _ _ _ I5] Hs Hstep. specialize (I5 Hs). rewrite Forall_lookup in I5.
  destruct Hstep as [posted task p|posted task p Hin|posted num p Hw Hq|posted num task nc p Hw
    |posted num task p Hw|posted num task p Hw|posted num p Hw|posted p|posted p _ Hall];
    try (by specialize (I5 _ _ Hw)); try done.
  unfold post. by rewrite Hs.
Qed.

Inductive quiet_run : nat → t → t → Prop :=
  | quiet_refl p : quiet_run 0 p p
  | quiet_more k p p1 p2 : quiet p p1 → quiet_run k p1 p2 → quiet_run (S k) p p2.

Lemma quiet_run_inv n posted k p p' : inv n posted p → _stop_flag p = false → quiet_run k p p' →
  inv n posted p' ∧ _stop_flag p' = false ∧ (k + work p' <= work p)%nat.
Proof.
  intros Hi Hl Hr. revert Hi Hl. induction Hr as [p|k p p1 p2 Hq Hr IH]; intros Hi Hl; [split_and!; [done..|lia]|].
  destruct (quiet_work _ _ Hl Hq) as [Hw Hl1]. destruct IH as (I2 & L2 & W2); [|done|split_and!; [done..|lia]].
  eapply inv_step; [exact Hi|by apply quiet_is_step].
Qed.

(** ** Properties *)

(** C23: the pool neither loses a task nor runs it twice.  Whatever the threads and the
    callers do, every task that came into the queue is in exactly one place: in the
    queue, with one thread, or done with its result unlocked; and [_task_runned]
    counts the threads at work. *)
Theorem pool_conserves_tasks threads_count posted p : reachable threads_count posted p →
  posted ≡ₚ _in_queue p ++ all_held (_threads p) ++ unlocked p ∧ _task_runned p = busy_count (_threads p).
Proof. intros [I1 I2 _ _ _]%reachable_inv. done. Qed.

(** C24: when [flush] returns, every task of the default priority that had come into the
    queue has been run to its end. *)
Theorem pool_flush_sound threads_count posted p task : reachable threads_count posted p →
  flush_done p = true → task ∈ posted → priority task = DEFAULT → task ∈ unlocked p.
Proof.
  intros [I1 I2 _ _ _]%reachable_inv [Hq Hr%Z.eqb_eq]%andb_true_iff Hin Hp. rewrite I2, !elem_of_app in Hin.
  rewrite I1 in Hr. destruct Hin as [Hin|[Hin|Hin]]; [exfalso..|done].
  - apply orb_true_iff in Hq as [Hq%bool_decide_eq_true_1|Hq]; [rewrite Hq in Hin; by apply elem_of_nil in Hin|].
    rewrite forallb_forall in Hq. apply list_elem_of_In, Hq, bool_decide_eq_true_1 in Hin. congruence.
  - unfold all_held in Hin. apply list_elem_of_In, in_concat in Hin as (l & Hl & Hin).
    apply list_elem_of_In, list_elem_of_fmap in Hl as (w & -> & Hw).
    assert (Hb : busy w = true) by (by destruct w).
    assert (Hw' : w ∈ base.filter (fun w => busy w = true) (_threads p)) by (by apply list_elem_of_filter).
    unfold busy_count in Hr. destruct (base.filter _ _); [by apply elem_of_nil in Hw'|]. cbn in Hr. lia.
Qed.

(** C25: the pool cannot get stuck.  From any state of a pool with a thread that has not
    been told to stop, once no task asks to be run again, every run of the threads
    ends, after at most [work p] steps; and where it ends all tasks are done, and
    [flush] returns. *)
Theorem pool_drains threads_count posted p k p' : (0 < threads_count)%nat → reachable threads_count posted p →
  _stop_flag p = false → quiet_run k p p' →
  (k <= work p)%nat ∧ ((∃ p2, quiet p' p2) ∨ unlocked p' ≡ₚ posted ∧ flush_done p' = true).
Proof.
  intros Hn Hr Hl Hrun. destruct threads_count as [|n]; [lia|].
  destruct (quiet_run_inv _ _ _ _ _ (reachable_inv _ _ _ Hr) Hl Hrun) as (Hi & Hl' & Hw). split; [lia|].
  destruct (quiet_progress _ _ _ Hi Hl') as [Hq|[Hq Ha]]; [by left|right]. by eapply idle_all_done.
Qed.

(** Stopping abandons the tasks that are still in the queue: once the threads have
    been joined no result is unlocked any more, so whoever waits for one of them
    waits for ever; a task can even be queued after that. *)
Theorem pool_stop_abandons threads_count posted p posted' p' :
  reachable threads_count posted p → _is_stoped p = true →
  runs posted p posted' p' → unlocked p' = unlocked p ∧ posted' ≡ₚ _in_queue p' ++ unlocked p.
Proof.
  intros Hr Hs Hrun. apply reachable_inv in Hr. revert Hr Hs.
  induction Hrun as [posted p|posted p posted1 p1 posted2 p2 Hstep Hrun IH]; intros Hi Hs.
  - split; [done|]. destruct Hi as [_ I2 _ _ I5]. rewrite I2. f_equiv.
    specialize (I5 Hs). assert (all_held (_threads p) = []) as ->; [|done].
    clear -I5. induction I5 as [|w ws <- _ IH]; [done|exact IH].
  - destruct (stopped_step _ _ _ _ _ Hi Hs Hstep) as [Hs1 <-]. apply IH; [by eapply inv_step|done].
Qed.

(** ** A pool *)

Definition task_a : AsyncTaskWrap := mkTask 1 DEFAULT.
Definition task_b : AsyncTaskWrap := mkTask 2 WORKER.

(** Two tasks given to a pool of two threads; the first one done. *)
Definition small_pool : t :=
  finish 0 (applied 0 task_a false (take_task 0
    (post_push task_b (post_push task_a (post task_b (post task_a (make 2)).1).1)))).

Lemma small_pool_reachable : reachable 2 [task_a; task_b] small_pool.
Proof.
  pose proof (reach_step 2 _ _ _ _ (reach_start 2) (step_post [] task_a (make 2))) as R1.
  pose proof (reach_step 2 _ _ _ _ R1 (step_post [] task_b _)) as R2.
  set (p2 := (post task_b _).1) in R2.
  pose proof (reach_step 2 _ _ _ _ R2 (step_post_push [] task_a p2 ltac:(right; left))) as R3.
  set (p3 := post_push task_a p2) in R3.
  pose proof (reach_step 2 _ _ _ _ R3 (step_post_push [task_a] task_b p3 ltac:(left))) as R4.
  set (p4 := post_push task_b p3) in R4.
  pose proof (reach_step 2 _ _ _ _ R4 (step_take [task_a; task_b] 0 p4 eq_refl ltac:(by right))) as R5.
  pose proof (reach_step 2 _ _ _ _ R5 (step_apply [task_a; task_b] 0 task_a false (take_task 0 p4) eq_refl)) as R6.
  exact (reach_step 2 _ _ _ _ R6 (step_finish [task_a; task_b] 0 (applied 0 task_a false (take_task 0 p4)) eq_refl)).
Qed.

Lemma pool_conserves_tasks_witness :
  [task_a; task_b] ≡ₚ _in_queue small_pool ++ all_held (_threads small_pool) ++ unlocked small_pool ∧
  _task_runned small_pool = 0.
Proof. exact (pool_conserves_tasks 2 [task_a; task_b] small_pool small_pool_reachable). Defined.

Lemma pool_flush_sound_witness : flush_done small_pool = true ∧ task_a ∈ unlocked small_pool.
Proof.
  split; [done|]. apply (pool_flush_sound 2 [task_a; task_b] small_pool task_a small_pool_reachable);
    [done|left|done].
Defined.

Lemma pool_drains_witness :
  (0 <= work small_pool)%nat ∧
  ((∃ p2, quiet small_pool p2) ∨ unlocked small_pool ≡ₚ [task_a; task_b] ∧ flush_done small_pool = true).
Proof.
  apply (pool_drains 2 [task_a; task_b] small_pool 0 small_pool);
    [lia|apply small_pool_reachable|done|constructor].
Defined.

Definition stopped_pool : t := set_stoped (take_task 1 (take_task 0 (set_stop_flag small_pool))).

Lemma stopped_pool_reachable : reachable 2 [task_a; task_b] stopped_pool.
Proof.
  pose proof (reach_step 2 _ _ _ _ small_pool_reachable (step_stop [task_a; task_b] small_pool)) as R1.
  set (p1 := set_stop_flag small_pool) in R1.
  pose proof (reach_step 2 _ _ _ _ R1 (step_take [task_a; task_b] 0 p1 eq_refl ltac:(by left))) as R2.
  pose proof (reach_step 2 _ _ _ _ R2 (step_take [task_a; task_b] 1 (take_task 0 p1) eq_refl ltac:(by left))) as R3.
  apply (reach_step 2 _ _ _ _ R3). apply step_join; [done|by repeat constructor].
Qed.

Lemma pool_stop_abandons_witness :
  unlocked stopped_pool = [task_a] ∧ [task_a; task_b] ≡ₚ _in_queue stopped_pool ++ [task_a].
Proof.
  apply (pool_stop_abandons 2 [task_a; task_b] stopped_pool [task_a; task_b] stopped_pool);
    [apply stopped_pool_reachable|done|constructor].
Defined.
End ThreadPool.

Module ThreadManager.

(** The pools by kind, as [std::unordered_map]. *)
Record t := mk { _pools : list (THREAD_KINDS * ThreadPool.t); _stoped : bool }.

(** [_pools[kv.kind] = ...] *)
Fixpoint set_pool (k : THREAD_KINDS) (p : ThreadPool.t) (l : list (THREAD_KINDS * ThreadPool.t))
  : list (THREAD_KINDS * ThreadPool.t) :=
  match l with
  | [] => [(k, p)]
  | x :: l => if decide (x.1 = k) then (k, p) :: l else x :: set_pool k p l
  end.

Fixpoint find_pool (k : THREAD_KINDS) (l : list (THREAD_KINDS * ThreadPool.t)) : option ThreadPool.t :=
  match l with
  | [] => None
  | x :: l => if decide (x.1 = k) then Some x.2 else find_pool k l
  end.

Definition make (params : list (nat * THREAD_KINDS)) : t :=
  mk (fold_left (fun l kv => set_pool kv.2 (ThreadPool.make kv.1) l) params []) false.

(** The instance is made by the first call only. *)
Definition start (params : list (nat * THREAD_KINDS)) (instance : option t) : option t :=
  match instance with None => Some (make params) | Some m => Some m end.

Definition post (kind : THREAD_KINDS) (task : AsyncTaskWrap) (m : t) : outcome (t * bool) :=
  match find_pool kind (_pools m) with
  | None => Throw
  | Some p =>
    let '(p, result) := ThreadPool.post task p in
    Ok (mk (set_pool kind p (_pools m)) (_stoped m), result)
  end.

Definition active_works (m : t) : Z := fold_left (fun res kv => res + ThreadPool.active_works kv.2) (_pools m) 0.

End ThreadManager.
