(* ===== verification/ByteBuffer.v ===== *)
(** * The byte buffer of the compressors

    [libdariadb/compression/bytebuffer.h]: a region of memory with a cursor
    [_pos] that starts at [_cap - 1] and moves DOWN by [sizeof(T)] before every
    typed access.  The model keeps the region's bytes in [_data], the 32-bit
    cursor with its wrap-around, and makes an access outside the region [UB].
    Integers are stored little-endian, as on the targets the code supports.

    Lemmas: a write that fits is [push] of the value's bytes, most significant
    first; a read returns the next bytes of [stream]; what a sequence of pushes
    wrote is exactly what a reader placed at the start position sees. *)

From Stdlib Require Import ZArith Lia.
From stdpp Require Import base numbers list.
From S2P Require Import Prelude.

Local Open Scope Z_scope.

Record ByteBuffer := mkByteBuffer {
  _data : list Z;
  _cap : Z;
  _pos : Z;
}.

Definition set_pos (p : Z) (bb : ByteBuffer) : ByteBuffer :=
  mkByteBuffer (_data bb) (_cap bb) p.
Definition set_data (d : list Z) (bb : ByteBuffer) : ByteBuffer :=
  mkByteBuffer d (_cap bb) (_pos bb).

Definition free_size (bb : ByteBuffer) : Z := _pos bb.
Definition is_full (bb : ByteBuffer) : bool := _pos bb =? 0.
Definition reset_pos (bb : ByteBuffer) : ByteBuffer :=
  set_pos (u32 (_cap bb - 1)) bb.

(** [ByteBuffer(const Range &r)]: the range is the list of its bytes. *)
Definition make_buffer (range : list Z) : ByteBuffer :=
  reset_pos (mkByteBuffer range (u32 (Z.of_nat (length range))) 0).

Definition get_range (bb : ByteBuffer) : list Z := _data bb.

(** The release build: no [_pos > _cap] check. *)
Definition move_pos (count : Z) (bb : ByteBuffer) : ByteBuffer :=
  set_pos (u32 (_pos bb - count)) bb.

(** [offset_off<T>] with [sizeof(T) = n]; the access that follows it is only
    defined when the [n] bytes at the new position belong to the region. *)
Definition offset_off (n : nat) (bb : ByteBuffer) : outcome ByteBuffer :=
  let bb' := move_pos (Z.of_nat n) bb in
  if _pos bb' + Z.of_nat n <=? Z.of_nat (length (_data bb')) then Ok bb' else UB.

(** [write<T>(v)], the value converted to the [n]-byte type [T]. *)
Definition write (n : nat) (v : Z) (bb : ByteBuffer) : outcome ByteBuffer :=
  bb' ← offset_off n bb;
  Ok (set_data (store (_data bb') (Z.to_nat (_pos bb')) (to_le n v)) bb').

(** [read<T>()] *)
Definition read (n : nat) (bb : ByteBuffer) : outcome (Z * ByteBuffer) :=
  bb' ← offset_off n bb;
  Ok (of_le (take n (drop (Z.to_nat (_pos bb')) (_data bb'))), bb').

(** ** Well-formed buffers *)

Definition bb_wf (bb : ByteBuffer) : Prop :=
  0 <= _pos bb <= Z.of_nat (length (_data bb)) ∧
  Z.of_nat (length (_data bb)) < 2 ^ 32.

Lemma make_buffer_wf r :
  (0 < length r)%nat → Z.of_nat (length r) < 2 ^ 32 →
  bb_wf (make_buffer r) ∧ _pos (make_buffer r) = Z.of_nat (length r) - 1.
Proof.
  intros H1 H2. unfold bb_wf, make_buffer, reset_pos; cbn [_pos _data _cap set_pos].
  rewrite (wrap_small 32 (Z.of_nat (length r))) by lia.
  rewrite wrap_small by lia. lia.
Qed.

(** ** Pushing bytes *)

(** [push bs bb]: the bytes [bs] stored one below the other, first to last. *)
Definition push (bs : list Z) (bb : ByteBuffer) : ByteBuffer :=
  mkByteBuffer
    (store (_data bb) (Z.to_nat (_pos bb) - length bs) (rev bs))
    (_cap bb)
    (_pos bb - Z.of_nat (length bs)).

(** The bytes below the cursor, in the order a reader consumes them. *)
Definition stream (bb : ByteBuffer) : list Z :=
  rev (take (Z.to_nat (_pos bb)) (_data bb)).

(** The [n]-byte encoding of [v], most significant byte first. *)
Definition to_be (n : nat) (v : Z) : list Z := rev (to_le n v).

Lemma length_to_be n v : length (to_be n v) = n.
Proof. unfold to_be. by rewrite length_rev, length_to_le. Qed.

Lemma offset_off_fits n bb :
  bb_wf bb → Z.of_nat n <= _pos bb →
  offset_off n bb = Ok (set_pos (_pos bb - Z.of_nat n) bb).
Proof.
  intros [Hp Hl] Hn. unfold offset_off, move_pos. cbn [_pos _data set_pos].
  rewrite wrap_small by lia. rewrite (proj2 (Z.leb_le _ _)) by lia. done.
Qed.

Lemma write_fits n v bb :
  bb_wf bb → Z.of_nat n <= _pos bb → write n v bb = Ok (push (to_be n v) bb).
Proof.
  intros Hwf Hn. unfold write. rewrite (offset_off_fits n bb Hwf Hn), bind_Ok.
  unfold push, set_data, set_pos; cbn [_pos _data _cap].
  unfold to_be. rewrite rev_involutive, length_rev, length_to_le.
  do 2 f_equal. f_equal. lia.
Qed.

Lemma push_nil bb : bb_wf bb → push [] bb = bb.
Proof.
  intros [Hp Hl]. destruct bb as [d c p]; unfold push; cbn [_pos _data _cap length] in *.
  f_equal; [|lia]. unfold store. cbn [rev length app].
  by rewrite Nat.add_0_r, take_drop.
Qed.

Lemma push_wf bs bb :
  bb_wf bb → Z.of_nat (length bs) <= _pos bb → bb_wf (push bs bb).
Proof.
  intros [Hp Hl] Hn. unfold bb_wf, push; cbn [_pos _data].
  rewrite length_store by (rewrite length_rev; lia). lia.
Qed.

Lemma push_pos bs bb : _pos (push bs bb) = _pos bb - Z.of_nat (length bs).
Proof. done. Qed.

Lemma push_length bs bb :
  bb_wf bb → Z.of_nat (length bs) <= _pos bb →
  length (_data (push bs bb)) = length (_data bb).
Proof.
  intros [Hp Hl] Hn. cbn [push _data]. apply length_store. rewrite length_rev. lia.
Qed.

(** What is left below the cursor is not touched by a push. *)
Lemma push_take bs bb :
  bb_wf bb → Z.of_nat (length bs) <= _pos bb →
  take (Z.to_nat (_pos bb) - length bs) (_data (push bs bb)) =
  take (Z.to_nat (_pos bb) - length bs) (_data bb).
Proof. intros [Hp Hl] Hn. cbn [push _data]. apply take_store. lia. Qed.

(** From the new position up: the pushed bytes, then what was above before. *)
Lemma push_drop bs bb :
  bb_wf bb → Z.of_nat (length bs) <= _pos bb →
  drop (Z.to_nat (_pos (push bs bb))) (_data (push bs bb)) =
  rev bs ++ drop (Z.to_nat (_pos bb)) (_data bb).
Proof.
  intros [Hp Hl] Hn. rewrite push_pos. cbn [push _data].
  replace (Z.to_nat (_pos bb - Z.of_nat (length bs)))
    with (Z.to_nat (_pos bb) - length bs)%nat by lia.
  rewrite drop_store by lia. rewrite length_rev. do 2 f_equal. lia.
Qed.

Lemma push_app bs1 bs2 bb :
  bb_wf bb → Z.of_nat (length bs1 + length bs2) <= _pos bb →
  push (bs1 ++ bs2) bb = push bs2 (push bs1 bb).
Proof.
  intros Hwf Hn.
  assert (Hwf1 : bb_wf (push bs1 bb)) by (apply push_wf; [done|lia]).
  pose proof (push_drop bs1 bb Hwf ltac:(lia)) as Hd1.
  destruct Hwf as [Hp Hl]. destruct bb as [d c p].
  unfold push in *; cbn [_pos _data _cap] in *.
  rewrite length_app. f_equal; [|lia].
  unfold store at 1. rewrite length_rev, length_app, rev_app_distr.
  unfold store at 1.
  assert (Hle : (Z.to_nat (p - Z.of_nat (length bs1)) - length bs2 =
    Z.to_nat p - (length bs1 + length bs2))%nat) by lia.
  rewrite Hle, length_rev.
  rewrite <- app_assoc. f_equal; [|f_equal].
  - unfold store. rewrite take_app_le by (rewrite length_take; lia).
    rewrite take_take. f_equal. lia.
  - replace (Z.to_nat p - (length bs1 + length bs2) + length bs2)%nat
      with (Z.to_nat (p - Z.of_nat (length bs1))) by lia.
    rewrite Hd1. f_equal. f_equal. lia.
Qed.

(** A reader placed where the pushes began sees them in order. *)
Lemma stream_after_push bs bb :
  bb_wf bb → Z.of_nat (length bs) <= _pos bb →
  stream (set_pos (_pos bb) (push bs bb)) = bs ++ stream (push bs bb).
Proof.
  intros Hwf Hn. pose proof (push_drop bs bb Hwf Hn) as Hd.
  pose proof (push_length bs bb Hwf Hn) as HL.
  destruct Hwf as [Hp Hl]. unfold stream. cbn [set_pos _pos _data].
  rewrite push_pos in *.
  set (q := Z.to_nat (_pos bb - Z.of_nat (length bs))) in *.
  rewrite <- (take_drop q (_data (push bs bb))) at 1. rewrite Hd.
  rewrite take_app_ge by (rewrite length_take; lia).
  rewrite length_take, Nat.min_l by lia.
  rewrite take_app_ge by (rewrite length_rev; lia).
  rewrite length_rev. replace (Z.to_nat (_pos bb) - q - length bs)%nat with O by lia.
  rewrite take_0, app_nil_r, rev_app_distr, rev_involutive. done.
Qed.

(** ** Reading *)

Definition advance (n : nat) (bb : ByteBuffer) : ByteBuffer :=
  set_pos (_pos bb - Z.of_nat n) bb.

Lemma advance_advance m n bb : advance n (advance m bb) = advance (m + n) bb.
Proof. unfold advance, set_pos; cbn [_pos _data _cap]. f_equal. lia. Qed.

Lemma length_stream bb : bb_wf bb → length (stream bb) = Z.to_nat (_pos bb).
Proof. intros [Hp Hl]. unfold stream. rewrite length_rev, length_take. lia. Qed.

Lemma advance_wf n bb : bb_wf bb → Z.of_nat n <= _pos bb → bb_wf (advance n bb).
Proof. intros [Hp Hl] Hn. unfold bb_wf, advance; cbn [_pos _data set_pos]. lia. Qed.

(** The stream is consumed from the front. *)
Lemma stream_advance n bb :
  bb_wf bb → Z.of_nat n <= _pos bb → stream (advance n bb) = drop n (stream bb).
Proof.
  intros [Hp Hl] Hn. unfold stream, advance; cbn [set_pos _pos _data].
  rewrite <- (take_drop (Z.to_nat (_pos bb - Z.of_nat n)) (take (Z.to_nat (_pos bb)) (_data bb))).
  rewrite rev_app_distr, take_take, Nat.min_l by lia.
  rewrite drop_app_length'; [done|].
  rewrite length_rev, length_drop, length_take. lia.
Qed.

Lemma read_stream n bs s bb :
  bb_wf bb → stream bb = bs ++ s → length bs = n →
  read n bb = Ok (of_le (rev bs), advance n bb) ∧
  bb_wf (advance n bb) ∧ stream (advance n bb) = s.
Proof.
  intros Hwf Hs Hn.
  assert (Hpos : Z.of_nat n <= _pos bb).
  { pose proof (length_stream bb Hwf) as HL. rewrite Hs, length_app in HL.
    destruct Hwf as [Hp _]. lia. }
  split; [|split].
  - unfold read. rewrite (offset_off_fits n bb Hwf Hpos), bind_Ok.
    cbn [set_pos _pos _data]. unfold advance. do 2 f_equal.
    f_equal. rewrite <- (rev_involutive (take _ _)). f_equal.
    pose proof (length_stream bb Hwf) as HL.
    assert (Hb : bs = take n (stream bb)) by (rewrite Hs; by rewrite take_app_length').
    rewrite Hb. destruct Hwf as [Hp Hl]. unfold stream.
    rewrite <- (take_drop (Z.to_nat (_pos bb - Z.of_nat n)) (take (Z.to_nat (_pos bb)) (_data bb))).
    rewrite rev_app_distr, take_app_length'.
    + f_equal. rewrite take_drop_commute. do 2 f_equal. lia.
    + rewrite length_rev, length_drop, length_take. lia.
  - by apply advance_wf.
  - rewrite stream_advance by done. rewrite Hs. by apply drop_app_length'.
Qed.

(** Reading back an [n]-byte value. *)
Lemma read_be n v s bb :
  bb_wf bb → stream bb = to_be n v ++ s → 0 <= v < 256 ^ Z.of_nat n →
  read n bb = Ok (v, advance n bb) ∧
  bb_wf (advance n bb) ∧ stream (advance n bb) = s.
Proof.
  intros Hwf Hs Hv.
  destruct (read_stream n (to_be n v) s bb Hwf Hs (length_to_be n v)) as (-> & ? & ?).
  unfold to_be. by rewrite rev_involutive, of_to_le_small.
Qed.

Lemma read_byte b s bb :
  bb_wf bb → stream bb = b :: s →
  read 1 bb = Ok (b, advance 1 bb) ∧
  bb_wf (advance 1 bb) ∧ stream (advance 1 bb) = s.
Proof.
  intros Hwf Hs. destruct (read_stream 1 [b] s bb Hwf Hs eq_refl) as (-> & ? & ?).
  cbn. by rewrite Z.add_0_r.
Qed.

(** [reads f bs r]: on a buffer whose next bytes are [bs], [f] consumes
    exactly [bs] and returns [r]. *)
Definition reads {A} (f : ByteBuffer → outcome (A * ByteBuffer)) (bs : list Z) (r : A) : Prop :=
  ∀ bw s, bb_wf bw → stream bw = bs ++ s →
    f bw = Ok (r, advance (length bs) bw) ∧
    bb_wf (advance (length bs) bw) ∧ stream (advance (length bs) bw) = s.

Lemma to_be_1 v : to_be 1 v = [v mod 256].
Proof. reflexivity. Qed.
Lemma to_be_2 v : to_be 2 v = [v / 256 mod 256; v mod 256].
Proof. reflexivity. Qed.

(** Two readers in sequence. *)
Lemma reads_bind {A B} (f : ByteBuffer → outcome (A * ByteBuffer))
    (g : A → ByteBuffer → outcome (B * ByteBuffer)) bs1 bs2 a b :
  reads f bs1 a → reads (g a) bs2 b →
  reads (fun bw => '(x, bw) ← f bw; g x bw) (bs1 ++ bs2) b.
Proof.
  intros Hf Hg bw s Hwf Hs. rewrite <- app_assoc in Hs.
  destruct (Hf bw _ Hwf Hs) as (-> & Hwf1 & Hs1). rewrite bind_Ok.
  destruct (Hg _ s Hwf1 Hs1) as (-> & Hwf2 & Hs2).
  rewrite advance_advance in *. by rewrite length_app.
Qed.

Lemma reads_ret {A} (a : A) : reads (fun bw => Ok (a, bw)) [] a.
Proof.
  intros bw s Hwf Hs. cbn [length]. assert (advance 0 bw = bw) as ->.
  { destruct bw. unfold advance, set_pos. cbn. f_equal. lia. }
  done.
Qed.

(** A result computed from what was read. *)
Lemma reads_then {A B} (f : ByteBuffer → outcome (A * ByteBuffer)) (g : A → outcome B) bs a b :
  reads f bs a → g a = Ok b →
  reads (fun bw => '(x, bw) ← f bw; y ← g x; Ok (y, bw)) bs b.
Proof.
  intros Hf Hg bw s Hwf Hs. destruct (Hf bw s Hwf Hs) as (-> & ? & ?).
  rewrite bind_Ok, Hg. done.
Qed.

Lemma reads_map {A B} (f : ByteBuffer → outcome (A * ByteBuffer)) (g : A → B) bs a :
  reads f bs a → reads (fun bw => '(x, bw) ← f bw; Ok (g x, bw)) bs (g a).
Proof.
  intros Hf bw s Hwf Hs. destruct (Hf bw s Hwf Hs) as (-> & ? & ?). done.
Qed.

Lemma reads_byte b : reads (read 1) [b] b.
Proof. intros bw s Hwf Hs. by apply read_byte. Qed.

Lemma reads_be n v : 0 <= v < 256 ^ Z.of_nat n → reads (read n) (to_be n v) v.
Proof. intros Hv bw s Hwf Hs. rewrite length_to_be. by apply read_be. Qed.

#[export] Hint Resolve push_wf advance_wf : dariadb.

(** Reading from where [bs] was pushed. *)
Lemma reads_pushed {A} (f : ByteBuffer → outcome (A * ByteBuffer)) bs r bw :
  reads f bs r → bb_wf bw → Z.of_nat (length bs) <= _pos bw →
  ∃ bwr, f (set_pos (_pos bw) (push bs bw)) = Ok (r, bwr) ∧ _pos bwr = _pos (push bs bw).
Proof.
  intros Hf Hwf Hfit.
  destruct (Hf (set_pos (_pos bw) (push bs bw)) (stream (push bs bw))) as (-> & _).
  - destruct (push_wf _ _ Hwf Hfit). destruct Hwf.
    unfold bb_wf in *. cbn [set_pos _pos _data]. by rewrite push_length.
  - by apply stream_after_push.
  - by eexists.
Qed.
