(* ===== verification/Float64.v ===== *)
(** * Values

    [typedef double Value] of [libdariadb/meas.h]: a value is the 64-bit pattern
    of an IEEE 754 binary64 number, which is what the compressor works on; the
    comparisons and the addition of the statistics are those of the standard
    library's [SpecFloat] on the decoded pattern (rounding to nearest even; the
    payload of a NaN that an addition produces is not tracked). *)

From Stdlib Require Import ZArith Lia SpecFloat.
From stdpp Require Import base numbers list.
From S2P Require Import Prelude.

Local Open Scope Z_scope.

Definition f64_sign (b : Z) : bool := 2 ^ 63 <=? b.
Definition f64_exponent (b : Z) : Z := b / 2 ^ 52 mod 2 ^ 11.
Definition f64_mantissa (b : Z) : Z := b mod 2 ^ 52.

Definition f64_decode (b : Z) : spec_float :=
  let s := f64_sign b in
  let e := f64_exponent b in
  let m := f64_mantissa b in
  if e =? 0 then
    match m with Z.pos m => S754_finite s m (-1074) | _ => S754_zero s end
  else if e =? 2047 then
    if m =? 0 then S754_infinity s else S754_nan
  else
    match m + 2 ^ 52 with Z.pos m => S754_finite s m (e - 1075) | _ => S754_nan end.

Definition f64_nan : Z := 0x7ff8000000000000.

Definition f64_encode (f : spec_float) : Z :=
  let sgn (s : bool) := if s then 2 ^ 63 else 0 in
  match f with
  | S754_zero s => sgn s
  | S754_infinity s => sgn s + 2047 * 2 ^ 52
  | S754_nan => f64_nan
  | S754_finite s m e =>
    if Z.pos m <? 2 ^ 52 then sgn s + Z.pos m
    else sgn s + (e + 1075) * 2 ^ 52 + (Z.pos m - 2 ^ 52)
  end.

(** The operators of [double] on patterns. *)
Definition f64_lt (a b : Z) : bool := SFltb (f64_decode a) (f64_decode b).
Definition f64_le (a b : Z) : bool := SFleb (f64_decode a) (f64_decode b).
Definition f64_add (a b : Z) : Z :=
  f64_encode (SFadd 53 1024 (f64_decode a) (f64_decode b)).
Definition f64_sub (a b : Z) : Z :=
  f64_encode (SFsub 53 1024 (f64_decode a) (f64_decode b)).
Definition f64_mul (a b : Z) : Z :=
  f64_encode (SFmul 53 1024 (f64_decode a) (f64_decode b)).
Definition f64_div (a b : Z) : Z :=
  f64_encode (SFdiv 53 1024 (f64_decode a) (f64_decode b)).
Definition f64_sqrt (a : Z) : Z := f64_encode (SFsqrt 53 1024 (f64_decode a)).

(** An integer converted to [double], and a [double] to [size_t]: the fraction
    is cut off, and outside the range the conversion is undefined. *)
Definition f64_of_Z (z : Z) : spec_float := binary_normalize 53 1024 z 0 false.
Definition f64_from (z : Z) : Z := f64_encode (f64_of_Z z).

Definition to_size_t (x : spec_float) : outcome Z :=
  match x with
  | S754_zero _ => Ok 0
  | S754_finite s m e =>
    let q := if 0 <=? e then Z.pos m * 2 ^ e else Z.pos m / 2 ^ (- e) in
    let q := if s then - q else q in
    if (0 <=? q) && (q <? 2 ^ 64) then Ok q else UB
  | _ => UB
  end.

(** [std::min] and [std::max]: the first argument unless the second is
    strictly better. *)
Definition f64_min (a b : Z) : Z := if f64_lt b a then b else a.
Definition f64_max (a b : Z) : Z := if f64_lt a b then b else a.

(** [std::numeric_limits<double>::min()] is the smallest positive normal
    number, [max()] the largest finite one. *)
Definition MIN_VALUE : Z := 2 ^ 52.
Definition MAX_VALUE : Z := 0x7fefffffffffffff.

Definition is_value (v : Z) : Prop := 0 <= v < 2 ^ 64.
Definition is_nan (v : Z) : bool :=
  (f64_exponent v =? 2047) && negb (f64_mantissa v =? 0).

(** ** The order of numbers is the order of sign-magnitude integers *)

Definition f64_key (b : Z) : Z := if f64_sign b then 2 ^ 63 - b else b.

Definition f64_mag (b : Z) : Z := f64_exponent b * 2 ^ 52 + f64_mantissa b.

Lemma f64_mag_eq b :
  is_value b → f64_mag b = if f64_sign b then b - 2 ^ 63 else b.
Proof.
  intros Hb. unfold f64_mag, f64_exponent, f64_mantissa, f64_sign, is_value in *.
  pose proof (Z.div_mod b (2 ^ 52) ltac:(lia)).
  pose proof (Z.mod_pos_bound b (2 ^ 52) ltac:(lia)).
  pose proof (Z.div_mod (b / 2 ^ 52) (2 ^ 11) ltac:(lia)).
  pose proof (Z.mod_pos_bound (b / 2 ^ 52) (2 ^ 11) ltac:(lia)).
  set (r := b mod 2 ^ 52) in *. set (q := b / 2 ^ 52) in *.
  set (e := q mod 2 ^ 11) in *. set (k := q / 2 ^ 11) in *. clearbody e k q r.
  destruct (Z.leb_spec (2 ^ 63) b); lia.
Qed.

Lemma f64_key_mag b : is_value b → f64_key b = if f64_sign b then - f64_mag b else f64_mag b.
Proof. intros. rewrite f64_mag_eq by done. unfold f64_key. case_ifs; lia. Qed.

(** What [f64_decode] yields on each class of numbers. *)
Lemma f64_decode_cases b :
  is_value b → is_nan b = false →
  (f64_mag b = 0 ∧ f64_decode b = S754_zero (f64_sign b)) ∨
  (f64_mag b = 2047 * 2 ^ 52 ∧ f64_decode b = S754_infinity (f64_sign b)) ∨
  (∃ m e, f64_decode b = S754_finite (f64_sign b) m e ∧
     0 < f64_mag b < 2047 * 2 ^ 52 ∧
     f64_mag b = (e + 1074) * 2 ^ 52 + Z.pos m ∧
     (e = -1074 ∧ Z.pos m < 2 ^ 53 ∨ -1074 < e ∧ 2 ^ 52 <= Z.pos m < 2 ^ 53)).
Proof.
  intros Hb Hn. unfold is_nan in Hn.
  assert (He : 0 <= f64_exponent b < 2048) by (apply Z.mod_pos_bound; lia).
  assert (Hm : 0 <= f64_mantissa b < 2 ^ 52) by (apply Z.mod_pos_bound; lia).
  unfold f64_mag, f64_decode in *. set (e := f64_exponent b) in *.
  set (m := f64_mantissa b) in *. clearbody e m.
  destruct (Z.eqb_spec e 0) as [->|He0].
  - destruct m as [|m|m]; [left; split; [lia|done]| |lia].
    right; right. exists m, (-1074). cbn in *. split; [done|]. lia.
  - destruct (Z.eqb_spec e 2047) as [->|He1].
    + cbn in Hn. apply negb_false_iff in Hn. rewrite Hn. breflect. right; left.
      split; [lia|done].
    + right; right. destruct (m + 2 ^ 52) as [|p|p] eqn:Ep; [lia| |lia].
      exists p, (e - 1075). cbn in *. split; [done|]. lia.
Qed.

Lemma f64_compare_key a b :
  is_value a → is_value b → is_nan a = false → is_nan b = false →
  SFcompare (f64_decode a) (f64_decode b) = Some (f64_key a ?= f64_key b).
Proof.
  intros Ha Hb Na Nb. rewrite !f64_key_mag by done.
  destruct (f64_decode_cases a Ha Na) as [[Ma ->]|[[Ma ->]|(ma & ea & -> & Pa & Ma & Ra)]];
  destruct (f64_decode_cases b Hb Nb) as [[Mb ->]|[[Mb ->]|(mb & eb & -> & Pb & Mb & Rb)]];
  unfold SFcompare; destruct (f64_sign a), (f64_sign b); cbn in *; f_equal; symmetry;
  try (apply Z.compare_lt_iff; lia); try (apply Z.compare_gt_iff; lia);
  try (apply Z.compare_eq_iff; lia).
  all: change (PosDef.Pos.compare_cont Eq ?p ?q) with (Pos.compare p q).
  all: change (?p ?= ?q)%positive with (Z.pos p ?= Z.pos q).
  all: destruct (Z.compare_spec ea eb) as [->|?|?];
    try (apply Z.compare_lt_iff; lia); try (apply Z.compare_gt_iff; lia).
  all: destruct (Z.compare_spec (Z.pos ma) (Z.pos mb)); cbn;
    try (apply Z.compare_lt_iff; lia); try (apply Z.compare_gt_iff; lia);
    try (apply Z.compare_eq_iff; lia).
Qed.

Lemma f64_lt_key a b :
  is_value a → is_value b → is_nan a = false → is_nan b = false →
  f64_lt a b = (f64_key a <? f64_key b).
Proof. intros. unfold f64_lt, SFltb, Z.ltb. rewrite f64_compare_key by done. done. Qed.

Lemma f64_le_key a b :
  is_value a → is_value b → is_nan a = false → is_nan b = false →
  f64_le a b = (f64_key a <=? f64_key b).
Proof.
  intros. unfold f64_le, SFleb, Z.leb. rewrite f64_compare_key by done. by destruct (_ ?= _).
Qed.

Lemma f64_lt_nan a b :
  is_nan a = true ∨ is_nan b = true → f64_lt a b = false.
Proof.
  intros Hn. unfold f64_lt, SFltb.
  assert (Hd : ∀ c, is_nan c = true → f64_decode c = S754_nan).
  { intros c Hc. unfold is_nan in Hc. apply andb_true_iff in Hc as [He Hm].
    unfold f64_decode. breflect. rewrite He. cbn. by rewrite (proj2 (Z.eqb_neq _ _)). }
  destruct Hn as [H|H]; rewrite (Hd _ H); [done|]. by destruct (f64_decode a).
Qed.

(** On numbers, [f64_min] and [f64_max] are the minimum and the maximum. *)
Lemma f64_min_key a b :
  is_value a → is_value b → is_nan a = false → is_nan b = false →
  f64_key (f64_min a b) = Z.min (f64_key a) (f64_key b).
Proof.
  intros. unfold f64_min. rewrite f64_lt_key by done.
  destruct (Z.ltb_spec (f64_key b) (f64_key a)); lia.
Qed.

Lemma f64_max_key a b :
  is_value a → is_value b → is_nan a = false → is_nan b = false →
  f64_key (f64_max a b) = Z.max (f64_key a) (f64_key b).
Proof.
  intros. unfold f64_max. rewrite f64_lt_key by done.
  destruct (Z.ltb_spec (f64_key a) (f64_key b)); lia.
Qed.

Lemma f64_min_choice a b : f64_min a b = a ∨ f64_min a b = b.
Proof. unfold f64_min. destruct (f64_lt b a); auto. Qed.
Lemma f64_max_choice a b : f64_max a b = a ∨ f64_max a b = b.
Proof. unfold f64_max. destruct (f64_lt a b); auto. Qed.

(** ** Results are patterns *)

Lemma digits2_pos_bound p : Z.pos p < 2 ^ Z.pos (digits2_pos p).
Proof. induction p as [p IH|p IH|]; cbn [digits2_pos]; rewrite ?Pos2Z.inj_succ, ?Z.pow_succ_r by lia; lia. Qed.

Lemma shr_1_m r : 0 <= shr_m r → shr_m (shr_1 r) = shr_m r / 2.
Proof.
  destruct r as [m r s]. cbn. intros Hm. destruct m as [|p|p]; [done| |lia].
  destruct p as [p|p|]; cbn [shr_m]; [apply (Z.div_unique _ _ _ 1); lia| |done].
  apply (Z.div_unique _ _ _ 0); lia.
Qed.

Lemma shr_iter_m p r : 0 <= shr_m r → shr_m (SpecFloat.iter_pos shr_1 p r) = shr_m r / 2 ^ Z.pos p.
Proof.
  revert r. induction p as [p IH|p IH|]; intros r Hr; cbn [SpecFloat.iter_pos];
    [assert (0 < 2 ^ Z.pos p) by (apply Z.pow_pos_nonneg; lia)..|].
  - assert (H1 : 0 <= shr_m (shr_1 r)) by (rewrite shr_1_m by done; apply Z.div_pos; lia).
    assert (H2 : 0 <= shr_m (SpecFloat.iter_pos shr_1 p (shr_1 r)))
      by (rewrite IH by done; apply Z.div_pos; lia).
    rewrite !IH, shr_1_m, !Z.div_div by (done || lia). f_equal.
    replace (Z.pos p~1) with (1 + Z.pos p + Z.pos p) by lia. rewrite !Z.pow_add_r by lia. lia.
  - assert (H2 : 0 <= shr_m (SpecFloat.iter_pos shr_1 p r)) by (rewrite IH by done; apply Z.div_pos; lia).
    rewrite !IH, !Z.div_div by (done || lia). f_equal.
    replace (Z.pos p~0) with (Z.pos p + Z.pos p) by lia. by rewrite Z.pow_add_r by lia.
  - rewrite shr_1_m by done. done.
Qed.

(** What is left of a mantissa after it was aligned. *)
Lemma shr_fexp_range m e l :
  0 <= m →
  let '(r, e') := shr_fexp 53 1024 m e l in
  0 <= shr_m r < 2 ^ 53 ∧ -1074 <= e'.
Proof.
  intros Hm. unfold shr_fexp, shr.
  assert (Hr : shr_m (shr_record_of_loc m l) = m) by (by destruct l as [|[]]).
  assert (Hd : m < 2 ^ Zdigits2 m).
  { destruct m as [|p|p]; [done| |lia]. apply digits2_pos_bound. }
  assert (Hd0 : 0 <= Zdigits2 m) by (by destruct m).
  unfold fexp, emin. set (d := Zdigits2 m) in *.
  destruct (Z.max (d + e - 53) (3 - 1024 - 53) - e) as [|p|p] eqn:E.
  1, 3: rewrite Hr; split; [|lia]; split; [done|];
    apply (Z.lt_le_trans _ _ _ Hd), Z.pow_le_mono_r; lia.
  rewrite shr_iter_m, Hr by (by rewrite Hr). split; [|lia]. split; [apply Z.div_pos; lia|].
  apply Z.div_lt_upper_bound; [lia|]. rewrite <- Z.pow_add_r by lia.
  apply (Z.lt_le_trans _ _ _ Hd), Z.pow_le_mono_r; lia.
Qed.

Lemma f64_encode_finite s m e :
  Z.pos m < 2 ^ 53 → -1074 <= e <= 971 → is_value (f64_encode (S754_finite s m e)).
Proof.
  intros Hm He. unfold f64_encode, is_value. destruct (Z.ltb_spec (Z.pos m) (2 ^ 52)); destruct s; lia.
Qed.

Lemma round_value s m e l : 0 <= m → is_value (f64_encode (binary_round_aux 53 1024 s m e l)).
Proof.
  intros Hm. unfold binary_round_aux.
  pose proof (shr_fexp_range m e l Hm) as H1. destruct (shr_fexp 53 1024 m e l) as [r1 e1].
  set (m1 := round_nearest_even _ _). assert (Hm1 : 0 <= m1).
  { unfold m1, round_nearest_even. destruct (loc_of_shr_record r1) as [|[]]; try lia.
    destruct (Z.even _); lia. }
  pose proof (shr_fexp_range m1 e1 loc_Exact Hm1) as H2.
  destruct (shr_fexp 53 1024 m1 e1 loc_Exact) as [r2 e2].
  destruct (shr_m r2) as [|p|p]; [by destruct s| |done].
  destruct (Z.leb_spec e2 (1024 - 53)); [apply f64_encode_finite; lia|by destruct s].
Qed.

Lemma normalize_value m e s : is_value (f64_encode (binary_normalize 53 1024 m e s)).
Proof.
  destruct m as [|p|p]; cbn [binary_normalize]; [by destruct s| |]; unfold binary_round;
    destruct (shl_align _ _ _); by apply round_value.
Qed.

Lemma f64_decode_value b : is_value (f64_encode (f64_decode b)).
Proof.
  unfold f64_decode. set (m := f64_mantissa b). assert (Hm : 0 <= m < 2 ^ 52) by (apply Z.mod_pos_bound; lia).
  assert (He : 0 <= f64_exponent b < 2 ^ 11) by (apply Z.mod_pos_bound; lia).
  destruct (f64_sign b); destruct (Z.eqb_spec (f64_exponent b) 0), (Z.eqb_spec (f64_exponent b) 2047);
    try lia; try (destruct (m =? 0); done).
  all: try (destruct m as [|p|p]; [done|apply f64_encode_finite; lia|lia]).
  all: destruct (m + 2 ^ 52) as [|p|p] eqn:E; [lia|apply f64_encode_finite; lia|lia].
Qed.

Lemma f64_add_value a b : is_value (f64_add a b).
Proof.
  unfold f64_add. pose proof (f64_decode_value a) as Ha. pose proof (f64_decode_value b) as Hb.
  destruct (f64_decode a) as [s|s| |s m e], (f64_decode b) as [s'|s'| |s' m' e'];
    cbn [SFadd]; try done; try (by destruct s, s').
  apply normalize_value.
Qed.
