(* ===== verification/Meas.v ===== *)
(** * Measurements and queries

    [libdariadb/meas.h], [meas.cpp], [query.h], [status.h] and
    [utils/in_interval.h]: the record every part of the database exchanges, the
    predicates that select measurements, the queries and the status that
    writers report. *)

From Stdlib Require Import ZArith Lia.
From stdpp Require Import base numbers list.
From S2P Require Import Prelude Float64.

Local Open Scope Z_scope.

Definition MIN_TIME : Z := 0.
Definition MAX_TIME : Z := 2 ^ 64 - 1.
Definition MIN_ID : Z := 0.
Definition MAX_ID : Z := 2 ^ 32 - 1.
Definition MAX_FLAG : Z := 2 ^ 32 - 1.

Definition _NO_DATA : Z := MAX_FLAG.
Definition _STATS : Z := 0x80000000.

Record Meas := mkMeas {
  id : Z;
  time : Z;
  value : Z;
  flag : Z;
}.

#[export] Instance Meas_eq_dec : EqDecision Meas.
Proof. solve_decision. Defined.

(** [Meas::Meas()] and [Meas::Meas(Id)] *)
Definition Meas_default : Meas := mkMeas 0 0 0 0.
Definition Meas_of_id (i : Z) : Meas := mkMeas i 0 0 0.

Definition inInterval (from to v : Z) : bool := (from <=? v) && (v <=? to).

Definition intervalsIntersection (from1 to1 from2 to2 : Z) : bool :=
  inInterval from1 to1 from2 || inInterval from1 to1 to2 ||
  inInterval from2 to2 from1 || inInterval from2 to2 to1.

Definition inFlag (mask : Z) (m : Meas) : bool := Z.land mask (flag m) =? mask.

Definition inIds (ids : list Z) (m : Meas) : bool :=
  match ids with
  | [] => true
  | _ => existsb (Z.eqb (id m)) ids
  end.

Definition inQuery (ids : list Z) (f : Z) (m : Meas) : bool := inFlag f m && inIds ids m.

Definition inQueryInterval (ids : list Z) (f from to : Z) (m : Meas) : bool :=
  inQuery ids f m && inInterval from to (time m).

Definition addFlag (f : Z) (m : Meas) : Meas :=
  mkMeas (id m) (time m) (value m) (Z.lor (flag m) f).

(** ** Minimum and maximum by time *)

Record MeasMinMax := mkMeasMinMax { mm_min : Meas; mm_max : Meas }.

Definition updateMax (m : Meas) (mm : MeasMinMax) : MeasMinMax :=
  if time (mm_max mm) <? time m then mkMeasMinMax (mm_min mm) m else mm.
Definition updateMin (m : Meas) (mm : MeasMinMax) : MeasMinMax :=
  if time m <? time (mm_min mm) then mkMeasMinMax m (mm_max mm) else mm.

(** ** Queries *)

Record QueryInterval := mkQueryInterval {
  qi_ids : list Z;
  qi_flag : Z;
  qi_from : Z;
  qi_to : Z;
  qi_step : Z;
}.

Record QueryTimePoint := mkQueryTimePoint {
  qt_ids : list Z;
  qt_flag : Z;
  qt_time_point : Z;
}.

(** [q] selects [m]. *)
Definition in_query (q : QueryInterval) (m : Meas) : Prop :=
  inQueryInterval (qi_ids q) (qi_flag q) (qi_from q) (qi_to q) m = true.

#[export] Instance in_query_dec q m : Decision (in_query q m).
Proof. unfold in_query. apply _. Defined.

(** ** Status of a write *)

Inductive APPEND_ERROR := APPEND_OK | bad_alloc | bad_shard | wal_file_limit.

(** [writed] is [None] where the constructor leaves the field uninitialised. *)
Record Status := mkStatus {
  writed : option Z;
  ignored : Z;
  error : APPEND_ERROR;
}.

Definition Status_empty : Status := mkStatus (Some 0) 0 APPEND_OK.
Definition Status_writed (wr : Z) : Status := mkStatus (Some wr) 0 APPEND_OK.
Definition Status_error (ig : Z) (err : APPEND_ERROR) : Status := mkStatus None ig err.

Definition Status_plus (a b : Status) : Status :=
  mkStatus (x ← writed a; y ← writed b; Some (u64 (x + y)))
           (u64 (ignored a + ignored b)) APPEND_OK.

(** [operator==] and [operator!=] on two objects: the counts are compared, the
    ignored ones first; an uninitialised [writed] compares as nothing. *)
Definition Status_eq (a b : Status) : bool :=
  (ignored a =? ignored b) &&
  match writed a, writed b with Some x, Some y => x =? y | _, _ => false end.
Definition Status_ne (a b : Status) : bool := negb (Status_eq a b).

(** ** Facts *)

Definition is_time (t : Z) : Prop := 0 <= t < 2 ^ 64.
Definition is_id (i : Z) : Prop := 0 <= i < 2 ^ 32.
Definition is_flag (v : Z) : Prop := 0 <= v < 2 ^ 32.

(** The fields are in the range of their types. *)
Definition meas_wf (m : Meas) : Prop :=
  is_id (id m) ∧ is_time (time m) ∧ is_value (value m) ∧ is_flag (flag m).

(** Two closed intervals that are not empty have a common point. *)
Lemma intervalsIntersection_spec from1 to1 from2 to2 :
  from1 <= to1 → from2 <= to2 →
  intervalsIntersection from1 to1 from2 to2 = true ↔
  ∃ t, from1 <= t <= to1 ∧ from2 <= t <= to2.
Proof.
  intros H1 H2. unfold intervalsIntersection, inInterval. split.
  - intros H. breflect; [exists from2|exists to2|exists from1|exists to1]; lia.
  - intros (t & Ht1 & Ht2). destruct (Z.le_ge_cases from1 from2).
    + rewrite !orb_true_iff, !andb_true_iff, !Z.leb_le. lia.
    + rewrite !orb_true_iff, !andb_true_iff, !Z.leb_le. lia.
Qed.

Lemma inIds_spec ids m : inIds ids m = true ↔ ids = [] ∨ id m ∈ ids.
Proof.
  unfold inIds. destruct ids as [|i ids]; [naive_solver|].
  rewrite existsb_exists. setoid_rewrite Z.eqb_eq.
  setoid_rewrite <- list_elem_of_In. naive_solver.
Qed.

(** A mask selects the measurements that have all its bits. *)
Lemma inFlag_spec mask m :
  inFlag mask m = true ↔ ∀ n, 0 <= n → Z.testbit mask n = true → Z.testbit (flag m) n = true.
Proof.
  unfold inFlag. rewrite Z.eqb_eq. split.
  - intros H n Hn Hb. rewrite <- H, Z.land_spec in Hb. by apply andb_true_iff in Hb as [_ ?].
  - intros H. apply Z.bits_inj'. intros n Hn. rewrite Z.land_spec.
    destruct (Z.testbit mask n) eqn:Hb; [|done]. by rewrite H.
Qed.
