(* ===== verification/Delta.v ===== *)
(** * Delta compression of time stamps

    [libdariadb/compression/delta.cpp].  A time stamp is stored as the change
    [D] against the previous stamp and the previous change, in 1, 2, 3 or 9
    bytes chosen by the size of [D].  [Module DeltaCompressor] and
    [Module DeltaDeCompressor] translate the two classes; the buffer they share
    is passed explicitly.

    Shown: [append] writes the bytes [delta_encoded D] or, without room, reports
    failure and touches nothing; [read] on those bytes returns the number
    [decoded D], which is [D] except for the even [D] of the 3-byte negative
    range, where the sign-extension mask [-524287] sets the lowest bit. *)

From Stdlib Require Import ZArith Lia.
From stdpp Require Import base numbers list.
From S2P Require Import Prelude ByteBuffer Meas.

Local Open Scope Z_scope.

(** [utils::BitOperations] *)
Module BitOperations.

Definition get (v num : Z) : Z := Z.land (Z.shiftr v num) 1.
Definition check (v num : Z) : bool := get v num =? 1.

End BitOperations.

Definition delta_1b_mask : Z := 0x80.
Definition delta_1b_mask_inv : Z := 0x3F.
Definition delta_2b_mask : Z := 0xC000.
Definition delta_2b_mask_inv : Z := 0x1FFF.
Definition delta_3b_mask : Z := 0xE00000.
Definition delta_3b_mask_inv : Z := 0xFFFFF.

Definition get_delta_1b (D : Z) : Z :=
  u8 (Z.lor delta_1b_mask (Z.land delta_1b_mask_inv (u8 D))).
Definition get_delta_2b (D : Z) : Z :=
  u16 (Z.lor delta_2b_mask (Z.land delta_2b_mask_inv (u16 D))).
Definition get_delta_3b (D : Z) : Z :=
  u32 (Z.lor delta_3b_mask (Z.land delta_3b_mask_inv (u32 D))).

(** [union conv_32]: the packed [small] view of [big]. *)
Module conv_32.

Definition lo (big : Z) : Z := u16 big.
Definition hi (big : Z) : Z := u8 (Z.shiftr big 16).
(** [big = 0] overwritten through [small.hi] and [small.lo]. *)
Definition of_small (hi lo : Z) : Z := Z.lor (Z.shiftl (u8 hi) 16) (u16 lo).

End conv_32.

Module DeltaCompressor.

Record t := mk {
  is_first : bool;
  first : Z;
  prev_delta : Z;
  prev_time : Z;
}.

Definition init : t := mk true 0 0 0.

(** [int64_t D = (t - prev_time) - prev_delta] *)
Definition delta (dc : t) (time : Z) : Z :=
  s64 (time - prev_time dc - prev_delta dc).

Definition append (time : Z) (dc : t) (bw : ByteBuffer)
  : outcome (bool * t * ByteBuffer) :=
  if is_first dc then
    Ok (true, mk false time 0 time, bw)
  else
    let D := delta dc time in
    let done bw := Ok (true, mk (is_first dc) (first dc) D time, bw) in
    if (-32 <? D) && (D <? 32) then
      if free_size bw <? 1 then Ok (false, dc, bw)
      else bw ← write 1 (get_delta_1b D) bw; done bw
    else if (-4096 <? D) && (D <? 4096) then
      if free_size bw <? 2 then Ok (false, dc, bw)
      else bw ← write 2 (get_delta_2b D) bw; done bw
    else if (-524288 <? D) && (D <? 524287) then
      if free_size bw <? 3 then Ok (false, dc, bw)
      else
        let d := get_delta_3b D in
        bw ← write 1 (conv_32.hi d) bw;
        bw ← write 2 (conv_32.lo d) bw;
        done bw
    else
      if free_size bw <? 9 then Ok (false, dc, bw)
      else
        bw ← write 1 0 bw;
        bw ← write 8 (u64 D) bw;
        done bw.

End DeltaCompressor.

Module DeltaDeCompressor.

Record t := mk {
  prev_delta : Z;
  prev_time : Z;
}.

Definition init (first : Z) : t := mk 0 first.

(** The stored change, from the first byte on ([read] up to line 134). *)
Definition read_delta (bw : ByteBuffer) : outcome (Z * ByteBuffer) :=
  '(first_byte, bw) ← read 1 bw;
  if (Z.land first_byte delta_1b_mask =? delta_1b_mask) &&
     negb (BitOperations.check first_byte 6)
  then
    let result := Z.land first_byte delta_1b_mask_inv in
    Ok (if 32 <? result then Z.lor (-64) result else result, bw)
  else if (Z.land first_byte (Z.shiftr delta_2b_mask 8) =? Z.shiftr delta_2b_mask 8) &&
     negb (BitOperations.check first_byte 5)
  then
    '(second, bw) ← read 1 bw;
    let first_unmasked := Z.land first_byte (Z.shiftr delta_2b_mask_inv 8) in
    let result := Z.lor (Z.shiftl (u16 first_unmasked) 8) (u16 second) in
    Ok (if 4096 <? result then Z.lor (-4096) result else result, bw)
  else if Z.land first_byte (Z.shiftr delta_3b_mask 16) =? Z.shiftr delta_3b_mask 16
  then
    '(second, bw) ← read 2 bw;
    let first_unmasked := Z.land first_byte (u8 (Z.shiftr delta_3b_mask_inv 16)) in
    let result := conv_32.of_small (u8 first_unmasked) second in
    Ok (if 524287 <? result then Z.lor (-524287) result else result, bw)
  else if first_byte =? 0 then
    '(result, bw) ← read 8 bw;
    Ok (s64 result, bw)
  else Ok (0, bw).

Definition read (dd : t) (bw : ByteBuffer) : outcome (Z * t * ByteBuffer) :=
  '(result, bw) ← read_delta bw;
  let ret := u64 (prev_time dd + result + prev_delta dd) in
  Ok (ret, mk result ret, bw).

End DeltaDeCompressor.

(** ** The byte format *)

(** The bytes [append] stores for the change [D], in the order of its writes. *)
Definition delta_encoded (D : Z) : list Z :=
  if (-32 <? D) && (D <? 32) then to_be 1 (get_delta_1b D)
  else if (-4096 <? D) && (D <? 4096) then to_be 2 (get_delta_2b D)
  else if (-524288 <? D) && (D <? 524287) then
    to_be 1 (conv_32.hi (get_delta_3b D)) ++ to_be 2 (conv_32.lo (get_delta_3b D))
  else to_be 1 0 ++ to_be 8 (u64 D).

(** The changes [read] does not give back. *)
Definition misread (D : Z) : bool :=
  (-524288 <? D) && (D <=? -4096) && Z.even D.
Definition decoded (D : Z) : Z := if misread D then D + 1 else D.

Definition is_int64 (D : Z) : Prop := - 2 ^ 63 <= D < 2 ^ 63.

(** Masking the truncated change keeps its low bits. *)
Lemma mask_low w k D :
  0 <= k <= w → Z.land (Z.ones k) (wrap w D) = D mod 2 ^ k.
Proof.
  intros Hk. rewrite Z.land_comm, Z.land_ones by lia. unfold wrap.
  replace w with (k + (w - k)) by lia. rewrite Z.pow_add_r by lia.
  rewrite Z.rem_mul_r by (try apply Z.pow_nonzero; try apply Z.pow_pos_nonneg; lia).
  rewrite Z.mul_comm, Z.mod_add by (apply Z.pow_nonzero; lia).
  by rewrite Zmod_mod.
Qed.

Lemma get_delta_1b_eq D : get_delta_1b D = 128 + D mod 64.
Proof.
  unfold get_delta_1b. change delta_1b_mask_inv with (Z.ones 6).
  rewrite mask_low by lia. change delta_1b_mask with (2 * 2 ^ 6).
  pose proof (Z.mod_pos_bound D (2 ^ 6) ltac:(lia)).
  rewrite lor_mul_pow2 by lia. rewrite wrap_small by lia. reflexivity.
Qed.

Lemma get_delta_2b_eq D : get_delta_2b D = 192 * 256 + D mod 8192.
Proof.
  unfold get_delta_2b. change delta_2b_mask_inv with (Z.ones 13).
  rewrite mask_low by lia. change delta_2b_mask with (6 * 2 ^ 13).
  pose proof (Z.mod_pos_bound D (2 ^ 13) ltac:(lia)).
  rewrite lor_mul_pow2 by lia. rewrite wrap_small by lia. reflexivity.
Qed.

Lemma get_delta_3b_eq D : get_delta_3b D = 224 * 65536 + D mod 1048576.
Proof.
  unfold get_delta_3b. change delta_3b_mask_inv with (Z.ones 20).
  rewrite mask_low by lia. change delta_3b_mask with (14 * 2 ^ 20).
  pose proof (Z.mod_pos_bound D (2 ^ 20) ltac:(lia)).
  rewrite lor_mul_pow2 by lia. rewrite wrap_small by lia. reflexivity.
Qed.

(** ** First-byte tests, decided by computation on each tag's range *)

Lemma tag_1b b : 128 <= b < 192 →
  (Z.land b delta_1b_mask =? delta_1b_mask) && negb (BitOperations.check b 6) = true.
Proof.
  intros. by apply (forallb_range (fun b =>
    (Z.land b delta_1b_mask =? delta_1b_mask) && negb (BitOperations.check b 6)) 128 64 b).
Qed.

Lemma not_tag_1b b : 192 <= b < 256 →
  (Z.land b delta_1b_mask =? delta_1b_mask) && negb (BitOperations.check b 6) = false.
Proof.
  intros. apply negb_true_iff. by apply (forallb_range (fun b => negb
    ((Z.land b delta_1b_mask =? delta_1b_mask) && negb (BitOperations.check b 6))) 192 64 b).
Qed.

Lemma tag_2b b : 192 <= b < 224 →
  (Z.land b (Z.shiftr delta_2b_mask 8) =? Z.shiftr delta_2b_mask 8) &&
  negb (BitOperations.check b 5) = true.
Proof.
  intros. by apply (forallb_range (fun b =>
    (Z.land b (Z.shiftr delta_2b_mask 8) =? Z.shiftr delta_2b_mask 8) &&
    negb (BitOperations.check b 5)) 192 32 b).
Qed.

Lemma not_tag_2b b : 224 <= b < 240 →
  (Z.land b (Z.shiftr delta_2b_mask 8) =? Z.shiftr delta_2b_mask 8) &&
  negb (BitOperations.check b 5) = false.
Proof.
  intros. apply negb_true_iff. by apply (forallb_range (fun b => negb
    ((Z.land b (Z.shiftr delta_2b_mask 8) =? Z.shiftr delta_2b_mask 8) &&
    negb (BitOperations.check b 5))) 224 16 b).
Qed.

Lemma tag_3b b : 224 <= b < 240 →
  (Z.land b (Z.shiftr delta_3b_mask 16) =? Z.shiftr delta_3b_mask 16) = true.
Proof.
  intros. by apply (forallb_range (fun b =>
    Z.land b (Z.shiftr delta_3b_mask 16) =? Z.shiftr delta_3b_mask 16) 224 16 b).
Qed.

(** ** Reading one change back *)

(** Bytes of the 3-byte form, split at 16 bits. *)
Lemma hi_lo_3b D :
  conv_32.hi (get_delta_3b D) = 224 + (D mod 1048576) / 65536 ∧
  conv_32.lo (get_delta_3b D) = D mod 65536.
Proof.
  pose proof (Z.mod_pos_bound D 1048576 ltac:(lia)) as Hr.
  unfold conv_32.hi, conv_32.lo. rewrite get_delta_3b_eq. split.
  - rewrite Z.shiftr_div_pow2 by lia. change (2 ^ 16) with 65536.
    rewrite Z.div_add_l by lia. apply wrap_small.
    pose proof (Z.div_le_mono (D mod 1048576) 1048575 65536 ltac:(lia) ltac:(lia)).
    pose proof (Z.div_pos (D mod 1048576) 65536 ltac:(lia) ltac:(lia)).
    change (1048575 / 65536) with 15 in *. lia.
  - unfold wrap. change (2 ^ 16) with 65536. rewrite Z.add_comm, Z.mod_add by lia.
    change 1048576 with (65536 * 16). rewrite Z.rem_mul_r by lia.
    rewrite Z.mul_comm, Z.mod_add by lia. by rewrite Zmod_mod.
Qed.

Lemma of_small_split x :
  0 <= x < 1048576 → conv_32.of_small (u8 (x / 65536)) (x mod 65536) = x.
Proof.
  intros Hx. unfold conv_32.of_small.
  assert (0 <= x / 65536 < 16).
  { split; [apply Z.div_pos; lia|apply Z.div_lt_upper_bound; lia]. }
  pose proof (Z.mod_pos_bound x 65536 ltac:(lia)).
  rewrite wrap_wrap, (wrap_small 8), (wrap_small 16) by lia.
  rewrite Z.shiftl_mul_pow2 by lia. rewrite lor_mul_pow2 by lia.
  rewrite (Z.div_mod x 65536) at 3 by lia. lia.
Qed.

(** Sign extension of each width. *)
Lemma extend_1b D : -32 < D < 32 →
  (if 32 <? D mod 64 then Z.lor (-64) (D mod 64) else D mod 64) = D.
Proof.
  intros HD. destruct (Z.lt_ge_cases D 0) as [?|?].
  - assert (D mod 64 = D + 64) as ->.
    { rewrite <- (Z.mod_small (D + 64) 64) by lia.
      rewrite <- (Z.mod_add D 1 64) by lia. f_equal; lia. }
    rewrite (proj2 (Z.ltb_lt _ _)) by lia.
    change (-64) with (- 2 ^ 6). rewrite lor_neg_pow2 by lia.
    rewrite Z.mod_small by lia. lia.
  - rewrite Z.mod_small by lia. by rewrite (proj2 (Z.ltb_ge _ _)) by lia.
Qed.

Lemma extend_2b D : -4096 < D < 4096 →
  (if 4096 <? D mod 8192 then Z.lor (-4096) (D mod 8192) else D mod 8192) = D.
Proof.
  intros HD. destruct (Z.lt_ge_cases D 0) as [?|?].
  - assert (D mod 8192 = D + 8192) as ->.
    { rewrite <- (Z.mod_small (D + 8192) 8192) by lia.
      rewrite <- (Z.mod_add D 1 8192) by lia. f_equal; lia. }
    rewrite (proj2 (Z.ltb_lt _ _)) by lia.
    change (-4096) with (- 2 ^ 12). rewrite lor_neg_pow2 by lia.
    replace ((D + 8192) mod 2 ^ 12) with (D + 4096); [lia|].
    rewrite <- (Z.mod_small (D + 4096) (2 ^ 12)) by lia.
    rewrite <- (Z.mod_add (D + 4096) 1 (2 ^ 12)) by lia. f_equal. lia.
  - rewrite Z.mod_small by lia. by rewrite (proj2 (Z.ltb_ge _ _)) by lia.
Qed.

(** The mask [-524287] is [(-524288) | 1]: bit 0 comes out set. *)
Lemma extend_3b D : -524288 < D < 524287 → (D <= -4096 ∨ 0 <= D) →
  (if 524287 <? D mod 1048576 then Z.lor (-524287) (D mod 1048576) else D mod 1048576)
  = decoded D.
Proof.
  intros HD Hout. unfold decoded, misread. destruct (Z.lt_ge_cases D 0) as [?|?].
  - assert (D mod 1048576 = D + 1048576) as ->.
    { rewrite <- (Z.mod_small (D + 1048576) 1048576) by lia.
      rewrite <- (Z.mod_add D 1 1048576) by lia. f_equal; lia. }
    rewrite (proj2 (Z.ltb_lt _ _)) by lia.
    rewrite (proj2 (Z.ltb_lt _ _)) by lia.
    rewrite (proj2 (Z.leb_le _ _)) by lia. cbn [andb].
    change (-524287) with (Z.lor (- 2 ^ 19) 1).
    rewrite <- Z.lor_assoc, (Z.lor_comm 1), lor_1_r.
    replace (Z.even (D + 1048576)) with (Z.even D)
      by (rewrite Z.even_add; by destruct (Z.even D)).
    rewrite lor_neg_pow2 by lia.
    destruct (Z.even D) eqn:He.
    + replace ((D + 1048576 + 1) mod 2 ^ 19) with (D + 1 + 524288); [lia|].
      rewrite <- (Z.mod_small (D + 1 + 524288) (2 ^ 19)) by lia.
      rewrite <- (Z.mod_add (D + 1 + 524288) 1 (2 ^ 19)) by lia. f_equal. lia.
    + replace ((D + 1048576) mod 2 ^ 19) with (D + 524288); [lia|].
      rewrite <- (Z.mod_small (D + 524288) (2 ^ 19)) by lia.
      rewrite <- (Z.mod_add (D + 524288) 1 (2 ^ 19)) by lia. f_equal. lia.
  - rewrite Z.mod_small by lia. rewrite (proj2 (Z.ltb_ge _ _)) by lia.
    rewrite (proj2 (Z.leb_gt _ _)) by lia. by rewrite andb_false_r.
Qed.

Lemma decoded_small D : -4096 < D → decoded D = D.
Proof.
  intros. unfold decoded, misread.
  by rewrite (proj2 (Z.leb_gt D (-4096))), andb_false_r by lia.
Qed.
Lemma decoded_big D : D <= -524288 → decoded D = D.
Proof.
  intros. unfold decoded, misread. by rewrite (proj2 (Z.ltb_ge (-524288) D)) by lia.
Qed.

Lemma read_delta_1b D :
  -32 < D < 32 → reads DeltaDeCompressor.read_delta (to_be 1 (get_delta_1b D)) D.
Proof.
  intros HD bw s Hwf Hs. pose proof (Z.mod_pos_bound D 64 ltac:(lia)) as Hm.
  rewrite get_delta_1b_eq in *.
  destruct (read_be 1 _ s bw Hwf Hs ltac:(lia)) as (Hr & Hwf' & Hs').
  rewrite length_to_be. split; [|done].
  unfold DeltaDeCompressor.read_delta. rewrite Hr, bind_Ok.
  rewrite tag_1b by lia. do 2 f_equal.
  replace (Z.land (128 + D mod 64) delta_1b_mask_inv) with (D mod 64); [by apply extend_1b|].
  change delta_1b_mask_inv with (Z.ones 6). rewrite Z.land_ones by lia.
  symmetry. by apply (mod_mul_add 2 64).
Qed.

Lemma read_delta_2b D :
  -4096 < D < 4096 → reads DeltaDeCompressor.read_delta (to_be 2 (get_delta_2b D)) D.
Proof.
  intros HD bw s Hwf Hs. pose proof (Z.mod_pos_bound D 8192 ltac:(lia)) as Hm.
  set (x := D mod 8192) in *.
  assert (Hx : 0 <= x / 256 < 32) by (split; [apply Z.div_pos|apply Z.div_lt_upper_bound]; lia).
  assert (Hb : to_be 2 (get_delta_2b D) = [192 + x / 256; x mod 256]).
  { rewrite get_delta_2b_eq, to_be_2. fold x. rewrite Z.div_add_l by lia.
    rewrite (Z.mod_small (192 + x / 256)) by lia.
    by rewrite (Z.add_comm (192 * 256)), Z_mod_plus_full. }
  rewrite Hb in *.
  destruct (read_byte _ _ bw Hwf Hs) as (Hr1 & Hwf1 & Hs1).
  destruct (read_byte _ _ _ Hwf1 Hs1) as (Hr2 & Hwf2 & Hs2).
  rewrite advance_advance in *. split; [|done].
  unfold DeltaDeCompressor.read_delta. rewrite Hr1, bind_Ok.
  rewrite not_tag_1b, tag_2b by lia. rewrite Hr2, bind_Ok. do 2 f_equal.
  assert (Hu : Z.land (192 + x / 256) (Z.shiftr delta_2b_mask_inv 8) = x / 256).
  { change (Z.shiftr delta_2b_mask_inv 8) with (Z.ones 5). rewrite Z.land_ones by lia.
    by apply (mod_mul_add 6 32). }
  rewrite Hu. pose proof (Z.mod_pos_bound x 256 ltac:(lia)).
  rewrite !wrap_small by lia. rewrite Z.shiftl_mul_pow2, lor_mul_pow2 by lia.
  replace (x / 256 * 2 ^ 8 + x mod 256) with x
    by (rewrite (Z.div_mod x 256) at 1 by lia; lia).
  by apply extend_2b.
Qed.

Lemma read_delta_3b D :
  -524288 < D < 524287 → (D <= -4096 ∨ 0 <= D) →
  reads DeltaDeCompressor.read_delta
    (to_be 1 (conv_32.hi (get_delta_3b D)) ++ to_be 2 (conv_32.lo (get_delta_3b D)))
    (decoded D).
Proof.
  intros HD Hout bw s Hwf Hs. destruct (hi_lo_3b D) as [Hhi Hlo].
  pose proof (Z.mod_pos_bound D 1048576 ltac:(lia)) as Hm.
  pose proof (extend_3b D HD Hout) as Hext.
  assert (HxD : D mod 65536 = (D mod 1048576) mod 65536).
  { change 1048576 with (65536 * 16). rewrite Z.rem_mul_r by lia.
    rewrite Z.mul_comm, Z.mod_add by lia. by rewrite Zmod_mod. }
  rewrite Hhi, Hlo, HxD in *. clear Hhi Hlo HxD. set (x := D mod 1048576) in *.
  assert (Hx : 0 <= x / 65536 < 16) by (split; [apply Z.div_pos|apply Z.div_lt_upper_bound]; lia).
  rewrite <- app_assoc in Hs.
  destruct (read_be 1 _ _ bw Hwf Hs ltac:(lia)) as (Hr1 & Hwf1 & Hs1).
  destruct (read_be 2 _ s _ Hwf1 Hs1 ltac:(apply Z.mod_pos_bound; lia)) as (Hr2 & Hwf2 & Hs2).
  rewrite advance_advance in *. rewrite length_app, !length_to_be. split; [|done].
  unfold DeltaDeCompressor.read_delta. rewrite Hr1, bind_Ok.
  rewrite not_tag_1b, not_tag_2b, tag_3b by lia. rewrite Hr2, bind_Ok.
  assert (Hu : Z.land (224 + x / 65536) (u8 (Z.shiftr delta_3b_mask_inv 16)) = x / 65536).
  { change (u8 (Z.shiftr delta_3b_mask_inv 16)) with (Z.ones 4). rewrite Z.land_ones by lia.
    by apply (mod_mul_add 14 16). }
  rewrite Hu, of_small_split by lia. by rewrite Hext.
Qed.

Lemma read_delta_9b D :
  is_int64 D → reads DeltaDeCompressor.read_delta (to_be 1 0 ++ to_be 8 (u64 D)) D.
Proof.
  intros HD bw s Hwf Hs. rewrite <- app_assoc in Hs.
  destruct (read_be 1 _ _ bw Hwf Hs ltac:(lia)) as (Hr1 & Hwf1 & Hs1).
  destruct (read_be 8 _ s _ Hwf1 Hs1 ltac:(apply (wrap_range 64); lia)) as (Hr2 & Hwf2 & Hs2).
  rewrite advance_advance in *. rewrite length_app, !length_to_be. split; [|done].
  unfold DeltaDeCompressor.read_delta. rewrite Hr1, bind_Ok.
  cbn -[read advance swrap wrap Z.add]. rewrite Hr2, bind_Ok.
  rewrite swrap_wrap, swrap_small by (unfold is_int64 in *; lia). done.
Qed.

(** Every change reads back as [decoded D]. *)
Lemma read_delta_encoded D :
  is_int64 D → reads DeltaDeCompressor.read_delta (delta_encoded D) (decoded D).
Proof.
  intros HD. unfold delta_encoded. case_ifs; breflect;
    first [ apply read_delta_3b; lia
          | rewrite ?decoded_small, ?decoded_big by lia;
            first [ apply read_delta_1b; lia
                  | apply read_delta_2b; lia
                  | by apply read_delta_9b ] ].
Qed.

(** ** What [append] writes *)

Lemma delta_encoded_length D : (1 <= length (delta_encoded D) <= 9)%nat.
Proof. unfold delta_encoded. case_ifs; rewrite ?length_app, ?length_to_be; lia. Qed.

Lemma delta_int64 dc time : is_int64 (DeltaCompressor.delta dc time).
Proof. unfold is_int64, DeltaCompressor.delta. apply (swrap_range 64). lia. Qed.

(** A first stamp is only remembered. *)
Lemma delta_append_first time dc bw :
  DeltaCompressor.is_first dc = true →
  DeltaCompressor.append time dc bw = Ok (true, DeltaCompressor.mk false time 0 time, bw).
Proof. intros H. unfold DeltaCompressor.append. by rewrite H. Qed.

(** A later stamp pushes its encoding when it fits; otherwise [append] returns
    [false] with the compressor and the buffer as they were. *)
Lemma delta_append_next time dc bw :
  bb_wf bw → DeltaCompressor.is_first dc = false →
  let D := DeltaCompressor.delta dc time in
  DeltaCompressor.append time dc bw =
  if free_size bw <? Z.of_nat (length (delta_encoded D)) then Ok (false, dc, bw)
  else Ok (true, DeltaCompressor.mk false (DeltaCompressor.first dc) D time,
           push (delta_encoded D) bw).
Proof.
  intros Hwf Hf D. unfold DeltaCompressor.append. rewrite Hf. fold D.
  unfold delta_encoded. destruct ((-32 <? D) && (D <? 32)).
  { rewrite length_to_be. change (Z.of_nat 1) with 1.
    destruct (free_size bw <? 1) eqn:Hs; breflect; [done|].
    by rewrite write_fits, bind_Ok. }
  destruct ((-4096 <? D) && (D <? 4096)).
  { rewrite length_to_be. change (Z.of_nat 2) with 2.
    destruct (free_size bw <? 2) eqn:Hs; breflect; [done|].
    by rewrite write_fits, bind_Ok. }
  destruct ((-524288 <? D) && (D <? 524287)); rewrite length_app, !length_to_be.
  - change (Z.of_nat (1 + 2)) with 3.
    destruct (free_size bw <? 3) eqn:Hs; breflect; [done|]. unfold free_size in *.
    rewrite write_fits, bind_Ok by (done || lia).
    rewrite write_fits, bind_Ok
      by (try apply push_wf; rewrite ?push_pos, ?length_to_be; done || lia).
    rewrite push_app by (rewrite ?length_to_be; done || lia). done.
  - change (Z.of_nat (1 + 8)) with 9.
    destruct (free_size bw <? 9) eqn:Hs; breflect; [done|]. unfold free_size in *.
    rewrite write_fits, bind_Ok by (done || lia).
    rewrite write_fits, bind_Ok
      by (try apply push_wf; rewrite ?push_pos, ?length_to_be; done || lia).
    rewrite push_app by (rewrite ?length_to_be; done || lia). done.
Qed.

(** ** Compressor and decompressor in step *)

(** The decompressor holds the compressor's previous change and stamp. *)
Definition in_step (dc : DeltaCompressor.t) (dd : DeltaDeCompressor.t) : Prop :=
  DeltaDeCompressor.prev_delta dd = DeltaCompressor.prev_delta dc ∧
  DeltaDeCompressor.prev_time dd = DeltaCompressor.prev_time dc.


(** Adding the change back to the previous stamp, modulo [2 ^ 64]. *)
Lemma delta_back dc time e :
  is_time time →
  u64 (DeltaCompressor.prev_time dc + (DeltaCompressor.delta dc time + e)
       + DeltaCompressor.prev_delta dc) = u64 (time + e).
Proof.
  intros Ht. unfold DeltaCompressor.delta.
  set (p := DeltaCompressor.prev_time dc). set (q := DeltaCompressor.prev_delta dc).
  replace (p + (s64 (time - p - q) + e) + q) with (s64 (time - p - q) + (p + q + e)) by lia.
  rewrite <- wrap_add_l, wrap_swrap, wrap_add_l by lia. f_equal. lia.
Qed.

(** The stamp that comes back for [time]: [time] itself, or one more when the
    change is one of the misread ones. *)
Lemma delta_read_appended time dc dd :
  is_time time → in_step dc dd →
  let D := DeltaCompressor.delta dc time in
  let time' := u64 (time + (decoded D - D)) in
  reads (DeltaDeCompressor.read dd) (delta_encoded D)
    (time', DeltaDeCompressor.mk (decoded D) time').
Proof.
  intros Ht [H1 H2] D time' bw s Hwf Hs.
  destruct (read_delta_encoded D (delta_int64 dc time) bw s Hwf Hs) as (Hr & Hw & Hs').
  split; [|done]. unfold DeltaDeCompressor.read. rewrite Hr, bind_Ok, H1, H2.
  replace (u64 (DeltaCompressor.prev_time dc + decoded D + DeltaCompressor.prev_delta dc))
    with time'; [done|].
  subst time'. rewrite <- (delta_back dc time) by done. fold D. f_equal. lia.
Qed.

(** ** Properties *)

(** One step of the pair: what [append] stores is read from the position it was
    stored at as the exact stamp plus the error of the change. *)
Lemma delta_step time dc dd bw :
  bb_wf bw → is_time time → in_step dc dd → DeltaCompressor.is_first dc = false →
  9 <= free_size bw →
  let D := DeltaCompressor.delta dc time in
  let time' := u64 (time + (decoded D - D)) in
  ∃ bw' bwr,
    DeltaCompressor.append time dc bw =
      Ok (true, DeltaCompressor.mk false (DeltaCompressor.first dc) D time, bw') ∧
    DeltaDeCompressor.read dd (set_pos (_pos bw) bw') =
      Ok (time', DeltaDeCompressor.mk (decoded D) time', bwr) ∧
    _pos bwr = _pos bw'.
Proof.
  intros Hwf Ht Hst Hf Hroom D time'.
  pose proof (delta_encoded_length D) as Hlen. unfold free_size in Hroom.
  assert (Hfit : Z.of_nat (length (delta_encoded D)) <= _pos bw) by lia.
  rewrite delta_append_next by done. fold D. unfold free_size.
  rewrite (proj2 (Z.ltb_ge _ _)) by lia.
  destruct (reads_pushed _ _ _ bw (delta_read_appended time dc dd Ht Hst) Hwf Hfit)
    as (bwr & E & Hp).
  by exists (push (delta_encoded D) bw), bwr.
Qed.

(** A time stamp that is not first in its sequence, appended with nine free
    bytes, comes back exactly when the decompressor reads from where it was
    stored, and the two sides stay in step, for every change of the time
    increment except the misread ones. *)
Theorem delta_roundtrip time dc dd bw :
  bb_wf bw → is_time time → in_step dc dd → DeltaCompressor.is_first dc = false →
  9 <= free_size bw → misread (DeltaCompressor.delta dc time) = false →
  ∃ dc' bw' dd' bwr,
    DeltaCompressor.append time dc bw = Ok (true, dc', bw') ∧
    DeltaDeCompressor.read dd (set_pos (_pos bw) bw') = Ok (time, dd', bwr) ∧
    _pos bwr = _pos bw' ∧ in_step dc' dd'.
Proof.
  intros Hwf Ht Hst Hf Hroom Hm.
  destruct (delta_step time dc dd bw Hwf Ht Hst Hf Hroom) as (bw' & bwr & E1 & E2 & E3).
  unfold decoded in E2. rewrite Hm, Z.sub_diag, Z.add_0_r in E2.
  rewrite (wrap_small 64 time) in E2 by done.
  by eexists _, bw', _, bwr.
Qed.

Lemma delta_roundtrip_witness :
  let dc := DeltaCompressor.mk false 1000 10 1000 in
  let dd := DeltaDeCompressor.mk 10 1000 in
  ∃ dc' bw' dd' bwr,
    DeltaCompressor.append 3000 dc (make_buffer (replicate 16 0)) = Ok (true, dc', bw') ∧
    DeltaDeCompressor.read dd (set_pos 15 bw') = Ok (3000, dd', bwr) ∧
    _pos bwr = _pos bw' ∧ in_step dc' dd'.
Proof.
  intros dc dd.
  apply (delta_roundtrip 3000 dc dd (make_buffer (replicate 16 0))).
  - repeat split; vm_compute; congruence.
  - split; vm_compute; congruence.
  - split; reflexivity.
  - reflexivity.
  - vm_compute; congruence.
  - reflexivity.
Defined.

(** A stamp whose increment changes by an even amount between -524286 and
    -4096 does not come back: the decompressor returns the stamp plus one and
    from then on holds another previous change than the compressor. *)
Theorem delta_misread_off_by_one time dc dd bw :
  bb_wf bw → is_time time → in_step dc dd → DeltaCompressor.is_first dc = false →
  9 <= free_size bw → misread (DeltaCompressor.delta dc time) = true →
  ∃ dc' bw' dd' bwr,
    DeltaCompressor.append time dc bw = Ok (true, dc', bw') ∧
    DeltaDeCompressor.read dd (set_pos (_pos bw) bw') = Ok (u64 (time + 1), dd', bwr) ∧
    DeltaDeCompressor.prev_delta dd' = DeltaCompressor.prev_delta dc' + 1.
Proof.
  intros Hwf Ht Hst Hf Hroom Hm.
  destruct (delta_step time dc dd bw Hwf Ht Hst Hf Hroom) as (bw' & bwr & E1 & E2 & E3).
  unfold decoded in E2. rewrite Hm in E2.
  replace (DeltaCompressor.delta dc time + 1 - DeltaCompressor.delta dc time) with 1 in E2 by lia.
  by eexists _, bw', _, bwr.
Qed.

Lemma delta_misread_off_by_one_witness :
  let dc := DeltaCompressor.mk false 0 10000 10000 in
  let dd := DeltaDeCompressor.mk 10000 10000 in
  ∃ dc' bw' dd' bwr,
    DeltaCompressor.append 15000 dc (make_buffer (replicate 16 0)) = Ok (true, dc', bw') ∧
    DeltaDeCompressor.read dd (set_pos 15 bw') = Ok (15001, dd', bwr) ∧
    DeltaDeCompressor.prev_delta dd' = DeltaCompressor.prev_delta dc' + 1.
Proof.
  intros dc dd.
  apply (delta_misread_off_by_one 15000 dc dd (make_buffer (replicate 16 0))).
  - repeat split; vm_compute; congruence.
  - split; vm_compute; congruence.
  - split; reflexivity.
  - reflexivity.
  - vm_compute; congruence.
  - reflexivity.
Defined.
