(* ===== verification/Xor.v ===== *)
(** * Xor compression of values

    [libdariadb/compression/xor.cpp] with the bit counts of [utils/cz.h].  A
    value is the 64-bit pattern of a double ([inner::flat_double_to_int] is a
    reinterpretation).  A value is stored as the xor with the previous one: a
    zero byte, or the number of significant bytes, the number of trailing zero
    bits and the significant bytes.

    Shown: what [append] writes and that [read] gives the value back, for every
    xor whose first and last bit are not both set; when both are, nine bytes are
    announced and the ninth is read from beyond the 8-byte array. *)

From Stdlib Require Import ZArith Lia.
From stdpp Require Import base numbers list.
From S2P Require Import Prelude ByteBuffer Float64.

Local Open Scope Z_scope.

(** [__builtin_ctzll] and [__builtin_clzll], which are only called on a
    non-zero argument. *)
Fixpoint pos_ctz (p : positive) : Z :=
  match p with
  | xO q => 1 + pos_ctz q
  | _ => 0
  end.
Definition ctz (x : Z) : Z :=
  match x with
  | Zpos p => pos_ctz p
  | _ => 64
  end.
Definition clz (x : Z) : Z := 63 - Z.log2 x.

Definition u64_buffer_size : nat := 8.

(** [(total_bits - lead - tail) / 8 + 1] as [uint8_t]. *)
Definition count_of_bytes (xor_val : Z) : Z :=
  u8 ((64 - clz xor_val - ctz xor_val) / 8 + 1).

(** [for (i = 0; i < n; ++i) bw->write(buff[i])] *)
Fixpoint write_buff (buff : list Z) (n : nat) (bw : ByteBuffer) {struct n} : outcome ByteBuffer :=
  match n with
  | O => Ok bw
  | S n =>
    match buff with
    | [] => UB
    | b :: buff => bw ← write 1 b bw; write_buff buff n bw
    end
  end.

(** [for (i = 0; i < n; ++i) buff[i] = bw->read<uint8_t>()] into a zeroed array
    of [room] bytes. *)
Fixpoint read_buff (n room : nat) (bw : ByteBuffer) {struct n} : outcome (list Z * ByteBuffer) :=
  match n with
  | O => Ok (replicate room 0, bw)
  | S n =>
    match room with
    | O => UB
    | S room =>
      '(b, bw) ← read 1 bw;
      '(bs, bw) ← read_buff n room bw;
      Ok (b :: bs, bw)
    end
  end.

Module XorCompressor.

Record t := mk {
  _is_first : bool;
  _first : Z;
  _prev_value : Z;
}.

Definition init : t := mk true 0 0.

Definition append (flat : Z) (xc : t) (bw : ByteBuffer)
  : outcome (bool * t * ByteBuffer) :=
  if _is_first xc then Ok (true, mk false flat flat, bw)
  else
    let xor_val := Z.lxor (_prev_value xc) flat in
    if xor_val =? 0 then
      if free_size bw <? 1 then Ok (false, xc, bw)
      else bw ← write 1 0 bw; Ok (true, xc, bw)
    else
      let tail := ctz xor_val in
      let count := count_of_bytes xor_val in
      if free_size bw <? count + 2 then Ok (false, xc, bw)
      else
        bw ← write 1 count bw;
        bw ← write 1 tail bw;
        let moved_value := Z.shiftr xor_val tail in
        let buff := to_le u64_buffer_size moved_value in
        bw ← write_buff buff (Z.to_nat count) bw;
        Ok (true, mk (_is_first xc) (_first xc) flat, bw).

End XorCompressor.

Module XorDeCompressor.

Record t := mk { _prev_value : Z }.

Definition init (first : Z) : t := mk first.

Definition read (xd : t) (bw : ByteBuffer) : outcome (Z * t * ByteBuffer) :=
  '(flag_byte, bw) ← read 1 bw;
  if flag_byte =? 0 then Ok (_prev_value xd, xd, bw)
  else
    '(move_count, bw) ← read 1 bw;
    '(buff, bw) ← read_buff (Z.to_nat flag_byte) u64_buffer_size bw;
    let raw_value := of_le buff in
    (* shifting a 64-bit value by 64 or more is undefined *)
    if 64 <=? move_count then UB
    else
      let moved := u64 (Z.shiftl raw_value move_count) in
      let ret := Z.lxor moved (_prev_value xd) in
      Ok (ret, mk ret, bw).

End XorDeCompressor.

(** ** The byte format *)
(** The xors that need at most 8 bytes: bits 63 and 0 are not both set. *)
Definition fits_u64 (x : Z) : bool := negb (Z.testbit x 63 && Z.testbit x 0).

Definition xor_encoded (x : Z) : list Z :=
  if x =? 0 then [0]
  else [count_of_bytes x; ctz x] ++
       to_le (Z.to_nat (count_of_bytes x)) (Z.shiftr x (ctz x)).

(** *** Bit counts *)

Lemma pos_ctz_spec p : ∃ q, Zpos p = (2 * q + 1) * 2 ^ pos_ctz p ∧ 0 <= q ∧ 0 <= pos_ctz p.
Proof.
  induction p as [p _|p (q & Hq & Hq0 & Hc)|].
  - exists (Zpos p). cbn [pos_ctz]. rewrite Z.pow_0_r. lia.
  - exists q. cbn [pos_ctz]. rewrite Z.pow_add_r by lia. split; [|lia].
    rewrite Pos2Z.inj_xO, Hq. lia.
  - exists 0. cbn [pos_ctz]. lia.
Qed.

Lemma ctz_spec x : 0 < x →
  ∃ q, x = (2 * q + 1) * 2 ^ ctz x ∧ 0 <= q ∧ 0 <= ctz x.
Proof. intros Hx. destruct x as [|p|p]; try lia. apply pos_ctz_spec. Qed.

Lemma ctz_log2 x : 0 < x → ctz x <= Z.log2 x.
Proof.
  intros Hx. destruct (ctz_spec x Hx) as (q & Hq & Hq0 & Hc).
  apply Z.log2_le_pow2; [done|]. rewrite Hq at 2.
  pose proof (Z.pow_pos_nonneg 2 (ctz x) ltac:(lia) Hc). nia.
Qed.

Lemma log2_u64 x : 0 < x < 2 ^ 64 → 0 <= Z.log2 x < 64.
Proof. intros. split; [apply Z.log2_nonneg|]. apply Z.log2_lt_pow2; lia. Qed.

(** Shifting the trailing zeros out and back in loses nothing. *)
Lemma shift_back x : 0 < x → Z.shiftl (Z.shiftr x (ctz x)) (ctz x) = x.
Proof.
  intros Hx. destruct (ctz_spec x Hx) as (q & Hq & Hq0 & Hc).
  rewrite Z.shiftr_div_pow2, Z.shiftl_mul_pow2 by lia.
  rewrite Hq at 1. rewrite Z.div_mul by (apply Z.pow_nonzero; lia). by rewrite <- Hq.
Qed.

Lemma testbit_0_ctz x : 0 < x → Z.testbit x 0 = (ctz x =? 0).
Proof.
  intros Hx. destruct (ctz_spec x Hx) as (q & Hq & Hq0 & Hc).
  destruct (Z.eqb_spec (ctz x) 0) as [E|E].
  - rewrite Hq, E, Z.pow_0_r, Z.mul_1_r. apply Z.testbit_odd_0.
  - rewrite Hq. apply Z.mul_pow2_bits_low. lia.
Qed.

Lemma testbit_63_log2 x : 0 < x < 2 ^ 64 → Z.testbit x 63 = (Z.log2 x =? 63).
Proof.
  intros Hx. pose proof (log2_u64 x Hx). destruct (Z.eqb_spec (Z.log2 x) 63) as [E|E].
  - rewrite <- E. apply Z.bit_log2. lia.
  - apply Z.bits_above_log2; lia.
Qed.

(** The announced count: at most 8 exactly when the xor [fits_u64], else 9. *)
Lemma count_of_bytes_eq x : 0 < x < 2 ^ 64 →
  count_of_bytes x = (Z.log2 x - ctz x + 1) / 8 + 1.
Proof.
  intros Hx. unfold count_of_bytes, clz.
  pose proof (log2_u64 x Hx). pose proof (ctz_log2 x ltac:(lia)).
  destruct (ctz_spec x ltac:(lia)) as (q & Hq & Hq0 & Hc).
  replace (64 - (63 - Z.log2 x) - ctz x) with (Z.log2 x - ctz x + 1) by lia.
  apply wrap_small.
  pose proof (Z.div_le_mono (Z.log2 x - ctz x + 1) 64 8 ltac:(lia) ltac:(lia)).
  pose proof (Z.div_pos (Z.log2 x - ctz x + 1) 8 ltac:(lia) ltac:(lia)).
  change (64 / 8) with 8 in *. lia.
Qed.

Lemma count_of_bytes_range x : 0 < x < 2 ^ 64 →
  1 <= count_of_bytes x <= 9 ∧ (count_of_bytes x <= 8 ↔ fits_u64 x = true).
Proof.
  intros Hx. rewrite count_of_bytes_eq by done. unfold fits_u64.
  rewrite testbit_63_log2, testbit_0_ctz by lia.
  pose proof (log2_u64 x Hx). pose proof (ctz_log2 x ltac:(lia)).
  destruct (ctz_spec x ltac:(lia)) as (q & Hq & Hq0 & Hc).
  set (s := Z.log2 x - ctz x + 1) in *.
  assert (Hs : 1 <= s <= 64) by lia.
  pose proof (Z.div_le_mono s 64 8 ltac:(lia) ltac:(lia)).
  pose proof (Z.div_pos s 8 ltac:(lia) ltac:(lia)). change (64 / 8) with 8 in *.
  split; [lia|]. split; intros Hle.
  - apply negb_true_iff. destruct (Z.eqb_spec (Z.log2 x) 63), (Z.eqb_spec (ctz x) 0); try done.
    exfalso. assert (s = 64) as Es by lia. rewrite Es in Hle. change (64 / 8) with 8 in Hle. lia.
  - assert (s <= 63).
    { destruct (Z.eqb_spec (Z.log2 x) 63), (Z.eqb_spec (ctz x) 0); cbn in Hle; try done; lia. }
    pose proof (Z.div_le_mono s 63 8 ltac:(lia) ltac:(lia)). change (63 / 8) with 7 in *. lia.
Qed.

Lemma moved_fits x : 0 < x < 2 ^ 64 →
  0 <= Z.shiftr x (ctz x) < 256 ^ count_of_bytes x.
Proof.
  intros Hx. destruct (ctz_spec x ltac:(lia)) as (q & Hq & Hq0 & Hc).
  split; [apply Z.shiftr_nonneg; lia|].
  rewrite count_of_bytes_eq by done. rewrite Z.shiftr_div_pow2 by lia.
  pose proof (ctz_log2 x ltac:(lia)).
  apply Z.div_lt_upper_bound; [apply Z.pow_pos_nonneg; lia|].
  apply Z.lt_le_trans with (2 ^ (Z.log2 x + 1)).
  { pose proof (Z.log2_spec x ltac:(lia)) as [_ ?].
    by replace (Z.log2 x + 1) with (Z.succ (Z.log2 x)) by lia. }
  set (k := (Z.log2 x - ctz x + 1) / 8).
  assert (Hk : 0 <= k) by (apply Z.div_pos; lia).
  change 256 with (2 ^ 8). rewrite <- Z.pow_mul_r, <- Z.pow_add_r by lia.
  apply Z.pow_le_mono_r; [lia|].
  pose proof (Z.div_mod (Z.log2 x - ctz x + 1) 8 ltac:(lia)) as Hd.
  pose proof (Z.mod_pos_bound (Z.log2 x - ctz x + 1) 8 ltac:(lia)). fold k in Hd. lia.
Qed.

(** *** Writing and reading the significant bytes *)

Lemma write_buff_take bs n bw :
  bb_wf bw → (n <= length bs)%nat → Z.of_nat n <= _pos bw →
  Forall byte_range bs → write_buff bs n bw = Ok (push (take n bs) bw).
Proof.
  revert bs bw. induction n as [|n IH]; intros bs bw Hwf Hn Hp Hbs.
  - cbn [write_buff]. by rewrite take_0, push_nil.
  - destruct bs as [|b bs]; cbn [length] in Hn; [lia|].
    apply Forall_cons_iff in Hbs as [Hb Hbs]. cbn [write_buff]. rewrite firstn_cons.
    rewrite write_fits, bind_Ok by (done || lia).
    assert (to_be 1 b = [b]) as -> by (by rewrite to_be_1, Z.mod_small by apply Hb).
    rewrite IH; [| | lia | rewrite push_pos; cbn [length]; lia | done].
    + change (b :: take n bs) with ([b] ++ take n bs).
      rewrite push_app; [done|done|]. rewrite length_take. cbn [length]. lia.
    + apply push_wf; [done|]. cbn [length]. lia.
Qed.

Lemma write_buff_overrun bs n bw :
  bb_wf bw → (length bs < n)%nat → Z.of_nat n <= _pos bw →
  Forall byte_range bs → write_buff bs n bw = UB.
Proof.
  revert bs bw. induction n as [|n IH]; intros bs bw Hwf Hn Hp Hbs; [lia|].
  destruct bs as [|b bs]; [done|]. apply Forall_cons_iff in Hbs as [Hb Hbs].
  cbn [length] in Hn. cbn [write_buff].
  rewrite write_fits, bind_Ok by (done || lia).
  apply IH; [| lia | rewrite push_pos, length_to_be; lia | done].
  apply push_wf; [done|]. rewrite length_to_be. lia.
Qed.

Lemma read_buff_reads bs room :
  (length bs <= room)%nat →
  reads (read_buff (length bs) room) bs (bs ++ replicate (room - length bs) 0).
Proof.
  revert room. induction bs as [|b bs IH]; intros room Hroom.
  - cbn [length read_buff app]. rewrite Nat.sub_0_r. apply reads_ret.
  - destruct room as [|room]; cbn [length] in *; [lia|]. cbn [read_buff].
    change (b :: bs) with ([b] ++ bs) at 1.
    apply (reads_bind (read 1) (fun b bw => '(bs, bw) ← read_buff (length bs) room bw;
      Ok (b :: bs, bw)) [b] bs b); [apply reads_byte|].
    apply (reads_map _ (cons b)), IH. lia.
Qed.

Lemma of_le_zeros bs n : of_le (bs ++ replicate n 0) = of_le bs.
Proof.
  induction bs as [|b bs IH]; cbn [app of_le]; [|by rewrite IH].
  induction n as [|n IHn]; cbn [replicate of_le]; lia.
Qed.

Lemma to_le_take n m z : (n <= m)%nat → take n (to_le m z) = to_le n z.
Proof.
  revert m z. induction n as [|n IH]; intros m z Hn; [done|].
  destruct m as [|m]; [lia|]. cbn [to_le take]. f_equal. apply IH. lia.
Qed.

(** *** Append *)

Lemma xor_encoded_length x : 0 <= x < 2 ^ 64 →
  Z.of_nat (length (xor_encoded x)) = if x =? 0 then 1 else count_of_bytes x + 2.
Proof.
  intros Hx. unfold xor_encoded. destruct (Z.eqb_spec x 0); [done|].
  rewrite length_app, length_to_le. cbn [length].
  pose proof (count_of_bytes_range x ltac:(lia)). lia.
Qed.

Lemma xor_append_first v xc bw :
  XorCompressor._is_first xc = true →
  XorCompressor.append v xc bw = Ok (true, XorCompressor.mk false v v, bw).
Proof. intros H. unfold XorCompressor.append. by rewrite H. Qed.

Lemma lxor_u64 a b : is_value a → is_value b → 0 <= Z.lxor a b < 2 ^ 64.
Proof.
  intros [Ha1 Ha2] [Hb1 Hb2].
  assert (H0 : 0 <= Z.lxor a b) by (apply Z.lxor_nonneg; tauto).
  split; [done|]. destruct (Z.eq_dec (Z.lxor a b) 0) as [->|Hne]; [lia|].
  apply Z.log2_lt_pow2; [lia|].
  apply Z.le_lt_trans with (Z.max (Z.log2 a) (Z.log2 b)); [by apply Z.log2_lxor|].
  apply Z.max_lub_lt.
  - destruct (Z.eq_dec a 0) as [->|]; [cbn; lia|]. apply Z.log2_lt_pow2; lia.
  - destruct (Z.eq_dec b 0) as [->|]; [cbn; lia|]. apply Z.log2_lt_pow2; lia.
Qed.

(** A later value pushes its encoding when it fits in the buffer and in eight
    bytes; without room [append] fails and changes nothing. *)
Lemma xor_append_next v xc bw :
  bb_wf bw → is_value v → is_value (XorCompressor._prev_value xc) →
  XorCompressor._is_first xc = false →
  let x := Z.lxor (XorCompressor._prev_value xc) v in
  XorCompressor.append v xc bw =
  if free_size bw <? Z.of_nat (length (xor_encoded x)) then Ok (false, xc, bw)
  else if fits_u64 x then
    Ok (true, XorCompressor.mk false (XorCompressor._first xc) v, push (xor_encoded x) bw)
  else UB.
Proof.
  intros Hwf Hv Hp Hf x. pose proof (lxor_u64 _ _ Hp Hv) as Hx. fold x in Hx.
  unfold XorCompressor.append. rewrite Hf. fold x.
  rewrite (xor_encoded_length x Hx). destruct (Z.eqb_spec x 0) as [E|E].
  { destruct (free_size bw <? 1) eqn:Hs; breflect; [done|].
    rewrite write_fits, bind_Ok by (done || unfold free_size in *; lia).
    unfold xor_encoded. rewrite E. cbn [Z.eqb]. change (fits_u64 0) with true. cbn match.
    apply Z.lxor_eq in E. rewrite <- E. by destruct xc; cbn in *; subst. }
  pose proof (count_of_bytes_range x ltac:(lia)) as [Hc Hfit].
  pose proof (ctz_log2 x ltac:(lia)) as Hct. pose proof (log2_u64 x ltac:(lia)) as Hlg.
  destruct (ctz_spec x ltac:(lia)) as (_ & _ & _ & Hct0).
  destruct (free_size bw <? count_of_bytes x + 2) eqn:Hs; breflect; [done|].
  unfold free_size in Hs.
  rewrite write_fits, bind_Ok by (done || lia).
  assert (Hwf1 : bb_wf (push (to_be 1 (count_of_bytes x)) bw))
    by (apply push_wf; rewrite ?length_to_be; done || lia).
  rewrite write_fits, bind_Ok by (rewrite ?push_pos, ?length_to_be; done || lia).
  rewrite <- push_app by (rewrite ?length_to_be; done || lia).
  rewrite !to_be_1, !Z.mod_small by lia. cbn [app].
  assert (Hwf2 : bb_wf (push [count_of_bytes x; ctz x] bw))
    by (apply push_wf; cbn [length]; done || lia).
  destruct (fits_u64 x) eqn:Hfx.
  - apply proj2 in Hfit. specialize (Hfit eq_refl).
    rewrite write_buff_take, bind_Ok; [|done| | |apply to_le_range].
    + rewrite to_le_take by (unfold u64_buffer_size; lia).
      rewrite <- push_app; [|done|].
      * unfold xor_encoded. by rewrite (proj2 (Z.eqb_neq x 0)) by done.
      * cbn [length]. rewrite length_to_le. lia.
    + rewrite length_to_le. unfold u64_buffer_size. lia.
    + rewrite push_pos. cbn [length]. lia.
  - rewrite write_buff_overrun; [done|done| | |apply to_le_range].
    + rewrite length_to_le. unfold u64_buffer_size.
      destruct (Z_le_gt_dec (count_of_bytes x) 8) as [Hle|]; [|lia].
      by apply Hfit in Hle.
    + rewrite push_pos. cbn [length]. lia.
Qed.

(** *** Read *)

(** The value that was appended comes back, whatever follows in the stream. *)
Lemma xor_read_appended v xd :
  is_value v → is_value (XorDeCompressor._prev_value xd) →
  let x := Z.lxor (XorDeCompressor._prev_value xd) v in
  fits_u64 x = true →
  reads (XorDeCompressor.read xd) (xor_encoded x) (v, XorDeCompressor.mk v).
Proof.
  intros Hv Hp x Hfx. pose proof (lxor_u64 _ _ Hp Hv) as Hx. fold x in Hx.
  unfold xor_encoded. destruct (Z.eqb_spec x 0) as [E|E].
  { intros bw s Hwf Hs. destruct (read_byte _ _ bw Hwf Hs) as (Hr & Hw & Hs').
    split; [|done]. unfold XorDeCompressor.read. rewrite Hr, bind_Ok. cbn [Z.eqb length].
    apply Z.lxor_eq in E. rewrite <- E. by destruct xd. }
  pose proof (count_of_bytes_range x ltac:(lia)) as [Hc Hfit].
  apply proj2 in Hfit. specialize (Hfit Hfx).
  pose proof (moved_fits x ltac:(lia)) as Hm.
  pose proof (ctz_log2 x ltac:(lia)). pose proof (log2_u64 x ltac:(lia)).
  change ([count_of_bytes x; ctz x] ++ ?l) with ([count_of_bytes x] ++ [ctz x] ++ l).
  set (l := to_le _ _).
  unfold XorDeCompressor.read.
  apply (reads_bind (read 1) (fun flag_byte bw => if flag_byte =? 0 then _ else _)
           [count_of_bytes x] _ (count_of_bytes x)); [apply reads_byte|].
  rewrite (proj2 (Z.eqb_neq (count_of_bytes x) 0)) by lia.
  apply (reads_bind (read 1) (fun move_count bw => _) [ctz x] l (ctz x)); [apply reads_byte|].
  assert (Hl : length l = Z.to_nat (count_of_bytes x)) by apply length_to_le.
  rewrite <- Hl. intros bw s Hwf Hs.
  destruct (read_buff_reads l u64_buffer_size
    ltac:(rewrite Hl; unfold u64_buffer_size; lia) bw s Hwf Hs) as (-> & ? & ?).
  rewrite bind_Ok. split; [|done].
  rewrite of_le_zeros. subst l. rewrite of_to_le_small by (rewrite Z2Nat.id; lia).
  rewrite (proj2 (Z.leb_gt 64 (ctz x))) by lia.
  rewrite shift_back, wrap_small by lia. subst x.
  by rewrite Z.lxor_comm, <- Z.lxor_assoc, Z.lxor_nilpotent, Z.lxor_0_l.
Qed.

(** ** Properties *)

(** A value that is not first in its sequence, appended with eleven free
    bytes, comes back bit for bit from where it was stored, provided it does not
    differ from its predecessor in both the highest and the lowest bit. *)
Theorem xor_roundtrip v xc xd bw :
  bb_wf bw → is_value v → is_value (XorCompressor._prev_value xc) →
  XorDeCompressor._prev_value xd = XorCompressor._prev_value xc →
  XorCompressor._is_first xc = false →
  11 <= free_size bw → fits_u64 (Z.lxor (XorCompressor._prev_value xc) v) = true →
  ∃ xc' bw' xd' bwr,
    XorCompressor.append v xc bw = Ok (true, xc', bw') ∧
    XorDeCompressor.read xd (set_pos (_pos bw) bw') = Ok (v, xd', bwr) ∧
    _pos bwr = _pos bw' ∧
    XorDeCompressor._prev_value xd' = XorCompressor._prev_value xc'.
Proof.
  intros Hwf Hv Hp Hst Hf Hroom Hfit.
  set (x := Z.lxor (XorCompressor._prev_value xc) v) in *.
  pose proof (lxor_u64 _ _ Hp Hv) as Hx. fold x in Hx.
  assert (Hlen : Z.of_nat (length (xor_encoded x)) <= _pos bw).
  { rewrite xor_encoded_length by done. unfold free_size in Hroom.
    destruct (Z.eqb_spec x 0); [lia|].
    destruct (count_of_bytes_range x ltac:(lia)) as [Hc _]. lia. }
  rewrite xor_append_next by done. fold x. unfold free_size.
  rewrite (proj2 (Z.ltb_ge _ _)), Hfit by lia.
  pose proof (xor_read_appended v xd Hv) as Hr. rewrite Hst in Hr.
  destruct (reads_pushed _ _ _ bw (Hr Hp Hfit) Hwf Hlen) as (bwr & E & Hpos).
  by eexists _, (push (xor_encoded x) bw), _, bwr.
Qed.

Lemma xor_roundtrip_witness :
  let xc := XorCompressor.mk false 0 0x4008000000000000 in
  ∃ xc' bw' xd' bwr,
    XorCompressor.append 0xc010000000000000 xc (make_buffer (replicate 16 0)) =
      Ok (true, xc', bw') ∧
    XorDeCompressor.read (XorDeCompressor.mk 0x4008000000000000) (set_pos 15 bw') =
      Ok (0xc010000000000000, xd', bwr) ∧
    _pos bwr = _pos bw' ∧
    XorDeCompressor._prev_value xd' = XorCompressor._prev_value xc'.
Proof.
  intros xc.
  apply (xor_roundtrip 0xc010000000000000 xc (XorDeCompressor.mk 0x4008000000000000)
           (make_buffer (replicate 16 0))).
  - repeat split; vm_compute; congruence.
  - split; vm_compute; congruence.
  - split; vm_compute; congruence.
  - reflexivity.
  - reflexivity.
  - vm_compute; congruence.
  - reflexivity.
Defined.

(** A value that differs from its predecessor in both the highest and the
    lowest bit makes [append] read one byte past its eight-byte array, whenever
    the buffer has room for the nine bytes it means to write. *)
Theorem xor_append_overruns v xc bw :
  bb_wf bw → is_value v → is_value (XorCompressor._prev_value xc) →
  XorCompressor._is_first xc = false → 11 <= free_size bw →
  Z.testbit (XorCompressor._prev_value xc) 63 ≠ Z.testbit v 63 →
  Z.testbit (XorCompressor._prev_value xc) 0 ≠ Z.testbit v 0 →
  XorCompressor.append v xc bw = UB.
Proof.
  intros Hwf Hv Hp Hf Hroom H63 H0.
  set (x := Z.lxor (XorCompressor._prev_value xc) v).
  pose proof (lxor_u64 _ _ Hp Hv) as Hx. fold x in Hx.
  assert (Hfit : fits_u64 x = false).
  { unfold fits_u64, x. rewrite !Z.lxor_spec.
    destruct (Z.testbit _ 63), (Z.testbit v 63), (Z.testbit _ 0), (Z.testbit v 0); done. }
  rewrite xor_append_next by done. fold x. rewrite Hfit.
  rewrite (proj2 (Z.ltb_ge _ _)); [done|]. rewrite xor_encoded_length by done.
  destruct (Z.eqb_spec x 0); [lia|].
  destruct (count_of_bytes_range x ltac:(lia)) as [Hc _]. lia.
Qed.

(** From 0.1 to -0.3. *)
Lemma xor_append_overruns_witness :
  XorCompressor.append 0xbfd3333333333333 (XorCompressor.mk false 0 0x3fb999999999999a)
    (make_buffer (replicate 16 0)) = UB.
Proof.
  apply xor_append_overruns.
  - repeat split; vm_compute; congruence.
  - split; vm_compute; congruence.
  - split; vm_compute; congruence.
  - reflexivity.
  - vm_compute; congruence.
  - vm_compute; congruence.
  - vm_compute; congruence.
Defined.
