(* ===== verification/Flag.v ===== *)
(** * LEB128 compression of flags

    [libdariadb/compression/flag.cpp]: a 32-bit flag in groups of seven bits,
    least significant group first, bit 7 of a byte set when more groups follow.

    The encoding loop runs at most five times on a 32-bit flag, which is the
    fuel [append] gives it; the decoding loop shifts by seven more bits on each
    round, and a shift by 64 or more is undefined, so the tenth round is the
    last defined one. *)

From Stdlib Require Import ZArith Lia.
From stdpp Require Import base numbers list.
From S2P Require Import Prelude ByteBuffer Meas.

Local Open Scope Z_scope.

Module FlagCompressor.

Record t := mk {
  _first : Z;
  _is_first : bool;
}.

Definition init : t := mk 0 true.

(** The [do ... while (x)] loop.  A byte that does not fit makes it return
    [false] with the earlier bytes already written. *)
Fixpoint loop (fuel : nat) (x : Z) (bw : ByteBuffer) : outcome (bool * ByteBuffer) :=
  match fuel with
  | O => Diverge
  | S fuel =>
    if free_size bw <? 1 then Ok (false, bw)
    else
      let sub_res := Z.land x 0x7f in
      let x := Z.shiftr x 7 in
      let sub_res := if x =? 0 then sub_res else Z.lor sub_res 0x80 in
      bw ← write 1 sub_res bw;
      if x =? 0 then Ok (true, bw) else loop fuel x bw
  end.

Definition append (v : Z) (fc : t) (bw : ByteBuffer) : outcome (bool * t * ByteBuffer) :=
  if _is_first fc then Ok (true, mk v false, bw)
  else '(ok, bw) ← loop 5 v bw; Ok (ok, fc, bw).

End FlagCompressor.

Module FlagDeCompressor.

Record t := mk { _first : Z; _is_first : bool }.

Definition init (first : Z) : t := mk first true.

(** The [while (true)] loop, [fuel] being the rounds left before the shift
    reaches 64. *)
Fixpoint loop (fuel : nat) (bytes result : Z) (bw : ByteBuffer)
  : outcome (Z * ByteBuffer) :=
  match fuel with
  | O => UB
  | S fuel =>
    '(readed, bw) ← read 1 bw;
    let result := u32 (Z.lor result (u64 (Z.shiftl (Z.land readed 0x7f) (7 * bytes)))) in
    if Z.land readed 0x80 =? 0 then Ok (result, bw) else loop fuel (bytes + 1) result bw
  end.

Definition read (fd : t) (bw : ByteBuffer) : outcome (Z * t * ByteBuffer) :=
  '(result, bw) ← loop 10 0 0 bw; Ok (result, fd, bw).

End FlagDeCompressor.

(** ** The byte format *)


(** The groups of [x], at most [n] of them. *)
Fixpoint leb128 (n : nat) (x : Z) : list Z :=
  match n with
  | O => []
  | S n => if x / 128 =? 0 then [x mod 128] else (x mod 128 + 128) :: leb128 n (x / 128)
  end.

Definition flag_encoded (v : Z) : list Z := leb128 5 v.

Lemma leb128_nonempty n x : (0 < n)%nat → (1 <= length (leb128 n x) <= n)%nat.
Proof.
  revert x. induction n as [|n IH]; intros x Hn; [lia|]. cbn [leb128].
  destruct (x / 128 =? 0); cbn [length]; [lia|].
  destruct n; [cbn; lia|]. specialize (IH (x / 128) ltac:(lia)). lia.
Qed.

(** One group, with the operators the code uses. *)
Lemma group_eq x :
  Z.land x 0x7f = x mod 128 ∧ Z.shiftr x 7 = x / 128 ∧
  Z.lor (x mod 128) 0x80 = x mod 128 + 128.
Proof.
  pose proof (Z.mod_pos_bound x 128 ltac:(lia)). split; [|split].
  - change 0x7f with (Z.ones 7). by rewrite Z.land_ones by lia.
  - by rewrite Z.shiftr_div_pow2 by lia.
  - rewrite Z.lor_comm. rewrite (lor_mul_pow2 1 7) by lia. lia.
Qed.

Lemma loop_leb128 n x bw :
  bb_wf bw → 0 <= x < 2 ^ (7 * Z.of_nat n) → (0 < n)%nat →
  FlagCompressor.loop n x bw =
  if _pos bw <? Z.of_nat (length (leb128 n x))
  then Ok (false, push (take (Z.to_nat (_pos bw)) (leb128 n x)) bw)
  else Ok (true, push (leb128 n x) bw).
Proof.
  revert x bw. induction n as [|n IH]; intros x bw Hwf Hx Hn; [lia|].
  cbn [FlagCompressor.loop]. unfold free_size.
  destruct (group_eq x) as (-> & -> & Hlor).
  pose proof (Z.mod_pos_bound x 128 ltac:(lia)) as Hm.
  pose proof (leb128_nonempty (S n) x ltac:(lia)) as Hlen.
  pose proof (proj1 (proj1 Hwf)) as Hpos.
  destruct (_pos bw <? 1) eqn:Hfree; breflect.
  { replace (_pos bw) with 0 by lia.
    rewrite (proj2 (Z.ltb_lt _ _)) by lia.
    replace (Z.to_nat 0) with O by lia. by rewrite take_0, push_nil. }
  cbn [leb128] in *. rewrite Hlor. destruct (Z.eqb_spec (x / 128) 0) as [E|E].
  - rewrite write_fits, bind_Ok by (done || lia). cbn [length].
    rewrite to_be_1, Z.mod_small by lia.
    by rewrite (proj2 (Z.ltb_ge _ _)) by lia.
  - rewrite write_fits, bind_Ok by (done || lia).
    rewrite to_be_1, (Z.mod_small (x mod 128 + 128)) by lia.
    set (b := x mod 128 + 128).
    assert (Hwf1 : bb_wf (push [b] bw)) by (apply push_wf; cbn [length]; done || lia).
    destruct n as [|n].
    { exfalso. apply E, Z.div_small. cbn in Hx. lia. }
    rewrite IH; [|done| |lia].
    2:{ split; [apply Z.div_pos; lia|]. apply Z.div_lt_upper_bound; [lia|].
        replace (7 * Z.of_nat (S (S n))) with (7 + 7 * Z.of_nat (S n)) in Hx by lia.
        rewrite Z.pow_add_r in Hx by lia. lia. }
    pose proof (leb128_nonempty (S n) (x / 128) ltac:(lia)) as Hlen'.
    set (l := leb128 (S n) (x / 128)) in *. rewrite push_pos. cbn [length] in *.
    destruct (Z.ltb_spec (_pos bw) (Z.of_nat (S (length l)))) as [Hlt|Hge].
    + rewrite (proj2 (Z.ltb_lt _ _)) by lia.
      replace (Z.to_nat (_pos bw)) with (S (Z.to_nat (_pos bw - Z.of_nat 1))) by lia.
      rewrite firstn_cons. change (b :: ?x) with ([b] ++ x) at 2.
      rewrite (push_app [b] _ bw); [done|done|]. rewrite length_take. cbn [length]. lia.
    + rewrite (proj2 (Z.ltb_ge _ _)) by lia.
      change (b :: l) with ([b] ++ l). rewrite (push_app [b] l bw); [done|done|]. cbn [length]. lia.
Qed.

(** A later flag pushes its groups when they all fit.  When they do not, the
    groups that fit have been pushed before [append] reports failure. *)
Lemma flag_append_next v fc bw :
  bb_wf bw → is_flag v → FlagCompressor._is_first fc = false →
  FlagCompressor.append v fc bw =
  if free_size bw <? Z.of_nat (length (flag_encoded v))
  then Ok (false, fc, push (take (Z.to_nat (_pos bw)) (flag_encoded v)) bw)
  else Ok (true, fc, push (flag_encoded v) bw).
Proof.
  intros Hwf Hv Hf. unfold FlagCompressor.append. rewrite Hf.
  rewrite loop_leb128; [|done|unfold is_flag in Hv; cbn; lia|lia].
  unfold free_size, flag_encoded. by destruct (_pos bw <? _).
Qed.

Lemma flag_append_first v fc bw :
  FlagCompressor._is_first fc = true →
  FlagCompressor.append v fc bw = Ok (true, FlagCompressor.mk v false, bw).
Proof. intros H. unfold FlagCompressor.append. by rewrite H. Qed.

(** Decoding the groups of [x] on top of the [bytes] groups already in [acc]. *)
Lemma loop_reads n x fuel bytes acc :
  0 <= x < 2 ^ (7 * Z.of_nat n) → (0 < n <= fuel)%nat → 0 <= bytes →
  0 <= acc < 2 ^ (7 * bytes) → x * 2 ^ (7 * bytes) < 2 ^ 32 - acc →
  reads (FlagDeCompressor.loop fuel bytes acc) (leb128 n x) (acc + x * 2 ^ (7 * bytes)).
Proof.
  revert x fuel bytes acc. induction n as [|n IH]; intros x fuel bytes acc Hx Hn Hb Ha Hs; [lia|].
  destruct fuel as [|fuel]; [lia|]. cbn [FlagDeCompressor.loop leb128].
  pose proof (Z.mod_pos_bound x 128 ltac:(lia)) as Hm.
  pose proof (Z.div_mod x 128 ltac:(lia)) as Hdm.
  pose proof (Z.div_pos x 128 ltac:(lia) ltac:(lia)) as Hq.
  pose proof (Z.pow_pos_nonneg 2 (7 * bytes) ltac:(lia) ltac:(lia)) as Hp.
  assert (Hstep : ∀ r, Z.land r 0x7f = x mod 128 →
    u32 (Z.lor acc (u64 (Z.shiftl (Z.land r 0x7f) (7 * bytes)))) =
    acc + (x mod 128) * 2 ^ (7 * bytes)).
  { intros r ->. rewrite Z.shiftl_mul_pow2 by lia.
    assert (Hle : (x mod 128) * 2 ^ (7 * bytes) <= x * 2 ^ (7 * bytes)) by nia.
    rewrite (wrap_small 64) by (split; [nia|]; cbn in *; lia).
    rewrite Z.lor_comm, lor_mul_pow2 by lia. rewrite wrap_small by (split; [nia|lia]). lia. }
  destruct (Z.eqb_spec (x / 128) 0) as [E|E].
  - intros bw s Hwf Hst. destruct (read_byte _ _ bw Hwf Hst) as (-> & ? & ?).
    rewrite bind_Ok. rewrite Hstep.
    + assert (Z.land (x mod 128) 0x80 = 0) as ->.
      2:{ cbn [Z.eqb length]. split; [|done]. do 3 f_equal.
          replace (x mod 128) with x by lia. done. }
      apply Z.eqb_eq, (forallb_range (fun r => Z.land r 0x80 =? 0) 0 128); [done|lia].
    + apply (proj1 (group_eq (x mod 128))) || (rewrite (proj1 (group_eq _)), Zmod_mod; done).
  - change (?b :: ?l) with ([b] ++ l).
    apply (reads_bind (read 1) (fun readed bw => if _ =? 0 then _ else _)
      [x mod 128 + 128] _ (x mod 128 + 128)); [apply reads_byte|].
    assert (Hg : Z.land (x mod 128 + 128) 0x7f = x mod 128).
    { rewrite (proj1 (group_eq _)). rewrite Z.add_comm. by apply (mod_mul_add 1 128). }
    assert ((Z.land (x mod 128 + 128) 0x80 =? 0) = false) as ->.
    { apply negb_true_iff.
      apply (forallb_range (fun r => negb (Z.land r 0x80 =? 0)) 128 128); [done|lia]. }
    rewrite Hstep by done.
    destruct n as [|n].
    { exfalso. apply E, Z.div_small. cbn in Hx. lia. }
    replace (acc + x * 2 ^ (7 * bytes)) with
      ((acc + x mod 128 * 2 ^ (7 * bytes)) + x / 128 * 2 ^ (7 * (bytes + 1))).
    + apply IH; [|lia|lia| |].
      * split; [done|]. apply Z.div_lt_upper_bound; [lia|].
        replace (7 * Z.of_nat (S (S n))) with (7 + 7 * Z.of_nat (S n)) in Hx by lia.
        rewrite Z.pow_add_r in Hx by lia. lia.
      * replace (7 * (bytes + 1)) with (7 * bytes + 7) by lia.
        rewrite Z.pow_add_r by lia. change (2 ^ 7) with 128. nia.
      * replace (7 * (bytes + 1)) with (7 * bytes + 7) by lia.
        rewrite Z.pow_add_r by lia. change (2 ^ 7) with 128. nia.
    + replace (7 * (bytes + 1)) with (7 * bytes + 7) by lia.
      rewrite Z.pow_add_r by lia. change (2 ^ 7) with 128. nia.
Qed.

(** The flag that was appended comes back. *)
Lemma flag_read_appended v fd :
  is_flag v → reads (FlagDeCompressor.read fd) (flag_encoded v) (v, fd).
Proof.
  intros Hv. unfold FlagDeCompressor.read, flag_encoded.
  apply (reads_map (FlagDeCompressor.loop 10 0 0) (fun r => (r, fd))).
  replace v with (0 + v * 2 ^ (7 * 0)) at 2 by (rewrite Z.mul_0_r, Z.pow_0_r; lia).
  unfold is_flag in Hv. apply loop_reads; cbn; lia.
Qed.

(** ** Properties *)

(** A flag that is not first in its sequence, appended with five free bytes,
    comes back from where it was stored; the encoding loop and the decoding loop
    both stop within the bits of a 32-bit flag. *)
Theorem flag_roundtrip v fc fd bw :
  bb_wf bw → is_flag v → FlagCompressor._is_first fc = false → 5 <= free_size bw →
  ∃ bw' bwr,
    FlagCompressor.append v fc bw = Ok (true, fc, bw') ∧
    FlagDeCompressor.read fd (set_pos (_pos bw) bw') = Ok (v, fd, bwr) ∧
    _pos bwr = _pos bw'.
Proof.
  intros Hwf Hv Hf Hroom. unfold free_size in Hroom.
  pose proof (leb128_nonempty 5 v ltac:(lia)) as Hlen.
  assert (Hfit : Z.of_nat (length (flag_encoded v)) <= _pos bw) by (unfold flag_encoded; lia).
  rewrite flag_append_next by done. unfold free_size.
  rewrite (proj2 (Z.ltb_ge _ _)) by lia.
  destruct (reads_pushed _ _ _ bw (flag_read_appended v fd Hv) Hwf Hfit) as (bwr & E & Hp).
  by exists (push (flag_encoded v) bw), bwr.
Qed.

Lemma flag_roundtrip_witness :
  let fc := FlagCompressor.mk 0 false in
  let fd := FlagDeCompressor.init 0 in
  ∃ bw' bwr,
    FlagCompressor.append 0xdeadbeef fc (make_buffer (replicate 8 0)) = Ok (true, fc, bw') ∧
    FlagDeCompressor.read fd (set_pos 7 bw') = Ok (0xdeadbeef, fd, bwr) ∧
    _pos bwr = _pos bw'.
Proof.
  intros fc fd. apply (flag_roundtrip 0xdeadbeef fc fd (make_buffer (replicate 8 0))).
  - repeat split; vm_compute; congruence.
  - split; vm_compute; congruence.
  - reflexivity.
  - vm_compute; congruence.
Defined.
