(* ===== verification/Bloom.v ===== *)
(** * Bloom filters

    [utils/jenkins_hash.h] and [storage/bloom_filter.h]: the filter of a set of
    identifiers or flags is the union of the bits of their hashes. *)

From Stdlib Require Import ZArith Lia.
From stdpp Require Import base numbers list.
From S2P Require Import Prelude.

Local Open Scope Z_scope.

(** One round of the hash; [key] is a [char], which is signed on the target. *)
Definition jenkins_round (hash key : Z) : Z :=
  let hash := u32 (hash + s8 key) in
  let hash := u32 (hash + u32 (Z.shiftl hash 10)) in
  Z.lxor hash (Z.shiftr hash 6).

Definition jenkins_final (hash : Z) : Z :=
  let hash := u32 (hash + u32 (Z.shiftl hash 3)) in
  let hash := Z.lxor hash (Z.shiftr hash 11) in
  u32 (hash + u32 (Z.shiftl hash 15)).

(** The hash of an object of [len] bytes. *)
Definition jenkins_one_at_a_time_hash (len : nat) (value : Z) : Z :=
  jenkins_final (fold_left jenkins_round (to_le len value) 0).

Definition bloom_empty : Z := 0.

(** [Id] and [Flag] are both four bytes wide. *)
Definition bloom_add (fltr val : Z) : Z :=
  Z.lor fltr (jenkins_one_at_a_time_hash 4 val).

Definition bloom_check (fltr val : Z) : bool :=
  let h := jenkins_one_at_a_time_hash 4 val in
  Z.land fltr h =? h.

Definition bloom_combine (fltr_a fltr_b : Z) : Z := Z.lor fltr_a fltr_b.

Lemma hash_range len value : 0 <= jenkins_one_at_a_time_hash len value < 2 ^ 32.
Proof. unfold jenkins_one_at_a_time_hash, jenkins_final. by apply wrap_range. Qed.

(** ** Filters as sets of bits *)

Definition bits_subset (a b : Z) : Prop :=
  ∀ n, 0 <= n → Z.testbit a n = true → Z.testbit b n = true.

#[export] Instance bits_subset_preorder : PreOrder bits_subset.
Proof. split; [by intros a n|]. intros a b c Hab Hbc n Hn Ha. auto. Qed.

Lemma bits_subset_land a b : Z.land b a = a ↔ bits_subset a b.
Proof.
  unfold bits_subset. split.
  - intros H n Hn Ha. rewrite <- H, Z.land_spec in Ha. by apply andb_true_iff in Ha as [? _].
  - intros H. apply Z.bits_inj'. intros n Hn. rewrite Z.land_spec.
    destruct (Z.testbit a n) eqn:Ha; [by rewrite H|by rewrite andb_false_r].
Qed.

Lemma bits_subset_lor_l a b : bits_subset a (Z.lor a b).
Proof. intros n Hn Ha. by rewrite Z.lor_spec, Ha. Qed.
Lemma bits_subset_lor_r a b : bits_subset b (Z.lor a b).
Proof. intros n Hn Hb. by rewrite Z.lor_spec, Hb, orb_true_r. Qed.
#[export] Hint Resolve bits_subset_lor_l bits_subset_lor_r : dariadb.

Lemma bloom_check_spec fltr v :
  bloom_check fltr v = true ↔ bits_subset (jenkins_one_at_a_time_hash 4 v) fltr.
Proof. unfold bloom_check. by rewrite Z.eqb_eq, bits_subset_land. Qed.

(** A larger filter accepts at least as much. *)
Lemma bloom_check_mono f g v :
  bits_subset f g → bloom_check f v = true → bloom_check g v = true.
Proof. rewrite !bloom_check_spec. intros ? ?. by etrans. Qed.

(** The filter of a sequence of values. *)
Definition bloom_of (fltr : Z) (l : list Z) : Z := fold_left bloom_add l fltr.

Lemma bloom_of_grows l fltr : bits_subset fltr (bloom_of fltr l).
Proof.
  revert fltr. induction l as [|v l IH]; intros fltr; [done|].
  etrans; [|apply IH]. apply bits_subset_lor_l.
Qed.

Lemma bloom_of_check l fltr v : v ∈ l → bloom_check (bloom_of fltr l) v = true.
Proof.
  revert fltr. induction l as [|w l IH]; intros fltr Hv; [by apply elem_of_nil in Hv|].
  apply elem_of_cons in Hv as [->|Hv]; [|by apply IH].
  apply (bloom_check_mono (bloom_add fltr w)); [apply (bloom_of_grows l)|].
  apply bloom_check_spec, bits_subset_lor_r.
Qed.

(** Combining two filters is the filter of the two sequences together. *)
Lemma bloom_of_combine l1 l2 :
  bloom_combine (bloom_of bloom_empty l1) (bloom_of bloom_empty l2) =
  bloom_of bloom_empty (l1 ++ l2).
Proof.
  unfold bloom_of. rewrite fold_left_app. generalize (fold_left bloom_add l1 bloom_empty) as f.
  unfold bloom_combine. enough (H : ∀ f g, Z.lor f (fold_left bloom_add l2 g) =
    fold_left bloom_add l2 (Z.lor f g)) by (intros f; rewrite H, Z.lor_0_r; done).
  induction l2 as [|v l2 IH]; intros f g; cbn [fold_left]; [done|].
  rewrite IH. unfold bloom_add. by rewrite Z.lor_assoc.
Qed.
