(* ===== verification/Stat.v ===== *)
(** * Statistics of a set of measurements

    [libdariadb/stat.h]: the counters every chunk header and every page footer
    keeps, [update] with one measurement and [update] with the statistic of
    another set. *)

From Stdlib Require Import ZArith Lia.
From stdpp Require Import base numbers list.
From S2P Require Import Prelude Float64 Meas Bloom.

Local Open Scope Z_scope.

Record Statistic := mkStatistic {
  minTime : Z;
  maxTime : Z;
  count : Z;
  flag_bloom : Z;
  minValue : Z;
  maxValue : Z;
  sum : Z;
}.

(** [Statistic::Statistic()] *)
Definition Statistic_empty : Statistic :=
  mkStatistic MAX_TIME MIN_TIME 0 bloom_empty MAX_VALUE MIN_VALUE 0.

(** [Statistic::update(const Meas &)] *)
Definition update (m : Meas) (st : Statistic) : Statistic :=
  mkStatistic
    (Z.min (time m) (minTime st))
    (Z.max (time m) (maxTime st))
    (u32 (count st + 1))
    (bloom_add (flag_bloom st) (flag m))
    (f64_min (value m) (minValue st))
    (f64_max (value m) (maxValue st))
    (f64_add (sum st) (value m)).

(** [Statistic::update(const Statistic &)] *)
Definition update_stat (other st : Statistic) : Statistic :=
  mkStatistic
    (Z.min (minTime other) (minTime st))
    (Z.max (maxTime other) (maxTime st))
    (u32 (count st + count other))
    (bloom_combine (flag_bloom st) (flag_bloom other))
    (f64_min (minValue other) (minValue st))
    (f64_max (maxValue other) (maxValue st))
    (f64_add (sum st) (sum other)).

(** ** The statistic of a sequence *)

Definition update_all (st : Statistic) (l : list Meas) : Statistic :=
  fold_left (fun st m => update m st) l st.

Definition stat_of (l : list Meas) : Statistic := update_all Statistic_empty l.

Lemma update_all_app st l1 l2 :
  update_all st (l1 ++ l2) = update_all (update_all st l1) l2.
Proof. apply fold_left_app. Qed.

Lemma stat_of_snoc l m : stat_of (l ++ [m]) = update m (stat_of l).
Proof. unfold stat_of. by rewrite update_all_app. Qed.

Definition time_min (l : list Meas) (t : Z) : Z := foldr (fun m => Z.min (time m)) t l.
Definition time_max (l : list Meas) (t : Z) : Z := foldr (fun m => Z.max (time m)) t l.

Lemma time_min_shift l t u : time_min l (Z.min t u) = Z.min t (time_min l u).
Proof. unfold time_min in *. induction l as [|m l IH]; cbn; [done|]. rewrite IH. lia. Qed.
Lemma time_max_shift l t u : time_max l (Z.max t u) = Z.max t (time_max l u).
Proof. unfold time_max in *. induction l as [|m l IH]; cbn; [done|]. rewrite IH. lia. Qed.

(** The integer fields, for any sequence. *)
Lemma update_all_fields l st :
  minTime (update_all st l) = time_min l (minTime st) ∧
  maxTime (update_all st l) = time_max l (maxTime st) ∧
  u32 (count (update_all st l)) = u32 (count st + Z.of_nat (length l)) ∧
  flag_bloom (update_all st l) = bloom_of (flag_bloom st) (flag <$> l) ∧
  sum (update_all st l) = fold_left f64_add (value <$> l) (sum st).
Proof.
  revert st. induction l as [|m l IH]; intros st; cbn [length fmap list_fmap fold_left].
  - change (update_all st []) with st. cbn [time_min time_max foldr bloom_of fold_left].
    repeat split. f_equal. lia.
  - destruct (IH (update m st)) as (H1 & H2 & H3 & H4 & H5).
    change (update_all st (m :: l)) with (update_all (update m st) l).
    repeat split.
    + rewrite H1. apply time_min_shift.
    + rewrite H2. apply time_max_shift.
    + rewrite H3. cbn [count update]. rewrite wrap_add_l. f_equal. lia.
    + by rewrite H4.
    + by rewrite H5.
Qed.

Lemma time_min_spec l t :
  (time_min l t <= t) ∧ Forall (fun m => time_min l t <= time m) l ∧
  (time_min l t = t ∨ ∃ m, m ∈ l ∧ time m = time_min l t).
Proof.
  induction l as [|m l (IH1 & IH2 & IH3)]; cbn.
  { repeat split; [lia|constructor|by left]. }
  change (foldr _ t l) with (time_min l t). repeat split; [lia| |].
  - constructor; [lia|]. eapply Forall_impl; [exact IH2|]; cbn; intros; lia.
  - destruct (Z.min_spec (time m) (time_min l t)) as [[? ->]|[? ->]].
    + right. exists m. split; [by left|lia].
    + destruct IH3 as [IH3|(m' & ? & ?)]; [by left|]. right. exists m'. split; [by right|lia].
Qed.

Lemma time_max_spec l t :
  (t <= time_max l t) ∧ Forall (fun m => time m <= time_max l t) l ∧
  (time_max l t = t ∨ ∃ m, m ∈ l ∧ time m = time_max l t).
Proof.
  induction l as [|m l (IH1 & IH2 & IH3)]; cbn.
  { repeat split; [lia|constructor|by left]. }
  change (foldr _ t l) with (time_max l t). repeat split; [lia| |].
  - constructor; [lia|]. eapply Forall_impl; [exact IH2|]; cbn; intros; lia.
  - destruct (Z.max_spec (time m) (time_max l t)) as [[? ->]|[? ->]].
    + destruct IH3 as [IH3|(m' & ? & ?)]; [by left|]. right. exists m'. split; [by right|lia].
    + right. exists m. split; [by left|lia].
Qed.

(** ** Values *)

(** A measurement whose value is a number. *)
Definition is_number (v : Z) : Prop := is_value v ∧ is_nan v = false.

Lemma f64_min_number a b : is_number a → is_number b → is_number (f64_min a b).
Proof. intros Ha Hb. by destruct (f64_min_choice a b) as [->| ->]. Qed.
Lemma f64_max_number a b : is_number a → is_number b → is_number (f64_max a b).
Proof. intros Ha Hb. by destruct (f64_max_choice a b) as [->| ->]. Qed.

(** [minValue] and [maxValue] are the least and the greatest of the values and
    of the initial bounds. *)
Lemma update_all_values l st :
  Forall (fun m => is_number (value m)) l →
  is_number (minValue st) → is_number (maxValue st) →
  let st' := update_all st l in
  is_number (minValue st') ∧ is_number (maxValue st') ∧
  f64_key (minValue st') =
    foldr Z.min (f64_key (minValue st)) ((fun m => f64_key (value m)) <$> l) ∧
  f64_key (maxValue st') =
    foldr Z.max (f64_key (maxValue st)) ((fun m => f64_key (value m)) <$> l).
Proof.
  assert (Hmin : ∀ ks a b, foldr Z.min (Z.min a b) ks = Z.min a (foldr Z.min b ks)).
  { induction ks as [|k ks IH]; intros; cbn; [done|]. rewrite IH. lia. }
  assert (Hmax : ∀ ks a b, foldr Z.max (Z.max a b) ks = Z.max a (foldr Z.max b ks)).
  { induction ks as [|k ks IH]; intros; cbn; [done|]. rewrite IH. lia. }
  intros Hl. revert st. induction Hl as [|m l Hm Hl IH]; intros st Hmn Hmx; [done|].
  cbn zeta. change (update_all st (m :: l)) with (update_all (update m st) l).
  destruct (IH (update m st)) as (H1 & H2 & H3 & H4);
    [by apply f64_min_number|by apply f64_max_number|].
  split; [done|]. split; [done|]. cbn [fmap list_fmap foldr].
  rewrite H3, H4. cbn [update minValue maxValue].
  destruct Hm, Hmn, Hmx. rewrite f64_min_key, f64_max_key by done. auto.
Qed.

(** ** Properties *)

(** The statistic of a non-empty sequence has the extreme times of its
    measurements, their number modulo 2^32 and a flag filter that accepts the
    flag of every one of them. *)
Theorem stat_of_sound l :
  Forall meas_wf l → l ≠ [] →
  Forall (fun m => minTime (stat_of l) <= time m <= maxTime (stat_of l) ∧
                   bloom_check (flag_bloom (stat_of l)) (flag m) = true) l ∧
  (∃ m, m ∈ l ∧ time m = minTime (stat_of l)) ∧
  (∃ m, m ∈ l ∧ time m = maxTime (stat_of l)) ∧
  u32 (count (stat_of l)) = u32 (Z.of_nat (length l)).
Proof.
  intros Hwf Hne.
  destruct (update_all_fields l Statistic_empty) as (E1 & E2 & E3 & E4 & _).
  destruct (time_min_spec l MAX_TIME) as (_ & L1 & X1).
  destruct (time_max_spec l MIN_TIME) as (_ & L2 & X2).
  unfold stat_of. rewrite E1, E2, E3, E4. cbn [minTime maxTime count flag_bloom Statistic_empty].
  destruct l as [|m0 l]; [done|]. pose proof Hwf as [(_ & Ht & _) _]%Forall_cons_1.
  unfold is_time in Ht. split; [|split; [|split; [|done]]].
  - rewrite Forall_forall in *. intros m Hm. split; [split; [by apply L1|by apply L2]|].
    by apply bloom_of_check, list_elem_of_fmap_2.
  - destruct X1 as [X1|X1]; [|done]. exists m0. split; [by left|].
    apply Forall_cons_1 in L1 as [L1 _]. rewrite X1 in *. unfold MAX_TIME in *. lia.
  - destruct X2 as [X2|X2]; [|done]. exists m0. split; [by left|].
    apply Forall_cons_1 in L2 as [L2 _]. rewrite X2 in *. unfold MIN_TIME in *. lia.
Qed.

Lemma stat_of_sound_witness :
  let l := [mkMeas 1 20 0 1; mkMeas 1 10 0 3] in
  Forall (fun m => minTime (stat_of l) <= time m <= maxTime (stat_of l) ∧
                   bloom_check (flag_bloom (stat_of l)) (flag m) = true) l ∧
  (∃ m, m ∈ l ∧ time m = minTime (stat_of l)) ∧
  (∃ m, m ∈ l ∧ time m = maxTime (stat_of l)) ∧
  u32 (count (stat_of l)) = u32 (Z.of_nat (length l)).
Proof.
  intros l. apply stat_of_sound; [|done].
  repeat constructor; vm_compute; congruence.
Defined.

(** Adding the statistic of one sequence to the statistic of another gives
    the times, the count and the flag filter of the two sequences together. *)
Theorem update_stat_of_app l1 l2 :
  let st := update_stat (stat_of l2) (stat_of l1) in
  minTime st = minTime (stat_of (l1 ++ l2)) ∧
  maxTime st = maxTime (stat_of (l1 ++ l2)) ∧
  count st = u32 (count (stat_of (l1 ++ l2))) ∧
  flag_bloom st = flag_bloom (stat_of (l1 ++ l2)).
Proof.
  cbn [update_stat minTime maxTime count flag_bloom].
  destruct (update_all_fields l1 Statistic_empty) as (A1 & A2 & A3 & A4 & _).
  destruct (update_all_fields l2 Statistic_empty) as (B1 & B2 & B3 & B4 & _).
  destruct (update_all_fields (l1 ++ l2) Statistic_empty) as (C1 & C2 & C3 & C4 & _).
  assert (Hmin : ∀ t, time_min (l1 ++ l2) t = time_min l1 (time_min l2 t))
    by (intros; apply foldr_app).
  assert (Hmax : ∀ t, time_max (l1 ++ l2) t = time_max l1 (time_max l2 t))
    by (intros; apply foldr_app).
  unfold stat_of. split_and!.
  - rewrite A1, B1, C1, Hmin, <- time_min_shift. f_equal.
    apply Z.min_l, (time_min_spec l2).
  - rewrite A2, B2, C2, Hmax, <- time_max_shift. f_equal.
    apply Z.max_l, (time_max_spec l2).
  - rewrite C3, length_app. rewrite <- wrap_add_l, <- wrap_add_r, A3, B3.
    cbn [count Statistic_empty]. rewrite wrap_add_l, wrap_add_r. f_equal. lia.
  - rewrite A4, B4, C4, fmap_app. apply bloom_of_combine.
Qed.

(** Over values that are numbers, [minValue] is the least of the values and
    of the largest finite number, and [maxValue] the greatest of the values and
    of the smallest positive normal number. *)
Theorem stat_of_value_bounds l :
  Forall (fun m => is_number (value m)) l →
  f64_key (minValue (stat_of l)) =
    foldr Z.min (f64_key MAX_VALUE) ((fun m => f64_key (value m)) <$> l) ∧
  f64_key (maxValue (stat_of l)) =
    foldr Z.max (f64_key MIN_VALUE) ((fun m => f64_key (value m)) <$> l).
Proof.
  intros Hl. destruct (update_all_values l Statistic_empty Hl) as (_ & _ & E1 & E2).
  - by split; [split; vm_compute|].
  - by split; [split; vm_compute|].
  - done.
Qed.

Lemma stat_of_value_bounds_witness :
  let l := [mkMeas 1 20 0x4008000000000000 1; mkMeas 1 10 0xc010000000000000 3] in
  f64_key (minValue (stat_of l)) =
    foldr Z.min (f64_key MAX_VALUE) ((fun m => f64_key (value m)) <$> l) ∧
  f64_key (maxValue (stat_of l)) =
    foldr Z.max (f64_key MIN_VALUE) ((fun m => f64_key (value m)) <$> l).
Proof.
  intros l. apply stat_of_value_bounds. by repeat constructor; vm_compute.
Defined.

(** The maximum of a sequence of negative numbers is recorded as the
    smallest positive normal number, which is none of them. *)
Theorem stat_of_negative_max l :
  Forall (fun m => is_number (value m) ∧ f64_sign (value m) = true) l →
  maxValue (stat_of l) = MIN_VALUE ∧ Forall (fun m => value m ≠ maxValue (stat_of l)) l.
Proof.
  intros Hl. enough (E : maxValue (stat_of l) = MIN_VALUE).
  { split; [done|]. rewrite E. eapply Forall_impl; [exact Hl|]. cbn. intros m [_ Hs] Hv.
    by rewrite Hv in Hs. }
  induction l as [|m l IH] using rev_ind; [done|].
  apply Forall_app in Hl as [Hl [[[Hv Hn] Hs] _]%Forall_cons_1].
  rewrite stat_of_snoc. cbn [update maxValue]. rewrite IH by done.
  unfold f64_max. rewrite f64_lt_key; [|done|by split|done|done].
  unfold f64_key at 1. rewrite Hs. rewrite (proj2 (Z.ltb_lt _ _)); [done|].
  unfold f64_sign in Hs. breflect. change (f64_key MIN_VALUE) with (2 ^ 52). lia.
Qed.

Lemma stat_of_negative_max_witness :
  let l := [mkMeas 1 20 0xc008000000000000 1; mkMeas 1 10 0xc010000000000000 3] in
  maxValue (stat_of l) = MIN_VALUE ∧ Forall (fun m => value m ≠ maxValue (stat_of l)) l.
Proof.
  intros l. apply stat_of_negative_max. by repeat constructor; vm_compute.
Defined.

(** ** The fields are in the ranges of their types *)

Record stat_wf (st : Statistic) : Prop := {
  sw_minTime : is_time (minTime st);
  sw_maxTime : is_time (maxTime st);
  sw_count : 0 <= count st < 2 ^ 32;
  sw_flag_bloom : 0 <= flag_bloom st < 2 ^ 32;
  sw_minValue : is_value (minValue st);
  sw_maxValue : is_value (maxValue st);
  sw_sum : is_value (sum st);
}.

Lemma Statistic_empty_wf : stat_wf Statistic_empty.
Proof. by split. Qed.

Lemma update_wf m st : meas_wf m → stat_wf st → stat_wf (update m st).
Proof.
  intros (_ & Ht & Hv & _) [H1 H2 H3 H4 H5 H6 H7]. unfold is_time in *.
  split; cbn [update minTime maxTime count flag_bloom minValue maxValue sum]; unfold is_time; try lia.
  - by apply wrap_range.
  - apply lor_range; [done|apply hash_range].
  - unfold f64_min. by destruct (f64_lt _ _).
  - unfold f64_max. by destruct (f64_lt _ _).
  - apply f64_add_value.
Qed.

Lemma update_stat_wf other st : stat_wf other → stat_wf st → stat_wf (update_stat other st).
Proof.
  intros [G1 G2 G3 G4 G5 G6 G7] [H1 H2 H3 H4 H5 H6 H7]. unfold is_time in *.
  split; cbn [update_stat minTime maxTime count flag_bloom minValue maxValue sum]; unfold is_time; try lia.
  - by apply wrap_range.
  - by apply lor_range.
  - unfold f64_min. by destruct (f64_lt _ _).
  - unfold f64_max. by destruct (f64_lt _ _).
  - apply f64_add_value.
Qed.

Lemma stat_of_wf l : Forall meas_wf l → stat_wf (stat_of l).
Proof.
  induction l as [|m l IH] using rev_ind; intros Hl; [apply Statistic_empty_wf|].
  apply Forall_app in Hl as [Hl [Hm _]%Forall_cons_1]. rewrite stat_of_snoc. by apply update_wf, IH.
Qed.
