(* ===== verification/Compression.v ===== *)
(** * Compression of measurements

    [compression/compression.cpp] and [compression.h]: the writer hands the
    time, the value and the flag of each measurement to the three compressors,
    which share one buffer; the reader takes them back in the same order. *)

From Stdlib Require Import ZArith Lia.
From stdpp Require Import base numbers list.
From S2P Require Import Prelude ByteBuffer Float64 Meas Delta Xor Flag.

Local Open Scope Z_scope.

Module CopmressedWriter.

Record t := mk {
  _bb : ByteBuffer;
  _first : Meas;
  _is_first : bool;
  _is_full : bool;
  time_comp : DeltaCompressor.t;
  value_comp : XorCompressor.t;
  flag_comp : FlagCompressor.t;
}.

Definition init (bw : ByteBuffer) : t :=
  mk bw Meas_default true false DeltaCompressor.init XorCompressor.init FlagCompressor.init.

(** The three compressors run whether or not an earlier one failed. *)
Definition append (m : Meas) (w : t) : outcome (bool * t) :=
  let _first := if _is_first w then m else _first w in
  '(t_f, time_comp, bb) ← DeltaCompressor.append (time m) (time_comp w) (_bb w);
  '(f_f, value_comp, bb) ← XorCompressor.append (value m) (value_comp w) bb;
  '(v_f, flag_comp, bb) ← FlagCompressor.append (flag m) (flag_comp w) bb;
  if negb t_f || negb f_f || negb v_f
  then Ok (false, mk bb _first false true time_comp value_comp flag_comp)
  else Ok (true, mk bb _first false (_is_full w) time_comp value_comp flag_comp).

Definition isFull (w : t) : bool := _is_full w.

(** The buffer is shared with the owner of the writer, which may move it. *)
Definition set_bb (bb : ByteBuffer) (w : t) : t :=
  mk bb (_first w) (_is_first w) (_is_full w) (time_comp w) (value_comp w) (flag_comp w).

End CopmressedWriter.

Module CopmressedReader.

Record t := mk {
  _first : Meas;
  time_dcomp : DeltaDeCompressor.t;
  value_dcomp : XorDeCompressor.t;
  flag_dcomp : FlagDeCompressor.t;
}.

Definition init (first : Meas) : t :=
  mk first (DeltaDeCompressor.init (time first)) (XorDeCompressor.init (value first))
     (FlagDeCompressor.init (flag first)).

Definition read (r : t) (bw : ByteBuffer) : outcome (Meas * t * ByteBuffer) :=
  '(tm, time_dcomp, bw) ← DeltaDeCompressor.read (time_dcomp r) bw;
  '(v, value_dcomp, bw) ← XorDeCompressor.read (value_dcomp r) bw;
  '(f, flag_dcomp, bw) ← FlagDeCompressor.read (flag_dcomp r) bw;
  Ok (mkMeas (id (_first r)) tm v f, mk (_first r) time_dcomp value_dcomp flag_dcomp, bw).

End CopmressedReader.

(** ** The byte format of a sequence *)

(** The time compressor after [m]. *)
Definition dc_next (dc : DeltaCompressor.t) (m : Meas) : DeltaCompressor.t :=
  DeltaCompressor.mk false (DeltaCompressor.first dc) (DeltaCompressor.delta dc (time m)) (time m).

Definition meas_encoded (dc : DeltaCompressor.t) (pv : Z) (m : Meas) : list Z :=
  delta_encoded (DeltaCompressor.delta dc (time m)) ++
  xor_encoded (Z.lxor pv (value m)) ++ flag_encoded (flag m).

Fixpoint all_encoded (dc : DeltaCompressor.t) (pv : Z) (l : list Meas) : list Z :=
  match l with
  | [] => []
  | m :: l => meas_encoded dc pv m ++ all_encoded (dc_next dc m) (value m) l
  end.

Definition dc_after (dc : DeltaCompressor.t) (l : list Meas) : DeltaCompressor.t :=
  fold_left dc_next l dc.
Definition pv_after (pv : Z) (l : list Meas) : Z := fold_left (fun _ m => value m) l pv.

(** The measurements that come back for [l]. *)
Fixpoint all_decoded (i : Z) (dc : DeltaCompressor.t) (dd : DeltaDeCompressor.t)
    (l : list Meas) : list Meas :=
  match l with
  | [] => []
  | m :: l =>
    let D := decoded (DeltaCompressor.delta dc (time m)) in
    let tm := u64 (DeltaDeCompressor.prev_time dd + D + DeltaDeCompressor.prev_delta dd) in
    mkMeas i tm (value m) (flag m) :: all_decoded i (dc_next dc m) (DeltaDeCompressor.mk D tm) l
  end.

(** No change of the sequence is one of the misread ones. *)
Fixpoint times_kept (dc : DeltaCompressor.t) (l : list Meas) : bool :=
  match l with
  | [] => true
  | m :: l => negb (misread (DeltaCompressor.delta dc (time m))) && times_kept (dc_next dc m) l
  end.

(** No two neighbouring values differ in both bit 63 and bit 0. *)
Fixpoint values_fit (pv : Z) (l : list Meas) : bool :=
  match l with
  | [] => true
  | m :: l => fits_u64 (Z.lxor pv (value m)) && values_fit (value m) l
  end.

Lemma all_encoded_snoc dc pv l m :
  all_encoded dc pv (l ++ [m]) =
  all_encoded dc pv l ++ meas_encoded (dc_after dc l) (pv_after pv l) m.
Proof.
  revert dc pv. induction l as [|x l IH]; intros dc pv; cbn [all_encoded app].
  - by rewrite app_nil_r.
  - by rewrite IH, app_assoc.
Qed.

Lemma values_fit_snoc pv l m :
  values_fit pv (l ++ [m]) =
  values_fit pv l && fits_u64 (Z.lxor (pv_after pv l) (value m)).
Proof.
  revert pv. induction l as [|x l IH]; intros pv; cbn [values_fit app].
  - by rewrite andb_true_r.
  - by rewrite IH, andb_assoc.
Qed.

Lemma pv_after_value pv l :
  is_value pv → Forall meas_wf l → is_value (pv_after pv l).
Proof.
  intros Hp Hl. revert pv Hp. induction Hl as [|m l Hm Hl IH]; intros pv Hp; [done|].
  apply IH. apply Hm.
Qed.

Lemma meas_encoded_length dc pv m :
  meas_wf m → is_value pv → (3 <= length (meas_encoded dc pv m) <= 25)%nat.
Proof.
  intros (_ & _ & Hv & Hf) Hp. unfold meas_encoded. rewrite !length_app.
  pose proof (delta_encoded_length (DeltaCompressor.delta dc (time m))).
  pose proof (xor_encoded_length _ (lxor_u64 _ _ Hp Hv)) as Hx.
  pose proof (leb128_nonempty 5 (flag m) ltac:(lia)). unfold flag_encoded.
  destruct (Z.eqb_spec (Z.lxor pv (value m)) 0) as [E|E] in Hx; [lia|].
  pose proof (lxor_u64 _ _ Hp Hv).
  destruct (count_of_bytes_range (Z.lxor pv (value m)) ltac:(lia)) as [Hc _]. lia.
Qed.

(** ** The writer *)

(** The state of a writer after its first measurement: [dc] and [pv] are the
    previous time state and value. *)
Definition started (w : CopmressedWriter.t) (dc : DeltaCompressor.t) (pv : Z) : Prop :=
  CopmressedWriter._is_first w = false ∧
  CopmressedWriter.time_comp w = dc ∧ DeltaCompressor.is_first dc = false ∧
  XorCompressor._is_first (CopmressedWriter.value_comp w) = false ∧
  XorCompressor._prev_value (CopmressedWriter.value_comp w) = pv ∧
  FlagCompressor._is_first (CopmressedWriter.flag_comp w) = false.

(** A measurement whose encoding fits is appended: its bytes are pushed. *)
Lemma writer_append_fits m w dc pv :
  bb_wf (CopmressedWriter._bb w) → meas_wf m → is_value pv → started w dc pv →
  fits_u64 (Z.lxor pv (value m)) = true →
  Z.of_nat (length (meas_encoded dc pv m)) <= _pos (CopmressedWriter._bb w) →
  ∃ w', CopmressedWriter.append m w = Ok (true, w') ∧
    CopmressedWriter._bb w' = push (meas_encoded dc pv m) (CopmressedWriter._bb w) ∧
    CopmressedWriter._is_full w' = CopmressedWriter._is_full w ∧
    CopmressedWriter._first w' = CopmressedWriter._first w ∧
    started w' (dc_next dc m) (value m).
Proof.
  intros Hwf (_ & _ & Hv & Hf) Hp (Sf & St & Sd & Sx & Sp & Sg) Hfit.
  unfold meas_encoded. rewrite !length_app. intros Hlen.
  set (e1 := delta_encoded _) in *. set (e2 := xor_encoded _) in *.
  set (e3 := flag_encoded _) in *. set (bb := CopmressedWriter._bb w) in *.
  unfold CopmressedWriter.append. rewrite Sf, St. fold bb.
  rewrite delta_append_next by done. fold e1. unfold free_size.
  rewrite (proj2 (Z.ltb_ge _ _)), bind_Ok by lia.
  assert (Hwf1 : bb_wf (push e1 bb)) by (apply push_wf; done || lia).
  rewrite xor_append_next by (rewrite ?Sp; done). rewrite Sp. fold e2. unfold free_size.
  rewrite (proj2 (Z.ltb_ge _ _)), Hfit, bind_Ok by (rewrite push_pos; lia).
  assert (Hwf2 : bb_wf (push e2 (push e1 bb)))
    by (apply push_wf; rewrite ?push_pos; done || lia).
  rewrite flag_append_next by done. fold e3. unfold free_size.
  rewrite (proj2 (Z.ltb_ge _ _)), bind_Ok by (rewrite !push_pos; lia).
  eexists. split; [reflexivity|]. split; [|done]. cbn [CopmressedWriter._bb].
  rewrite (push_app e1), (push_app e2);
    rewrite ?push_pos, ?length_app; done || lia.
Qed.

(** Each compressor pushes some bytes; on success they are the encoding. *)
Lemma delta_append_pushes tm dc bw :
  bb_wf bw → DeltaCompressor.is_first dc = false →
  ∃ ok dc' bs, DeltaCompressor.append tm dc bw = Ok (ok, dc', push bs bw) ∧
    Z.of_nat (length bs) <= _pos bw ∧
    (ok = true → bs = delta_encoded (DeltaCompressor.delta dc tm)).
Proof.
  intros Hwf Hf. rewrite delta_append_next by done. unfold free_size.
  destruct (Z.ltb_spec (_pos bw) (Z.of_nat (length (delta_encoded (DeltaCompressor.delta dc tm))))).
  - exists false, dc, []. rewrite push_nil by done. split; [done|]. split; [|done]. apply Hwf.
  - eexists true, _, _. by split.
Qed.

Lemma xor_append_pushes v xc bw :
  bb_wf bw → is_value v → is_value (XorCompressor._prev_value xc) →
  XorCompressor._is_first xc = false →
  (XorCompressor.append v xc bw = UB ∧
   fits_u64 (Z.lxor (XorCompressor._prev_value xc) v) = false) ∨
  ∃ ok xc' bs, XorCompressor.append v xc bw = Ok (ok, xc', push bs bw) ∧
    Z.of_nat (length bs) <= _pos bw ∧
    (ok = true → bs = xor_encoded (Z.lxor (XorCompressor._prev_value xc) v)).
Proof.
  intros Hwf Hv Hp Hf. rewrite xor_append_next by done. unfold free_size.
  destruct (Z.ltb_spec (_pos bw)
    (Z.of_nat (length (xor_encoded (Z.lxor (XorCompressor._prev_value xc) v))))).
  - right. exists false, xc, []. rewrite push_nil by done. split; [done|]. split; [|done].
    apply Hwf.
  - destruct (fits_u64 _); [right|by left]. eexists true, _, _. by split.
Qed.

Lemma flag_append_pushes f fc bw :
  bb_wf bw → is_flag f → FlagCompressor._is_first fc = false →
  ∃ ok fc' bs, FlagCompressor.append f fc bw = Ok (ok, fc', push bs bw) ∧
    Z.of_nat (length bs) <= _pos bw ∧ (ok = true → bs = flag_encoded f).
Proof.
  intros Hwf Hv Hf. rewrite flag_append_next by done. unfold free_size.
  destruct (Z.ltb_spec (_pos bw) (Z.of_nat (length (flag_encoded f)))).
  - eexists false, _, _. split; [done|]. split; [|done]. rewrite length_take.
    destruct Hwf. lia.
  - eexists true, _, _. by split.
Qed.

(** Whatever [append] writes lies below the position, so the bytes of the
    earlier measurements stay as they were; success means the whole encoding. *)
Lemma writer_append_cases m w dc pv :
  bb_wf (CopmressedWriter._bb w) → meas_wf m → is_value pv → started w dc pv →
  (CopmressedWriter.append m w = UB ∧ fits_u64 (Z.lxor pv (value m)) = false) ∨
  ∃ ok w' bs, CopmressedWriter.append m w = Ok (ok, w') ∧
    CopmressedWriter._bb w' = push bs (CopmressedWriter._bb w) ∧
    Z.of_nat (length bs) <= _pos (CopmressedWriter._bb w) ∧
    (if ok then bs = meas_encoded dc pv m else CopmressedWriter._is_full w' = true).
Proof.
  intros Hwf (_ & _ & Hv & Hf) Hp (Sf & St & Sd & Sx & Sp & Sg).
  unfold meas_encoded. set (bb := CopmressedWriter._bb w) in *.
  unfold CopmressedWriter.append. rewrite Sf, St. fold bb.
  destruct (delta_append_pushes (time m) dc bb Hwf Sd) as (t_f & tc & b1 & -> & L1 & F1).
  rewrite bind_Ok.
  assert (Hwf1 : bb_wf (push b1 bb)) by (apply push_wf; done || lia).
  destruct (xor_append_pushes (value m) (CopmressedWriter.value_comp w) (push b1 bb))
    as [[-> ?]|(f_f & vc & b2 & -> & L2 & F2)]; rewrite ?Sp in *; try done; [by left|right].
  rewrite bind_Ok. rewrite push_pos in L2.
  rewrite <- push_app by (done || lia).
  assert (Hwf2 : bb_wf (push (b1 ++ b2) bb))
    by (apply push_wf; rewrite ?length_app; done || lia).
  destruct (flag_append_pushes (flag m) (CopmressedWriter.flag_comp w) (push (b1 ++ b2) bb))
    as (v_f & fc & b3 & -> & L3 & F3); try done.
  rewrite bind_Ok. rewrite push_pos in L3.
  rewrite <- push_app by (done || lia). rewrite length_app in L3.
  destruct (negb t_f || negb f_f || negb v_f) eqn:Hok.
  - eexists false, _, _. split; [done|]. split; [done|].
    split; [rewrite !length_app; lia|done].
  - eexists true, _, _. split; [done|]. split; [done|]. split; [rewrite !length_app; lia|].
    destruct t_f, f_f, v_f; try done. by rewrite F1, F2, F3, app_assoc.
Qed.

(** A measurement that does not fit is refused. *)
Lemma writer_append_no_room m w dc pv :
  bb_wf (CopmressedWriter._bb w) → meas_wf m → is_value pv → started w dc pv →
  fits_u64 (Z.lxor pv (value m)) = true →
  _pos (CopmressedWriter._bb w) < Z.of_nat (length (meas_encoded dc pv m)) →
  ∃ w', CopmressedWriter.append m w = Ok (false, w') ∧ CopmressedWriter._is_full w' = true.
Proof.
  intros Hwf Hm Hp Hs Hfit Hlen.
  destruct (writer_append_cases m w dc pv Hwf Hm Hp Hs) as [[_ ?]|([] & w' & bs & E & _ & L & B)].
  - congruence.
  - subst bs. lia.
  - by exists w'.
Qed.

(** The first measurement only initialises the compressors. *)
Lemma writer_append_first m bw :
  ∃ w', CopmressedWriter.append m (CopmressedWriter.init bw) = Ok (true, w') ∧
    CopmressedWriter._bb w' = bw ∧ CopmressedWriter._first w' = m ∧
    CopmressedWriter._is_full w' = false ∧
    started w' (DeltaCompressor.mk false (time m) 0 (time m)) (value m).
Proof. eexists. split; [reflexivity|]. done. Qed.

(** Success means that the encoding fitted. *)
Lemma writer_append_true m w w' dc pv :
  bb_wf (CopmressedWriter._bb w) → meas_wf m → is_value pv → started w dc pv →
  CopmressedWriter.append m w = Ok (true, w') →
  fits_u64 (Z.lxor pv (value m)) = true ∧
  Z.of_nat (length (meas_encoded dc pv m)) <= _pos (CopmressedWriter._bb w).
Proof.
  intros Hwf Hm Hp Hs Happ. split.
  - destruct (fits_u64 (Z.lxor pv (value m))) eqn:Hfit; [done|exfalso].
    destruct Hs as (Sf & St & Sd & Sx & Sp & Sg). destruct Hm as (_ & _ & Hv & Hf).
    unfold CopmressedWriter.append in Happ. rewrite St in Happ.
    destruct (delta_append_pushes (time m) dc (CopmressedWriter._bb w) Hwf Sd)
      as (t_f & tc & b1 & E1 & L1 & F1). rewrite E1, bind_Ok in Happ.
    assert (Hwf1 : bb_wf (push b1 (CopmressedWriter._bb w))) by (apply push_wf; done || lia).
    rewrite xor_append_next in Happ by (rewrite ?Sp; done).
    rewrite Sp, Hfit in Happ. destruct (free_size _ <? _) in Happ; [|done].
    rewrite bind_Ok in Happ.
    destruct (flag_append_pushes (flag m) (CopmressedWriter.flag_comp w) _ Hwf1 Hf Sg)
      as (v_f & fc & b3 & E3 & _). rewrite E3, bind_Ok in Happ.
    by destruct t_f.
  - destruct (writer_append_cases m w dc pv Hwf Hm Hp Hs) as [[E _]|([] & w1 & bs & E & _ & L & B)];
      [congruence| |congruence]. by subst bs.
Qed.

(** The sequences a writer accepts, and the writer they lead to. *)
Inductive Written (bb0 : ByteBuffer) (m0 : Meas) : list Meas → CopmressedWriter.t → Prop :=
| Written_first w :
    CopmressedWriter.append m0 (CopmressedWriter.init bb0) = Ok (true, w) →
    Written bb0 m0 [] w
| Written_next l m w w' :
    Written bb0 m0 l w → CopmressedWriter.append m w = Ok (true, w') →
    Written bb0 m0 (l ++ [m]) w'.

Definition dc_first (m0 : Meas) : DeltaCompressor.t :=
  DeltaCompressor.mk false (time m0) 0 (time m0).

Definition written_bytes (m0 : Meas) (l : list Meas) : list Z :=
  all_encoded (dc_first m0) (value m0) l.

Lemma dc_after_snoc dc l m : dc_after dc (l ++ [m]) = dc_next (dc_after dc l) m.
Proof. unfold dc_after. by rewrite fold_left_app. Qed.
Lemma pv_after_snoc pv l m : pv_after pv (l ++ [m]) = value m.
Proof. unfold pv_after. by rewrite fold_left_app. Qed.

Lemma Written_inv bb0 m0 l w :
  bb_wf bb0 → meas_wf m0 → Written bb0 m0 l w → Forall meas_wf l →
  CopmressedWriter._bb w = push (written_bytes m0 l) bb0 ∧
  Z.of_nat (length (written_bytes m0 l)) <= _pos bb0 ∧
  CopmressedWriter._is_full w = false ∧ CopmressedWriter._first w = m0 ∧
  values_fit (value m0) l = true ∧
  started w (dc_after (dc_first m0) l) (pv_after (value m0) l).
Proof.
  intros Hwf Hm0. induction 1 as [w E|l m w w' HW IH E]; intros Hl.
  - destruct (writer_append_first m0 bb0) as (w1 & E1 & Hb & Hfst & Hfu & Hst).
    rewrite E1 in E. injection E as <-. unfold written_bytes. cbn [all_encoded length].
    rewrite push_nil by done. split; [done|]. split; [apply Hwf|]. done.
  - apply Forall_app in Hl as [Hl Hm]. apply Forall_cons_1 in Hm as [Hm _].
    destruct (IH Hl) as (Hb & Hlen & Hfu & Hfst & Hfit & Hst). clear IH.
    assert (Hpv : is_value (pv_after (value m0) l)) by (apply pv_after_value; [apply Hm0|done]).
    assert (Hwf1 : bb_wf (CopmressedWriter._bb w)) by (rewrite Hb; apply push_wf; done).
    destruct (writer_append_true m w w' _ _ Hwf1 Hm Hpv Hst E) as [Hf1 Hroom].
    destruct (writer_append_fits m w _ _ Hwf1 Hm Hpv Hst Hf1 Hroom)
      as (w1 & E1 & Hb1 & Hfu1 & Hfst1 & Hst1).
    rewrite E1 in E. injection E as <-.
    rewrite Hb, push_pos in Hroom.
    unfold written_bytes in *. rewrite all_encoded_snoc, length_app.
    rewrite values_fit_snoc, Hfit, Hf1, dc_after_snoc, pv_after_snoc.
    repeat split; try done; try congruence; [|lia|apply Hst1..].
    rewrite push_app by (done || lia). by rewrite <- Hb.
Qed.

(** ** The reader *)

(** The decompressors hold the given previous change, time and value. *)
Definition reader_at (r : CopmressedReader.t) (dd : DeltaDeCompressor.t) (pv : Z) : Prop :=
  CopmressedReader.time_dcomp r = dd ∧
  XorDeCompressor._prev_value (CopmressedReader.value_dcomp r) = pv.

Lemma reader_reads r dc dd pv m :
  meas_wf m → is_value pv → reader_at r dd pv → fits_u64 (Z.lxor pv (value m)) = true →
  let D := decoded (DeltaCompressor.delta dc (time m)) in
  let tm := u64 (DeltaDeCompressor.prev_time dd + D + DeltaDeCompressor.prev_delta dd) in
  let i := id (CopmressedReader._first r) in
  ∃ r', reads (CopmressedReader.read r) (meas_encoded dc pv m)
          (mkMeas i tm (value m) (flag m), r') ∧
    reader_at r' (DeltaDeCompressor.mk D tm) (value m) ∧
    CopmressedReader._first r' = CopmressedReader._first r.
Proof.
  intros (_ & Ht & Hv & Hf) Hp [Rd Rp] Hfit D tm i.
  exists (CopmressedReader.mk (CopmressedReader._first r) (DeltaDeCompressor.mk D tm)
            (XorDeCompressor.mk (value m)) (CopmressedReader.flag_dcomp r)).
  split; [|done]. intros bw s Hwf Hs. unfold meas_encoded in *.
  rewrite !length_app. rewrite <- !app_assoc in Hs.
  destruct (read_delta_encoded _ (delta_int64 dc (time m)) bw _ Hwf Hs) as (Hr1 & Hwf1 & Hs1).
  pose proof (xor_read_appended (value m) (CopmressedReader.value_dcomp r) Hv) as Hx.
  rewrite Rp in Hx. destruct (Hx Hp Hfit _ _ Hwf1 Hs1) as (Hr2 & Hwf2 & Hs2).
  destruct (flag_read_appended (flag m) (CopmressedReader.flag_dcomp r) Hf _ _ Hwf2 Hs2)
    as (Hr3 & Hwf3 & Hs3).
  rewrite !advance_advance in *. rewrite <- !Nat.add_assoc in *. split; [|done].
  unfold CopmressedReader.read, DeltaDeCompressor.read. rewrite Rd.
  rewrite Hr1, !bind_Ok, Hr2, bind_Ok, Hr3, bind_Ok. done.
Qed.

Fixpoint read_all (n : nat) (r : CopmressedReader.t) (bw : ByteBuffer)
  : outcome (list Meas * CopmressedReader.t * ByteBuffer) :=
  match n with
  | O => Ok ([], r, bw)
  | S n =>
    '(m, r, bw) ← CopmressedReader.read r bw;
    '(l, r, bw) ← read_all n r bw;
    Ok (m :: l, r, bw)
  end.

Lemma reader_reads_all l r dc dd pv :
  Forall meas_wf l → is_value pv → reader_at r dd pv → values_fit pv l = true →
  ∃ r', reads (read_all (length l) r) (all_encoded dc pv l)
          (all_decoded (id (CopmressedReader._first r)) dc dd l, r').
Proof.
  intros Hl. revert r dc dd pv. induction Hl as [|m l Hm Hl IH]; intros r dc dd pv Hp Hr Hfit.
  - exists r. apply (reads_ret ([], r)).
  - cbn [values_fit] in Hfit. apply andb_true_iff in Hfit as [Hf1 Hf2].
    destruct (reader_reads r dc dd pv m Hm Hp Hr Hf1) as (r1 & H1 & Hr1 & Hfst).
    destruct (IH r1 (dc_next dc m) _ (value m) (proj1 (proj2 (proj2 Hm))) Hr1 Hf2) as (r2 & H2).
    exists r2. rewrite Hfst in H2. intros bw s Hwf Hs.
    cbn [read_all length all_encoded all_decoded] in *.
    rewrite length_app. rewrite <- app_assoc in Hs.
    destruct (H1 _ _ Hwf Hs) as (-> & Hwf1 & Hs1).
    rewrite bind_Ok. destruct (H2 _ _ Hwf1 Hs1) as (-> & ? & ?).
    rewrite advance_advance in *. by rewrite bind_Ok.
Qed.

(** Without misread changes, what comes back is what was written. *)
Lemma all_decoded_kept i dc dd l :
  in_step dc dd → times_kept dc l = true →
  Forall meas_wf l → Forall (fun m => id m = i) l → all_decoded i dc dd l = l.
Proof.
  intros Hst Hk Hl Hi. revert dc dd Hst Hk.
  induction Hl as [|m l Hm Hl IH]; intros dc dd Hst Hk; [done|].
  apply Forall_cons_1 in Hi as [Hi Hil]. cbn [times_kept all_decoded] in *.
  apply andb_true_iff in Hk as [Hk1 Hk2]. apply negb_true_iff in Hk1.
  unfold decoded. rewrite Hk1. destruct Hst as [H1 H2]. rewrite H1, H2.
  pose proof (delta_back dc (time m) 0 (proj1 (proj2 Hm))) as Hb.
  rewrite !Z.add_0_r, (wrap_small 64 (time m)) in Hb by apply Hm. rewrite Hb.
  rewrite IH by done. f_equal. by destruct m; cbn in *; subst.
Qed.

(** ** Round trip *)

(** Reading starts at the top of any region whose top bytes are those written. *)
Lemma read_back m0 l data s :
  (0 < length data)%nat → Z.of_nat (length data) < 2 ^ 32 →
  stream (make_buffer data) = written_bytes m0 l ++ s →
  meas_wf m0 → Forall meas_wf l → values_fit (value m0) l = true →
  ∃ r' bw', read_all (length l) (CopmressedReader.init m0) (make_buffer data) =
    Ok (all_decoded (id m0) (dc_first m0) (DeltaDeCompressor.init (time m0)) l, r', bw').
Proof.
  intros H0 H1 Hs Hm0 Hl Hfit.
  destruct (make_buffer_wf data H0 H1) as [Hwf _].
  destruct (reader_reads_all l (CopmressedReader.init m0) (dc_first m0)
    (DeltaDeCompressor.init (time m0)) (value m0)) as (r' & Hr); try done; [apply Hm0|].
  destruct (Hr _ _ Hwf Hs) as (E & _). by eexists _, _.
Qed.

(** The bytes below the position of a fresh buffer on the written region start
    with those of the sequence, whatever [junk] a refused measurement left. *)
Lemma written_stream data bs junk :
  (0 < length data)%nat → Z.of_nat (length data) < 2 ^ 32 →
  Z.of_nat (length (bs ++ junk)) <= Z.of_nat (length data) - 1 →
  ∃ s, stream (make_buffer (_data (push (bs ++ junk) (make_buffer data)))) = bs ++ s.
Proof.
  intros H0 H1 Hlen. destruct (make_buffer_wf data H0 H1) as [Hwf Hpos].
  rewrite <- Hpos in Hlen. pose proof (push_length _ _ Hwf Hlen) as HL.
  pose proof (stream_after_push (bs ++ junk) (make_buffer data) Hwf Hlen) as Hs.
  exists (junk ++ stream (push (bs ++ junk) (make_buffer data))).
  rewrite app_assoc, <- Hs. set (d := _data (push _ _)) in *.
  unfold make_buffer in *. cbn [_data] in HL. rewrite HL. done.
Qed.

(** ** Properties *)


Definition sample_first : Meas := mkMeas 7 1000 0x4008000000000000 1.
Definition sample_rest : list Meas :=
  [mkMeas 7 1010 0x4010000000000000 0; mkMeas 7 1020 0x4010000000000000 0x80000001;
   mkMeas 7 900000 0xc014000000000000 300].


(** A measurement the writer refuses, whatever its compressors have already
    put into the buffer, does not disturb the accepted ones: a reader still gives
    all of them back; and the writer reports that it is full. *)
Theorem compression_refused_harmless data m0 l w m w' :
  (0 < length data)%nat → Z.of_nat (length data) < 2 ^ 32 →
  Written (make_buffer data) m0 l w →
  meas_wf m0 → Forall meas_wf l → Forall (fun m => id m = id m0) l →
  times_kept (dc_first m0) l = true → meas_wf m →
  CopmressedWriter.append m w = Ok (false, w') →
  CopmressedWriter.isFull w' = true ∧
  ∃ r bw, read_all (length l) (CopmressedReader.init m0)
            (make_buffer (get_range (CopmressedWriter._bb w'))) = Ok (l, r, bw).
Proof.
  intros H0 H1 HW Hm0 Hl Hid Hk Hm Happ. destruct (make_buffer_wf data H0 H1) as [Hwf Hp].
  destruct (Written_inv _ _ _ _ Hwf Hm0 HW Hl) as (Hb & Hlen & _ & _ & Hfit & Hst).
  assert (Hwf1 : bb_wf (CopmressedWriter._bb w)) by (rewrite Hb; by apply push_wf).
  assert (Hpv : is_value (pv_after (value m0) l)) by (apply pv_after_value; [apply Hm0|done]).
  destruct (writer_append_cases m w _ _ Hwf1 Hm Hpv Hst)
    as [[E _]|([] & w1 & bs & E & Hb1 & L & B)]; rewrite E in Happ; try done.
  injection Happ as <-. split; [done|]. unfold get_range.
  rewrite Hb in Hb1, L. rewrite <- push_app in Hb1 by (rewrite ?push_pos in L; done || lia).
  rewrite push_pos in L.
  destruct (written_stream data (written_bytes m0 l) bs) as [s Hs];
    rewrite ?length_app in *; try done; [lia|].
  rewrite <- Hb1 in Hs.
  assert (HL : length (_data (CopmressedWriter._bb w1)) = length data).
  { rewrite Hb1, push_length by (rewrite ?length_app, ?Hp; done || lia). done. }
  destruct (read_back m0 l (_data (CopmressedWriter._bb w1)) s
    ltac:(lia) ltac:(lia) Hs Hm0 Hl Hfit) as (r & bw & Er).
  rewrite all_decoded_kept in Er by done. by exists r, bw.
Qed.

Lemma compression_refused_harmless_witness :
  ∃ w w', CopmressedWriter.append (mkMeas 7 1020 0 0xffffffff) w = Ok (false, w') ∧
    CopmressedWriter.isFull w' = true ∧
    ∃ r bw, read_all 1 (CopmressedReader.init sample_first)
            (make_buffer (get_range (CopmressedWriter._bb w'))) =
            Ok ([mkMeas 7 1010 0x4010000000000000 0], r, bw).
Proof.
  assert (HW : ∃ w w', Written (make_buffer (replicate 12 0)) sample_first
                 [mkMeas 7 1010 0x4010000000000000 0] w ∧
                 CopmressedWriter.append (mkMeas 7 1020 0 0xffffffff) w = Ok (false, w')).
  { eexists _, _. split.
    - eapply (Written_next _ _ []); [apply Written_first|];
        [> vm_compute; reflexivity ..].
    - vm_compute. reflexivity. }
  destruct HW as (w & w' & HW & E). exists w, w'. split; [exact E|].
  apply (compression_refused_harmless (replicate 12 0) sample_first
           [mkMeas 7 1010 0x4010000000000000 0] w (mkMeas 7 1020 0 0xffffffff)).
  - vm_compute. lia.
  - by vm_compute.
  - exact HW.
  - repeat split; vm_compute; congruence.
  - repeat constructor; vm_compute; congruence.
  - by repeat constructor.
  - vm_compute. reflexivity.
  - repeat split; vm_compute; congruence.
  - exact E.
Defined.
