(* ===== verification/StdSort.v ===== *)
(** * [std::sort] by an integer key

    The C++ library promises a permutation ordered by the comparison and leaves
    the order of equal elements open, so the sort is a parameter with exactly
    these two laws; [insertion_sort] is one function that has them. *)

From Stdlib Require Import ZArith Lia Sorting.Sorted.
From stdpp Require Import base numbers list sorting.
From S2P Require Import Prelude.

Local Open Scope Z_scope.

Definition sorted_by {A} (key : A → Z) : list A → Prop :=
  StronglySorted (fun x y => key x <= key y).

Definition strictly_by {A} (key : A → Z) : list A → Prop :=
  StronglySorted (fun x y => key x < key y).

Class StdSort := {
  std_sort : ∀ {A : Type}, (A → Z) → list A → list A;
  std_sort_perm : ∀ {A} (key : A → Z) l, std_sort key l ≡ₚ l;
  std_sort_sorted : ∀ {A} (key : A → Z) l, sorted_by key (std_sort key l);
}.

Fixpoint insert_by {A} (key : A → Z) (x : A) (l : list A) : list A :=
  match l with
  | [] => [x]
  | y :: l => if key x <=? key y then x :: y :: l else y :: insert_by key x l
  end.

Definition insertion_sort {A} (key : A → Z) (l : list A) : list A :=
  foldr (insert_by key) [] l.

Lemma insert_by_perm {A} (key : A → Z) x l : insert_by key x l ≡ₚ x :: l.
Proof.
  induction l as [|y l IH]; cbn; [done|]. case_ifs; [done|].
  rewrite IH. apply Permutation_swap.
Qed.

Lemma insert_by_sorted {A} (key : A → Z) x l :
  sorted_by key l → sorted_by key (insert_by key x l).
Proof.
  unfold sorted_by. induction 1 as [|y l Hl IH Hy]; cbn; [repeat constructor|].
  destruct (Z.leb_spec (key x) (key y)).
  - constructor; [by constructor|]. constructor; [done|].
    eapply Forall_impl; [exact Hy|]. cbn. intros. lia.
  - constructor; [done|]. rewrite insert_by_perm. constructor; [lia|done].
Qed.

#[export] Instance insertion_StdSort : StdSort.
Proof.
  refine {| std_sort := fun A => @insertion_sort A |}.
  - intros A key l. induction l as [|x l IH]; cbn; [done|]. by rewrite insert_by_perm, IH.
  - intros A key l. induction l as [|x l IH]; cbn; [constructor|]. by apply insert_by_sorted.
Defined.

Lemma StronglySorted_append {A} (R : A → A → Prop) l1 l2 :
  StronglySorted R (l1 ++ l2) ↔
  StronglySorted R l1 ∧ StronglySorted R l2 ∧ ∀ x y, x ∈ l1 → y ∈ l2 → R x y.
Proof.
  induction l1 as [|x l1 IH]; cbn [app].
  - split; [|naive_solver]. intros H. repeat split; [constructor|done|]. by intros ? ? ?%elem_of_nil.
  - split.
    + intros [Hs Hx]%StronglySorted_inv. apply IH in Hs as (H1 & H2 & H3).
      apply Forall_app in Hx as [Hx1 Hx2]. repeat split; [by constructor|done|].
      intros a b [->|Ha]%elem_of_cons Hb; [|by apply H3]. rewrite Forall_forall in Hx2. auto.
    + intros (H1 & H2 & H3). apply StronglySorted_inv in H1 as [H1 Hx].
      constructor.
      * apply IH. repeat split; [done|done|]. intros a b Ha Hb. apply H3; [by right|done].
      * apply Forall_app. split; [done|]. apply Forall_forall. intros b Hb. apply H3; [by left|done].
Qed.

Lemma sorted_by_snoc {A} (key : A → Z) l m y :
  last l = Some y →
  sorted_by key (l ++ [m]) ↔ sorted_by key l ∧ key y <= key m.
Proof.
  intros Hl. unfold sorted_by. rewrite StronglySorted_append. apply last_Some in Hl as [l' ->].
  split.
  - intros (H1 & _ & H3). split; [done|]. apply H3; [|by left].
    apply elem_of_app. right. by left.
  - intros [H1 H2]. split; [done|]. split; [repeat constructor|].
    intros a b Ha ->%list_elem_of_singleton. apply StronglySorted_append in H1 as (_ & _ & H3).
    apply elem_of_app in Ha as [Ha|Ha].
    + specialize (H3 a y Ha ltac:(by left)). lia.
    + apply list_elem_of_singleton in Ha as ->. done.
Qed.

(** A sorted list of distinct keys is determined by its elements, so on it the
    choice of the sort does not matter. *)
Lemma sorted_by_unique {A} (key : A → Z) l1 l2 :
  NoDup (key <$> l1) → sorted_by key l1 → sorted_by key l2 → l1 ≡ₚ l2 → l1 = l2.
Proof.
  intros Hnd H1. revert l2. induction H1 as [|x l1 H1 IH Hx]; intros l2 H2 Hp.
  - by apply Permutation_nil_l in Hp.
  - destruct l2 as [|y l2]; [by apply Permutation_nil_r in Hp|].
    apply StronglySorted_inv in H2 as [H2 Hy].
    cbn in Hnd. apply NoDup_cons in Hnd as [Hx0 Hnd].
    assert (x = y) as ->; [|f_equal; apply IH; [done|done|by eapply Permutation_cons_inv]].
    assert (Hyx : y ∈ x :: l1) by (rewrite Hp; left).
    assert (Hxy : x ∈ y :: l2) by (rewrite <- Hp; left).
    apply elem_of_cons in Hyx as [->|Hyx]; [done|].
    apply elem_of_cons in Hxy as [->|Hxy]; [done|].
    rewrite Forall_forall in Hx, Hy. specialize (Hx _ Hyx). specialize (Hy _ Hxy). cbn in *.
    exfalso. apply Hx0. replace (key x) with (key y) by lia. by apply list_elem_of_fmap_2.
Qed.

Lemma strictly_by_sorted {A} (key : A → Z) l : strictly_by key l → sorted_by key l.
Proof.
  induction 1 as [|x l Hl IH Hx]; constructor; [done|].
  eapply Forall_impl; [exact Hx|]. cbn. lia.
Qed.

Lemma strictly_by_NoDup {A} (key : A → Z) l : strictly_by key l → NoDup (key <$> l).
Proof.
  induction 1 as [|x l Hl IH Hx]; cbn; [constructor|]. apply NoDup_cons. split; [|done].
  intros (y & E & Hy)%list_elem_of_fmap. rewrite Forall_forall in Hx.
  specialize (Hx y Hy). cbn in Hx. lia.
Qed.

Lemma StronglySorted_lookup {A} (R : A → A → Prop) l i j a b :
  StronglySorted R l → (i < j)%nat → l !! i = Some a → l !! j = Some b → R a b.
Proof.
  intros Hs. revert i j. induction Hs as [|x l Hs IH Hx]; intros i j Hij Ha Hb; [done|].
  destruct j as [|j]; [lia|]. destruct i as [|i]; cbn in *.
  - injection Ha as <-. rewrite Forall_forall in Hx. by eapply Hx, list_elem_of_lookup_2.
  - eapply IH; [|done..]. lia.
Qed.

Lemma filter_of_fmap {A B} (f : A → B) (P : B → Prop) `{!∀ y, Decision (P y)} (l : list A) :
  base.filter P (f <$> l) = f <$> base.filter (fun x => P (f x)) l.
Proof.
  induction l as [|x l IH]; [done|]. rewrite fmap_cons, !filter_cons, IH. by case_decide.
Qed.

Lemma sublist_filter {A} (P : A → Prop) `{!∀ x, Decision (P x)} l : base.filter P l `sublist_of` l.
Proof. induction l as [|x l IH]; [done|]. rewrite filter_cons. case_decide; by constructor. Qed.

Lemma sublist_map {A B} (g : A → B) l1 l2 : l1 `sublist_of` l2 → g <$> l1 `sublist_of` g <$> l2.
Proof. induction 1; by constructor. Qed.

Lemma StronglySorted_sublist {A} (R : A → A → Prop) l1 l2 :
  l1 `sublist_of` l2 → StronglySorted R l2 → StronglySorted R l1.
Proof.
  induction 1 as [|x l1 l2 Hl IH|x l1 l2 Hl IH]; intros Hs; [constructor|..];
    apply StronglySorted_inv in Hs as [Hs Hx]; [constructor; [by apply IH|]|by apply IH].
  by eapply Forall_sublist_of.
Qed.

(** Distinct keys have one order. *)
Lemma std_sort_strict `{StdSort} {A} (key : A → Z) l l' :
  strictly_by key l → l' ≡ₚ l → std_sort key l' = l.
Proof.
  intros Hs Hp. symmetry. apply (sorted_by_unique key).
  - by apply strictly_by_NoDup.
  - by apply strictly_by_sorted.
  - apply std_sort_sorted.
  - by rewrite std_sort_perm.
Qed.
