(* ===== verification/ICursor.v ===== *)
(** * Cursors

    [interfaces/icursor.h] and [icursor.cpp]: the interface every reader of the
    storage implements, what a reader promises ([CursorSpec]: it yields one
    list of measurements), and the three functions the interface defines on top
    of [is_end] and [readNext]. *)

From Stdlib Require Import ZArith Lia.
From stdpp Require Import base numbers list.
From S2P Require Import Prelude Float64 Meas StdSort.

Local Open Scope Z_scope.

Class ICursor (C : Type) := {
  readNext : C → outcome (Meas * C);
  top : C → outcome Meas;
  is_end : C → bool;
  cursor_minTime : C → Z;
  cursor_maxTime : C → Z;
  cursor_count : C → Z;
}.

(** [rep c l]: the measurements still to be read from [c] are [l]. *)
Class CursorSpec (C : Type) `{ICursor C} := {
  rep : C → list Meas → Prop;
  rep_is_end : ∀ c l, rep c l → is_end c = bool_decide (l = []);
  rep_top : ∀ c m l, rep c (m :: l) → top c = Ok m;
  rep_next : ∀ c m l, rep c (m :: l) → ∃ c', readNext c = Ok (m, c') ∧ rep c' l;
  rep_bounds : ∀ c l, rep c l →
    Forall (fun m => cursor_minTime c <= time m <= cursor_maxTime c) l;
  rep_count : ∀ c l, rep c l → Z.of_nat (length l) <= cursor_count c;
}.

(** [IReadCallback]: its state, [is_canceled] and [apply]. *)
Class IReadCallback (S : Type) := {
  is_canceled : S → bool;
  callback : Meas → S → S;
}.

Section Functions.
Context {C : Type} `{ICursor C}.

(** All the measurements, in the order of [readNext]. *)
Fixpoint read_to_end (fuel : nat) (c : C) : outcome (list Meas) :=
  match fuel with
  | O => Diverge
  | S fuel =>
    if is_end c then Ok []
    else '(m, c) ← readNext c; l ← read_to_end fuel c; Ok (m :: l)
  end.

(** [ICursor::apply(clbk)] *)
Fixpoint apply {S} `{IReadCallback S} (fuel : nat) (clbk : S) (c : C) : outcome (S * C) :=
  match fuel with
  | O => Diverge
  | Datatypes.S fuel =>
    if is_end c then Ok (clbk, c)
    else if is_canceled clbk then Ok (clbk, c)
    else '(v, c) ← readNext c; apply fuel (callback v clbk) c
  end.

(** [ICursor::apply(clbk, q)] *)
Fixpoint apply_query {S} `{IReadCallback S} (q : QueryInterval) (fuel : nat) (clbk : S) (c : C)
  : outcome (S * C) :=
  match fuel with
  | O => Diverge
  | Datatypes.S fuel =>
    if is_end c then Ok (clbk, c)
    else if is_canceled clbk then Ok (clbk, c)
    else
      '(v, c) ← readNext c;
      let clbk := if inQueryInterval (qi_ids q) (qi_flag q) (qi_from q) (qi_to q) v
                  then callback v clbk else clbk in
      apply_query q fuel clbk c
  end.

(** [ICursor::read_time_point]; the code never sets [result_set]. *)
Fixpoint read_time_point_loop (q : QueryTimePoint) (fuel : nat) (result_set : bool)
    (result : Meas) (c : C) : outcome (Meas * C) :=
  match fuel with
  | O => Diverge
  | Datatypes.S fuel =>
    if is_end c then Ok (result, c)
    else
      '(m, c) ← readNext c;
      let result :=
        if (time m <=? qt_time_point q) && inQuery (qt_ids q) (qt_flag q) m then
          if negb result_set then m
          else if time result <? time m then m else result
        else result in
      read_time_point_loop q fuel result_set result c
  end.

Definition read_time_point (q : QueryTimePoint) (fuel : nat) (c : C) : outcome (Meas * C) :=
  read_time_point_loop q fuel false Meas_default c.

End Functions.

(** A cursor of one of two classes. *)
#[export] Instance sum_ICursor {A B} `{ICursor A, ICursor B} : ICursor (A + B) := {
  readNext c :=
    match c with
    | inl a => '(m, a) ← readNext a; Ok (m, inl a)
    | inr b => '(m, b) ← readNext b; Ok (m, inr b)
    end;
  top c := match c with inl a => top a | inr b => top b end;
  is_end c := match c with inl a => is_end a | inr b => is_end b end;
  cursor_minTime c := match c with inl a => cursor_minTime a | inr b => cursor_minTime b end;
  cursor_maxTime c := match c with inl a => cursor_maxTime a | inr b => cursor_maxTime b end;
  cursor_count c := match c with inl a => cursor_count a | inr b => cursor_count b end;
}.

(** The callback that collects what it is given. *)
#[export] Instance collect_callback : IReadCallback (list Meas) := {
  is_canceled _ := false;
  callback m l := l ++ [m];
}.

#[export] Instance sum_spec {A B} `{CursorSpec A, CursorSpec B} : CursorSpec (A + B).
Proof.
  refine {| rep := fun (c : A + B) l => match c with inl a => rep a l | inr b => rep b l end |}.
  - intros [a|b] l; [apply (rep_is_end a)|apply (rep_is_end b)].
  - intros [a|b] m l; [apply (rep_top a)|apply (rep_top b)].
  - intros [a|b] m l Hr; destruct (rep_next _ m l Hr) as (c' & E & Hc');
      cbn; rewrite E; by eexists.
  - intros [a|b] l; [apply (rep_bounds a)|apply (rep_bounds b)].
  - intros [a|b] l; [apply (rep_count a)|apply (rep_count b)].
Defined.

Section Laws.
Context {C : Type} `{CursorSpec C}.

Lemma rep_end c l : rep c l → is_end c = match l with [] => true | _ => false end.
Proof. intros Hc. rewrite (rep_is_end c l Hc). by destruct l. Qed.

(** Reading to the end yields the represented list. *)
Lemma read_to_end_rep fuel c l :
  rep c l → (length l < fuel)%nat → read_to_end fuel c = Ok l.
Proof.
  revert c l. induction fuel as [|fuel IH]; intros c l Hc Hf; [lia|].
  cbn [read_to_end]. rewrite (rep_end c l Hc). destruct l as [|m l]; [done|].
  destruct (rep_next c m l Hc) as (c' & -> & Hc').
  rewrite bind_Ok, (IH c' l) by (done || cbn in Hf; lia). done.
Qed.

Lemma apply_rep {S} `{IReadCallback S} fuel (clbk : S) c l :
  rep c l → (length l < fuel)%nat → (∀ s : S, is_canceled s = false) →
  ∃ c', apply fuel clbk c = Ok (fold_left (fun s m => callback m s) l clbk, c') ∧ rep c' [].
Proof.
  revert clbk c l. induction fuel as [|fuel IH]; intros clbk c l Hc Hf Hcan; [lia|].
  cbn [apply]. rewrite (rep_end c l Hc). destruct l as [|m l]; [by eexists|].
  rewrite Hcan. destruct (rep_next c m l Hc) as (c' & -> & Hc').
  rewrite bind_Ok. apply (IH (callback m clbk) c' l); [done| |done]. cbn in Hf; lia.
Qed.

Lemma apply_query_rep {S} `{IReadCallback S} q fuel (clbk : S) c l :
  rep c l → (length l < fuel)%nat → (∀ s : S, is_canceled s = false) →
  ∃ c', apply_query q fuel clbk c = Ok (fold_left (fun s m => callback m s)
    (filter (fun m => inQueryInterval (qi_ids q) (qi_flag q) (qi_from q) (qi_to q) m = true) l)
    clbk, c') ∧ rep c' [].
Proof.
  revert clbk c l. induction fuel as [|fuel IH]; intros clbk c l Hc Hf Hcan; [lia|].
  cbn [apply_query]. rewrite (rep_end c l Hc). destruct l as [|m l]; [by eexists|].
  rewrite Hcan. destruct (rep_next c m l Hc) as (c' & -> & Hc').
  rewrite bind_Ok, filter_cons. cbn in Hf.
  destruct (decide (inQueryInterval (qi_ids q) (qi_flag q) (qi_from q) (qi_to q) m = true))
    as [E|E].
  - rewrite E. by apply (IH (callback m clbk) c' l); [|lia|].
  - apply not_true_is_false in E. rewrite E. by apply IH; [|lia|].
Qed.

Definition last_or (d : Meas) (l : list Meas) : Meas := default d (last l).

(** The measurement [read_time_point] returns is the last match. *)
Lemma read_time_point_last q fuel c l :
  rep c l → (length l < fuel)%nat →
  ∃ c', read_time_point q fuel c = Ok (last_or Meas_default
    (filter (fun m => (time m <=? qt_time_point q) && inQuery (qt_ids q) (qt_flag q) m = true) l),
    c') ∧ rep c' [].
Proof.
  unfold read_time_point. generalize Meas_default.
  revert c l. induction fuel as [|fuel IH]; intros c l d Hc Hf; [lia|].
  cbn [read_time_point_loop]. rewrite (rep_end c l Hc). destruct l as [|m l]; [by eexists|].
  destruct (rep_next c m l Hc) as (c' & -> & Hc').
  rewrite bind_Ok, filter_cons. cbn in Hf. cbn [negb].
  destruct (decide ((time m <=? qt_time_point q) && inQuery (qt_ids q) (qt_flag q) m = true))
    as [E|E].
  - rewrite E. destruct (IH c' l m Hc' ltac:(lia)) as (c'' & -> & ?). exists c''.
    split; [|done]. do 2 f_equal. unfold last_or. rewrite last_cons. by destruct (last _).
  - apply not_true_is_false in E. rewrite E. by apply IH; [|lia].
Qed.

End Laws.
