(* ===== verification/FullCursor.v ===== *)
(** * The cursor on an array

    [FullCursor] of [storage/cursors.cpp]: the measurements of a vector, the
    later ones of a run with the same time skipped. *)

From Stdlib Require Import ZArith Lia Sorting.Sorted.
From stdpp Require Import base numbers list.
From S2P Require Import Prelude Float64 Meas Stat StdSort ICursor.

Local Open Scope Z_scope.

Module FullCursor.

Record t := mk {
  _ma : list Meas;
  _index : nat;
  _minTime : Z;
  _maxTime : Z;
}.

(** The constructor *)
Definition make (ma : list Meas) : t :=
  mk ma 0
    (fold_left (fun mn v => Z.min mn (time v)) ma MAX_TIME)
    (fold_left (fun mx v => Z.max mx (time v)) ma MIN_TIME).

Definition is_end (c : t) : bool := (length (_ma c) <=? _index c)%nat.

Definition set_index (i : nat) (c : t) : t := mk (_ma c) i (_minTime c) (_maxTime c).

(** The loop that skips duplicates. *)
Fixpoint skip (fuel : nat) (tm : Z) (c : t) : outcome t :=
  match fuel with
  | O => Diverge
  | S fuel =>
    if is_end c then Ok c
    else
      match _ma c !! _index c with
      | None => UB
      | Some next =>
        if negb (time next =? tm) then Ok c else skip fuel tm (set_index (S (_index c)) c)
      end
  end.

Definition readNext (c : t) : outcome (Meas * t) :=
  match _ma c !! _index c with
  | None => UB
  | Some result =>
    c ← skip (S (length (_ma c))) (time result) (set_index (S (_index c)) c);
    Ok (result, c)
  end.

Definition top (c : t) : outcome Meas :=
  if negb (is_end c) then match _ma c !! _index c with None => UB | Some m => Ok m end
  else Throw.

Definition count (c : t) : Z := Z.of_nat (length (_ma c)).

End FullCursor.

#[export] Instance FullCursor_ICursor : ICursor FullCursor.t := {
  readNext := FullCursor.readNext;
  top := FullCursor.top;
  is_end := FullCursor.is_end;
  cursor_minTime := FullCursor._minTime;
  cursor_maxTime := FullCursor._maxTime;
  cursor_count := FullCursor.count;
}.

(** ** Runs of equal times *)

Fixpoint uniq_after (tm : Z) (l : list Meas) : list Meas :=
  match l with
  | [] => []
  | m :: l => if time m =? tm then uniq_after tm l else m :: uniq_after (time m) l
  end.

(** The first measurement of every run. *)
Definition uniq (l : list Meas) : list Meas :=
  match l with
  | [] => []
  | m :: l => m :: uniq_after (time m) l
  end.

Lemma uniq_after_sublist tm l : uniq_after tm l `sublist_of` l.
Proof.
  revert tm. induction l as [|m l IH]; intros tm; cbn; [done|].
  destruct (time m =? tm); [by apply sublist_cons|by apply sublist_skip].
Qed.

Lemma uniq_sublist l : uniq l `sublist_of` l.
Proof. destruct l as [|m l]; cbn; [done|]. apply sublist_skip, uniq_after_sublist. Qed.

(** On a sorted list the runs are the classes of equal times. *)
Lemma uniq_after_strict tm l :
  sorted_by time l → Forall (fun m => tm <= time m) l →
  strictly_by time (uniq_after tm l) ∧
  Forall (fun m => tm < time m) (uniq_after tm l).
Proof.
  intros Hs. revert tm. induction Hs as [|m l Hs IH Hm]; intros tm Ht; cbn; [split; constructor|].
  apply Forall_cons_1 in Ht as [Hm0 Ht]. destruct (Z.eqb_spec (time m) tm) as [<-|Hne].
  - by apply IH.
  - destruct (IH (time m) Hm) as [H1 H2]. split; [by constructor|].
    constructor; [lia|]. eapply Forall_impl; [exact H2|]. cbn. lia.
Qed.

Lemma uniq_strict l :
  sorted_by time l → strictly_by time (uniq l).
Proof.
  intros Hs. destruct Hs as [|m l Hs Hm]; cbn; [constructor|].
  destruct (uniq_after_strict (time m) l Hs Hm). by constructor.
Qed.

(** No time is lost. *)
Lemma uniq_after_times tm l m :
  m ∈ l → time m = tm ∨ ∃ m', m' ∈ uniq_after tm l ∧ time m' = time m.
Proof.
  revert tm. induction l as [|x l IH]; intros tm Hm; [by apply elem_of_nil in Hm|].
  cbn. apply elem_of_cons in Hm as [->|Hm].
  - destruct (Z.eqb_spec (time x) tm); [by left|right]. exists x. split; [left|done].
  - destruct (Z.eqb_spec (time x) tm) as [<-|]; [by apply IH|].
    destruct (IH (time x) Hm) as [E|(m' & ? & ?)]; right.
    + exists x. split; [left|done].
    + exists m'. split; [by right|done].
Qed.

Lemma uniq_times l m : m ∈ l → ∃ m', m' ∈ uniq l ∧ time m' = time m.
Proof.
  destruct l as [|x l]; [by intros ?%elem_of_nil|]. intros Hm. cbn.
  apply elem_of_cons in Hm as [->|Hm]; [exists x; split; [left|done]|].
  destruct (uniq_after_times (time x) l m Hm) as [E|(m' & ? & ?)].
  - exists x. split; [left|done].
  - exists m'. split; [by right|done].
Qed.

(** ** The cursor yields the runs of what is left *)

Definition full_rep (c : FullCursor.t) (l : list Meas) : Prop :=
  l = uniq (drop (FullCursor._index c) (FullCursor._ma c)) ∧
  Forall (fun m => FullCursor._minTime c <= time m <= FullCursor._maxTime c) (FullCursor._ma c).

Lemma full_skip fuel tm c :
  (length (FullCursor._ma c) - FullCursor._index c < fuel)%nat →
  ∃ i, FullCursor.skip fuel tm c = Ok (FullCursor.set_index i c) ∧
    uniq (drop i (FullCursor._ma c)) =
    uniq_after tm (drop (FullCursor._index c) (FullCursor._ma c)).
Proof.
  revert c. induction fuel as [|fuel IH]; intros c Hf; [lia|].
  cbn [FullCursor.skip]. unfold FullCursor.is_end.
  destruct (Nat.leb_spec (length (FullCursor._ma c)) (FullCursor._index c)) as [He|He].
  { exists (FullCursor._index c). split; [by destruct c|]. by rewrite drop_ge. }
  destruct (lookup_lt_is_Some_2 _ _ He) as [m Hm]. rewrite Hm.
  rewrite (drop_S _ _ _ Hm). cbn [uniq_after].
  destruct (Z.eqb_spec (time m) tm) as [E|E]; cbn [negb].
  - destruct (IH (FullCursor.set_index (S (FullCursor._index c)) c)) as (i & -> & Hi);
      [cbn; lia|]. by exists i.
  - exists (FullCursor._index c). split; [by destruct c|].
    by rewrite (drop_S _ _ _ Hm).
Qed.

#[export] Instance FullCursor_spec : CursorSpec FullCursor.t.
Proof.
  refine {| rep := full_rep |}.
  - intros c l [-> _]. cbn [is_end FullCursor_ICursor]. unfold FullCursor.is_end.
    destruct (Nat.leb_spec (length (FullCursor._ma c)) (FullCursor._index c)) as [He|He].
    + by rewrite drop_ge.
    + destruct (lookup_lt_is_Some_2 _ _ He) as [m Hm]. by rewrite (drop_S _ _ _ Hm).
  - intros c m l [Hl _]. cbn [top FullCursor_ICursor]. unfold FullCursor.top, FullCursor.is_end.
    destruct (Nat.leb_spec (length (FullCursor._ma c)) (FullCursor._index c)) as [He|He].
    { by rewrite drop_ge in Hl. }
    destruct (lookup_lt_is_Some_2 _ _ He) as [m' Hm].
    rewrite (drop_S _ _ _ Hm) in Hl. cbn in Hl. injection Hl as -> _. cbn. by rewrite Hm.
  - intros c m l [Hl Hb]. cbn [readNext FullCursor_ICursor]. unfold FullCursor.readNext.
    destruct (FullCursor._ma c !! FullCursor._index c) as [m'|] eqn:Hm.
    2:{ apply lookup_ge_None_1 in Hm. by rewrite drop_ge in Hl. }
    rewrite (drop_S _ _ _ Hm) in Hl. cbn in Hl. injection Hl as -> ->.
    destruct (full_skip (S (length (FullCursor._ma c))) (time m')
      (FullCursor.set_index (S (FullCursor._index c)) c)) as (i & -> & Hi); [cbn; lia|].
    rewrite bind_Ok. eexists. split; [done|]. by split.
  - intros c l [-> Hb]. eapply Forall_sublist_of; [|exact Hb]. clear.
    etrans; [apply uniq_sublist|]. apply sublist_drop.
  - intros c l [-> _]. cbn [cursor_count FullCursor_ICursor]. unfold FullCursor.count.
    pose proof (sublist_length _ _ (uniq_sublist
      (drop (FullCursor._index c) (FullCursor._ma c)))) as Hl.
    rewrite length_drop in Hl. lia.
Defined.

(** The constructor's bounds are the extreme times of the array. *)
Lemma full_make_bounds ma :
  FullCursor._minTime (FullCursor.make ma) = time_min ma MAX_TIME ∧
  FullCursor._maxTime (FullCursor.make ma) = time_max ma MIN_TIME.
Proof.
  cbn. generalize MAX_TIME MIN_TIME. induction ma as [|m ma IH]; intros a b; cbn; [done|].
  destruct (IH (Z.min a (time m)) (Z.max b (time m))) as [-> ->].
  rewrite (Z.min_comm a), (Z.max_comm b). by rewrite time_min_shift, time_max_shift.
Qed.

Lemma full_make_rep ma : rep (FullCursor.make ma) (uniq ma).
Proof.
  destruct (full_make_bounds ma) as [E1 E2].
  split; [done|]. rewrite E1, E2. cbn [FullCursor._ma FullCursor.make].
  destruct (time_min_spec ma MAX_TIME) as (_ & H1 & _).
  destruct (time_max_spec ma MIN_TIME) as (_ & H2 & _).
  rewrite Forall_forall in *. intros m Hm. split; [by apply H1|by apply H2].
Qed.
