(* ===== verification/Chunk.v ===== *)
(** * Chunks

    [storage/chunk.h] and [storage/chunk.cpp]: a header and a region of bytes
    that hold compressed measurements of one series, appending to it, reading
    it back, cutting off its unused bytes and its statistic over an interval.

    The checksum is [boost::crc_32_type], a parameter.  The region of a chunk
    is the memory its writer's buffer addresses. *)

From Stdlib Require Import ZArith Lia Sorting.Sorted.
From stdpp Require Import base numbers list.
From S2P Require Import Prelude ByteBuffer Float64 Meas Bloom Stat.
From S2P Require Import Delta Xor Flag Compression StdSort ICursor FullCursor.

Local Open Scope Z_scope.

(** The fields of [MeasData] the code uses. *)
Record MeasData := mkMeasData { d_time : Z; d_value : Z; d_flag : Z }.

Module ChunkHeader.

Record t := mk {
  id : Z;
  meas_id : Z;
  data_first : MeasData;
  data_last : MeasData;
  bw_pos : Z;
  size : Z;
  crc : Z;
  offset_in_page : Z;
  stat : Statistic;
  is_sorted : Z;
}.

(** A header as [new ChunkHeader] or a zeroed array leaves it. *)
Definition zero : t :=
  mk 0 0 (mkMeasData 0 0 0) (mkMeasData 0 0 0) 0 0 0 0 Statistic_empty 0.

Definition first (h : t) : Meas :=
  mkMeas (meas_id h) (d_time (data_first h)) (d_value (data_first h)) (d_flag (data_first h)).
Definition last (h : t) : Meas :=
  mkMeas (meas_id h) (d_time (data_last h)) (d_value (data_last h)) (d_flag (data_last h)).

Definition data_of (m : Meas) : MeasData := mkMeasData (time m) (value m) (flag m).

Definition set_first (m : Meas) (h : t) : t :=
  mk (id h) (Meas.id m) (data_of m) (data_last h) (bw_pos h) (size h) (crc h)
     (offset_in_page h) (stat h) (is_sorted h).
Definition set_last (m : Meas) (h : t) : t :=
  mk (id h) (meas_id h) (data_first h) (data_of m) (bw_pos h) (size h) (crc h)
     (offset_in_page h) (stat h) (is_sorted h).

Definition set_id (x : Z) (h : t) : t :=
  mk x (meas_id h) (data_first h) (data_last h) (bw_pos h) (size h) (crc h)
     (offset_in_page h) (stat h) (is_sorted h).
Definition set_bw_pos (x : Z) (h : t) : t :=
  mk (id h) (meas_id h) (data_first h) (data_last h) x (size h) (crc h)
     (offset_in_page h) (stat h) (is_sorted h).
Definition set_size (x : Z) (h : t) : t :=
  mk (id h) (meas_id h) (data_first h) (data_last h) (bw_pos h) x (crc h)
     (offset_in_page h) (stat h) (is_sorted h).
Definition set_crc (x : Z) (h : t) : t :=
  mk (id h) (meas_id h) (data_first h) (data_last h) (bw_pos h) (size h) x
     (offset_in_page h) (stat h) (is_sorted h).
Definition set_offset_in_page (x : Z) (h : t) : t :=
  mk (id h) (meas_id h) (data_first h) (data_last h) (bw_pos h) (size h) (crc h)
     x (stat h) (is_sorted h).
Definition set_stat (x : Statistic) (h : t) : t :=
  mk (id h) (meas_id h) (data_first h) (data_last h) (bw_pos h) (size h) (crc h)
     (offset_in_page h) x (is_sorted h).
Definition set_is_sorted (x : Z) (h : t) : t :=
  mk (id h) (meas_id h) (data_first h) (data_last h) (bw_pos h) (size h) (crc h)
     (offset_in_page h) (stat h) x.

End ChunkHeader.

(** ** The reader of a chunk *)

Module ChunkReader.

Record t := mk {
  _values_count : Z;
  _top_value_exists : bool;
  _top_value : Meas;
  _count : Z;
  _chunk : ChunkHeader.t;
  _bw : ByteBuffer;
  _compressed_rdr : CopmressedReader.t;
}.

Definition make (count : Z) (c : ChunkHeader.t) (bptr : ByteBuffer)
    (compressed_rdr : CopmressedReader.t) : t :=
  mk (u64 (count + 1)) true (ChunkHeader.first c) count c bptr compressed_rdr.

(** The loop runs [_count] times at most. *)
Fixpoint skip_loop (n : nat) (tm : Z) (r : t) : outcome t :=
  match n with
  | O => Ok r
  | S n =>
    '(m, rdr, bw) ← CopmressedReader.read (_compressed_rdr r) (_bw r);
    let r := mk (_values_count r) true m (_count r - 1) (_chunk r) bw rdr in
    if negb (time m =? tm) then Ok r else skip_loop n tm r
  end.

Definition skipDuplicates (tm : Z) (r : t) : outcome t :=
  skip_loop (Z.to_nat (_count r)) tm r.

Definition readNext (r : t) : outcome (Meas * t) :=
  if _count r =? 0 then
    Ok (_top_value r,
        mk (_values_count r) false (_top_value r) (_count r) (_chunk r) (_bw r)
           (_compressed_rdr r))
  else
    let result := _top_value r in
    r ← skipDuplicates (time result) r;
    Ok (result, r).

Definition is_end (r : t) : bool := (_count r =? 0) && negb (_top_value_exists r).

Definition top (r : t) : outcome Meas :=
  if negb (_top_value_exists r) then Throw else Ok (_top_value r).

Definition minTime (r : t) : Z := Stat.minTime (ChunkHeader.stat (_chunk r)).
Definition maxTime (r : t) : Z := Stat.maxTime (ChunkHeader.stat (_chunk r)).

End ChunkReader.

#[export] Instance ChunkReader_ICursor : ICursor ChunkReader.t := {
  readNext := ChunkReader.readNext;
  top := ChunkReader.top;
  is_end := ChunkReader.is_end;
  cursor_minTime := ChunkReader.minTime;
  cursor_maxTime := ChunkReader.maxTime;
  cursor_count := ChunkReader._values_count;
}.

(** ** The chunk *)

Module Chunk.

Record t := mk {
  header : ChunkHeader.t;
  c_writer : CopmressedWriter.t;
}.

Definition bw (c : t) : ByteBuffer := CopmressedWriter._bb (c_writer c).

Definition set_header (h : ChunkHeader.t) (c : t) : t := mk h (c_writer c).

(** [Chunk::create]: the region is filled with zeros. *)
Definition create (hdr : ChunkHeader.t) (size : nat) (first_m : Meas) : outcome t :=
  let bb := make_buffer (replicate size 0) in
  let header := ChunkHeader.set_size (Z.of_nat size) hdr in
  let header := ChunkHeader.set_first first_m header in
  let header := ChunkHeader.set_last first_m header in
  let header := ChunkHeader.set_stat Statistic_empty header in
  let header := ChunkHeader.set_stat (update first_m (ChunkHeader.stat header)) header in
  let header := ChunkHeader.set_is_sorted 1 header in
  let bb := reset_pos bb in
  let header := ChunkHeader.set_bw_pos (u32 (_pos bb)) header in
  '(_, w) ← CopmressedWriter.append (ChunkHeader.first header) (CopmressedWriter.init bb);
  Ok (mk header w).

(** [Chunk::open]: a writer on the first [hdr->size] bytes of the buffer. *)
Definition open (hdr : ChunkHeader.t) (buffer : list Z) : t :=
  let bb := make_buffer (take (Z.to_nat (ChunkHeader.size hdr)) buffer) in
  mk hdr (CopmressedWriter.init (set_pos (ChunkHeader.bw_pos hdr) bb)).

Definition isFull (c : t) : bool := CopmressedWriter.isFull (c_writer c).

Definition append (m : Meas) (c : t) : outcome (bool * t) :=
  '(t_f, w) ← CopmressedWriter.append m (c_writer c);
  if negb t_f then Ok (false, mk (header c) w)
  else
    let h := header c in
    let h := if time m <? d_time (ChunkHeader.data_last h)
             then ChunkHeader.set_is_sorted 0 h else h in
    let h := ChunkHeader.set_bw_pos (u32 (_pos (CopmressedWriter._bb w))) h in
    let h := ChunkHeader.set_stat (update m (ChunkHeader.stat h)) h in
    let h := ChunkHeader.set_last m h in
    Ok (true, mk h w).

Definition checkId (i : Z) (c : t) : bool :=
  if negb (ChunkHeader.meas_id (header c) =? i) then false else true.

Definition checkFlag (f : Z) (c : t) : bool :=
  if negb (f =? 0) then
    if negb (bloom_check (flag_bloom (ChunkHeader.stat (header c))) f) then false else true
  else true.

(** The loop that copies the measurements of an unsorted chunk to [ma]. *)
Fixpoint copy_loop (fuel : nat) (pos : nat) (ma : list Meas) (r : ChunkReader.t)
  : outcome (list Meas) :=
  match fuel with
  | O => Diverge
  | S fuel =>
    if ChunkReader.is_end r then Ok ma
    else
      '(v, r) ← ChunkReader.readNext r;
      if (pos <? length ma)%nat then copy_loop fuel (S pos) (<[pos := v]> ma) r else UB
  end.

Definition cursor : Type := ChunkReader.t + FullCursor.t.

Definition getReader `{StdSort} (c : t) : outcome cursor :=
  let b_ptr := make_buffer (get_range (bw c)) in
  let h := header c in
  let raw_res := ChunkReader.make (u32 (count (ChunkHeader.stat h) - 1)) h b_ptr
                   (CopmressedReader.init (ChunkHeader.first h)) in
  if ChunkHeader.is_sorted h =? 0 then
    let n := Z.to_nat (count (ChunkHeader.stat h)) in
    ma ← copy_loop (S (S n)) 0 (replicate n Meas_default) raw_res;
    Ok (inr (FullCursor.make (std_sort time ma)))
  else Ok (inl raw_res).

(** The loop of [Chunk::stat]. *)
Fixpoint stat_loop {C} `{ICursor C} (from to : Z) (fuel : nat) (result : Statistic) (rdr : C)
  : outcome Statistic :=
  match fuel with
  | O => Diverge
  | S fuel =>
    if is_end rdr then Ok result
    else
      '(m, rdr) ← readNext rdr;
      let result := if inInterval from to (time m) then update m result else result in
      stat_loop from to fuel result rdr
  end.

Definition stat `{StdSort} (from to : Z) (c : t) : outcome Statistic :=
  let st := ChunkHeader.stat (header c) in
  if inInterval from to (minTime st) && inInterval from to (maxTime st) then Ok st
  else
    rdr ← getReader c;
    stat_loop from to (S (S (Z.to_nat (count st)))) Statistic_empty rdr.

(** [Chunk::compact]: the new header and the number of bytes to skip. *)
Definition compact (h : ChunkHeader.t) : Z * ChunkHeader.t :=
  if ChunkHeader.bw_pos h =? 0 then (0, h)
  else
    let cur_chunk_buf_size := u32 (ChunkHeader.size h - ChunkHeader.bw_pos h + 1) in
    let skip_count := u32 (ChunkHeader.size h - cur_chunk_buf_size) in
    (skip_count, ChunkHeader.set_bw_pos 0 (ChunkHeader.set_size cur_chunk_buf_size h)).

Section Checksum.
Variable crc32 : list Z → Z.

Definition calcChecksum (h : ChunkHeader.t) (buff : list Z) : Z :=
  crc32 (take (Z.to_nat (ChunkHeader.size h)) buff).

Definition updateChecksum (h : ChunkHeader.t) (buff : list Z) : ChunkHeader.t :=
  ChunkHeader.set_crc (calcChecksum h buff) h.

Definition checkChecksum (c : t) : bool :=
  ChunkHeader.crc (header c) =? calcChecksum (header c) (get_range (bw c)).

End Checksum.

End Chunk.

#[export] Instance Chunk_cursor_ICursor : ICursor Chunk.cursor := sum_ICursor.

(** ** What the reader yields *)

(** What follows [x] when [rest] is still packed: the first measurement of each
    run, and the last measurement once more when it belongs to a run. *)
Fixpoint chunk_emit (x : Meas) (rest : list Meas) : list Meas :=
  match rest with
  | [] => []
  | y :: rest' =>
    if time y =? time x then
      match rest' with [] => [y] | _ => chunk_emit x rest' end
    else y :: chunk_emit y rest'
  end.

(** No two neighbours have the same time. *)
Fixpoint no_runs (x : Meas) (rest : list Meas) : bool :=
  match rest with
  | [] => true
  | y :: rest => negb (time y =? time x) && no_runs y rest
  end.

Lemma chunk_emit_sublist x rest : chunk_emit x rest `sublist_of` rest.
Proof.
  revert x. induction rest as [|y rest IH]; intros x; cbn; [done|].
  destruct (time y =? time x).
  - destruct rest as [|z rest]; [done|]. apply sublist_cons, (IH x).
  - apply sublist_skip, IH.
Qed.

Lemma chunk_emit_no_runs x rest : no_runs x rest = true → chunk_emit x rest = rest.
Proof.
  revert x. induction rest as [|y rest IH]; intros x; cbn; [done|].
  intros [H1 H2]%andb_true_iff. apply negb_true_iff in H1. rewrite H1. by rewrite IH.
Qed.

(** The reader yields the first of every run, plus at most one duplicate. *)
Lemma chunk_emit_uniq x rest :
  chunk_emit x rest = uniq_after (time x) rest ∨
  ∃ y, last (x :: rest) = Some y ∧ chunk_emit x rest = uniq_after (time x) rest ++ [y] ∧
    ∃ z, last (x :: uniq_after (time x) rest) = Some z ∧ time z = time y.
Proof.
  revert x. induction rest as [|y rest IH]; intros x; cbn [chunk_emit uniq_after]; [by left|].
  destruct (Z.eqb_spec (time y) (time x)) as [E|E].
  - destruct rest as [|z rest].
    + right. exists y. split; [done|]. split; [done|]. by exists x.
    + destruct (IH x) as [->|(w & Hw & -> & Hz)]; [by left|right].
      exists w. split; [|done]. rewrite !last_cons in *. by destruct (last rest).
  - destruct (IH y) as [->|(w & Hw & -> & Hz)]; [by left|right].
    exists w. split; [by rewrite last_cons, Hw|]. split; [done|].
    destruct Hz as (z & Hz & Hzt). exists z. rewrite last_cons, Hz. done.
Qed.

(** The decompressors still have [L] to give. *)
Fixpoint yields (L : list Meas) (r : CopmressedReader.t) (bw : ByteBuffer) : Prop :=
  match L with
  | [] => True
  | m :: L => ∃ r' bw', CopmressedReader.read r bw = Ok (m, r', bw') ∧ yields L r' bw'
  end.

Lemma read_all_yields n r bw L r' bw' :
  read_all n r bw = Ok (L, r', bw') → length L = n ∧ yields L r bw.
Proof.
  revert r bw L r' bw'. induction n as [|n IH]; intros r bw L r' bw' E; cbn in E.
  - by injection E as <- <- <-.
  - destruct (CopmressedReader.read r bw) as [[[m r1] bw1]| | |] eqn:E1; cbn in E; try done.
    destruct (read_all n r1 bw1) as [[[L1 r2] bw2]| | |] eqn:E2; cbn in E; try done.
    injection E as <- <- <-. destruct (IH _ _ _ _ _ E2) as [<- Hy].
    split; [done|]. by exists r1, bw1.
Qed.

Definition reader_rep (r : ChunkReader.t) (l : list Meas) : Prop :=
  (ChunkReader._count r = 0 ∧ ChunkReader._top_value_exists r = false ∧ l = [] ∧
     0 <= ChunkReader._values_count r) ∨
  ∃ L, ChunkReader._top_value_exists r = true ∧
    ChunkReader._count r = Z.of_nat (length L) ∧
    yields L (ChunkReader._compressed_rdr r) (ChunkReader._bw r) ∧
    l = ChunkReader._top_value r :: chunk_emit (ChunkReader._top_value r) L ∧
    Forall (fun m => ChunkReader.minTime r <= time m <= ChunkReader.maxTime r)
      (ChunkReader._top_value r :: L) ∧
    Z.of_nat (length L) + 1 <= ChunkReader._values_count r.

(** After the loop over [y :: L], the next of the emitted sequence is on top. *)
Lemma skip_loop_emit x L r l :
  yields L (ChunkReader._compressed_rdr r) (ChunkReader._bw r) →
  ChunkReader._count r = Z.of_nat (length L) → L ≠ [] → chunk_emit x L = l →
  Forall (fun m => ChunkReader.minTime r <= time m <= ChunkReader.maxTime r) L →
  Z.of_nat (length L) <= ChunkReader._values_count r →
  ∃ r', ChunkReader.skip_loop (length L) (time x) r = Ok r' ∧ reader_rep r' l.
Proof.
  revert r. induction L as [|y L IH]; intros r Hy Hc Hne Hl Hb Hv; [done|].
  destruct Hy as (r1 & bw1 & E & Hy). cbn [ChunkReader.skip_loop length]. rewrite E, bind_Ok.
  cbn [chunk_emit length] in *. apply Forall_cons_1 in Hb as [Hb1 Hb].
  set (r0 := ChunkReader.mk _ _ _ _ _ _ _). destruct (Z.eqb_spec (time y) (time x)) as [Et|Et].
  - cbn [negb]. destruct L as [|z L].
    + exists r0. split; [done|]. right. exists []. cbn in *. repeat split; try done; try lia.
      constructor; [done|constructor].
    + apply (IH r0); cbn in *; try done; lia.
  - cbn [negb]. exists r0. split; [done|]. right. exists L. cbn in *. repeat split; try done; try lia.
    by constructor.
Qed.

#[export] Instance ChunkReader_spec : CursorSpec ChunkReader.t.
Proof.
  refine {| rep := reader_rep |}.
  - intros r l [(H1 & H2 & -> & _)|(L & H1 & H2 & _ & -> & _)]; cbn;
      unfold ChunkReader.is_end; rewrite H1, ?H2; [done|]. by rewrite andb_false_r.
  - intros r m l [(_ & _ & ? & _)|(L & H1 & _ & _ & E & _)]; [done|]. injection E as -> ->.
    cbn. unfold ChunkReader.top. by rewrite H1.
  - intros r m l [(_ & _ & ? & _)|(L & H1 & Hc & Hy & E & Hb & Hv)]; [done|].
    injection E as -> ->. cbn [readNext ChunkReader_ICursor]. unfold ChunkReader.readNext.
    destruct (Z.eqb_spec (ChunkReader._count r) 0) as [E0|E0].
    + assert (L = []) as -> by (destruct L; cbn in *; [done|lia]).
      eexists. split; [done|]. left. cbn. split; [done|]. split; [done|]. split; [done|lia].
    + unfold ChunkReader.skipDuplicates. rewrite Hc, Nat2Z.id.
      apply Forall_cons_1 in Hb as [_ Hb].
      destruct (skip_loop_emit (ChunkReader._top_value r) L r
        (chunk_emit (ChunkReader._top_value r) L) Hy Hc) as (r' & -> & Hr);
        [by destruct L|done|done|lia|]. by exists r'.
  - intros r l [(_ & _ & -> & _)|(L & _ & _ & _ & -> & Hb & _)]; [constructor|].
    eapply Forall_sublist_of; [|exact Hb]. apply sublist_skip, chunk_emit_sublist.
  - intros r l [(_ & _ & -> & Hv)|(L & _ & _ & _ & -> & _ & Hv)]; [done|]. cbn [length] in *.
    pose proof (sublist_length _ _ (chunk_emit_sublist (ChunkReader._top_value r) L)).
    cbn. lia.
Defined.

#[export] Instance Chunk_cursor_spec : CursorSpec Chunk.cursor := sum_spec.

(** ** What a chunk holds *)

(** The region's bytes, from the top, start with the encoding of [l]. *)
Definition region_holds (data : list Z) (m0 : Meas) (l : list Meas) : Prop :=
  (0 < length data)%nat ∧ Z.of_nat (length data) < 2 ^ 32 ∧
  ∃ s, stream (make_buffer data) = written_bytes m0 l ++ s.

(** The header describes the sequence [m0 :: l]. *)
Record header_holds (h : ChunkHeader.t) (m0 : Meas) (l : list Meas) : Prop := {
  hh_first : ChunkHeader.first h = m0;
  hh_last : Some (ChunkHeader.data_last h) = ChunkHeader.data_of <$> last (m0 :: l);
  hh_stat : ChunkHeader.stat h = stat_of (m0 :: l);
  hh_sorted : (ChunkHeader.is_sorted h = 1 ∧ sorted_by time (m0 :: l)) ∨
              (ChunkHeader.is_sorted h = 0 ∧ ¬ sorted_by time (m0 :: l));
}.

(** The measurements are those of one series and their encoding exists. *)
Definition seq_wf (m0 : Meas) (l : list Meas) : Prop :=
  Forall meas_wf (m0 :: l) ∧ Forall (fun m => Meas.id m = Meas.id m0) l ∧
  values_fit (value m0) l = true ∧ Z.of_nat (length l) + 1 < 2 ^ 32.

Definition holds (c : Chunk.t) (m0 : Meas) (l : list Meas) : Prop :=
  header_holds (Chunk.header c) m0 l ∧
  region_holds (get_range (Chunk.bw c)) m0 l ∧ seq_wf m0 l.

(** A chunk that can be appended to: nothing below the last measurement. *)
Definition open_chunk (size : nat) (c : Chunk.t) (m0 : Meas) (l : list Meas) : Prop :=
  (0 < size)%nat ∧ Z.of_nat size < 2 ^ 32 ∧
  header_holds (Chunk.header c) m0 l ∧ seq_wf m0 l ∧
  Z.of_nat (length (written_bytes m0 l)) <= Z.of_nat size - 1 ∧
  Chunk.bw c = push (written_bytes m0 l) (make_buffer (replicate size 0)) ∧
  ChunkHeader.size (Chunk.header c) = Z.of_nat size ∧
  ChunkHeader.bw_pos (Chunk.header c) = Z.of_nat size - 1 - Z.of_nat (length (written_bytes m0 l)) ∧
  started (Chunk.c_writer c) (dc_after (dc_first m0) l) (pv_after (value m0) l).

Lemma make_buffer_reset d : reset_pos (make_buffer d) = make_buffer d.
Proof. done. Qed.

Lemma chunk_create hdr size m0 :
  (0 < size)%nat → Z.of_nat size < 2 ^ 32 → meas_wf m0 →
  ∃ c, Chunk.create hdr size m0 = Ok c ∧ open_chunk size c m0 [].
Proof.
  intros H0 H1 Hm.
  assert (H0' : (0 < length (replicate size 0%Z))%nat) by (by rewrite length_replicate).
  assert (H1' : Z.of_nat (length (replicate size 0)) < 2 ^ 32) by (by rewrite length_replicate).
  destruct (make_buffer_wf _ H0' H1') as [Hwf Hpos]. rewrite length_replicate in Hpos.
  unfold Chunk.create. cbn zeta. rewrite make_buffer_reset.
  set (hd := ChunkHeader.set_bw_pos _ _).
  assert (Hf : ChunkHeader.first hd = m0) by (by destruct m0). rewrite Hf.
  destruct (writer_append_first m0 (make_buffer (replicate size 0)))
    as (w & -> & Hb & _ & _ & Hst).
  rewrite bind_Ok. eexists. split; [done|]. unfold open_chunk.
  cbn [Chunk.header Chunk.bw Chunk.c_writer].
  change (written_bytes m0 []) with (@nil Z). cbn [length]. rewrite push_nil by done.
  split; [done|]. split; [done|]. split.
  { split; [done|done|done|]. left. split; [done|]. repeat constructor. }
  split. { split; [by constructor|]. split; [constructor|]. split; [done|]. cbn. lia. }
  split; [lia|]. split; [done|]. split; [done|]. split; [|done].
  cbn [hd ChunkHeader.bw_pos ChunkHeader.set_bw_pos]. rewrite wrap_small by lia. lia.
Qed.

(** The header after an accepted measurement, [pos] being the new position. *)
Definition appended_header (m : Meas) (pos : Z) (h : ChunkHeader.t) : ChunkHeader.t :=
  let h := if time m <? d_time (ChunkHeader.data_last h)
           then ChunkHeader.set_is_sorted 0 h else h in
  let h := ChunkHeader.set_bw_pos pos h in
  let h := ChunkHeader.set_stat (update m (ChunkHeader.stat h)) h in
  ChunkHeader.set_last m h.

Lemma header_holds_append h m0 l m pos :
  header_holds h m0 l → header_holds (appended_header m pos h) m0 (l ++ [m]).
Proof.
  intros [Hfst Hlst Hst Hso]. unfold appended_header.
  split; change (m0 :: l ++ [m]) with ((m0 :: l) ++ [m]).
  - cbn. by destruct (_ <? _).
  - by rewrite last_snoc.
  - rewrite stat_of_snoc, <- Hst. cbn. by destruct (_ <? _).
  - destruct (last (m0 :: l)) as [y|] eqn:Hy; [|done].
    injection Hlst as Hlst. rewrite Hlst. cbn [ChunkHeader.data_of d_time].
    rewrite (sorted_by_snoc time (m0 :: l) m y Hy).
    destruct (Z.ltb_spec (time m) (time y)); cbn; [right|].
    + split; [done|]. intros [_ ?]. lia.
    + destruct Hso as [[? ?]|[? ?]]; [left|right]; (split; [done|]); [done|]. by intros [? _].
Qed.

Lemma seq_wf_snoc m0 l m :
  seq_wf m0 l → meas_wf m → Meas.id m = Meas.id m0 → Z.of_nat (length l) + 2 < 2 ^ 32 →
  fits_u64 (Z.lxor (pv_after (value m0) l) (value m)) = true → seq_wf m0 (l ++ [m]).
Proof.
  intros (H1 & H2 & H3 & H4) Hm Hi Hn Hf. split; [|split; [|split]].
  - rewrite app_comm_cons. apply Forall_app. split; [done|]. by constructor.
  - apply Forall_app. split; [done|]. by constructor.
  - by rewrite values_fit_snoc, H3, Hf.
  - rewrite length_app. cbn. lia.
Qed.

Lemma seq_wf_pv m0 l : seq_wf m0 l → is_value (pv_after (value m0) l).
Proof.
  intros ([Hm0 Hl]%Forall_cons_1 & _). apply pv_after_value; [apply Hm0|done].
Qed.

Lemma open_chunk_wf size c m0 l :
  open_chunk size c m0 l →
  bb_wf (Chunk.bw c) ∧ bb_wf (make_buffer (replicate size 0)) ∧
  _pos (make_buffer (replicate size 0)) = Z.of_nat size - 1.
Proof.
  intros (H0 & H1 & _ & _ & Hlen & Hbw & _).
  destruct (make_buffer_wf (replicate size 0)) as [Hwf0 Hp0];
    rewrite ?length_replicate in *; try done.
  split; [|done]. rewrite Hbw. apply push_wf; [done|lia].
Qed.

(** A measurement the writer accepts extends what the chunk holds. *)
Lemma chunk_append_true size c m0 l m c' :
  open_chunk size c m0 l → meas_wf m → Meas.id m = Meas.id m0 →
  Z.of_nat (length l) + 2 < 2 ^ 32 →
  Chunk.append m c = Ok (true, c') → open_chunk size c' m0 (l ++ [m]).
Proof.
  intros Hc Hm Hmid Hn2 Happ. destruct (open_chunk_wf _ _ _ _ Hc) as (Hwfb & Hwf0 & Hp0).
  destruct Hc as (H0 & H1 & Hh & Hs & Hlen & Hbw & Hsz & Hpos & Hw).
  pose proof (seq_wf_pv _ _ Hs) as Hpv. unfold Chunk.append in Happ.
  destruct (CopmressedWriter.append m (Chunk.c_writer c)) as [[[] w']| | |] eqn:E;
    cbn in Happ; try done. injection Happ as <-.
  destruct (writer_append_true m _ w' _ _ Hwfb Hm Hpv Hw E) as [Hf1 Hroom].
  destruct (writer_append_fits m _ _ _ Hwfb Hm Hpv Hw Hf1 Hroom) as (w1 & E1 & Hb1 & _ & _ & Hw1).
  rewrite E1 in E. injection E as <-.
  fold (Chunk.bw c) in Hb1, Hroom. rewrite Hbw, push_pos, Hp0 in Hroom.
  rewrite Hbw in Hb1. rewrite <- push_app in Hb1 by (done || lia).
  unfold written_bytes in *. rewrite <- all_encoded_snoc in Hb1.
  assert (Hlen2 : Z.of_nat (length (all_encoded (dc_first m0) (value m0) (l ++ [m])))
    <= Z.of_nat size - 1) by (rewrite all_encoded_snoc, length_app; lia).
  split; [done|]. split; [done|]. split; [by apply header_holds_append|].
  split; [by apply seq_wf_snoc|]. split; [done|]. split; [done|].
  split; [by cbn; destruct (_ <? _)|]. split.
  - cbn. rewrite Hb1, push_pos, Hp0. rewrite wrap_small by lia. done.
  - rewrite dc_after_snoc, pv_after_snoc. done.
Qed.

(** A chunk that is only read from now on: the header says where the last
    measurement ends. *)
Record sealed (size : nat) (c : Chunk.t) (m0 : Meas) (l : list Meas) : Prop := {
  se_holds : holds c m0 l;
  se_length : length (get_range (Chunk.bw c)) = size;
  se_bound : (0 < size)%nat ∧ Z.of_nat size < 2 ^ 32;
  se_room : Z.of_nat (length (written_bytes m0 l)) <= Z.of_nat size - 1;
  se_size : ChunkHeader.size (Chunk.header c) = Z.of_nat size;
  se_pos : ChunkHeader.bw_pos (Chunk.header c) =
           Z.of_nat size - 1 - Z.of_nat (length (written_bytes m0 l));
}.

(** A refused measurement leaves what the chunk holds, and its header. *)
Lemma chunk_append_false size c m0 l m c' :
  open_chunk size c m0 l → meas_wf m →
  Chunk.append m c = Ok (false, c') →
  sealed size c' m0 l ∧ Chunk.header c' = Chunk.header c ∧ Chunk.isFull c' = true.
Proof.
  intros Hc Hm Happ. destruct (open_chunk_wf _ _ _ _ Hc) as (Hwfb & Hwf0 & Hp0).
  destruct Hc as (H0 & H1 & Hh & Hs & Hlen & Hbw & Hsz & Hpos & Hw).
  unfold Chunk.append in Happ.
  destruct (writer_append_cases m _ _ _ Hwfb Hm (seq_wf_pv _ _ Hs) Hw)
    as [[E _]|([] & w' & bs & E & Hb & L & B)]; rewrite E in Happ; cbn in Happ; try done.
  injection Happ as <-. split; [|done].
  assert (HL : length (get_range (Chunk.bw (Chunk.mk (Chunk.header c) w'))) = size ∧
    ∃ s, stream (make_buffer (get_range (Chunk.bw (Chunk.mk (Chunk.header c) w')))) =
         written_bytes m0 l ++ s).
  { unfold Chunk.bw. cbn [Chunk.c_writer]. fold (Chunk.bw c) in Hb, L.
    rewrite Hb, Hbw. rewrite Hbw, push_pos, Hp0 in L.
    rewrite <- push_app by (done || lia). unfold get_range. split.
    - rewrite push_length by (rewrite ?length_app; done || lia).
      cbn [make_buffer reset_pos set_pos _data]. by rewrite length_replicate.
    - apply written_stream; rewrite ?length_replicate, ?length_app; lia. }
  destruct HL as [HL Hst]. split; try done. split; [done|]. split; [|done].
  unfold region_holds. by rewrite HL.
Qed.

Lemma open_chunk_sealed size c m0 l : open_chunk size c m0 l → sealed size c m0 l.
Proof.
  intros Hc. destruct (open_chunk_wf _ _ _ _ Hc) as (Hwfb & Hwf0 & Hp0).
  destruct Hc as (H0 & H1 & Hh & Hs & Hlen & Hbw & Hsz & Hpos & Hw).
  assert (HL : length (get_range (push (written_bytes m0 l) (make_buffer (replicate size 0))))
    = size).
  { unfold get_range. rewrite push_length by (done || lia).
    cbn [make_buffer reset_pos set_pos _data]. by rewrite length_replicate. }
  split; [|by rewrite Hbw|done..]. split; [done|]. split; [|done]. rewrite Hbw.
  split; [lia|]. split; [lia|].
  destruct (written_stream (replicate size 0) (written_bytes m0 l) []) as [s Hstr];
    rewrite ?length_replicate, ?app_nil_r in *; try lia. by exists s.
Qed.

Lemma open_chunk_holds size c m0 l : open_chunk size c m0 l → holds c m0 l.
Proof. intros Hc. by apply (se_holds size), open_chunk_sealed. Qed.

(** ** Reading a chunk *)

Definition chunk_list (m0 : Meas) (l : list Meas) : list Meas := m0 :: chunk_emit m0 l.

Lemma stat_of_bounds l :
  Forall meas_wf l →
  Forall (fun m => minTime (stat_of l) <= time m <= maxTime (stat_of l)) l.
Proof.
  intros _. destruct (update_all_fields l Statistic_empty) as (E1 & E2 & _).
  unfold stat_of. rewrite E1, E2.
  destruct (time_min_spec l (minTime Statistic_empty)) as (_ & H1 & _).
  destruct (time_max_spec l (maxTime Statistic_empty)) as (_ & H2 & _).
  rewrite Forall_forall in *. intros m Hm. split; [by apply H1|by apply H2].
Qed.

Lemma stat_of_count l :
  Z.of_nat (length l) < 2 ^ 32 → count (stat_of l) = Z.of_nat (length l).
Proof.
  intros Hl. induction l as [|m l IH] using rev_ind; [done|].
  rewrite stat_of_snoc. cbn [update count]. rewrite length_app in *. cbn [length] in *.
  rewrite IH by lia. rewrite wrap_small by lia. lia.
Qed.

(** The reader [getReader] builds from the header and the region. *)
Definition chunk_reader (h : ChunkHeader.t) (data : list Z) : ChunkReader.t :=
  ChunkReader.make (u32 (count (ChunkHeader.stat h) - 1)) h (make_buffer data)
    (CopmressedReader.init (ChunkHeader.first h)).

(** It yields the chunk's measurements when none of the changes is misread. *)
Lemma chunk_reader_rep h data m0 l :
  header_holds h m0 l → region_holds data m0 l → seq_wf m0 l →
  times_kept (dc_first m0) l = true →
  rep (chunk_reader h data) (chunk_list m0 l).
Proof.
  intros [Hf _ Hst _] (H0 & H1 & s & Hs) (Hwf & Hid & Hfit & Hn) Hk.
  pose proof Hwf as [Hm0 Hwfl]%Forall_cons_1.
  destruct (read_back m0 l data s H0 H1 Hs Hm0 Hwfl Hfit) as (r' & bw' & E).
  rewrite all_decoded_kept in E by done. apply read_all_yields in E as [_ Hy].
  right. exists l. unfold chunk_reader, ChunkReader.make.
  cbn [ChunkReader._top_value_exists ChunkReader._count ChunkReader._compressed_rdr
       ChunkReader._bw ChunkReader._top_value ChunkReader._values_count].
  rewrite Hf, Hst, stat_of_count by (cbn [length]; lia). cbn [length].
  rewrite wrap_small by lia.
  split; [done|]. split; [lia|]. split; [done|]. split; [done|]. split; [|rewrite wrap_small; lia].
  unfold ChunkReader.minTime, ChunkReader.maxTime. cbn [ChunkReader._chunk]. rewrite Hst.
  by apply stat_of_bounds.
Qed.

(** The copy of an unsorted chunk: what the reader yields, then the rest of the
    array as it was. *)
Lemma copy_loop_rep fuel pos ma (r : ChunkReader.t) l :
  rep r l → (length l < fuel)%nat → (pos + length l <= length ma)%nat →
  Chunk.copy_loop fuel pos ma r = Ok (take pos ma ++ l ++ drop (pos + length l) ma).
Proof.
  revert pos ma r l. induction fuel as [|fuel IH]; intros pos ma r l Hr Hf Hp; [lia|].
  cbn [Chunk.copy_loop]. change (ChunkReader.is_end r) with (is_end r). rewrite (rep_end r l Hr).
  destruct l as [|m l].
  { cbn [app length]. by rewrite Nat.add_0_r, take_drop. }
  destruct (rep_next r m l Hr) as (r' & E & Hr'). cbn in E. rewrite E, bind_Ok.
  cbn [length] in *. rewrite (proj2 (Nat.ltb_lt _ _)) by lia.
  rewrite (IH _ _ _ l) by (done || rewrite ?length_insert; lia).
  f_equal. rewrite (take_S_r _ _ m) by (apply list_lookup_insert_eq; lia).
  rewrite take_insert_ge, drop_insert_lt, <- app_assoc by lia.
  by rewrite (Nat.add_succ_r pos (length l)).
Qed.

(** What [getReader] represents. *)
Definition reader_list `{StdSort} (m0 : Meas) (l : list Meas) : list Meas :=
  let ma := chunk_list m0 l ++ replicate (S (length l) - length (chunk_list m0 l)) Meas_default in
  uniq (std_sort time ma).

Lemma getReader_unsorted `{StdSort} c m0 l :
  holds c m0 l → times_kept (dc_first m0) l = true →
  ChunkHeader.is_sorted (Chunk.header c) = 0 →
  ∃ cur, Chunk.getReader c = Ok cur ∧ rep cur (reader_list m0 l).
Proof.
  intros (Hh & Hr & Hs) Hk E0. pose proof (chunk_reader_rep _ _ _ _ Hh Hr Hs Hk) as Hrep.
  unfold Chunk.getReader. cbn zeta. fold (chunk_reader (Chunk.header c) (get_range (Chunk.bw c))).
  rewrite E0. cbn [Z.eqb]. rewrite (hh_stat _ _ _ Hh).
  assert (Hcnt : count (stat_of (m0 :: l)) = Z.of_nat (S (length l))).
  { rewrite stat_of_count; [done|]. destruct Hs as (_ & _ & _ & Hn). cbn [length]. lia. }
  rewrite Hcnt, Nat2Z.id.
  pose proof (sublist_length _ _ (chunk_emit_sublist m0 l)) as Hlen.
  rewrite (copy_loop_rep _ _ _ _ _ Hrep)
    by (unfold chunk_list; cbn [length]; rewrite ?length_replicate; lia).
  rewrite bind_Ok. eexists. split; [done|]. cbn [take app].
  rewrite drop_replicate. apply full_make_rep.
Qed.

Lemma getReader_sorted `{StdSort} c m0 l :
  holds c m0 l → times_kept (dc_first m0) l = true →
  ChunkHeader.is_sorted (Chunk.header c) = 1 →
  ∃ cur, Chunk.getReader c = Ok cur ∧ rep cur (chunk_list m0 l).
Proof.
  intros (Hh & Hr & Hs) Hk E1. pose proof (chunk_reader_rep _ _ _ _ Hh Hr Hs Hk) as Hrep.
  unfold Chunk.getReader. cbn zeta. fold (chunk_reader (Chunk.header c) (get_range (Chunk.bw c))).
  rewrite E1. cbn [Z.eqb]. by eexists.
Qed.

Lemma NoDup_no_runs x l : NoDup (time <$> x :: l) → no_runs x l = true.
Proof.
  revert x. induction l as [|y l IH]; intros x Hn; [done|].
  cbn in Hn. apply NoDup_cons in Hn as [Hx Hn]. cbn [no_runs].
  rewrite IH by done. rewrite andb_true_r. apply negb_true_iff, Z.eqb_neq.
  intros E. apply Hx. rewrite E. by left.
Qed.

Lemma sorted_NoDup_strict (l : list Meas) :
  sorted_by time l → NoDup (time <$> l) → strictly_by time l.
Proof.
  induction 1 as [|m l Hs IH Hm]; intros Hn; [constructor|].
  cbn in Hn. apply NoDup_cons in Hn as [Hx Hn]. constructor; [by apply IH|].
  apply Forall_forall. intros y Hy. rewrite Forall_forall in Hm. specialize (Hm y Hy). cbn in *.
  assert (time m ≠ time y); [|lia]. intros E. apply Hx. rewrite E. by apply list_elem_of_fmap_2.
Qed.

Lemma strict_uniq l : strictly_by time l → uniq l = l.
Proof.
  assert (Ha : ∀ tm l, Forall (fun m => tm < time m) l → strictly_by time l → uniq_after tm l = l).
  { clear l. intros tm l. revert tm. induction l as [|m l IH]; intros tm Ht Hs; [done|].
    apply StronglySorted_inv in Hs as [Hs Hm]. apply Forall_cons_1 in Ht as [Ht _].
    cbn. rewrite (proj2 (Z.eqb_neq _ _)) by lia. by rewrite IH. }
  intros Hs. destruct l as [|m l]; [done|]. apply StronglySorted_inv in Hs as [Hs Hm].
  cbn. by rewrite Ha.
Qed.

(** With distinct times, the reader gives every measurement of the chunk once,
    in the order of the times, whatever order they were appended in. *)
Lemma getReader_distinct `{StdSort} c m0 l :
  holds c m0 l → times_kept (dc_first m0) l = true → NoDup (time <$> m0 :: l) →
  ∃ cur L, Chunk.getReader c = Ok cur ∧ rep cur L ∧ L ≡ₚ m0 :: l ∧ strictly_by time L ∧
    (sorted_by time (m0 :: l) → L = m0 :: l).
Proof.
  intros Hc Hk Hn. pose proof (NoDup_no_runs _ _ Hn) as Hnr.
  destruct (hh_sorted _ _ _ (proj1 Hc)) as [[E Hs]|[E Hs]].
  - destruct (getReader_sorted c m0 l Hc Hk E) as (cur & Ec & Hr).
    exists cur, (m0 :: l). unfold chunk_list in Hr. rewrite chunk_emit_no_runs in Hr by done.
    by split_and!; [done|done|done|apply sorted_NoDup_strict|].
  - destruct (getReader_unsorted c m0 l Hc Hk E) as (cur & Ec & Hr).
    unfold reader_list, chunk_list in Hr. rewrite chunk_emit_no_runs in Hr by done.
    cbn [length] in Hr. rewrite Nat.sub_diag in Hr. cbn [replicate] in Hr. rewrite app_nil_r in Hr.
    assert (Hst : strictly_by time (std_sort time (m0 :: l))).
    { apply sorted_NoDup_strict; [apply std_sort_sorted|]. by rewrite std_sort_perm. }
    rewrite strict_uniq in Hr by done.
    exists cur, (std_sort time (m0 :: l)).
    by split_and!; [done|done|apply std_sort_perm|done|].
Qed.

(** ** Statistic over an interval *)

Lemma stat_loop_rep {C} `{CursorSpec C} from to fuel st (c : C) l :
  rep c l → (length l < fuel)%nat →
  Chunk.stat_loop from to fuel st c =
  Ok (update_all st (filter (fun m => inInterval from to (time m) = true) l)).
Proof.
  revert st c l. induction fuel as [|fuel IH]; intros st c l Hc Hf; [lia|].
  cbn [Chunk.stat_loop]. rewrite (rep_end c l Hc). destruct l as [|m l]; [done|].
  destruct (rep_next c m l Hc) as (c' & -> & Hc'). rewrite bind_Ok, filter_cons.
  cbn [length] in Hf. rewrite (IH _ _ l) by (done || lia).
  destruct (decide (inInterval from to (time m) = true)) as [E|E].
  - by rewrite E.
  - apply not_true_is_false in E. by rewrite E.
Qed.

Lemma filter_covered from to l :
  inInterval from to (minTime (stat_of l)) && inInterval from to (maxTime (stat_of l)) = true →
  Forall meas_wf l → filter (fun m => inInterval from to (time m) = true) l = l.
Proof.
  intros [H1 H2]%andb_true_iff Hwf. pose proof (stat_of_bounds l Hwf) as Hb.
  generalize dependent (stat_of l). intros st H1 H2 Hb.
  induction Hb as [|m l Hm Hb IH]; [done|]. apply Forall_cons_1 in Hwf as [_ Hwf].
  rewrite filter_cons_True, IH by (try done;
    unfold inInterval in *; rewrite !andb_true_iff, !Z.leb_le in *; lia). done.
Qed.

(** [Chunk::stat] of a sorted chunk with distinct times is the statistic of the
    measurements in the interval, whether or not it reads them. *)
Lemma chunk_stat_sorted `{StdSort} from to c m0 l :
  holds c m0 l → times_kept (dc_first m0) l = true → NoDup (time <$> m0 :: l) →
  sorted_by time (m0 :: l) →
  Chunk.stat from to c =
  Ok (stat_of (filter (fun m => inInterval from to (time m) = true) (m0 :: l))).
Proof.
  intros Hc Hk Hn Hs. unfold Chunk.stat. rewrite (hh_stat _ _ _ (proj1 Hc)).
  pose proof Hc as (_ & _ & Hwf & _ & _ & Hcnt).
  destruct (inInterval from to (minTime (stat_of (m0 :: l))) &&
            inInterval from to (maxTime (stat_of (m0 :: l)))) eqn:Hcov.
  - by rewrite filter_covered.
  - destruct (getReader_distinct c m0 l Hc Hk Hn) as (cur & L & -> & Hr & _ & _ & HL).
    rewrite bind_Ok. rewrite HL in Hr by done.
    rewrite (stat_loop_rep _ _ _ _ _ _ Hr); [done|].
    rewrite stat_of_count by (cbn [length]; lia). lia.
Qed.

(** ** Cutting off the unused bytes *)

Lemma stream_make_buffer d :
  Z.of_nat (length d) < 2 ^ 32 → stream (make_buffer d) = rev (take (length d - 1) d).
Proof.
  intros Hl. destruct d as [|b d]; [done|].
  destruct (make_buffer_wf (b :: d)) as [_ Hp]; [cbn; lia|done|].
  unfold stream. rewrite Hp. cbn [make_buffer reset_pos set_pos _data]. do 2 f_equal.
  cbn [length]. lia.
Qed.

Lemma region_holds_drop k data m0 l :
  region_holds data m0 l →
  (k + length (written_bytes m0 l) + 1 <= length data)%nat →
  region_holds (drop k data) m0 l.
Proof.
  intros (H0 & H1 & s & Hs) Hk. split; [rewrite length_drop; lia|].
  split; [rewrite length_drop; lia|].
  rewrite stream_make_buffer in Hs |- * by (rewrite ?length_drop; lia).
  rewrite length_drop, take_drop_commute.
  replace (k + (length data - k - 1))%nat with (length data - 1)%nat by lia.
  set (t := take (length data - 1) data) in *.
  assert (Ht : length t = (length data - 1)%nat) by (subst t; rewrite length_take; lia).
  replace k with (length t - (length t - k))%nat by lia.
  rewrite <- firstn_rev, Hs, take_app_ge by lia. by eexists.
Qed.

(** After [compact], the chunk opened on the remaining bytes holds the same. *)
Lemma chunk_compact size c m0 l :
  sealed size c m0 l →
  let '(skip_count, h) := Chunk.compact (Chunk.header c) in
  let data := drop (Z.to_nat skip_count) (get_range (Chunk.bw c)) in
  0 <= skip_count ∧ ChunkHeader.size h = Z.of_nat (length data) ∧
  holds (Chunk.open h data) m0 l.
Proof.
  intros [(Hh & Hr & Hs) HL [H0 H1] Hlen Hsz Hpos].
  set (d := get_range (Chunk.bw c)) in *. unfold Chunk.compact. rewrite Hpos, Hsz.
  set (n := Z.of_nat (length (written_bytes m0 l))) in *.
  assert (Hopen : ∀ h data, ChunkHeader.size h = Z.of_nat (length data) →
    header_holds h m0 l → region_holds data m0 l → holds (Chunk.open h data) m0 l).
  { intros h data E Hh' Hr'. split; [done|]. split; [|done].
    cbn [Chunk.bw Chunk.open CopmressedWriter._bb CopmressedWriter.init Chunk.c_writer
         get_range set_pos make_buffer reset_pos _data].
    by rewrite E, Nat2Z.id, take_ge. }
  destruct (Z.eqb_spec (Z.of_nat size - 1 - n) 0) as [E|E].
  - cbn zeta. change (Z.to_nat 0) with O. rewrite drop_0, HL.
    split; [done|]. split; [done|]. apply Hopen; [lia|done..].
  - cbn zeta. rewrite (wrap_small 32 (Z.of_nat size - (Z.of_nat size - 1 - n) + 1)) by lia.
    rewrite wrap_small by lia. split; [lia|].
    assert (Hsize : ChunkHeader.size (ChunkHeader.set_bw_pos 0 (ChunkHeader.set_size
      (Z.of_nat size - (Z.of_nat size - 1 - n) + 1) (Chunk.header c))) =
      Z.of_nat (length (drop (Z.to_nat
        (Z.of_nat size - (Z.of_nat size - (Z.of_nat size - 1 - n) + 1))) d))).
    { rewrite length_drop, HL. cbn. lia. }
    split; [done|]. apply Hopen; [done| |].
    + destruct Hh as [? ? ? ?]. by split.
    + apply region_holds_drop; [done|]. lia.
Qed.

(** ** Properties *)

(** The chunks that [create] and accepted [append]s lead to, with what was
    appended after the first measurement. *)
Inductive Filled (hdr : ChunkHeader.t) (size : nat) (m0 : Meas) : list Meas → Chunk.t → Prop :=
| Filled_create c :
    Chunk.create hdr size m0 = Ok c → Filled hdr size m0 [] c
| Filled_append l m c c' :
    Filled hdr size m0 l c → Chunk.append m c = Ok (true, c') → Filled hdr size m0 (l ++ [m]) c'.

(** The sizes and the measurements the statements are about. *)
Definition chunk_input (size : nat) (m0 : Meas) (l : list Meas) : Prop :=
  (0 < size)%nat ∧ Z.of_nat size < 2 ^ 32 ∧ Forall meas_wf (m0 :: l) ∧
  Forall (fun m => Meas.id m = Meas.id m0) l ∧ Z.of_nat (length l) + 2 < 2 ^ 32.

Lemma chunk_input_prefix size m0 l m :
  chunk_input size m0 (l ++ [m]) →
  chunk_input size m0 l ∧ meas_wf m ∧ Meas.id m = Meas.id m0.
Proof.
  intros (H1 & H2 & [H3 H4]%Forall_cons_1 & H5 & H6).
  apply Forall_app in H4 as [H4 [Hm _]%Forall_cons_1].
  apply Forall_app in H5 as [H5 [Hi _]%Forall_cons_1].
  rewrite length_app in H6. split; [|done].
  split; [done|]. split; [done|]. split; [by constructor|]. split; [done|lia].
Qed.

(** Every such chunk is one that holds its measurements. *)
Lemma Filled_open hdr size m0 l c :
  Filled hdr size m0 l c → chunk_input size m0 l → open_chunk size c m0 l.
Proof.
  induction 1 as [c E|l m c c' HF IH E]; intros Hin.
  - destruct Hin as (H1 & H2 & [Hm0 _]%Forall_cons_1 & _).
    destruct (chunk_create hdr size m0 H1 H2 Hm0) as (c1 & E1 & Hc). congruence.
  - destruct (chunk_input_prefix _ _ _ _ Hin) as (Hin' & Hm & Hi).
    eapply chunk_append_true; [by apply IH|done|done| |done].
    by destruct Hin' as (_ & _ & _ & _ & ?).
Qed.

(** C20: after any sequence of accepted appends the header says what the chunk
    holds: its first and last measurement, the statistic of all of them, whether
    their times are ascending, and how much of the region is left. *)
Theorem chunk_header_invariant hdr size m0 l c :
  Filled hdr size m0 l c → chunk_input size m0 l →
  let h := Chunk.header c in
  ChunkHeader.first h = m0 ∧
  Some (ChunkHeader.last h) = last (m0 :: l) ∧
  ChunkHeader.stat h = stat_of (m0 :: l) ∧
  (ChunkHeader.is_sorted h = 1 ↔ sorted_by time (m0 :: l)) ∧
  ChunkHeader.size h = Z.of_nat size ∧
  ChunkHeader.bw_pos h = _pos (Chunk.bw c) ∧ 0 <= ChunkHeader.bw_pos h < Z.of_nat size.
Proof.
  intros HF Hin. pose proof (Filled_open _ _ _ _ _ HF Hin) as Hc.
  destruct (open_chunk_wf _ _ _ _ Hc) as (_ & _ & Hp0).
  destruct Hc as (_ & _ & [Hf Hl Hst Hso] & Hs & Hlen & Hbw & Hsz & Hpos & _).
  split; [done|]. split.
  { destruct (last (m0 :: l)) as [y|] eqn:Hy; [|done]. injection Hl as Hl.
    unfold ChunkHeader.last. rewrite Hl.
    assert (Hid : ChunkHeader.meas_id (Chunk.header c) = Meas.id y).
    { apply (f_equal Meas.id) in Hf as Hf'. cbn in Hf'. rewrite Hf'.
      apply last_Some_elem_of in Hy. destruct Hs as (_ & Hids & _).
      apply elem_of_cons in Hy as [->|Hy]; [done|]. rewrite Forall_forall in Hids.
      symmetry. by apply Hids. }
    rewrite Hid. by destruct y. }
  split; [done|]. split.
  { destruct Hso as [[-> ?]|[-> ?]]; split; try done. }
  split; [done|]. rewrite Hpos, Hbw, push_pos, Hp0. split; lia.
Qed.

Definition m_at (t v : Z) : Meas := mkMeas 7 t v 1.

(** A chunk of the given measurements, for examples. *)
Ltac solve_filled :=
  repeat first
    [ eapply (Filled_append _ _ _ [_; _; _]) | eapply (Filled_append _ _ _ [_; _])
    | eapply (Filled_append _ _ _ [_]) | eapply (Filled_append _ _ _ [])
    | eapply Filled_create ];
  [> vm_compute; reflexivity ..].

Ltac solve_chunk_input :=
  split; [lia|]; split; [done|]; split; [repeat constructor; vm_compute; congruence|];
  split; [by repeat constructor|done].

Lemma chunk_header_invariant_witness :
  ∃ c, Filled ChunkHeader.zero 64 (m_at 10 0) [m_at 20 5; m_at 15 6] c ∧
  ChunkHeader.first (Chunk.header c) = m_at 10 0 ∧
  Some (ChunkHeader.last (Chunk.header c)) = last [m_at 10 0; m_at 20 5; m_at 15 6].
Proof.
  assert (HF : ∃ c, Filled ChunkHeader.zero 64 (m_at 10 0) [m_at 20 5; m_at 15 6] c).
  { eexists. solve_filled. }
  destruct HF as [c HF]. exists c. split; [exact HF|].
  pose proof (chunk_header_invariant _ _ _ _ _ HF) as H.
  destruct H as (H1 & H2 & _); [solve_chunk_input|]. exact (conj H1 H2).
Defined.



(** C27: a measurement that does not fit is refused without changing the header,
    the chunk reports that it is full, and its reader still gives everything that
    was accepted before. *)
Theorem chunk_refused_harmless `{StdSort} hdr size m0 l c m c' :
  Filled hdr size m0 l c → chunk_input size m0 l →
  times_kept (dc_first m0) l = true → NoDup (time <$> m0 :: l) →
  meas_wf m → Chunk.append m c = Ok (false, c') →
  Chunk.header c' = Chunk.header c ∧ Chunk.isFull c' = true ∧
  ∃ cur L, Chunk.getReader c' = Ok cur ∧
    read_to_end (S (S (length l))) cur = Ok L ∧ L ≡ₚ m0 :: l ∧ strictly_by time L.
Proof.
  intros HF Hin Hk Hn Hm E. pose proof (Filled_open _ _ _ _ _ HF Hin) as Hc.
  destruct (chunk_append_false _ _ _ _ _ _ Hc Hm E) as ([Hh _ _ _ _ _] & Hhd & Hfull).
  split; [done|]. split; [done|].
  destruct (getReader_distinct c' m0 l Hh Hk Hn) as (cur & L & Ec & Hr & Hp & Hs & _).
  exists cur, L. split_and!; try done.
  apply read_to_end_rep; [done|]. rewrite Hp. cbn [length]. lia.
Qed.

Lemma chunk_refused_harmless_witness :
  ∃ c c', Chunk.append (m_at 30 0x4008000000000001) c = Ok (false, c') ∧
  Chunk.isFull c' = true ∧
  ∃ cur L, Chunk.getReader c' = Ok cur ∧
    read_to_end 4 cur = Ok L ∧ L ≡ₚ [m_at 10 0; m_at 20 5; m_at 15 6] ∧ strictly_by time L.
Proof.
  assert (HF : ∃ c c', Filled ChunkHeader.zero 16 (m_at 10 0) [m_at 20 5; m_at 15 6] c ∧
    Chunk.append (m_at 30 0x4008000000000001) c = Ok (false, c')).
  { eexists _, _. split; [solve_filled|vm_compute; reflexivity]. }
  destruct HF as (c & c' & HF & E). exists c, c'. split; [exact E|].
  pose proof (chunk_refused_harmless _ _ _ _ _ (m_at 30 0x4008000000000001) c' HF) as H.
  destruct H as (_ & H1 & H2).
  - solve_chunk_input.
  - vm_compute. reflexivity.
  - by apply (bool_decide_unpack _); vm_compute.
  - repeat split; vm_compute; congruence.
  - exact E.
  - exact (conj H1 H2).
Defined.

(** Cutting the unused bytes off a chunk and opening the rest, as writing a
    page does, keeps every measurement: the header's size is the length of the
    remaining region and the reader gives what was appended. *)
Theorem chunk_compact_roundtrip `{StdSort} hdr size m0 l c :
  Filled hdr size m0 l c → chunk_input size m0 l →
  times_kept (dc_first m0) l = true → NoDup (time <$> m0 :: l) →
  let skip_count := fst (Chunk.compact (Chunk.header c)) in
  let h := snd (Chunk.compact (Chunk.header c)) in
  let data := drop (Z.to_nat skip_count) (get_range (Chunk.bw c)) in
  ChunkHeader.size h = Z.of_nat (length data) ∧
  ∃ cur L, Chunk.getReader (Chunk.open h data) = Ok cur ∧
    read_to_end (S (S (length l))) cur = Ok L ∧ L ≡ₚ m0 :: l ∧ strictly_by time L.
Proof.
  intros HF Hin Hk Hn. pose proof (Filled_open _ _ _ _ _ HF Hin) as Hc.
  pose proof (chunk_compact _ _ _ _ (open_chunk_sealed _ _ _ _ Hc)) as Hcomp.
  destruct (Chunk.compact (Chunk.header c)) as [k h]. cbn [fst snd].
  destruct Hcomp as (_ & Hsz & Hh). cbn zeta. split; [done|].
  destruct (getReader_distinct _ m0 l Hh Hk Hn) as (cur & L & Ec & Hr & Hp & Hs & _).
  exists cur, L. split_and!; try done.
  apply read_to_end_rep; [done|]. rewrite Hp. cbn [length]. lia.
Qed.

Lemma chunk_compact_roundtrip_witness :
  ∃ c cur L,
    let data := drop (Z.to_nat (fst (Chunk.compact (Chunk.header c)))) (get_range (Chunk.bw c)) in
    Chunk.getReader (Chunk.open (snd (Chunk.compact (Chunk.header c))) data) = Ok cur ∧
    read_to_end 4 cur = Ok L ∧ L ≡ₚ [m_at 10 0; m_at 20 5; m_at 15 6] ∧ strictly_by time L.
Proof.
  assert (HF : ∃ c, Filled ChunkHeader.zero 64 (m_at 10 0) [m_at 20 5; m_at 15 6] c).
  { eexists. solve_filled. }
  destruct HF as [c HF]. pose proof (chunk_compact_roundtrip _ _ _ _ _ HF) as H.
  destruct H as (_ & cur & L & H).
  - solve_chunk_input.
  - vm_compute. reflexivity.
  - by apply (bool_decide_unpack _); vm_compute.
  - exists c, cur, L. exact H.
Defined.

(** The statistic of a chunk over an interval, filled in order with distinct
    times, is the statistic of its measurements in the interval, both when the
    header answers and when the chunk is read. *)
Theorem chunk_stat_exact `{StdSort} hdr size m0 l c from to :
  Filled hdr size m0 l c → chunk_input size m0 l →
  times_kept (dc_first m0) l = true → strictly_by time (m0 :: l) →
  Chunk.stat from to c =
  Ok (stat_of (filter (fun m => inInterval from to (time m) = true) (m0 :: l))).
Proof.
  intros HF Hin Hk Hs. pose proof (Filled_open _ _ _ _ _ HF Hin) as Hc.
  apply chunk_stat_sorted; [by eapply open_chunk_holds|done| |].
  - by apply strictly_by_NoDup.
  - by apply strictly_by_sorted.
Qed.

Lemma chunk_stat_exact_witness :
  ∃ c, Chunk.stat 12 100 c = Ok (stat_of [m_at 15 5; m_at 20 6]).
Proof.
  assert (HF : ∃ c, Filled ChunkHeader.zero 64 (m_at 10 0) [m_at 15 5; m_at 20 6] c).
  { eexists. solve_filled. }
  destruct HF as [c HF]. exists c.
  rewrite (chunk_stat_exact _ _ _ _ _ 12 100 HF).
  - reflexivity.
  - solve_chunk_input.
  - vm_compute. reflexivity.
  - by repeat constructor.
Defined.

(** The chunk of the given measurements and what its reader gives. *)
Definition fill (size : nat) (m0 : Meas) (l : list Meas) : outcome Chunk.t :=
  c ← Chunk.create ChunkHeader.zero size m0;
  foldM (fun c m => '(_, c) ← Chunk.append m c; Ok c) l c.

Definition read_chunk `{StdSort} (c : Chunk.t) : outcome (list Meas) :=
  cur ← Chunk.getReader c;
  read_to_end (S (S (Z.to_nat (count (ChunkHeader.stat (Chunk.header c)))))) cur.

(** A chunk filled in order whose last two measurements have the same time is
    read with that time twice, although the reader is meant to skip duplicates,
    as it does for a run in the middle. *)
Example chunk_reader_trailing_duplicate :
  (c ← fill 64 (m_at 10 0) [m_at 10 1; m_at 20 2; m_at 20 3]; read_chunk c) =
  Ok [m_at 10 0; m_at 20 2; m_at 20 3].
Proof. vm_compute. reflexivity. Qed.

(** The reader of an unsorted chunk with a run of equal times starts with a
    measurement that was never appended: identifier, time, value and flag zero. *)
Example chunk_reader_phantom :
  (c ← fill 64 (m_at 30 0) [m_at 10 1; m_at 10 2; m_at 20 3]; read_chunk c) =
  Ok [Meas_default; m_at 10 1; m_at 20 3; m_at 30 0].
Proof. vm_compute. reflexivity. Qed.

(** A chunk can hold a measurement that a query mask selects and still be
    excluded by [checkFlag] for that mask, since the filter stores the hash of the
    whole flag and not of the mask. *)
Theorem checkFlag_misses_mask :
  ∃ c m, fill 64 m [] = Ok c ∧ inFlag 1 m = true ∧ Chunk.checkFlag 1 c = false.
Proof.
  eexists _, (mkMeas 7 10 0 3). split; [vm_compute; reflexivity|].
  split; vm_compute; reflexivity.
Qed.

(** [checkFlag] accepts a chunk for the exact flag of every measurement it
    holds, and for the empty mask. *)
Theorem checkFlag_exact hdr size m0 l c m :
  Filled hdr size m0 l c → chunk_input size m0 l → m ∈ m0 :: l →
  Chunk.checkFlag (flag m) c = true ∧ Chunk.checkFlag 0 c = true.
Proof.
  intros HF Hin Hm. pose proof (Filled_open _ _ _ _ _ HF Hin) as Hc.
  destruct Hc as (_ & _ & [_ _ Hst _] & _). unfold Chunk.checkFlag. rewrite Hst.
  destruct (update_all_fields (m0 :: l) Statistic_empty) as (_ & _ & _ & E & _).
  unfold stat_of. rewrite E. rewrite (bloom_of_check _ _ (flag m)).
  - by destruct (flag m =? 0).
  - by apply list_elem_of_fmap_2.
Qed.

Lemma checkFlag_exact_witness :
  ∃ c, Chunk.checkFlag 1 c = true ∧ Chunk.checkFlag 0 c = true.
Proof.
  assert (HF : ∃ c, Filled ChunkHeader.zero 64 (m_at 10 0) [m_at 15 5; m_at 20 6] c).
  { eexists. solve_filled. }
  destruct HF as [c HF]. exists c.
  apply (checkFlag_exact _ _ _ _ _ (m_at 10 0) HF); [solve_chunk_input|by left].
Defined.
