(* ===== verification/KMerge.v ===== *)
(** * The reference merge

    What a merging cursor should yield: the measurements of all the readers
    stably sorted by time, the first one kept where several have the same time.
    [kmerge_step] is the step a merge makes: the first of the least heads, then
    what is left once that time is dropped from every reader. *)

From Stdlib Require Import ZArith Lia Sorting.Sorted.
From stdpp Require Import base numbers list.
From S2P Require Import Prelude Float64 Meas StdSort ICursor FullCursor.

Local Open Scope Z_scope.

Definition kmerge (ls : list (list Meas)) : list Meas :=
  uniq (insertion_sort time (concat ls)).

(** The measurements with the given time, and the first of them. *)
Definition at_time (t : Z) (l : list Meas) : list Meas := filter (fun m => time m = t) l.
Definition first_at (t : Z) (l : list Meas) : option Meas := head (at_time t l).

Fixpoint drop_time (t : Z) (l : list Meas) : list Meas :=
  match l with
  | [] => []
  | m :: l' => if time m =? t then drop_time t l' else l
  end.

Lemma at_time_app t l1 l2 : at_time t (l1 ++ l2) = at_time t l1 ++ at_time t l2.
Proof. apply filter_app. Qed.

Lemma first_at_cons t m l :
  first_at t (m :: l) = if decide (time m = t) then Some m else first_at t l.
Proof. unfold first_at, at_time. rewrite filter_cons. by destruct (decide _). Qed.

Lemma first_at_None t l : first_at t l = None ↔ Forall (fun m => time m ≠ t) l.
Proof.
  induction l as [|m l IH]; [done|]. rewrite first_at_cons, Forall_cons.
  destruct (decide (time m = t)); [by split; [|intros [? _]]|]. rewrite IH. tauto.
Qed.

Lemma first_at_Some t l m : first_at t l = Some m → m ∈ l ∧ time m = t.
Proof.
  intros E. apply head_Some_elem_of in E. unfold at_time in E.
  apply list_elem_of_filter in E as [? ?]. done.
Qed.

Lemma first_at_above t x l :
  Forall (fun m => time x < time m) l → t <= time x → first_at t l = None.
Proof.
  intros Hl Ht. apply first_at_None. eapply Forall_impl; [exact Hl|]. cbn. lia.
Qed.

(** A strictly sorted list is determined by its measurement at each time. *)
Lemma strict_ext l1 l2 :
  strictly_by time l1 → strictly_by time l2 →
  (∀ t, first_at t l1 = first_at t l2) → l1 = l2.
Proof.
  intros H1. revert l2. induction H1 as [|x l1 H1 IH Hx]; intros l2 H2 E.
  - destruct l2 as [|y l2]; [done|]. specialize (E (time y)).
    by rewrite first_at_cons, decide_True in E.
  - destruct l2 as [|y l2].
    { specialize (E (time x)). by rewrite first_at_cons, decide_True in E. }
    apply StronglySorted_inv in H2 as [H2 Hy].
    assert (x = y) as <-.
    { pose proof (E (time x)) as E1. pose proof (E (time y)) as E2.
      rewrite !first_at_cons in E1, E2.
      rewrite (decide_True (P := time x = time x)) in E1 by done.
      rewrite (decide_True (P := time y = time y)) in E2 by done.
      destruct (decide (time y = time x)) as [Et|Et]; [by injection E1|].
      rewrite decide_False in E2 by done.
      destruct (Z.le_ge_cases (time x) (time y)) as [?|?].
      - by rewrite (first_at_above _ y l2 Hy) in E1.
      - by rewrite (first_at_above _ x l1 Hx) in E2. }
    f_equal. apply IH; [done|]. intros t. specialize (E t). rewrite !first_at_cons in E.
    destruct (decide (time x = t)) as [Et|Et]; [|done].
    rewrite !(first_at_above t x) by (done || lia). done.
Qed.

(** The sort is stable. *)
Lemma at_time_insert_by t x l :
  sorted_by time l → at_time t (insert_by time x l) = at_time t (x :: l).
Proof.
  induction 1 as [|y l Hl IH Hy]; [done|]. cbn [insert_by].
  destruct (Z.leb_spec (time x) (time y)) as [?|Hlt]; [done|].
  unfold at_time in *. rewrite (filter_cons _ y (insert_by time x l)), IH, !filter_cons.
  destruct (decide (time y = t)), (decide (time x = t)); done || lia.
Qed.

Lemma at_time_sort t l : at_time t (insertion_sort time l) = at_time t l.
Proof.
  induction l as [|x l IH]; [done|].
  change (insertion_sort time (x :: l)) with (insert_by time x (insertion_sort time l)).
  rewrite at_time_insert_by by apply (std_sort_sorted (StdSort := insertion_StdSort)).
  unfold at_time in *. by rewrite !filter_cons, IH.
Qed.

Lemma first_at_uniq_after t tm l :
  t ≠ tm → first_at t (uniq_after tm l) = first_at t l.
Proof.
  revert tm. induction l as [|m l IH]; intros tm Hne; cbn [uniq_after]; [done|].
  unfold first_at, at_time in *. rewrite (filter_cons _ m l).
  destruct (Z.eqb_spec (time m) tm) as [E|E].
  - rewrite decide_False by lia. by apply IH.
  - rewrite filter_cons. destruct (decide (time m = t)) as [Et|Et]; [done|]. apply IH. lia.
Qed.

Lemma first_at_uniq t l : first_at t (uniq l) = first_at t l.
Proof.
  destruct l as [|m l]; [done|]. cbn [uniq]. unfold first_at, at_time in *.
  rewrite !filter_cons. destruct (decide (time m = t)) as [Et|Et]; [done|].
  apply first_at_uniq_after. lia.
Qed.

Lemma kmerge_strict ls : strictly_by time (kmerge ls).
Proof. apply uniq_strict, (std_sort_sorted (StdSort := insertion_StdSort)). Qed.

Lemma kmerge_first_at t ls : first_at t (kmerge ls) = first_at t (concat ls).
Proof. unfold kmerge. rewrite first_at_uniq. unfold first_at. by rewrite at_time_sort. Qed.

(** The merge is the only strictly sorted list with these measurements. *)
Lemma kmerge_unique ls l :
  strictly_by time l → (∀ t, first_at t l = first_at t (concat ls)) → l = kmerge ls.
Proof.
  intros Hl E. apply strict_ext; [done|apply kmerge_strict|].
  intros t. by rewrite E, kmerge_first_at.
Qed.

Lemma kmerge_elem ls m : m ∈ kmerge ls → m ∈ concat ls.
Proof.
  intros Hm. unfold kmerge in Hm.
  pose proof (elem_of_sublist _ _ _ Hm (uniq_sublist _)) as Hm'.
  by rewrite (std_sort_perm (StdSort := insertion_StdSort) time (concat ls)) in Hm'.
Qed.

Lemma drop_time_other t tm l : t ≠ tm → at_time t (drop_time tm l) = at_time t l.
Proof.
  intros Hne. induction l as [|m l IH]; cbn [drop_time]; [done|].
  destruct (Z.eqb_spec (time m) tm); [|done]. rewrite IH. unfold at_time.
  by rewrite filter_cons_False by lia.
Qed.

Lemma drop_time_above tm l :
  sorted_by time l → Forall (fun m => tm <= time m) l →
  Forall (fun m => tm < time m) (drop_time tm l).
Proof.
  induction 1 as [|m l Hs IH Hm]; intros Ht; cbn [drop_time]; [constructor|].
  apply Forall_cons_1 in Ht as [Hm0 Ht]. destruct (Z.eqb_spec (time m) tm); [by apply IH|].
  constructor; [lia|]. eapply Forall_impl; [exact Hm|]. cbn. lia.
Qed.

Lemma drop_time_sublist tm l : drop_time tm l `sublist_of` l.
Proof.
  induction l as [|m l IH]; cbn [drop_time]; [done|].
  destruct (time m =? tm); [by apply sublist_cons|done].
Qed.

Lemma drop_time_sorted tm l : sorted_by time l → sorted_by time (drop_time tm l).
Proof.
  induction 1 as [|m l Hs IH Hm]; cbn [drop_time]; [constructor|].
  destruct (time m =? tm); [done|by constructor].
Qed.

Lemma drop_time_head_gt tm l m r : l = m :: r → tm < time m → drop_time tm l = l.
Proof. intros -> Ht. cbn [drop_time]. by rewrite (proj2 (Z.eqb_neq _ _)) by lia. Qed.

Lemma first_at_app t l1 l2 :
  first_at t (l1 ++ l2) = match first_at t l1 with Some m => Some m | None => first_at t l2 end.
Proof. unfold first_at. rewrite at_time_app. by destruct (at_time t l1). Qed.

(** The heads bound the lists. *)
Lemma heads_bound tm ls :
  Forall (sorted_by time) ls →
  (∀ j m r, ls !! j = Some (m :: r) → tm <= time m) →
  Forall (Forall (fun m => tm <= time m)) ls.
Proof.
  intros Hs Hh. apply Forall_lookup. intros j l Hl. rewrite Forall_lookup in Hs.
  specialize (Hs j l Hl). destruct l as [|m r]; [constructor|].
  specialize (Hh j m r Hl). apply StronglySorted_inv in Hs as [_ Hm].
  constructor; [done|]. eapply Forall_impl; [exact Hm|]. cbn. lia.
Qed.

Lemma first_at_concat_least ls i m r :
  Forall (sorted_by time) ls → ls !! i = Some (m :: r) →
  (∀ j m' r', ls !! j = Some (m' :: r') → (j < i)%nat → time m < time m') →
  first_at (time m) (concat ls) = Some m.
Proof.
  intros Hs. revert i. induction Hs as [|l ls Hl Hs IH]; intros i Hi Hlt; [done|].
  cbn [concat]. rewrite first_at_app. destruct i as [|i].
  - injection Hi as ->. by rewrite first_at_cons, decide_True.
  - assert (first_at (time m) l = None) as ->.
    { destruct l as [|m' r']; [done|]. specialize (Hlt 0%nat m' r' eq_refl ltac:(lia)).
      apply StronglySorted_inv in Hl as [_ Hm]. apply first_at_None.
      constructor; [lia|]. eapply Forall_impl; [exact Hm|]. cbn. lia. }
    apply (IH i Hi). intros j m' r' Hj Hji. apply (Hlt (S j) m' r' Hj). lia.
Qed.

Lemma first_at_drop t tm ls :
  t ≠ tm → first_at t (concat (drop_time tm <$> ls)) = first_at t (concat ls).
Proof.
  intros Hne. induction ls as [|l ls IH]; [done|]. cbn [concat fmap list_fmap].
  rewrite !first_at_app. change (list_fmap _ _ ?f ?l) with (f <$> l). rewrite IH.
  unfold first_at at 1 3. by rewrite drop_time_other.
Qed.

(** One step of the merge. *)
Lemma kmerge_step ls i m r :
  Forall (sorted_by time) ls → ls !! i = Some (m :: r) →
  (∀ j m' r', ls !! j = Some (m' :: r') →
     time m <= time m' ∧ ((j < i)%nat → time m < time m')) →
  kmerge ls = m :: kmerge (drop_time (time m) <$> ls).
Proof.
  intros Hs Hi Hle.
  pose proof (heads_bound (time m) ls Hs (fun j m' r' Hj => proj1 (Hle j m' r' Hj))) as Hb.
  assert (Hgt : Forall (fun m' => time m < time m') (concat (drop_time (time m) <$> ls))).
  { clear Hle Hi. induction ls as [|l ls IH]; [constructor|].
    apply Forall_cons_1 in Hs as [Hl Hs]. apply Forall_cons_1 in Hb as [Hbl Hb].
    cbn [fmap list_fmap concat]. apply Forall_app. split; [by apply drop_time_above|by apply IH]. }
  symmetry. apply kmerge_unique.
  - constructor; [apply kmerge_strict|]. apply Forall_forall. intros x Hx%kmerge_elem.
    rewrite Forall_forall in Hgt. by apply Hgt.
  - intros t. rewrite first_at_cons. destruct (decide (time m = t)) as [<-|Hne].
    + symmetry. eapply first_at_concat_least; [done..|]. intros j m' r' Hj. by apply (Hle j m' r' Hj).
    + rewrite kmerge_first_at. by apply first_at_drop.
Qed.

Lemma kmerge_nil ls : Forall (fun l => l = []) ls → kmerge ls = [].
Proof.
  intros Hl. unfold kmerge. assert (concat ls = []) as ->; [|done].
  induction Hl as [|l ls -> Hl IH]; [done|]. done.
Qed.
