(* ===== verification/Cursors.v ===== *)
(** * Cursors over cursors

    [MergeSortCursor], [LinearCursor] and [CursorWrapperFactory] of
    [storage/cursors.cpp], over any class [L] of cursors that read a source.

    [readNext] and [top] of the two classes call the same functions of their
    readers, so they are defined by recursion on the nesting depth, which no
    operation increases.  A list of readers owns its cursors: the code keeps
    shared pointers and consumes them. *)

From Stdlib Require Import ZArith Lia Sorting.Sorted.
From stdpp Require Import base numbers list.
From S2P Require Import Prelude Float64 Meas StdSort ICursor FullCursor KMerge.

Local Open Scope Z_scope.
Local Set Warnings "-register-all".

Section Cursors.
Context {L : Type} `{ICursor L}.

Inductive cursor :=
| Leaf (c : L)
| MergeSortCursor (_values_count : Z) (_readers : list cursor) (_top_times : list Z)
    (_is_end_status : list bool) (_minTime _maxTime : Z)
| LinearCursor (_values_count : Z) (_readers : list cursor) (_minTime _maxTime : Z).

Definition c_is_end (c : cursor) : bool :=
  match c with
  | Leaf c => is_end c
  | MergeSortCursor _ _ _ status _ _ => forallb (fun b => b) status
  | LinearCursor _ readers _ _ => match readers with [] => true | _ => false end
  end.

Definition c_minTime (c : cursor) : Z :=
  match c with
  | Leaf c => cursor_minTime c
  | MergeSortCursor _ _ _ _ mn _ => mn
  | LinearCursor _ _ mn _ => mn
  end.

Definition c_maxTime (c : cursor) : Z :=
  match c with
  | Leaf c => cursor_maxTime c
  | MergeSortCursor _ _ _ _ _ mx => mx
  | LinearCursor _ _ _ mx => mx
  end.

Definition c_count (c : cursor) : Z :=
  match c with
  | Leaf c => cursor_count c
  | MergeSortCursor n _ _ _ _ _ => n
  | LinearCursor n _ _ _ => n
  end.

Fixpoint depth (c : cursor) : nat :=
  match c with
  | Leaf _ => 0
  | MergeSortCursor _ rs _ _ _ _ => S (foldr (fun r => Nat.max (depth r)) 0 rs)
  | LinearCursor _ rs _ _ => S (foldr (fun r => Nat.max (depth r)) 0 rs)
  end%nat.

(** The loop of [get_cursor_with_min_time]. *)
Fixpoint min_time_loop (top_times : list Z) (i : nat) (min_time : Z) (min_time_index : nat) : nat :=
  match top_times with
  | [] => min_time_index
  | t :: top_times =>
    if negb (t =? MAX_TIME) && (t <? min_time)
    then min_time_loop top_times (S i) t i
    else min_time_loop top_times (S i) min_time min_time_index
  end.

Definition get_cursor_with_min_time (top_times : list Z) (readers : list cursor)
  : outcome (nat * cursor) :=
  let i := min_time_loop top_times 0 MAX_TIME 0 in
  match readers !! i with
  | Some r => Ok (i, r)
  | None => UB
  end.

Fixpoint c_top (d : nat) (c : cursor) : outcome Meas :=
  match d with
  | O => Diverge
  | S d =>
    match c with
    | Leaf c => top c
    | MergeSortCursor _ readers top_times _ _ _ =>
      '(_, r) ← get_cursor_with_min_time top_times readers; c_top d r
    | LinearCursor _ readers _ _ =>
      match readers with [] => UB | r :: _ => c_top d r end
    end
  end.

Definition get_top_time (d : nat) (r : cursor) : outcome Z :=
  if c_is_end r then Ok MAX_TIME else m ← c_top d r; Ok (time m).

(** Skipping the duplicates of one reader; [next] is its [readNext]. *)
Fixpoint skip_reader (next : cursor → outcome (Meas * cursor)) (d fuel : nat) (tm : Z)
    (r : cursor) : outcome cursor :=
  match fuel with
  | O => Diverge
  | S fuel =>
    if c_is_end r then Ok r
    else
      m ← c_top d r;
      if negb (time m =? tm) then Ok r
      else '(_, r) ← next r; skip_reader next d fuel tm r
  end.

(** The loop that skips the duplicates of all the readers. *)
Fixpoint skip_readers (next : cursor → outcome (Meas * cursor)) (d : nat) (tm : Z)
    (readers : list cursor) (top_times : list Z) (status : list bool)
  : outcome (list cursor * list Z * list bool) :=
  match readers, top_times, status with
  | [], _, _ => Ok ([], top_times, status)
  | r :: readers, t :: top_times, e :: status =>
    '(r, t, e) ←
      (if negb e && (t =? tm) then
         r ← skip_reader next d (S (Z.to_nat (c_count r))) tm r;
         t ← get_top_time d r;
         Ok (r, t, c_is_end r)
       else Ok (r, t, e));
    '(readers, top_times, status) ← skip_readers next d tm readers top_times status;
    Ok (r :: readers, t :: top_times, e :: status)
  | _, _, _ => UB
  end.

Fixpoint c_readNext (d : nat) (c : cursor) : outcome (Meas * cursor) :=
  match d with
  | O => Diverge
  | S d =>
    match c with
    | Leaf c => '(m, c) ← readNext c; Ok (m, Leaf c)
    | MergeSortCursor n readers top_times status mn mx =>
      '(i, r) ← get_cursor_with_min_time top_times readers;
      '(result, r) ← c_readNext d r;
      t ← get_top_time d r;
      let readers := <[i := r]> readers in
      let top_times := <[i := t]> top_times in
      let status := <[i := c_is_end r]> status in
      '(readers, top_times, status) ←
        skip_readers (c_readNext d) d (time result) readers top_times status;
      Ok (result, MergeSortCursor n readers top_times status mn mx)
    | LinearCursor n readers mn mx =>
      match readers with
      | [] => UB
      | r :: readers =>
        '(result, r) ← c_readNext d r;
        Ok (result, LinearCursor n (if c_is_end r then readers else r :: readers) mn mx)
      end
    end
  end.

(** ** Constructors *)

(** The readers of a merging cursor are taken out of it. *)
Fixpoint unpack_merge_readers (readers : list cursor) : list cursor :=
  match readers with
  | [] => []
  | MergeSortCursor _ sub _ _ _ _ :: readers => sub ++ unpack_merge_readers readers
  | r :: readers => r :: unpack_merge_readers readers
  end.

Fixpoint unpack_linear_readers (readers : list cursor) : list cursor :=
  match readers with
  | [] => []
  | LinearCursor _ sub _ _ :: readers => sub ++ unpack_linear_readers readers
  | r :: readers => r :: unpack_linear_readers readers
  end.

Definition readers_minTime (rs : list cursor) : Z :=
  fold_left (fun mn r => Z.min mn (c_minTime r)) rs MAX_TIME.
Definition readers_maxTime (rs : list cursor) : Z :=
  fold_left (fun mx r => Z.max mx (c_maxTime r)) rs MIN_TIME.
Definition readers_count (rs : list cursor) : Z :=
  fold_left (fun n r => u64 (n + c_count r)) rs 0.

Fixpoint fill_top_times (readers : list cursor) : outcome (list Z) :=
  match readers with
  | [] => Ok []
  | r :: readers => t ← get_top_time (S (depth r)) r; ts ← fill_top_times readers; Ok (t :: ts)
  end.

Definition make_MergeSortCursor (readers : list cursor) : outcome cursor :=
  let _readers := unpack_merge_readers readers in
  _top_times ← fill_top_times _readers;
  Ok (MergeSortCursor (readers_count _readers) _readers _top_times
        (replicate (length _readers) false)
        (readers_minTime _readers) (readers_maxTime _readers)).

Definition make_LinearCursor `{StdSort} (readers : list cursor) : cursor :=
  let _readers := std_sort c_minTime (unpack_linear_readers readers) in
  LinearCursor (readers_count _readers) _readers
    (readers_minTime _readers) (readers_maxTime _readers).

End Cursors.

Arguments cursor : clear implicits.

#[export] Instance cursor_ICursor {L} `{ICursor L} : ICursor (cursor L) := {
  readNext c := c_readNext (S (depth c)) c;
  top c := c_top (S (depth c)) c;
  is_end := c_is_end;
  cursor_minTime := c_minTime;
  cursor_maxTime := c_maxTime;
  cursor_count := c_count;
}.

(** ** What the cursors yield *)

Definition head_time (l : list Meas) : Z := match l with [] => MAX_TIME | m :: _ => time m end.
Definition is_nil (l : list Meas) : bool := match l with [] => true | _ => false end.

(** A merging cursor yields the merge of its readers, a linear one their
    concatenation. *)
Inductive Rep {L} `{CursorSpec L} : cursor L → list Meas → Prop :=
| Rep_leaf c l : rep c l → Rep (Leaf c) l
| Rep_merge n rs mn mx ls :
    Forall2 Rep rs ls → Forall (sorted_by time) ls →
    Forall (Forall (fun m => mn <= time m <= mx ∧ time m < MAX_TIME)) ls →
    Z.of_nat (length (concat ls)) <= n →
    Rep (MergeSortCursor n rs (head_time <$> ls) (is_nil <$> ls) mn mx) (kmerge ls)
| Rep_linear n rs mn mx ls :
    Forall2 Rep rs ls → Forall (fun l => l ≠ []) ls →
    Forall (Forall (fun m => mn <= time m <= mx)) ls →
    Z.of_nat (length (concat ls)) <= n →
    Rep (LinearCursor n rs mn mx) (concat ls).

Lemma min_time_loop_spec ts k mt idx :
  let j := min_time_loop ts k mt idx in
  mt <= MAX_TIME → Forall (fun t => t <= MAX_TIME) ts →
  (j = idx ∧ Forall (fun t => mt <= t) ts) ∨
  ∃ p t, j = (k + p)%nat ∧ ts !! p = Some t ∧ t < mt ∧
    Forall (fun t' => t <= t') ts ∧ ∀ q t', ts !! q = Some t' → (q < p)%nat → t < t'.
Proof.
  revert k mt idx. induction ts as [|t ts IH]; intros k mt idx j Hmt Hts; subst j;
    cbn [min_time_loop]; [by left|].
  apply Forall_cons_1 in Hts as [Ht Hts].
  destruct (negb (t =? MAX_TIME) && (t <? mt)) eqn:Hb.
  - apply andb_true_iff in Hb as [_ Hb]. apply Z.ltb_lt in Hb. right.
    destruct (IH (S k) t k Ht Hts) as [[-> Hall]|(p & u & -> & Hp & Hu & Hall & Hq)].
    + exists 0%nat, t. split; [lia|]. split; [done|]. split; [done|].
      split; [by constructor|]. intros q t' _ ?. lia.
    + exists (S p), u. split; [lia|]. split; [done|]. split; [lia|].
      split; [constructor; [lia|done]|].
      intros [|q] t' Hq' Hlt; [injection Hq' as <-; lia|]. eapply Hq; [done|lia].
  - assert (Hge : mt <= t).
    { apply andb_false_iff in Hb as [Hb|Hb].
      - apply negb_false_iff, Z.eqb_eq in Hb. lia.
      - by apply Z.ltb_ge in Hb. }
    destruct (IH (S k) mt idx Hmt Hts) as [[-> Hall]|(p & u & -> & Hp & Hu & Hall & Hq)].
    + left. split; [done|by constructor].
    + right. exists (S p), u. split; [lia|]. split; [done|]. split; [done|].
      split; [constructor; [lia|done]|].
      intros [|q] t' Hq' Hlt; [injection Hq' as <-; lia|]. eapply Hq; [done|lia].
Qed.

(** The reader that is read next: the first of those with the least time. *)
Lemma min_time_head ls :
  Forall (Forall (fun m => time m < MAX_TIME)) ls → ¬ Forall (fun l => l = []) ls →
  let i := min_time_loop (head_time <$> ls) 0 MAX_TIME 0 in
  ∃ m r, ls !! i = Some (m :: r) ∧
    ∀ j m' r', ls !! j = Some (m' :: r') →
      time m <= time m' ∧ ((j < i)%nat → time m < time m').
Proof.
  intros Hlt Hne i.
  assert (Hle : Forall (fun t => t <= MAX_TIME) (head_time <$> ls)).
  { apply Forall_fmap. eapply Forall_impl; [exact Hlt|]. intros [|m r] Hm; cbn; [lia|].
    apply Forall_cons_1 in Hm as [? _]. lia. }
  destruct (min_time_loop_spec (head_time <$> ls) 0 MAX_TIME 0 ltac:(lia) Hle)
    as [[_ Hall]|(p & t & Hi & Hp & Ht & Hall & Hq)].
  - exfalso. apply Hne. rewrite Forall_fmap in Hall. rewrite Forall_lookup in *.
    intros j l Hl. specialize (Hlt j l Hl). specialize (Hall j l Hl). destruct l as [|m r]; [done|].
    apply Forall_cons_1 in Hlt as [? _]. cbn in *. lia.
  - fold i in Hi. cbn in Hi. subst i. rewrite Hi.
    rewrite list_lookup_fmap in Hp. destruct (ls !! p) as [l|] eqn:Hl; [|done].
    injection Hp as Hp. destruct l as [|m r]; cbn in Hp; [lia|].
    exists m, r. split; [done|]. intros j m' r' Hj.
    assert (Hj' : (head_time <$> ls) !! j = Some (time m')) by (by rewrite list_lookup_fmap, Hj).
    rewrite Forall_lookup in Hall. specialize (Hall _ _ Hj'). subst t. split; [done|].
    by apply Hq.
Qed.

Lemma kmerge_is_nil ls : forallb (fun b => b) (is_nil <$> ls) = is_nil (kmerge ls).
Proof.
  destruct (forallb _ _) eqn:E.
  - rewrite kmerge_nil; [done|]. apply Forall_forall. intros l Hl.
    rewrite forallb_forall in E. assert (He : is_nil l = true).
    { apply E, list_elem_of_In, list_elem_of_fmap_2. done. }
    by destruct l.
  - destruct (kmerge ls) as [|m k] eqn:Ek; [|done]. exfalso.
    apply not_true_iff_false in E. apply E. apply forallb_forall.
    intros b Hb. apply list_elem_of_In, list_elem_of_fmap in Hb as (l & -> & Hl).
    destruct l as [|x l]; [done|]. exfalso.
    pose proof (kmerge_first_at (time x) ls) as Hf. rewrite Ek in Hf. cbn in Hf.
    symmetry in Hf. apply first_at_None in Hf. rewrite Forall_forall in Hf.
    apply (Hf x); [|done]. apply list_elem_of_In, in_concat. exists (x :: l).
    split; [by apply list_elem_of_In|left; done].
Qed.

Lemma kmerge_length ls : (length (kmerge ls) <= length (concat ls))%nat.
Proof.
  unfold kmerge. etrans; [apply sublist_length, uniq_sublist|].
  by rewrite (std_sort_perm (StdSort := insertion_StdSort) time (concat ls)).
Qed.

Section RepLaws.
Context {L : Type} `{CursorSpec L}.

Lemma Rep_is_end (c : cursor L) l : Rep c l → c_is_end c = is_nil l.
Proof.
  destruct 1 as [c l Hc|n rs mn mx ls _ _ _ _|n rs mn mx ls HR Hne _ _]; cbn [c_is_end].
  - by apply rep_end.
  - apply kmerge_is_nil.
  - destruct HR as [|r l rs ls _ HR]; [done|]. apply Forall_cons_1 in Hne as [Hl _].
    cbn. by destruct l.
Qed.

Lemma Rep_count (c : cursor L) l : Rep c l → Z.of_nat (length l) <= c_count c.
Proof.
  destruct 1 as [c l Hc|n rs mn mx ls _ _ _ Hn|n rs mn mx ls _ _ _ Hn]; cbn [c_count].
  - by apply rep_count.
  - pose proof (kmerge_length ls). lia.
  - done.
Qed.

Lemma Rep_bounds (c : cursor L) l :
  Rep c l → Forall (fun m => c_minTime c <= time m <= c_maxTime c) l.
Proof.
  destruct 1 as [c l Hc|n rs mn mx ls _ _ Hb _|n rs mn mx ls _ _ Hb _]; cbn [c_minTime c_maxTime].
  - by apply rep_bounds.
  - apply Forall_forall. intros m Hm%kmerge_elem.
    apply list_elem_of_In, in_concat in Hm as (l & Hl & Hm).
    rewrite Forall_forall in Hb. specialize (Hb l (proj2 (list_elem_of_In _ _) Hl)).
    rewrite Forall_forall in Hb. by apply (Hb m (proj2 (list_elem_of_In _ _) Hm)).
  - by apply Forall_concat.
Qed.

Definition depth_all (rs : list (cursor L)) : nat := foldr (fun r => Nat.max (depth r)) 0%nat rs.

Lemma depth_all_lt d rs : (depth_all rs < d)%nat → Forall (fun r => (depth r < d)%nat) rs.
Proof.
  induction rs as [|r rs IH]; cbn; [constructor|]. intros Hd.
  constructor; [lia|]. apply IH. unfold depth_all. lia.
Qed.

Lemma depth_all_le rs rs' :
  Forall2 (fun r r' => (depth r' <= depth r)%nat) rs rs' → (depth_all rs' <= depth_all rs)%nat.
Proof.
  unfold depth_all. induction 1 as [|r r' rs rs' Hr Hrs IH]; cbn [foldr]; lia.
Qed.

(** The operations at depth [d] do what [Rep] says. *)
Definition ops_ok (d : nat) (c : cursor L) (l : list Meas) : Prop :=
  ∀ m l', l = m :: l' →
    c_top d c = Ok m ∧
    ∃ c', c_readNext d c = Ok (m, c') ∧ Rep c' l' ∧ (depth c' <= depth c)%nat.

Definition ops_upto (d : nat) : Prop :=
  ∀ c l, (depth c < d)%nat → Rep c l → ops_ok d c l.

Lemma get_top_time_Rep d c l :
  ops_upto d → (depth c < d)%nat → Rep c l → get_top_time d c = Ok (head_time l).
Proof.
  intros Hd Hdc Hc. unfold get_top_time. rewrite (Rep_is_end c l Hc).
  destruct l as [|m l]; [done|]. cbn [is_nil].
  destruct (Hd c _ Hdc Hc m l eq_refl) as [-> _]. done.
Qed.

Lemma skip_reader_Rep d fuel tm c l :
  ops_upto d → (depth c < d)%nat → Rep c l → (length l < fuel)%nat →
  ∃ c', skip_reader (c_readNext d) d fuel tm c = Ok c' ∧
    Rep c' (drop_time tm l) ∧ (depth c' <= depth c)%nat.
Proof.
  intros Hd. revert c l. induction fuel as [|fuel IH]; intros c l Hdc Hc Hf; [lia|].
  cbn [skip_reader]. rewrite (Rep_is_end c l Hc). destruct l as [|m l]; cbn [is_nil drop_time].
  { by exists c. }
  destruct (Hd c _ Hdc Hc m l eq_refl) as (-> & c' & E & Hc' & Hdc'). rewrite bind_Ok.
  destruct (Z.eqb_spec (time m) tm); cbn [negb]; [|by exists c].
  rewrite E, bind_Ok. cbn [length] in Hf.
  destruct (IH c' l ltac:(lia) Hc' ltac:(lia)) as (c2 & -> & H2 & Hd2).
  exists c2. split; [done|]. split; [done|lia].
Qed.

(** One reader in the loop over all of them. *)
Lemma skip_one_Rep d tm r l :
  ops_upto d → (depth r < d)%nat → Rep r l →
  ∃ r', (if negb (is_nil l) && (head_time l =? tm) then
           r ← skip_reader (c_readNext d) d (S (Z.to_nat (c_count r))) tm r;
           t ← get_top_time d r;
           Ok (r, t, c_is_end r)
         else Ok (r, head_time l, is_nil l)) =
        Ok (r', head_time (drop_time tm l), is_nil (drop_time tm l)) ∧
    Rep r' (drop_time tm l) ∧ (depth r' <= depth r)%nat.
Proof.
  intros Hd Hdr Hr. destruct (negb (is_nil l) && (head_time l =? tm)) eqn:E.
  - pose proof (Rep_count r l Hr) as Hcnt.
    destruct (skip_reader_Rep d (S (Z.to_nat (c_count r))) tm r l Hd Hdr Hr ltac:(lia))
      as (r' & -> & Hr' & Hdr').
    exists r'. rewrite bind_Ok.
    rewrite (get_top_time_Rep d r' _ Hd ltac:(lia) Hr'), bind_Ok, (Rep_is_end _ _ Hr'). done.
  - exists r. assert (drop_time tm l = l) as ->; [|done].
    destruct l as [|m l]; [done|]. cbn in *. by rewrite E.
Qed.

Lemma skip_readers_Rep d tm rs ls :
  ops_upto d → Forall (fun r => (depth r < d)%nat) rs → Forall2 Rep rs ls →
  ∃ rs', skip_readers (c_readNext d) d tm rs (head_time <$> ls) (is_nil <$> ls) =
      Ok (rs', head_time <$> (drop_time tm <$> ls), is_nil <$> (drop_time tm <$> ls)) ∧
    Forall2 Rep rs' (drop_time tm <$> ls) ∧
    Forall2 (fun r r' => (depth r' <= depth r)%nat) rs rs'.
Proof.
  intros Hd Hdep HR. induction HR as [|r l rs ls Hr HR IH].
  { exists []. split; [done|]. split; constructor. }
  apply Forall_cons_1 in Hdep as [Hdr Hdep].
  destruct (skip_one_Rep d tm r l Hd Hdr Hr) as (r' & E & Hr' & Hdr').
  destruct (IH Hdep) as (rs' & E' & HR' & Hdep').
  exists (r' :: rs'). split; [|split; by constructor].
  cbn [skip_readers fmap list_fmap] in *. rewrite E, bind_Ok, E', bind_Ok. done.
Qed.

Lemma depth_all_insert rs i c c' :
  rs !! i = Some c → (depth c' <= depth c)%nat → (depth_all (<[i:=c']> rs) <= depth_all rs)%nat.
Proof.
  unfold depth_all. revert i. induction rs as [|r rs IH]; intros [|i] Hi Hc; try done.
  - injection Hi as ->. cbn. lia.
  - change (<[S i:=c']> (r :: rs)) with (r :: <[i:=c']> rs). cbn [foldr].
    specialize (IH i Hi Hc). lia.
Qed.

Lemma merge_ops d n rs mn mx ls :
  ops_upto d → Forall (fun r => (depth r < d)%nat) rs →
  Forall2 Rep rs ls → Forall (sorted_by time) ls →
  Forall (Forall (fun m => mn <= time m <= mx ∧ time m < MAX_TIME)) ls →
  Z.of_nat (length (concat ls)) <= n →
  ops_ok (S d) (MergeSortCursor n rs (head_time <$> ls) (is_nil <$> ls) mn mx) (kmerge ls).
Proof.
  intros Hd Hdep HR Hs Hb Hn m0 l0 Ek.
  assert (Hlt : Forall (Forall (fun m => time m < MAX_TIME)) ls).
  { eapply Forall_impl; [exact Hb|]. intros l Hl. eapply Forall_impl; [exact Hl|]. by intros ? [_ ?]. }
  assert (Hne : ¬ Forall (fun l => l = []) ls).
  { intros Hnil. by rewrite (kmerge_nil _ Hnil) in Ek. }
  destruct (min_time_head ls Hlt Hne) as (m & r & Hi & Hle).
  set (i := min_time_loop (head_time <$> ls) 0 MAX_TIME 0) in *.
  rewrite (kmerge_step ls i m r Hs Hi Hle) in Ek. injection Ek as -> <-.
  destruct (Forall2_lookup_r _ _ _ _ _ HR Hi) as (c & Hci & Hc).
  assert (Hdc : (depth c < d)%nat) by (rewrite Forall_lookup in Hdep; by eapply Hdep).
  destruct (Hd c _ Hdc Hc m0 r eq_refl) as (Etop & c' & Enext & Hc' & Hdc').
  cbn [c_top c_readNext]. unfold get_cursor_with_min_time. fold i. rewrite Hci, !bind_Ok.
  split; [done|]. rewrite Enext, bind_Ok.
  rewrite (get_top_time_Rep d c' r Hd ltac:(lia) Hc'), bind_Ok, (Rep_is_end c' r Hc').
  rewrite <- !list_fmap_insert.
  destruct (skip_readers_Rep d (time m0) (<[i:=c']> rs) (<[i:=r]> ls)) as (rs' & E & HR' & Hdep');
    [done| |by apply Forall2_insert|].
  { apply Forall_insert; [done|lia]. }
  rewrite E, bind_Ok.
  assert (Edrop : drop_time (time m0) <$> <[i:=r]> ls = drop_time (time m0) <$> ls).
  { rewrite list_fmap_insert. apply list_insert_id. rewrite list_lookup_fmap, Hi.
    cbn [fmap option_fmap option_map drop_time]. by rewrite Z.eqb_refl. }
  rewrite Edrop in *. eexists. split; [done|]. split.
  - apply Rep_merge; [done| | |].
    + apply Forall_fmap. eapply Forall_impl; [exact Hs|]. intros l. apply drop_time_sorted.
    + apply Forall_fmap. eapply Forall_impl; [exact Hb|]. intros l.
      apply Forall_sublist_of, drop_time_sublist.
    + assert (length (concat (drop_time (time m0) <$> ls)) <= length (concat ls))%nat; [|lia].
      clear. induction ls as [|l ls IH]; cbn; [done|]. rewrite !length_app.
      pose proof (sublist_length _ _ (drop_time_sublist (time m0) l)).
      change (list_fmap _ _ ?f ?l) with (f <$> l). lia.
  - cbn [depth]. apply le_n_S. fold (depth_all rs') (depth_all rs).
    etrans; [by apply depth_all_le|]. by eapply depth_all_insert.
Qed.

Lemma linear_ops d n rs mn mx ls :
  ops_upto d → Forall (fun r => (depth r < d)%nat) rs →
  Forall2 Rep rs ls → Forall (fun l => l ≠ []) ls →
  Forall (Forall (fun m => mn <= time m <= mx)) ls →
  Z.of_nat (length (concat ls)) <= n →
  ops_ok (S d) (LinearCursor n rs mn mx) (concat ls).
Proof.
  intros Hd Hdep HR Hne Hb Hn m0 l0 Ek.
  destruct HR as [|c l rs ls Hc HR]; [done|].
  apply Forall_cons_1 in Hdep as [Hdc Hdep]. apply Forall_cons_1 in Hne as [Hl Hne].
  apply Forall_cons_1 in Hb as [Hbl Hb]. destruct l as [|m l]; [done|].
  cbn in Ek. injection Ek as -> <-.
  destruct (Hd c _ Hdc Hc m0 l eq_refl) as (Etop & c' & Enext & Hc' & Hdc').
  cbn [c_top c_readNext]. split; [done|]. rewrite Enext, bind_Ok.
  eexists. split; [done|]. rewrite (Rep_is_end c' l Hc').
  apply Forall_cons_1 in Hbl as [_ Hbl]. cbn [concat length app] in Hn.
  destruct l as [|m1 l]; cbn [is_nil].
  - split; [|cbn; lia]. apply Rep_linear; [done|done|done|]. cbn in Hn. lia.
  - split; [|cbn; lia]. change ((m1 :: l) ++ concat ls) with (concat ((m1 :: l) :: ls)).
    apply Rep_linear; [by constructor|by constructor|by constructor|]. cbn [concat length app] in *. lia.
Qed.

Lemma ops_upto_all d : ops_upto d.
Proof.
  induction d as [|d IH]; intros c l Hdc Hc; [lia|].
  destruct Hc as [c l Hc|n rs mn mx ls HR Hs Hb Hn|n rs mn mx ls HR Hne Hb Hn].
  - intros m l' ->. cbn [c_top c_readNext]. split; [by eapply rep_top|].
    destruct (rep_next c m l' Hc) as (c' & -> & Hc'). eexists. split; [done|].
    split; [by apply Rep_leaf|done].
  - apply merge_ops; try done. apply depth_all_lt. cbn [depth] in Hdc. unfold depth_all. lia.
  - apply linear_ops; try done. apply depth_all_lt. cbn [depth] in Hdc. unfold depth_all. lia.
Qed.

#[export] Instance cursor_spec : CursorSpec (cursor L).
Proof.
  refine {| rep := Rep |}.
  - intros c l Hc. cbn [is_end cursor_ICursor]. rewrite (Rep_is_end c l Hc). by destruct l.
  - intros c m l Hc. by apply (ops_upto_all (S (depth c)) c _ ltac:(lia) Hc m l).
  - intros c m l Hc.
    destruct (ops_upto_all (S (depth c)) c _ ltac:(lia) Hc m l eq_refl) as (_ & c' & E & Hc' & _).
    by exists c'.
  - intros c l. apply Rep_bounds.
  - intros c l. apply Rep_count.
Defined.

End RepLaws.

(** ** Fresh cursors *)

Section Make.
Context {L : Type} `{CursorSpec L}.

Definition counts (rs : list (cursor L)) : Z := foldr (fun r n => c_count r + n) 0 rs.

Lemma counts_Rep rs ls :
  Forall2 Rep rs ls → 0 <= Z.of_nat (length (concat ls)) <= counts rs.
Proof.
  induction 1 as [|r l rs ls Hr HR IH]; cbn [concat counts foldr]; [done|].
  pose proof (Rep_count r l Hr). rewrite length_app. unfold counts in IH. lia.
Qed.

Lemma readers_count_small rs ls :
  Forall2 Rep rs ls → counts rs < 2 ^ 64 → readers_count rs = counts rs.
Proof.
  intros HR Hc. unfold readers_count.
  assert (Hn : Forall (fun r => 0 <= c_count r) rs).
  { clear Hc. induction HR as [|r l rs ls Hr HR IH]; constructor; [|done].
    pose proof (Rep_count r l Hr). lia. }
  clear HR. enough (E : ∀ a, 0 <= a → a + counts rs < 2 ^ 64 →
    fold_left (fun n r => u64 (n + c_count r)) rs a = a + counts rs) by (rewrite E; lia).
  clear Hc. induction Hn as [|r rs Hr Hn IH]; intros a Ha Hs; cbn [fold_left counts foldr] in *; [lia|].
  fold (counts rs) in *.
  assert (0 <= counts rs) by (clear - Hn; induction Hn; cbn [counts foldr]; [lia|];
    unfold counts in *; lia).
  rewrite wrap_small by lia. rewrite IH by lia. lia.
Qed.

Lemma readers_minTime_le rs r : r ∈ rs → readers_minTime rs <= c_minTime r.
Proof.
  unfold readers_minTime. generalize MAX_TIME as a. induction rs as [|x rs IH]; intros a Hr.
  - by apply elem_of_nil in Hr.
  - assert (Hle : ∀ rs a, fold_left (fun mn r => Z.min mn (c_minTime r)) rs a <= a).
    { clear. induction rs as [|x rs IH]; intros a; cbn; [lia|]. specialize (IH (Z.min a (c_minTime x))). lia. }
    cbn [fold_left]. apply elem_of_cons in Hr as [->|Hr]; [|by apply IH].
    specialize (Hle rs (Z.min a (c_minTime x))). lia.
Qed.

Lemma readers_minTime_ge rs x :
  (∀ r, r ∈ rs → x <= c_minTime r) → x <= MAX_TIME → x <= readers_minTime rs.
Proof.
  unfold readers_minTime. generalize MAX_TIME as a. induction rs as [|y rs IH]; intros a Hr Ha.
  - done.
  - cbn [fold_left]. apply IH; [intros r ?; apply Hr; by right|].
    specialize (Hr y ltac:(by left)). lia.
Qed.

Lemma readers_maxTime_ge rs r : r ∈ rs → c_maxTime r <= readers_maxTime rs.
Proof.
  unfold readers_maxTime. generalize MIN_TIME as a. induction rs as [|x rs IH]; intros a Hr.
  - by apply elem_of_nil in Hr.
  - assert (Hle : ∀ rs a, a <= fold_left (fun mx r => Z.max mx (c_maxTime r)) rs a).
    { clear. induction rs as [|x rs IH]; intros a; cbn; [lia|]. specialize (IH (Z.max a (c_maxTime x))). lia. }
    cbn [fold_left]. apply elem_of_cons in Hr as [->|Hr]; [|by apply IH].
    specialize (Hle rs (Z.max a (c_maxTime x))). lia.
Qed.

Lemma readers_bounds rs ls :
  Forall2 Rep rs ls →
  Forall (Forall (fun m => readers_minTime rs <= time m <= readers_maxTime rs)) ls.
Proof.
  intros HR. apply Forall_lookup. intros i l Hl.
  destruct (Forall2_lookup_r _ _ _ _ _ HR Hl) as (r & Hr & HRr).
  pose proof (readers_minTime_le rs r (list_elem_of_lookup_2 _ _ _ Hr)).
  pose proof (readers_maxTime_ge rs r (list_elem_of_lookup_2 _ _ _ Hr)).
  eapply Forall_impl; [exact (Rep_bounds r l HRr)|]. cbn. lia.
Qed.

Lemma fill_top_times_Rep rs ls :
  Forall2 Rep rs ls → fill_top_times rs = Ok (head_time <$> ls).
Proof.
  induction 1 as [|r l rs ls Hr HR IH]; cbn [fill_top_times]; [done|].
  rewrite (get_top_time_Rep (S (depth r)) r l (ops_upto_all _) ltac:(lia) Hr), bind_Ok.
  by rewrite IH.
Qed.

(** A merging cursor on readers that have something to read. *)
Lemma make_merge_Rep rs ls :
  Forall2 Rep (unpack_merge_readers rs) ls → Forall (fun l => l ≠ []) ls →
  Forall (sorted_by time) ls → Forall (Forall (fun m => time m < MAX_TIME)) ls →
  counts (unpack_merge_readers rs) < 2 ^ 64 →
  ∃ c, make_MergeSortCursor rs = Ok c ∧ Rep c (kmerge ls) ∧
    c_minTime c = readers_minTime (unpack_merge_readers rs) ∧
    c_maxTime c = readers_maxTime (unpack_merge_readers rs) ∧
    c_count c = counts (unpack_merge_readers rs).
Proof.
  intros HR Hne Hs Hlt Hc. unfold make_MergeSortCursor.
  rewrite (fill_top_times_Rep _ _ HR), bind_Ok. eexists. split; [done|].
  rewrite (readers_count_small _ _ HR Hc).
  assert (Est : replicate (length (unpack_merge_readers rs)) false = is_nil <$> ls).
  { rewrite (Forall2_length _ _ _ HR). clear - Hne. induction Hne as [|l ls Hl Hne IH]; [done|].
    cbn. f_equal; [by destruct l|exact IH]. }
  rewrite Est. split; [|done]. apply Rep_merge; [done|done| |].
  - pose proof (readers_bounds _ _ HR) as Hb. rewrite Forall_lookup in *. intros i l Hl.
    specialize (Hb i l Hl). specialize (Hlt i l Hl). rewrite Forall_forall in *.
    intros m Hm. split; [by apply Hb|by apply Hlt].
  - by apply counts_Rep.
Qed.

(** A linear cursor on readers in the order of their first times. *)
Lemma linear_Rep rs ls :
  Forall2 Rep rs ls → Forall (fun l => l ≠ []) ls → counts rs < 2 ^ 64 →
  Rep (LinearCursor (readers_count rs) rs (readers_minTime rs) (readers_maxTime rs)) (concat ls).
Proof.
  intros HR Hne Hc. rewrite (readers_count_small _ _ HR Hc).
  apply Rep_linear; [done|done|by apply readers_bounds|by apply counts_Rep].
Qed.

End Make.

(** ** Properties *)

Lemma unpack_merge_leaves {L} (rs : list L) :
  unpack_merge_readers (Leaf <$> rs) = Leaf <$> rs.
Proof. induction rs as [|r rs IH]; [done|]. cbn. f_equal. exact IH. Qed.

Lemma leaves_Rep {L} `{CursorSpec L} (rs : list L) ls :
  Forall2 rep rs ls → Forall2 Rep (Leaf <$> rs) ls.
Proof. intros HR. apply Forall2_fmap_l. eapply Forall2_impl; [exact HR|]. apply Rep_leaf. Qed.

(** C7: a merging cursor on readers of sorted sequences yields, and then ends, the
    measurements of all of them in strictly ascending order of time; where several
    readers have a measurement with the same time, that of the first reader. *)
Theorem merge_cursor_correct {L} `{CursorSpec L} (rs : list L) ls fuel :
  Forall2 rep rs ls → Forall (fun l => l ≠ []) ls → Forall (sorted_by time) ls →
  Forall (Forall (fun m => time m < MAX_TIME)) ls → counts (Leaf <$> rs) < 2 ^ 64 →
  (length (concat ls) < fuel)%nat →
  ∃ c l, make_MergeSortCursor (Leaf <$> rs) = Ok c ∧ read_to_end fuel c = Ok l ∧
    strictly_by time l ∧ (∀ t, first_at t l = first_at t (concat ls)).
Proof.
  intros HR Hne Hs Hlt Hc Hf. apply leaves_Rep in HR.
  destruct (make_merge_Rep (Leaf <$> rs) ls) as (c & E & Hrep & _);
    rewrite ?unpack_merge_leaves; try done.
  exists c, (kmerge ls). split; [done|]. split.
  - apply read_to_end_rep; [done|]. pose proof (kmerge_length ls). lia.
  - split; [apply kmerge_strict|]. intros t. apply kmerge_first_at.
Qed.

Lemma merge_cursor_correct_witness :
  let m t v := mkMeas 1 t v 0 in
  let a := [m 1 0; m 3 0; m 5 0] in
  let b := [m 2 1; m 3 1; m 9 1] in
  ∃ c l, make_MergeSortCursor (Leaf <$> [FullCursor.make a; FullCursor.make b]) = Ok c ∧
    read_to_end 7 c = Ok l ∧
    strictly_by time l ∧ (∀ t, first_at t l = first_at t (concat [a; b])).
Proof.
  intros m a b. apply (merge_cursor_correct _ [a; b] 7).
  - constructor; [apply (full_make_rep a)|]. constructor; [apply (full_make_rep b)|constructor].
  - by repeat constructor.
  - by repeat constructor.
  - by repeat constructor.
  - by vm_compute.
  - cbn. lia.
Defined.
