(* ===== verification/Colapse.v ===== *)
(** * Collapsing a list of cursors

    [CursorWrapperFactory] of [storage/cursors.cpp]: readers whose time intervals
    overlap are grouped and merged, the others are read one after the other.

    [std::set<size_t>] is an ascending list, [std::map<size_t, positions_set>] a
    list of pairs ascending in the first component; the readers of a group are
    denoted by their positions in the vector. *)

From Stdlib Require Import ZArith Lia Sorting.Sorted.
From stdpp Require Import base numbers list.
From S2P Require Import Prelude Float64 Meas StdSort ICursor FullCursor KMerge Cursors.

Local Open Scope Z_scope.

Definition is_linear_readers {L} `{ICursor L} (r1 r2 : cursor L) : bool :=
  negb (intervalsIntersection (c_minTime r1) (c_maxTime r1) (c_minTime r2) (c_maxTime r2)).

(** [std::set::insert] *)
Fixpoint set_insert (x : nat) (s : list nat) : list nat :=
  match s with
  | [] => [x]
  | y :: s' => if (x <? y)%nat then x :: s else if (x =? y)%nat then s else y :: set_insert x s'
  end.

Definition set_mem (x : nat) (s : list nat) : bool := existsb (Nat.eqb x) s.

(** [overlapped[i].insert(j)] *)
Fixpoint map_insert (i j : nat) (m : list (nat * list nat)) : list (nat * list nat) :=
  match m with
  | [] => [(i, [j])]
  | (k, s) :: m' =>
    if (i <? k)%nat then (i, [j]) :: m
    else if (i =? k)%nat then (k, set_insert j s) :: m'
    else (k, s) :: map_insert i j m'
  end.

(** The loop that looks for the first set with [i] and inserts [j] there. *)
Fixpoint insert_with (i j : nat) (m : list (nat * list nat)) : option (list (nat * list nat)) :=
  match m with
  | [] => None
  | (k, s) :: m' =>
    if set_mem i s then Some ((k, set_insert j s) :: m')
    else m'' ← insert_with i j m'; Some ((k, s) :: m'')
  end.

Record colapse_state := mkColapse {
  overlapped : list (nat * list nat);
  processed_pos : list nat;
  result_readers : list nat;
}.

(** The body of the loop over [j]; [overlap i j] is [!is_linear_readers]. *)
Definition colapse_pair (overlap : nat → nat → bool) (i j : nat)
    (st : colapse_state * bool) : colapse_state * bool :=
  let '(s, have_overlap) := st in
  if negb (i =? j)%nat then
    let is_not_processed := negb (set_mem j (processed_pos s)) in
    if overlap i j && is_not_processed then
      let processed := set_insert j (set_insert i (processed_pos s)) in
      let ov := match insert_with i j (overlapped s) with
                | Some ov => ov
                | None => map_insert i j (overlapped s)
                end in
      (mkColapse ov processed (result_readers s), true)
    else (s, have_overlap)
  else (s, have_overlap).

(** The body of the loop over [i]. *)
Definition colapse_row (overlap : nat → nat → bool) (n : nat) (s : colapse_state) (i : nat)
  : colapse_state :=
  let '(s, have_overlap) :=
    fold_left (fun st j => colapse_pair overlap i j st) (seq 0 n) (s, false) in
  if negb (set_mem i (processed_pos s)) && negb have_overlap
  then mkColapse (overlapped s) (processed_pos s) (result_readers s ++ [i])
  else s.

Definition colapse_positions (overlap : nat → nat → bool) (n : nat) : colapse_state :=
  fold_left (colapse_row overlap n) (seq 0 n) (mkColapse [] [] []).

Section Colapse.
Context {L : Type} `{ICursor L} `{StdSort}.

Definition overlap_of (rv : list (cursor L)) (i j : nat) : bool :=
  match rv !! i, rv !! j with
  | Some a, Some b => negb (is_linear_readers a b)
  | _, _ => false
  end.

Definition at_positions (rv : list (cursor L)) (ps : list nat) : list (cursor L) :=
  omap (fun p => rv !! p) ps.

Fixpoint make_groups (rv : list (cursor L)) (ov : list (nat * list nat))
  : outcome (list (cursor L)) :=
  match ov with
  | [] => Ok []
  | (k, s) :: ov =>
    msr ← make_MergeSortCursor (at_positions rv (k :: s));
    rs ← make_groups rv ov;
    Ok (msr :: rs)
  end.

Definition colapseCursors (readers_list : list (cursor L)) : outcome (cursor L) :=
  let st := colapse_positions (overlap_of readers_list) (length readers_list) in
  msrs ← make_groups readers_list (overlapped st);
  Ok (make_LinearCursor (at_positions readers_list (result_readers st) ++ msrs)).

(** [colapseCursors(const Id2CursorsList &)]: one entry per identifier. *)
Fixpoint colapseCursorsMap (i2r : list (Z * list (cursor L))) : outcome (list (Z * cursor L)) :=
  match i2r with
  | [] => Ok []
  | (i, rs) :: i2r =>
    c ← match rs with [r] => Ok r | _ => colapseCursors rs end;
    l ← colapseCursorsMap i2r;
    Ok ((i, c) :: l)
  end.

End Colapse.

(** All the positions, in the order the resulting readers are put together. *)
Definition placed (st : colapse_state) : list (list nat) :=
  ((fun p => [p]) <$> result_readers st) ++ ((fun '(k, s) => k :: s) <$> overlapped st).

(** ** Sets and maps of positions *)

Lemma set_mem_spec x s : set_mem x s = true ↔ x ∈ s.
Proof.
  unfold set_mem. rewrite existsb_exists. setoid_rewrite Nat.eqb_eq.
  setoid_rewrite <- list_elem_of_In. naive_solver.
Qed.

Lemma set_mem_insert x y s : set_mem x (set_insert y s) = (x =? y)%nat || set_mem x s.
Proof.
  unfold set_mem in *. induction s as [|z s IH]; cbn [set_insert existsb]; [done|].
  destruct (Nat.ltb_spec y z); [done|]. destruct (Nat.eqb_spec y z) as [->|].
  - cbn [existsb]. by destruct (Nat.eqb_spec x z).
  - cbn [existsb]. rewrite IH. by destruct (x =? y)%nat, (x =? z)%nat.
Qed.

(** The sets the algorithm builds are filters of the positions. *)
Lemma set_insert_above x y s :
  (y < x)%nat → set_insert x (y :: s) = y :: set_insert x s.
Proof.
  intros Hlt. cbn [set_insert]. rewrite (proj2 (Nat.ltb_ge _ _)) by lia.
  by rewrite (proj2 (Nat.eqb_neq _ _)) by lia.
Qed.

Lemma set_insert_filter j (f : nat → bool) a len :
  (a <= j < a + len)%nat →
  set_insert j (List.filter f (seq a len)) =
  List.filter (fun p => f p || (p =? j)%nat) (seq a len).
Proof.
  revert a. induction len as [|len IH]; intros a Hj; [lia|]. cbn [seq List.filter].
  destruct (Nat.eqb_spec a j) as [->|Hne].
  - rewrite orb_true_r.
    assert (Ht : List.filter (fun p => f p || (p =? j)%nat) (seq (S j) len) =
                 List.filter f (seq (S j) len)).
    { apply List.filter_ext_in. intros p Hp. apply List.in_seq in Hp.
      rewrite (proj2 (Nat.eqb_neq p j)) by lia. apply orb_false_r. }
    rewrite Ht. destruct (f j).
    + cbn [set_insert]. by rewrite Nat.ltb_irrefl, Nat.eqb_refl.
    + destruct (List.filter f (seq (S j) len)) as [|y s] eqn:E; [done|]. cbn [set_insert].
      assert (Hy : In y (seq (S j) len)) by (apply (List.filter_In f); rewrite E; by left).
      apply List.in_seq in Hy. by rewrite (proj2 (Nat.ltb_lt _ _)) by lia.
  - rewrite orb_false_r. rewrite <- (IH (S a)) by lia.
    destruct (f a); [|done]. by rewrite set_insert_above by lia.
Qed.

(** The map with the non-empty sets [f k]. *)
Definition groups (a len : nat) (f : nat → list nat) : list (nat * list nat) :=
  omap (fun k => match f k with [] => None | s => Some (k, s) end) (seq a len).

Definition upd (f : nat → list nat) (k : nat) (s : list nat) : nat → list nat :=
  fun k' => if (k' =? k)%nat then s else f k'.

Lemma groups_ext a len f g :
  (∀ k, (a <= k < a + len)%nat → f k = g k) → groups a len f = groups a len g.
Proof.
  unfold groups. revert a. induction len as [|len IH]; intros a E; [done|]. cbn.
  rewrite (E a) by lia. rewrite (IH (S a)); [done|]. intros. apply E. lia.
Qed.

Lemma groups_key_ge a len f k s : (k, s) ∈ groups a len f → (a <= k < a + len)%nat ∧ f k = s ∧ s ≠ [].
Proof.
  unfold groups. rewrite list_elem_of_omap. intros (k' & Hk & E).
  apply elem_of_seq in Hk. destruct (f k') as [|y s'] eqn:Ef; [done|].
  injection E as -> <-. done.
Qed.

Lemma groups_cons a len f :
  groups a (S len) f =
  match f a with [] => groups (S a) len f | s => (a, s) :: groups (S a) len f end.
Proof. unfold groups. cbn. by destruct (f a). Qed.

Lemma groups_upd_below a len f k s :
  (k < a)%nat → groups a len (upd f k s) = groups a len f.
Proof.
  intros Hk. apply groups_ext. intros k' Hk'. unfold upd.
  by rewrite (proj2 (Nat.eqb_neq _ _)) by lia.
Qed.

Lemma set_insert_not_nil j s : set_insert j s ≠ [].
Proof.
  intros E. apply (f_equal (set_mem j)) in E. by rewrite set_mem_insert, Nat.eqb_refl in E.
Qed.

Lemma groups_upd_here a len f s :
  s ≠ [] → groups a (S len) (upd f a s) = (a, s) :: groups (S a) len f.
Proof.
  intros Hs. rewrite groups_cons, groups_upd_below by lia. unfold upd.
  rewrite Nat.eqb_refl. by destruct s.
Qed.

Lemma map_insert_groups k j a len f :
  (a <= k < a + len)%nat →
  map_insert k j (groups a len f) = groups a len (upd f k (set_insert j (f k))).
Proof.
  revert a. induction len as [|len IH]; intros a Hk; [lia|]. rewrite groups_cons.
  destruct (Nat.eqb_spec a k) as [->|Hne].
  - rewrite groups_upd_here by apply set_insert_not_nil. destruct (f k) as [|y s] eqn:Ef.
    + destruct (groups (S k) len f) as [|[k' s'] m] eqn:Em; [done|].
      assert (Hk' : (k', s') ∈ groups (S k) len f) by (rewrite Em; by left).
      apply groups_key_ge in Hk' as [Hk' _]. cbn [map_insert].
      by rewrite (proj2 (Nat.ltb_lt _ _)) by lia.
    + cbn [map_insert]. by rewrite Nat.ltb_irrefl, Nat.eqb_refl.
  - rewrite groups_cons, <- (IH (S a)) by lia. unfold upd at 1.
    rewrite (proj2 (Nat.eqb_neq _ _)) by done.
    destruct (f a) as [|y s]; [done|]. cbn [map_insert].
    rewrite (proj2 (Nat.ltb_ge _ _)) by lia. by rewrite (proj2 (Nat.eqb_neq _ _)) by lia.
Qed.

Lemma insert_with_groups i j k a len f :
  (a <= k < a + len)%nat → set_mem i (f k) = true →
  (∀ k', (a <= k' < k)%nat → set_mem i (f k') = false) →
  insert_with i j (groups a len f) = Some (groups a len (upd f k (set_insert j (f k)))).
Proof.
  revert a. induction len as [|len IH]; intros a Hk Hi Hno; [lia|]. rewrite groups_cons.
  destruct (Nat.eqb_spec a k) as [->|Hne].
  - rewrite groups_upd_here by apply set_insert_not_nil.
    destruct (f k) as [|y s] eqn:Ef; [done|]. cbn [insert_with]. by rewrite Hi.
  - rewrite groups_cons. unfold upd at 1. rewrite (proj2 (Nat.eqb_neq _ _)) by done.
    specialize (IH (S a) ltac:(lia) Hi ltac:(intros; apply Hno; lia)).
    specialize (Hno a ltac:(lia)).
    destruct (f a) as [|y s]; [done|]. cbn [insert_with]. by rewrite Hno, IH.
Qed.

Lemma insert_with_groups_none i j a len f :
  (∀ k, (a <= k < a + len)%nat → set_mem i (f k) = false) →
  insert_with i j (groups a len f) = None.
Proof.
  revert a. induction len as [|len IH]; intros a Hno; [done|]. rewrite groups_cons.
  specialize (IH (S a) ltac:(intros; apply Hno; lia)). specialize (Hno a ltac:(lia)).
  destruct (f a) as [|y s]; [done|]. cbn [insert_with]. by rewrite Hno, IH.
Qed.

(** ** Readers in the order of their first times

    Then the readers fall into contiguous runs connected by overlaps; a reader
    that overlaps no other stays alone and every longer run becomes one group. *)

Section Sorted.
Variable n : nat.
Variables mn mx : nat → Z.
Variable overlap : nat → nat → bool.
Hypothesis mn_sorted : ∀ i j, (i < j < n)%nat → mn i <= mn j.
Hypothesis overlap_lr : ∀ i j, (i < j < n)%nat → overlap i j = (mn j <=? mx i).
Hypothesis overlap_rl : ∀ i j, (i < j < n)%nat → overlap j i = (mn j <=? mx i).

(** The first position of the run of [i]. *)
Fixpoint run (i : nat) : nat :=
  match i with
  | O => O
  | S i' => if existsb (fun p => mn (S i') <=? mx p) (seq 0 (S i')) then run i' else S i'
  end.

Lemma run_le i : (run i <= i)%nat.
Proof. induction i as [|i IH]; cbn [run]; [done|]. destruct (existsb _ _); lia. Qed.

Lemma run_start i : run i ≠ i → ∃ p, (p < i)%nat ∧ mn i <= mx p.
Proof.
  destruct i as [|i]; [done|]. cbn [run]. destruct (existsb _ _) eqn:E; [|done]. intros _.
  apply existsb_exists in E as (p & Hp & E). apply List.in_seq in Hp. apply Z.leb_le in E.
  exists p. split; [lia|done].
Qed.

Lemma run_first i p : run i = i → (p < i)%nat → mx p < mn i.
Proof.
  destruct i as [|i]; [lia|]. cbn [run]. destruct (existsb _ _) eqn:E.
  - pose proof (run_le i). lia.
  - intros _ Hp. apply Z.lt_nge. intros Hle. apply not_true_iff_false in E. apply E.
    apply existsb_exists. exists p. split; [apply List.in_seq; lia|by apply Z.leb_le].
Qed.

Lemma run_step i p : (p <= i)%nat → mn (S i) <= mx p → run (S i) = run i.
Proof.
  intros Hp Hle. cbn [run].
  assert (existsb (fun p => mn (S i) <=? mx p) (seq 0 (S i)) = true) as ->; [|done].
  apply existsb_exists. exists p. split; [apply List.in_seq; lia|by apply Z.leb_le].
Qed.

(** Overlapping readers belong to the same run. *)
Lemma run_overlap i j : (i < j < n)%nat → mn j <= mx i → run j = run i.
Proof.
  intros Hij Hle. assert (Hall : ∀ d, (i + d <= j)%nat → run (i + d)%nat = run i).
  { induction d as [|d IH]; intros Hd; [by rewrite Nat.add_0_r|].
    rewrite Nat.add_succ_r. rewrite (run_step _ i); [apply IH; lia|lia|].
    destruct (Nat.eq_dec (S (i + d)) j) as [<-|]; [done|].
    pose proof (mn_sorted (S (i + d)) j ltac:(lia)). lia. }
  rewrite <- (Hall (j - i)%nat) by lia. f_equal. lia.
Qed.

Lemma run_idem i : run (run i) = run i.
Proof.
  induction i as [|i IH]; [done|]. cbn [run]. destruct (existsb _ _) eqn:E; [done|].
  cbn [run]. by rewrite E.
Qed.

Lemma run_mono i j : (i <= j)%nat → (run i <= run j)%nat.
Proof.
  intros Hij. induction Hij as [|j Hij IH]; [done|]. cbn [run].
  destruct (existsb _ _); [done|]. pose proof (run_le i). lia.
Qed.

(** The intervals of different runs are apart. *)
Lemma run_apart i j : (i < j < n)%nat → run i ≠ run j → mx i < mn j.
Proof.
  intros Hij Hne. pose proof (run_mono i j ltac:(lia)) as Hm. pose proof (run_le j) as Hj.
  assert (Hlt : (i < run j)%nat).
  { destruct (Nat.lt_ge_cases i (run j)) as [?|Hge]; [done|exfalso].
    pose proof (run_mono (run j) i Hge) as Hm2. rewrite run_idem in Hm2. lia. }
  pose proof (run_first (run j) i (run_idem j) Hlt) as Hfst.
  destruct (Nat.eq_dec (run j) j) as [E|E]; [by rewrite E in Hfst|].
  pose proof (mn_sorted (run j) j ltac:(lia)). lia.
Qed.

Definition ov (i j : nat) : Prop := overlap i j = true.

Lemma ov_run i j : (i < n)%nat → (j < n)%nat → i ≠ j → ov i j → run j = run i.
Proof.
  unfold ov. intros Hi Hj Hne H. destruct (Nat.lt_trichotomy i j) as [?|[?|?]]; [|done|].
  - rewrite overlap_lr in H by lia. apply run_overlap; [lia|by apply Z.leb_le].
  - rewrite overlap_rl in H by lia. symmetry. apply run_overlap; [lia|by apply Z.leb_le].
Qed.

Lemma ov_sym i j : (i < n)%nat → (j < n)%nat → i ≠ j → ov i j → ov j i.
Proof.
  unfold ov. intros Hi Hj Hne H. destruct (Nat.lt_trichotomy i j) as [?|[?|?]]; [|done|].
  - rewrite overlap_rl by lia. by rewrite overlap_lr in H by lia.
  - rewrite overlap_lr by lia. by rewrite overlap_rl in H by lia.
Qed.

(** An interval between two overlapping ones overlaps the first. *)
Lemma ov_between i' i j : (i' < i)%nat → (i < j < n)%nat → ov i' j → ov i' i.
Proof.
  unfold ov. intros H1 H2. rewrite !overlap_lr by lia. rewrite !Z.leb_le.
  pose proof (mn_sorted i j ltac:(lia)). lia.
Qed.

(** *** The loop invariant *)

Definition has_overlap (p : nat) : Prop := ∃ q, (q < n)%nat ∧ q ≠ p ∧ ov p q.

(** The processed positions before column [j] of row [i]. *)
Definition processed_at (i j p : nat) : Prop :=
  (p < n)%nat ∧
  (((p < i)%nat ∧ has_overlap p) ∨ (∃ i', (i' < i)%nat ∧ i' ≠ p ∧ ov i' p) ∨
   ((p < j)%nat ∧ p ≠ i ∧ ov i p) ∨ (p = i ∧ ∃ q, (q < j)%nat ∧ q ≠ i ∧ ov i q)).

(** The members of the run [k] among the processed positions, without [k]. *)
Definition members (P : list nat) (k : nat) : list nat :=
  List.filter (fun p => set_mem p P && (run p =? k)%nat && negb (p =? k)%nat) (seq 0 n).

Record loop_inv (i j : nat) (st : colapse_state * bool) : Prop := {
  li_processed : ∀ p, set_mem p (processed_pos (fst st)) = true ↔ processed_at i j p;
  li_overlapped : overlapped (fst st) = groups 0 n (members (processed_pos (fst st)));
  li_have : snd st = true → set_mem i (processed_pos (fst st)) = true;
}.

Lemma processed_at_col i j p :
  (i < n)%nat → (j < n)%nat → i ≠ j → ov i j →
  processed_at i (S j) p ↔ processed_at i j p ∨ p = i ∨ p = j.
Proof.
  intros Hi Hj Hne Hov. unfold processed_at. split.
  - intros (Hp & [H|[H|[(H1 & H2 & H3)|(-> & q & Hq)]]]); [tauto|tauto| |tauto].
    destruct (Nat.eq_dec p j); [tauto|]. left. split; [done|].
    right; right; left. split; [lia|done].
  - intros [(Hp & [H|[H|[(H1 & H2 & H3)|(-> & q & H1 & H2)]]])|[->| ->]].
    + tauto.
    + tauto.
    + split; [done|]. right; right; left. split; [lia|done].
    + split; [done|]. right; right; right. split; [done|]. exists q. split; [lia|done].
    + split; [done|]. right; right; right. split; [done|]. exists j. split; [lia|done].
    + split; [done|]. right; right; left. split; [lia|]. split; [lia|done].
Qed.

Lemma processed_at_skip i j p :
  (i = j ∨ ¬ ov i j) → processed_at i (S j) p ↔ processed_at i j p.
Proof.
  intros Hs. unfold processed_at. split.
  - intros (Hp & [H|[H|[(H1 & H2 & H3)|(-> & q & H1 & H2 & H3)]]]); [tauto|tauto| |].
    + split; [done|]. right; right; left. destruct (Nat.eq_dec p j) as [->|]; [|split; [lia|done]].
      destruct Hs; [lia|done].
    + split; [done|]. right; right; right. split; [done|]. exists q.
      destruct (Nat.eq_dec q j) as [->|]; [|split; [lia|done]]. destruct Hs; [lia|done].
  - intros (Hp & [H|[H|[(H1 & H2 & H3)|(-> & q & H1 & H2)]]]); [tauto|tauto| |].
    + split; [done|]. right; right; left. split; [lia|done].
    + split; [done|]. right; right; right. split; [done|]. exists q. split; [lia|done].
Qed.

(** Once a partner of [i] is processed, so is [i]. *)
Lemma processed_at_partner i j :
  (i < n)%nat → i ≠ j → ov i j → processed_at i j j → processed_at i j i.
Proof.
  intros Hi Hne Hov (Hj & H). split; [done|]. right; left.
  destruct H as [(H & _)|[(i' & H1 & H2 & H3)|[(H & _)|(H & _)]]]; [|..|lia|lia].
  - exists j. split; [lia|]. split; [lia|]. by apply ov_sym.
  - destruct (Nat.lt_ge_cases j i) as [?|?].
    + exists j. split; [lia|]. split; [lia|]. by apply ov_sym.
    + exists i'. split; [lia|]. split; [lia|]. by apply (ov_between i' i j); [lia|lia|].
Qed.

Lemma set_mem_members x P k :
  set_mem x (members P k) = true ↔ set_mem x P = true ∧ (x < n)%nat ∧ run x = k ∧ x ≠ k.
Proof.
  unfold members. rewrite set_mem_spec, list_elem_of_In, List.filter_In, List.in_seq.
  rewrite !andb_true_iff, negb_true_iff, Nat.eqb_eq, Nat.eqb_neq. split.
  - intros (? & (? & ?) & ?). split_and!; done || lia.
  - intros (? & ? & ? & ?). split_and!; done || lia.
Qed.

(** Adding [i] and a later partner [j] extends the set of their run. *)
Lemma members_insert i j P :
  (i < j < n)%nat → run j = run i → (run i = i ∨ set_mem i P = true) →
  groups 0 n (upd (members P) (run i) (set_insert j (members P (run i)))) =
  groups 0 n (members (set_insert j (set_insert i P))).
Proof.
  intros Hij Hrun Hi. pose proof (run_le i) as Hle.
  apply groups_ext. intros k Hk. unfold upd.
  assert (Hmem : ∀ p, set_mem p (set_insert j (set_insert i P)) =
    (p =? j)%nat || ((p =? i)%nat || set_mem p P)) by (intros; by rewrite !set_mem_insert).
  destruct (Nat.eqb_spec k (run i)) as [->|Hne]; unfold members.
  - rewrite set_insert_filter by lia. apply List.filter_ext. intros p. rewrite Hmem.
    destruct (Nat.eqb_spec p j) as [->|Hpj]; cbn [orb].
    + rewrite orb_true_r, Hrun, Nat.eqb_refl.
      by rewrite (proj2 (Nat.eqb_neq j (run i))) by lia.
    + rewrite orb_false_r. destruct (Nat.eqb_spec p i) as [->|]; cbn [orb]; [|done].
      destruct Hi as [Hi| ->]; [|done]. rewrite Hi, Nat.eqb_refl. by rewrite !andb_false_r.
  - apply List.filter_ext. intros p. rewrite Hmem.
    destruct (Nat.eqb_spec p j) as [->|Hpj]; cbn [orb].
    { rewrite Hrun. by rewrite (proj2 (Nat.eqb_neq (run i) k)), !andb_false_r by lia. }
    destruct (Nat.eqb_spec p i) as [->|]; cbn [orb]; [|done].
    by rewrite (proj2 (Nat.eqb_neq (run i) k)), !andb_false_r by lia.
Qed.

Lemma overlapped_insert i j P :
  (i < j < n)%nat → run j = run i → (run i = i ∨ set_mem i P = true) →
  match insert_with i j (groups 0 n (members P)) with
  | Some m => m
  | None => map_insert i j (groups 0 n (members P))
  end = groups 0 n (members (set_insert j (set_insert i P))).
Proof.
  intros Hij Hrun Hi. pose proof (run_le i). rewrite <- members_insert by done.
  destruct (Nat.eq_dec (run i) i) as [E|E].
  - rewrite insert_with_groups_none.
    + rewrite E. by rewrite map_insert_groups by lia.
    + intros k _. apply not_true_iff_false. rewrite set_mem_members. lia.
  - destruct Hi as [?|Hi]; [done|]. rewrite (insert_with_groups i j (run i)); [done|lia| |].
    + apply set_mem_members. split_and!; [done|lia|done|lia].
    + intros k Hk. apply not_true_iff_false. rewrite set_mem_members. lia.
Qed.

Lemma colapse_pair_inv i j st :
  (i < n)%nat → (j < n)%nat → loop_inv i j st → loop_inv i (S j) (colapse_pair overlap i j st).
Proof.
  intros Hi Hj [Hp Ho Hh]. destruct st as [s have]. cbn [fst snd] in *. unfold colapse_pair.
  destruct (Nat.eqb_spec i j) as [E|E]; cbn [negb].
  { split; cbn [fst snd]; [|done|done]. intros p. rewrite Hp. symmetry. apply processed_at_skip.
    by left. }
  destruct (overlap i j) eqn:Eov; cbn [andb].
  2:{ split; cbn [fst snd]; [|done|done]. intros p. rewrite Hp. symmetry. apply processed_at_skip.
      right. unfold ov. by rewrite Eov. }
  pose proof (fun p => processed_at_col i j p Hi Hj E Eov) as Hcol.
  destruct (set_mem j (processed_pos s)) eqn:Ej; cbn [negb].
  - split; cbn [fst snd]; [|done|done]. intros p. rewrite Hp, Hcol.
    apply Hp in Ej. pose proof (processed_at_partner i j Hi E Eov Ej). naive_solver.
  - assert (Hij : (i < j)%nat).
    { destruct (Nat.lt_ge_cases i j) as [?|?]; [done|exfalso].
      apply not_true_iff_false in Ej. apply Ej, Hp. split; [done|]. left. split; [lia|].
      exists i. split; [done|]. split; [lia|]. by apply ov_sym. }
    assert (Hrun : run j = run i) by (by apply ov_run).
    assert (Hdone : run i = i ∨ set_mem i (processed_pos s) = true).
    { destruct (Nat.eq_dec (run i) i) as [?|Hr]; [by left|right]. apply Hp.
      destruct (run_start i Hr) as (q & Hq & Hle). split; [done|]. right; left.
      exists q. split; [done|]. split; [lia|]. unfold ov. rewrite overlap_lr by lia.
      by apply Z.leb_le. }
    split; cbn [fst snd overlapped processed_pos].
    + intros p. rewrite !set_mem_insert, Hcol, !orb_true_iff, !Nat.eqb_eq, Hp. tauto.
    + rewrite Ho. by apply overlapped_insert.
    + intros _. rewrite !set_mem_insert, Nat.eqb_refl. by rewrite orb_true_r.
Qed.

Lemma colapse_cols_inv i st d a :
  (i < n)%nat → (a + d = n)%nat → loop_inv i a st →
  loop_inv i n (fold_left (fun st j => colapse_pair overlap i j st) (seq a d) st).
Proof.
  intros Hi. revert a st. induction d as [|d IH]; intros a st Ha HI.
  - rewrite Nat.add_0_r in Ha. by subst a.
  - cbn [seq fold_left]. apply IH; [lia|]. apply colapse_pair_inv; [done|lia|done].
Qed.

(** The loop over [j] does not touch the readers that stay alone. *)
Lemma colapse_cols_result i js st :
  result_readers (fst (fold_left (fun st j => colapse_pair overlap i j st) js st)) =
  result_readers (fst st).
Proof.
  revert st. induction js as [|j js IH]; intros st; [done|]. cbn [fold_left]. rewrite IH.
  destruct st as [s h]. unfold colapse_pair. by case_ifs.
Qed.

Definition has_overlapb (p : nat) : bool :=
  existsb (fun q => negb (q =? p)%nat && overlap p q) (seq 0 n).

Lemma has_overlapb_spec p : has_overlapb p = true ↔ has_overlap p.
Proof.
  unfold has_overlapb, has_overlap, ov. rewrite existsb_exists. split.
  - intros (q & Hq%List.in_seq & [Hne H]%andb_true_iff).
    apply negb_true_iff, Nat.eqb_neq in Hne. exists q. split; [lia|done].
  - intros (q & Hq & Hne & H). exists q. split; [apply List.in_seq; lia|].
    apply andb_true_iff. split; [|done]. by apply negb_true_iff, Nat.eqb_neq.
Qed.

Definition row_inv (i : nat) (s : colapse_state) : Prop :=
  loop_inv i 0 (s, false) ∧
  result_readers s = List.filter (fun p => negb (has_overlapb p)) (seq 0 i).

Lemma processed_at_row i p :
  (i < n)%nat → processed_at i n p ↔ processed_at (S i) 0 p.
Proof.
  intros Hi. unfold processed_at. split.
  - intros (Hp & [[H1 H2]|[(q & H1 & H2)|[(H1 & H2 & H3)|(-> & q & H1 & H2)]]]); split; try done.
    + left. split; [lia|done].
    + right; left. exists q. split; [lia|done].
    + right; left. exists i. split; [lia|]. split; [lia|done].
    + left. split; [lia|]. by exists q.
  - intros (Hp & [[H1 H2]|[(q & H1 & H2 & H3)|[(H1 & H2 & H3)|(-> & q & H1 & H2)]]]); split; try done; [| |lia|lia].
    + destruct (Nat.eq_dec p i) as [->|]; [|left; split; [lia|done]].
      right; right; right. split; [done|]. destruct H2 as (q & ? & ? & ?). by exists q.
    + destruct (Nat.eq_dec q i) as [->|].
      * right; right; left. split; [done|]. split; [lia|done].
      * right; left. exists q. split; [lia|done].
Qed.

Lemma colapse_row_inv i s : (i < n)%nat → row_inv i s → row_inv (S i) (colapse_row overlap n s i).
Proof.
  intros Hi [HI Hres]. unfold colapse_row.
  pose proof (colapse_cols_inv i (s, false) n 0 Hi eq_refl HI) as [Hp Ho Hh].
  pose proof (colapse_cols_result i (seq 0 n) (s, false)) as Hr.
  destruct (fold_left _ (seq 0 n) (s, false)) as [s1 have]. cbn [fst snd] in *.
  assert (Hsing : negb (set_mem i (processed_pos s1)) && negb have = negb (has_overlapb i)).
  { destruct (set_mem i (processed_pos s1)) eqn:Ei; cbn [negb andb].
    - symmetry. apply negb_false_iff, has_overlapb_spec. apply Hp in Ei as [_ Hcase].
      destruct Hcase as [[? _]|[(q & H1 & H2 & H3)|[(_ & ? & _)|(_ & q & H1 & H2 & H3)]]]; [lia| |done|].
      + exists q. split; [lia|]. split; [lia|]. apply ov_sym; [lia|done|lia|done].
      + by exists q.
    - destruct have; [by specialize (Hh eq_refl)|]. cbn [negb]. symmetry.
      apply negb_true_iff, not_true_iff_false. rewrite has_overlapb_spec.
      intros (q & H1 & H2 & H3). apply not_true_iff_false in Ei. apply Ei, Hp.
      split; [done|]. right; right; right. split; [done|]. by exists q. }
  unfold row_inv. rewrite Hsing, seq_S, Hr, Hres, List.filter_app. cbn [Nat.add List.filter].
  assert (Hinv : ∀ r, loop_inv (S i) 0 (mkColapse (overlapped s1) (processed_pos s1) r, false)).
  { intros r. split; cbn [fst snd overlapped processed_pos]; [|done|done]. intros p. rewrite Hp. by apply processed_at_row. }
  destruct (negb (has_overlapb i)); cbn [result_readers].
  - split; [apply Hinv|done].
  - split; [destruct s1 as [o1 p1 r1]; cbn in *; apply Hinv|]. rewrite app_nil_r. congruence.
Qed.

(** The outcome: the readers without an overlap alone, and one group per run. *)
Lemma colapse_positions_result :
  let st := colapse_positions overlap n in
  result_readers st = List.filter (fun p => negb (has_overlapb p)) (seq 0 n) ∧
  overlapped st = groups 0 n (fun k =>
    List.filter (fun p => has_overlapb p && (run p =? k)%nat && negb (p =? k)%nat) (seq 0 n)).
Proof.
  assert (Hrow : row_inv n (colapse_positions overlap n)).
  { unfold colapse_positions.
    assert (H0 : row_inv 0 (mkColapse [] [] [])).
    { split; [|done]. split; cbn; [|symmetry|done].
      - intros p. split; [done|]. intros (_ & [[? _]|[(q & ? & _)|[(? & _)|(_ & q & ? & _)]]]); lia.
      - assert (E : ∀ k, members [] k = []).
        { intros k. unfold members. cbn. generalize (seq 0 n) as l. induction l; cbn; auto. }
        rewrite (groups_ext 0 n (members []) (fun _ => [])) by (intros; apply E).
        unfold groups. generalize (seq 0 n) as l. induction l as [|x l IH]; cbn; auto. }
    assert (Hgen : ∀ d a s, (a + d = n)%nat → row_inv a s →
      row_inv n (fold_left (colapse_row overlap n) (seq a d) s)).
    { induction d as [|d IH]; intros a s Ha Hs.
      - rewrite Nat.add_0_r in Ha. by subst a.
      - cbn [seq fold_left]. apply IH; [lia|]. apply colapse_row_inv; [lia|done]. }
    by apply Hgen. }
  destruct Hrow as [[Hp Ho _] Hres]. cbn [fst snd] in *. split; [done|]. rewrite Ho.
  apply groups_ext. intros k _. unfold members. apply List.filter_ext_in.
  intros p Hpn%List.in_seq. f_equal. f_equal. apply eq_true_iff_eq. rewrite Hp, has_overlapb_spec.
  unfold processed_at. split.
  - intros (_ & [[_ H]|[(q & H1 & H2 & H3)|[(? & _)|(-> & _)]]]); [done| |lia|lia].
    exists q. split; [lia|]. split; [lia|]. apply ov_sym; [lia..|done].
  - intros H. split; [lia|]. left. split; [lia|done].
Qed.

(** *** The groups are the runs *)

Definition run_members (k : nat) : list nat :=
  List.filter (fun p => (run p =? k)%nat) (seq 0 n).

Definition starts (b : bool) : list nat :=
  List.filter (fun k => (run k =? k)%nat && Bool.eqb (has_overlapb k) b) (seq 0 n).

Lemma no_overlap_start p : (p < n)%nat → has_overlapb p = false → run p = p.
Proof.
  intros Hp Hno. destruct (Nat.eq_dec (run p) p) as [?|Hr]; [done|exfalso].
  apply not_true_iff_false in Hno. apply Hno, has_overlapb_spec.
  destruct (run_start p Hr) as (q & Hq & Hle). exists q. split; [lia|]. split; [lia|].
  unfold ov. rewrite overlap_rl by lia. by apply Z.leb_le.
Qed.

(** The positions of a run after its first. *)
Lemma run_members_cons k :
  (k < n)%nat → run k = k →
  run_members k =
  k :: List.filter (fun p => has_overlapb p && (run p =? k)%nat && negb (p =? k)%nat) (seq 0 n).
Proof.
  intros Hk Hr. unfold run_members.
  replace (seq 0 n) with (seq 0 k ++ k :: seq (S k) (n - S k)).
  2:{ replace n with (k + S (n - S k))%nat at 2 by lia. by rewrite seq_app. }
  rewrite !List.filter_app. cbn [List.filter]. rewrite Hr, Nat.eqb_refl. cbn [negb].
  rewrite andb_false_r.
  assert (Hbelow : ∀ f, List.filter (fun p => f p && (run p =? k)%nat) (seq 0 k) = []).
  { intros f. destruct (List.filter _ (seq 0 k)) as [|x l] eqn:E; [done|exfalso].
    assert (Hx : In x (List.filter (fun p => f p && (run p =? k)%nat) (seq 0 k))) by (rewrite E; by left).
    apply List.filter_In in Hx as [Hx%List.in_seq [_ Hx2]%andb_true_iff].
    apply Nat.eqb_eq in Hx2. pose proof (run_le x). lia. }
  rewrite (Hbelow (fun _ => true) : List.filter (fun p => (run p =? k)%nat) (seq 0 k) = []).
  rewrite (List.filter_ext (fun p => has_overlapb p && (run p =? k)%nat && negb (p =? k)%nat)
    (fun p => (has_overlapb p && negb (p =? k)%nat) && (run p =? k)%nat)).
  2:{ intros p. by destruct (has_overlapb p), (run p =? k)%nat, (p =? k)%nat. }
  rewrite (Hbelow (fun p => has_overlapb p && negb (p =? k)%nat)). cbn [app]. f_equal.
  apply List.filter_ext_in. intros p Hp%List.in_seq.
  destruct (Nat.eqb_spec (run p) k) as [E|]; [|by rewrite andb_false_r].
  rewrite (proj2 (Nat.eqb_neq p k)) by lia. rewrite !andb_true_r.
  destruct (has_overlapb p) eqn:Eo; [done|]. apply no_overlap_start in Eo; lia.
Qed.

Lemma run_members_alone p :
  (p < n)%nat → has_overlapb p = false → run_members p = [p].
Proof.
  intros Hp Hno. rewrite run_members_cons by (done || by apply no_overlap_start). f_equal.
  destruct (List.filter _ _) as [|q l] eqn:E; [done|exfalso].
  assert (Hq : In q (List.filter (fun q => has_overlapb q && (run q =? p)%nat && negb (q =? p)%nat)
    (seq 0 n))) by (rewrite E; by left).
  apply List.filter_In in Hq as [Hq%List.in_seq Hb].
  rewrite !andb_true_iff, negb_true_iff, Nat.eqb_eq, Nat.eqb_neq in Hb.
  destruct Hb as ((_ & Hr) & Hne). pose proof (run_le q).
  assert (HS : run (S p) = p).
  { pose proof (run_mono (S p) q ltac:(lia)). pose proof (run_mono p (S p) ltac:(lia)).
    rewrite (no_overlap_start p Hp Hno) in *. lia. }
  destruct (run_start (S p) ltac:(lia)) as (x & Hx & Hle).
  apply not_true_iff_false in Hno. apply Hno, has_overlapb_spec.
  destruct (Nat.eq_dec x p) as [->|].
  - exists (S p). split; [lia|]. split; [lia|]. unfold ov. rewrite overlap_lr by lia.
    by apply Z.leb_le.
  - exists x. split; [lia|]. split; [lia|]. unfold ov. rewrite overlap_rl by lia.
    apply Z.leb_le. pose proof (mn_sorted p (S p) ltac:(lia)). lia.
Qed.

Lemma result_readers_starts :
  result_readers (colapse_positions overlap n) = starts false.
Proof.
  destruct colapse_positions_result as [-> _]. apply List.filter_ext_in.
  intros p Hp%List.in_seq. destruct (has_overlapb p) eqn:E; [by rewrite andb_false_r|].
  rewrite (no_overlap_start p) by (done || lia). by rewrite Nat.eqb_refl.
Qed.

(** The entry of a run in the map, if it has one. *)
Lemma group_entry k :
  (k < n)%nat →
  match List.filter (fun p => has_overlapb p && (run p =? k)%nat && negb (p =? k)%nat) (seq 0 n) with
  | [] => (run k =? k)%nat && Bool.eqb (has_overlapb k) true = false
  | s => (run k =? k)%nat && Bool.eqb (has_overlapb k) true = true ∧ run_members k = k :: s
  end.
Proof.
  intros Hk. set (s := List.filter _ _).
  assert (Hs : ∀ x, In x s ↔ (x < n)%nat ∧ has_overlapb x = true ∧ run x = k ∧ x ≠ k).
  { intros x. unfold s. rewrite List.filter_In, List.in_seq.
    rewrite !andb_true_iff, negb_true_iff, Nat.eqb_eq, Nat.eqb_neq.
    split; [intros (? & (? & ?) & ?)|intros (? & ? & ? & ?)]; split_and!; done || lia. }
  assert (Hm : run k = k → run_members k = k :: s) by (apply run_members_cons; done).
  clearbody s. destruct s as [|x s].
  - destruct (Nat.eqb_spec (run k) k) as [Hr|]; [|done]. cbn [andb].
    destruct (has_overlapb k) eqn:Eo; [exfalso|done].
    pose proof Eo as (q & Hq & Hne & Ho)%has_overlapb_spec.
    apply (Hs q). split_and!; [done| |by rewrite (ov_run k q Hk Hq ltac:(lia) Ho)|done].
    apply has_overlapb_spec. exists k. split; [done|]. split; [lia|].
    apply ov_sym; [done|done|lia|done].
  - destruct (proj1 (Hs x) ltac:(by left)) as (Hx & _ & Hrx & Hne).
    assert (Hr : run k = k) by (rewrite <- Hrx; apply run_idem).
    split; [|by apply Hm]. rewrite Hr, Nat.eqb_refl. cbn [andb].
    destruct (has_overlapb k) eqn:Eo; [done|exfalso].
    specialize (Hm Hr). rewrite (run_members_alone k Hk Eo) in Hm. done.
Qed.

Lemma overlapped_starts :
  (fun '(k, s) => k :: s) <$> overlapped (colapse_positions overlap n) =
  run_members <$> starts true.
Proof.
  destruct colapse_positions_result as [_ ->]. unfold starts, groups.
  assert (Hl : ∀ p, p ∈ seq 0 n → (p < n)%nat) by (intros p ?%elem_of_seq; lia).
  revert Hl. generalize (seq 0 n) at 1 3 4 as l. induction l as [|k l IH]; intros Hl; [done|].
  specialize (IH ltac:(intros; apply Hl; by right)).
  pose proof (group_entry k (Hl k ltac:(by left))) as Hk.
  cbn [omap list_omap List.filter]. change (list_omap _ _ ?f ?l) with (omap f l).
  destruct (List.filter (fun p => has_overlapb p && (run p =? k)%nat && negb (p =? k)%nat) (seq 0 n))
    as [|x s].
  - rewrite Hk. exact IH.
  - destruct Hk as [-> Hm]. rewrite !fmap_cons, Hm. f_equal. exact IH.
Qed.

Lemma placed_runs :
  placed (colapse_positions overlap n) = run_members <$> (starts false ++ starts true).
Proof.
  unfold placed. rewrite result_readers_starts, overlapped_starts, fmap_app. f_equal.
  apply list_fmap_ext. intros i p Hi.
  apply list_elem_of_lookup_2, list_elem_of_In, List.filter_In in Hi as [Hp%List.in_seq Hb].
  apply andb_true_iff in Hb as [_ Hb]. apply eqb_prop in Hb.
  by rewrite run_members_alone by (done || lia).
Qed.

End Sorted.

(** ** The collapsed cursor *)

Lemma intervals_meet a b c d :
  a <= b → c <= d → a <= c → intervalsIntersection a b c d = (c <=? b).
Proof.
  intros H1 H2 H3. apply eq_true_iff_eq. rewrite intervalsIntersection_spec by done.
  rewrite Z.leb_le. split.
  - intros (t & ? & ?). lia.
  - intros H. exists c. lia.
Qed.

Lemma intervals_meet_sym a b c d :
  intervalsIntersection a b c d = intervalsIntersection c d a b.
Proof.
  unfold intervalsIntersection.
  by destruct (inInterval a b c), (inInterval a b d), (inInterval c d a), (inInterval c d b).
Qed.

(** Every position is in exactly one run. *)
Lemma runs_partition (f : nat → nat) (l K : list nat) :
  NoDup K → (∀ p, p ∈ l → f p ∈ K) →
  concat ((fun k => List.filter (fun p => (f p =? k)%nat) l) <$> K) ≡ₚ l.
Proof.
  intros HK. induction l as [|x l IH]; intros Hl.
  - clear. induction K as [|k K IH]; [done|]. exact IH.
  - etrans; [|apply perm_skip, (IH (fun p Hp => Hl p (list_elem_of_further _ _ _ Hp)))].
    specialize (Hl x (list_elem_of_here _ _)). clear IH.
    induction HK as [|k K Hk HK IHK]; [by apply elem_of_nil in Hl|].
    rewrite !fmap_cons. cbn [concat].
    assert (Hhd : ∀ k, List.filter (fun p => (f p =? k)%nat) (x :: l) =
      if (f x =? k)%nat then x :: List.filter (fun p => (f p =? k)%nat) l
      else List.filter (fun p => (f p =? k)%nat) l) by done.
    rewrite (Hhd k). destruct (Nat.eqb_spec (f x) k) as [<-|Hne].
    + cbn [app]. constructor. apply Permutation_app_head.
      match goal with |- concat ?a ≡ₚ concat ?b => assert (a = b) as ->; [|done] end.
      apply list_fmap_ext. intros i k' Hk'. rewrite Hhd. destruct (Nat.eqb_spec (f x) k') as [E|]; [|done].
      exfalso. apply Hk. rewrite E. by eapply list_elem_of_lookup_2.
    + apply elem_of_cons in Hl as [?|Hl]; [done|]. rewrite (IHK Hl).
      apply Permutation_sym, Permutation_middle.
Qed.

Section Positions.
Context {L : Type} `{ICursor L}.
Variable rv : list (cursor L).
Hypothesis rv_sorted : sorted_by c_minTime rv.
Hypothesis rv_intervals : Forall (fun r => c_minTime r <= c_maxTime r) rv.

Definition mn_of (i : nat) : Z := match rv !! i with Some r => c_minTime r | None => 0 end.
Definition mx_of (i : nat) : Z := match rv !! i with Some r => c_maxTime r | None => 0 end.
Abbreviation n := (length rv).

Lemma rv_lookup i : (i < n)%nat → ∃ r, rv !! i = Some r ∧ c_minTime r <= c_maxTime r.
Proof.
  intros Hi. destruct (lookup_lt_is_Some_2 _ _ Hi) as [r Hr]. exists r. split; [done|].
  rewrite Forall_lookup in rv_intervals. by eapply rv_intervals.
Qed.

Lemma mn_of_sorted i j : (i < j < n)%nat → mn_of i <= mn_of j.
Proof.
  intros Hij. unfold mn_of. destruct (rv_lookup i ltac:(lia)) as (a & Ha & _).
  destruct (rv_lookup j ltac:(lia)) as (b & Hb & _). rewrite Ha, Hb.
  exact (StronglySorted_lookup _ _ _ _ _ _ rv_sorted (proj1 Hij) Ha Hb).
Qed.

Lemma overlap_of_lr i j :
  (i < j < n)%nat → overlap_of rv i j = (mn_of j <=? mx_of i).
Proof.
  intros Hij. pose proof (mn_of_sorted i j Hij) as Hs. unfold overlap_of, mn_of, mx_of in *.
  destruct (rv_lookup i ltac:(lia)) as (a & Ha & H1).
  destruct (rv_lookup j ltac:(lia)) as (b & Hb & H2). rewrite Ha, Hb in *.
  unfold is_linear_readers. rewrite negb_involutive. by apply intervals_meet.
Qed.

Lemma overlap_of_rl i j :
  (i < j < n)%nat → overlap_of rv j i = (mn_of j <=? mx_of i).
Proof.
  intros Hij. rewrite <- overlap_of_lr by done. unfold overlap_of.
  destruct (rv !! i), (rv !! j); try done.
  unfold is_linear_readers. f_equal. f_equal. apply intervals_meet_sym.
Qed.

(** The first positions of the runs, in the order of the resulting readers. *)
Definition run_starts : list nat :=
  starts n mn_of mx_of (overlap_of rv) false ++ starts n mn_of mx_of (overlap_of rv) true.

Abbreviation run_of := (run mn_of mx_of).

Lemma starts_elem b k :
  k ∈ starts n mn_of mx_of (overlap_of rv) b ↔
  (k < n)%nat ∧ run_of k = k ∧ has_overlapb n (overlap_of rv) k = b.
Proof.
  unfold starts. rewrite list_elem_of_In, List.filter_In, List.in_seq.
  rewrite andb_true_iff, Nat.eqb_eq, eqb_true_iff. split.
  - intros (? & ? & ?). split_and!; done || lia.
  - intros (? & ? & ?). split_and!; done || lia.
Qed.

Lemma run_starts_elem k : k ∈ run_starts ↔ (k < n)%nat ∧ run_of k = k.
Proof.
  unfold run_starts. rewrite elem_of_app, !starts_elem.
  destruct (has_overlapb n (overlap_of rv) k); intuition congruence.
Qed.

Lemma run_starts_NoDup : NoDup run_starts.
Proof.
  unfold run_starts. apply NoDup_app. split_and!.
  - apply NoDup_ListNoDup, List.NoDup_filter, List.seq_NoDup.
  - intros k Hk1%starts_elem Hk2%starts_elem. intuition congruence.
  - apply NoDup_ListNoDup, List.NoDup_filter, List.seq_NoDup.
Qed.

Lemma placed_run_starts :
  placed (colapse_positions (overlap_of rv) n) = run_members n mn_of mx_of <$> run_starts.
Proof.
  apply placed_runs; [apply mn_of_sorted|apply overlap_of_lr|apply overlap_of_rl].
Qed.

Lemma placed_partition : concat (placed (colapse_positions (overlap_of rv) n)) ≡ₚ seq 0 n.
Proof.
  rewrite placed_run_starts. apply runs_partition; [apply run_starts_NoDup|].
  intros p Hp%elem_of_seq. apply run_starts_elem. pose proof (run_le mn_of mx_of p).
  split; [lia|apply run_idem].
Qed.

Lemma run_members_elem k p : p ∈ run_members n mn_of mx_of k ↔ (p < n)%nat ∧ run_of p = k.
Proof.
  unfold run_members. rewrite list_elem_of_In, List.filter_In, List.in_seq, Nat.eqb_eq. lia.
Qed.

(** Readers of different runs are apart in time, the earlier run first. *)
Lemma runs_apart k k' p q :
  (k < k')%nat → p ∈ run_members n mn_of mx_of k → q ∈ run_members n mn_of mx_of k' →
  mx_of p < mn_of q.
Proof.
  intros Hk [Hp <-]%run_members_elem [Hq <-]%run_members_elem.
  assert (Hpq : (p < q)%nat).
  { destruct (Nat.lt_ge_cases p q) as [?|Hge]; [done|].
    pose proof (run_mono mn_of mx_of q p Hge). lia. }
  apply (run_apart n); [apply mn_of_sorted|lia|lia].
Qed.

End Positions.

(** ** What the collapsed cursor yields *)

Definition lists_at (ls : list (list Meas)) (ps : list nat) : list (list Meas) :=
  omap (fun p => ls !! p) ps.

(** Only the lists with the time matter. *)
Lemma first_at_lists_at t (f : nat → bool) (ls : list (list Meas)) a :
  (∀ i l, ls !! i = Some l → f (a + i)%nat = false → first_at t l = None) →
  first_at t (concat (omap (fun p => ls !! (p - a)%nat) (List.filter f (seq a (length ls))))) =
  first_at t (concat ls).
Proof.
  revert a. induction ls as [|l ls IH]; intros a Hf; [done|].
  cbn [length seq List.filter concat]. rewrite first_at_app.
  assert (Hrest : first_at t (concat (omap (fun p => (l :: ls) !! (p - a)%nat)
    (List.filter f (seq (S a) (length ls))))) = first_at t (concat ls)).
  { rewrite <- (IH (S a)).
    - f_equal. f_equal.
      assert (Hin : ∀ ps : list nat, (∀ p, p ∈ ps → (a < p)%nat) →
        omap (fun p => (l :: ls) !! (p - a)%nat) ps = omap (fun p => ls !! (p - S a)%nat) ps).
      { induction ps as [|p ps IHp]; intros Hp; [done|]. cbn.
        replace (p - a)%nat with (S (p - S a)) by (specialize (Hp p ltac:(by left)); lia).
        cbn. change (list_omap _ _ ?g ?l) with (omap g l).
        rewrite IHp by (intros; apply Hp; by right). done. }
      apply Hin. intros p Hp%list_elem_of_In. apply List.filter_In in Hp as [Hp%List.in_seq _]. lia.
    - intros i l' Hl' Hfi. apply (Hf (S i) l' Hl'). by rewrite Nat.add_succ_r. }
  destruct (f a) eqn:Efa.
  - cbn [omap list_omap]. change (list_omap _ _ ?g ?l) with (omap g l).
    rewrite Nat.sub_diag. cbn [lookup list_lookup]. cbn [concat]. by rewrite first_at_app, Hrest.
  - rewrite Hrest. rewrite (Hf 0%nat l eq_refl); [done|]. by rewrite Nat.add_0_r.
Qed.

(** A time found in one list only is found there. *)
Lemma first_at_concat_one t m Xs :
  (∀ X, X ∈ Xs → first_at t X = None ∨ first_at t X = Some m) →
  (∃ X, X ∈ Xs ∧ first_at t X = Some m) → first_at t (concat Xs) = Some m.
Proof.
  induction Xs as [|X Xs IH]; intros Hall (Y & HY & E); [by apply elem_of_nil in HY|].
  cbn [concat]. rewrite first_at_app.
  destruct (Hall X ltac:(by left)) as [EX|EX]; rewrite EX; [|done].
  apply IH; [intros; apply Hall; by right|].
  apply elem_of_cons in HY as [->|HY]; [congruence|by exists Y].
Qed.

Lemma first_at_concat_none t Xs :
  first_at t (concat Xs) = None ↔ ∀ X, X ∈ Xs → first_at t X = None.
Proof.
  induction Xs as [|X Xs IH]; cbn [concat].
  - split; [|done]. by intros _ X ?%elem_of_nil.
  - rewrite first_at_app. split.
    + destruct (first_at t X) eqn:E; [done|]. intros Hn Y [->|HY]%elem_of_cons; [done|].
      by apply IH.
    + intros Hall. rewrite (Hall X) by left. apply IH. intros Y HY. apply Hall. by right.
Qed.

Lemma concat_strict (Xs : list (list Meas)) :
  Forall (strictly_by time) Xs →
  StronglySorted (fun X Y => ∀ m m', m ∈ X → m' ∈ Y → time m < time m') Xs →
  strictly_by time (concat Xs).
Proof.
  intros Hs Hb. induction Hb as [|X Xs Hb IH HX]; cbn; [constructor|].
  apply Forall_cons_1 in Hs as [Hs1 Hs]. apply StronglySorted_append. split_and!; [done|by apply IH|].
  intros m m' Hm Hm'. apply list_elem_of_In, in_concat in Hm' as (Y & HY & Hm').
  rewrite Forall_forall in HX. apply (HX Y); [by apply list_elem_of_In|done|by apply list_elem_of_In].
Qed.

Lemma Forall2_perm_l {A B} (P : A → B → Prop) xs xs' ys :
  xs ≡ₚ xs' → Forall2 P xs ys → ∃ ys', ys ≡ₚ ys' ∧ Forall2 P xs' ys'.
Proof.
  intros Hp. revert ys. induction Hp as [|x a b Hp IH|x y a|a b c Hab IHab Hbc IHbc]; intros ys H.
  - inversion H; subst. exists []. split; [done|constructor].
  - inversion H as [|? z ? ys0 Hz Hys]; subst. destruct (IH ys0 Hys) as (ys' & Hp' & H').
    exists (z :: ys'). split; [by constructor|by constructor].
  - inversion H as [|? z ? ys0 Hz Hys]; subst. inversion Hys as [|? w ? ys1 Hw Hys']; subst.
    exists (w :: z :: ys1). split; [constructor|]. by repeat constructor.
  - destruct (IHab ys H) as (ys1 & Hp1 & H1). destruct (IHbc ys1 H1) as (ys2 & Hp2 & H2).
    exists ys2. split; [by etrans|done].
Qed.

Section Output.
Context {L : Type} `{CursorSpec L} `{StdSort}.
Variable rs : list L.
Variable ls : list (list Meas).
Hypothesis rs_rep : Forall2 rep rs ls.
Hypothesis ls_not_nil : Forall (fun l => l ≠ []) ls.
Hypothesis ls_strict : Forall (strictly_by time) ls.
Hypothesis ls_times : Forall (Forall (fun m => time m < MAX_TIME)) ls.
Hypothesis rs_sorted : sorted_by cursor_minTime rs.
Hypothesis rs_counts : counts (Leaf <$> rs) < 2 ^ 64.

Abbreviation rv := (Leaf <$> rs).
Abbreviation mns := (mn_of rv).
Abbreviation mxs := (mx_of rv).

Lemma rv_rep : Forall2 Rep rv ls.
Proof. by apply leaves_Rep. Qed.

Lemma rv_sorted' : sorted_by c_minTime rv.
Proof.
  unfold sorted_by. clear rs_rep rs_counts. induction rs_sorted as [|r rs' Hs IH Hr]; [constructor|].
  cbn. constructor; [by apply IH|]. apply Forall_fmap. exact Hr.
Qed.

(** The times of the list at a position are in the reader's interval. *)
Lemma ls_bounds p l m : ls !! p = Some l → m ∈ l → mns p <= time m <= mxs p.
Proof.
  intros Hl Hm. destruct (Forall2_lookup_r _ _ _ _ _ rv_rep Hl) as (r & Hr & HR).
  unfold mn_of, mx_of. rewrite Hr. pose proof (Rep_bounds r l HR) as Hb.
  rewrite Forall_forall in Hb. by apply Hb.
Qed.

Lemma rv_intervals' : Forall (fun r => c_minTime r <= c_maxTime r) rv.
Proof.
  apply Forall_lookup. intros p r Hr.
  destruct (Forall2_lookup_l _ _ _ _ _ rv_rep Hr) as (l & Hl & HR).
  rewrite Forall_lookup in ls_not_nil. specialize (ls_not_nil p l Hl). destruct l as [|m l]; [done|].
  pose proof (ls_bounds p _ m Hl ltac:(by left)) as Hb.
  unfold mn_of, mx_of in Hb. rewrite Hr in Hb. lia.
Qed.

Lemma length_rv_ls : length rv = length ls.
Proof. exact (Forall2_length _ _ _ rv_rep). Qed.

Abbreviation group k := (run_members (length rv) mns mxs k).

(** What the reader of the run [k] yields. *)
Definition run_list (k : nat) : list Meas := kmerge (lists_at ls (group k)).

Lemma lists_at_elem l ps : l ∈ lists_at ls ps ↔ ∃ p, p ∈ ps ∧ ls !! p = Some l.
Proof. unfold lists_at. apply list_elem_of_omap. Qed.

Lemma run_list_elem k m :
  m ∈ run_list k → ∃ p l, p ∈ group k ∧ ls !! p = Some l ∧ m ∈ l.
Proof.
  intros Hm%kmerge_elem. apply list_elem_of_In, in_concat in Hm as (l & Hl & Hm).
  apply list_elem_of_In, lists_at_elem in Hl as (p & Hp & Hl).
  exists p, l. split_and!; [done|done|by apply list_elem_of_In].
Qed.

Lemma run_lists_apart k k' m m' :
  (k < k')%nat → m ∈ run_list k → m' ∈ run_list k' → time m < time m'.
Proof.
  intros Hk (p & l & Hp & Hl & Hm)%run_list_elem (q & l' & Hq & Hl' & Hm')%run_list_elem.
  pose proof (runs_apart rv rv_sorted' rv_intervals' k k' p q Hk Hp Hq).
  pose proof (ls_bounds p l m Hl Hm). pose proof (ls_bounds q l' m' Hl' Hm'). lia.
Qed.

(** *** The readers of the runs *)

Definition not_linear (c : cursor L) : Prop :=
  match c with LinearCursor _ _ _ _ => False | _ => True end.

(** [R] reads the run [k]. *)
Record reads_run (R : cursor L) (k : nat) : Prop := {
  rr_rep : Rep R (run_list k);
  rr_not_nil : run_list k ≠ [];
  rr_min_le : ∀ p, p ∈ group k → c_minTime R <= mns p;
  rr_min_ge : mns k <= c_minTime R;
  rr_not_linear : not_linear R;
  rr_count : c_count R = counts (at_positions rv (group k));
}.

Lemma at_positions_Rep ps :
  Forall2 Rep (at_positions rv ps) (lists_at ls ps).
Proof.
  unfold at_positions, lists_at. induction ps as [|p ps IH]; cbn; [constructor|].
  change (list_omap _ _ ?f ?l) with (omap f l).
  destruct (rv !! p) as [r|] eqn:Er.
  - destruct (Forall2_lookup_l _ _ _ _ _ rv_rep Er) as (l & Hl & HR).
    rewrite Hl. by constructor.
  - apply lookup_ge_None in Er. rewrite (lookup_ge_None_2 ls p); [done|].
    rewrite length_rv_ls in Er. done.
Qed.

Lemma lists_at_Forall (P : list Meas → Prop) ps : Forall P ls → Forall P (lists_at ls ps).
Proof.
  intros HP. apply Forall_forall. intros l (p & _ & Hl)%lists_at_elem.
  rewrite Forall_lookup in HP. by eapply HP.
Qed.

Lemma unpack_merge_at ps : unpack_merge_readers (at_positions rv ps) = at_positions rv ps.
Proof.
  unfold at_positions. induction ps as [|p ps IH]; [done|]. cbn.
  change (list_omap _ _ ?f ?l) with (omap f l). rewrite list_lookup_fmap.
  destruct (rs !! p); cbn; [by rewrite IH|done].
Qed.

Lemma at_positions_elem r ps : r ∈ at_positions rv ps ↔ ∃ p, p ∈ ps ∧ rv !! p = Some r.
Proof. unfold at_positions. apply list_elem_of_omap. Qed.

Lemma run_start_member k : k ∈ run_starts rv → k ∈ group k.
Proof. intros [? ?]%run_starts_elem. by apply run_members_elem. Qed.

Lemma run_list_not_nil k : k ∈ run_starts rv → run_list k ≠ [].
Proof.
  intros Hk Hnil. pose proof (run_start_member k Hk) as Hm.
  apply run_starts_elem in Hk as [Hk _]. rewrite length_rv_ls in Hk.
  destruct (lookup_lt_is_Some_2 ls k Hk) as [l Hl].
  pose proof ls_not_nil as Hn. rewrite Forall_lookup in Hn. specialize (Hn k l Hl).
  destruct l as [|m l]; [done|].
  pose proof (kmerge_first_at (time m) (lists_at ls (group k))) as E.
  unfold run_list in Hnil. rewrite Hnil in E. cbn in E. symmetry in E.
  rewrite first_at_concat_none in E. specialize (E (m :: l)). rewrite first_at_cons, decide_True in E by done.
  by specialize (E ltac:(apply lists_at_elem; by exists k)).
Qed.

(** *** Counting *)

Lemma counts_app (a b : list (cursor L)) : counts (a ++ b) = counts a + counts b.
Proof. induction a as [|r a IH]; cbn; [done|]. fold (counts (a ++ b)) (counts a). lia. Qed.

#[local] Instance counts_perm : Proper ((≡ₚ) ==> (=)) (@counts L _).
Proof.
  intros a b Hp. induction Hp as [|x a b Hp IH|x y a|a b c Hab IHab Hbc IHbc]; cbn; try done.
  - fold (counts a) (counts b). lia.
  - fold (counts a). lia.
  - congruence.
Qed.

Lemma at_positions_app a b : at_positions rv (a ++ b) = at_positions rv a ++ at_positions rv b.
Proof. apply omap_app. Qed.

Lemma at_positions_seq (cs : list (cursor L)) : at_positions cs (seq 0 (length cs)) = cs.
Proof.
  unfold at_positions. enough (Hg : ∀ pre cs, omap (fun p => (pre ++ cs) !! p) (seq (length pre) (length cs)) = cs)
    by apply (Hg [] cs).
  clear cs. intros pre cs. revert pre. induction cs as [|c cs IH]; intros pre; [done|].
  cbn [length seq omap list_omap]. rewrite list_lookup_middle by done. f_equal.
  specialize (IH (pre ++ [c])). rewrite length_app in IH. cbn [length] in IH.
  rewrite Nat.add_1_r in IH. rewrite <- app_assoc in IH. exact IH.
Qed.

Definition total (ks : list nat) : Z :=
  foldr (fun k n => counts (at_positions rv (group k)) + n) 0 ks.

#[local] Instance total_perm : Proper ((≡ₚ) ==> (=)) total.
Proof.
  intros a b Hp. induction Hp as [|x a b Hp IH|x y a|a b c Hab IHab Hbc IHbc]; cbn; try done.
  - fold (total a) (total b). lia.
  - fold (total a). lia.
  - congruence.
Qed.

Lemma total_concat ks :
  total ks = counts (at_positions rv (concat ((fun k => group k) <$> ks))).
Proof.
  induction ks as [|k ks IH]; [done|]. cbn [total foldr]. fold (total ks).
  rewrite IH, fmap_cons. cbn [concat]. by rewrite at_positions_app, counts_app.
Qed.

Lemma total_runs : total (run_starts rv) = counts rv.
Proof.
  rewrite total_concat.
  pose proof (placed_partition rv rv_sorted' rv_intervals') as Hp.
  rewrite placed_run_starts in Hp by (apply rv_sorted' || apply rv_intervals').
  assert (Hpp : at_positions rv (concat ((fun k => group k) <$> run_starts rv)) ≡ₚ
    at_positions rv (seq 0 (length rv))) by (unfold at_positions; by rewrite Hp).
  by rewrite Hpp, at_positions_seq.
Qed.

Lemma counts_at_nonneg ps : 0 <= counts (at_positions rv ps).
Proof. pose proof (counts_Rep _ _ (at_positions_Rep ps)). lia. Qed.

Lemma counts_run_small k : k ∈ run_starts rv → counts (at_positions rv (group k)) < 2 ^ 64.
Proof.
  intros Hk. pose proof total_runs as Ht. pose proof rs_counts as Hc. rewrite <- Ht in Hc.
  revert Hk Hc. generalize (run_starts rv) as ks. induction ks as [|x ks IH]; intros Hk Hc.
  - by apply elem_of_nil in Hk.
  - cbn [total foldr] in Hc. fold (total ks) in Hc. pose proof (counts_at_nonneg (group x)).
    assert (0 <= total ks) by (rewrite total_concat; apply counts_at_nonneg).
    apply elem_of_cons in Hk as [->|Hk]; [lia|]. apply IH; [done|lia].
Qed.

(** *** The resulting readers *)

Lemma kmerge_single l : strictly_by time l → kmerge [l] = l.
Proof.
  intros Hl. symmetry. apply kmerge_unique; [done|]. intros t. cbn [concat]. by rewrite app_nil_r.
Qed.

Lemma member_above k p : p ∈ group k → (k <= p)%nat.
Proof. intros [_ <-]%run_members_elem. apply run_le. Qed.

Lemma mns_mono p q : (p <= q)%nat → (q < length rv)%nat → mns p <= mns q.
Proof.
  intros Hpq Hq. destruct (Nat.eq_dec p q) as [->|]; [done|].
  apply mn_of_sorted; [apply rv_sorted'|apply rv_intervals'|lia].
Qed.

(** A reader without overlaps is used as it is. *)
Lemma alone_reads_run k r :
  k ∈ run_starts rv → group k = [k] → rv !! k = Some r → reads_run r k.
Proof.
  intros Hk Hg Hr.
  destruct (Forall2_lookup_l _ _ _ _ _ rv_rep Hr) as (l & Hl & HR).
  pose proof ls_strict as Hst. rewrite Forall_lookup in Hst. specialize (Hst k l Hl).
  assert (Hrl : run_list k = l).
  { unfold run_list. rewrite Hg. cbn. rewrite Hl. by apply kmerge_single. }
  split.
  - by rewrite Hrl.
  - by apply run_list_not_nil.
  - rewrite Hg. intros p ->%list_elem_of_singleton. unfold mn_of. by rewrite Hr.
  - unfold mn_of. by rewrite Hr.
  - rewrite list_lookup_fmap in Hr. destruct (rs !! k); [|done]. by injection Hr as <-.
  - rewrite Hg. cbn. rewrite Hr. cbn. lia.
Qed.

(** The merging cursor of a group. *)
Lemma group_reads_run k :
  k ∈ run_starts rv →
  ∃ R, make_MergeSortCursor (at_positions rv (group k)) = Ok R ∧ reads_run R k.
Proof.
  intros Hk. pose proof (at_positions_Rep (group k)) as HR.
  destruct (make_merge_Rep (at_positions rv (group k)) (lists_at ls (group k)))
    as (R & E & Hrep & Hmin & Hmax & Hcnt); rewrite ?unpack_merge_at in *;
    try done; try (by apply lists_at_Forall).
  - apply lists_at_Forall. eapply Forall_impl; [exact ls_strict|]. intros l. apply strictly_by_sorted.
  - by apply counts_run_small.
  - exists R. split; [done|]. split; [done|by apply run_list_not_nil| | | |done].
    + intros p Hp. pose proof Hp as [Hpn _]%run_members_elem.
      destruct (lookup_lt_is_Some_2 rv p Hpn) as [r Hr]. unfold mn_of. rewrite Hr, Hmin.
      apply readers_minTime_le, at_positions_elem. by exists p.
    + rewrite Hmin. apply readers_minTime_ge.
      * intros r (p & Hp & Hr)%at_positions_elem. pose proof Hp as [Hpn _]%run_members_elem.
        pose proof (mns_mono k p (member_above k p Hp) Hpn) as Hm.
        unfold mn_of in Hm at 2. by rewrite Hr in Hm.
      * apply run_starts_elem in Hk as [Hk _].
        destruct (lookup_lt_is_Some_2 rv k Hk) as [r Hr]. rewrite length_rv_ls in Hk.
        destruct (lookup_lt_is_Some_2 ls k Hk) as [l Hl].
        pose proof ls_not_nil as Hn. rewrite Forall_lookup in Hn. specialize (Hn k l Hl).
        pose proof ls_times as Ht. rewrite Forall_lookup in Ht. specialize (Ht k l Hl).
        destruct l as [|m l]; [done|]. apply Forall_cons_1 in Ht as [Ht _].
        pose proof (ls_bounds k _ m Hl ltac:(by left)). lia.
    + unfold make_MergeSortCursor in E. destruct (fill_top_times _); cbn in E; try done.
      by injection E as <-.
Qed.

Lemma make_groups_runs ov ks :
  (fun '(k, s) => k :: s) <$> ov = (fun k => group k) <$> ks →
  Forall (fun k => k ∈ run_starts rv) ks →
  ∃ Rs, make_groups rv ov = Ok Rs ∧ Forall2 reads_run Rs ks.
Proof.
  revert ks. induction ov as [|[k s] ov IH]; intros [|k' ks] E Hks; try done.
  { exists []. split; [done|constructor]. }
  rewrite !fmap_cons in E. injection E as E1 E2. apply Forall_cons_1 in Hks as [Hk Hks].
  destruct (IH ks E2 Hks) as (Rs & ER & HRs). destruct (group_reads_run k' Hk) as (R & EM & HR).
  exists (R :: Rs). cbn [make_groups]. rewrite E1, EM, bind_Ok, ER. split; [done|by constructor].
Qed.

Lemma alone_runs :
  Forall2 reads_run (at_positions rv (starts (length rv) mns mxs (overlap_of rv) false))
    (starts (length rv) mns mxs (overlap_of rv) false).
Proof.
  assert (Hall : Forall (fun k => k ∈ run_starts rv ∧ group k = [k])
    (starts (length rv) mns mxs (overlap_of rv) false)).
  { apply Forall_forall. intros k Hk. split; [unfold run_starts; apply elem_of_app; by left|].
    apply starts_elem in Hk as (Hk & _ & Hno).
    apply (run_members_alone _ _ _ (overlap_of rv)); try done.
    - apply mn_of_sorted; [apply rv_sorted'|apply rv_intervals'].
    - apply overlap_of_lr; [apply rv_sorted'|apply rv_intervals'].
    - apply overlap_of_rl; [apply rv_sorted'|apply rv_intervals']. }
  induction Hall as [|k ks [Hk Hg] Hall IH]; [constructor|]. cbn.
  change (list_omap _ _ ?g ?l) with (omap g l).
  pose proof Hk as [Hkn _]%run_starts_elem. destruct (lookup_lt_is_Some_2 rv k Hkn) as [r Hr].
  rewrite Hr. constructor; [by apply alone_reads_run|exact IH].
Qed.

Lemma unpack_linear_runs Rs ks : Forall2 reads_run Rs ks → unpack_linear_readers Rs = Rs.
Proof.
  induction 1 as [|R k Rs ks HR HRs IH]; [done|]. pose proof (rr_not_linear _ _ HR) as Hn.
  destruct R; cbn in *; [by rewrite IH|by rewrite IH|done].
Qed.

(** Readers in the order of their first times are in the order of their runs. *)
Lemma runs_ordered Rs ks :
  Forall2 reads_run Rs ks → sorted_by c_minTime Rs → NoDup ks →
  Forall (fun k => k ∈ run_starts rv) ks → StronglySorted lt ks.
Proof.
  intros Hrs. induction Hrs as [|R k Rs ks HR HRs IH]; intros Hs Hn Hks; [constructor|].
  apply StronglySorted_inv in Hs as [Hs HRle]. apply NoDup_cons in Hn as [Hk Hn].
  apply Forall_cons_1 in Hks as [Hks0 Hks]. constructor; [by apply IH|].
  apply Forall_lookup. intros i k' Hk'.
  destruct (Forall2_lookup_r _ _ _ _ _ HRs Hk') as (R' & HR' & Hrr').
  destruct (Nat.lt_trichotomy k k') as [?|[<-|Hlt]]; [done| |exfalso].
  { exfalso. by apply Hk, (list_elem_of_lookup_2 _ i). }
  rewrite Forall_lookup in HRle. specialize (HRle i R' HR'). cbn in HRle.
  rewrite Forall_lookup in Hks. specialize (Hks i k' Hk').
  pose proof (run_start_member k Hks0) as Hm. pose proof (run_start_member k' Hks) as Hm'.
  pose proof (rr_min_ge _ _ HR). pose proof (rr_min_le _ _ Hrr' k' Hm').
  pose proof (runs_apart rv rv_sorted' rv_intervals' k' k k' k Hlt Hm' Hm).
  pose proof Hm' as [Hn' _]%run_members_elem.
  destruct (rv_lookup rv rv_intervals' k' Hn') as (r & Hr & Hle).
  unfold mx_of, mn_of in *. rewrite Hr in *. lia.
Qed.

Lemma reads_run_lists Rs ks :
  Forall2 reads_run Rs ks → Forall2 Rep Rs (run_list <$> ks) ∧
  Forall (fun l => l ≠ []) (run_list <$> ks) ∧ counts Rs = total ks.
Proof.
  induction 1 as [|R k Rs ks HR HRs (IH1 & IH2 & IH3)]; [done|]. rewrite fmap_cons.
  split_and!.
  - constructor; [apply HR|done].
  - constructor; [apply HR|done].
  - cbn. fold (counts Rs) (total ks). rewrite IH3, (rr_count _ _ HR). done.
Qed.

(** Readers with a measurement at the same time belong to the same run. *)
Lemma same_time_same_run p q l l' m m' :
  ls !! p = Some l → m ∈ l → ls !! q = Some l' → m' ∈ l' → time m' = time m →
  run mns mxs q = run mns mxs p.
Proof.
  intros Hl Hm Hl' Hm' Ht. pose proof (ls_bounds p l m Hl Hm). pose proof (ls_bounds q l' m' Hl' Hm').
  pose proof (lookup_lt_Some _ _ _ Hl). pose proof (lookup_lt_Some _ _ _ Hl').
  pose proof length_rv_ls. pose proof (mn_of_sorted rv rv_sorted' rv_intervals') as Hmono.
  destruct (Nat.lt_trichotomy p q) as [?|[->|?]]; [|done|].
  - apply (run_overlap (length rv)); [done|lia|lia].
  - symmetry. apply (run_overlap (length rv)); [done|lia|lia].
Qed.

Lemma run_list_other p l m k :
  ls !! p = Some l → m ∈ l → k ≠ run mns mxs p → first_at (time m) (run_list k) = None.
Proof.
  intros Hl Hm Hne. apply first_at_None, Forall_forall. intros m' Hm' Ht'.
  destruct (run_list_elem k m' Hm') as (q & l' & [_ Hq]%run_members_elem & Hl' & Hm'').
  apply Hne. rewrite <- Hq. by eapply same_time_same_run.
Qed.

Lemma run_list_this p l m :
  ls !! p = Some l → m ∈ l →
  first_at (time m) (run_list (run mns mxs p)) = first_at (time m) (concat ls).
Proof.
  intros Hl Hm. unfold run_list. rewrite kmerge_first_at.
  unfold lists_at, run_members. rewrite length_rv_ls.
  rewrite <- (first_at_lists_at (time m) (fun q => (run mns mxs q =? run mns mxs p)%nat) ls 0).
  - f_equal. f_equal.
    generalize (List.filter (fun q => (run mns mxs q =? run mns mxs p)%nat) (seq 0 (length ls))) as qs.
    induction qs as [|q qs IH]; [done|]. cbn. change (list_omap _ _ ?g ?l) with (omap g l).
    by rewrite Nat.sub_0_r, IH.
  - intros q l' Hl' Hq%Nat.eqb_neq. apply first_at_None, Forall_forall.
    intros m' Hm' Ht'. apply Hq. by eapply same_time_same_run.
Qed.

(** Reading the runs one after the other is the merge of all the lists. *)
Lemma runs_are_merge ks :
  ks ≡ₚ run_starts rv → StronglySorted lt ks → concat (run_list <$> ks) = kmerge ls.
Proof.
  intros Hp Hs. apply kmerge_unique.
  - apply concat_strict.
    + apply Forall_fmap, Forall_forall. intros k _. apply kmerge_strict.
    + clear Hp. induction Hs as [|k ks Hs IH Hk]; [constructor|]. rewrite fmap_cons.
      constructor; [done|]. apply Forall_fmap. eapply Forall_impl; [exact Hk|].
      intros k' Hlt m m' Hm Hm'. by apply (run_lists_apart k k').
  - intros t. destruct (first_at t (concat ls)) as [m|] eqn:E.
    + pose proof (first_at_Some _ _ _ E) as [Hm <-].
      apply list_elem_of_In, in_concat in Hm as (l & Hl & Hm).
      apply list_elem_of_In, list_elem_of_lookup in Hl as [p Hl]. apply list_elem_of_In in Hm.
      pose proof (run_list_this p l m Hl Hm) as Hthis. rewrite E in Hthis.
      apply first_at_concat_one.
      * intros X (k & -> & _)%list_elem_of_fmap.
        destruct (Nat.eq_dec k (run mns mxs p)) as [->|Hne]; [by right|left].
        by eapply run_list_other.
      * exists (run_list (run mns mxs p)). split; [|done]. apply list_elem_of_fmap_2.
        rewrite Hp. apply run_starts_elem. pose proof (run_le mns mxs p).
        pose proof (lookup_lt_Some _ _ _ Hl). rewrite length_rv_ls. split; [lia|apply run_idem].
    + apply first_at_concat_none. intros X (k & -> & _)%list_elem_of_fmap.
      unfold run_list. rewrite kmerge_first_at.
      apply first_at_concat_none. intros l (p & _ & Hl)%lists_at_elem.
      rewrite first_at_concat_none in E. by eapply E, list_elem_of_lookup_2.
Qed.

Lemma colapse_Rep : ∃ c, colapseCursors rv = Ok c ∧ Rep c (kmerge ls).
Proof.
  unfold colapseCursors.
  pose proof (mn_of_sorted rv rv_sorted' rv_intervals') as S1.
  pose proof (overlap_of_lr rv rv_sorted' rv_intervals') as S2.
  pose proof (overlap_of_rl rv rv_sorted' rv_intervals') as S3.
  rewrite (result_readers_starts _ _ _ _ S1 S2 S3).
  pose proof (overlapped_starts _ _ _ _ S1 S2 S3) as Hov.
  destruct (make_groups_runs _ _ Hov) as (Rs & ER & HRs).
  { apply Forall_forall. intros k Hk. unfold run_starts. apply elem_of_app. by right. }
  rewrite ER, bind_Ok. eexists. split; [done|].
  pose proof (Forall2_app alone_runs HRs) as Hall.
  fold (run_starts rv) in Hall. set (Rall := at_positions rv _ ++ Rs) in *.
  unfold make_LinearCursor. rewrite (unpack_linear_runs _ _ Hall).
  destruct (Forall2_perm_l _ _ (std_sort c_minTime Rall) _ (symmetry (std_sort_perm c_minTime Rall)) Hall)
    as (ks & Hks & HS).
  assert (Hord : StronglySorted lt ks).
  { apply (runs_ordered _ _ HS); [apply std_sort_sorted| |].
    - rewrite <- Hks. apply run_starts_NoDup.
    - rewrite <- Hks. by apply Forall_forall. }
  destruct (reads_run_lists _ _ HS) as (H1' & H2' & H3').
  rewrite <- (runs_are_merge ks (symmetry Hks) Hord). apply linear_Rep; [done|done|].
  rewrite H3', <- Hks, total_runs. exact rs_counts.
Qed.

End Output.

(** ** Properties *)

(** On readers in the order of their first times, collapsing places every
    reader exactly once, and readers of different groups are apart in time: the
    groups are the classes of readers connected by overlaps. *)
Theorem colapse_partition {L} `{ICursor L} (rv : list (cursor L)) :
  sorted_by c_minTime rv → Forall (fun r => c_minTime r <= c_maxTime r) rv →
  let groups := placed (colapse_positions (overlap_of rv) (length rv)) in
  concat groups ≡ₚ seq 0 (length rv) ∧
  ∀ i j g h p q, groups !! i = Some g → groups !! j = Some h → i ≠ j → p ∈ g → q ∈ h →
    overlap_of rv p q = false.
Proof.
  intros Hs Hi groups. split; [by apply placed_partition|].
  intros i j g h p q Hg Hh Hne Hp Hq. unfold groups in *.
  rewrite placed_run_starts in Hg, Hh by done. rewrite list_lookup_fmap in Hg, Hh.
  destruct (run_starts rv !! i) as [k|] eqn:Ek; [|done]. injection Hg as <-.
  destruct (run_starts rv !! j) as [k'|] eqn:Ek'; [|done]. injection Hh as <-.
  assert (Hkk : k ≠ k').
  { intros ->. apply Hne. by eapply NoDup_lookup; [apply run_starts_NoDup|..]. }
  pose proof Hp as [Hpn Hpr]%run_members_elem. pose proof Hq as [Hqn Hqr]%run_members_elem.
  destruct (Nat.lt_trichotomy p q) as [?|[->|?]]; [|lia|].
  - rewrite overlap_of_lr by (done || lia). apply Z.leb_gt.
    apply (run_apart (length rv)); [by apply mn_of_sorted|lia|lia].
  - rewrite overlap_of_rl by (done || lia). apply Z.leb_gt.
    apply (run_apart (length rv)); [by apply mn_of_sorted|lia|lia].
Qed.

Definition span (a b : Z) : cursor FullCursor.t :=
  Leaf (FullCursor.make [mkMeas 1 a 0 0; mkMeas 1 b 0 0]).

Lemma colapse_partition_witness :
  concat (placed (colapse_positions (overlap_of [span 0 10; span 5 25; span 20 30; span 40 50]) 4))
    ≡ₚ [0; 1; 2; 3]%nat.
Proof.
  apply (colapse_partition [span 0 10; span 5 25; span 20 30; span 40 50]).
  - repeat constructor; vm_compute; congruence.
  - repeat constructor; vm_compute; congruence.
Defined.

(** *** Readers whose measurements follow each other *)

Lemma strict_concat (Xs : list (list Meas)) :
  strictly_by time (concat Xs) →
  Forall (strictly_by time) Xs ∧
  StronglySorted (fun X Y => ∀ m m', m ∈ X → m' ∈ Y → time m < time m') Xs.
Proof.
  induction Xs as [|X Xs IH]; cbn; [by repeat constructor|].
  intros (H1' & H2' & H3')%StronglySorted_append. destruct (IH H2') as [F S']. split; [by constructor|].
  constructor; [done|]. apply Forall_forall. intros Y HY m m' Hm Hm'. apply H3'; [done|].
  apply list_elem_of_In, in_concat. exists Y. split; by apply list_elem_of_In.
Qed.

Lemma kmerge_ordered ls : strictly_by time (concat ls) → kmerge ls = concat ls.
Proof. intros Hs. symmetry. by apply kmerge_unique. Qed.

(** The readers of one series, one of them or collapsed. *)
Lemma colapse_ordered {L} `{CursorSpec L} `{StdSort} (rs : list L) ls :
  Forall2 rep rs ls → Forall (fun l => l ≠ []) ls → strictly_by time (concat ls) →
  Forall (fun m => time m < MAX_TIME) (concat ls) → sorted_by cursor_minTime rs →
  counts (Leaf <$> rs) < 2 ^ 64 → rs ≠ [] →
  ∃ c, match Leaf <$> rs with [r] => Ok r | rs => colapseCursors rs end = Ok c ∧ rep c (concat ls).
Proof.
  intros Hr Hn Hs Ht Ho Hc Hne. destruct (strict_concat _ Hs) as [Hss _].
  assert (Htt : Forall (Forall (fun m => time m < MAX_TIME)) ls).
  { rewrite Forall_forall in Ht. apply Forall_forall. intros l Hl. apply Forall_forall. intros m Hm.
    apply Ht, list_elem_of_In, in_concat. exists l. split; by apply list_elem_of_In. }
  assert (Hcol : ∃ c, colapseCursors (Leaf <$> rs) = Ok c ∧ rep c (concat ls)).
  { destruct (colapse_Rep rs ls) as (c & E & Hrep); try done. exists c.
    by rewrite kmerge_ordered in Hrep. }
  destruct Hr as [|r l [|r2 rs] ls Hr Hrs]; [done| |exact Hcol].
  apply Forall2_nil_inv_l in Hrs as ->. exists (Leaf r). split; [done|].
  cbn. rewrite app_nil_r. by constructor.
Qed.

Lemma colapse_map_ok {L} `{CursorSpec L} `{StdSort} (kvs : list (Z * list (cursor L)))
    (P : Z → cursor L → Prop) :
  (∀ kv, kv ∈ kvs → ∃ c, match kv.2 with [r] => Ok r | rs => colapseCursors rs end = Ok c ∧ P kv.1 c) →
  ∃ r, colapseCursorsMap kvs = Ok r ∧ fst <$> r = fst <$> kvs ∧ ∀ kv, kv ∈ r → P kv.1 kv.2.
Proof.
  induction kvs as [|[i rs] kvs IH]; intros Hk.
  { exists []. split_and!; [done..|]. by intros kv []%elem_of_nil. }
  destruct (Hk (i, rs) ltac:(left)) as (c & E & Hc). cbn [fst snd] in E, Hc.
  destruct IH as (r & Er & Hf & Hr); [intros kv Hkv; apply Hk; by right|].
  exists ((i, c) :: r). split_and!.
  - cbn [colapseCursorsMap].
    assert (match rs with [r] => Ok r | _ => colapseCursors rs end = Ok c) as ->
      by (destruct rs as [|? [|]]; exact E).
    rewrite bind_Ok, Er. done.
  - by rewrite !fmap_cons, Hf.
  - intros kv [->|Hkv]%elem_of_cons; [done|by apply Hr].
Qed.

(** C4: collapsing readers in the order of their first times gives a cursor that
    yields the measurements of all of them in strictly ascending order of time and
    then ends; where several readers have a measurement with the same time, that of
    the first reader. *)
Theorem colapse_correct {L} `{CursorSpec L} `{StdSort} (rs : list L) ls fuel :
  Forall2 rep rs ls → Forall (fun l => l ≠ []) ls → Forall (strictly_by time) ls →
  Forall (Forall (fun m => time m < MAX_TIME)) ls → sorted_by cursor_minTime rs →
  counts (Leaf <$> rs) < 2 ^ 64 → (length (concat ls) < fuel)%nat →
  ∃ c l, colapseCursors (Leaf <$> rs) = Ok c ∧ read_to_end fuel c = Ok l ∧
    strictly_by time l ∧ (∀ t, first_at t l = first_at t (concat ls)).
Proof.
  intros Hr Hn Hs Ht Ho Hc Hf.
  destruct (colapse_Rep rs ls Hr Hn Hs Ht Ho Hc) as (c & E & Hrep).
  exists c, (kmerge ls). split; [done|]. split.
  - apply read_to_end_rep; [done|]. pose proof (kmerge_length ls). lia.
  - split; [apply kmerge_strict|]. intros t. apply kmerge_first_at.
Qed.

Lemma colapse_correct_witness :
  let m t v := mkMeas 1 t v 0 in
  let a := [m 1 0; m 3 0; m 5 0] in
  let b := [m 2 1; m 3 1; m 9 1] in
  let c := [m 20 2] in
  ∃ cur l, colapseCursors (Leaf <$> [FullCursor.make a; FullCursor.make b; FullCursor.make c]) = Ok cur ∧
    read_to_end 8 cur = Ok l ∧
    strictly_by time l ∧ (∀ t, first_at t l = first_at t (concat [a; b; c])).
Proof.
  intros m a b c. apply (colapse_correct _ [a; b; c] 8).
  - repeat (constructor; [apply full_make_rep|]). constructor.
  - by repeat constructor.
  - by repeat constructor.
  - by repeat constructor.
  - repeat constructor; vm_compute; congruence.
  - by vm_compute.
  - cbn. lia.
Defined.

(** On readers in another order a reader can be placed twice, alone and in a
    group: the reader of 20 to 30 meets only the third one, which the first reader
    has claimed before; the same cursor is then read by both of its owners. *)
Example colapse_places_reader_twice :
  placed (colapse_positions (overlap_of [span 0 10; span 20 30; span 5 25]) 3) =
  [[1]; [0; 1; 2]]%nat.
Proof. vm_compute. reflexivity. Qed.
