(* ===== verification/StripedMap.v ===== *)
(** * The striped hash map

    [utils/striped_map.h]: an array of sorted chains guarded by an array of
    mutexes, the number of chains doubled when the map is full while the number
    of mutexes stays, and [minmax_append] of [meas.cpp], which is written over
    it.  The keys are the identifiers ([Id], four bytes wide).  The map is shown
    to refine a finite map, with every mutex released when an operation
    returns. *)

From Stdlib Require Import ZArith Lia Sorting.Sorted.
From stdpp Require Import base numbers list gmap sorting.
From S2P Require Import Prelude Bloom StdSort Meas.

Local Open Scope Z_scope.

(** ** Mutexes *)

(** [true]: locked.  Locking a [std::mutex] the thread already holds, and
    unlocking one that is not held, is undefined. *)
Definition lock (ls : list bool) (i : Z) : outcome (list bool) :=
  match ls !! Z.to_nat i with
  | Some false => Ok (<[Z.to_nat i := true]> ls)
  | _ => UB
  end.

Definition unlock (ls : list bool) (i : Z) : outcome (list bool) :=
  match ls !! Z.to_nat i with
  | Some true => Ok (<[Z.to_nat i := false]> ls)
  | _ => UB
  end.

(** [a % b] on [size_t]. *)
Definition modulo (a b : Z) : outcome Z := if b =? 0 then UB else Ok (a mod b).

Definition hasher (k : Z) : Z := jenkins_one_at_a_time_hash 4 k.

(** ** Chains *)

Record bucket (D : Type) := Bucket { b_hash : Z; b_key : Z; b_data : D }.
Arguments Bucket {D} _ _ _.
Arguments b_hash {D} _.
Arguments b_key {D} _.
Arguments b_data {D} _.

Definition b_kv {D} (b : bucket D) : Z * D := (b_key b, b_data b).

(** The loop of [find]. *)
Fixpoint find_node {D} (k : Z) (chain : list (bucket D)) : option D :=
  match chain with
  | [] => None
  | iter :: rest => if b_key iter =? k then Some (b_data iter) else find_node k rest
  end.

(** The protected [find_bucket]: the chain, the place of the node in it and
    whether it is new. *)
Fixpoint find_in_chain {D} (d : D) (hash k : Z) (chain : list (bucket D))
  : list (bucket D) * nat * bool :=
  match chain with
  | [] => ([Bucket hash k d], 0%nat, true)
  | iter :: rest =>
    if b_key iter =? k then (iter :: rest, 0%nat, false)
    else
      match rest with
      | [] => ([iter; Bucket hash k d], 1%nat, true)
      | next :: _ =>
        if k <? b_key next then (iter :: Bucket hash k d :: rest, 1%nat, true)
        else
          let '(c, p, fresh) := find_in_chain d hash k rest in (iter :: c, S p, fresh)
      end
  end.

(** A node put into its new chain by [rehash]. *)
Fixpoint insert_in_chain {D} (src : bucket D) (chain : list (bucket D)) : list (bucket D) :=
  match chain with
  | [] => [src]
  | t :: rest =>
    match rest with
    | [] => [t; src]
    | next :: _ =>
      if b_key src <? b_key next then t :: src :: rest else t :: insert_in_chain src rest
    end
  end.

(** ** The map *)

Module StrippedMap.

Record stripped_map (D : Type) := Mk {
  _lockers : list bool;
  _buckets : list (list (bucket D));
  _size : Z;
  _N : Z;
  _L : Z;
}.
Arguments Mk {D} _ _ _ _ _.
Arguments _lockers {D} _.
Arguments _buckets {D} _.
Arguments _size {D} _.
Arguments _N {D} _.
Arguments _L {D} _.

(** [iterator]: the mutex it holds and the node it points to. *)
Record iterator := Iterator { it_locker : Z; it_v : nat * nat }.

Section Map.
Context {D : Type}.
(** The value-initialised datum of [std::pair]. *)
Variable d0 : D.

Implicit Types m : stripped_map D.

Definition set_lockers m ls : stripped_map D :=
  Mk ls (_buckets m) (_size m) (_N m) (_L m).
Definition set_buckets m bs : stripped_map D :=
  Mk (_lockers m) bs (_size m) (_N m) (_L m).

Definition lock_at m (i : Z) : outcome (stripped_map D) :=
  ls ← lock (_lockers m) i; Ok (set_lockers m ls).
Definition unlock_at m (i : Z) : outcome (stripped_map D) :=
  ls ← unlock (_lockers m) i; Ok (set_lockers m ls).

Definition lock_all m : outcome (stripped_map D) :=
  ls ← foldM lock (seqZ 0 (_L m)) (_lockers m); Ok (set_lockers m ls).

(** From the last mutex down to the first; with no mutex the index starts at
    [size_t(0) - 1]. *)
Definition unlock_all m : outcome (stripped_map D) :=
  if _L m =? 0 then UB
  else ls ← foldM unlock (reverse (seqZ 0 (_L m))) (_lockers m); Ok (set_lockers m ls).

(** The arrays of [reserve]. *)
Definition reserve_arrays (N size : Z) : stripped_map D :=
  Mk (replicate (Z.to_nat N) false) (replicate (Z.to_nat N) []) size N N.

(** In the constructor [clear] returns at once, there are no chains yet. *)
Definition make (N : Z) : stripped_map D := reserve_arrays N 0.

Definition clear m : outcome (stripped_map D) :=
  m ← lock_all m;
  unlock_all (set_buckets m (replicate (Z.to_nat (_N m)) [])).

Definition reserve m (N : Z) : outcome (stripped_map D) :=
  m ← clear m; Ok (reserve_arrays N (_size m)).

Definition find m (k : Z) : outcome (stripped_map D * option D) :=
  let hash := hasher k in
  lock_index ← modulo hash (_L m);
  m ← lock_at m lock_index;
  bucket_index ← modulo hash (_N m);
  match _buckets m !! Z.to_nat bucket_index with
  | None => UB
  | Some chain =>
    m ← unlock_at m lock_index;
    Ok (m, find_node k chain)
  end.

(** [load_factor() > 1.0]: both counts are below [2 ^ 53], where the rounded
    quotient exceeds 1 exactly when the dividend exceeds the divisor. *)
Definition overloaded m : bool := _N m <? _size m.

(** The node [b] goes to the chain of its hash. *)
Definition move_node (N : Z) (bs : list (list (bucket D))) (b : bucket D)
  : outcome (list (list (bucket D))) :=
  bucket_index ← modulo (b_hash b) N;
  match bs !! Z.to_nat bucket_index with
  | None => UB
  | Some chain => Ok (<[Z.to_nat bucket_index := insert_in_chain b chain]> bs)
  end.

Definition rehash m : outcome (stripped_map D) :=
  if overloaded m then
    m ← lock_all m;
    m ← (if overloaded m then
           let N := u64 (_N m * 2) in
           bs ← foldM (fun bs chain => foldM (move_node N) chain bs) (_buckets m)
                  (replicate (Z.to_nat N) []);
           Ok (Mk (_lockers m) bs (_size m) N (_L m))
         else Ok m);
    unlock_all m
  else Ok m.

Definition find_bucket m (k : Z) : outcome (stripped_map D * iterator) :=
  m ← rehash m;
  let hash := hasher k in
  lock_index ← modulo hash (_L m);
  m ← lock_at m lock_index;
  bucket_index ← modulo hash (_N m);
  match _buckets m !! Z.to_nat bucket_index with
  | None => UB
  | Some chain =>
    let '(c, p, fresh) := find_in_chain d0 hash k chain in
    Ok (Mk (_lockers m) (<[Z.to_nat bucket_index := c]> (_buckets m))
          (if fresh : bool then u64 (_size m + 1) else _size m) (_N m) (_L m),
        Iterator lock_index (Z.to_nat bucket_index, p))
  end.

(** [it.v->second], read and written. *)
Definition it_get m (it : iterator) : outcome D :=
  match chain ← _buckets m !! (it_v it).1; chain !! (it_v it).2 with
  | Some b => Ok (b_data b)
  | None => UB
  end.

Definition it_set m (it : iterator) (d : D) : outcome (stripped_map D) :=
  match chain ← _buckets m !! (it_v it).1; b ← chain !! (it_v it).2; Some (chain, b) with
  | Some (chain, b) =>
    Ok (set_buckets m
          (<[(it_v it).1 := <[(it_v it).2 := Bucket (b_hash b) (b_key b) d]> chain]>
             (_buckets m)))
  | None => UB
  end.

(** The destructor of the iterator. *)
Definition it_release m (it : iterator) : outcome (stripped_map D) :=
  unlock_at m (it_locker it).

(** A block that takes the iterator of [k], replaces the datum by [f] of it and
    leaves the scope of the iterator. *)
Definition with_bucket m (k : Z) (f : D → outcome D) : outcome (stripped_map D) :=
  r ← find_bucket m k;
  let '(m, it) := r in
  d ← it_get m it;
  d ← f d;
  m ← it_set m it d;
  it_release m it.

Definition insert m (k : Z) (v : D) : outcome (stripped_map D) :=
  r ← find_bucket m k;
  let '(m, it) := r in
  m ← it_set m it v;
  it_release m it.

(** One turn of the loop of [apply]. *)
Definition apply_chain {S} (func : S → Z * D → outcome S) (p : stripped_map D * S) (i : Z)
  : outcome (stripped_map D * S) :=
  let '(m, s) := p in
  locker_index ← modulo i (_L m);
  m ← lock_at m locker_index;
  match _buckets m !! Z.to_nat i with
  | None => UB
  | Some chain =>
    s ← foldM func (map b_kv chain) s;
    m ← unlock_at m locker_index;
    Ok (m, s)
  end.

Definition apply {S} (func : S → Z * D → outcome S) m (s : S)
  : outcome (stripped_map D * S) :=
  foldM (apply_chain func) (seqZ 0 (_N m)) (m, s).

End Map.
End StrippedMap.

(** ** [minmax_append] of [meas.cpp] *)

Abbreviation Id2MinMax := (StrippedMap.stripped_map MeasMinMax).
Definition MeasMinMax_default : MeasMinMax := mkMeasMinMax Meas_default Meas_default.

(** The lambda: the bucket of the entry in [out], updated. *)
Definition minmax_step (out : Id2MinMax) (v : Z * MeasMinMax) : outcome Id2MinMax :=
  StrippedMap.with_bucket MeasMinMax_default out v.1
    (fun d => Ok (updateMin (mm_min v.2) (updateMax (mm_max v.2) d))).

Definition minmax_append (out source : Id2MinMax) : outcome (Id2MinMax * Id2MinMax) :=
  r ← StrippedMap.apply minmax_step source out;
  Ok (r.2, r.1).

Import StrippedMap.

(** Nothing below depends on what the hash of a key is. *)
#[local] Opaque jenkins_one_at_a_time_hash.

(** ** Mutexes: lemmas *)

Lemma lock_Ok ls i :
  ls !! Z.to_nat i = Some false → lock ls i = Ok (<[Z.to_nat i := true]> ls).
Proof. unfold lock. by intros ->. Qed.

Lemma unlock_lock ls i :
  ls !! Z.to_nat i = Some false → unlock (<[Z.to_nat i := true]> ls) i = Ok ls.
Proof.
  intros H. unfold unlock.
  rewrite list_lookup_insert_eq by (by eapply lookup_lt_Some).
  by rewrite list_insert_insert_eq, list_insert_id.
Qed.

Lemma lock_range n k :
  foldM lock (seqZ (Z.of_nat k) (Z.of_nat n)) (replicate k true ++ replicate n false)
  = Ok (replicate (k + n) true).
Proof.
  revert k. induction n as [|n IH]; intros k.
  - by rewrite !Nat.add_0_r, app_nil_r.
  - rewrite seqZ_cons by lia. cbn [foldM].
    rewrite lock_Ok by (rewrite Nat2Z.id, lookup_app_r, length_replicate, Nat.sub_diag
                          by (rewrite length_replicate; lia); done).
    rewrite bind_Ok, Nat2Z.id, insert_app_r_alt, length_replicate, Nat.sub_diag
      by (rewrite length_replicate; lia).
    replace (Z.succ (Z.of_nat k)) with (Z.of_nat (S k)) by lia.
    replace (Z.pred (Z.of_nat (S n))) with (Z.of_nat n) by lia.
    replace (replicate k true ++ <[0%nat:=true]> (replicate (S n) false))
      with (replicate (S k) true ++ replicate n false).
    + rewrite IH. do 2 f_equal. lia.
    + cbn [replicate]. change (<[0%nat:=true]> (false :: replicate n false))
        with (true :: replicate n false).
      by rewrite (cons_middle true), app_assoc, <- (replicate_cons_app k true).
Qed.

Lemma unlock_range n k :
  foldM unlock (reverse (seqZ 0 (Z.of_nat n))) (replicate n true ++ replicate k false)
  = Ok (replicate (n + k) false).
Proof.
  revert k. induction n as [|n IH]; intros k; [done|].
  replace (Z.of_nat (S n)) with (Z.of_nat n + 1) by lia.
  rewrite seqZ_app, reverse_app, Z.add_0_l by lia.
  change (reverse (seqZ (Z.of_nat n) 1)) with [Z.of_nat n]. cbn [foldM app].
  assert (E : replicate (S n) true ++ replicate k false =
              <[n := true]> (replicate n true ++ replicate (S k) false)).
  { rewrite insert_app_r_alt, length_replicate, Nat.sub_diag by (rewrite length_replicate; lia).
    change (<[0%nat:=true]> (replicate (S k) false)) with (true :: replicate k false).
    by rewrite (cons_middle true), app_assoc, <- (replicate_cons_app n true). }
  rewrite E. rewrite <- (Nat2Z.id n) at 1.
  rewrite unlock_lock by (rewrite Nat2Z.id, lookup_app_r, length_replicate, Nat.sub_diag
                            by (rewrite length_replicate; lia); done).
  rewrite bind_Ok, IH. do 2 f_equal. lia.
Qed.

(** No mutex is held. *)
Definition unlocked {D} (m : stripped_map D) : Prop :=
  _lockers m = replicate (Z.to_nat (_L m)) false.

Lemma lock_all_Ok {D} (m : stripped_map D) :
  unlocked m → 0 <= _L m →
  lock_all m = Ok (set_lockers m (replicate (Z.to_nat (_L m)) true)).
Proof.
  intros Hu HL. unfold lock_all. rewrite Hu.
  pose proof (lock_range (Z.to_nat (_L m)) 0) as H. cbn [replicate app] in H.
  rewrite Z2Nat.id in H by lia. change (Z.of_nat 0) with 0 in H. by rewrite H.
Qed.

Lemma unlock_all_Ok {D} (m : stripped_map D) :
  _lockers m = replicate (Z.to_nat (_L m)) true → 0 < _L m →
  unlock_all m = Ok (set_lockers m (replicate (Z.to_nat (_L m)) false)).
Proof.
  intros Hl HL. unfold unlock_all. rewrite (proj2 (Z.eqb_neq _ 0)) by lia. rewrite Hl.
  pose proof (unlock_range (Z.to_nat (_L m)) 0) as H.
  rewrite app_nil_r, Nat.add_0_r, Z2Nat.id in H by lia. by rewrite H.
Qed.

(** ** Chains: lemmas *)

Abbreviation ascending := (strictly_by (fun x : Z => x)).
Abbreviation keys l := (@fmap list _ _ _ b_key l).

(** The head is where it was put first; the rest is sorted. *)
Definition chain_ok {D} (chain : list (bucket D)) : Prop :=
  NoDup (keys chain) ∧ ascending (tail (keys chain)).

(** What a search has done to a chain. *)
Definition found_or_put {D} (d : D) (hash k : Z) (chain : list (bucket D))
    (r : list (bucket D) * nat * bool) : Prop :=
  let '(c, p, fresh) := r in
  if fresh : bool
  then k ∉ keys chain ∧ c !! p = Some (Bucket hash k d) ∧
       c ≡ₚ Bucket hash k d :: chain
  else c = chain ∧ ∃ b, chain !! p = Some b ∧ b_key b = k.

Lemma sorted_head_lt {D} k (next : bucket D) l :
  ascending (keys (next :: l)) → k < b_key next → k ∉ keys (next :: l).
Proof.
  intros Hs Hk Hin. cbn in *. inversion_clear Hs as [|? ? _ Hall].
  apply elem_of_cons in Hin as [->|Hin]; [lia|].
  rewrite Forall_forall in Hall. specialize (Hall _ Hin). cbn in Hall. lia.
Qed.

(** A search that goes on after [iter]. *)
Lemma found_or_put_cons {D} (d : D) hash k iter rest c p fresh :
  b_key iter ≠ k → found_or_put d hash k rest (c, p, fresh) →
  found_or_put d hash k (iter :: rest) (iter :: c, S p, fresh).
Proof.
  intros Hne H. destruct fresh; cbn in *.
  - destruct H as (Hk & Hp & Hc). split_and!; [set_solver|done|].
    rewrite Hc. apply Permutation_swap.
  - destruct H as (-> & b & Hp & Hb). eauto.
Qed.

(** The node goes right after [iter]. *)
Lemma found_or_put_here {D} (d : D) hash k iter rest :
  b_key iter ≠ k → k ∉ keys rest →
  found_or_put d hash k (iter :: rest) (iter :: Bucket hash k d :: rest, 1%nat, true).
Proof. intros Hne Hk. cbn. split_and!; [set_solver|done|apply Permutation_swap]. Qed.

Lemma find_in_chain_cons2 {D} (d : D) hash k iter next l :
  find_in_chain d hash k (iter :: next :: l) =
  if b_key iter =? k then (iter :: next :: l, 0%nat, false)
  else if k <? b_key next then (iter :: Bucket hash k d :: next :: l, 1%nat, true)
  else let '(c, p, fresh) := find_in_chain d hash k (next :: l) in (iter :: c, S p, fresh).
Proof. reflexivity. Qed.

Lemma find_in_chain_sorted {D} (d : D) hash k iter rest r :
  ascending (keys (iter :: rest)) → b_key iter <= k →
  find_in_chain d hash k (iter :: rest) = r →
  found_or_put d hash k (iter :: rest) r ∧ ascending (keys r.1.1) ∧
  head r.1.1 = Some iter.
Proof.
  revert iter r. induction rest as [|next l IH]; intros iter r Hs Hh <-;
    [cbn [find_in_chain]|rewrite find_in_chain_cons2];
    destruct (Z.eqb_spec (b_key iter) k) as [He|Hne];
    try (split_and!; [cbn; eauto|exact Hs|done]).
  - split_and!; [by apply found_or_put_here; [|apply not_elem_of_nil]| |done].
    repeat constructor. cbn. lia.
  - inversion_clear Hs as [|? ? Hs' Hall].
    destruct (Z.ltb_spec k (b_key next)) as [Hlt|Hge].
    + split_and!; [apply found_or_put_here; [done|by apply sorted_head_lt]| |done].
      constructor; [constructor; [done|]|constructor; [cbn; lia|done]].
      inversion_clear Hs' as [|? ? _ Hn]. constructor; [done|].
      eapply Forall_impl; [exact Hn|]. cbn. intros; lia.
    + destruct (IH next _ Hs' Hge eq_refl) as (Hf & Hc & Hd).
      destruct (find_in_chain d hash k (next :: l)) as [[c p] fresh] eqn:E.
      split_and!; [by apply found_or_put_cons| |done].
      destruct c as [|x c]; [done|]. cbn in Hd. simplify_eq.
      cbn [fst fmap list_fmap] in *. constructor; [done|].
      inversion_clear Hall as [|? ? Hin _]. inversion_clear Hc as [|? ? _ Hn].
      constructor; [done|]. eapply Forall_impl; [exact Hn|]. cbn. intros. lia.
Qed.

Lemma find_in_chain_ok {D} (d : D) hash k chain :
  chain_ok chain →
  found_or_put d hash k chain (find_in_chain d hash k chain) ∧
  chain_ok (find_in_chain d hash k chain).1.1.
Proof.
  intros [Hnd Hs].
  assert (Hput : found_or_put d hash k chain (find_in_chain d hash k chain) ∧
            ascending (tail (keys (find_in_chain d hash k chain).1.1))).
  { destruct chain as [|iter rest].
    { cbn. split_and!; [set_solver|done|done|constructor]. }
    destruct (Z.eqb_spec (b_key iter) k) as [He|Hne].
    { replace (find_in_chain d hash k (iter :: rest)) with (iter :: rest, 0%nat, false)
        by (cbn [find_in_chain]; by rewrite (proj2 (Z.eqb_eq _ _) He)).
      split; [cbn; eauto|exact Hs]. }
    apply Z.eqb_neq in Hne as Hne'. destruct rest as [|next l].
    { cbn [find_in_chain]. rewrite Hne'.
      split; [by apply found_or_put_here; [|apply not_elem_of_nil]|repeat constructor]. }
    rewrite find_in_chain_cons2, Hne'.
    cbn [fmap list_fmap tail] in Hs. destruct (Z.ltb_spec k (b_key next)) as [Hlt|Hge].
    - split; [apply found_or_put_here; [done|by apply sorted_head_lt]|].
      cbn. constructor; [done|]. inversion_clear Hs as [|? ? _ Hn].
      constructor; [done|]. eapply Forall_impl; [exact Hn|]. cbn. intros. lia.
    - destruct (find_in_chain_sorted d hash k next l _ Hs Hge eq_refl) as (Hf & Hc & _).
      destruct (find_in_chain d hash k (next :: l)) as [[c p] fresh].
      split; [by apply found_or_put_cons|done]. }
  destruct Hput as [Hf Ht]. split; [done|]. split; [|done].
  destruct (find_in_chain d hash k chain) as [[c p] fresh]. cbn in *.
  destruct fresh; [|by destruct Hf as [-> _]].
  destruct Hf as (Hk & _ & ->). cbn. by constructor.
Qed.

(** [rehash] puts a node where [find_bucket] would create it. *)
Lemma insert_in_chain_find {D} (b : bucket D) chain :
  b_key b ∉ keys chain →
  insert_in_chain b chain = (find_in_chain (b_data b) (b_hash b) (b_key b) chain).1.1.
Proof.
  assert (Hb : Bucket (b_hash b) (b_key b) (b_data b) = b) by by destruct b.
  induction chain as [|t rest IH]; intros Hk; [cbn; by rewrite Hb|].
  assert (Hne : b_key t =? b_key b = false) by (apply Z.eqb_neq; set_solver).
  destruct rest as [|next l]; [cbn; by rewrite Hne, Hb|].
  rewrite find_in_chain_cons2, Hne, Hb.
  change (insert_in_chain b (t :: next :: l))
    with (if b_key b <? b_key next then t :: b :: next :: l
          else t :: insert_in_chain b (next :: l)).
  destruct (b_key b <? b_key next); [done|]. rewrite IH by set_solver.
  by destruct (find_in_chain _ _ _ (next :: l)) as [[c p] fresh].
Qed.

Lemma find_node_elem {D} k (chain : list (bucket D)) d :
  NoDup (keys chain) →
  find_node k chain = Some d ↔ ∃ b, b ∈ chain ∧ b_key b = k ∧ b_data b = d.
Proof.
  induction chain as [|x chain IH]; cbn; intros Hnd.
  { split; [done|]. intros (b & Hb & _). by apply not_elem_of_nil in Hb. }
  apply NoDup_cons in Hnd as [Hx Hnd]. destruct (Z.eqb_spec (b_key x) k) as [<-|Hne].
  - split; [intros [= <-]; exists x; set_solver|]. intros (b & Hb & Hk & <-).
    apply elem_of_cons in Hb as [->|Hb]; [done|]. destruct Hx. rewrite <- Hk.
    by apply list_elem_of_fmap_2.
  - rewrite IH by done. split; intros (b & Hb & Hk & Hd); exists b; set_solver.
Qed.

(** ** Tables of chains *)

Definition index_of (N k : Z) : nat := Z.to_nat (hasher k mod N).

Definition in_chain {D} (N : Z) (i : nat) (b : bucket D) : Prop :=
  b_hash b = hasher (b_key b) ∧ index_of N (b_key b) = i.

(** The chains [bs] hold the nodes [nodes], each in the chain of its hash. *)
Record table {D} (N : Z) (bs : list (list (bucket D))) (nodes : list (bucket D)) : Prop := {
  table_length : length bs = Z.to_nat N;
  table_chains : ∀ i chain,
    bs !! i = Some chain → chain_ok chain ∧ Forall (in_chain N i) chain;
  table_nodes : concat bs ≡ₚ nodes;
  table_keys : NoDup (keys nodes);
}.

Lemma concat_split {A} (bs : list (list A)) i chain :
  bs !! i = Some chain →
  ∃ rest, concat bs ≡ₚ chain ++ rest ∧ ∀ c, concat (<[i := c]> bs) ≡ₚ c ++ rest.
Proof.
  intros Hi. exists (concat (take i bs) ++ concat (drop (S i) bs)). split.
  - rewrite <- (take_drop_middle bs i chain) at 1 by done.
    rewrite concat_app. cbn. by rewrite !(assoc_L app), (comm app (concat (take i bs)) chain).
  - intros c. rewrite insert_take_drop by (by eapply lookup_lt_Some).
    rewrite concat_app. cbn. by rewrite !(assoc_L app), (comm app (concat (take i bs)) c).
Qed.

Lemma lookup_split {A} (l : list A) p x :
  l !! p = Some x → ∃ r, l ≡ₚ x :: r ∧ ∀ y, <[p := y]> l ≡ₚ y :: r.
Proof.
  intros Hp. exists (take p l ++ drop (S p) l). split.
  - rewrite <- (take_drop_middle l p x) at 1 by done. by rewrite Permutation_middle.
  - intros y. rewrite insert_take_drop by (by eapply lookup_lt_Some).
    by rewrite Permutation_middle.
Qed.

Section Table.
Context {D : Type}.
Implicit Types (bs : list (list (bucket D))) (nodes : list (bucket D)).

Definition abs nodes : gmap Z D := list_to_map (b_kv <$> nodes).

Lemma abs_Some nodes k d :
  NoDup (keys nodes) → abs nodes !! k = Some d ↔ ∃ b, b ∈ nodes ∧ b_key b = k ∧ b_data b = d.
Proof.
  intros Hnd. unfold abs. rewrite <- elem_of_list_to_map.
  - rewrite list_elem_of_fmap. split.
    + intros (b & [= -> ->] & Hb). eauto.
    + intros (b & Hb & <- & <-). eauto.
  - by rewrite <- list_fmap_compose.
Qed.

Lemma index_of_lt N k : 0 < N → (index_of N k < Z.to_nat N)%nat.
Proof. intros. unfold index_of. pose proof (Z.mod_pos_bound (hasher k) N). lia. Qed.

Lemma table_lookup N bs nodes k :
  table N bs nodes → 0 < N →
  ∃ chain, bs !! index_of N k = Some chain ∧
    ∀ b, b_key b = k → b ∈ nodes ↔ b ∈ chain.
Proof.
  intros [Hl Hc Hn _] HN.
  destruct (lookup_lt_is_Some_2 bs (index_of N k)) as [chain Hi].
  { rewrite Hl. by apply index_of_lt. }
  exists chain. split; [done|]. intros b <-. rewrite <- Hn, list_elem_of_In, in_concat.
  split; [|intros; exists chain; split; apply list_elem_of_In; [by eapply list_elem_of_lookup_2|done]].
  intros (c & Hin & Hb). apply list_elem_of_In in Hin, Hb.
  apply list_elem_of_lookup in Hin as [j Hj].
  destruct (Hc _ _ Hj) as [_ Hall]. rewrite Forall_forall in Hall.
  destruct (Hall _ Hb) as [_ <-]. by simplify_eq.
Qed.

Lemma table_put N bs nodes b chain c :
  table N bs nodes → bs !! index_of N (b_key b) = Some chain →
  chain_ok c → c ≡ₚ b :: chain → b_hash b = hasher (b_key b) → b_key b ∉ keys nodes →
  table N (<[index_of N (b_key b) := c]> bs) (b :: nodes).
Proof.
  intros [Hl Hc Hn Hk] Hi Hok Hp Hh Hb. split.
  - by rewrite length_insert.
  - intros j ch Hj. apply list_lookup_insert_Some in Hj as [(<- & <- & _)|[_ Hj]]; [|by apply Hc].
    split; [done|]. rewrite Hp. constructor; [done|]. by apply Hc.
  - destruct (concat_split bs _ chain Hi) as (rest & E & Ec). by rewrite Ec, Hp, <- Hn, E.
  - cbn. by constructor.
Qed.

Lemma table_set N bs nodes rest i chain p b d :
  table N bs nodes → bs !! i = Some chain → chain !! p = Some b → nodes ≡ₚ b :: rest →
  table N (<[i := <[p := Bucket (b_hash b) (b_key b) d]> chain]> bs)
    (Bucket (b_hash b) (b_key b) d :: rest).
Proof.
  intros [Hl Hc Hn Hk] Hi Hp Hr. set (b' := Bucket _ _ d).
  assert (Hkeys : keys (<[p := b']> chain) = keys chain).
  { rewrite list_fmap_insert. apply list_insert_id. by rewrite list_lookup_fmap, Hp. }
  split.
  - by rewrite length_insert.
  - intros j ch Hj. apply list_lookup_insert_Some in Hj as [(<- & <- & _)|[_ Hj]]; [|by apply Hc].
    destruct (Hc _ _ Hi) as [Hok Hall]. split; [by unfold chain_ok; rewrite Hkeys|].
    apply Forall_insert; [done|]. by apply (Forall_lookup_1 _ _ _ _ Hall Hp).
  - destruct (concat_split bs _ chain Hi) as (r & E & Ec).
    destruct (lookup_split chain p b Hp) as (q & Eq & Eq').
    rewrite Ec, Eq'. cbn. constructor.
    apply (Permutation_cons_inv (a := b)). by rewrite <- Hr, <- Hn, E, Eq.
  - rewrite Hr in Hk. done.
Qed.

Lemma abs_set nodes b d rest :
  nodes ≡ₚ b :: rest → NoDup (keys nodes) →
  abs (Bucket (b_hash b) (b_key b) d :: rest) = <[b_key b := d]> (abs nodes).
Proof.
  intros Hr Hk. unfold abs. rewrite (list_to_map_proper (b_kv <$> nodes) (b_kv <$> b :: rest)).
  - cbn. by rewrite insert_insert_eq.
  - by rewrite <- list_fmap_compose.
  - by rewrite Hr.
Qed.
End Table.

(** ** The operations of the map *)

Lemma modulo_Ok a b : 0 < b → modulo a b = Ok (a mod b).
Proof. intros. unfold modulo. by rewrite (proj2 (Z.eqb_neq _ _)) by lia. Qed.

Section Ops.
Context {D : Type} (d0 : D).
Implicit Types (m : stripped_map D) (nodes : list (bucket D)).

(** The map [m] holds [nodes]; the number of mutexes divides that of chains. *)
Record wf m nodes : Prop := {
  wf_L : 0 < _L m;
  wf_div : (_L m | _N m);
  wf_N : 0 < _N m < 2 ^ 64;
  wf_table : table (_N m) (_buckets m) nodes;
  wf_size : _size m = Z.of_nat (length nodes);
}.

(** [it] holds its mutex and no other one is held. *)
Definition held m (it : iterator) : Prop :=
  0 <= it_locker it < _L m ∧
  _lockers m = <[Z.to_nat (it_locker it) := true]> (replicate (Z.to_nat (_L m)) false).

Lemma table_empty N : table N (replicate (Z.to_nat N) []) ([] : list (bucket D)).
Proof.
  split.
  - by rewrite length_replicate.
  - intros i chain Hi. apply lookup_replicate in Hi as [-> _]. split; [|done].
    split; constructor.
  - by induction (Z.to_nat N).
  - constructor.
Qed.

Lemma move_all N todo placed bs :
  0 < N → table N bs placed → NoDup (keys (todo ++ placed)) →
  Forall (fun b : bucket D => b_hash b = hasher (b_key b)) todo →
  ∃ bs', foldM (move_node N) todo bs = Ok bs' ∧ table N bs' (rev todo ++ placed).
Proof.
  intros HN. revert placed bs. induction todo as [|b todo IH]; intros placed bs Ht Hnd Hh.
  { exists bs. done. }
  cbn in Hnd. apply NoDup_cons in Hnd as [Hb Hnd].
  inversion_clear Hh as [|? ? Hbh Hh'].
  destruct (table_lookup N bs placed (b_key b) Ht HN) as (chain & Hi & Hin).
  destruct (table_chains _ _ _ Ht _ _ Hi) as [Hok _].
  assert (Hbp : b_key b ∉ keys placed) 
    by (rewrite fmap_app, not_elem_of_app in Hb; apply Hb).
  assert (Hbc : b_key b ∉ keys chain).
  { rewrite list_elem_of_fmap. intros (b' & Heq & Hb'). apply Hbp. rewrite Heq.
    apply list_elem_of_fmap_2. by apply Hin. }
  pose proof (find_in_chain_ok (b_data b) (b_hash b) (b_key b) chain Hok) as [Hf Hok'].
  rewrite <- insert_in_chain_find in Hok' by done.
  assert (Hp : insert_in_chain b chain ≡ₚ b :: chain).
  { rewrite insert_in_chain_find by done.
    destruct (find_in_chain _ _ _ chain) as [[c p] [|]]; cbn in Hf.
    - destruct Hf as (_ & _ & ->). by destruct b.
    - destruct Hf as (-> & b' & Hb' & Heq). destruct Hbc. rewrite <- Heq.
      apply list_elem_of_fmap_2. by eapply list_elem_of_lookup_2. }
  cbn [foldM]. unfold move_node at 2. rewrite modulo_Ok, bind_Ok, Hbh by done.
  fold (index_of N (b_key b)). rewrite Hi, bind_Ok.
  destruct (IH (b :: placed) (<[index_of N (b_key b) := insert_in_chain b chain]> bs))
    as (bs' & E & Ht'); [by eapply table_put| |done|].
  - rewrite fmap_app in *. cbn. rewrite <- Permutation_middle. by constructor.
  - exists bs'. split; [done|]. cbn [rev]. by rewrite <- app_assoc.
Qed.

Lemma table_perm N bs nodes nodes' :
  nodes ≡ₚ nodes' → table N bs nodes → table N bs nodes'.
Proof. intros Hp [Hl Hc Hn Hk]. split; [done|done|by rewrite <- Hp|by rewrite <- Hp]. Qed.

Lemma table_hashes N bs nodes :
  table N bs nodes → Forall (fun b => b_hash b = hasher (b_key b)) nodes.
Proof.
  intros [_ Hc Hn _]. rewrite <- Hn, Forall_forall. intros b Hb.
  rewrite list_elem_of_In, in_concat in Hb. destruct Hb as (c & Hin & Hb).
  apply list_elem_of_In in Hin, Hb. apply list_elem_of_lookup in Hin as [j Hj].
  destruct (Hc _ _ Hj) as [_ Hall]. rewrite Forall_forall in Hall. by apply Hall.
Qed.

Lemma rehash_spec m nodes :
  wf m nodes → unlocked m → _size m < 2 ^ 62 →
  ∃ m', rehash m = Ok m' ∧ wf m' nodes ∧ unlocked m' ∧ _size m' = _size m.
Proof.
  intros [HL Hd HN Ht Hs] Hu Hlt. unfold rehash.
  destruct (overloaded m) eqn:Ho; [|by exists m].
  rewrite lock_all_Ok by (done || lia). rewrite bind_Ok.
  change (overloaded (set_lockers m _)) with (overloaded m). rewrite Ho.
  unfold overloaded in Ho. breflect. cbn [_N _buckets _size _L _lockers set_lockers].
  rewrite wrap_small by lia. rewrite foldM_concat.
  destruct (move_all (_N m * 2) (concat (_buckets m)) [] (replicate (Z.to_nat (_N m * 2)) []))
    as (bs' & -> & Ht'); [lia|apply table_empty| | |].
  - rewrite app_nil_r, (table_nodes _ _ _ Ht). by apply (table_keys _ _ _ Ht).
  - rewrite (table_nodes _ _ _ Ht). by eapply table_hashes.
  - rewrite !bind_Ok, unlock_all_Ok by done. eexists. split; [done|].
    split_and!; [|done|done]. split; cbn; [done|by apply Z.divide_mul_l|lia| |done].
    eapply table_perm, Ht'. rewrite app_nil_r, Permutation_rev, rev_involutive.
    apply (table_nodes _ _ _ Ht).
Qed.

Lemma lock_index_lt m nodes k : wf m nodes → 0 <= hasher k mod _L m < _L m.
Proof. intros [HL _ _ _ _]. by apply Z.mod_pos_bound. Qed.

Lemma unlocked_lookup m i :
  unlocked m → 0 <= i < _L m → _lockers m !! Z.to_nat i = Some false.
Proof. intros -> Hi. apply lookup_replicate. split; [done|lia]. Qed.

Lemma lock_at_Ok m i :
  unlocked m → 0 <= i < _L m →
  lock_at m i = Ok (set_lockers m (<[Z.to_nat i := true]> (_lockers m))).
Proof. intros Hu Hi. unfold lock_at. by rewrite lock_Ok by by apply unlocked_lookup. Qed.

(** Releasing the only mutex held. *)
Lemma unlock_at_Ok m i :
  0 <= i < _L m →
  _lockers m = <[Z.to_nat i := true]> (replicate (Z.to_nat (_L m)) false) →
  unlock_at m i = Ok (set_lockers m (replicate (Z.to_nat (_L m)) false)).
Proof.
  intros Hi Hl. unfold unlock_at. rewrite Hl, unlock_lock; [done|].
  apply lookup_replicate. split; [done|lia].
Qed.

Lemma set_lockers_id m ls :
  unlocked m → set_lockers (set_lockers m ls) (replicate (Z.to_nat (_L m)) false) = m.
Proof. unfold unlocked. destruct m. cbn. by intros ->. Qed.

Lemma find_spec m nodes k :
  wf m nodes → unlocked m → find m k = Ok (m, abs nodes !! k).
Proof.
  intros Hw Hu. pose proof (lock_index_lt _ _ k Hw) as Hi. destruct Hw as [HL Hd HN Ht Hs].
  destruct (table_lookup _ _ _ k Ht) as (chain & Hc & Hin); [lia|].
  unfold find. rewrite modulo_Ok, bind_Ok, lock_at_Ok, bind_Ok by done.
  cbn [_N _buckets set_lockers]. rewrite modulo_Ok, bind_Ok by lia.
  fold (index_of (_N m) k). rewrite Hc, unlock_at_Ok by (cbn; by rewrite ?Hu).
  rewrite bind_Ok. cbn [_L set_lockers]. rewrite set_lockers_id by done. do 2 f_equal.
  apply option_eq. intros d.
  rewrite find_node_elem, abs_Some by apply (table_chains _ _ _ Ht _ _ Hc) || apply Ht.
  split; intros (b & Hb & Hk & Hbd); exists b; split_and!; try done; by apply Hin.
Qed.

(** What [find_bucket] hands out: the node of [k] in the map [m'], created with
    the default datum where there was none. *)
Record located m' it nodes k (nodes' : list (bucket D)) (b : bucket D) : Prop := {
  loc_wf : wf m' nodes';
  loc_held : held m' it;
  loc_node : ∃ chain, _buckets m' !! (it_v it).1 = Some chain ∧ chain !! (it_v it).2 = Some b;
  loc_elem : ∃ rest, nodes' ≡ₚ b :: rest;
  loc_key : b_key b = k;
  loc_data : b_data b = default d0 (abs nodes !! k);
  loc_abs : abs nodes' = <[k := b_data b]> (abs nodes);
  loc_size : (length nodes' <= S (length nodes))%nat;
}.

Lemma find_bucket_spec m nodes k :
  wf m nodes → unlocked m → _size m < 2 ^ 62 →
  ∃ m' it nodes' b, find_bucket d0 m k = Ok (m', it) ∧ located m' it nodes k nodes' b.
Proof.
  intros Hw Hu Hlt. unfold find_bucket.
  destruct (rehash_spec m nodes Hw Hu Hlt) as (m1 & -> & Hw1 & Hu1 & Hs1). rewrite bind_Ok.
  pose proof (lock_index_lt _ _ k Hw1) as Hi. destruct Hw1 as [HL Hd HN Ht Hs].
  destruct (table_lookup _ _ _ k Ht) as (chain & Hc & Hin); [lia|].
  rewrite modulo_Ok, bind_Ok, lock_at_Ok, bind_Ok by done.
  cbn [_N _buckets set_lockers _lockers _L _size]. rewrite modulo_Ok, bind_Ok by lia.
  fold (index_of (_N m1) k). rewrite Hc.
  destruct (table_chains _ _ _ Ht _ _ Hc) as [Hok _].
  pose proof (find_in_chain_ok d0 (hasher k) k chain Hok) as [Hf Hok'].
  pose proof (table_keys _ _ _ Ht) as Hnd.
  destruct (find_in_chain d0 (hasher k) k chain) as [[c p] [|]]; cbn in Hf, Hok'.
  - destruct Hf as (Hk & Hp & Hperm). set (b := Bucket (hasher k) k d0) in *.
    assert (Hkn : k ∉ keys nodes).
    { rewrite list_elem_of_fmap. intros (b' & Heq & Hb'). apply Hk. rewrite Heq.
      apply list_elem_of_fmap_2. by apply Hin. }
    eexists _, _, (b :: nodes), b. split; [done|]. split; cbn; try done.
    + split; cbn; try done; [|rewrite wrap_small; lia].
      by apply (table_put (_N m1) (_buckets m1) nodes b chain c).
    + split; [done|]. by rewrite Hu1.
    + exists c. split; [|done]. apply list_lookup_insert_eq. by eapply lookup_lt_Some.
    + by eexists.
    + destruct (abs nodes !! k) eqn:E; [|reflexivity].
      apply abs_Some in E as (b' & Hb' & <- & _); [|done]. destruct Hkn.
      by apply list_elem_of_fmap_2.
  - destruct Hf as (-> & b & Hp & Hk).
    assert (Hb : b ∈ nodes) by (apply Hin; [done|by eapply list_elem_of_lookup_2]).
    assert (Hab : abs nodes !! k = Some (b_data b)).
    { apply abs_Some; [done|]. by exists b. }
    eexists _, _, nodes, b. split; [done|]. split; cbn; try done.
    + rewrite (list_insert_id _ _ _ Hc). by split.
    + split; [done|]. by rewrite Hu1.
    + exists chain. split; [|done]. apply list_lookup_insert_eq. by eapply lookup_lt_Some.
    + apply list_elem_of_lookup in Hb as [j Hj]. destruct (lookup_split _ _ _ Hj) as (r & Er & _).
      by exists r.
    + by rewrite Hab.
    + by rewrite insert_id.
    + lia.
Qed.

(** Writing through the iterator and leaving its scope. *)
Lemma it_set_release m it nodes k nodes' b d :
  located m it nodes k nodes' b →
  it_get m it = Ok (b_data b) ∧
  ∃ m' nodes2, (m ← it_set m it d; it_release m it) = Ok m' ∧ wf m' nodes2 ∧ unlocked m' ∧
    abs nodes2 = <[k := d]> (abs nodes) ∧ length nodes2 = length nodes'.
Proof.
  intros [Hw [Hi Hl] (chain & Hc & Hp) (rest & Hr) <- Hd Ha _].
  pose proof (table_keys _ _ _ (wf_table _ _ Hw)) as Hnd.
  split; [unfold it_get; by rewrite Hc; cbn; rewrite Hp|].
  unfold it_set. rewrite Hc. cbn. rewrite Hp. cbn. unfold it_release.
  rewrite unlock_at_Ok by done. eexists _, (Bucket (b_hash b) (b_key b) d :: rest).
  split; [done|]. destruct Hw as [HL Hdv HN Ht Hs]. split_and!.
  - split; cbn; try done; [by eapply table_set|].
    rewrite Hs, Hr. done.
  - done.
  - rewrite (abs_set nodes') by done. by rewrite Ha, insert_insert_eq.
  - by rewrite Hr.
Qed.

(** An iterator that is only read and dropped. *)
Lemma it_get_release m it nodes k nodes' b :
  located m it nodes k nodes' b →
  it_get m it = Ok (b_data b) ∧
  ∃ m', it_release m it = Ok m' ∧ wf m' nodes' ∧ unlocked m'.
Proof.
  intros Hloc. split; [by apply (it_set_release _ _ _ _ _ _ (b_data b) Hloc)|].
  destruct Hloc as [Hw [Hi Hl] _ _ _ _ _ _]. unfold it_release. rewrite unlock_at_Ok by done.
  eexists. split; [done|]. split; [|done]. by destruct Hw.
Qed.

Lemma insert_spec m nodes k v :
  wf m nodes → unlocked m → _size m < 2 ^ 62 →
  ∃ m' nodes', insert d0 m k v = Ok m' ∧ wf m' nodes' ∧ unlocked m' ∧
    abs nodes' = <[k := v]> (abs nodes) ∧ (length nodes' <= S (length nodes))%nat.
Proof.
  intros Hw Hu Hlt.
  destruct (find_bucket_spec m nodes k Hw Hu Hlt) as (m1 & it & nodes1 & b & E & Hloc).
  destruct (it_set_release _ _ _ _ _ _ v Hloc) as [_ (m2 & nodes2 & E2 & Hw2 & Hu2 & Ha & Hlen)].
  exists m2, nodes2. unfold insert. rewrite E, bind_Ok. split_and!; try done.
  rewrite Hlen. apply Hloc.
Qed.

Lemma with_bucket_spec m nodes k f d :
  wf m nodes → unlocked m → _size m < 2 ^ 62 →
  f (default d0 (abs nodes !! k)) = Ok d →
  ∃ m' nodes', with_bucket d0 m k f = Ok m' ∧ wf m' nodes' ∧ unlocked m' ∧
    abs nodes' = <[k := d]> (abs nodes) ∧ (length nodes' <= S (length nodes))%nat.
Proof.
  intros Hw Hu Hlt Hf.
  destruct (find_bucket_spec m nodes k Hw Hu Hlt) as (m1 & it & nodes1 & b & E & Hloc).
  destruct (it_set_release _ _ _ _ _ _ d Hloc) as [Eg (m2 & nodes2 & E2 & Hw2 & Hu2 & Ha & Hlen)].
  exists m2, nodes2. unfold with_bucket.
  rewrite E, bind_Ok, Eg, bind_Ok, (loc_data _ _ _ _ _ _ Hloc), Hf, bind_Ok. split_and!; try done.
  rewrite Hlen. apply Hloc.
Qed.

Lemma apply_chain_Ok {S} (func : S → Z * D → outcome S) m nodes i chain s s' :
  wf m nodes → unlocked m → _buckets m !! i = Some chain →
  foldM func (map b_kv chain) s = Ok s' →
  apply_chain func (m, s) (Z.of_nat i) = Ok (m, s').
Proof.
  intros [HL _ _ _ _] Hu Hi Hf. unfold apply_chain.
  pose proof (Z.mod_pos_bound (Z.of_nat i) (_L m) HL).
  rewrite modulo_Ok, bind_Ok, lock_at_Ok, bind_Ok by done.
  cbn [_buckets set_lockers]. rewrite Nat2Z.id, Hi, Hf, bind_Ok.
  rewrite unlock_at_Ok by (cbn; by rewrite ?Hu). rewrite bind_Ok. cbn [_L set_lockers].
  by rewrite set_lockers_id.
Qed.

(** [apply] shows every node to the function, chain after chain. *)
Lemma apply_spec {S} (func : S → Z * D → outcome S) m nodes s s' :
  wf m nodes → unlocked m →
  foldM func (map b_kv (concat (_buckets m))) s = Ok s' →
  apply func m s = Ok (m, s').
Proof.
  intros Hw Hu.
  assert (Hgen : ∀ post pre s, _buckets m = pre ++ post →
    foldM func (map b_kv (concat post)) s = Ok s' →
    foldM (apply_chain func) (seqZ (Z.of_nat (length pre)) (Z.of_nat (length post))) (m, s)
    = Ok (m, s')).
  { induction post as [|chain post IH]; intros pre s1 Hb Hf; [cbn in *; by simplify_eq|].
    cbn [concat] in Hf. rewrite map_app, foldM_app in Hf.
    destruct (foldM func (map b_kv chain) s1) as [s2| | |] eqn:E; try done.
    cbn [length]. rewrite seqZ_cons by lia. cbn [foldM].
    rewrite (apply_chain_Ok func m nodes _ chain s1 s2), bind_Ok; try done.
    - specialize (IH (pre ++ [chain]) s2).
      rewrite length_app, Nat2Z.inj_add in IH. cbn [length] in IH.
      replace (Z.pred (Z.of_nat (Datatypes.S (length post)))) with (Z.of_nat (length post)) by lia.
      apply IH; [by rewrite <- app_assoc|done].
    - rewrite Hb. by apply list_lookup_middle. }
  intros Hf. unfold apply. destruct Hw as [_ _ HN [Hl _ _ _] _].
  specialize (Hgen (_buckets m) [] s eq_refl Hf). cbn [length] in Hgen.
  by rewrite Hl, Z2Nat.id in Hgen by lia.
Qed.

Lemma make_wf N : 0 < N < 2 ^ 64 → wf (make N) [] ∧ unlocked (make N : stripped_map D).
Proof.
  intros HN. split; [|done]. split; cbn; try done; try lia; [apply table_empty].
Qed.
End Ops.

(** ** The map refines a finite map *)

(** The calls of a client; an iterator is dropped at the end of its statement. *)
Inductive op (D : Type) :=
| OpFind (k : Z)
| OpInsert (k : Z) (v : D)
| OpFindBucket (k : Z)
| OpRehash
| OpApply.
Arguments OpFind {D} k.
Arguments OpInsert {D} k v.
Arguments OpFindBucket {D} k.
Arguments OpRehash {D}.
Arguments OpApply {D}.

Inductive answer (D : Type) :=
| Found (d : option D)
| Visited (l : list (Z * D))
| Void.
Arguments Found {D} d.
Arguments Visited {D} l.
Arguments Void {D}.

Definition run_op {D} (d0 : D) (m : stripped_map D) (o : op D)
  : outcome (stripped_map D * answer D) :=
  match o with
  | OpFind k => r ← find m k; Ok (r.1, Found r.2)
  | OpInsert k v => m ← insert d0 m k v; Ok (m, Void)
  | OpFindBucket k => m ← with_bucket d0 m k Ok; Ok (m, Void)
  | OpRehash => m ← rehash m; Ok (m, Void)
  | OpApply => r ← apply (fun l kv => Ok (l ++ [kv])) m []; Ok (r.1, Visited r.2)
  end.

Fixpoint run_ops {D} (d0 : D) (os : list (op D)) (m : stripped_map D)
  : outcome (stripped_map D * list (answer D)) :=
  match os with
  | [] => Ok (m, [])
  | o :: os =>
    r ← run_op d0 m o;
    r' ← run_ops d0 os r.1;
    Ok (r'.1, r.2 :: r'.2)
  end.

(** The answers of a finite map to the same calls: [apply] visits every entry
    once, in an order that is not fixed. *)
Inductive served {D} (d0 : D) : gmap Z D → list (op D) → list (answer D) → gmap Z D → Prop :=
| served_nil M : served d0 M [] [] M
| served_find M k os as_ M' :
    served d0 M os as_ M' → served d0 M (OpFind k :: os) (Found (M !! k) :: as_) M'
| served_insert M k v os as_ M' :
    served d0 (<[k := v]> M) os as_ M' → served d0 M (OpInsert k v :: os) (Void :: as_) M'
| served_find_bucket M k os as_ M' :
    served d0 (<[k := default d0 (M !! k)]> M) os as_ M' →
    served d0 M (OpFindBucket k :: os) (Void :: as_) M'
| served_rehash M os as_ M' :
    served d0 M os as_ M' → served d0 M (OpRehash :: os) (Void :: as_) M'
| served_apply M l os as_ M' :
    l ≡ₚ map_to_list M → served d0 M os as_ M' →
    served d0 M (OpApply :: os) (Visited l :: as_) M'.

Lemma apply_collect {D} (m : stripped_map D) nodes :
  wf m nodes → unlocked m →
  apply (fun l kv => Ok (l ++ [kv])) m [] = Ok (m, map b_kv (concat (_buckets m))).
Proof.
  intros Hw Hu. eapply apply_spec; [done..|].
  assert (Hgen : ∀ (l acc : list (Z * D)),
            foldM (fun l kv => Ok (l ++ [kv])) l acc = Ok (acc ++ l)).
  { induction l as [|x l IH]; intros acc; cbn; [by rewrite app_nil_r|].
    by rewrite IH, <- app_assoc. }
  apply Hgen.
Qed.

Lemma entries_perm {D} (m : stripped_map D) nodes :
  wf m nodes → map b_kv (concat (_buckets m)) ≡ₚ map_to_list (abs nodes).
Proof.
  intros [_ _ _ [_ _ Hn Hk] _]. unfold abs. rewrite map_to_list_to_map.
  - by rewrite Hn.
  - by rewrite <- list_fmap_compose.
Qed.

Lemma size_abs {D} (nodes : list (bucket D)) :
  NoDup (keys nodes) → size (abs nodes) = length nodes.
Proof.
  intros Hk. rewrite <- length_map_to_list. unfold abs. rewrite map_to_list_to_map.
  - apply length_fmap.
  - by rewrite <- list_fmap_compose.
Qed.

Lemma run_ops_served {D} (d0 : D) os m nodes :
  wf m nodes → unlocked m → Z.of_nat (length nodes + length os) < 2 ^ 62 →
  ∃ m' as_ nodes', run_ops d0 os m = Ok (m', as_) ∧ served d0 (abs nodes) os as_ (abs nodes') ∧
    wf m' nodes' ∧ unlocked m'.
Proof.
  revert m nodes. induction os as [|o os IH]; intros m nodes Hw Hu Hlt.
  { exists m, [], nodes. split_and!; try done. constructor. }
  cbn [length] in Hlt. pose proof (wf_size _ _ Hw) as Hs.
  destruct o as [k|k v|k| |]; cbn [run_ops run_op].
  - rewrite (find_spec m nodes) by done. cbn.
    destruct (IH m nodes Hw Hu) as (m' & a & n' & -> & ? & ? & ?); [lia|].
    eexists _, _, n'. split_and!; [done|by constructor|done..].
  - destruct (insert_spec d0 m nodes k v Hw Hu) as (m1 & n1 & -> & Hw1 & Hu1 & Ha & Hl); [lia|].
    cbn. destruct (IH m1 n1 Hw1 Hu1) as (m' & a & n' & -> & Hsv & ? & ?); [lia|].
    rewrite Ha in Hsv. eexists _, _, n'. split_and!; [done|by constructor|done..].
  - destruct (with_bucket_spec d0 m nodes k Ok _ Hw Hu ltac:(lia) eq_refl)
      as (m1 & n1 & -> & Hw1 & Hu1 & Ha & Hl).
    cbn. destruct (IH m1 n1 Hw1 Hu1) as (m' & a & n' & -> & Hsv & ? & ?); [lia|].
    rewrite Ha in Hsv. eexists _, _, n'. split_and!; [done|by constructor|done..].
  - destruct (rehash_spec m nodes Hw Hu) as (m1 & -> & Hw1 & Hu1 & _); [lia|].
    cbn. destruct (IH m1 nodes Hw1 Hu1) as (m' & a & n' & -> & Hsv & ? & ?); [lia|].
    eexists _, _, n'. split_and!; [done|by constructor|done..].
  - rewrite (apply_collect m nodes) by done. cbn.
    destruct (IH m nodes Hw Hu) as (m' & a & n' & -> & ? & ? & ?); [lia|].
    eexists _, _, n'. split_and!; [done|constructor; [by apply entries_perm|done]|done..].
Qed.



(** ** [minmax_append] *)

(** What the lambda makes of the entry of a key. *)
Definition merged (v d : MeasMinMax) : MeasMinMax :=
  updateMin (mm_min v) (updateMax (mm_max v) d).

Definition merge_entry (src out : option MeasMinMax) : option MeasMinMax :=
  match src with
  | None => out
  | Some v => Some (merged v (default MeasMinMax_default out))
  end.

Lemma minmax_fold l out nodes :
  wf out nodes → unlocked out → Z.of_nat (length nodes + length l) < 2 ^ 62 →
  NoDup l.*1 →
  ∃ out' nodes', foldM minmax_step l out = Ok out' ∧ wf out' nodes' ∧ unlocked out' ∧
    ∀ k, abs nodes' !! k =
         merge_entry ((list_to_map l : gmap Z MeasMinMax) !! k) (abs nodes !! k).
Proof.
  revert out nodes. induction l as [|[k v] l IH]; intros out nodes Hw Hu Hlt Hnd.
  { by exists out, nodes. }
  apply NoDup_cons in Hnd as [Hk Hnd]. cbn [length] in Hlt.
  destruct (with_bucket_spec MeasMinMax_default out nodes k
    (fun d => Ok (merged v d)) _ Hw Hu ltac:(rewrite (wf_size _ _ Hw); lia) eq_refl)
    as (o1 & n1 & E & Hw1 & Hu1 & Ha & Hl).
  destruct (IH o1 n1 Hw1 Hu1 ltac:(lia) Hnd) as (o2 & n2 & E2 & Hw2 & Hu2 & Hall).
  exists o2, n2. cbn [foldM]. unfold minmax_step at 2. cbn [fst snd]. fold (merged v).
  change (fun d => Ok (updateMin (mm_min v) (updateMax (mm_max v) d)))
    with (fun d => Ok (merged v d)).
  rewrite E, bind_Ok. split_and!; try done.
  intros k'. rewrite Hall, Ha. cbn. destruct (decide (k' = k)) as [->|Hne].
  - rewrite !lookup_insert_eq. by rewrite (not_elem_of_list_to_map_1 l k Hk).
  - by rewrite !lookup_insert_ne by done.
Qed.

Lemma minmax_append_entries (out source : Id2MinMax) on sn :
  wf out on → unlocked out → wf source sn → unlocked source →
  Z.of_nat (length on + length sn) < 2 ^ 62 →
  ∃ out' on', minmax_append out source = Ok (out', source) ∧ wf out' on' ∧ unlocked out' ∧
    ∀ k, abs on' !! k = merge_entry (abs sn !! k) (abs on !! k).
Proof.
  intros Hwo Huo Hws Hus Hlt. set (l := map b_kv (concat (_buckets source))).
  assert (Hl : l ≡ₚ map_to_list (abs sn)) by by apply entries_perm.
  assert (Hnd : NoDup l.*1) by (rewrite Hl; apply NoDup_fst_map_to_list).
  destruct (minmax_fold l out on Hwo Huo) as (o' & n' & E & Hw' & Hu' & Hall); [|done|].
  { rewrite Hl, length_map_to_list, size_abs by apply Hws. done. }
  exists o', n'. split_and!; try done.
  - unfold minmax_append. by rewrite (apply_spec _ source sn out o' Hws Hus E).
  - intros k. by rewrite Hall, (list_to_map_proper l _ Hnd Hl), list_to_map_to_list.
Qed.

(** [minmax_append] leaves [source] as it was; an identifier of [source] is
    then found in [out] with its entry (or a default one) updated by that of
    [source], the other identifiers are found as before. *)
Theorem minmax_append_spec (out source : Id2MinMax) on sn :
  wf out on → unlocked out → wf source sn → unlocked source →
  Z.of_nat (length on + length sn) < 2 ^ 62 →
  ∃ out', minmax_append out source = Ok (out', source) ∧
    ∀ k, find out' k = Ok (out', merge_entry (abs sn !! k) (abs on !! k)).
Proof.
  intros Hwo Huo Hws Hus Hlt.
  destruct (minmax_append_entries out source on sn) as (o & n & E & Hw & Hu & Hk); try done.
  exists o. split; [done|]. intros k. by rewrite (find_spec o n), Hk.
Qed.

(** A map with one entry. *)
Definition one_entry (k : Z) (v : MeasMinMax) : outcome Id2MinMax :=
  insert MeasMinMax_default (make 4) k v.

Lemma one_entry_wf k v :
  ∃ m nodes, one_entry k v = Ok m ∧ wf m nodes ∧ unlocked m ∧
    abs nodes = {[ k := v ]} ∧ (length nodes <= 1)%nat.
Proof.
  destruct (make_wf (D := MeasMinMax) 4 ltac:(lia)) as [Hw Hu].
  destruct (insert_spec MeasMinMax_default _ [] k v Hw Hu ltac:(cbn; lia))
    as (m & n & E & Hw' & Hu' & Ha & Hl).
  exists m, n. exact (conj E (conj Hw' (conj Hu' (conj Ha Hl)))).
Qed.

Definition a_minmax (t1 t2 : Z) : MeasMinMax :=
  mkMeasMinMax (mkMeas 7 t1 0 0) (mkMeas 7 t2 0 0).

Lemma minmax_append_spec_witness :
  ∃ out source out', one_entry 7 (a_minmax 5 8) = Ok out ∧ one_entry 7 (a_minmax 3 9) = Ok source ∧
    minmax_append out source = Ok (out', source) ∧
    find out' 7 = Ok (out', Some (a_minmax 3 9)).
Proof.
  destruct (one_entry_wf 7 (a_minmax 5 8)) as (out & on & Eo & Hwo & Huo & Ao & Lo).
  destruct (one_entry_wf 7 (a_minmax 3 9)) as (src & sn & Es & Hws & Hus & As & Ls).
  destruct (minmax_append_spec out src on sn Hwo Huo Hws Hus) as (out' & E & Hk); [lia|].
  exists out, src, out'. refine (conj Eo (conj Es (conj E _))).
  rewrite (Hk 7), Ao, As, !lookup_singleton_eq. reflexivity.
Defined.

(** An identifier that [out] does not have yet gets the default measurement
    as its minimum, whatever [source] says: the default time 0 is never
    undercut. *)
Theorem minmax_append_loses_min (out source : Id2MinMax) on sn k v :
  wf out on → unlocked out → wf source sn → unlocked source →
  Z.of_nat (length on + length sn) < 2 ^ 62 →
  abs on !! k = None → abs sn !! k = Some v → is_time (time (mm_min v)) →
  ∃ out' m, minmax_append out source = Ok (out', source) ∧
    find out' k = Ok (out', Some m) ∧ mm_min m = Meas_default.
Proof.
  intros Hwo Huo Hws Hus Hlt Hon Hsn Ht.
  destruct (minmax_append_entries out source on sn) as (o & n & E & Hw & Hu & Hk); try done.
  exists o, (merged v MeasMinMax_default). split_and!; [done| |].
  - by rewrite (find_spec o n), Hk, Hon, Hsn.
  - unfold merged, updateMin, updateMax. cbn. destruct Ht as [Ht _].
    case_ifs; cbn in *; breflect; cbn in *; try done; lia.
Qed.

Lemma minmax_append_loses_min_witness :
  ∃ source out' m, one_entry 7 (a_minmax 3 9) = Ok source ∧
    minmax_append (make 4) source = Ok (out', source) ∧
    find out' 7 = Ok (out', Some m) ∧ mm_min m = Meas_default.
Proof.
  destruct (make_wf (D := MeasMinMax) 4 ltac:(lia)) as [Hwo Huo].
  destruct (one_entry_wf 7 (a_minmax 3 9)) as (src & sn & Es & Hws & Hus & As & Ls).
  destruct (minmax_append_loses_min (make 4) src [] sn 7 (a_minmax 3 9) Hwo Huo Hws Hus)
    as (out' & m & E & Hf & Hm).
  - cbn. lia.
  - done.
  - rewrite As. apply lookup_singleton_eq.
  - unfold is_time. cbn. lia.
  - exists src, out', m. exact (conj Es (conj E (conj Hf Hm))).
Defined.
