(* ===== verification/Allocators.v ===== *)
(** * Allocators of the memory storage

    [storage/memstorage/allocators.h] and [allocators.cpp]:
    [RegionChunkAllocator] cuts one region into the headers and the buffers of
    [_capacity] chunks and hands them out through a free list,
    [UnlimitMemoryAllocator] takes every chunk from the heap.  A pointer is an
    offset into the region.  Shown: whatever sequence of [allocate], [free] and
    writes through handed-out chunks a client runs, two chunks never share a
    byte, every chunk lies in the region, and a new chunk is all zero. *)

From Stdlib Require Import ZArith Lia SpecFloat.
From stdpp Require Import base numbers list relations.
From S2P Require Import Prelude.

Local Open Scope Z_scope.

(** ** [boost::lockfree::queue<size_t>]

    A queue made for [n] nodes takes at least [n] elements and gives them back
    in the order they came. *)
Class LockfreeQueue (Q : Type) := {
  q_make : Z → Q;
  q_push : Q → Z → option Q;
  q_pop : Q → option (Z * Q);
  q_capacity : Q → Z;
  q_elems : Q → list Z;
  q_make_elems : ∀ n, q_elems (q_make n) = [];
  q_make_capacity : ∀ n, q_capacity (q_make n) = n;
  q_push_room : ∀ q x, Z.of_nat (length (q_elems q)) < q_capacity q → is_Some (q_push q x);
  q_push_elems : ∀ q x q', q_push q x = Some q' →
    q_elems q' = q_elems q ++ [x] ∧ q_capacity q' = q_capacity q;
  q_pop_elems : ∀ q, q_pop q = None → q_elems q = [];
  q_pop_head : ∀ q x q', q_pop q = Some (x, q') →
    q_elems q = x :: q_elems q' ∧ q_capacity q' = q_capacity q;
}.

(** A bounded list is such a queue. *)
#[export] Instance list_queue : LockfreeQueue (Z * list Z).
Proof.
  refine {| q_make := fun n => (n, []);
            q_push := fun q x => if Z.of_nat (length q.2) <? q.1
                                 then Some (q.1, q.2 ++ [x]) else None;
            q_pop := fun q => match q.2 with [] => None | x :: l => Some (x, (q.1, l)) end;
            q_capacity := fst; q_elems := snd |}; try done.
  - intros [n l] x H. cbn in *. rewrite (proj2 (Z.ltb_lt _ _) H). eauto.
  - intros [n l] x q' H. cbn in *. destruct (_ <? n); by simplify_eq.
  - intros [n l] H. cbn in *. by destruct l.
  - intros [n l] x q' H. cbn in *. destruct l; by simplify_eq.
Defined.

(** ** Data *)

(** A null pointer is [None]. *)
Record AllocatedData := mkAllocatedData {
  ad_header : option Z;
  ad_buffer : option Z;
  ad_position : Z;
}.

Definition EMPTY : AllocatedData := mkAllocatedData None None (2 ^ 64 - 1).

(** [(int)(float(a) / b)]: both operands are rounded to a [float]; the result
    must fit an [int]. *)
Definition f32_of_Z (z : Z) : spec_float := binary_normalize 24 128 z 0 false.

Definition float_quotient (a b : Z) : outcome Z :=
  match SFdiv 24 128 (f32_of_Z a) (f32_of_Z b) with
  | S754_zero _ => Ok 0
  | S754_finite s m e =>
    let q := if 0 <=? e then Z.pos m * 2 ^ e else Z.pos m / 2 ^ (- e) in
    let q := if s then - q else q in
    if (- 2 ^ 31 <=? q) && (q <? 2 ^ 31) then Ok q else UB
  | _ => UB
  end.

Module RegionChunkAllocator.
Section Region.
Context {Q : Type} `{LockfreeQueue Q}.
(** [sizeof(ChunkHeader)]. *)
Variable header_size : Z.

Record t := Mk {
  _allocated : Z;
  _chunkSize : Z;
  _one_chunk_size : Z;
  _maxSize : Z;
  _capacity : Z;
  _region : list Z;
  _free_list : Q;
}.

(** [&_headers[pos]] and [&_buffers[pos * _chunkSize]]. *)
Definition header_at (pos : Z) : Z := pos * header_size.
Definition buffer_at (a : t) (pos : Z) : Z :=
  _capacity a * header_size + pos * _chunkSize a.

Definition push_free (q : Q) (i : Z) : outcome Q :=
  match q_push q i with Some q => Ok q | None => Throw end.

Definition make (maxSize bufferSize : Z) : outcome t :=
  let one_chunk_size := u64 (header_size + bufferSize) in
  c ← float_quotient maxSize one_chunk_size;
  let capacity := u64 c in
  let buffers_size := u64 (capacity * (bufferSize + header_size)) in
  q ← foldM push_free (seqZ 0 capacity) (q_make capacity);
  Ok (Mk 0 bufferSize one_chunk_size maxSize capacity
        (replicate (Z.to_nat buffers_size) 0) q).

Definition allocate (a : t) : t * AllocatedData :=
  match q_pop (_free_list a) with
  | None => (a, EMPTY)
  | Some (pos, q) =>
    (Mk (u64 (_allocated a + 1)) (_chunkSize a) (_one_chunk_size a) (_maxSize a)
        (_capacity a) (_region a) q,
     mkAllocatedData (Some (header_at pos)) (Some (buffer_at a pos)) pos)
  end.

(** [memset(p, 0, n)] and, for a client, any write inside the region. *)
Definition region_write (r : list Z) (p : Z) (bs : list Z) : outcome (list Z) :=
  if (0 <=? p) && (p + Z.of_nat (length bs) <=? Z.of_nat (length r))
  then Ok (store r (Z.to_nat p) bs) else UB.

Definition memset0 (r : list Z) (p : option Z) (n : Z) : outcome (list Z) :=
  match p with
  | None => UB
  | Some p => region_write r p (replicate (Z.to_nat n) 0)
  end.

Definition free (a : t) (d : AllocatedData) : outcome t :=
  r ← memset0 (_region a) (ad_header d) header_size;
  r ← memset0 r (ad_buffer d) (_chunkSize a);
  q ← push_free (_free_list a) (ad_position d);
  Ok (Mk (u64 (_allocated a - 1)) (_chunkSize a) (_one_chunk_size a) (_maxSize a)
        (_capacity a) r q).

End Region.
Arguments t Q : clear implicits.
End RegionChunkAllocator.

Module UnlimitMemoryAllocator.

Record t := Mk { _allocated : Z; _chunkSize : Z }.

Definition make (bufferSize : Z) : t := Mk 0 bufferSize.

(** [heap]: what the allocation of the buffer and of the header answer.  The
    count goes up before either. *)
Definition allocate (heap_buffer heap_header : option Z) (a : t) : t * AllocatedData :=
  let v := _allocated a in
  let a := Mk (u64 (v + 1)) (_chunkSize a) in
  match heap_buffer, heap_header with
  | Some b, Some h => (a, mkAllocatedData (Some h) (Some b) v)
  | _, _ => (a, EMPTY)
  end.

Definition free (a : t) : t := Mk (u64 (_allocated a - 1)) (_chunkSize a).

End UnlimitMemoryAllocator.

Import RegionChunkAllocator.

Section Region.
Context {Q : Type} `{LockfreeQueue Q}.
Variable header_size : Z.
Implicit Types (a : RegionChunkAllocator.t Q) (d : AllocatedData) (held : list AllocatedData).

(** ** Clients *)

(** The chunk of [d] has the byte [x] of the region. *)
Definition owns a d (x : Z) : Prop :=
  (∃ h, ad_header d = Some h ∧ h <= x < h + header_size) ∨
  (∃ b, ad_buffer d = Some b ∧ b <= x < b + _chunkSize a).

Definition set_region a (r : list Z) : RegionChunkAllocator.t Q :=
  Mk (_allocated a) (_chunkSize a) (_one_chunk_size a) (_maxSize a) (_capacity a) r
     (_free_list a).

(** A client takes chunks, writes bytes of the chunks it holds and gives chunks
    it holds back. *)
Inductive client_step :
  RegionChunkAllocator.t Q * list AllocatedData →
  RegionChunkAllocator.t Q * list AllocatedData → Prop :=
| client_allocate a held a' d :
    allocate header_size a = (a', d) → ad_header d ≠ None →
    client_step (a, held) (a', d :: held)
| client_refused a held a' :
    allocate header_size a = (a', EMPTY) → client_step (a, held) (a', held)
| client_write a held d x b :
    d ∈ held → owns a d x →
    client_step (a, held) (set_region a (<[Z.to_nat x := b]> (_region a)), held)
| client_free a held1 d held2 a' :
    free header_size a d = Ok a' →
    client_step (a, held1 ++ d :: held2) (a', held1 ++ held2).

(** ** The invariant *)

Definition chunk_at a (pos : Z) : AllocatedData :=
  mkAllocatedData (Some (header_at header_size pos)) (Some (buffer_at header_size a pos)) pos.

Definition zeroed a d : Prop := ∀ x, owns a d x → _region a !! Z.to_nat x = Some 0.

Record region_inv a held : Prop := {
  ri_capacity : 0 <= _capacity a < 2 ^ 31;
  ri_chunk : 0 <= _chunkSize a;
  ri_region : Z.of_nat (length (_region a)) = _capacity a * (_chunkSize a + header_size);
  ri_queue : q_capacity (_free_list a) = _capacity a;
  ri_positions : q_elems (_free_list a) ++ map ad_position held ≡ₚ seqZ 0 (_capacity a);
  ri_held : ∀ d, d ∈ held → d = chunk_at a (ad_position d);
  ri_allocated : _allocated a = Z.of_nat (length held);
  ri_zero : ∀ pos, pos ∈ q_elems (_free_list a) → zeroed a (chunk_at a pos);
}.

Hypothesis header_pos : 0 < header_size < 2 ^ 31.

Lemma owns_chunk_at a pos x :
  owns a (chunk_at a pos) x ↔
  pos * header_size <= x < pos * header_size + header_size ∨
  _capacity a * header_size + pos * _chunkSize a <= x <
    _capacity a * header_size + pos * _chunkSize a + _chunkSize a.
Proof.
  unfold owns, chunk_at, header_at, buffer_at. cbn. split.
  - intros [(h & [= <-] & ?)|(b & [= <-] & ?)]; auto.
  - intros [?|?]; [left|right]; eauto.
Qed.

(** Different places never share a byte. *)
Lemma places_disjoint a p q x :
  0 <= p < _capacity a → 0 <= q < _capacity a → 0 <= _chunkSize a →
  owns a (chunk_at a p) x → owns a (chunk_at a q) x → p = q.
Proof.
  rewrite !owns_chunk_at. intros Hp Hq Hc [H1|H1] [H2|H2].
  - nia.
  - assert (p * header_size + header_size <= _capacity a * header_size) by nia. nia.
  - assert (q * header_size + header_size <= _capacity a * header_size) by nia. nia.
  - nia.
Qed.

Lemma places_inside a p x :
  0 <= p < _capacity a → 0 <= _chunkSize a → owns a (chunk_at a p) x →
  0 <= x < _capacity a * (_chunkSize a + header_size).
Proof. rewrite owns_chunk_at. intros Hp Hc [H1|H1]; nia. Qed.

Lemma position_range a held pos :
  region_inv a held →
  pos ∈ q_elems (_free_list a) ++ map ad_position held → 0 <= pos < _capacity a.
Proof. intros Hi. rewrite (ri_positions _ _ Hi), elem_of_seqZ. lia. Qed.

Lemma positions_NoDup a held :
  region_inv a held → NoDup (q_elems (_free_list a) ++ map ad_position held).
Proof. intros Hi. rewrite (ri_positions _ _ Hi). apply NoDup_seqZ. Qed.

Lemma positions_length a held :
  region_inv a held →
  Z.of_nat (length (q_elems (_free_list a))) + Z.of_nat (length held) = _capacity a.
Proof.
  intros Hi. pose proof (Permutation_length (ri_positions _ _ Hi)) as E.
  rewrite length_app, length_map, length_seqZ in E. pose proof (ri_capacity _ _ Hi). lia.
Qed.

Lemma allocate_inv a held a' d :
  region_inv a held → allocate header_size a = (a', d) →
  (d = EMPTY ∧ a' = a ∧ Z.of_nat (length held) = _capacity a) ∨
  (region_inv a' (d :: held) ∧ d = chunk_at a (ad_position d) ∧ zeroed a d ∧
   ad_position d ∈ q_elems (_free_list a) ∧ _region a' = _region a).
Proof.
  intros Hi. pose proof (positions_length _ _ Hi) as Hlen. unfold allocate.
  destruct (q_pop (_free_list a)) as [[pos q]|] eqn:E; intros [= <- <-].
  - right. apply q_pop_head in E as [Ee Eq].
    assert (Hpos : pos ∈ q_elems (_free_list a)) by (rewrite Ee; constructor).
    destruct Hi as [Hc Hb Hr Hq Hp Hh Ha Hz].
    split_and!; [|done|by apply Hz|done|done]. split; cbn; try done.
    + by rewrite Eq.
    + rewrite <- Hp, Ee. cbn. by rewrite <- Permutation_middle.
    + intros d Hd. apply elem_of_cons in Hd as [->|Hd]; [done|]. by apply Hh.
    + rewrite Ha, wrap_small; lia.
    + intros p Hin. apply (Hz p). rewrite Ee. by constructor.
  - left. apply q_pop_elems in E. rewrite E in Hlen. cbn in Hlen. split_and!; [done|done|lia].
Qed.

Lemma memset0_Ok r p n :
  0 <= p → 0 <= n → p + n <= Z.of_nat (length r) →
  ∃ r', memset0 r (Some p) n = Ok r' ∧ length r' = length r ∧
    (∀ x, p <= x < p + n → r' !! Z.to_nat x = Some 0) ∧
    (∀ i, r !! i = Some 0 → r' !! i = Some 0).
Proof.
  intros Hp Hn Hl. unfold memset0, region_write.
  rewrite (proj2 (Z.leb_le 0 p)), (proj2 (Z.leb_le _ _)) by (rewrite ?length_replicate; lia).
  eexists. split; [done|].
  assert (Hle : (Z.to_nat p + length (replicate (Z.to_nat n) 0%Z) <= length r)%nat)
    by (rewrite length_replicate; lia).
  split_and!.
  - by apply length_store.
  - intros x Hx. rewrite lookup_store, decide_True by (rewrite ?length_replicate in *; lia).
    apply lookup_replicate. lia.
  - intros i Hi. rewrite lookup_store by done. case_decide; [|done].
    apply lookup_replicate. rewrite length_replicate in *. lia.
Qed.

Lemma free_inv a held1 d held2 :
  region_inv a (held1 ++ d :: held2) →
  ∃ a', free header_size a d = Ok a' ∧ region_inv a' (held1 ++ held2).
Proof.
  intros Hi. pose proof (positions_length _ _ Hi) as Hlen.
  assert (Hd : d ∈ held1 ++ d :: held2) by (apply elem_of_app; right; constructor).
  assert (Hpr : 0 <= ad_position d < _capacity a).
  { eapply position_range; [exact Hi|]. apply elem_of_app. right. rewrite list_elem_of_In.
    apply in_map. by apply list_elem_of_In. }
  destruct Hi as [Hc Hb Hr Hq Hp Hh Ha Hz]. rewrite length_app in *. cbn [length] in *.
  pose proof (Hh _ Hd) as Ed. unfold free. rewrite Ed. cbn [chunk_at ad_header ad_buffer ad_position].
  unfold header_at, buffer_at.
  destruct (memset0_Ok (_region a) (ad_position d * header_size) header_size)
    as (r1 & -> & Hl1 & Hz1 & Hk1); [nia..|]. rewrite bind_Ok.
  destruct (memset0_Ok r1 (_capacity a * header_size + ad_position d * _chunkSize a) (_chunkSize a))
    as (r2 & -> & Hl2 & Hz2 & Hk2); [nia..|]. rewrite bind_Ok.
  unfold push_free. destruct (q_push_room (_free_list a) (ad_position d)) as [q E]; [lia|].
  rewrite E. cbn. apply q_push_elems in E as [Ee Eq]. eexists. split; [done|].
  split; cbn; try done.
  - by rewrite Hl2, Hl1.
  - by rewrite Eq.
  - rewrite <- Hp, Ee, !map_app. cbn. rewrite <- (assoc_L app). cbn.
    f_equiv. apply Permutation_middle.
  - intros d' Hd'. apply Hh. apply elem_of_app in Hd' as [?|?]; apply elem_of_app; [by left|].
    right. by constructor.
  - rewrite Ha, length_app, wrap_small; lia.
  - intros pos. rewrite Ee, elem_of_app, list_elem_of_singleton. intros [Hin| ->] x Hx; cbn.
    + apply Hk2, Hk1. by apply (Hz pos).
    + apply owns_chunk_at in Hx as [Hx|Hx]; [by apply Hk2, Hz1|by apply Hz2].
Qed.

Lemma write_inv a held d x b :
  region_inv a held → d ∈ held → owns a d x →
  region_inv (set_region a (<[Z.to_nat x := b]> (_region a))) held.
Proof.
  intros Hi Hd Hx. destruct (Hi) as [Hc Hb Hr Hq Hp Hh Ha Hz].
  pose proof (positions_NoDup _ _ Hi) as Hnd. apply NoDup_app in Hnd as (_ & Hdis & _).
  assert (Hin : ad_position d ∈ map ad_position held).
  { rewrite list_elem_of_In. apply in_map. by apply list_elem_of_In. }
  assert (Hpd : 0 <= ad_position d < _capacity a).
  { eapply position_range; [exact Hi|]. apply elem_of_app. by right. }
  rewrite (Hh _ Hd) in Hx. pose proof (places_inside _ _ _ Hpd Hb Hx).
  split; cbn; try done; [by rewrite length_insert|].
  intros pos Hpos y Hy. cbn. change (owns a (chunk_at a pos) y) in Hy.
  assert (Hpp : 0 <= pos < _capacity a).
  { eapply position_range; [exact Hi|]. apply elem_of_app. by left. }
  pose proof (places_inside _ _ _ Hpp Hb Hy).
  rewrite list_lookup_insert_ne; [by apply (Hz pos)|]. intros Heq.
  assert (x = y) as -> by lia. pose proof (places_disjoint _ _ _ _ Hpd Hpp Hb Hx Hy) as Epos.
  apply (Hdis pos Hpos). by rewrite <- Epos.
Qed.

Lemma client_step_inv s s' :
  client_step s s' → region_inv s.1 s.2 → region_inv s'.1 s'.2.
Proof.
  destruct 1 as [a held a' d E Hn|a held a' E|a held d x b Hd Hx|a h1 d h2 a' E]; cbn; intros Hi.
  - destruct (allocate_inv _ _ _ _ Hi E) as [(-> & _)|(? & _)]; done.
  - destruct (allocate_inv _ _ _ _ Hi E) as [(_ & -> & _)|(_ & He & _)]; done.
  - by eapply write_inv.
  - destruct (free_inv _ _ _ _ Hi) as (a2 & E2 & ?).
    rewrite E in E2. by injection E2 as ->.
Qed.

Lemma push_all_elems n k (q : Q) :
  q_capacity q = Z.of_nat (k + n) → q_elems q = seqZ 0 (Z.of_nat k) →
  ∃ q', foldM push_free (seqZ (Z.of_nat k) (Z.of_nat n)) q = Ok q' ∧
    q_elems q' = seqZ 0 (Z.of_nat (k + n)) ∧ q_capacity q' = q_capacity q.
Proof.
  revert k q. induction n as [|n IH]; intros k q Hc He.
  { exists q. by rewrite Nat.add_0_r. }
  rewrite seqZ_cons by lia. cbn [foldM]. unfold push_free at 2.
  destruct (q_push_room q (Z.of_nat k)) as [q1 E].
  { rewrite He, length_seqZ. lia. }
  rewrite E, bind_Ok. apply q_push_elems in E as [Ee Ec].
  destruct (IH (S k) q1) as (q' & Eq & Hq & Hc').
  - rewrite Ec, Hc. f_equal. lia.
  - rewrite Ee, He. replace (Z.of_nat (S k)) with (Z.of_nat k + 1) by lia.
    by rewrite seqZ_app by lia.
  - exists q'. replace (Z.succ (Z.of_nat k)) with (Z.of_nat (S k)) by lia.
    replace (Z.pred (Z.of_nat (S n))) with (Z.of_nat n) by lia.
    split_and!; [done|by rewrite Hq, Nat.add_succ_r|by rewrite Hc', Ec].
Qed.

Lemma float_quotient_int (x y c : Z) : float_quotient x y = Ok c → - 2 ^ 31 <= c < 2 ^ 31.
Proof.
  unfold float_quotient. destruct (SFdiv _ _ _ _); intros; simplify_eq; [lia|].
  case_match; simplify_eq. breflect. lia.
Qed.

Lemma make_inv maxSize bufferSize a :
  0 <= bufferSize < 2 ^ 32 →
  make header_size maxSize bufferSize = Ok a → 0 <= _capacity a < 2 ^ 31 → region_inv a [].
Proof.
  intros Hb. unfold make. destruct (float_quotient _ _) as [c| | |] eqn:Ec; try done.
  rewrite bind_Ok. apply float_quotient_int in Ec.
  destruct (foldM push_free _ _) as [q| | |] eqn:Eq; try done.
  rewrite bind_Ok. intros [= <-] Hc. cbn in Hc. set (cap := u64 c) in *. clearbody cap.
  destruct (push_all_elems (Z.to_nat cap) 0 (q_make cap)) as (q' & E & Hq & Hqc).
  { rewrite q_make_capacity. lia. }
  { by rewrite q_make_elems. }
  rewrite Z2Nat.id in E by lia. change (Z.of_nat 0) with 0 in E.
  rewrite Eq in E. simplify_eq. rewrite Nat.add_0_l, Z2Nat.id in Hq by lia.
  assert (Hs : 0 <= cap * (bufferSize + header_size) < 2 ^ 64) by nia.
  split; cbn; try done; try lia.
  - rewrite length_replicate, wrap_small by lia. lia.
  - by rewrite Hqc, q_make_capacity.
  - by rewrite app_nil_r, Hq.
  - intros d Hd. by apply not_elem_of_nil in Hd.
  - intros pos Hpos x Hx. rewrite Hq, elem_of_seqZ in Hpos. cbn.
    apply places_inside in Hx; cbn in Hx |- *; [|lia..].
    apply lookup_replicate. rewrite wrap_small by lia. split; [done|lia].
Qed.

(** What a client relies on: its chunks lie in the region and apart from each
    other, the count is right, any of them can be given back, and a request is
    refused only when the client holds every chunk and gives zeroed memory
    apart from what it holds otherwise. *)
Record region_safe a held : Prop := {
  rs_inside : ∀ d x, d ∈ held → owns a d x → 0 <= x < Z.of_nat (length (_region a));
  rs_apart : ∀ i j d1 d2 x, held !! i = Some d1 → held !! j = Some d2 →
    owns a d1 x → owns a d2 x → i = j;
  rs_count : _allocated a = Z.of_nat (length held);
  rs_free : ∀ d, d ∈ held → ∃ a', free header_size a d = Ok a';
  rs_allocate : ∀ a' d, allocate header_size a = (a', d) →
    if decide (Z.of_nat (length held) = _capacity a) then d = EMPTY
    else ad_header d ≠ None ∧ zeroed a d ∧ _region a' = _region a ∧
         ∀ d' x, d' ∈ held → owns a d' x → owns a d x → False;
}.

Lemma region_inv_safe a held : region_inv a held → region_safe a held.
Proof.
  intros Hi. destruct (Hi) as [Hc Hb Hr Hq Hp Hh Ha Hz].
  assert (Hrange : ∀ d, d ∈ held → 0 <= ad_position d < _capacity a).
  { intros d Hd. eapply position_range; [exact Hi|]. apply elem_of_app. right.
    rewrite list_elem_of_In. apply in_map. by apply list_elem_of_In. }
  assert (Hsame : ∀ d1 d2 x, d1 ∈ held → 0 <= ad_position d2 < _capacity a →
    d2 = chunk_at a (ad_position d2) → owns a d1 x → owns a d2 x →
    ad_position d1 = ad_position d2).
  { intros d1 d2 x H1 H2 E2 Ho1 Ho2. rewrite (Hh _ H1) in Ho1. rewrite E2 in Ho2.
    exact (places_disjoint a _ _ x (Hrange _ H1) H2 Hb Ho1 Ho2). }
  pose proof (positions_NoDup _ _ Hi) as Hnd. apply NoDup_app in Hnd as (_ & Hdis & Hnd).
  split.
  - intros d x Hd Hx. rewrite (Hh _ Hd) in Hx. rewrite Hr.
    by apply (places_inside a (ad_position d)); auto.
  - intros i j d1 d2 x H1 H2 Ho1 Ho2.
    assert (E : ad_position d1 = ad_position d2).
    { pose proof (list_elem_of_lookup_2 _ _ _ H2) as Hd2.
      eapply Hsame; [by eapply list_elem_of_lookup_2|by apply Hrange|by apply Hh|done..]. }
    eapply (NoDup_lookup (map ad_position held)); [done| |].
    + change (map ad_position held) with (ad_position <$> held).
      rewrite list_lookup_fmap, H1. done.
    + change (map ad_position held) with (ad_position <$> held).
      rewrite list_lookup_fmap, H2. cbn. by rewrite E.
  - done.
  - intros d Hd. apply list_elem_of_split in Hd as (h1 & h2 & ->).
    destruct (free_inv _ _ _ _ Hi) as (a' & ? & _). eauto.
  - intros a' d E. pose proof (positions_length _ _ Hi) as Hlen.
    destruct (allocate_inv _ _ _ _ Hi E) as [(-> & -> & Hfull)|(Hi' & Ed & Hzd & Hin & Hreg)].
    { by rewrite decide_True. }
    rewrite decide_False.
    + split_and!; [by rewrite Ed|done|done|]. intros d' x Hd' Ho' Ho.
      apply (Hdis _ Hin). erewrite <- Hsame; [|exact Hd'| |exact Ed|exact Ho'|exact Ho].
      * rewrite list_elem_of_In. apply in_map. by apply list_elem_of_In.
      * eapply position_range; [exact Hi|]. apply elem_of_app. by left.
    + intros Hfull. destruct (q_elems (_free_list a)); [by apply not_elem_of_nil in Hin|].
      cbn [length] in Hlen. lia.
Qed.
End Region.

(** C22: whatever a client does with a [RegionChunkAllocator], its chunks lie in
    the region, no two of them share a byte, [_allocated] counts them, each can
    be given back without an error, and [allocate] answers [EMPTY] exactly when
    all [_capacity] chunks are out and zeroed memory of its own otherwise. *)
Theorem region_allocator_safe {Q} `{LockfreeQueue Q} header_size maxSize bufferSize
    (a0 a : RegionChunkAllocator.t Q) held :
  0 < header_size < 2 ^ 31 → 0 <= bufferSize < 2 ^ 32 →
  make header_size maxSize bufferSize = Ok a0 → 0 <= _capacity a0 < 2 ^ 31 →
  rtc (client_step header_size) (a0, []) (a, held) →
  region_safe header_size a held.
Proof.
  intros Hh Hb Hm Hc Hsteps. apply region_inv_safe; [done|].
  assert (Hi : region_inv header_size a0 []) by by eapply make_inv.
  change a with (a, held).1. change held with (a, held).2 at 2.
  assert (Hi' : region_inv header_size (a0, [] : list AllocatedData).1
                  (a0, [] : list AllocatedData).2) by done.
  induction Hsteps as [|s1 s2 s3 H12 _ IH]; [done|]. apply IH. by eapply client_step_inv.
Qed.

(** A region of two chunks, both out. *)
Lemma region_allocator_safe_witness :
  ∃ a0 a d1 d2, make (Q := Z * list Z) 100 600 150 = Ok a0 ∧
    rtc (client_step 100) (a0, []) (a, [d2; d1]) ∧ region_safe 100 a [d2; d1].
Proof.
  assert (Hm : ∃ a0, make (Q := Z * list Z) 100 600 150 = Ok a0 ∧ 0 <= _capacity a0 < 2 ^ 31 ∧
    ∃ a1 d1 a2 d2, allocate 100 a0 = (a1, d1) ∧ ad_header d1 ≠ None ∧
      allocate 100 a1 = (a2, d2) ∧ ad_header d2 ≠ None).
  { eexists. split; [vm_compute; reflexivity|]. split; [split; [discriminate|reflexivity]|].
    eexists _, _, _, _. split_and!; [vm_compute; reflexivity|discriminate
                                    |vm_compute; reflexivity|discriminate]. }
  destruct Hm as (a0 & Hm & Hc & a1 & d1 & a2 & d2 & E1 & H1 & E2 & H2).
  assert (Hr : rtc (client_step 100) (a0, []) (a2, [d2; d1])).
  { eapply rtc_l; [exact (client_allocate 100 _ _ _ _ E1 H1)|].
    eapply rtc_l; [exact (client_allocate 100 _ _ _ _ E2 H2)|]. constructor. }
  exists a0, a2, d1, d2. refine (conj Hm (conj Hr _)).
  apply (region_allocator_safe 100 600 150 a0 a2 [d2; d1]); [lia|lia|exact Hm|exact Hc|exact Hr].
Defined.
