(* ===== verification/StdMap.v ===== *)
(** * [std::map] with integer keys

    The entries of a [std::map<Time, T>] in the order of iteration; an iterator
    is a position, [end()] is the number of entries. *)

From Stdlib Require Import ZArith Lia Sorting.Sorted.
From stdpp Require Import base numbers list.
From S2P Require Import Prelude StdSort.

Local Open Scope Z_scope.

Section StdMap.
Context {A : Type}.
Implicit Types m : list (Z * A).

(** [insert]: no effect where the key is present. *)
Fixpoint sm_insert (k : Z) (a : A) (m : list (Z * A)) : list (Z * A) :=
  match m with
  | [] => [(k, a)]
  | (k', a') :: m' =>
    if k <? k' then (k, a) :: m
    else if k =? k' then m
    else (k', a') :: sm_insert k a m'
  end.

(** [operator[]] followed by an assignment. *)
Fixpoint sm_assign (k : Z) (a : A) (m : list (Z * A)) : list (Z * A) :=
  match m with
  | [] => [(k, a)]
  | (k', a') :: m' =>
    if k <? k' then (k, a) :: m
    else if k =? k' then (k, a) :: m'
    else (k', a') :: sm_assign k a m'
  end.

(** [erase(key)] *)
Definition sm_erase (k : Z) (m : list (Z * A)) : list (Z * A) :=
  base.filter (fun e => e.1 ≠ k) m.

(** [lower_bound]: the first key that is not less than [t]. *)
Fixpoint sm_lower (t : Z) (m : list (Z * A)) : nat :=
  match m with
  | [] => 0
  | (k, _) :: m => if k <? t then S (sm_lower t m) else 0
  end.

(** [upper_bound]: the first key that is greater than [t]. *)
Fixpoint sm_upper (t : Z) (m : list (Z * A)) : nat :=
  match m with
  | [] => 0
  | (k, _) :: m => if k <=? t then S (sm_upper t m) else 0
  end.

(** The entries a loop from [b] visits that stops at [e] or at [end()]. *)
Definition sm_range (b e : nat) (m : list (Z * A)) : list (Z * A) :=
  if (b <=? e)%nat then take (e - b) (drop b m) else drop b m.

(** ** Lemmas *)

Definition sm_wf m : Prop := strictly_by fst m.

Lemma sm_insert_wf k a m : sm_wf m → sm_wf (sm_insert k a m).
Proof.
  unfold sm_wf, strictly_by. induction 1 as [|[k' a'] m Hm IH Hall]; cbn; [repeat constructor|].
  destruct (Z.ltb_spec k k'); [|destruct (Z.eqb_spec k k')].
  - constructor; [by constructor|]. constructor; [done|].
    eapply Forall_impl; [exact Hall|]. cbn. intros; lia.
  - by constructor.
  - constructor; [done|].
    assert (Hin : Forall (fun y => k' < y.1) (sm_insert k a m)); [|done].
    clear IH Hm. induction Hall as [|[k2 a2] m Hk Hall IH]; cbn; [repeat constructor; cbn; lia|].
    case_ifs; repeat constructor; cbn in *; try done; lia.
Qed.

Lemma sm_erase_wf k m : sm_wf m → sm_wf (sm_erase k m).
Proof.
  unfold sm_wf, strictly_by, sm_erase. induction 1 as [|e m Hm IH Hall]; [constructor|].
  rewrite filter_cons. case_decide; [|done]. constructor; [done|].
  rewrite Forall_forall in *. intros x Hx. apply list_elem_of_filter in Hx as [_ Hx]. auto.
Qed.

(** A key above all others goes to the end. *)
Lemma sm_insert_last k a m : Forall (fun e => e.1 < k) m → sm_insert k a m = m ++ [(k, a)].
Proof.
  induction 1 as [|[k' a'] m Hk Hall IH]; cbn; [done|]. cbn in Hk.
  rewrite (proj2 (Z.ltb_ge _ _)), (proj2 (Z.eqb_neq _ _)) by lia. by rewrite IH.
Qed.

(** A key between two halves goes between them. *)
Lemma sm_insert_middle k a m1 m2 :
  Forall (fun e => e.1 < k) m1 → Forall (fun e => k < e.1) m2 →
  sm_insert k a (m1 ++ m2) = m1 ++ (k, a) :: m2.
Proof.
  intros H1 H2. induction H1 as [|[k' a'] m Hk Hall IH]; cbn.
  - destruct m2 as [|[k2 a2] m2]; [done|]. apply Forall_cons_1 in H2 as [Hk2 _].
    cbn in *. by rewrite (proj2 (Z.ltb_lt _ _)).
  - cbn in Hk. rewrite (proj2 (Z.ltb_ge _ _)), (proj2 (Z.eqb_neq _ _)) by lia. by rewrite IH.
Qed.

Lemma sm_erase_middle k a m1 m2 :
  Forall (fun e => e.1 < k) m1 → Forall (fun e => k < e.1) m2 →
  sm_erase k (m1 ++ (k, a) :: m2) = m1 ++ m2.
Proof.
  intros H1 H2. unfold sm_erase. rewrite filter_app, filter_cons, decide_False by (by intros []).
  f_equal; apply filter_id; eapply Forall_impl;
    [exact H1| |exact H2|]; cbn; intros; lia.
Qed.

Lemma sm_lower_le t m : (sm_lower t m <= length m)%nat.
Proof. induction m as [|[k a] m IH]; cbn; [done|]. case_ifs; lia. Qed.
Lemma sm_upper_le t m : (sm_upper t m <= length m)%nat.
Proof. induction m as [|[k a] m IH]; cbn; [done|]. case_ifs; lia. Qed.

Lemma sm_lower_take t m : Forall (fun e => e.1 < t) (take (sm_lower t m) m).
Proof.
  induction m as [|[k a] m IH]; cbn; [constructor|]. destruct (Z.ltb_spec k t); by repeat constructor.
Qed.
Lemma sm_upper_take t m : Forall (fun e => e.1 <= t) (take (sm_upper t m) m).
Proof.
  induction m as [|[k a] m IH]; cbn; [constructor|]. destruct (Z.leb_spec k t); by repeat constructor.
Qed.

Lemma sm_lower_drop t m : sm_wf m → Forall (fun e => t <= e.1) (drop (sm_lower t m) m).
Proof.
  unfold sm_wf, strictly_by. induction 1 as [|[k a] m Hm IH Hall]; cbn; [constructor|].
  destruct (Z.ltb_spec k t); [done|]. cbn. constructor; [cbn; lia|].
  eapply Forall_impl; [exact Hall|]. cbn. intros; lia.
Qed.
Lemma sm_upper_drop t m : sm_wf m → Forall (fun e => t < e.1) (drop (sm_upper t m) m).
Proof.
  unfold sm_wf, strictly_by. induction 1 as [|[k a] m Hm IH Hall]; cbn; [constructor|].
  destruct (Z.leb_spec k t); [done|]. cbn. constructor; [cbn; lia|].
  eapply Forall_impl; [exact Hall|]. cbn. intros; lia.
Qed.

Lemma sm_lower_upper t t' m : t <= t' → (sm_lower t m <= sm_upper t' m)%nat.
Proof.
  intros Ht. induction m as [|[k a] m IH]; cbn; [done|].
  destruct (Z.ltb_spec k t), (Z.leb_spec k t'); lia.
Qed.

Lemma sm_lower_app t m1 m2 :
  Forall (fun e => e.1 < t) m1 → sm_lower t (m1 ++ m2) = (length m1 + sm_lower t m2)%nat.
Proof.
  induction 1 as [|[k a] m Hk Hall IH]; cbn; [done|]. cbn in Hk.
  by rewrite (proj2 (Z.ltb_lt _ _)), IH by done.
Qed.
Lemma sm_upper_app t m1 m2 :
  Forall (fun e => e.1 <= t) m1 → sm_upper t (m1 ++ m2) = (length m1 + sm_upper t m2)%nat.
Proof.
  induction 1 as [|[k a] m Hk Hall IH]; cbn; [done|]. cbn in Hk.
  by rewrite (proj2 (Z.leb_le _ _)), IH by done.
Qed.
Lemma sm_upper_zero t m : Forall (fun e => t < e.1) m → sm_upper t m = 0%nat.
Proof.
  destruct 1 as [|[k a] m Hk Hall]; cbn; [done|]. cbn in Hk.
  by rewrite (proj2 (Z.leb_gt _ _)).
Qed.

End StdMap.
