(* ===== verification/TimeTrack.v ===== *)
(** * Time tracks

    [storage/memstorage/timetrack.h] and [timetrack.cpp] with [memchunk.cpp]: the
    measurements of one identifier in memory, as full chunks indexed by their
    last time and the chunk that is being filled.  The allocator is an interface
    ([IMemoryAllocator]), the container that counts chunks is passed along with
    it ([world]).  [Module TimeTrack] has the operations; the shared pointers to
    chunks are values, since a track is the only owner of its chunks while its
    lock is held. *)

From Stdlib Require Import ZArith Lia Sorting.Sorted.
From stdpp Require Import base numbers list.
From S2P Require Import Prelude Float64 Meas Stat Compression StdSort ICursor FullCursor Chunk KMerge Cursors Colapse Allocators StdMap.

Local Open Scope Z_scope.

(** ** Allocators and the chunk container *)

Class IMemoryAllocator (A : Type) := {
  al_chunkSize : A → Z;
  al_allocate : A → A * AllocatedData;
  al_free : A → AllocatedData → outcome A;
}.

#[export] Instance region_IMemoryAllocator {Q} `{LockfreeQueue Q} (header_size : Z)
  : IMemoryAllocator (RegionChunkAllocator.t Q) := {
  al_chunkSize := RegionChunkAllocator._chunkSize;
  al_allocate := RegionChunkAllocator.allocate header_size;
  al_free := RegionChunkAllocator.free header_size;
}.

(** [heap]: what the heap answers when that many chunks are allocated. *)
Definition unlimit_IMemoryAllocator (heap : Z → option Z * option Z)
  : IMemoryAllocator UnlimitMemoryAllocator.t := {|
  al_chunkSize := UnlimitMemoryAllocator._chunkSize;
  al_allocate a :=
    let '(b, h) := heap (UnlimitMemoryAllocator._allocated a) in
    UnlimitMemoryAllocator.allocate b h a;
  al_free a _ := Ok (UnlimitMemoryAllocator.free a);
|}.

(** The allocator and [_chunks_count] of the container. *)
Record world (A : Type) := mkWorld { w_alloc : A; w_chunks : Z }.
Arguments mkWorld {A} _ _.
Arguments w_alloc {A} _.
Arguments w_chunks {A} _.

Definition addChunk {A} (w : world A) : world A := mkWorld (w_alloc w) (u64 (w_chunks w + 1)).
Definition freeChunk {A} (w : world A) : world A := mkWorld (w_alloc w) (u64 (w_chunks w - 1)).

(** ** Chunks in memory *)

Record MemChunk := mkMemChunk {
  mc_chunk : Chunk.t;
  _a_data : AllocatedData;
  _is_from_pool : bool;
}.

Definition mc_stat (c : MemChunk) : Statistic := ChunkHeader.stat (Chunk.header (mc_chunk c)).
Definition mc_header (c : MemChunk) : ChunkHeader.t := Chunk.header (mc_chunk c).

(** [~MemChunk] *)
Definition destroy {A} `{IMemoryAllocator A} (c : MemChunk) (w : world A) : outcome (world A) :=
  if negb (_is_from_pool c) then Ok w
  else a ← al_free (w_alloc w) (_a_data c); Ok (mkWorld a (w_chunks w)).

(** [std::set<Meas, meas_time_compare_less>::insert] *)
Fixpoint mset_insert (v : Meas) (l : list Meas) : list Meas :=
  match l with
  | [] => [v]
  | x :: l' =>
    if time v <? time x then v :: l
    else if time x <? time v then x :: mset_insert v l'
    else l
  end.

Definition sizeof_Meas : Z := 24.

(** ** The track *)

Module TimeTrack.

Record t := mk {
  _meas_id : Z;
  _min_max : MeasMinMax;
  _max_sync_time : Z;
  _step : Z;
  _cur_chunk : option MemChunk;
  _index : list (Z * MemChunk);
}.

Definition set_min_max (x : MeasMinMax) (tr : t) : t :=
  mk (_meas_id tr) x (_max_sync_time tr) (_step tr) (_cur_chunk tr) (_index tr).
Definition set_cur (x : option MemChunk) (tr : t) : t :=
  mk (_meas_id tr) (_min_max tr) (_max_sync_time tr) (_step tr) x (_index tr).
Definition set_index (x : list (Z * MemChunk)) (tr : t) : t :=
  mk (_meas_id tr) (_min_max tr) (_max_sync_time tr) (_step tr) (_cur_chunk tr) x.
Definition set_sync (x : Z) (tr : t) : t :=
  mk (_meas_id tr) (_min_max tr) x (_step tr) (_cur_chunk tr) (_index tr).

Definition make (step meas_id : Z) : t :=
  mk meas_id
     (mkMeasMinMax (mkMeas 0 MAX_TIME 0 0) (mkMeas 0 MIN_TIME 0 0))
     MIN_TIME step None [].

Definition updateMinMax (value : Meas) (tr : t) : t :=
  set_min_max (updateMin value (updateMax value (_min_max tr))) tr.

Section Track.
Context {A : Type} `{IMemoryAllocator A} `{StdSort}.
(** The fields of a header from the allocator or from [new] that the
    constructor of a chunk does not set. *)
Variable raw_header : ChunkHeader.t.

Definition create_new_chunk (value : Meas) (tr : t) (w : world A) : outcome (bool * t * world A) :=
  let tr :=
    match _cur_chunk tr with
    | None => tr
    | Some c => set_cur None (set_index (sm_insert (maxTime (mc_stat c)) c (_index tr)) tr)
    end in
  let '(a, d) := al_allocate (w_alloc w) in
  let w := mkWorld a (w_chunks w) in
  match ad_header d with
  | None => Ok (false, tr, w)
  | Some _ =>
    c ← Chunk.create raw_header (Z.to_nat (al_chunkSize (w_alloc w))) value;
    let mc := mkMemChunk c d true in
    Ok (true, set_cur (Some mc) tr, addChunk w)
  end.

(** The loop over the potential targets reads the next one first, so that the
    test for the last one is never reached. *)
Fixpoint pick_target (tm : Z) (targets : list MemChunk) : outcome MemChunk :=
  match targets with
  | c :: ((next :: _) as rest) =>
    if (tm <? minTime (mc_stat next)) || inInterval (minTime (mc_stat c)) (maxTime (mc_stat c)) tm
    then Ok c
    else pick_target tm rest
  | _ => UB
  end.

Definition get_target_to_replace_from_index (tm : Z) (tr : t) : outcome MemChunk :=
  let potential_targets :=
    if (length (_index tr) =? 1)%nat then map snd (take 1 (_index tr))
    else
      let e := sm_upper tm (_index tr) in
      let b := sm_lower tm (_index tr) in
      let e := if (e <? length (_index tr))%nat then S e else e in
      map snd (sm_range b e (_index tr)) in
  match potential_targets with
  | [c] => Ok c
  | _ => pick_target tm potential_targets
  end.

(** Everything in the chunk but a measurement at the time of [value], sorted. *)
Definition unpack (target : MemChunk) (value : Meas) : outcome (list Meas) :=
  rdr ← Chunk.getReader (mc_chunk target);
  l ← read_to_end (S (S (Z.to_nat (count (mc_stat target))))) rdr;
  Ok (fold_left (fun mset v => mset_insert v mset)
        (base.filter (fun v => time v ≠ time value) l) []).

(** The appends to the new chunk; a refused one is a logic error. *)
Definition refill (l : list Meas) (c : Chunk.t) : outcome Chunk.t :=
  foldM (fun c v => '(status, c) ← Chunk.append v c; if negb status then Throw else Ok c) l c.

Definition append_to_past (value : Meas) (tr : t) (w : world A) : outcome (t * world A) :=
  match _cur_chunk tr with
  | None => UB
  | Some cur =>
    let is_cur_chunk :=
      (length (_index tr) =? 0)%nat || (minTime (mc_stat cur) <=? time value) in
    target ← (if is_cur_chunk then Ok cur
              else get_target_to_replace_from_index (time value) tr);
    let tr :=
      if is_cur_chunk then set_cur None tr
      else set_index (sm_erase (maxTime (mc_stat target)) (_index tr)) tr in
    mset ← unpack target value;
    let old_chunk_size := ChunkHeader.size (mc_header target) in
    let w := if _is_from_pool target then freeChunk w else w in
    let mset := mset_insert value mset in
    w ← destroy target w;
    let buffer_size := u32 (old_chunk_size + sizeof_Meas * 2) in
    match mset with
    | [] => UB
    | front :: rest =>
      c ← Chunk.create raw_header (Z.to_nat buffer_size) front;
      c ← refill rest c;
      let new_chunk := mkMemChunk c EMPTY false in
      Ok (if is_cur_chunk then set_cur (Some new_chunk) tr
          else set_index (sm_insert (maxTime (mc_stat new_chunk)) new_chunk (_index tr)) tr,
          w)
    end
  end.

Definition append (value : Meas) (tr : t) (w : world A) : outcome (Status * t * world A) :=
  let start_chunk :=
    '(ok, tr, w) ← create_new_chunk value tr w;
    if negb ok then Ok (Status_error 1 bad_alloc, tr, w)
    else Ok (Status_writed 1, updateMinMax value tr, w) in
  match _cur_chunk tr with
  | None => start_chunk
  | Some cur =>
    if Chunk.isFull (mc_chunk cur) then start_chunk
    else if maxTime (mc_stat cur) <? time value then
      '(ok, c) ← Chunk.append value (mc_chunk cur);
      let tr := set_cur (Some (mkMemChunk c (_a_data cur) (_is_from_pool cur))) tr in
      if negb ok then
        '(ok, tr, w) ← create_new_chunk value tr w;
        if negb ok then Ok (Status_error 1 bad_alloc, tr, w)
        else Ok (Status_writed 1, updateMinMax value (updateMinMax value tr), w)
      else Ok (Status_writed 1, updateMinMax value tr, w)
    else
      '(tr, w) ← append_to_past value tr w;
      Ok (Status_writed 1, updateMinMax value tr, w)
  end.

(** ** Queries *)

(** The minimum and the maximum over the chunks; [None] for another series. *)
Definition minMaxTime (i : Z) (tr : t) : option (Z * Z) :=
  if negb (i =? _meas_id tr) then None
  else
    let add (r : Z * Z) (c : MemChunk) :=
      (Z.min (minTime (mc_stat c)) r.1, Z.max (maxTime (mc_stat c)) r.2) in
    let r := fold_left (fun r kv => add r (snd kv)) (_index tr) (MAX_TIME, MIN_TIME) in
    Some (match _cur_chunk tr with None => r | Some c => add r c end).

Definition chunkInQuery (from to : Z) (c : MemChunk) : bool :=
  let mn := minTime (mc_stat c) in
  let mx := maxTime (mc_stat c) in
  inInterval mn mx from || inInterval mn mx to || inInterval from to mn || inInterval from to mx.

(** The chunks of the index that [intervalReader] and [stat] look at. *)
Definition index_range (from to : Z) (tr : t) : list MemChunk :=
  let e := sm_upper to (_index tr) in
  let b := sm_lower from (_index tr) in
  map snd (sm_range (pred b) e (_index tr)).

(** The chunks they read. *)
Definition chunks_in_query (from to : Z) (tr : t) : list MemChunk :=
  base.filter (fun c => chunkInQuery from to c = true) (index_range from to tr) ++
  match _cur_chunk tr with
  | Some c => if chunkInQuery from to c then [c] else []
  | None => []
  end.

Definition readers_of (cs : list MemChunk) : outcome (list (cursor Chunk.cursor)) :=
  foldM (fun rs c => r ← Chunk.getReader (mc_chunk c); Ok (rs ++ [Leaf r])) cs [].

(** [None]: no entry for the series. *)
Definition intervalReader (q : QueryInterval) (tr : t) : outcome (option (cursor Chunk.cursor)) :=
  readers ← readers_of (chunks_in_query (qi_from q) (qi_to q) tr);
  match readers with
  | [] => Ok None
  | _ => c ← colapseCursors readers; Ok (Some c)
  end.

Definition stat (from to : Z) (tr : t) : outcome Statistic :=
  foldM (fun result c => st ← Chunk.stat from to (mc_chunk c); Ok (update_stat st result))
    (chunks_in_query from to tr) Statistic_empty.

Definition foreach {S} `{IReadCallback S} (q : QueryInterval) (clbk : S) (tr : t) : outcome S :=
  rdr ← intervalReader q tr;
  match rdr with
  | None => Ok clbk
  | Some c => r ← apply_query q (Datatypes.S (Z.to_nat (cursor_count c))) clbk c; Ok r.1
  end.

(** The loop over the chunks of the index in [readTimePoint]. *)
Definition time_point_index (q : QueryTimePoint) (result : Meas) (c : MemChunk) : outcome Meas :=
  if (minTime (mc_stat c) <=? qt_time_point q) && (qt_time_point q <=? maxTime (mc_stat c)) then
    rdr ← Chunk.getReader (mc_chunk c);
    r ← read_time_point q (S (S (Z.to_nat (count (mc_stat c))))) rdr;
    Ok (if time result <? time r.1 then r.1 else result)
  else Ok result.

Definition readTimePoint (q : QueryTimePoint) (tr : t) : outcome Meas :=
  let result := mkMeas 0 0 0 _NO_DATA in
  let e := sm_upper (qt_time_point q) (_index tr) in
  let b := sm_lower (qt_time_point q) (_index tr) in
  let e := if (e <? length (_index tr))%nat then S e else e in
  result ← foldM (time_point_index q) (map snd (sm_range (pred b) e (_index tr))) result;
  result ←
    match _cur_chunk tr with
    | Some c =>
      if maxTime (mc_stat c) <=? qt_time_point q then
        rdr ← Chunk.getReader (mc_chunk c);
        l ← read_to_end (S (S (Z.to_nat (count (mc_stat c))))) rdr;
        Ok (fold_left (fun result v =>
              if (time result <=? time v) && (time v <=? qt_time_point q) then v else result)
              l result)
      else Ok result
    | None => Ok result
    end;
  Ok (if flag result =? _NO_DATA
      then mkMeas (id result) (qt_time_point q) (value result) (flag result) else result).

Definition currentValue (fl : Z) (tr : t) : Meas :=
  let no_data := mkMeas 0 0 0 _NO_DATA in
  match _cur_chunk tr with
  | Some c =>
    let last := ChunkHeader.last (mc_header c) in
    if inFlag fl last then last else no_data
  | None => no_data
  end.

(** ** Dropping chunks *)

Definition rereadMinMax (tr : t) : t :=
  let zero m := mkMeas (id m) MIN_TIME (value m) (flag m) in
  let mm := mkMeasMinMax (zero (mm_min (_min_max tr))) (zero (mm_max (_min_max tr))) in
  let mn :=
    match _index tr with
    | (_, c) :: _ => ChunkHeader.first (mc_header c)
    | [] =>
      match _cur_chunk tr with
      | Some c => ChunkHeader.first (mc_header c)
      | None => mm_min mm
      end
    end in
  let mx :=
    match _cur_chunk tr with
    | Some c => ChunkHeader.last (mc_header c)
    | None => mm_max mm
    end in
  set_min_max (mkMeasMinMax mn mx) tr.

(** The loop of [drop_N]; the counter is a [size_t]. *)
Fixpoint drop_front (cnt : Z) (ix : list (Z * MemChunk)) : list MemChunk * list (Z * MemChunk) :=
  match ix with
  | [] => ([], [])
  | (_, c) :: ix =>
    let cnt := u64 (cnt - 1) in
    if cnt =? 0 then ([c], ix)
    else let '(cs, ix) := drop_front cnt ix in (c :: cs, ix)
  end.

Definition drop_N (n : Z) (tr : t) : list MemChunk * t :=
  let '(cs, ix) := drop_front n (_index tr) in
  (cs, rereadMinMax (set_index ix tr)).

(** The loop of [drop_Old]: an erased chunk is destroyed. *)
Fixpoint drop_while_old (tm : Z) (ix : list (Z * MemChunk)) (w : world A)
  : outcome (Z * list (Z * MemChunk) * world A) :=
  match ix with
  | [] => Ok (0, [], w)
  | (k, c) :: ix' =>
    if maxTime (mc_stat c) <? tm then
      w ← destroy c w;
      '(n, ix', w) ← drop_while_old tm ix' w;
      Ok (u64 (n + 1), ix', w)
    else Ok (0, ix, w)
  end.

Definition drop_Old (tm : Z) (tr : t) (w : world A) : outcome (Z * t * world A) :=
  '(erased, ix, w) ← drop_while_old tm (_index tr) w;
  let tr := set_index ix tr in
  match _cur_chunk tr with
  | None => UB
  | Some c =>
    if maxTime (mc_stat c) <? tm then
      w ← destroy c w;
      Ok (u64 (erased + 1), set_cur None tr, w)
    else Ok (erased, tr, w)
  end.
End Track.
End TimeTrack.
