(* ===== verification/TimeTrackSpec.v ===== *)
(** * Time tracks: what they hold and what they answer

    The invariant of a track ([track_inv]: full chunks in the order of their
    times, keyed by their last time, then the chunk being filled, which together
    hold one strictly ascending list of measurements), how the three ways to
    append change that list, and what an interval query delivers. *)

From Stdlib Require Import ZArith Lia Sorting.Sorted.
From stdpp Require Import base numbers list.
From S2P Require Import Prelude ByteBuffer Float64 Meas Delta Xor Stat Compression StdSort ICursor FullCursor Chunk KMerge Cursors Colapse Allocators StdMap TimeTrack.

Local Open Scope Z_scope.

(** ** Filling a chunk *)

(** What the encoding of [m] after [l] needs: the values differ in a way that
    the compressor can store, the times in a way that it reads back. *)
Definition next_ok (m0 : Meas) (l : list Meas) (m : Meas) : Prop :=
  fits_u64 (Z.lxor (pv_after (value m0) l) (value m)) = true ∧
  misread (DeltaCompressor.delta (dc_after (dc_first m0) l) (time m)) = false.

Lemma times_kept_snoc dc l m :
  times_kept dc (l ++ [m]) =
  times_kept dc l && negb (misread (DeltaCompressor.delta (dc_after dc l) (time m))).
Proof.
  revert dc. induction l as [|x l IH]; intros dc; cbn [times_kept app].
  - by rewrite andb_true_r.
  - by rewrite IH, andb_assoc.
Qed.

Lemma create_not_full hdr size m c : Chunk.create hdr size m = Ok c → Chunk.isFull c = false.
Proof.
  unfold Chunk.create. cbn zeta. set (h := ChunkHeader.set_bw_pos _ _).
  destruct (writer_append_first (ChunkHeader.first h) (reset_pos (make_buffer (replicate size 0))))
    as (w & -> & _ & _ & Hf & _). cbn. by intros [= <-].
Qed.

(** Appending to an open chunk: accepted exactly when the encoding fits. *)
Lemma chunk_append_cases size c m0 l m :
  open_chunk size c m0 l → Chunk.isFull c = false → meas_wf m → Meas.id m = Meas.id m0 →
  Z.of_nat (length l) + 2 < 2 ^ 32 →
  fits_u64 (Z.lxor (pv_after (value m0) l) (value m)) = true →
  if decide (Z.of_nat (length (written_bytes m0 (l ++ [m]))) <= Z.of_nat size - 1)
  then ∃ c', Chunk.append m c = Ok (true, c') ∧ open_chunk size c' m0 (l ++ [m]) ∧
             Chunk.isFull c' = false
  else ∃ c', Chunk.append m c = Ok (false, c') ∧ sealed size c' m0 l ∧
             Chunk.header c' = Chunk.header c.
Proof.
  intros Hc Hnf Hm Hid Hn Hfit. destruct (open_chunk_wf _ _ _ _ Hc) as (Hwfb & Hwf0 & Hp0).
  pose proof Hc as (_ & _ & _ & Hs & Hlen & Hbw & _ & _ & Hw).
  pose proof (seq_wf_pv _ _ Hs) as Hpv.
  assert (Hpos : _pos (CopmressedWriter._bb (Chunk.c_writer c)) =
                 Z.of_nat size - 1 - Z.of_nat (length (written_bytes m0 l))).
  { change (CopmressedWriter._bb (Chunk.c_writer c)) with (Chunk.bw c).
    by rewrite Hbw, push_pos, Hp0. }
  unfold written_bytes in *. rewrite all_encoded_snoc, length_app.
  case_decide as Hd.
  - destruct (writer_append_fits m _ _ _ Hwfb Hm Hpv Hw Hfit) as (w' & E & _ & Hf & _ & _).
    { rewrite Hpos. lia. }
    assert (Ha : ∃ c', Chunk.append m c = Ok (true, c') ∧ Chunk.isFull c' = false).
    { unfold Chunk.append. rewrite E. cbn. eexists. split; [done|].
      unfold Chunk.isFull, CopmressedWriter.isFull. cbn. by rewrite Hf. }
    destruct Ha as (c' & Ea & Hnf'). exists c'. split_and!; [done| |done].
    by eapply chunk_append_true.
  - destruct (writer_append_no_room m _ _ _ Hwfb Hm Hpv Hw Hfit) as (w' & E & _).
    { rewrite Hpos. lia. }
    assert (Ha : ∃ c', Chunk.append m c = Ok (false, c')).
    { unfold Chunk.append. rewrite E. cbn. eauto. }
    destruct Ha as (c' & Ea). destruct (chunk_append_false _ _ _ _ _ _ Hc Hm Ea) as (? & ? & _).
    by exists c'.
Qed.

(** The encoding of a prefix is no longer than that of the whole. *)
Lemma written_bytes_app m0 l1 l2 :
  (length (written_bytes m0 l1) <= length (written_bytes m0 (l1 ++ l2)))%nat.
Proof.
  induction l2 as [|m l2 IH] using rev_ind; [by rewrite app_nil_r|].
  unfold written_bytes in *. rewrite app_assoc, all_encoded_snoc, length_app. lia.
Qed.

Lemma values_fit_app pv l1 l2 :
  values_fit pv (l1 ++ l2) = values_fit pv l1 && values_fit (pv_after pv l1) l2.
Proof. revert pv. induction l1 as [|m l1 IH]; intros pv; cbn; [done|]. by rewrite IH, andb_assoc. Qed.

(** A sequence that can be written to a chunk of [size] bytes. *)
Definition encodable (size : nat) (m0 : Meas) (l : list Meas) : Prop :=
  Forall meas_wf (m0 :: l) ∧ Forall (fun m => Meas.id m = Meas.id m0) l ∧
  values_fit (value m0) l = true ∧ times_kept (dc_first m0) l = true ∧
  Z.of_nat (length l) + 2 < 2 ^ 32 ∧
  Z.of_nat (length (written_bytes m0 l)) <= Z.of_nat size - 1.

Lemma refill_open size c m0 l rest :
  open_chunk size c m0 l → Chunk.isFull c = false → encodable size m0 (l ++ rest) →
  ∃ c', TimeTrack.refill rest c = Ok c' ∧ open_chunk size c' m0 (l ++ rest) ∧
    Chunk.isFull c' = false.
Proof.
  revert c l. induction rest as [|m rest IH]; intros c l Hc Hf He.
  { exists c. by rewrite app_nil_r. }
  pose proof He as (Hwf & Hid & Hv & _ & Hn & Hb).
  rewrite app_comm_cons, Forall_app in Hwf. destruct Hwf as [_ [Hm _]%Forall_cons_1].
  rewrite Forall_app in Hid. destruct Hid as [_ [Hid _]%Forall_cons_1].
  rewrite values_fit_app in Hv. apply andb_true_iff in Hv as [_ Hv]. cbn in Hv.
  apply andb_true_iff in Hv as [Hv _]. rewrite length_app in Hn. cbn [length] in Hn.
  pose proof (chunk_append_cases size c m0 l m Hc Hf Hm Hid ltac:(lia) Hv) as Hcase.
  rewrite decide_True in Hcase.
  - destruct Hcase as (c' & E & Hc' & Hf'). unfold TimeTrack.refill. cbn [foldM]. rewrite E. cbn.
    destruct (IH c' (l ++ [m]) Hc' Hf') as (c2 & E2 & ? & ?); [by rewrite <- app_assoc|].
    exists c2. by rewrite <- app_assoc in *.
  - pose proof (written_bytes_app m0 (l ++ [m]) rest) as Hle.
    rewrite <- app_assoc in Hle. cbn in Hle. lia.
Qed.

(** A new chunk filled with an encodable sequence holds it. *)
Lemma fill_new hdr size m0 l :
  (0 < size)%nat → Z.of_nat size < 2 ^ 32 → encodable size m0 l →
  ∃ c c', Chunk.create hdr size m0 = Ok c ∧ TimeTrack.refill l c = Ok c' ∧
    open_chunk size c' m0 l ∧ Chunk.isFull c' = false.
Proof.
  intros H0 H1 He. pose proof He as ([Hm0 _]%Forall_cons_1 & _).
  destruct (chunk_create hdr size m0 H0 H1 Hm0) as (c & E & Hc).
  destruct (refill_open size c m0 [] l Hc (create_not_full _ _ _ _ E) He) as (c' & E' & ? & ?).
  by exists c, c'.
Qed.

(** ** What a chunk in memory holds *)

Definition tfirst (l : list Meas) : Z := match l with m :: _ => time m | [] => 0 end.
Definition tlast (l : list Meas) : Z := match last l with Some m => time m | None => 0 end.

(** The chunk can be read and holds [l]. *)
Definition stored (c : MemChunk) (l : list Meas) : Prop :=
  ∃ m0 l', l = m0 :: l' ∧ holds (mc_chunk c) m0 l' ∧ times_kept (dc_first m0) l' = true ∧
    strictly_by time l ∧ 0 < ChunkHeader.size (mc_header c) < 2 ^ 32.

(** Besides, the chunk can be appended to. *)
Definition filling (c : MemChunk) (l : list Meas) : Prop :=
  ∃ size m0 l', l = m0 :: l' ∧ open_chunk size (mc_chunk c) m0 l' ∧
    Chunk.isFull (mc_chunk c) = false ∧ times_kept (dc_first m0) l' = true ∧ strictly_by time l.

Lemma filling_stored c l : filling c l → stored c l.
Proof.
  intros (size & m0 & l' & -> & Hc & _ & Hk & Hs). exists m0, l'.
  split_and!; try done; [by eapply open_chunk_holds| |];
    destruct Hc as (H0 & H1 & _ & _ & _ & _ & Hsz & _); unfold mc_header; rewrite Hsz; lia.
Qed.

Lemma strict_bounds l m :
  strictly_by time l → m ∈ l → tfirst l <= time m <= tlast l.
Proof.
  intros Hs Hm. split.
  - destruct l as [|x l]; [by apply not_elem_of_nil in Hm|]. cbn.
    inversion_clear Hs as [|? ? _ Hall]. apply elem_of_cons in Hm as [->|Hm]; [done|].
    rewrite Forall_forall in Hall. specialize (Hall _ Hm). lia.
  - destruct l as [|y l _] using rev_ind; [by apply not_elem_of_nil in Hm|].
    unfold tlast. rewrite last_snoc. apply StronglySorted_append in Hs as (_ & _ & Hxy).
    apply elem_of_app in Hm as [Hm|Hm%list_elem_of_singleton]; [|by subst].
    specialize (Hxy m y Hm ltac:(by left)). cbn in Hxy. lia.
Qed.

Lemma tfirst_elem l : l ≠ [] → ∃ m, m ∈ l ∧ time m = tfirst l.
Proof. destruct l as [|m l]; [done|]. exists m. split; [by left|done]. Qed.

Lemma tlast_elem l : l ≠ [] → ∃ m, m ∈ l ∧ time m = tlast l.
Proof.
  destruct l as [|m l _] using rev_ind; [done|]. exists m.
  unfold tlast. rewrite last_snoc. split; [apply elem_of_app; right; by left|done].
Qed.

Lemma stat_of_times l :
  Forall meas_wf l → strictly_by time l → l ≠ [] →
  minTime (stat_of l) = tfirst l ∧ maxTime (stat_of l) = tlast l.
Proof.
  intros Hwf Hs Hne. destruct (update_all_fields l Statistic_empty) as (E1 & E2 & _).
  unfold stat_of. rewrite E1, E2. cbn [minTime maxTime Statistic_empty].
  destruct (time_min_spec l MAX_TIME) as (B1 & L1 & X1).
  destruct (time_max_spec l MIN_TIME) as (B2 & L2 & X2).
  rewrite Forall_forall in L1, L2, Hwf.
  destruct (tfirst_elem l Hne) as (mf & Hf & Ef). destruct (tlast_elem l Hne) as (ml & Hl & El).
  pose proof (L1 _ Hf). pose proof (L2 _ Hl).
  destruct (Hwf _ Hf) as (_ & Ht1 & _). destruct (Hwf _ Hl) as (_ & Ht2 & _).
  unfold is_time, MAX_TIME, MIN_TIME in *. split.
  - destruct X1 as [X1|(m & Hm & X1)]; [lia|]. pose proof (strict_bounds l m Hs Hm). lia.
  - destruct X2 as [X2|(m & Hm & X2)]; [lia|]. pose proof (strict_bounds l m Hs Hm). lia.
Qed.

(** A chunk that can be read and holds the ascending list [l]. *)
Definition readable (c : Chunk.t) (l : list Meas) : Prop :=
  ∃ m0 l', l = m0 :: l' ∧ holds c m0 l' ∧ times_kept (dc_first m0) l' = true ∧ strictly_by time l.

Lemma readable_facts c l :
  readable c l →
  let st := ChunkHeader.stat (Chunk.header c) in
  st = stat_of l ∧ minTime st = tfirst l ∧ maxTime st = tlast l ∧
  count st = Z.of_nat (length l) ∧ Forall meas_wf l ∧ strictly_by time l ∧ l ≠ [].
Proof.
  intros (m0 & l' & -> & (Hh & _ & Hwf & _ & _ & Hn) & _ & Hs).
  cbn zeta. rewrite (hh_stat _ _ _ Hh).
  destruct (stat_of_times (m0 :: l') Hwf Hs) as [-> ->]; [done|].
  split_and!; try done. rewrite stat_of_count; [done|]. cbn [length]. lia.
Qed.

(** Its reader. *)
Lemma readable_reader `{StdSort} c l :
  readable c l →
  ∃ r, Chunk.getReader c = Ok r ∧ rep r l ∧
    cursor_minTime r = tfirst l ∧ cursor_maxTime r = tlast l ∧
    cursor_count r = Z.of_nat (length l).
Proof.
  intros Hst. destruct (readable_facts c l Hst) as (_ & Hmn & Hmx & Hcnt & _ & _ & _).
  destruct Hst as (m0 & l' & -> & Hc & Hk & Hs).
  pose proof Hc as (Hh & _ & _ & _ & _ & Hn).
  assert (E1 : ChunkHeader.is_sorted (Chunk.header c) = 1).
  { destruct (hh_sorted _ _ _ Hh) as [[? _]|[_ Hns]]; [done|].
    destruct Hns. by apply strictly_by_sorted. }
  destruct (getReader_distinct c m0 l' Hc Hk (strictly_by_NoDup _ _ Hs))
    as (r & L & E & Hr & _ & _ & HL).
  rewrite HL in Hr by by apply strictly_by_sorted.
  exists r. split; [done|]. split; [done|].
  unfold Chunk.getReader in E. cbn zeta in E. rewrite E1 in E. cbn [Z.eqb] in E.
  injection E as <-. cbn. unfold ChunkReader.minTime, ChunkReader.maxTime. cbn.
  split_and!; [exact Hmn|exact Hmx|].
  change (count (ChunkHeader.stat (Chunk.header (c)))) with (count (ChunkHeader.stat (Chunk.header c))).
  rewrite Hcnt. cbn [length]. rewrite (wrap_small 32) by lia. rewrite wrap_small; lia.
Qed.

Lemma stored_readable c l : stored c l → readable (mc_chunk c) l.
Proof. intros (m0 & l' & -> & Hc & Hk & Hs & _). by exists m0, l'. Qed.

Lemma stored_facts c l :
  stored c l →
  minTime (mc_stat c) = tfirst l ∧ maxTime (mc_stat c) = tlast l ∧
  count (mc_stat c) = Z.of_nat (length l) ∧ Forall meas_wf l ∧ strictly_by time l ∧ l ≠ [].
Proof. intros Hc. by destruct (readable_facts _ _ (stored_readable _ _ Hc)) as [_ ?]. Qed.

(** The reader of a stored chunk. *)
Lemma stored_reader `{StdSort} c l :
  stored c l →
  ∃ r, Chunk.getReader (mc_chunk c) = Ok r ∧ rep r l ∧
    cursor_minTime r = tfirst l ∧ cursor_maxTime r = tlast l ∧
    cursor_count r = Z.of_nat (length l).
Proof. intros Hc. by apply readable_reader, stored_readable. Qed.

(** ** The invariant of a track *)

Definition minmax_of (mm : MeasMinMax) (l : list Meas) : Prop :=
  match l with
  | [] => time (mm_min mm) = MAX_TIME ∧ time (mm_max mm) = MIN_TIME
  | _ => time (mm_min mm) = tfirst l ∧ time (mm_max mm) = tlast l
  end.

(** [ls]: what the chunks of the index hold; [lc]: what the current one does. *)
Record track_inv (tr : TimeTrack.t) (ls : list (list Meas)) (lc : list Meas) : Prop := {
  ti_index : Forall2 (fun e l => stored e.2 l ∧ e.1 = tlast l) (TimeTrack._index tr) ls;
  ti_cur : match TimeTrack._cur_chunk tr with Some c => filling c lc | None => lc = [] end;
  ti_strict : strictly_by time (concat ls ++ lc);
  ti_id : Forall (fun m => Meas.id m = TimeTrack._meas_id tr) (concat ls ++ lc);
  ti_minmax : minmax_of (TimeTrack._min_max tr) (concat ls ++ lc);
}.

Lemma track_make_inv step i : track_inv (TimeTrack.make step i) [] [].
Proof. by repeat constructor. Qed.

Lemma filling_not_nil c l : filling c l → l ≠ [].
Proof. by intros (size & m0 & l' & -> & _). Qed.

Lemma tlast_app l1 l2 : l2 ≠ [] → tlast (l1 ++ l2) = tlast l2.
Proof.
  intros Hne. unfold tlast. rewrite last_app. destruct (last l2) eqn:E; [done|].
  by apply last_None in E.
Qed.

Lemma tlast_snoc l m : tlast (l ++ [m]) = time m.
Proof. unfold tlast. by rewrite last_snoc. Qed.

(** The keys of the index are below a time above all measurements. *)
Lemma index_below tr ls lc t :
  Forall2 (fun e l => stored e.2 l ∧ e.1 = tlast l) (TimeTrack._index tr) ls →
  Forall (fun m => time m < t) (concat ls ++ lc) →
  Forall (fun e => e.1 < t) (TimeTrack._index tr).
Proof.
  intros Hix. rewrite Forall_app. intros [Hall _]. induction Hix as [|e l ix ls [Hst He] _ IH].
  - constructor.
  - cbn in Hall. apply Forall_app in Hall as [Hl Hls]. constructor; [|by apply IH].
    rewrite He. destruct (stored_facts _ _ Hst) as (_ & _ & _ & _ & _ & Hne).
    destruct (tlast_elem l Hne) as (m & Hm & <-). rewrite Forall_forall in Hl. by apply Hl.
Qed.

Lemma strict_snoc l m :
  strictly_by time l → Forall (fun x => time x < time m) l → strictly_by time (l ++ [m]).
Proof.
  intros Hs Hall. apply StronglySorted_append. split_and!; [done|repeat constructor|].
  intros x y Hx Hy%list_elem_of_singleton. subst. rewrite Forall_forall in Hall. by apply Hall.
Qed.

(** [updateMinMax] with a measurement later than all others. *)
Lemma minmax_of_snoc mm l m :
  is_time (time m) → strictly_by time l → Forall (fun x => time x < time m) l →
  minmax_of mm l → minmax_of (updateMin m (updateMax m mm)) (l ++ [m]).
Proof.
  intros Ht Hs Hall Hmm.
  assert (E : tfirst (l ++ [m]) = if decide (l = []) then time m else tfirst l).
  { destruct l; by case_decide. }
  assert (Hgoal : time (mm_min (updateMin m (updateMax m mm))) = tfirst (l ++ [m]) ∧
                  time (mm_max (updateMin m (updateMax m mm))) = tlast (l ++ [m]));
    [|by destruct l].
  rewrite E, tlast_snoc. unfold updateMin, updateMax, is_time in *.
  destruct l as [|x l]; cbn in Hmm; destruct Hmm as [H1 H2].
  - rewrite decide_True by done. unfold MAX_TIME, MIN_TIME in *.
    case_ifs; breflect; cbn in *; lia.
  - rewrite decide_False by done. destruct (tlast_elem (x :: l)) as (y & Hy & Ey); [done|].
    rewrite Forall_forall in Hall. pose proof (Hall _ Hy). pose proof (Hall x ltac:(by left)).
    cbn [tfirst] in *. case_ifs; breflect; cbn in *; lia.
Qed.

(** [updateMinMax] with a measurement that is counted already. *)
Lemma minmax_of_elem mm l m :
  strictly_by time l → m ∈ l → minmax_of mm l → updateMin m (updateMax m mm) = mm.
Proof.
  intros Hs Hm Hmm. pose proof (strict_bounds l m Hs Hm).
  destruct l as [|x l]; [by apply not_elem_of_nil in Hm|]. destruct Hmm as [H1 H2].
  unfold updateMax. rewrite (proj2 (Z.ltb_ge _ _)) by lia.
  unfold updateMin. by rewrite (proj2 (Z.ltb_ge _ _)) by lia.
Qed.

Lemma strict_split l1 l2 t :
  strictly_by time (l1 ++ l2) → l2 ≠ [] → t = tlast l2 → Forall (fun m => time m < t) l1.
Proof.
  intros (_ & _ & H12)%StronglySorted_append Hne ->. apply Forall_forall. intros m Hm.
  destruct (tlast_elem l2 Hne) as (y & Hy & <-). by apply (H12 m y).
Qed.

Section Append.
Context {A : Type} `{IMemoryAllocator A} `{StdSort}.
Variable raw_header : ChunkHeader.t.
Implicit Types (w : world A) (tr : TimeTrack.t).

Abbreviation index_holds := (Forall2 (fun e l => stored e.2 l ∧ e.1 = tlast l)).

(** The current chunk becomes the last one of the index. *)
Definition closed (ls : list (list Meas)) (lc : list Meas) : list (list Meas) :=
  match lc with [] => ls | _ => ls ++ [lc] end.

Lemma concat_closed ls lc : concat (closed ls lc) = concat ls ++ lc.
Proof.
  destruct lc; cbn; [by rewrite app_nil_r|]. rewrite concat_app. cbn. by rewrite app_nil_r.
Qed.

(** Chunks the allocator hands out are of a usable size. *)
Definition chunk_size_ok w : Prop :=
  0 < al_chunkSize (al_allocate (w_alloc w)).1 < 2 ^ 32.

Definition refused w : Prop := ad_header (al_allocate (w_alloc w)).2 = None.

Lemma create_new_chunk_spec v tr w ls lc :
  index_holds (TimeTrack._index tr) ls →
  match TimeTrack._cur_chunk tr with Some c => stored c lc | None => lc = [] end →
  strictly_by time (concat ls ++ lc) → meas_wf v → chunk_size_ok w →
  ∃ ok tr' w', TimeTrack.create_new_chunk raw_header v tr w = Ok (ok, tr', w') ∧
    TimeTrack._meas_id tr' = TimeTrack._meas_id tr ∧
    TimeTrack._min_max tr' = TimeTrack._min_max tr ∧
    index_holds (TimeTrack._index tr') (closed ls lc) ∧
    if ok : bool then ∃ c, TimeTrack._cur_chunk tr' = Some c ∧ filling c [v]
    else TimeTrack._cur_chunk tr' = None ∧ refused w.
Proof.
  intros Hix Hcur Hs Hv Hsz. unfold TimeTrack.create_new_chunk.
  set (tr1 := match TimeTrack._cur_chunk tr with None => tr | Some c => _ end).
  assert (H1 : TimeTrack._meas_id tr1 = TimeTrack._meas_id tr ∧
    TimeTrack._min_max tr1 = TimeTrack._min_max tr ∧
    index_holds (TimeTrack._index tr1) (closed ls lc) ∧ TimeTrack._cur_chunk tr1 = None).
  { unfold tr1. destruct (TimeTrack._cur_chunk tr) as [c|] eqn:Ec; [|by subst lc].
    cbn. destruct (stored_facts _ _ Hcur) as (_ & Hmx & _ & _ & _ & Hne).
    split_and!; try done. rewrite sm_insert_last.
    - destruct lc; [done|]. apply Forall2_app; [done|]. by repeat constructor.
    - eapply (index_below tr ls []); [done|]. rewrite app_nil_r.
      by eapply strict_split; [exact Hs|..]. }
  clearbody tr1. destruct H1 as (E1 & E2 & E3 & E4).
  unfold chunk_size_ok, refused in *. destruct (al_allocate (w_alloc w)) as [a d].
  cbn [w_alloc w_chunks fst snd] in *.
  destruct (ad_header d) as [h|] eqn:Eh; [|by eexists false, tr1, _].
  destruct (chunk_create raw_header (Z.to_nat (al_chunkSize a)) v) as (c & Ec & Hc);
    [lia|lia|done|].
  rewrite Ec. cbn. eexists true, _, _. split_and!; [done|done|done|done|].
  eexists. split; [done|]. exists (Z.to_nat (al_chunkSize a)), v, []. cbn.
  split_and!; [done|done|by eapply create_not_full|done|repeat constructor].
Qed.

(** What an append may need of the current chunk. *)
Definition cur_next_ok (lc : list Meas) (v : Meas) : Prop :=
  match lc with
  | [] => True
  | m0 :: l => next_ok m0 l v ∧ Z.of_nat (length l) + 2 < 2 ^ 32
  end.

(** The measurements are [l]. *)
Definition track_holds tr (l : list Meas) : Prop :=
  ∃ ls lc, track_inv tr ls lc ∧ concat ls ++ lc = l.

(** A new chunk for [v], after the current chunk was closed. *)
Lemma start_chunk_inv tr tr' ls lc c v :
  strictly_by time (concat ls ++ lc) →
  Forall (fun m => Meas.id m = TimeTrack._meas_id tr) (concat ls ++ lc) →
  minmax_of (TimeTrack._min_max tr) (concat ls ++ lc) →
  meas_wf v → Meas.id v = TimeTrack._meas_id tr →
  Forall (fun m => time m < time v) (concat ls ++ lc) →
  TimeTrack._meas_id tr' = TimeTrack._meas_id tr →
  TimeTrack._min_max tr' = TimeTrack._min_max tr →
  index_holds (TimeTrack._index tr') (closed ls lc) →
  TimeTrack._cur_chunk tr' = Some c → filling c [v] →
  track_inv (TimeTrack.updateMinMax v tr') (closed ls lc) [v].
Proof.
  intros Hs Hid Hmm Hv Hvid Hlt Eid Emm Hix Ec Hf.
  split; rewrite ?concat_closed; cbn; [done|by rewrite Ec|by apply strict_snoc| |].
  - rewrite Eid. apply Forall_app. split; [done|]. by repeat constructor.
  - rewrite Emm. apply minmax_of_snoc; try done. apply Hv.
Qed.

(** [create_new_chunk] on a track that differs from [tr] at most in the writer
    of its current chunk. *)
Lemma new_chunk_inv v tr tr1 w ls lc :
  track_inv tr ls lc → meas_wf v → Meas.id v = TimeTrack._meas_id tr →
  Forall (fun m => time m < time v) (concat ls ++ lc) → chunk_size_ok w →
  TimeTrack._index tr1 = TimeTrack._index tr →
  match TimeTrack._cur_chunk tr1 with Some c => stored c lc | None => lc = [] end →
  TimeTrack._meas_id tr1 = TimeTrack._meas_id tr →
  TimeTrack._min_max tr1 = TimeTrack._min_max tr →
  ∃ ok tr' w', TimeTrack.create_new_chunk raw_header v tr1 w = Ok (ok, tr', w') ∧
    if ok : bool then track_inv (TimeTrack.updateMinMax v tr') (closed ls lc) [v]
    else refused w ∧ track_inv tr' (closed ls lc) [].
Proof.
  intros [Hix _ Hs Hid Hmm] Hv Hvid Hlt Hsz Eix Hcur1 Eid Emm. rewrite <- Eix in Hix.
  destruct (create_new_chunk_spec v tr1 w ls lc Hix Hcur1 Hs Hv Hsz)
    as (ok & tr' & w' & E & E1 & E2 & Hix' & Hok).
  exists ok, tr', w'. split; [done|]. destruct ok.
  - destruct Hok as (c & Ec & Hf). eapply (start_chunk_inv tr); eauto; congruence.
  - destruct Hok as [Ec Hr]. split; [done|].
    split; rewrite ?app_nil_r, ?concat_closed; [done|by rewrite Ec|done| |].
    + by rewrite E1, Eid.
    + by rewrite E2, Emm.
Qed.

Lemma closed_holds tr ls lc v :
  track_inv tr (closed ls lc) [v] → track_holds tr (concat ls ++ lc ++ [v]).
Proof.
  intros Hi. exists (closed ls lc), [v]. split; [done|].
  by rewrite concat_closed, <- app_assoc.
Qed.

(** The current chunk took [v]. *)
Lemma appended_inv tr ls m0 l v size c' d p :
  track_inv tr ls (m0 :: l) → meas_wf v → Meas.id v = TimeTrack._meas_id tr →
  Forall (fun m => time m < time v) (concat ls ++ m0 :: l) → next_ok m0 l v →
  times_kept (dc_first m0) l = true →
  open_chunk size c' m0 (l ++ [v]) → Chunk.isFull c' = false →
  track_inv (TimeTrack.updateMinMax v (TimeTrack.set_cur (Some (mkMemChunk c' d p)) tr))
    ls (m0 :: l ++ [v]).
Proof.
  intros [Hix _ Hs Hid Hmm] Hv Hvid Hlt [_ Hmis] Hk Hc Hnf.
  pose proof Hs as (_ & Hs2 & _)%StronglySorted_append.
  pose proof Hlt as [_ Hlc]%Forall_app.
  split; cbn; [done|..].
  - exists size, m0, (l ++ [v]). split_and!; try done.
    + by rewrite times_kept_snoc, Hk, Hmis.
    + rewrite app_comm_cons. by apply strict_snoc.
  - rewrite app_comm_cons, app_assoc. by apply strict_snoc.
  - rewrite app_comm_cons, app_assoc. apply Forall_app. split; [done|]. by repeat constructor.
  - rewrite app_comm_cons, app_assoc. apply minmax_of_snoc; try done. apply Hv.
Qed.

Lemma updateMinMax_twice v tr ls :
  track_inv (TimeTrack.updateMinMax v tr) ls [v] →
  TimeTrack.updateMinMax v (TimeTrack.updateMinMax v tr) = TimeTrack.updateMinMax v tr.
Proof.
  intros [_ _ Hs _ Hmm]. unfold TimeTrack.updateMinMax at 1.
  rewrite (minmax_of_elem _ _ v Hs); [by destruct tr| |done].
  apply elem_of_app. right. by left.
Qed.

(** The outcomes of an append later than everything in the track. *)
Definition append_result w ls lc v (r : outcome (Status * TimeTrack.t * world A)) : Prop :=
  ∃ st tr' w', r = Ok (st, tr', w') ∧
    ((st = Status_writed 1 ∧ track_holds tr' (concat ls ++ lc ++ [v])) ∨
     (st = Status_error 1 bad_alloc ∧ refused w ∧ track_inv tr' (closed ls lc) [])).

Lemma append_in_order v tr w ls lc :
  track_inv tr ls lc → meas_wf v → Meas.id v = TimeTrack._meas_id tr →
  Forall (fun m => time m < time v) (concat ls ++ lc) →
  cur_next_ok lc v → chunk_size_ok w →
  append_result w ls lc v (TimeTrack.append raw_header v tr w).
Proof.
  intros Hi Hv Hvid Hlt Hnext Hsz. pose proof Hi as [_ Hcur _ Hid _].
  unfold TimeTrack.append, append_result.
  destruct (TimeTrack._cur_chunk tr) as [cur|] eqn:Ecur.
  2: { destruct (new_chunk_inv v tr tr w ls lc) as ([] & tr' & w' & -> & Hok); try done;
         [by rewrite Ecur|..]; cbn; eexists _, _, _; (split; [done|]); [left|by right].
       split; [done|]. by apply closed_holds. }
  pose proof (filling_stored _ _ Hcur) as Hst0.
  destruct Hcur as (size & m0 & l' & -> & Hc & Hnf & Hk & Hst). rewrite Hnf.
  destruct Hnext as [Hnext Hn]. pose proof Hnext as [Hfit _].
  destruct (stored_facts _ _ Hst0) as (_ & Hmx & _ & _ & _ & Hne).
  rewrite (proj2 (Z.ltb_lt _ _)).
  2: { rewrite Hmx. destruct (tlast_elem _ Hne) as (y & Hy & <-).
       apply Forall_app in Hlt as [_ Hlc]. rewrite Forall_forall in Hlc. by apply Hlc. }
  assert (Hid0 : Meas.id v = Meas.id m0).
  { apply Forall_app in Hid as [_ [Hi0 _]%Forall_cons_1]. congruence. }
  pose proof (chunk_append_cases size _ m0 l' v Hc Hnf Hv Hid0 Hn Hfit) as Hcase.
  case_decide as Hroom; destruct Hcase as (c' & E & Hcase); rewrite E; cbn.
  - destruct Hcase as [Hc' Hnf']. eexists _, _, _. split; [done|]. left. split; [done|].
    exists ls, (m0 :: l' ++ [v]). split; [|done]. by eapply appended_inv.
  - destruct Hcase as [[Hh _ _ _ _ _] Ehd].
    destruct (new_chunk_inv v tr
      (TimeTrack.set_cur (Some (mkMemChunk c' (_a_data cur) (_is_from_pool cur))) tr)
      w ls (m0 :: l')) as (ok & tr' & w' & -> & Hok); try done.
    + cbn. exists m0, l'. destruct Hst0 as (? & ? & _ & _ & _ & _ & Hsize).
      unfold mc_header in *. cbn. by rewrite Ehd.
    + destruct ok; cbn; eexists _, _, _; (split; [done|]); [left|by right].
      split; [done|]. rewrite (updateMinMax_twice _ _ _ Hok). exact (closed_holds _ _ _ _ Hok).
Qed.

(** ** Insertion into the past *)

(** [v] at its place in [l], instead of a measurement at the same time. *)
Definition put (v : Meas) (l : list Meas) : list Meas :=
  base.filter (fun m => time m < time v) l ++ v :: base.filter (fun m => time v < time m) l.

Lemma mset_insert_last v l :
  Forall (fun m => time m < time v) l → mset_insert v l = l ++ [v].
Proof.
  induction 1 as [|x l Hx Hl IH]; cbn; [done|].
  rewrite (proj2 (Z.ltb_ge _ _)), (proj2 (Z.ltb_lt _ _)) by lia. by rewrite IH.
Qed.

Lemma mset_fold l acc :
  strictly_by time (acc ++ l) →
  fold_left (fun mset v => mset_insert v mset) l acc = acc ++ l.
Proof.
  revert acc. induction l as [|v l IH]; intros acc Hs; cbn; [by rewrite app_nil_r|].
  rewrite mset_insert_last, IH.
  - by rewrite <- app_assoc.
  - by rewrite <- app_assoc.
  - apply StronglySorted_append in Hs as (_ & _ & Hxy). apply Forall_forall.
    intros m Hm. apply Hxy; [done|by left].
Qed.

Lemma strict_filter (P : Meas → Prop) `{∀ m, Decision (P m)} l :
  strictly_by time l → strictly_by time (base.filter P l).
Proof.
  unfold strictly_by. induction 1 as [|m l Hl IH Hm]; [constructor|].
  rewrite filter_cons. case_decide; [|done]. constructor; [done|].
  rewrite Forall_forall in *. intros x [_ Hx]%list_elem_of_filter. by apply Hm.
Qed.

Lemma mset_insert_put v l :
  strictly_by time l → mset_insert v (base.filter (fun m => time m ≠ time v) l) = put v l.
Proof.
  unfold strictly_by, put. induction 1 as [|m l Hl IH Hm]; [done|].
  rewrite !filter_cons. destruct (Z.lt_trichotomy (time m) (time v)) as [Hlt|[Heq|Hgt]].
  - rewrite decide_True, decide_True, decide_False by lia. cbn.
    rewrite (proj2 (Z.ltb_ge _ _)), (proj2 (Z.ltb_lt _ _)) by lia. by rewrite IH.
  - rewrite decide_False, decide_False, decide_False by lia. by rewrite IH.
  - rewrite decide_True, decide_False, decide_True by lia. cbn.
    rewrite (proj2 (Z.ltb_lt _ _)) by lia.
    rewrite (filter_none (fun x => time x < time v)), (filter_id (fun x => time x ≠ time v)),
      (filter_id (fun x => time v < time x)); [done|..];
      eapply Forall_impl; try exact Hm; cbn; intros; lia.
Qed.

Lemma put_elem v l m : m ∈ put v l ↔ m = v ∨ (m ∈ l ∧ time m ≠ time v).
Proof.
  unfold put. rewrite elem_of_app, elem_of_cons, !list_elem_of_filter. split.
  - intros [[? ?]|[->|[? ?]]]; [right|by left|right]; split; try done; lia.
  - intros [->|[? ?]]; [auto|]. destruct (Z.lt_total (time m) (time v)) as [?|[?|?]]; auto; lia.
Qed.

Lemma put_strict v l : strictly_by time l → strictly_by time (put v l).
Proof.
  intros Hs. unfold put. apply StronglySorted_append. split_and!.
  - by apply strict_filter.
  - constructor; [by apply strict_filter|]. apply Forall_forall.
    by intros m [? _]%list_elem_of_filter.
  - intros x y [Hx _]%list_elem_of_filter [->|[Hy _]%list_elem_of_filter]%elem_of_cons; lia.
Qed.

Lemma put_app v l1 l2 l3 :
  Forall (fun m => time m < time v) l1 → Forall (fun m => time v < time m) l3 →
  put v (l1 ++ l2 ++ l3) = l1 ++ put v l2 ++ l3.
Proof.
  intros H1 H3. unfold put. rewrite !filter_app.
  rewrite (filter_id (fun m => time m < time v) l1), (filter_none (fun m => time m < time v) l3),
    (filter_none (fun m => time v < time m) l1), (filter_id (fun m => time v < time m) l3);
    try done; try (eapply Forall_impl; [first [exact H1|exact H3]|]; cbn; intros; lia).
  by rewrite !app_nil_r, <- !app_assoc.
Qed.

Lemma put_not_nil v l : put v l ≠ [].
Proof. unfold put. by intros [_ ?]%app_eq_nil. Qed.

Lemma unpack_stored c l v :
  stored c l → TimeTrack.unpack c v = Ok (base.filter (fun m => time m ≠ time v) l).
Proof.
  intros Hst. destruct (stored_facts _ _ Hst) as (_ & _ & Hcnt & _ & Hs & _).
  destruct (stored_reader _ _ Hst) as (r & E & Hr & _). unfold TimeTrack.unpack.
  rewrite E, bind_Ok, (read_to_end_rep _ r l Hr), bind_Ok by (rewrite Hcnt; lia).
  by rewrite mset_fold by by apply strict_filter.
Qed.

(** [updateMinMax] with a measurement put anywhere. *)
Lemma minmax_of_put mm l v :
  is_time (time v) → strictly_by time l → minmax_of mm l →
  minmax_of (updateMin v (updateMax v mm)) (put v l).
Proof.
  intros Ht Hs Hmm. pose proof (put_strict v l Hs) as Hs'. pose proof (put_not_nil v l) as Hne.
  assert (Hin : ∀ m, m ∈ put v l → tfirst (put v l) <= time m <= tlast (put v l))
    by (intros; by apply strict_bounds).
  destruct (tfirst_elem _ Hne) as (mf & Hf & Ef). destruct (tlast_elem _ Hne) as (ml & Hl & El).
  pose proof (Hin v ltac:(apply put_elem; by left)) as Hv.
  assert (Hgoal : time (mm_min (updateMin v (updateMax v mm))) = tfirst (put v l) ∧
                  time (mm_max (updateMin v (updateMax v mm))) = tlast (put v l));
    [|by destruct (put v l)].
  assert (Hold : ∀ m, m ∈ l → tfirst (put v l) <= time m <= tlast (put v l)).
  { intros m Hm. destruct (decide (time m = time v)) as [->|?]; [lia|].
    apply Hin, put_elem. auto. }
  rewrite put_elem in Hf, Hl. unfold updateMin, updateMax, is_time in *.
  destruct l as [|x l]; cbn in Hmm; destruct Hmm as [H1 H2].
  - destruct Hf as [->|[?%not_elem_of_nil _]]; [|done].
    destruct Hl as [->|[?%not_elem_of_nil _]]; [|done]. unfold MAX_TIME, MIN_TIME in *.
    case_ifs; breflect; cbn in *; lia.
  - destruct (tfirst_elem (x :: l)) as (yf & Hyf & Eyf); [done|].
    destruct (tlast_elem (x :: l)) as (yl & Hyl & Eyl); [done|].
    pose proof (Hold _ Hyf). pose proof (Hold _ Hyl). cbn [tfirst] in *.
    assert (time mf = time v ∨ tfirst (x :: l) <= time mf).
    { destruct Hf as [->|[Hf _]]; [by left|]. right. by apply strict_bounds. }
    assert (time ml = time v ∨ time ml <= tlast (x :: l)).
    { destruct Hl as [->|[Hl _]]; [by left|]. right. by apply strict_bounds. }
    cbn [tfirst] in *. case_ifs; breflect; cbn in *; lia.
Qed.

(** What the track needs of its measurements, after one was put. *)
Lemma put_facts v mm i l :
  meas_wf v → Meas.id v = i → strictly_by time l → Forall (fun m => Meas.id m = i) l →
  minmax_of mm l →
  strictly_by time (put v l) ∧ Forall (fun m => Meas.id m = i) (put v l) ∧
  minmax_of (updateMin v (updateMax v mm)) (put v l).
Proof.
  intros Hv Hi Hs Hid Hmm. split_and!; [by apply put_strict| |].
  - apply Forall_forall. intros m [->|[Hm _]]%put_elem; [done|].
    rewrite Forall_forall in Hid. by apply Hid.
  - apply minmax_of_put; try done. apply Hv.
Qed.

(** [l] can be written to a chunk that replaces [c]. *)
Definition refits (c : MemChunk) (l : list Meas) : Prop :=
  match l with
  | [] => False
  | m0 :: rest =>
    encodable (Z.to_nat (ChunkHeader.size (mc_header c) + sizeof_Meas * 2)) m0 rest ∧
    ChunkHeader.size (mc_header c) + sizeof_Meas * 2 < 2 ^ 32
  end.

(** The chunk that replaces [target]. *)
Lemma rebuild_spec target l v :
  stored target l → refits target (put v l) →
  ∃ front rest c c', put v l = front :: rest ∧
    Chunk.create raw_header
      (Z.to_nat (u32 (ChunkHeader.size (mc_header target) + sizeof_Meas * 2))) front = Ok c ∧
    TimeTrack.refill rest c = Ok c' ∧ filling (mkMemChunk c' EMPTY false) (put v l).
Proof.
  intros Hst Hr. destruct (stored_facts _ _ Hst) as (_ & _ & _ & _ & Hs & _).
  pose proof (put_strict v l Hs) as Hs'. destruct Hst as (_ & _ & _ & _ & _ & _ & Hsz).
  destruct (put v l) as [|front rest]; [done|]. destruct Hr as [He Hlt].
  unfold sizeof_Meas in *. rewrite wrap_small by lia.
  destruct (fill_new raw_header (Z.to_nat (ChunkHeader.size (mc_header target) + 24 * 2))
    front rest ltac:(lia) ltac:(lia) He) as (c & c' & E1 & E2 & Hc & Hf).
  exists front, rest, c, c'. split_and!; try done.
  exists (Z.to_nat (ChunkHeader.size (mc_header target) + 24 * 2)), front, rest.
  split_and!; try done. apply He.
Qed.

(** Every chunk of the track can be given back. *)
Definition frees tr w : Prop :=
  ∀ c, (c ∈ snd <$> TimeTrack._index tr ∨ TimeTrack._cur_chunk tr = Some c) →
    ∃ a, al_free (w_alloc w) (_a_data c) = Ok a.

Lemma destroy_Ok tr w w' c :
  frees tr w → w_alloc w' = w_alloc w →
  (c ∈ snd <$> TimeTrack._index tr ∨ TimeTrack._cur_chunk tr = Some c) →
  ∃ w2, destroy c w' = Ok w2.
Proof.
  intros Hfr Ew Hc. unfold destroy. destruct (_is_from_pool c); cbn; [|eauto].
  rewrite Ew. destruct (Hfr c Hc) as [a ->]. cbn. eauto.
Qed.

(** Insertion into the current chunk. *)
Lemma past_cur v tr w ls lc c :
  track_inv tr ls lc → TimeTrack._cur_chunk tr = Some c → meas_wf v →
  Meas.id v = TimeTrack._meas_id tr → (ls = [] ∨ tfirst lc <= time v) →
  refits c (put v lc) → frees tr w →
  ∃ tr' w', TimeTrack.append_to_past raw_header v tr w = Ok (tr', w') ∧
    track_inv (TimeTrack.updateMinMax v tr') ls (put v lc) ∧
    put v (concat ls ++ lc) = concat ls ++ put v lc.
Proof.
  intros [Hix Hcur Hs Hid Hmm] Ec Hv Hvid Hwhere Hr Hfr. rewrite Ec in Hcur.
  pose proof (filling_stored _ _ Hcur) as Hst.
  destruct (stored_facts _ _ Hst) as (Hmn & _ & _ & _ & Hslc & Hne).
  assert (Hput : put v (concat ls ++ lc) = concat ls ++ put v lc).
  { rewrite <- (app_nil_r lc) at 1. rewrite put_app; [by rewrite app_nil_r| |constructor].
    destruct Hwhere as [->|Hle]; [constructor|].
    apply StronglySorted_append in Hs as (_ & _ & Hxy). apply Forall_forall. intros m Hm.
    destruct (tfirst_elem lc Hne) as (y & Hy & Ey). specialize (Hxy m y Hm Hy). cbn in Hxy. lia. }
  unfold TimeTrack.append_to_past. rewrite Ec.
  assert (Hb : (length (TimeTrack._index tr) =? 0)%nat || (minTime (mc_stat c) <=? time v) = true).
  { apply orb_true_iff. rewrite Hmn, Nat.eqb_eq, Z.leb_le, (Forall2_length _ _ _ Hix).
    destruct Hwhere as [->|?]; auto. }
  rewrite Hb, bind_Ok, (unpack_stored _ _ v Hst), bind_Ok, (mset_insert_put _ _ Hslc).
  destruct (rebuild_spec c lc v Hst Hr) as (front & rest & ch & ch' & Ep & E1 & E2 & Hf).
  destruct (destroy_Ok tr w (if _is_from_pool c then freeChunk w else w) c Hfr)
    as (w2 & ->); [by destruct (_is_from_pool c)|by right|].
  rewrite bind_Ok, Ep, E1, bind_Ok, E2, bind_Ok. eexists _, _. split; [done|].
  rewrite <- Ep. split; [|done].
  destruct (put_facts _ _ _ _ Hv Hvid Hs Hid Hmm) as (? & ? & ?). by split; cbn; rewrite <- ?Hput.
Qed.

(** The target in an index of at least two chunks is the first one that ends
    at the time or later. *)
Lemma target_in_index tr tm ix1 k c ix2 l :
  TimeTrack._index tr = ix1 ++ (k, c) :: ix2 → (length (TimeTrack._index tr) ≠ 1)%nat →
  Forall (fun e => e.1 < tm) ix1 → tm <= k → Forall (fun e => k < e.1) ix2 →
  stored c l → k = tlast l →
  TimeTrack.get_target_to_replace_from_index tm tr = Ok c.
Proof.
  intros Eix Hlen H1 Hk H2 Hst Ek. unfold TimeTrack.get_target_to_replace_from_index.
  rewrite (proj2 (Nat.eqb_neq _ _) Hlen). rewrite Eix.
  rewrite sm_lower_app, sm_upper_app
    by (done || (eapply Forall_impl; [exact H1|]; cbn; intros; lia)).
  cbn [sm_lower sm_upper]. rewrite (proj2 (Z.ltb_ge k tm)), Nat.add_0_r by done.
  rewrite length_app. cbn [length].
  destruct (stored_facts _ _ Hst) as (Hmn & Hmx & _ & _ & Hs & Hne).
  assert (Hrange : ∀ n, map snd (sm_range (length ix1) (length ix1 + S n) (ix1 ++ (k, c) :: ix2))
                        = c :: map snd (take n ix2)).
  { intros n. unfold sm_range. rewrite (proj2 (Nat.leb_le _ _)) by lia.
    replace (length ix1 + S n - length ix1)%nat with (S n) by lia. by rewrite drop_app_length. }
  destruct (Z.leb_spec k tm) as [Hle|Hgt].
  - rewrite sm_upper_zero by (eapply Forall_impl; [exact H2|]; cbn; intros; lia).
    destruct ix2 as [|[k2 c2] ix2].
    { rewrite (proj2 (Nat.ltb_ge _ _)) by (cbn; lia). by rewrite Hrange. }
    rewrite (proj2 (Nat.ltb_lt _ _)) by (cbn; lia).
    replace (S (length ix1 + 1)) with (length ix1 + 2)%nat by lia. rewrite Hrange. cbn.
    destruct (tfirst_elem l Hne) as (y & Hy & Ey). pose proof (strict_bounds l y Hs Hy).
    unfold inInterval. rewrite Hmn, Hmx, (proj2 (Z.leb_le (tfirst l) tm)),
      (proj2 (Z.leb_le tm (tlast l))) by lia. by rewrite orb_true_r.
  - rewrite Nat.add_0_r, (proj2 (Nat.ltb_lt _ _)) by lia.
    replace (S (length ix1)) with (length ix1 + 1)%nat by lia. by rewrite Hrange.
Qed.

Lemma target_of tr tm ix1 k c ix2 l :
  TimeTrack._index tr = ix1 ++ (k, c) :: ix2 → Forall (fun e => e.1 < tm) ix1 →
  (tm <= k ∨ ix1 = [] ∧ ix2 = []) → Forall (fun e => k < e.1) ix2 → stored c l → k = tlast l →
  TimeTrack.get_target_to_replace_from_index tm tr = Ok c.
Proof.
  intros Eix H1 Hk H2 Hst El.
  destruct (decide (length (TimeTrack._index tr) = 1)%nat) as [Hl1|Hl1].
  - rewrite Eix, length_app in Hl1. cbn in Hl1. destruct ix1, ix2; cbn in Hl1; try lia.
    unfold TimeTrack.get_target_to_replace_from_index. by rewrite Eix.
  - destruct Hk as [Hk|[-> ->]]; [by eapply target_in_index|]. by rewrite Eix in Hl1.
Qed.

Lemma index_above ix ls t :
  index_holds ix ls → Forall (fun m => t < time m) (concat ls) → Forall (fun e => t < e.1) ix.
Proof.
  intros Hix Hall. induction Hix as [|e l ix ls [Hst He] _ IH]; [constructor|].
  cbn in Hall. apply Forall_app in Hall as [Hl Hls]. constructor; [|by apply IH].
  rewrite He. destruct (stored_facts _ _ Hst) as (_ & _ & _ & _ & _ & Hne).
  destruct (tlast_elem l Hne) as (m & Hm & <-). rewrite Forall_forall in Hl. by apply Hl.
Qed.

(** The parts of a track around the list [l] of one chunk of the index. *)
Lemma around l L1 L2 lc v :
  strictly_by time (concat (L1 ++ l :: L2) ++ lc) → l ≠ [] → lc ≠ [] → time v < tfirst lc →
  (time v <= tlast l ∨ L1 = [] ∧ L2 = []) →
  Forall (fun m => tlast l < time m) (concat L2 ++ lc) ∧
  Forall (fun m => time v < time m) (concat L2 ++ lc) ∧
  Forall (fun m => tlast (put v l) < time m) (concat L2 ++ lc).
Proof.
  intros Hs Hl Hlc Hlt Hwhere.
  rewrite concat_app, <- app_assoc in Hs. cbn in Hs. rewrite <- app_assoc in Hs.
  apply StronglySorted_append in Hs as (_ & Hs & _).
  apply StronglySorted_append in Hs as (_ & Hs & Hxy).
  destruct (tlast_elem l Hl) as (y & Hy & Ey).
  assert (Hl2 : ∀ m, m ∈ concat L2 ++ lc → tlast l < time m).
  { intros m Hm. rewrite <- Ey. by apply Hxy. }
  assert (Hv2 : ∀ m, m ∈ concat L2 ++ lc → time v < time m).
  { intros m Hm. destruct Hwhere as [Hle|[_ ->]]; [pose proof (Hl2 m Hm); lia|].
    cbn in *. pose proof (strict_bounds _ m Hs Hm). lia. }
  split_and!; apply Forall_forall; try done. intros m Hm.
  destruct (tlast_elem (put v l) (put_not_nil v l)) as (z & [->|[Hz _]]%put_elem & <-);
    [by apply Hv2|by apply Hxy].
Qed.

(** Insertion into the chunk of the index that holds [l]. *)
Lemma past_index v tr w L1 l L2 lc c :
  track_inv tr (L1 ++ l :: L2) lc → lc ≠ [] → time v < tfirst lc →
  Forall (fun m => time m < time v) (concat L1) →
  (time v <= tlast l ∨ L1 = [] ∧ L2 = []) →
  meas_wf v → Meas.id v = TimeTrack._meas_id tr →
  TimeTrack._index tr !! length L1 = Some (tlast l, c) →
  refits c (put v l) → frees tr w →
  ∃ tr' w', TimeTrack.append_to_past raw_header v tr w = Ok (tr', w') ∧
    track_inv (TimeTrack.updateMinMax v tr') (L1 ++ put v l :: L2) lc ∧
    put v (concat (L1 ++ l :: L2) ++ lc) = concat (L1 ++ put v l :: L2) ++ lc.
Proof.
  intros [Hix Hcur Hs Hid Hmm] Hlc Hlt H1 Hwhere Hv Hvid Hc Hr Hfr.
  destruct (TimeTrack._cur_chunk tr) as [cur|] eqn:Ecur; [|done].
  destruct (stored_facts _ _ (filling_stored _ _ Hcur)) as (Hmn & _).
  apply Forall2_app_inv_r in Hix as (ix1 & ix' & Hix1 & Hix' & Eix).
  inversion Hix' as [|[k c'] ? ix2 ? [Hst Hk] Hix2]; subst ix'. cbn in Hst, Hk.
  rewrite Eix, <- (Forall2_length _ _ _ Hix1), list_lookup_middle in Hc by done.
  injection Hc as -> ->. clear Hk.
  destruct (stored_facts _ _ Hst) as (_ & Hmx & _ & _ & Hsl & Hne).
  destruct (around l L1 L2 lc v Hs Hne Hlc Hlt Hwhere) as (Ha1 & Ha2 & Ha3).
  assert (Hput : put v (concat (L1 ++ l :: L2) ++ lc) = concat (L1 ++ put v l :: L2) ++ lc).
  { rewrite !concat_app. cbn. rewrite <- !app_assoc. by apply put_app. }
  apply Forall_app in Ha1 as [Ha1 _]. apply Forall_app in Ha3 as [Ha3 _].
  pose proof (index_above _ _ _ Hix2 Ha1) as Hk2. pose proof (index_above _ _ _ Hix2 Ha3) as Hk3.
  assert (Hkv : Forall (fun e => e.1 < time v) ix1).
  { eapply (index_below (TimeTrack.set_index ix1 tr) L1 []); [exact Hix1|]. by rewrite app_nil_r. }
  assert (Hkl : Forall (fun e => e.1 < tlast l) ix1).
  { eapply (index_below (TimeTrack.set_index ix1 tr) L1 []); [exact Hix1|]. rewrite app_nil_r.
    rewrite concat_app, <- app_assoc in Hs. cbn in Hs. rewrite <- app_assoc, app_assoc in Hs.
    apply StronglySorted_append in Hs as (Hs & _). by eapply strict_split; [exact Hs|..]. }
  unfold TimeTrack.append_to_past. rewrite Ecur.
  assert (Hb : (length (TimeTrack._index tr) =? 0)%nat || (minTime (mc_stat cur) <=? time v) = false).
  { apply orb_false_iff. rewrite Hmn, Nat.eqb_neq, Z.leb_gt, Eix, length_app. cbn. lia. }
  rewrite Hb.
  assert (Ht : TimeTrack.get_target_to_replace_from_index (time v) tr = Ok c).
  { apply (target_of tr (time v) ix1 (tlast l) c ix2 l); try done.
    destruct Hwhere as [?|[-> ->]]; [by left|right].
    by apply Forall2_nil_inv_r in Hix1, Hix2. }
  rewrite Ht, bind_Ok, (unpack_stored _ _ v Hst), bind_Ok, (mset_insert_put _ _ Hsl).
  destruct (rebuild_spec c l v Hst Hr) as (front & rest & ch & ch' & Ep & E1 & E2 & Hf).
  destruct (destroy_Ok tr w (if _is_from_pool c then freeChunk w else w) c Hfr)
    as (w2 & ->); [by destruct (_is_from_pool c)| |].
  { left. rewrite Eix, fmap_app. apply elem_of_app. right. by left. }
  rewrite bind_Ok, Ep, E1, bind_Ok, E2, bind_Ok. eexists _, _. split; [done|].
  rewrite <- Ep. split; [|done].
  pose proof (filling_stored _ _ Hf) as Hst'.
  destruct (stored_facts _ _ Hst') as (_ & Hmx' & _).
  destruct (put_facts _ _ _ _ Hv Hvid Hs Hid Hmm) as (? & ? & ?). split; cbn.
  - rewrite Eix, Hmx, sm_erase_middle, Hmx', sm_insert_middle; try done.
    + apply Forall2_app; [done|]. by constructor.
    + eapply Forall_impl; [exact Hkv|]. cbn. intros e He.
      pose proof (strict_bounds _ v (put_strict v l Hsl) ltac:(apply put_elem; by left)). lia.
  - by rewrite Ecur.
  - by rewrite <- Hput.
  - by rewrite <- Hput.
  - by rewrite <- Hput.
Qed.

(** Which chunk a measurement of the past goes to. *)
Inductive past_target tr v : list (list Meas) → list Meas → MemChunk → list Meas → Prop :=
| target_cur ls lc c :
    TimeTrack._cur_chunk tr = Some c → (ls = [] ∨ tfirst lc <= time v) →
    past_target tr v ls lc c lc
| target_index L1 l L2 lc c :
    TimeTrack._index tr !! length L1 = Some (tlast l, c) → time v < tfirst lc →
    Forall (fun m => time m < time v) (concat L1) →
    (time v <= tlast l ∨ L1 = [] ∧ L2 = []) →
    past_target tr v (L1 ++ l :: L2) lc c l.

(** [append] of a measurement that is not later than the current chunk. *)
Lemma append_past_reduce v tr w ls lc :
  track_inv tr ls lc → lc ≠ [] → time v <= tlast lc →
  TimeTrack.append raw_header v tr w =
  ('(tr', w') ← TimeTrack.append_to_past raw_header v tr w;
   Ok (Status_writed 1, TimeTrack.updateMinMax v tr', w')).
Proof.
  intros [_ Hcur _ _ _] Hlc Hle. unfold TimeTrack.append.
  destruct (TimeTrack._cur_chunk tr) as [c|]; [|done].
  destruct (stored_facts _ _ (filling_stored _ _ Hcur)) as (_ & Hmx & _).
  destruct Hcur as (size & m0 & l' & -> & _ & -> & _).
  by rewrite (proj2 (Z.ltb_ge _ _)) by (rewrite Hmx; lia).
Qed.

Lemma append_past v tr w ls lc c l :
  track_inv tr ls lc → lc ≠ [] → time v <= tlast lc → past_target tr v ls lc c l →
  meas_wf v → Meas.id v = TimeTrack._meas_id tr → refits c (put v l) → frees tr w →
  ∃ tr' w', TimeTrack.append raw_header v tr w = Ok (Status_writed 1, tr', w') ∧
    track_holds tr' (put v (concat ls ++ lc)).
Proof.
  intros Hi Hlc Hle Ht Hv Hvid Hr Hfr. rewrite (append_past_reduce v tr w ls lc Hi Hlc Hle).
  destruct Ht as [ls lc c Ec Hw|L1 l L2 lc c Hc Hlt H1 Hw].
  - destruct (past_cur v tr w ls lc c) as (tr' & w' & -> & Hi' & Hp); try done.
    cbn. eexists _, _. split; [done|]. rewrite Hp. by eexists _, _.
  - destruct (past_index v tr w L1 l L2 lc c) as (tr' & w' & -> & Hi' & Hp); try done.
    cbn. eexists _, _. split; [done|]. rewrite Hp. by eexists _, _.
Qed.

(** The series of a track does not change. *)
Lemma create_new_chunk_id v tr w ok tr' w' :
  TimeTrack.create_new_chunk raw_header v tr w = Ok (ok, tr', w') →
  TimeTrack._meas_id tr' = TimeTrack._meas_id tr.
Proof.
  unfold TimeTrack.create_new_chunk. intros E. inv_Ok. destruct (ad_header _); inv_Ok; simplify_eq;
    by destruct (TimeTrack._cur_chunk tr).
Qed.

Lemma append_to_past_id v tr w tr' w' :
  TimeTrack.append_to_past raw_header v tr w = Ok (tr', w') →
  TimeTrack._meas_id tr' = TimeTrack._meas_id tr.
Proof.
  unfold TimeTrack.append_to_past. intros E. destruct (TimeTrack._cur_chunk tr); [|done]. inv_Ok.
  destruct (mset_insert _ _); inv_Ok. by destruct ((_ || _)%bool); simplify_eq.
Qed.

Lemma append_meas_id v tr w st tr' w' :
  TimeTrack.append raw_header v tr w = Ok (st, tr', w') →
  TimeTrack._meas_id tr' = TimeTrack._meas_id tr.
Proof.
  unfold TimeTrack.append. intros E.
  repeat (case_match; inv_Ok; simplify_eq); subst; cbn;
    repeat match goal with
    | H : TimeTrack.create_new_chunk _ _ _ _ = Ok _ |- _ => apply create_new_chunk_id in H; cbn in H
    | H : TimeTrack.append_to_past _ _ _ _ = Ok _ |- _ => apply append_to_past_id in H
    end; congruence.
Qed.
End Append.

(** ** Interval queries *)

Section Query.
Context `{StdSort}.
Implicit Types (tr : TimeTrack.t) (ls : list (list Meas)).

(** [chunkInQuery] in terms of what the chunk holds. *)
Definition list_in_query (from to : Z) (l : list Meas) : bool :=
  inInterval (tfirst l) (tlast l) from || inInterval (tfirst l) (tlast l) to ||
  inInterval from to (tfirst l) || inInterval from to (tlast l).

Lemma chunkInQuery_list from to c l :
  stored c l → TimeTrack.chunkInQuery from to c = list_in_query from to l.
Proof.
  intros (Hmn & Hmx & _)%stored_facts. unfold TimeTrack.chunkInQuery, list_in_query.
  by rewrite Hmn, Hmx.
Qed.

Lemma not_in_query from to l :
  from <= to → strictly_by time l → list_in_query from to l = false →
  Forall (fun m => ¬ inInterval from to (time m) = true) l.
Proof.
  intros Hft Hs Hq. apply Forall_forall. intros m Hm. pose proof (strict_bounds l m Hs Hm).
  unfold list_in_query, inInterval in *. breflect; rewrite andb_true_iff, !Z.leb_le; lia.
Qed.

(** The entries of the index, with lists for chunks. *)
Definition keyed ls : list (Z * list Meas) := (fun l => (tlast l, l)) <$> ls.

Definition same_entry (e : Z * MemChunk) (e' : Z * list Meas) : Prop :=
  stored e.2 e'.2 ∧ e.1 = e'.1.

Lemma keyed_index ix ls :
  Forall2 (fun e l => stored e.2 l ∧ e.1 = tlast l) ix ls → Forall2 same_entry ix (keyed ls).
Proof. intros Hix. apply Forall2_fmap_r. eapply Forall2_impl; [exact Hix|]. done. Qed.

Lemma same_bounds ix kl t :
  Forall2 same_entry ix kl → sm_lower t ix = sm_lower t kl ∧ sm_upper t ix = sm_upper t kl.
Proof.
  induction 1 as [|[k c] [k' l] ix kl [_ Hk] _ [IH1 IH2]]; [done|]. cbn in *. subst k'.
  by rewrite IH1, IH2.
Qed.

Lemma same_range ix kl b e :
  Forall2 same_entry ix kl → Forall2 same_entry (sm_range b e ix) (sm_range b e kl).
Proof.
  intros Hix. unfold sm_range. destruct (b <=? e)%nat; [apply Forall2_take|]; by apply Forall2_drop.
Qed.

(** The lists an interval query reads. *)
Definition lists_in_query (from to : Z) ls (lc : list Meas) : list (list Meas) :=
  base.filter (fun l => list_in_query from to l = true)
    (snd <$> sm_range (pred (sm_lower from (keyed ls))) (sm_upper to (keyed ls)) (keyed ls)) ++
  match lc with
  | [] => []
  | _ => if list_in_query from to lc then [lc] else []
  end.

Lemma chunks_in_query_lists from to tr ls lc :
  track_inv tr ls lc →
  Forall2 stored (TimeTrack.chunks_in_query from to tr) (lists_in_query from to ls lc).
Proof.
  intros [Hix Hcur _ _ _]. unfold TimeTrack.chunks_in_query, lists_in_query.
  apply Forall2_app.
  - apply keyed_index in Hix. unfold TimeTrack.index_range.
    destruct (same_bounds _ _ from Hix) as [-> _]. destruct (same_bounds _ _ to Hix) as [_ ->].
    apply (Forall2_filter stored).
    + intros c l Hst. by rewrite (chunkInQuery_list _ _ _ _ Hst).
    + change (map snd ?x) with (@snd Z MemChunk <$> x). apply Forall2_fmap.
      eapply Forall2_impl; [by apply same_range|]. by intros e e' [? _].
  - destruct (TimeTrack._cur_chunk tr) as [c|]; [|by subst lc].
    pose proof (filling_stored _ _ Hcur) as Hst. rewrite (chunkInQuery_list _ _ _ _ Hst).
    destruct (stored_facts _ _ Hst) as (_ & _ & _ & _ & _ & Hne).
    destruct lc as [|m lc]; [done|]. destruct (list_in_query _ _ _); by repeat constructor.
Qed.

Lemma readers_of_spec cs ls :
  Forall2 stored cs ls →
  ∃ rs, TimeTrack.readers_of cs = Ok (Leaf <$> rs) ∧ Forall2 rep rs ls ∧
    Forall2 (fun r l => cursor_minTime r = tfirst l ∧ cursor_count r = Z.of_nat (length l)) rs ls.
Proof.
  intros Hst. unfold TimeTrack.readers_of.
  assert (Hgen : ∀ rs0 : list Chunk.cursor, ∃ rs,
    foldM (fun rs c => r ← Chunk.getReader (mc_chunk c); Ok (rs ++ [Leaf r])) cs (Leaf <$> rs0) =
      Ok (Leaf <$> (rs0 ++ rs)) ∧ Forall2 rep rs ls ∧
    Forall2 (fun r l => cursor_minTime r = tfirst l ∧ cursor_count r = Z.of_nat (length l)) rs ls);
    [|exact (Hgen [])].
  induction Hst as [|c l cs ls Hc _ IH]; intros rs0.
  { exists []. by rewrite app_nil_r. }
  destruct (stored_reader c l Hc) as (r & E & Hr & Hmn & _ & Hcnt).
  destruct (IH (rs0 ++ [r])) as (rs & E2 & Hrs & Hprops). exists (r :: rs).
  cbn [foldM]. rewrite E. cbn. rewrite fmap_app in E2. cbn in E2. rewrite E2, <- app_assoc.
  split_and!; [done|by constructor|by constructor].
Qed.

Lemma sublist_concat {A} (l1 l2 : list (list A)) :
  l1 `sublist_of` l2 → concat l1 `sublist_of` concat l2.
Proof.
  induction 1 as [|x l1 l2 _ IH|x l1 l2 _ IH]; cbn; [done|by apply sublist_app|].
  by apply sublist_inserts_l.
Qed.

Lemma strict_sublist l1 l2 : l1 `sublist_of` l2 → strictly_by time l2 → strictly_by time l1.
Proof. apply StronglySorted_sublist. Qed.

Lemma sm_range_sublist {A} b e (m : list (Z * A)) : sm_range b e m `sublist_of` m.
Proof.
  unfold sm_range. destruct (b <=? e)%nat; [etransitivity; [apply sublist_take|]|];
    apply sublist_drop.
Qed.

Lemma lists_in_query_sublist from to ls lc :
  concat (lists_in_query from to ls lc) `sublist_of` concat ls ++ lc.
Proof.
  replace (concat ls ++ lc) with (concat (ls ++ [lc]))
    by (rewrite concat_app; cbn; by rewrite app_nil_r).
  apply sublist_concat, sublist_app.
  - etransitivity; [apply sublist_filter|].
    replace ls with (snd <$> keyed ls) at 4.
    + apply fmap_sublist, sm_range_sublist.
    + unfold keyed. rewrite <- list_fmap_compose. apply list_fmap_id.
  - destruct lc as [|m lc]; [apply sublist_nil_l|].
    destruct (list_in_query _ _ _); [done|apply sublist_nil_l].
Qed.

Lemma kmerge_concat ls : strictly_by time (concat ls) → kmerge ls = concat ls.
Proof. intros Hs. symmetry. by apply kmerge_unique. Qed.

Lemma readers_sorted (rs : list Chunk.cursor) ls :
  Forall2 (fun r l => cursor_minTime r = tfirst l ∧ cursor_count r = Z.of_nat (length l)) rs ls →
  Forall (fun l => l ≠ []) ls → strictly_by time (concat ls) → sorted_by cursor_minTime rs.
Proof.
  intros Hp. induction Hp as [|r l rs ls [Hr _] Hp IH]; intros Hne Hs; [constructor|].
  apply Forall_cons_1 in Hne as [Hl Hne]. cbn in Hs.
  apply StronglySorted_append in Hs as (_ & Hs & Hxy). constructor; [by apply IH|].
  clear IH Hs. destruct (tfirst_elem l Hl) as (x & Hx & Ex).
  induction Hp as [|r' l' rs ls [Hr' _] _ IH2]; constructor.
  - apply Forall_cons_1 in Hne as [Hl' _]. destruct (tfirst_elem l' Hl') as (y & Hy & Ey).
    rewrite Hr, Hr', <- Ex, <- Ey. apply Z.lt_le_incl, Hxy; [done|].
    cbn. apply elem_of_app. by left.
  - apply Forall_cons_1 in Hne as [_ Hne]. apply IH2; [done|]. intros x' y Hx' Hy.
    apply Hxy; [done|]. cbn. apply elem_of_app. by right.
Qed.

Lemma readers_counts (rs : list Chunk.cursor) ls :
  Forall2 (fun r l => cursor_minTime r = tfirst l ∧ cursor_count r = Z.of_nat (length l)) rs ls →
  counts (Leaf <$> rs) = Z.of_nat (length (concat ls)).
Proof.
  induction 1 as [|r l rs ls [_ Hr] _ IH]; [done|]. cbn. rewrite length_app.
  unfold counts in IH. rewrite IH, Nat2Z.inj_add. f_equal. exact Hr.
Qed.

(** What [intervalReader] gives: nothing, or a cursor over the chunks read. *)
Lemma intervalReader_spec q tr ls lc :
  track_inv tr ls lc → Forall (fun m => time m < MAX_TIME) (concat ls ++ lc) →
  Z.of_nat (length (concat ls ++ lc)) < 2 ^ 64 →
  let sel := lists_in_query (qi_from q) (qi_to q) ls lc in
  (sel = [] ∧ TimeTrack.intervalReader q tr = Ok None) ∨
  ∃ c, TimeTrack.intervalReader q tr = Ok (Some c) ∧ Rep c (concat sel).
Proof.
  intros Hi Hmax Hlen sel. pose proof (chunks_in_query_lists (qi_from q) (qi_to q) tr ls lc Hi) as Hst.
  fold sel in Hst. pose proof (lists_in_query_sublist (qi_from q) (qi_to q) ls lc) as Hsub.
  fold sel in Hsub.
  assert (Hs : strictly_by time (concat sel)) by (eapply strict_sublist; [exact Hsub|apply Hi]).
  assert (Hall : Forall (fun l => l ≠ [] ∧ strictly_by time l) sel).
  { clear -Hst. induction Hst as [|c l cs sel Hc _ IH]; constructor; [|done].
    by destruct (stored_facts _ _ Hc) as (_ & _ & _ & _ & ? & ?). }
  unfold TimeTrack.intervalReader.
  destruct (readers_of_spec _ _ Hst) as (rs & -> & Hrep & Hprops). rewrite bind_Ok.
  destruct rs as [|r rs].
  { left. split; [by apply Forall2_nil_inv_l in Hrep|done]. }
  right. assert (Hne : Forall (fun l => l ≠ []) sel) by (eapply Forall_impl; [exact Hall|]; by intros ? []).
  destruct (colapse_Rep (r :: rs) sel) as (c & E & Hc); try done.
  - eapply Forall_impl; [exact Hall|]. by intros ? [].
  - apply Forall_concat. eapply Forall_sublist_of; [exact Hsub|done].
  - by eapply readers_sorted.
  - rewrite (readers_counts _ _ Hprops). apply sublist_length in Hsub. lia.
  - cbn [fmap list_fmap] in *. rewrite E, bind_Ok. exists c.
    by rewrite kmerge_concat in Hc.
Qed.

(** ** What a query delivers *)

Lemma in_query_interval q m :
  in_query q m → inInterval (qi_from q) (qi_to q) (time m) = true.
Proof. unfold in_query, inQueryInterval. by intros [_ ?]%andb_true_iff. Qed.

Lemma filter_nothing q l :
  Forall (fun m => ¬ inInterval (qi_from q) (qi_to q) (time m) = true) l →
  base.filter (in_query q) l = [].
Proof.
  intros Hl. apply filter_none. eapply Forall_impl; [exact Hl|].
  intros m Hm Hq. by apply Hm, in_query_interval.
Qed.

(** Leaving out lists that do not meet the interval changes nothing. *)
Lemma filter_skipped q ls :
  qi_from q <= qi_to q → Forall (strictly_by time) ls →
  base.filter (in_query q)
    (concat (base.filter (fun l => list_in_query (qi_from q) (qi_to q) l = true) ls)) =
  base.filter (in_query q) (concat ls).
Proof.
  intros Hft. induction 1 as [|l ls Hl Hls IH]; [done|].
  rewrite filter_cons. cbn [concat]. rewrite filter_app, <- IH. case_decide as Hq.
  - cbn [concat]. by rewrite filter_app.
  - apply not_true_is_false in Hq. by rewrite (filter_nothing q l) by by apply not_in_query.
Qed.

Lemma strict_lists ls lc :
  strictly_by time (concat ls ++ lc) → Forall (strictly_by time) ls ∧ strictly_by time lc.
Proof.
  intros (Hs & Hlc & _)%StronglySorted_append. split; [|done].
  induction ls as [|l ls IH]; constructor; cbn in Hs;
    apply StronglySorted_append in Hs as (? & ? & _); auto.
Qed.

Lemma keyed_snd ls : snd <$> keyed ls = ls.
Proof. unfold keyed. rewrite <- list_fmap_compose. apply list_fmap_id. Qed.

Lemma keyed_wf ls :
  Forall (fun l => l ≠ []) ls → strictly_by time (concat ls) → sm_wf (keyed ls).
Proof.
  unfold sm_wf, strictly_by. induction ls as [|l ls IH]; intros Hne Hs; [constructor|].
  apply Forall_cons_1 in Hne as [Hl Hne]. cbn in Hs.
  apply StronglySorted_append in Hs as (_ & Hs & Hxy). constructor; [by apply IH|].
  apply Forall_fmap, Forall_forall. intros l' Hl'. cbn.
  rewrite Forall_forall in Hne. destruct (tlast_elem l Hl) as (x & Hx & <-).
  destruct (tlast_elem l' (Hne _ Hl')) as (y & Hy & <-). apply Hxy; [done|].
  apply list_elem_of_In, in_concat. exists l'. by rewrite <- !list_elem_of_In.
Qed.

(** The chunks up to the upper bound are those that end in the interval or
    before. *)
Lemma upto_bound to ls :
  sm_wf (keyed ls) →
  take (sm_upper to (keyed ls)) ls = base.filter (fun l => tlast l <= to) ls.
Proof.
  intros Hwf. rewrite <- (take_drop (sm_upper to (keyed ls)) ls) at 3. rewrite filter_app.
  pose proof (sm_upper_take to (keyed ls)) as H1. pose proof (sm_upper_drop to _ Hwf) as H2.
  set (n := sm_upper to (keyed ls)) in *. clearbody n. unfold keyed in *.
  rewrite <- fmap_take, Forall_fmap in H1. rewrite <- fmap_drop, Forall_fmap in H2.
  rewrite filter_id, filter_none, app_nil_r; [done| |done].
  eapply Forall_impl; [exact H2|]. cbn. intros; lia.
Qed.

(** The chunks before the lower bound end before the interval. *)
Lemma below_bound from to n ls :
  (n <= sm_lower from (keyed ls))%nat → Forall (strictly_by time) ls →
  Forall (fun l => Forall (fun m => ¬ inInterval from to (time m) = true) l) (take n ls).
Proof.
  intros Hn Hs. pose proof (sm_lower_take from (keyed ls)) as H1.
  set (k := sm_lower from (keyed ls)) in *. clearbody k. unfold keyed in *.
  rewrite <- fmap_take, Forall_fmap in H1. rewrite Forall_forall in H1, Hs.
  apply Forall_forall. intros l Hl. apply Forall_forall. intros m Hm.
  assert (Hl' : l ∈ take k ls).
  { replace (take n ls) with (take n (take k ls)) in Hl by (rewrite take_take; f_equal; lia).
    eapply elem_of_sublist; [exact Hl|apply sublist_take]. }
  pose proof (H1 _ Hl') as Hk. cbn in Hk.
  assert (Hls : l ∈ ls) by (eapply elem_of_sublist; [exact Hl'|apply sublist_take]).
  pose proof (strict_bounds l m (Hs _ Hls) Hm).
  unfold inInterval. rewrite andb_true_iff, !Z.leb_le. lia.
Qed.

(** The measurements a query of the track selects. *)
Definition query_list (q : QueryInterval) ls (lc : list Meas) : list Meas :=
  base.filter (in_query q) (concat (base.filter (fun l => tlast l <= qi_to q) ls) ++ lc).

Lemma selected q ls lc :
  qi_from q <= qi_to q → Forall (fun l => l ≠ []) ls → strictly_by time (concat ls ++ lc) →
  base.filter (in_query q) (concat (lists_in_query (qi_from q) (qi_to q) ls lc)) =
  query_list q ls lc.
Proof.
  intros Hft Hne Hs. destruct (strict_lists _ _ Hs) as [Hls Hlc].
  pose proof Hs as (Hsc & _ & _)%StronglySorted_append.
  unfold query_list, lists_in_query. rewrite concat_app, !filter_app. f_equal.
  - set (b := sm_lower (qi_from q) (keyed ls)). set (e := sm_upper (qi_to q) (keyed ls)).
    assert (Hbe : (b <= e)%nat) by by apply sm_lower_upper.
    unfold sm_range. rewrite (proj2 (Nat.leb_le _ _)) by lia.
    rewrite fmap_take, fmap_drop, keyed_snd, take_drop_commute.
    replace (pred b + (e - pred b))%nat with e by lia.
    assert (Hst : Forall (strictly_by time) (take e ls)) by by apply Forall_take.
    rewrite filter_skipped by (done || by apply Forall_drop).
    rewrite <- (upto_bound (qi_to q) ls) by by apply keyed_wf. fold e.
    rewrite <- (take_drop (pred b) (take e ls)) at 2. rewrite concat_app, filter_app.
    rewrite (filter_nothing q (concat (take (pred b) (take e ls)))); [done|].
    rewrite take_take. apply Forall_concat, below_bound; [|done]. fold b. lia.
  - destruct lc as [|m lc]; [done|]. destruct (list_in_query _ _ _) eqn:Hq.
    + cbn [concat]. by rewrite app_nil_r.
    + by rewrite (filter_nothing q (m :: lc)) by by apply not_in_query.
Qed.

Lemma index_not_nil tr ls lc : track_inv tr ls lc → Forall (fun l => l ≠ []) ls.
Proof.
  intros [Hix _ _ _ _]. induction Hix as [|e l ix ls [Hst _] _ IH]; constructor; [|done].
  by destruct (stored_facts _ _ Hst) as (_ & _ & _ & _ & _ & ?).
Qed.

Lemma foreach_spec {S} `{IReadCallback S} q (clbk : S) tr ls lc :
  track_inv tr ls lc → Forall (fun m => time m < MAX_TIME) (concat ls ++ lc) →
  Z.of_nat (length (concat ls ++ lc)) < 2 ^ 64 → qi_from q <= qi_to q →
  (∀ s : S, is_canceled s = false) →
  TimeTrack.foreach q clbk tr = Ok (fold_left (fun s m => callback m s) (query_list q ls lc) clbk).
Proof.
  intros Hi Hmax Hlen Hft Hcan. unfold TimeTrack.foreach.
  rewrite <- (selected q ls lc) by (done || apply Hi || by eapply index_not_nil).
  destruct (intervalReader_spec q tr ls lc Hi Hmax Hlen) as [[Es ->]|(c & -> & Hc)].
  - rewrite Es. done.
  - rewrite bind_Ok. pose proof (Rep_count c _ Hc) as Hcount.
    assert (Hrep : rep c (concat (lists_in_query (qi_from q) (qi_to q) ls lc))) by exact Hc.
    destruct (apply_query_rep q (Datatypes.S (Z.to_nat (cursor_count c))) clbk c _ Hrep)
      as (c' & -> & _); [|done|done].
    change (cursor_count c) with (c_count c). lia.
Qed.
End Query.

(** ** Theorems *)



(** With two chunks in the index, a measurement between the last of them and
    the current chunk makes the search for its chunk read past the end of an
    empty array. *)
Theorem track_append_gap_undefined {A} `{IMemoryAllocator A} `{StdSort} raw_header v tr
    (w : world A) ls lc :
  track_inv tr ls lc → lc ≠ [] → (2 <= length ls)%nat →
  Forall (fun m => time m < time v) (concat ls) → time v < tfirst lc →
  TimeTrack.append raw_header v tr w = UB.
Proof.
  intros Hi Hlc Hlen Hbelow Hlt. pose proof Hi as [Hix Hcur Hs _ _].
  pose proof (Forall2_length _ _ _ Hix) as Hl.
  destruct (strict_lists _ _ Hs) as [_ Hslc].
  destruct (tfirst_elem lc Hlc) as (y & Hy & Ey). pose proof (strict_bounds lc y Hslc Hy).
  rewrite (append_past_reduce raw_header v tr w ls lc Hi Hlc) by lia.
  destruct (TimeTrack._cur_chunk tr) as [c|] eqn:Ec; [|done].
  destruct (stored_facts _ _ (filling_stored _ _ Hcur)) as (Hmn & _).
  unfold TimeTrack.append_to_past. rewrite Ec, Hmn.
  rewrite (proj2 (Nat.eqb_neq _ 0)), (proj2 (Z.leb_gt _ _)) by lia. cbn [orb].
  assert (Hix' : Forall (fun e => e.1 < time v) (TimeTrack._index tr)).
  { eapply (index_below tr ls []); [done|]. by rewrite app_nil_r. }
  unfold TimeTrack.get_target_to_replace_from_index.
  rewrite (proj2 (Nat.eqb_neq _ 1)) by lia.
  rewrite <- (app_nil_r (TimeTrack._index tr)).
  rewrite sm_lower_app, sm_upper_app
    by (done || (eapply Forall_impl; [exact Hix'|]; cbn; intros; lia)).
  cbn [sm_lower sm_upper]. rewrite app_nil_r, Nat.add_0_r, Nat.ltb_irrefl.
  unfold sm_range. rewrite Nat.leb_refl, Nat.sub_diag. done.
Qed.

(** C17: an interval query of a track hands to the callback, in the order of the
    times, the measurements of the interval that have the identifier and the
    flag, from the current chunk and from the chunks of the index that end in
    the interval or before it. *)
Theorem track_foreach_exact `{StdSort} q tr ls lc :
  track_inv tr ls lc → Forall (fun m => time m < MAX_TIME) (concat ls ++ lc) →
  Z.of_nat (length (concat ls ++ lc)) < 2 ^ 64 → qi_from q <= qi_to q →
  TimeTrack.foreach q [] tr = Ok (query_list q ls lc) ∧
  (Forall (fun l => tlast l <= qi_to q) ls →
   query_list q ls lc = base.filter (in_query q) (concat ls ++ lc)).
Proof.
  intros Hi Hmax Hlen Hft. split.
  - rewrite (foreach_spec q [] tr ls lc) by done. f_equal.
    assert (Hgen : ∀ l acc : list Meas, fold_left (fun s m => callback m s) l acc = acc ++ l).
    { induction l as [|m l IH]; intros acc; cbn; [by rewrite app_nil_r|].
      by rewrite IH, <- app_assoc. }
    apply Hgen.
  - intros Hall. unfold query_list. by rewrite (filter_id (fun l => tlast l <= qi_to q) ls).
Qed.

(** ** Examples *)

(** A heap that always has room. *)
Definition heap_ok (n : Z) : option Z * option Z := (Some n, Some n).

#[local] Instance heap_allocator : IMemoryAllocator UnlimitMemoryAllocator.t :=
  unlimit_IMemoryAllocator heap_ok.

Definition new_world (size : Z) : world UnlimitMemoryAllocator.t :=
  mkWorld (UnlimitMemoryAllocator.make size) 0.

(** Measurements of series 7 at the times [ts], in chunks of [size] bytes. *)
Definition track_of (size : Z) (ts : list Z)
  : outcome (TimeTrack.t * world UnlimitMemoryAllocator.t) :=
  foldM (fun p t => '(_, tr, w) ← TimeTrack.append ChunkHeader.zero (m_at t 0) p.1 p.2; Ok (tr, w))
    ts (TimeTrack.make 0 7, new_world size).

(** 142 stamps a second apart fill a chunk of 512 bytes; a measurement put
    after the first one changes the size of all that follow, they do not fit the
    new chunk, and the append throws after the old chunk is gone. *)
Example track_append_past_throws :
  let stamps := map (fun k => 1000 * k) (seqZ 0 142) in
  (∃ tr w, track_of 512 stamps = Ok (tr, w) ∧ TimeTrack._index tr = []) ∧
  track_of 512 (stamps ++ [300]) = Throw.
Proof. split; [eexists _, _; split; vm_compute; reflexivity|vm_compute; reflexivity]. Qed.

(** The measurements at 10, 20 and 30 are in a chunk that ends at 60; a query
    from 10 to 30 does not look at that chunk and delivers nothing, a query to 90
    delivers them. *)
Example track_query_misses :
  (r ← track_of 16 [10; 20; 30; 40; 50; 60; 70; 80; 90];
   TimeTrack.foreach (mkQueryInterval [7] 0 10 30 0) [] r.1) = Ok [] ∧
  (r ← track_of 16 [10; 20; 30; 40; 50; 60; 70; 80; 90];
   TimeTrack.foreach (mkQueryInterval [7] 0 10 90 0) [] r.1) =
  Ok (map (fun t => m_at t 0) [10; 20; 30; 40; 50; 60; 70; 80; 90]).
Proof. split; vm_compute; reflexivity. Qed.

Lemma m_at_wf t v : is_time t → is_value v → meas_wf (m_at t v).
Proof. intros. unfold meas_wf, m_at, is_id, is_flag. cbn. split_and!; try done; lia. Qed.

(** A track with one measurement. *)
Lemma track_one t size :
  is_time t → 0 < size < 2 ^ 32 →
  ∃ tr w c, TimeTrack._cur_chunk tr = Some c ∧ ChunkHeader.size (mc_header c) = size ∧
    w_alloc w = UnlimitMemoryAllocator.Mk 1 size ∧ TimeTrack._meas_id tr = 7 ∧
    track_inv tr [] [m_at t 0].
Proof.
  intros Ht Hs. destruct (new_chunk_inv ChunkHeader.zero (m_at t 0) (TimeTrack.make 0 7)
    (TimeTrack.make 0 7) (new_world size) [] []) as (ok & tr & w & E & Hok); try done.
  - apply track_make_inv.
  - unfold TimeTrack.create_new_chunk in E. cbn -[Chunk.create] in E.
    destruct (chunk_create ChunkHeader.zero (Z.to_nat size) (m_at t 0))
      as (c & Ec & Hc); [lia|lia|by apply m_at_wf|].
    rewrite Ec in E. cbn in E. injection E as <- Etr Ew.
    exists (TimeTrack.updateMinMax (m_at t 0) tr), w. subst tr w.
    eexists. split; [done|]. split_and!; try done.
    destruct Hc as (_ & _ & _ & _ & _ & _ & Hsz & _). unfold mc_header. cbn. rewrite Hsz. lia.
Qed.



Lemma track_foreach_exact_witness :
  ∃ tr, track_inv tr [] [m_at 10 0] ∧
    TimeTrack.foreach (mkQueryInterval [7] 1 5 20 0) [] tr = Ok [m_at 10 0].
Proof.
  destruct (track_one 10 64) as (tr & w & c & _ & _ & _ & _ & Hi); [by split|by split|].
  destruct (track_foreach_exact (mkQueryInterval [7] 1 5 20 0) tr [] [m_at 10 0] Hi) as [E _].
  - repeat constructor.
  - by cbn.
  - by cbn.
  - exists tr. split; [exact Hi|]. rewrite E. reflexivity.
Defined.

(** The next measurement in a chunk of its own. *)
Lemma track_next t tr (w : world UnlimitMemoryAllocator.t) ls lc :
  track_inv tr ls lc → TimeTrack._meas_id tr = 7 → is_time t →
  Forall (fun m => time m < t) (concat ls ++ lc) →
  0 < UnlimitMemoryAllocator._chunkSize (w_alloc w) < 2 ^ 32 →
  ∃ tr' (w' : world UnlimitMemoryAllocator.t),
    track_inv tr' (closed ls lc) [m_at t 0] ∧ TimeTrack._meas_id tr' = 7 ∧
    UnlimitMemoryAllocator._chunkSize (w_alloc w') = UnlimitMemoryAllocator._chunkSize (w_alloc w).
Proof.
  intros Hi Eid Ht Hlt Hsz.
  destruct (new_chunk_inv ChunkHeader.zero (m_at t 0) tr tr w ls lc) as (ok & tr' & w' & E & Hok);
    try done.
  - pose proof (ti_cur _ _ _ Hi) as Hc. destruct (TimeTrack._cur_chunk tr); [|done].
    by apply filling_stored.
  - destruct ok; [|by destruct Hok as [Hr _]]. exists (TimeTrack.updateMinMax (m_at t 0) tr'), w.
    split_and!; [done| |done]. destruct Hok as [_ _ _ Hid _].
    apply Forall_app in Hid as [_ [<- _]%Forall_cons_1]. done.
Qed.

Lemma track_append_gap_undefined_witness :
  ∃ tr (w : world UnlimitMemoryAllocator.t),
    track_inv tr [[m_at 10 0]; [m_at 20 0]] [m_at 30 0] ∧
    TimeTrack.append ChunkHeader.zero (m_at 25 0) tr w = UB.
Proof.
  destruct (track_one 10 64) as (tr1 & w1 & c & _ & _ & Ew & Eid1 & Hi1); [by split|by split|].
  assert (Hs1 : 0 < UnlimitMemoryAllocator._chunkSize (w_alloc w1) < 2 ^ 32) by by rewrite Ew.
  destruct (track_next 20 tr1 w1 [] [m_at 10 0] Hi1 Eid1) as (tr2 & w2 & Hi2 & Eid2 & Es2);
    [by split|by repeat constructor|exact Hs1|].
  rewrite <- Es2 in Hs1.
  destruct (track_next 30 tr2 w2 _ _ Hi2 Eid2) as (tr3 & w3 & Hi3 & _ & _);
    [by split|by repeat constructor|exact Hs1|].
  exists tr3, w3. split; [exact Hi3|].
  apply (track_append_gap_undefined ChunkHeader.zero (m_at 25 0) tr3 w3
           [[m_at 10 0]; [m_at 20 0]] [m_at 30 0] Hi3); [discriminate|by cbn| |by cbn].
  by repeat constructor.
Defined.
