(* ===== verification/Storages.v ===== *)
(** * Interfaces of the storages

    What the storages are used through: [interfaces/imeaswriter.h], [.cpp]
    ([IMeasWriter]), [interfaces/imeassource.h], [.cpp] ([IMeasSource]),
    [storage/chunkcontainer.h] ([IChunkStorage]), the part of
    [interfaces/iengine.cpp] that reads through them ([Module IEngine]),
    [storage/callbacks.cpp] and [storage/subscribe.cpp] ([Module Subscribe]).
    The theorems of clients are proved against these classes. *)

From Stdlib Require Import ZArith Lia.
From stdpp Require Import base numbers list gmap.
From S2P Require Import Prelude Float64 Meas StdSort ICursor Chunk.

Local Open Scope Z_scope.

(** ** [std::unordered_map] *)

(** The order of iteration is unspecified. *)
Class UnorderedMap := {
  um_list : ∀ {K V : Type} `{Countable K}, gmap K V → list (K * V);
  um_perm : ∀ {K V : Type} `{Countable K} (m : gmap K V), um_list m ≡ₚ map_to_list m;
}.

#[export] Instance map_to_list_order : UnorderedMap | 100 := {
  um_list K V _ _ m := map_to_list m;
  um_perm K V _ _ m := Permutation_refl _;
}.

(** [m[k]], which makes a default entry for a new key. *)
Definition um_at {V} (d : V) (k : Z) (m : gmap Z V) : V := default d (m !! k).

(** ** Writers *)

Class IMeasWriter (W : Type) := {
  mw_append : Meas → W → outcome (Status * W);
}.

Section Writer.
Context {W : Type} `{IMeasWriter W}.

(** [append(i, t, f, v)] and [append(i, t, v)] *)
Definition append_fields (i t f v : Z) (w : W) : outcome (Status * W) :=
  mw_append (mkMeas i t v f) w.
Definition append_value (i t v : Z) (w : W) : outcome (Status * W) := append_fields i t 0 v w.

(** [append(begin, end)] *)
Definition append_range (ms : list Meas) (w : W) : outcome (Status * W) :=
  foldM (fun (p : Status * W) m =>
    '(st, w) ← mw_append m p.2; Ok (Status_plus p.1 st, w)) ms (Status_empty, w).
End Writer.

(** Where chunks that leave memory go. *)
Class IChunkStorage (D : Type) := {
  cs_appendChunks : list Chunk.t → D → outcome D;
}.

(** ** Sources *)

Class IMeasSource (S C : Type) := {
  ms_minMaxTime : Z → S → outcome (option (Z * Z) * S);
  ms_intervalReader : QueryInterval → S → outcome (gmap Z C * S);
  ms_readTimePoint : QueryTimePoint → S → outcome (gmap Z Meas * S);
  ms_currentValue : list Z → Z → S → outcome (gmap Z Meas * S);
}.

Section Source.
Context {S C : Type} `{ICursor C} `{!IMeasSource S C} `{UnorderedMap}.

(** [foreach(QueryTimePoint, clbk)] *)
Definition foreach_time_point {K} `{IReadCallback K} (q : QueryTimePoint) (clbk : K) (s : S)
  : outcome (K * S) :=
  '(values, s) ← ms_readTimePoint q s;
  Ok (fold_left (fun clbk kv => callback kv.2 clbk) (um_list values) clbk, s).

(** The cursors are shared with the map: reading one leaves it at its end for
    the next time its identifier is asked for. *)
Definition read_one (q : QueryInterval) (p : gmap Z C * list Meas) (i : Z)
  : outcome (gmap Z C * list Meas) :=
  let '(r, result) := p in
  match r !! i with
  | None => Ok (r, result)
  | Some c =>
    '(result, c) ← apply_query q (Datatypes.S (Z.to_nat (cursor_count c))) result c;
    Ok (<[i := c]> r, result)
  end.

Definition readInterval (q : QueryInterval) (s : S) : outcome (list Meas * S) :=
  '(r, s) ← ms_intervalReader q s;
  p ← foldM (read_one q) (qi_ids q) (r, []);
  Ok (p.2, s).

(** The readers of a query, one after another. *)
Definition foreach_cursors {K} `{IReadCallback K} (q : QueryInterval) (clbk : K) (readers : gmap Z C)
  : outcome K :=
  foldM (fun clbk kv =>
    '(clbk, _) ← apply_query q (Datatypes.S (Z.to_nat (cursor_count kv.2))) clbk kv.2;
    Ok clbk) (um_list readers) clbk.

(** [ChunkContainer::foreach] and the [foreach] of the storages. *)
Definition foreach_readers {K} `{IReadCallback K} (q : QueryInterval) (clbk : K) (s : S)
  : outcome (K * S) :=
  '(readers, s) ← ms_intervalReader q s;
  clbk ← foreach_cursors q clbk readers;
  Ok (clbk, s).
End Source.

(** ** The engine *)

Module IEngine.

(** [foreach_async_data] *)
Record foreach_async_data (K : Type) := mkData { next_id_pos : nat; q : QueryInterval; clbk : K }.
Arguments mkData {K} _ _ _.
Arguments next_id_pos {K} _.
Arguments q {K} _.
Arguments clbk {K} _.

Section Foreach.
Context {S C K : Type} `{ICursor C} `{!IMeasSource S C} `{IReadCallback K}.
(** [IReadCallback::is_end] *)
Variable clbk_is_end : K → K.

(** The query for one identifier. *)
Definition local_query (qq : QueryInterval) (i : Z) : QueryInterval :=
  mkQueryInterval [i] (qi_flag qq) (qi_from qq) (qi_to qq) (qi_step qq).

(** One run of the task; [true]: it is to be run again. *)
Definition task (d : foreach_async_data K) (s : S) : outcome (bool * foreach_async_data K * S) :=
  let finish d s := Ok (false, mkData (next_id_pos d) (q d) (clbk_is_end (clbk d)), s) in
  match qi_ids (q d) !! next_id_pos d with
  | None => finish d s
  | Some i =>
    if is_canceled (clbk d) then finish d s
    else
      let local_q := local_query (q d) i in
      '(r, s) ← ms_intervalReader local_q s;
      k ← match r !! i with
          | None => Ok (clbk d)
          | Some c =>
            '(k, _) ← apply_query local_q (Datatypes.S (Z.to_nat (cursor_count c))) (clbk d) c;
            Ok k
          end;
      let d := mkData (Datatypes.S (next_id_pos d)) (q d) k in
      if (next_id_pos d <? length (qi_ids (q d)))%nat then Ok (true, d, s) else finish d s
  end.

(** A worker of the pool runs the task until it answers [false]; [fuel] bounds
    the number of runs. *)
Fixpoint run (fuel : nat) (d : foreach_async_data K) (s : S) : outcome (K * S) :=
  match fuel with
  | O => Diverge
  | Datatypes.S fuel =>
    '(again, d, s) ← task d s;
    if again : bool then run fuel d s else Ok (clbk d, s)
  end.

Definition foreach (fuel : nat) (qq : QueryInterval) (k : K) (s : S) : outcome (K * S) :=
  run fuel (mkData 0 qq k) s.

(** [foreach(QueryTimePoint, clbk)], which looks at the cancellation. *)
Definition time_point_step (k : K) (kv : Z * Meas) : K :=
  if is_canceled k then k else callback kv.2 k.

Definition foreach_point `{UnorderedMap} (qq : QueryTimePoint) (k : K) (s : S)
  : outcome (K * S) :=
  '(values, s) ← ms_readTimePoint qq s;
  Ok (clbk_is_end (fold_left time_point_step (um_list values) k), s).
End Foreach.

(** [repack(scheme)]: one [repack] per value of the scheme. *)
Definition repack_all {S} (repack : Z → S → outcome S) (ls : option (list Z)) (s : S) : outcome S :=
  match ls with
  | None => Ok s
  | Some ids => foldM (fun s i => repack i s) ids s
  end.

End IEngine.

(** ** Callbacks and subscriptions *)

Module Subscribe.

Record SubscribeInfo := mkSubscribeInfo { ids : list Z; sub_flag : Z; sub_clbk : nat }.

Definition isYours (si : SubscribeInfo) (m : Meas) : bool :=
  ((length (ids si) =? 0)%nat || existsb (Z.eqb (id m)) (ids si)) &&
  ((sub_flag si =? 0) || (sub_flag si =? flag m)).

Record t := mk { _subscribes : list SubscribeInfo; is_stoped : bool }.

Definition start (n : t) : t := mk (_subscribes n) false.
Definition stop (n : t) : t := mk (_subscribes n) true.
Definition add (si : SubscribeInfo) (n : t) : t := mk (_subscribes n ++ [si]) (is_stoped n).

(** The callbacks are shared objects; [heap] holds them by address. *)
Definition notify {K} `{IReadCallback K} (m : Meas) (heap : list K) (si : SubscribeInfo)
  : outcome (list K) :=
  if isYours si m then
    match heap !! sub_clbk si with
    | None => UB
    | Some k => Ok (<[sub_clbk si := callback m k]> heap)
    end
  else Ok heap.

Definition on_append {K} `{IReadCallback K} (m : Meas) (n : t) (heap : list K)
  : outcome (list K) := foldM (notify m) (_subscribes n) heap.

End Subscribe.

(** [FunctorCallback]: a function that answers whether to cancel. *)
Record FunctorCallback (S : Type) := mkFunctorCallback {
  functor : Meas → S → bool * S;
  fc_state : S;
  fc_is_cancel : bool;
}.
Arguments mkFunctorCallback {S} _ _ _.
Arguments functor {S} _.
Arguments fc_state {S} _.
Arguments fc_is_cancel {S} _.

#[export] Instance FunctorCallback_IReadCallback {S} : IReadCallback (FunctorCallback S) := {
  is_canceled k := fc_is_cancel k;
  callback m k :=
    let '(cancel, s) := functor k m (fc_state k) in mkFunctorCallback (functor k) s cancel;
}.

(** ** What a source promises *)

(** The measurements of [l] given to a callback until it is canceled. *)
Definition feed {K} `{IReadCallback K} (k : K) (l : list Meas) : K :=
  fold_left (fun k m => if is_canceled k then k else callback m k) l k.

(** [answer q i]: what the query [q] gives for the series [i]. *)
Definition source_answers {S C} `{CursorSpec C} `{!IMeasSource S C} (s : S)
    (answer : QueryInterval → Z → list Meas) : Prop :=
  ∀ q, qi_from q <= qi_to q →
    ∃ r : gmap Z C, ms_intervalReader q s = Ok (r, s) ∧
    ∀ i, i ∈ qi_ids q →
      match r !! i with
      | None => answer q i = []
      | Some c => ∃ l, rep c l ∧ base.filter (in_query q) l = answer q i
      end.

Lemma feed_app {K} `{IReadCallback K} (k : K) l1 l2 : feed k (l1 ++ l2) = feed (feed k l1) l2.
Proof. apply fold_left_app. Qed.

Lemma feed_canceled {K} `{IReadCallback K} (k : K) l : is_canceled k = true → feed k l = k.
Proof. unfold feed. induction l as [|m l IH]; intros Hk; cbn; [done|]. rewrite Hk. by apply IH. Qed.

Lemma feed_collect (l1 l2 : list Meas) : feed l1 l2 = l1 ++ l2.
Proof.
  unfold feed. revert l1. induction l2 as [|m l2 IH]; intros l1; cbn; [by rewrite app_nil_r|].
  by rewrite IH, <- app_assoc.
Qed.

Lemma apply_query_feed {C K} `{CursorSpec C} `{IReadCallback K} q fuel (k : K) (c : C) l :
  rep c l → (length l < fuel)%nat →
  ∃ c', apply_query q fuel k c = Ok (feed k (base.filter (in_query q) l), c').
Proof.
  revert k c l. induction fuel as [|fuel IH]; intros k c l Hc Hf; [lia|].
  cbn [apply_query]. rewrite (rep_end c l Hc). destruct l as [|m l]; [by eexists|].
  destruct (is_canceled k) eqn:Ek.
  { eexists. by rewrite feed_canceled. }
  destruct (rep_next c m l Hc) as (c' & -> & Hc'). rewrite bind_Ok. cbn in Hf.
  destruct (IH (if inQueryInterval (qi_ids q) (qi_flag q) (qi_from q) (qi_to q) m
                then callback m k else k) c' l Hc' ltac:(lia)) as [c2 E].
  exists c2. rewrite E. do 2 f_equal. rewrite filter_cons.
  destruct (decide (in_query q m)) as [Hm|Hm]; unfold in_query in Hm.
  - rewrite Hm. unfold feed at 2. cbn. by rewrite Ek.
  - by rewrite (not_true_is_false _ Hm).
Qed.

Section Clients.
Context {S C K : Type} `{CursorSpec C} `{!IMeasSource S C} `{IReadCallback K}.

Lemma apply_query_all q (k : K) (c : C) l :
  rep c l →
  ∃ c', apply_query q (Datatypes.S (Z.to_nat (cursor_count c))) k c =
        Ok (feed k (base.filter (in_query q) l), c').
Proof. intros Hc. apply apply_query_feed; [done|]. pose proof (rep_count c l Hc). lia. Qed.

(** One run of the task of [foreach]. *)
Lemma task_runs is_end (d : IEngine.foreach_async_data K) (s : S) answer i :
  source_answers s answer → qi_from (IEngine.q d) <= qi_to (IEngine.q d) →
  qi_ids (IEngine.q d) !! IEngine.next_id_pos d = Some i → is_canceled (IEngine.clbk d) = false →
  let k := feed (IEngine.clbk d) (answer (IEngine.local_query (IEngine.q d) i) i) in
  let pos := Datatypes.S (IEngine.next_id_pos d) in
  IEngine.task is_end d s =
  if (pos <? length (qi_ids (IEngine.q d)))%nat
  then Ok (true, IEngine.mkData pos (IEngine.q d) k, s)
  else Ok (false, IEngine.mkData pos (IEngine.q d) (is_end k), s).
Proof.
  intros Hs Hft Hi Hk k pos. unfold IEngine.task. rewrite Hi, Hk.
  destruct (Hs (IEngine.local_query (IEngine.q d) i) Hft) as (r & -> & Hr). rewrite bind_Ok.
  specialize (Hr i ltac:(apply list_elem_of_singleton; done)).
  destruct (r !! i) as [c|].
  - destruct Hr as (l & Hc & El).
    destruct (apply_query_all (IEngine.local_query (IEngine.q d) i) (IEngine.clbk d) c l Hc)
      as [c' ->]. rewrite bind_Ok, El. done.
  - subst k. rewrite Hr. done.
Qed.

(** The remaining runs. *)
Lemma run_from is_end fuel (q : QueryInterval) pos (k : K) (s : S) answer :
  source_answers s answer → qi_from q <= qi_to q →
  (1 `max` (length (qi_ids q) - pos) <= fuel)%nat →
  IEngine.run is_end fuel (IEngine.mkData pos q k) s =
  Ok (is_end (feed k (concat ((fun i => answer (IEngine.local_query q i) i) <$>
                              drop pos (qi_ids q)))), s).
Proof.
  intros Hs Hft. revert pos k. induction fuel as [|fuel IH]; intros pos k Hf; [lia|].
  cbn [IEngine.run]. destruct (qi_ids q !! pos) as [i|] eqn:Hi.
  - rewrite (drop_S _ _ _ Hi). cbn [fmap list_fmap concat]. rewrite feed_app.
    destruct (is_canceled k) eqn:Hk.
    { unfold IEngine.task. cbn. rewrite Hi, Hk. cbn. by rewrite 2!(feed_canceled k _ Hk). }
    rewrite (task_runs is_end (IEngine.mkData pos q k) s answer i Hs Hft Hi Hk).
    cbn [IEngine.q IEngine.next_id_pos IEngine.clbk].
    apply lookup_lt_Some in Hi. destruct (Nat.ltb_spec (Datatypes.S pos) (length (qi_ids q))).
    + rewrite bind_Ok. apply IH. lia.
    + rewrite bind_Ok. cbn. by rewrite drop_ge by lia.
  - unfold IEngine.task. cbn. rewrite Hi. cbn. apply lookup_ge_None in Hi. by rewrite drop_ge.
Qed.
End Clients.

(** C26: [IEngine::foreach] stops after at most one run of its task per identifier
    (one when there are none): until the callback cancels it has been given, in
    the order of the identifiers, what the storage answers for each of them, and
    [is_end] is called once, after everything else. *)
Theorem engine_foreach_terminates {S C K} `{CursorSpec C} `{!IMeasSource S C} `{IReadCallback K}
    is_end fuel q (k : K) (s : S) answer :
  source_answers s answer → qi_from q <= qi_to q → (1 `max` length (qi_ids q) <= fuel)%nat →
  IEngine.foreach is_end fuel q k s =
  Ok (is_end (feed k (concat ((fun i => answer (IEngine.local_query q i) i) <$> qi_ids q))), s).
Proof.
  intros Hs Hft Hf. unfold IEngine.foreach. rewrite (run_from is_end fuel q 0 k s answer) by (done || lia).
  done.
Qed.

Section ReadInterval.
Context {S C : Type} `{CursorSpec C} `{!IMeasSource S C}.

Lemma read_one_fold q (r : gmap Z C) acc answer is_ :
  NoDup is_ →
  (∀ i, i ∈ is_ →
    match r !! i with
    | None => answer i = []
    | Some c => ∃ l, rep c l ∧ base.filter (in_query q) l = answer i
    end) →
  ∃ r', foldM (read_one q) is_ (r, acc) = Ok (r', acc ++ concat (answer <$> is_)).
Proof.
  revert r acc. induction is_ as [|i is_ IH]; intros r acc Hnd Hr.
  { exists r. by rewrite app_nil_r. }
  apply NoDup_cons in Hnd as [Hi Hnd].
  pose proof (Hr i ltac:(left)) as Hri. cbn [foldM fmap list_fmap concat].
  assert (Hrest : ∀ r2 : gmap Z C, (∀ j, j ≠ i → r2 !! j = r !! j) → ∀ j, j ∈ is_ →
    match r2 !! j with
    | None => answer j = []
    | Some c => ∃ l, rep c l ∧ base.filter (in_query q) l = answer j
    end).
  { intros r2 H2 j Hj. rewrite H2 by (intros ->; done). apply Hr. by right. }
  unfold read_one at 2. destruct (r !! i) as [c|].
  - destruct Hri as (l & Hc & El). destruct (apply_query_all q acc c l Hc) as [c' ->].
    rewrite !bind_Ok, El, feed_collect.
    destruct (IH (<[i := c']> r) (acc ++ answer i) Hnd) as [r' E].
    { apply Hrest. intros j Hj. by apply lookup_insert_ne. }
    exists r'. by rewrite E, (assoc_L app).
  - rewrite bind_Ok, Hri. apply IH; [done|]. by apply Hrest.
Qed.

Lemma readInterval_answers q (s : S) answer :
  source_answers s answer → qi_from q <= qi_to q → NoDup (qi_ids q) →
  readInterval q s = Ok (concat (answer q <$> qi_ids q), s).
Proof.
  intros Hs Hft Hnd. unfold readInterval. destruct (Hs q Hft) as (r & -> & Hr). rewrite bind_Ok.
  by destruct (read_one_fold q r [] (answer q) _ Hnd Hr) as [r' ->].
Qed.
End ReadInterval.

(** ** Subscriptions *)

(** Every subscription whose identifiers and flag match gets the measurement
    exactly once, a callback with several matching subscriptions once for each,
    and the other callbacks get nothing. *)
Theorem on_append_delivers {K} `{IReadCallback K} m n (heap : list K) :
  Forall (fun si => Subscribe.sub_clbk si < length heap)%nat (Subscribe._subscribes n) →
  ∃ heap', Subscribe.on_append m n heap = Ok heap' ∧ length heap' = length heap ∧
    ∀ p k, heap !! p = Some k →
      heap' !! p = Some (Nat.iter (length (base.filter (fun si =>
        Subscribe.isYours si m = true ∧ Subscribe.sub_clbk si = p) (Subscribe._subscribes n)))
        (callback m) k).
Proof.
  unfold Subscribe.on_append. generalize (Subscribe._subscribes n) as l. intros l. revert heap.
  induction l as [|si l IH]; intros heap Hl; [by exists heap|].
  apply Forall_cons in Hl as [Hsi Hl]. cbn [foldM]. unfold Subscribe.notify at 2.
  destruct (Subscribe.isYours si m) eqn:Ey.
  - destruct (lookup_lt_is_Some_2 heap _ Hsi) as [k0 Hk0]. rewrite Hk0, bind_Ok.
    destruct (IH (<[Subscribe.sub_clbk si := callback m k0]> heap)) as (h & -> & Hlen & Hh).
    { by rewrite length_insert. }
    rewrite length_insert in Hlen. exists h. split_and!; [done..|]. intros p k Hp.
    rewrite filter_cons. destruct (decide (p = Subscribe.sub_clbk si)) as [->|Hne].
    + rewrite decide_True by done. cbn [length]. rewrite Nat.iter_succ_r. apply Hh.
      rewrite Hk0 in Hp. injection Hp as ->. by apply list_lookup_insert_eq.
    + rewrite decide_False by (intros [_ <-]; done). apply Hh.
      by rewrite list_lookup_insert_ne.
  - rewrite bind_Ok. destruct (IH heap Hl) as (h & -> & Hlen & Hh). exists h.
    split_and!; [done..|]. intros p k Hp. rewrite filter_cons, decide_False by (intros [? _]; congruence).
    by apply Hh.
Qed.

Lemma on_append_delivers_witness :
  let n := Subscribe.mk [Subscribe.mkSubscribeInfo [] 0 0; Subscribe.mkSubscribeInfo [7] 0 1;
                         Subscribe.mkSubscribeInfo [8] 0 1; Subscribe.mkSubscribeInfo [7] 2 0] false in
  let m := mkMeas 7 1 0 2 in
  ∃ heap', Subscribe.on_append m n [[]; []] = Ok heap' ∧ length heap' = 2%nat ∧
    heap' !! 0%nat = Some [m; m] ∧ heap' !! 1%nat = Some [m].
Proof.
  intros n m. destruct (on_append_delivers m n [[]; []]) as (h & E & Hl & Hh).
  - repeat constructor.
  - exists h. exact (conj E (conj Hl (conj (Hh 0%nat [] eq_refl) (Hh 1%nat [] eq_refl)))).
Defined.
