(* ===== verification/MemStorage.v ===== *)
(** * Memory storage

    [storage/memstorage/memstorage.cpp]: a striped map from identifiers to time
    tracks, the allocator the tracks share, the thread that drops full chunks to
    the storage below, and the queries, which go to the tracks.  The tracks are
    objects with shared pointers: [_id2track] holds their addresses, [_tracks]
    the objects.  The storage that takes dropped chunks ([IChunkStorage]) and
    the one that copies measurements ([IMeasWriter]) are interfaces. *)

From Stdlib Require Import ZArith Lia Floats.SpecFloat.
From stdpp Require Import base numbers list gmap.
From S2P Require Import Prelude Float64 Meas Stat StdSort ICursor FullCursor Chunk Cursors Colapse.
From S2P Require Import StripedMap Allocators StdMap TimeTrack Storages.

Local Open Scope Z_scope.

(** What the storage asks an allocator besides allocating: the capacity when it
    is a [RegionChunkAllocator] (a [dynamic_cast]), and the count of chunks. *)
Class MemAllocator (A : Type) := {
  ma_allocator :: IMemoryAllocator A;
  ma_capacity : A → option Z;
  ma_allocated : A → Z;
}.

Module MemStorage.

(** The settings that are read. *)
Record Settings := mkSettings {
  is_memory_only_mode : bool;
  percent_when_start_droping : spec_float;
  percent_to_drop : spec_float;
}.

Record t (A D W : Type) := Mk {
  _settings : Settings;
  _world : world A;
  _id2track : StrippedMap.stripped_map (option nat);
  _tracks : list TimeTrack.t;
  _stoped : bool;
  _drop_stop : bool;
  _drop_is_stoped : bool;
  _down_level_storage : option D;
  _disk_storage : option W;
}.
Arguments Mk {A D W} _ _ _ _ _ _ _ _ _.
Arguments _settings {A D W} _.
Arguments _world {A D W} _.
Arguments _id2track {A D W} _.
Arguments _tracks {A D W} _.
Arguments _stoped {A D W} _.
Arguments _drop_stop {A D W} _.
Arguments _drop_is_stoped {A D W} _.
Arguments _down_level_storage {A D W} _.
Arguments _disk_storage {A D W} _.

Section Storage.
Context {A D W : Type} `{MemAllocator A} `{IChunkStorage D} `{IMeasWriter W}.
Context `{StdSort} `{UnorderedMap}.
Variable raw_header : ChunkHeader.t.

Implicit Types s : t A D W.

Definition set_world (w : world A) s : t A D W :=
  Mk (_settings s) w (_id2track s) (_tracks s) (_stoped s) (_drop_stop s) (_drop_is_stoped s)
     (_down_level_storage s) (_disk_storage s).
Definition set_map (m : StrippedMap.stripped_map (option nat)) s : t A D W :=
  Mk (_settings s) (_world s) m (_tracks s) (_stoped s) (_drop_stop s) (_drop_is_stoped s)
     (_down_level_storage s) (_disk_storage s).
Definition set_tracks (ts : list TimeTrack.t) s : t A D W :=
  Mk (_settings s) (_world s) (_id2track s) ts (_stoped s) (_drop_stop s) (_drop_is_stoped s)
     (_down_level_storage s) (_disk_storage s).
Definition set_stop (stoped stop is_stoped : bool) s : t A D W :=
  Mk (_settings s) (_world s) (_id2track s) (_tracks s) stoped stop is_stoped
     (_down_level_storage s) (_disk_storage s).
Definition setDownLevel (down : option D) s : t A D W :=
  Mk (_settings s) (_world s) (_id2track s) (_tracks s) (_stoped s) (_drop_stop s)
     (_drop_is_stoped s) down (_disk_storage s).
Definition setDiskStorage (disk : option W) s : t A D W :=
  Mk (_settings s) (_world s) (_id2track s) (_tracks s) (_stoped s) (_drop_stop s)
     (_drop_is_stoped s) (_down_level_storage s) disk.

(** The constructor, with the allocator [allocator_init] has chosen. *)
Definition make (st : Settings) (a : A) (id_count : Z) : outcome (t A D W) :=
  let m := StrippedMap.make 1000 in
  m ← (if negb (id_count =? 0) then StrippedMap.reserve m id_count else Ok m);
  Ok (Mk st (mkWorld a 0) m [] false false false None None).

Definition deref (p : option nat) s : outcome TimeTrack.t :=
  match p with
  | None => UB
  | Some p => match _tracks s !! p with Some tr => Ok tr | None => UB end
  end.

(** ** Dropping *)

Definition destroy_all (cs : list MemChunk) (w : world A) : outcome (world A) :=
  foldM (fun w c => destroy c w) cs w.

(** The chunks of one identifier: written below, uncounted, destroyed. *)
Definition drop_series (p : D * world A) (kv : Z * list MemChunk) : outcome (D * world A) :=
  d ← cs_appendChunks (mc_chunk <$> kv.2) p.1;
  let w := fold_left (fun w _ => freeChunk w) kv.2 p.2 in
  w ← destroy_all kv.2 w;
  Ok (d, w).

Definition group_by_id (all_chunks : list MemChunk) : gmap Z (list MemChunk) :=
  fold_left (fun (c2i : gmap Z (list MemChunk)) mc =>
    <[ChunkHeader.meas_id (mc_header mc) := um_at [] (ChunkHeader.meas_id (mc_header mc)) c2i ++ [mc]]>
    c2i) all_chunks ∅.

Definition drop_logic (all_chunks : list MemChunk) (d : D) (w : world A) : outcome (D * world A) :=
  foldM drop_series (um_list (group_by_id all_chunks)) (d, w).

(** The share of one track; at least one chunk. *)
Definition chunks_to_drop (cnt cur_chunk_count chunks_to_delete : Z) : outcome Z :=
  q ← to_size_t (SFdiv 53 1024 (SFmul 53 1024 (f64_of_Z 100) (f64_of_Z cnt))
                   (f64_of_Z cur_chunk_count));
  let percent_from_all := u64 (q + 1) in
  let to_drop := u64 (chunks_to_delete * percent_from_all) / 100 in
  Ok (if to_drop =? 0 then 1 else to_drop).

(** One turn of the loop over the tracks. *)
Definition drop_track (cur_chunk_count chunks_to_delete : Z) (r : list MemChunk * t A D W)
    (p : option nat) : outcome (list MemChunk * t A D W) :=
  let '(all_chunks, s) := r in
  tr ← deref p s;
  let cnt := Z.of_nat (length (TimeTrack._index tr)) in
  if cnt =? 0 then Ok (all_chunks, s)
  else
    to_drop ← chunks_to_drop cnt cur_chunk_count chunks_to_delete;
    let '(dropped, tr) := TimeTrack.drop_N to_drop tr in
    Ok (all_chunks ++ dropped, set_tracks (<[default 0%nat p := tr]> (_tracks s)) s).

Definition drop_by_limit (chunk_percent_to_free : spec_float) s : outcome (t A D W) :=
  let cur_chunk_count := w_chunks (_world s) in
  chunks_to_delete ← to_size_t (SFmul 24 128 (f32_of_Z cur_chunk_count) chunk_percent_to_free);
  '(m, tracks) ← StrippedMap.apply (fun tracks v => Ok (tracks ++ [v.2])) (_id2track s) [];
  '(all_chunks, s) ← foldM (drop_track cur_chunk_count chunks_to_delete) tracks ([], set_map m s);
  match all_chunks with
  | [] => Ok s
  | _ =>
    match _down_level_storage s with
    | Some d =>
      '(d, w) ← drop_logic all_chunks d (_world s);
      Ok (setDownLevel (Some d) (set_world w s))
    | None => w ← destroy_all all_chunks (_world s); Ok (set_world w s)
    end
  end.

Definition is_time_to_drop s : bool :=
  match ma_capacity (w_alloc (_world s)) with
  | None => false
  | Some capacity =>
    SFleb (SFmul 24 128 (f32_of_Z capacity) (percent_when_start_droping (_settings s)))
          (f32_of_Z (w_chunks (_world s)))
  end.

(** One wake-up of [drop_thread_func]. *)
Definition drop_thread_wake s : outcome (t A D W) :=
  if _drop_stop s then Ok (set_stop (_stoped s) (_drop_stop s) true s)
  else if negb (is_time_to_drop s) then Ok s
  else drop_by_limit (percent_to_drop (_settings s)) s.

(** ** Appending *)

(** The track of an identifier, created when there is none. *)
Definition track_for (i : Z) s : outcome (nat * t A D W) :=
  '(m, it) ← StrippedMap.find_bucket None (_id2track s) i;
  v ← StrippedMap.it_get m it;
  match v with
  | None =>
    let p := length (_tracks s) in
    m ← StrippedMap.it_set m it (Some p);
    m ← StrippedMap.it_release m it;
    Ok (p, set_tracks (_tracks s ++ [TimeTrack.make 0 i]) (set_map m s))
  | Some p =>
    m ← StrippedMap.it_release m it;
    Ok (p, set_map m s)
  end.

Definition append_track (p : nat) (value : Meas) s : outcome (Status * t A D W) :=
  tr ← deref (Some p) s;
  '(st, tr, w) ← TimeTrack.append raw_header value tr (_world s);
  Ok (st, set_world w (set_tracks (<[p := tr]> (_tracks s)) s)).

(** The loop; the dropping thread, notified, takes its turn before the track is
    tried again.  [inl]: the loop was left by [return]. *)
Fixpoint append_loop (fuel : nat) (p : nat) (value : Meas) s
  : outcome ((Status * t A D W) + t A D W) :=
  match fuel with
  | O => Diverge
  | S fuel =>
    '(st, s) ← append_track p value s;
    if Status_ne st (Status_writed 1) && negb (_drop_stop s) then
      if is_memory_only_mode (_settings s) then Ok (inl (st, s))
      else s ← drop_thread_wake s; append_loop fuel p value s
    else Ok (inr s)
  end.

Definition append (fuel : nat) (value : Meas) s : outcome (Status * t A D W) :=
  '(p, s) ← track_for (id value) s;
  r ← append_loop fuel p value s;
  match r with
  | inl r => Ok r
  | inr s =>
    match _disk_storage s with
    | None => Ok (Status_writed 1, s)
    | Some d =>
      '(_, d) ← mw_append value d;
      tr ← deref (Some p) s;
      Ok (Status_writed 1,
          setDiskStorage (Some d) (set_tracks (<[p := TimeTrack.set_sync (time value) tr]> (_tracks s)) s))
    end
  end.

(** [stop]: the dropping thread ends, everything that can be dropped is, and the
    tracks are destroyed. *)
Definition destroy_track (w : world A) (tr : TimeTrack.t) : outcome (world A) :=
  w ← destroy_all (snd <$> TimeTrack._index tr) w;
  destroy_all (option_list (TimeTrack._cur_chunk tr)) w.

Definition stop s : outcome (t A D W) :=
  if _stoped s then Ok s
  else
    s ← (if negb (is_memory_only_mode (_settings s))
         then drop_thread_wake (set_stop (_stoped s) true (_drop_is_stoped s) s)
         else Ok s);
    s ← match _down_level_storage s with
        | Some _ => drop_by_limit (f32_of_Z 1) s
        | None => Ok s
        end;
    '(m, ps) ← StrippedMap.apply (fun ps v => Ok (ps ++ [v.2])) (_id2track s) [];
    trs ← foldM (fun trs p => tr ← deref p s; Ok (trs ++ [tr])) ps [];
    m ← StrippedMap.clear m;
    w ← foldM destroy_track trs (_world s);
    Ok (set_stop true (_drop_stop s) (_drop_is_stoped s)
          (set_world w (set_tracks [] (set_map m s)))).

Definition dropOld (i tm : Z) s : outcome (t A D W) :=
  '(m, target) ← StrippedMap.find (_id2track s) i;
  let s := set_map m s in
  match target with
  | None => Ok s
  | Some p =>
    tr ← deref p s;
    '(_, tr, w) ← TimeTrack.drop_Old tm tr (_world s);
    Ok (set_world w (set_tracks (<[default 0%nat p := tr]> (_tracks s)) s))
  end.

(** ** Queries *)

Definition find_track {X} (i : Z) (none : X) (f : TimeTrack.t → outcome X) s
  : outcome (X * t A D W) :=
  '(m, output) ← StrippedMap.find (_id2track s) i;
  let s := set_map m s in
  match output with
  | None => Ok (none, s)
  | Some p => tr ← deref p s; x ← f tr; Ok (x, s)
  end.

Definition fold_tracks {X} (f : X → Z * TimeTrack.t → outcome X) (x : X) s
  : outcome (X * t A D W) :=
  '(m, x) ← StrippedMap.apply (fun x v => tr ← deref v.2 s; f x (v.1, tr)) (_id2track s) x;
  Ok (x, set_map m s).

Definition getSyncMap s : outcome (gmap Z Z * t A D W) :=
  fold_tracks (fun (r : gmap Z Z) v => Ok (<[v.1 := TimeTrack._max_sync_time v.2]> r)) ∅ s.

Definition loadMinMax s : outcome (Id2MinMax * t A D W) :=
  fold_tracks (fun r v =>
    match TimeTrack._cur_chunk v.2 with
    | None => Ok r
    | Some _ => StrippedMap.insert MeasMinMax_default r v.1 (TimeTrack._min_max v.2)
    end) (StrippedMap.make 1000) s.

Definition minTime s : outcome (Z * t A D W) :=
  fold_tracks (fun r v => Ok (Z.min r (time (mm_min (TimeTrack._min_max v.2))))) MAX_TIME s.
Definition maxTime s : outcome (Z * t A D W) :=
  fold_tracks (fun r v => Ok (Z.max r (time (mm_max (TimeTrack._min_max v.2))))) MIN_TIME s.

Definition minMaxTime (i : Z) s : outcome (option (Z * Z) * t A D W) :=
  find_track i None (fun tr => Ok (TimeTrack.minMaxTime i tr)) s.

Definition intervalReader (q : QueryInterval) s
  : outcome (gmap Z (cursor Chunk.cursor) * t A D W) :=
  foldM (fun (p : gmap Z (cursor Chunk.cursor) * t A D W) i =>
    '(rdr, s) ← find_track i None (TimeTrack.intervalReader q) p.2;
    match rdr with
    | None => Ok (p.1, s)
    | Some c => Ok (<[i := c]> p.1, s)
    end) (qi_ids q) (∅, s).

Definition stat (i from to : Z) s : outcome (Statistic * t A D W) :=
  find_track i Statistic_empty (TimeTrack.stat from to) s.

(** [result[id]] starts with the identifier; a track answers with the entry of
    its own identifier. *)
Definition no_value (i : Z) : Meas := mkMeas i 0 0 _NO_DATA.

Definition readTimePoint (q : QueryTimePoint) s : outcome (gmap Z Meas * t A D W) :=
  foldM (fun (p : gmap Z Meas * t A D W) i =>
    '(m, s) ← find_track i (no_value i)
      (TimeTrack.readTimePoint (mkQueryTimePoint [i] (qt_flag q) (qt_time_point q))) p.2;
    Ok (<[i := m]> p.1, s)) (qt_ids q) (∅, s).

Definition currentValue (ids : list Z) (fl : Z) s : outcome (gmap Z Meas * t A D W) :=
  foldM (fun (p : gmap Z Meas * t A D W) i =>
    '(m, s) ← find_track i (no_value i) (fun tr => Ok (TimeTrack.currentValue fl tr)) p.2;
    Ok (<[i := m]> p.1, s)) ids (∅, s).

End Storage.
End MemStorage.

#[export] Instance MemStorage_IMeasSource {A D W} `{MemAllocator A} `{StdSort}
  : IMeasSource (MemStorage.t A D W) (cursor Chunk.cursor) := {
  ms_minMaxTime := MemStorage.minMaxTime;
  ms_intervalReader := MemStorage.intervalReader;
  ms_readTimePoint := MemStorage.readTimePoint;
  ms_currentValue := MemStorage.currentValue;
}.
