(* ===== verification/MemStorageSpec.v ===== *)
(** * Memory storage: theorems

    The storage keeps, per identifier, the measurements in the order of their
    times ([mem_inv]); appends go to the track of the identifier and leave the
    other tracks alone; the storage answers interval queries as [IMeasSource]
    promises, so that [readInterval] and [IEngine::foreach] read what was
    written.  A new series cannot be started when memory is full of chunks that
    are still being filled. *)

From Stdlib Require Import ZArith Lia Floats.SpecFloat.
From stdpp Require Import base numbers list gmap fin_maps.
From S2P Require Import Prelude Float64 Meas Bloom Stat StdSort ICursor FullCursor Chunk Cursors Colapse.
From S2P Require Import StripedMap Allocators StdMap TimeTrack TimeTrackSpec Storages MemStorage.

Local Open Scope Z_scope.

#[local] Opaque jenkins_one_at_a_time_hash.

Section Spec.
Context {A D W : Type} `{MemAllocator A} `{IChunkStorage D} `{IMeasWriter W}.
Context `{StdSort} `{UnorderedMap}.
Variable raw_header : ChunkHeader.t.
Implicit Types s : MemStorage.t A D W.

(** The full chunks and the current chunk of each series. *)
Abbreviation series := (gmap Z (list (list Meas) * list Meas)).
Implicit Types G : series.

Definition entry_ok s G (k : Z) (e : option (option nat)) : Prop :=
  match e with
  | None => G !! k = None
  | Some None => False
  | Some (Some p) => ∃ tr ls lc,
      MemStorage._tracks s !! p = Some tr ∧ TimeTrack._meas_id tr = k ∧
      G !! k = Some (ls, lc) ∧ track_inv tr ls lc
  end.

Definition mem_inv s G : Prop :=
  ∃ nodes, StripedMap.wf (MemStorage._id2track s) nodes ∧ unlocked (MemStorage._id2track s) ∧
    ∀ k, entry_ok s G k (abs nodes !! k).

(** As [mem_inv], and the track of the series [i] is the one at [p]. *)
Definition mem_at s G (i : Z) (p : nat) : Prop :=
  ∃ nodes, StripedMap.wf (MemStorage._id2track s) nodes ∧ unlocked (MemStorage._id2track s) ∧
    (∀ k, entry_ok s G k (abs nodes !! k)) ∧ abs nodes !! i = Some (Some p).

Lemma mem_at_inv s G i p : mem_at s G i p → mem_inv s G.
Proof. intros (nodes & Hw & Hu & He & _). by exists nodes. Qed.

(** The measurements of a series. *)
Definition mem_list G (k : Z) : list Meas :=
  match G !! k with None => [] | Some (ls, lc) => concat ls ++ lc end.

Lemma mem_size s G nodes :
  StripedMap.wf (MemStorage._id2track s) nodes → (∀ k, entry_ok s G k (abs nodes !! k)) →
  StrippedMap._size (MemStorage._id2track s) = Z.of_nat (size G).
Proof.
  intros Hw He. rewrite (wf_size _ _ Hw), <- (size_abs nodes) by apply Hw.
  f_equal. rewrite <- !size_dom. f_equal. apply set_eq. intros k.
  rewrite !elem_of_dom. specialize (He k). unfold entry_ok in He.
  destruct (abs nodes !! k) as [[p|]|].
  - destruct He as (tr & ls & lc & _ & _ & -> & _). by split; eexists.
  - done.
  - rewrite He. done.
Qed.

Lemma mem_make st a n s :
  MemStorage.make st a n = Ok s → 0 <= n < 2 ^ 64 → mem_inv s ∅.
Proof.
  intros E Hn. unfold MemStorage.make in E.
  assert (Hm : ∃ m, (if negb (n =? 0) then StrippedMap.reserve (StrippedMap.make 1000) n
                     else Ok (StrippedMap.make 1000)) = Ok m ∧
                    wf (m : StrippedMap.stripped_map (option nat)) [] ∧ unlocked m).
  { destruct (make_wf (D := option nat) 1000 ltac:(lia)) as [Hw0 Hu0].
    destruct (Z.eqb_spec n 0) as [->|Hne]; cbn [negb]; [by eexists|].
    unfold StrippedMap.reserve, StrippedMap.clear. rewrite lock_all_Ok, bind_Ok by done.
    rewrite unlock_all_Ok by done. rewrite bind_Ok. eexists. split; [done|].
    apply (make_wf (D := option nat) n). lia. }
  destruct Hm as (m & Em & Hw & Hu). rewrite Em in E. cbn in E. injection E as <-.
  exists []. done.
Qed.

(** The rest of the storage is as it was. *)
Definition same_rest s s' : Prop :=
  MemStorage._settings s' = MemStorage._settings s ∧
  MemStorage._drop_stop s' = MemStorage._drop_stop s ∧
  MemStorage._down_level_storage s' = MemStorage._down_level_storage s ∧
  MemStorage._disk_storage s' = MemStorage._disk_storage s.

(** Entries of other series do not see a change of one track. *)
Lemma entry_ok_other s s' G k e i x tr' p :
  k ≠ i → entry_ok s G k e →
  (∀ q tr, q ≠ p → MemStorage._tracks s !! q = Some tr → MemStorage._tracks s' !! q = Some tr) →
  (∀ tr, MemStorage._tracks s !! p = Some tr → TimeTrack._meas_id tr = i) →
  MemStorage._tracks s' !! p = Some tr' →
  entry_ok s' (<[i := x]> G) k e.
Proof.
  intros Hk He Ho Hp Hp'. unfold entry_ok in *. rewrite lookup_insert_ne by done.
  destruct e as [[q|]|]; [|done|done]. destruct He as (tr & ls & lc & Hq & Hid & Hs & Hi).
  destruct (decide (q = p)) as [->|Hne]; [by specialize (Hp _ Hq); congruence|].
  exists tr, ls, lc. split_and!; try done. by apply Ho.
Qed.

Lemma track_for_spec i s G :
  mem_inv s G → Z.of_nat (size G) < 2 ^ 62 →
  ∃ p s' tr ls lc, MemStorage.track_for i s = Ok (p, s') ∧
    MemStorage._tracks s' !! p = Some tr ∧ TimeTrack._meas_id tr = i ∧ track_inv tr ls lc ∧
    default ([], []) (G !! i) = (ls, lc) ∧ mem_at s' (<[i := (ls, lc)]> G) i p ∧
    same_rest s s' ∧ MemStorage._world s' = MemStorage._world s.
Proof.
  intros (nodes & Hw & Hu & He) Hsz. rewrite <- (mem_size s G nodes Hw He) in Hsz.
  unfold MemStorage.track_for.
  destruct (find_bucket_spec None _ _ i Hw Hu Hsz) as (m & it & nodes' & b & -> & Hloc).
  rewrite bind_Ok. pose proof (loc_data _ _ _ _ _ _ _ Hloc) as Hd.
  pose proof (loc_abs _ _ _ _ _ _ _ Hloc) as Ha. pose proof (He i) as Hei.
  destruct (it_get_release _ _ _ _ _ _ _ Hloc) as [-> (m1 & E1 & Hw1 & Hu1)]. rewrite bind_Ok.
  destruct (abs nodes !! i) as [[p|]|] eqn:Ei; cbn in Hd; [|done|].
  - rewrite Hd, E1, bind_Ok. destruct Hei as (tr & ls & lc & Hp & Hid & Hs & Hi).
    exists p, (MemStorage.set_map m1 s), tr, ls, lc. rewrite Hs. split_and!; try done.
    exists nodes'. split_and!; [done|done| |by rewrite Ha, Hd, lookup_insert_eq].
    intros k. rewrite Ha, Hd.
    destruct (decide (k = i)) as [->|Hk].
    + rewrite lookup_insert_eq. exists tr, ls, lc. by rewrite lookup_insert_eq.
    + rewrite lookup_insert_ne by done.
      apply (entry_ok_other s _ G k _ i _ tr p); try done; intros tr2 Htr2; by simplify_eq.
  - rewrite Hd. destruct (it_set_release _ _ _ _ _ _ _ (Some (length (MemStorage._tracks s))) Hloc)
      as [_ (m2 & n2 & E2 & Hw2 & Hu2 & Ha2 & _)].
    destruct (StrippedMap.it_set m it _) as [m3| | |] eqn:E3; try done.
    cbn [mbind outcome_bind] in E2. rewrite bind_Ok, E2, bind_Ok. set (new := TimeTrack.make 0 i).
    assert (Hnew : (MemStorage._tracks s ++ [new]) !! length (MemStorage._tracks s) = Some new)
      by by rewrite lookup_app_r, Nat.sub_diag.
    eexists _, _, new, [], []. split; [done|]. rewrite Hei. split_and!; try done.
    { apply track_make_inv. }
    exists n2. split_and!; [done|done| |by rewrite Ha2, lookup_insert_eq].
    intros k. rewrite Ha2.
    destruct (decide (k = i)) as [->|Hk].
    + rewrite lookup_insert_eq. exists new, [], []. rewrite lookup_insert_eq.
      split_and!; try done. apply track_make_inv.
    + rewrite lookup_insert_ne by done.
      eapply (entry_ok_other s _ G k _ i _ new); try done.
      * intros q tr _ Hq. cbn. by apply lookup_app_l_Some.
      * intros tr Hq. apply lookup_lt_Some in Hq. lia.
Qed.

(** The track of a series is replaced. *)
Lemma set_track_inv s G i p w tr tr' x :
  mem_at s (<[i := x]> G) i p → MemStorage._tracks s !! p = Some tr →
  TimeTrack._meas_id tr = i → TimeTrack._meas_id tr' = i → ∀ ls lc, track_inv tr' ls lc →
  mem_inv (MemStorage.set_world w
             (MemStorage.set_tracks (<[p := tr']> (MemStorage._tracks s)) s))
    (<[i := (ls, lc)]> G).
Proof.
  intros (nodes & Hw & Hu & He & Hi) Hp Hid Hid' ls lc Hinv. exists nodes.
  split_and!; [done|done|]. intros k. destruct (decide (k = i)) as [->|Hk].
  - rewrite Hi. exists tr', ls, lc. rewrite lookup_insert_eq. cbn.
    by rewrite list_lookup_insert_eq by by eapply lookup_lt_Some.
  - rewrite <- (insert_insert_eq G i (ls, lc) x).
    eapply (entry_ok_other s _ _ k _ i (ls, lc) tr' p); try done; cbn.
    + intros q tr2 Hq. by rewrite list_lookup_insert_ne.
    + intros tr2 Hq. by simplify_eq.
    + apply list_lookup_insert_eq. by eapply lookup_lt_Some.
Qed.

Lemma append_in_order_mem fuel v s G :
  mem_inv s G → Z.of_nat (size G) < 2 ^ 62 → meas_wf v →
  Forall (fun m => time m < time v) (mem_list G (id v)) →
  cur_next_ok (default ([], []) (G !! id v)).2 v → chunk_size_ok (MemStorage._world s) →
  MemStorage._disk_storage s = None → MemStorage._drop_stop s = false →
  (refused (MemStorage._world s) → MemStorage.is_memory_only_mode (MemStorage._settings s) = true) →
  (1 <= fuel)%nat →
  ∃ st s' x, MemStorage.append raw_header fuel v s = Ok (st, s') ∧ same_rest s s' ∧
    mem_inv s' (<[id v := x]> G) ∧
    ((st = Status_writed 1 ∧ concat x.1 ++ x.2 = mem_list G (id v) ++ [v]) ∨
     (st = Status_error 1 bad_alloc ∧ refused (MemStorage._world s) ∧
      concat x.1 ++ x.2 = mem_list G (id v))).
Proof.
  intros Hm Hsz Hv Hlt Hn Hcs Hdisk Hds Hmode Hf. unfold MemStorage.append.
  destruct (track_for_spec (id v) s G Hm Hsz)
    as (p & s1 & tr & ls & lc & -> & Hp & Hid & Hi & Hd & Hm1 & Hsr & Hw). rewrite bind_Ok.
  assert (Hl : mem_list G (id v) = concat ls ++ lc)
    by (unfold mem_list; destruct (G !! id v) as [[]|]; by simplify_eq/=).
  rewrite Hd in Hn. rewrite Hl in *. destruct fuel as [|fuel]; [lia|].
  destruct (append_in_order raw_header v tr (MemStorage._world s1) ls lc)
    as (st & tr' & w' & E & Hr); try done; try by rewrite Hw.
  pose proof (append_meas_id _ _ _ _ _ _ _ E) as Hid'. rewrite Hid in Hid'.
  destruct Hsr as (Es & Ed & Edn & Edk). cbn [MemStorage.append_loop]. unfold MemStorage.append_track.
  cbn [MemStorage.deref]. rewrite Hp, bind_Ok, E, !bind_Ok. cbn -[MemStorage.append_loop].
  rewrite Ed, Hds, Es. destruct Hr as [[-> (ls' & lc' & Hi' & El)]|(-> & Href & Hi')]; cbn.
  - rewrite Edk, Hdisk. eexists _, _, (ls', lc'). split; [done|]. split; [by split_and!|].
    split; [by eapply set_track_inv|]. left. split; [done|]. by rewrite <- (assoc_L app).
  - rewrite Hw in Href. rewrite (Hmode Href). eexists _, _, (closed ls lc, []). split; [done|].
    split; [by split_and!|]. split; [by eapply set_track_inv|]. right. split_and!; try done.
    cbn. by rewrite app_nil_r, concat_closed.
Qed.

(** ** Queries *)

Lemma find_track_spec {X} i (none : X) f s G :
  mem_inv s G →
  (G !! i = None ∧ MemStorage.find_track i none f s = Ok (none, s)) ∨
  ∃ tr ls lc, G !! i = Some (ls, lc) ∧ track_inv tr ls lc ∧ TimeTrack._meas_id tr = i ∧
    MemStorage.find_track i none f s = (x ← f tr; Ok (x, s)).
Proof.
  intros (nodes & Hw & Hu & He). specialize (He i). unfold MemStorage.find_track.
  rewrite (find_spec _ _ _ Hw Hu), bind_Ok.
  replace (MemStorage.set_map (MemStorage._id2track s) s) with s by by destruct s.
  destruct (abs nodes !! i) as [[p|]|]; cbn in He; [right|done|by left].
  destruct He as (tr & ls & lc & Hp & Hid & Hs & Hi). exists tr, ls, lc. split_and!; try done.
  cbn [MemStorage.deref]. by rewrite Hp, bind_Ok.
Qed.

(** The measurements are in the range of the readers. *)
Definition mem_small G : Prop :=
  map_Forall (fun _ x => Forall (fun m => time m < MAX_TIME) (concat x.1 ++ x.2) ∧
    Z.of_nat (length (concat x.1 ++ x.2)) < 2 ^ 64) G.

Definition mem_answer G (q : QueryInterval) (i : Z) : list Meas :=
  match G !! i with None => [] | Some (ls, lc) => query_list q ls lc end.

Lemma mem_reader q i s G :
  mem_inv s G → mem_small G → qi_from q <= qi_to q →
  ∃ rdr, MemStorage.find_track i None (TimeTrack.intervalReader q) s = Ok (rdr, s) ∧
    match rdr with
    | None => mem_answer G q i = []
    | Some c => ∃ l, Rep c l ∧ base.filter (in_query q) l = mem_answer G q i
    end.
Proof.
  intros Hm Hsm Hft. unfold mem_answer.
  destruct (find_track_spec i None (TimeTrack.intervalReader q) s G Hm)
    as [[-> ->]|(tr & ls & lc & Hs & Hi & _ & ->)]; [by exists None|].
  destruct (Hsm _ _ Hs) as [Hmax Hlen]. rewrite Hs.
  rewrite <- (selected q ls lc) by (done || apply Hi || by eapply index_not_nil).
  destruct (intervalReader_spec q tr ls lc Hi Hmax Hlen) as [[Es ->]|(c & -> & Hc)]; cbn.
  - exists None. by rewrite Es.
  - exists (Some c). split; [done|]. by eexists.
Qed.

Lemma mem_intervalReader q is_ r s G :
  mem_inv s G → mem_small G → qi_from q <= qi_to q →
  ∃ r', foldM (fun (p : gmap Z (cursor Chunk.cursor) * MemStorage.t A D W) i =>
      '(rdr, s) ← MemStorage.find_track i None (TimeTrack.intervalReader q) p.2;
      match rdr with
      | None => Ok (p.1, s)
      | Some c => Ok (<[i := c]> p.1, s)
      end) is_ (r, s) = Ok (r', s) ∧
    ∀ i, match r' !! i with
         | None => r !! i = None ∧ (i ∈ is_ → mem_answer G q i = [])
         | Some c => r !! i = Some c ∨ ∃ l, Rep c l ∧ base.filter (in_query q) l = mem_answer G q i
         end.
Proof.
  intros Hm Hsm Hft. revert r. induction is_ as [|j is_ IH]; intros r.
  { exists r. split; [done|]. intros i. destruct (r !! i); [by left|].
    split; [done|]. by intros ?%not_elem_of_nil. }
  cbn [foldM]. cbn [snd fst].
  destruct (mem_reader q j s G Hm Hsm Hft) as (rdr & -> & Hr). rewrite bind_Ok.
  destruct rdr as [c|].
  - destruct (IH (<[j := c]> r)) as (r' & E & Hr'). exists r'. rewrite bind_Ok. split; [done|].
    intros i. specialize (Hr' i). destruct (decide (i = j)) as [->|Hne].
    + rewrite lookup_insert_eq in Hr'. destruct (r' !! j); [|by destruct Hr'].
      destruct Hr' as [Hr'|Hr']; [|by right]. simplify_eq. by right.
    + rewrite lookup_insert_ne in Hr' by done. destruct (r' !! i); [done|].
      destruct Hr' as [Hn Ha]. split; [done|]. intros [->|Hi]%elem_of_cons; [done|by apply Ha].
  - destruct (IH r) as (r' & E & Hr'). exists r'. rewrite bind_Ok. split; [done|].
    intros i. specialize (Hr' i). destruct (r' !! i); [done|]. destruct Hr' as [Hn Ha].
    split; [done|]. intros [->|Hi]%elem_of_cons; [done|by apply Ha].
Qed.

Lemma mem_source_answers s G :
  mem_inv s G → mem_small G → source_answers s (mem_answer G).
Proof.
  intros Hm Hsm q Hft. destruct (mem_intervalReader q (qi_ids q) ∅ s G Hm Hsm Hft) as (r & E & Hr).
  exists r. split; [exact E|]. intros i Hi. specialize (Hr i). destruct (r !! i) as [c|].
  - by destruct Hr.
  - by apply Hr.
Qed.

(** ** A full memory *)

Lemma track_pointers s nodes :
  StripedMap.wf (MemStorage._id2track s) nodes → unlocked (MemStorage._id2track s) →
  StrippedMap.apply (fun tracks v => Ok (tracks ++ [v.2])) (MemStorage._id2track s) [] =
  Ok (MemStorage._id2track s,
      (snd <$> map b_kv (concat (StrippedMap._buckets (MemStorage._id2track s))))).
Proof.
  intros Hw Hu. eapply apply_spec; [done..|].
  assert (Hgen : ∀ (l : list (Z * option nat)) acc,
    foldM (fun tracks v => Ok (tracks ++ [v.2])) l acc = Ok (acc ++ (snd <$> l))).
  { induction l as [|x l IH]; intros acc; cbn; [by rewrite app_nil_r|].
    rewrite IH. by rewrite <- (assoc_L app). }
  apply Hgen.
Qed.

(** No series has a full chunk. *)
Definition nothing_full G : Prop := map_Forall (fun _ x => x.1 = []) G.

Lemma pointers_empty s G nodes p :
  StripedMap.wf (MemStorage._id2track s) nodes → (∀ k, entry_ok s G k (abs nodes !! k)) →
  nothing_full G →
  p ∈ snd <$> map b_kv (concat (StrippedMap._buckets (MemStorage._id2track s))) →
  ∃ tr, MemStorage.deref p s = Ok tr ∧ TimeTrack._index tr = [].
Proof.
  intros Hw He Hf Hp. apply list_elem_of_fmap in Hp as ([k e] & -> & Hke).
  rewrite (entries_perm _ _ Hw), elem_of_map_to_list in Hke. specialize (He k). rewrite Hke in He.
  destruct e as [p|]; cbn in He; [|done]. destruct He as (tr & ls & lc & Hp & _ & Hs & Hi).
  specialize (Hf _ _ Hs). cbn in Hf. subst ls. exists tr. cbn. rewrite Hp. split; [done|].
  pose proof (ti_index _ _ _ Hi) as Hix. by inversion Hix.
Qed.

Lemma drop_nothing pct n s G :
  mem_inv s G → nothing_full G →
  to_size_t (SFmul 24 128 (f32_of_Z (w_chunks (MemStorage._world s))) pct) = Ok n →
  MemStorage.drop_by_limit pct s = Ok s.
Proof.
  intros (nodes & Hw & Hu & He) Hf Hn. unfold MemStorage.drop_by_limit.
  rewrite Hn, bind_Ok, (track_pointers s nodes Hw Hu), bind_Ok.
  replace (MemStorage.set_map (MemStorage._id2track s) s) with s by by destruct s.
  pose proof (fun p => pointers_empty s G nodes p Hw He Hf) as Hp. revert Hp.
  generalize (snd <$> map b_kv (concat (StrippedMap._buckets (MemStorage._id2track s)))) as ps.
  intros ps Hp.
  assert (E : foldM (MemStorage.drop_track (w_chunks (MemStorage._world s)) n) ps ([], s) = Ok ([], s)).
  { induction ps as [|p ps IH]; [done|]. cbn [foldM].
    unfold MemStorage.drop_track at 2. destruct (Hp p ltac:(left)) as (tr & -> & Hix).
    rewrite bind_Ok, Hix. cbn. apply IH. intros q Hq. apply Hp. by right. }
  by rewrite E, bind_Ok.
Qed.

(** Appending the first measurement of a series changes nothing. *)
Lemma append_refused v tr (w : world A) :
  TimeTrack._cur_chunk tr = None → al_allocate (w_alloc w) = (w_alloc w, EMPTY) →
  TimeTrack.append raw_header v tr w = Ok (Status_error 1 bad_alloc, tr, w).
Proof.
  intros Hc Ha. unfold TimeTrack.append. rewrite Hc. unfold TimeTrack.create_new_chunk.
  rewrite Hc, Ha. cbn. by destruct w.
Qed.

Lemma append_loop_stuck fuel v s G p tr n :
  mem_at s G (id v) p → MemStorage._tracks s !! p = Some tr → TimeTrack._cur_chunk tr = None →
  nothing_full G → al_allocate (w_alloc (MemStorage._world s)) = (w_alloc (MemStorage._world s), EMPTY) →
  MemStorage.is_memory_only_mode (MemStorage._settings s) = false →
  MemStorage._drop_stop s = false →
  to_size_t (SFmul 24 128 (f32_of_Z (w_chunks (MemStorage._world s)))
               (MemStorage.percent_to_drop (MemStorage._settings s))) = Ok n →
  MemStorage.append_loop raw_header fuel p v s = Diverge.
Proof.
  intros Hm Hp Hc Hf Ha Hmode Hds Hn. induction fuel as [|fuel IH]; [done|].
  cbn [MemStorage.append_loop]. unfold MemStorage.append_track. cbn [MemStorage.deref].
  rewrite Hp, bind_Ok, (append_refused v tr _ Hc Ha), !bind_Ok.
  rewrite list_insert_id by done.
  replace (MemStorage.set_world (MemStorage._world s)
             (MemStorage.set_tracks (MemStorage._tracks s) s)) with s by by destruct s.
  rewrite Hds, Hmode. cbn [Status_ne Status_eq Status_error Status_writed andb negb ignored Z.eqb].
  unfold MemStorage.drop_thread_wake. rewrite Hds.
  destruct (MemStorage.is_time_to_drop s); cbn [negb]; [|by rewrite bind_Ok].
  by rewrite (drop_nothing _ _ s G (mem_at_inv _ _ _ _ Hm) Hf Hn), bind_Ok.
Qed.
End Spec.

(** ** Theorems *)



(** C38: when memory is full of chunks that are still being filled, the first
    measurement of a new series never gets in: the dropping thread has nothing
    to drop, and [append] retries for ever. *)
Theorem memstorage_append_livelock {A D W} `{MemAllocator A} `{IChunkStorage D} `{IMeasWriter W}
    `{StdSort} `{UnorderedMap} raw_header fuel v (s : MemStorage.t A D W) G n :
  mem_inv s G → Z.of_nat (size G) < 2 ^ 62 → nothing_full G → G !! id v = None →
  al_allocate (w_alloc (MemStorage._world s)) = (w_alloc (MemStorage._world s), EMPTY) →
  MemStorage.is_memory_only_mode (MemStorage._settings s) = false →
  MemStorage._drop_stop s = false →
  to_size_t (SFmul 24 128 (f32_of_Z (w_chunks (MemStorage._world s)))
               (MemStorage.percent_to_drop (MemStorage._settings s))) = Ok n →
  MemStorage.append raw_header fuel v s = Diverge.
Proof.
  intros Hm Hsz Hf Hnew Ha Hmode Hds Hn. unfold MemStorage.append.
  destruct (track_for_spec (id v) s G Hm Hsz)
    as (p & s1 & tr & ls & lc & -> & Hp & Hid & Hi & Hd & Hm1 & (Es & Ed & _) & Hw).
  rewrite Hnew in Hd. cbn in Hd. simplify_eq. rewrite bind_Ok.
  rewrite (append_loop_stuck raw_header fuel v s1 (<[id v := ([], [])]> G) p tr n); rewrite ?Hw, ?Es; try done.
  - by destruct (TimeTrack._cur_chunk tr) eqn:Ec;
      [pose proof (ti_cur _ _ _ Hi) as Hc; rewrite Ec in Hc; apply filling_not_nil in Hc|].
  - by apply map_Forall_insert_2.
  - by rewrite Ed.
Qed.

(** ** Examples *)

#[local] Instance list_IChunkStorage : IChunkStorage (list Chunk.t) := {
  cs_appendChunks cs d := Ok (d ++ cs);
}.
#[local] Instance list_IMeasWriter : IMeasWriter (list Meas) := {
  mw_append m w := Ok (Status_writed 1, w ++ [m]);
}.
#[export] Instance heap_MemAllocator : MemAllocator UnlimitMemoryAllocator.t := {
  ma_allocator := unlimit_IMemoryAllocator heap_ok;
  ma_capacity _ := None;
  ma_allocated := UnlimitMemoryAllocator._allocated;
}.
#[local] Instance region_MemAllocator : MemAllocator (RegionChunkAllocator.t (Z * list Z)) := {
  ma_allocator := region_IMemoryAllocator 112;
  ma_capacity a := Some (RegionChunkAllocator._capacity a);
  ma_allocated := RegionChunkAllocator._allocated;
}.

Definition memory_only : MemStorage.Settings :=
  MemStorage.mkSettings true (S754_zero false) (S754_zero false).

(** A new storage. *)
Definition new_storage {A} (st : MemStorage.Settings) (a : A)
  : MemStorage.t A (list Chunk.t) (list Meas) :=
  MemStorage.Mk st (mkWorld a 0) (StrippedMap.make 1000) [] false false false None None.

Lemma new_storage_inv {A} st (a : A) : mem_inv (new_storage st a) ∅.
Proof. apply (mem_make st a 0); [done|lia]. Qed.

Definition heap_storage := new_storage memory_only (UnlimitMemoryAllocator.make 64).


(** A storage with one measurement. *)
Lemma storage_of_one :
  ∃ s' G', @mem_inv UnlimitMemoryAllocator.t (list Chunk.t) (list Meas) s' G' ∧ mem_small G' ∧
    mem_list G' 7 = [m_at 10 0].
Proof.
  destruct (append_in_order_mem ChunkHeader.zero 1 (m_at 10 0) heap_storage ∅)
    as (st & s' & x & E & _ & Hm & Hr).
  - apply new_storage_inv.
  - by rewrite map_size_empty.
  - by apply m_at_wf.
  - constructor.
  - exact Logic.I.
  - done.
  - done.
  - done.
  - done.
  - done.
  - destruct Hr as [[-> Hl]|(_ & Hr & _)]; [|discriminate Hr].
    exists s', (<[7 := x]> ∅). split; [exact Hm|]. split.
    + apply map_Forall_insert_2; [|apply map_Forall_empty]. rewrite Hl.
      split; [|done]. apply Forall_singleton. done.
    + unfold mem_list. rewrite lookup_insert_eq. by destruct x.
Qed.

Definition any_query (ids : list Z) : QueryInterval := mkQueryInterval ids 0 0 100 0.


Lemma engine_foreach_terminates_witness :
  ∃ (s : MemStorage.t UnlimitMemoryAllocator.t (list Chunk.t) (list Meas)) G,
    mem_list G 7 = [m_at 10 0] ∧
    IEngine.foreach (fun k => k) 2 (any_query [7; 8]) [] s =
    Ok (feed [] (concat ((fun i => mem_answer G (IEngine.local_query (any_query [7; 8]) i) i) <$>
                         [7; 8])), s).
Proof.
  destruct storage_of_one as (s & G & Hm & Hs & Hl). exists s, G. split; [exact Hl|].
  apply (engine_foreach_terminates (fun k => k) 2 (any_query [7; 8]) [] s (mem_answer G)).
  - by apply mem_source_answers.
  - done.
  - done.
Defined.

(** No memory for a single chunk, a tenth of the chunks to be dropped. *)
Definition small_region : RegionChunkAllocator.t (Z * list Z) :=
  RegionChunkAllocator.Mk 0 64 176 100 0 [] (0, []).
Definition disk_settings : MemStorage.Settings :=
  MemStorage.mkSettings false (f32_of_Z 1) (SFdiv 24 128 (f32_of_Z 1) (f32_of_Z 10)).

Lemma memstorage_append_livelock_witness :
  MemStorage.append ChunkHeader.zero 1000 (m_at 10 0) (new_storage disk_settings small_region) = Diverge.
Proof.
  apply (memstorage_append_livelock ChunkHeader.zero 1000 (m_at 10 0)
           (new_storage disk_settings small_region) ∅ 0).
  - apply new_storage_inv.
  - by rewrite map_size_empty.
  - apply map_Forall_empty.
  - apply lookup_empty.
  - done.
  - done.
  - done.
  - vm_compute. reflexivity.
Defined.
