(* ===== verification/StatFunctions.v ===== *)
(** * Statistic functions

    [statistic/functions.h], [functions.cpp] and [calculator.cpp]: the functions
    of an array of measurements (average, minimum, maximum, count, standard
    deviation, percentiles), the factory that finds them by name, and the
    calculator that applies them to an interval of a storage.  The values are
    [double]s as in [Float64]; [std::pow] is a parameter. *)

From Stdlib Require Import ZArith Lia Floats.SpecFloat Ascii String Sorting.Sorted.
From stdpp Require Import base numbers list gmap.
From S2P Require Import Prelude Float64 Meas StdSort ICursor Chunk Cursors Allocators Storages MemStorage MemStorageSpec.

Local Open Scope Z_scope.

Module Average.
Definition add (r : Meas * Z) (m : Meas) : Meas * Z :=
  (mkMeas (id m) (Z.max (time r.1) (time m)) (f64_add (value r.1) (value m)) (flag r.1),
   u64 (r.2 + 1)).

Definition apply (ma : list Meas) : Meas :=
  let '(result, count) := fold_left add ma (Meas_default, 0) in
  if count =? 0 then Meas_default
  else mkMeas (id result) (time result) (f64_div (value result) (f64_from count)) (flag result).
End Average.

Module Minimum.
Definition pick (r m : Meas) : Meas :=
  if f64_le (value m) (value r) then mkMeas (id m) (time m) (value m) (flag r)
  else mkMeas (id m) (time r) (value r) (flag r).

Definition apply (ma : list Meas) : Meas :=
  match ma with
  | [] => Meas_default
  | _ => fold_left pick ma (mkMeas 0 MIN_TIME MAX_VALUE 0)
  end.
End Minimum.

Module Maximum.
Definition pick (r m : Meas) : Meas :=
  if f64_le (value r) (value m) then mkMeas (id m) (time m) (value m) (flag r)
  else mkMeas (id m) (time r) (value r) (flag r).

Definition apply (ma : list Meas) : Meas :=
  match ma with
  | [] => Meas_default
  | _ => fold_left pick ma (mkMeas 0 MIN_TIME MIN_VALUE 0)
  end.
End Maximum.

Module Count.
Definition apply (ma : list Meas) : Meas :=
  mkMeas 0 (match last ma with Some m => time m | None => 0 end)
    (f64_from (Z.of_nat (length ma))) 0.
End Count.

Module StandartDeviation.
Definition apply (pow : Z → Z → Z) (ma : list Meas) : Meas :=
  match ma with
  | [] => Meas_default
  | _ =>
    let collection_size := f64_from (Z.of_nat (length ma)) in
    let average_value :=
      f64_div (fold_left (fun s m => f64_add s (value m)) ma 0) collection_size in
    let maxtime := fold_left (fun t m => Z.max t (time m)) ma MIN_TIME in
    let sum_value :=
      fold_left (fun s m => f64_add s (pow (f64_sub (value m) average_value) (f64_from 2))) ma 0 in
    mkMeas 0 maxtime (f64_sqrt (f64_div sum_value collection_size)) 0
  end.
End StandartDeviation.

Module Percentile.
(** The pattern of [0.01]. *)
Definition hundredth : Z := 0x3f847ae147ae147b.

Definition index (percentile : Z) (size : Z) : outcome Z :=
  let perc_float := f64_mul (f64_from percentile) hundredth in
  to_size_t (f64_decode (f64_mul perc_float (f64_from size))).

(** [operator<] is no order on values that are not numbers, and [std::sort] is
    undefined on them. *)
Definition apply `{StdSort} (percentile : Z) (ma : list Meas) : outcome Meas :=
  match ma with
  | [] => Ok Meas_default
  | [m] => Ok m
  | [m; m'] =>
    Ok (mkMeas (id m) (Z.max (time m) (time m'))
          (f64_div (f64_add (value m) (value m')) (f64_from 2)) (flag m))
  | _ =>
    if existsb (fun m => is_nan (value m)) ma then UB
    else
      let result := std_sort (fun m => f64_key (value m)) ma in
      i ← index percentile (Z.of_nat (length ma));
      match result !! Z.to_nat i with Some m => Ok m | None => Throw end
  end.
End Percentile.

(** ** The factory *)

Inductive IFunction :=
| FAverage
| FPercentile (percentile : Z)
| FSigma
| FMinimum
| FMaximum
| FCount.

Definition to_lower_char (c : ascii) : ascii :=
  let n := nat_of_ascii c in
  if (65 <=? n)%nat && (n <=? 90)%nat then ascii_of_nat (n + 32) else c.

Fixpoint to_lower (s : string) : string :=
  match s with
  | EmptyString => EmptyString
  | String c s => String (to_lower_char c) (to_lower s)
  end.

Definition make_one (k : string) : option IFunction :=
  let token := to_lower k in
  if String.eqb token "average" then Some FAverage
  else if String.eqb token "median" then Some (FPercentile 50)
  else if String.eqb token "percentile90" then Some (FPercentile 90)
  else if String.eqb token "percentile99" then Some (FPercentile 99)
  else if String.eqb token "sigma" then Some FSigma
  else if String.eqb token "minimum" then Some FMinimum
  else if String.eqb token "maximum" then Some FMaximum
  else if String.eqb token "count" then Some FCount
  else None.

Definition functions : list string :=
  ["average"; "median"; "percentile90"; "percentile99"; "sigma"; "minimum"; "maximum"; "count"]%string.

Section Calculator.
Context `{StdSort}.
Variable pow : Z → Z → Z.

(** [f->apply(ma)] *)
Definition function_apply (f : IFunction) (ma : list Meas) : outcome Meas :=
  match f with
  | FAverage => Ok (Average.apply ma)
  | FPercentile p => Percentile.apply p ma
  | FSigma => Ok (StandartDeviation.apply pow ma)
  | FMinimum => Ok (Minimum.apply ma)
  | FMaximum => Ok (Maximum.apply ma)
  | FCount => Ok (Count.apply ma)
  end.

(** One entry of the result; an unknown function leaves a default one. *)
Definition calculate_one (i : Z) (ma : list Meas) (f : option IFunction) : outcome Meas :=
  m ← match f with Some f => function_apply f ma | None => Ok Meas_default end;
  Ok (mkMeas i (time m) (value m) (Z.lor (flag m) _STATS)).

Definition calculator_apply {S C} `{ICursor C} `{!IMeasSource S C} (i from to fl : Z)
    (fs : list string) (s : S) : outcome (list Meas * S) :=
  '(ma, s) ← readInterval (mkQueryInterval [i] fl from to 0) s;
  match ma with
  | [] => Ok ([], s)
  | _ =>
    result ← foldM (fun result f => m ← calculate_one i ma f; Ok (result ++ [m]))
               (make_one <$> fs) [];
    Ok (result, s)
  end.
End Calculator.

(** ** Extreme values *)

Definition number (v : Z) : Prop := is_value v ∧ is_nan v = false.

(** [pick] keeps the value that is least by [k], the later one of two equals. *)
Section Extreme.
Context (k : Z → Z) (better : Z → Z → bool) (pick : Meas → Meas → Meas).
Hypothesis better_k : ∀ a b, number a → number b → better a b = (k a <=? k b).
Hypothesis pick_eq : ∀ r m, pick r m =
  if better (value m) (value r) then mkMeas (id m) (time m) (value m) (flag r)
  else mkMeas (id m) (time r) (value r) (flag r).

Lemma pick_fold l r :
  Forall (fun m => number (value m)) l → number (value r) →
  let r' := fold_left pick l r in
  k (value r') <= k (value r) ∧ Forall (fun m => k (value r') <= k (value m)) l ∧
  ((value r', time r') = (value r, time r) ∨
   ∃ m, m ∈ l ∧ (value r', time r') = (value m, time m)).
Proof.
  revert r. induction l as [|m l IH]; intros r Hl Hr; [cbn; auto with lia|].
  apply Forall_cons in Hl as [Hm Hl]. cbn [fold_left].
  assert (Hp : number (value (pick r m)) ∧ k (value (pick r m)) <= k (value r) ∧
    k (value (pick r m)) <= k (value m) ∧
    ((value (pick r m), time (pick r m)) = (value r, time r) ∨
     (value (pick r m), time (pick r m)) = (value m, time m))).
  { rewrite pick_eq, better_k by done.
    destruct (Z.leb_spec (k (value m)) (k (value r))); cbn; split_and!; (done || lia || auto). }
  destruct Hp as (Hn & Hk1 & Hk2 & Hv). destruct (IH _ Hl Hn) as (H1 & H2 & H3).
  split_and!; [lia|constructor; [lia|done]|].
  destruct H3 as [->|(m' & Hm' & ->)]; [|right; exists m'; split; [by right|done]].
  destruct Hv as [->| ->]; [by left|right; exists m; split; [left|done]].
Qed.

Lemma pick_fold_id l r m : fold_left pick (l ++ [m]) r = pick (fold_left pick l r) m.
Proof. by rewrite fold_left_app. Qed.

(** Started from a value that is not better than any. *)
Lemma pick_extreme l r :
  l ≠ [] → Forall (fun m => number (value m) ∧ k (value m) <= k (value r)) l → number (value r) →
  let r' := fold_left pick l r in
  (∃ m, m ∈ l ∧ value r' = value m ∧ time r' = time m) ∧
  Forall (fun m => k (value r') <= k (value m)) l.
Proof.
  destruct l as [|m l]; [done|]. intros _ Hl Hr. apply Forall_and in Hl as [Hn Hle].
  destruct (pick_fold (m :: l) r Hn Hr) as (_ & Hall & _).
  apply Forall_cons in Hn as [Hm Hn]. apply Forall_cons in Hle as [Hkm _].
  assert (Hp : pick r m = mkMeas (id m) (time m) (value m) (flag r))
    by (rewrite pick_eq, better_k, (proj2 (Z.leb_le _ _)) by done; done).
  destruct (pick_fold l (pick r m) Hn ltac:(by rewrite Hp)) as (_ & _ & Hv).
  split; [|done]. cbn [fold_left]. destruct Hv as [Hv|(m' & Hm' & Hv)].
  - exists m. rewrite Hp in Hv at 3 4. cbn in Hv. injection Hv as -> ->. split; [left|done].
  - exists m'. injection Hv as -> ->. split; [by right|done].
Qed.
End Extreme.

Lemma minimum_extreme ma :
  ma ≠ [] → Forall (fun m => number (value m) ∧ f64_key (value m) <= f64_key MAX_VALUE) ma →
  let r := Minimum.apply ma in
  (∃ m, m ∈ ma ∧ value r = value m ∧ time r = time m) ∧
  Forall (fun m => f64_key (value r) <= f64_key (value m)) ma.
Proof.
  intros Hne Hma. destruct ma as [|m0 l]; [done|]. unfold Minimum.apply.
  apply (pick_extreme f64_key f64_le Minimum.pick); [|done|done|done|done].
  intros a b [] []. by apply f64_le_key.
Qed.

Lemma maximum_extreme ma :
  ma ≠ [] → Forall (fun m => number (value m) ∧ f64_key MIN_VALUE <= f64_key (value m)) ma →
  let r := Maximum.apply ma in
  (∃ m, m ∈ ma ∧ value r = value m ∧ time r = time m) ∧
  Forall (fun m => f64_key (value m) <= f64_key (value r)) ma.
Proof.
  intros Hne Hma. destruct ma as [|m0 l]; [done|]. unfold Maximum.apply.
  destruct (pick_extreme (fun v => - f64_key v) (fun a b => f64_le b a) Maximum.pick)
    with (l := m0 :: l) (r := mkMeas 0 MIN_TIME MIN_VALUE 0) as [H1 H2]; [|done|done| |done|].
  - intros a b [] []. rewrite f64_le_key by done. apply eq_iff_eq_true.
    rewrite !Z.leb_le. lia.
  - eapply Forall_impl; [exact Hma|]. cbn. intros m [? ?]. split; [done|]. lia.
  - split; [done|]. eapply Forall_impl; [exact H2|]. cbn. intros. lia.
Qed.

(** ** Percentiles *)

(** The element at position [i] of the sorted array has at most [i] smaller
    ones and more than [i] that are not greater. *)
Lemma sorted_rank {A} (key : A → Z) l i m :
  sorted_by key l → l !! i = Some m →
  (length (base.filter (fun x => key x < key m)%Z l) <= i)%nat ∧
  (i < length (base.filter (fun x => key x <= key m)%Z l))%nat.
Proof.
  intros Hs Hi. pose proof (lookup_lt_Some _ _ _ Hi) as Hlt.
  rewrite <- (take_drop_middle l i m Hi) in Hs |- *.
  apply StronglySorted_append in Hs as (_ & Hd & Hb). apply StronglySorted_inv in Hd as [_ Hd].
  rewrite !filter_app, !length_app. split.
  - rewrite (filter_none _ (m :: drop (S i) l)).
    + cbn. pose proof (length_filter (fun x => key x < key m) (take i l)) as Hf.
      rewrite length_take in Hf. lia.
    + constructor; [lia|]. eapply Forall_impl; [exact Hd|]. cbn. intros; lia.
  - rewrite (filter_id _ (take i l)).
    + rewrite filter_cons, decide_True by lia. cbn. rewrite length_take. lia.
    + apply Forall_forall. intros x Hx. apply Hb; [done|left].
Qed.

(** The product of doubles is cut to the integer quotient: for the sizes up to
    300, by evaluation. *)
Definition index_exact (p n : Z) : bool :=
  match Percentile.index p n with Ok i => i =? n * p / 100 | _ => false end.

Lemma index_exact_small :
  forallb (fun p => forallb (index_exact p) (seqZ 3 298)) [50; 90; 99] = true.
Proof. vm_compute. reflexivity. Qed.

Lemma percentile_index p n :
  p ∈ [50; 90; 99] → 3 <= n <= 300 → Percentile.index p n = Ok (n * p / 100).
Proof.
  intros Hp Hn. pose proof index_exact_small as H. rewrite forallb_forall in H.
  specialize (H p (proj1 (list_elem_of_In _ _) Hp)). rewrite forallb_forall in H.
  assert (Hin : n ∈ seqZ 3 298) by (apply elem_of_seqZ; lia). apply list_elem_of_In in Hin.
  specialize (H n Hin). unfold index_exact in H. destruct (Percentile.index p n); try done. breflect. by subst.
Qed.

(** ** Theorems *)

(** [Minimum] and [Maximum] give the value and the time of a measurement that
    no other one is below or above; for the maximum the values must not be below
    the constant it starts from. *)
Theorem minimum_maximum_extreme ma :
  ma ≠ [] →
  Forall (fun m => number (value m) ∧ f64_key MIN_VALUE <= f64_key (value m) <= f64_key MAX_VALUE) ma →
  let mn := Minimum.apply ma in
  let mx := Maximum.apply ma in
  (∃ m, m ∈ ma ∧ value mn = value m ∧ time mn = time m) ∧
  (∃ m, m ∈ ma ∧ value mx = value m ∧ time mx = time m) ∧
  Forall (fun m => f64_key (value mn) <= f64_key (value m) <= f64_key (value mx)) ma.
Proof.
  intros Hne Hma. destruct (minimum_extreme ma Hne) as [H1 H2].
  { eapply Forall_impl; [exact Hma|]. cbn. naive_solver. }
  destruct (maximum_extreme ma Hne) as [H3 H4].
  { eapply Forall_impl; [exact Hma|]. cbn. naive_solver. }
  split_and!; [done..|]. apply Forall_and. by split.
Qed.

Lemma minimum_maximum_extreme_witness :
  let ma := [mkMeas 7 1 (f64_from 5) 0; mkMeas 7 2 (f64_from 3) 0; mkMeas 7 3 (f64_from 9) 0] in
  (∃ m, m ∈ ma ∧ value (Minimum.apply ma) = value m ∧ time (Minimum.apply ma) = time m) ∧
  (∃ m, m ∈ ma ∧ value (Maximum.apply ma) = value m ∧ time (Maximum.apply ma) = time m).
Proof.
  intros ma. destruct (minimum_maximum_extreme ma) as (H1 & H2 & _).
  - discriminate.
  - repeat apply Forall_cons_2; try apply Forall_nil_2;
      (split; [split; [split; [discriminate|reflexivity]|reflexivity]|split; discriminate]).
  - exact (conj H1 H2).
Defined.

(** C36: a percentile of 3 to 300 numbers is always within the array: it is one of
    the measurements, the number of smaller values is at most the percentage of
    the size, rounded down, and more values than that are not greater. *)
Theorem percentile_in_bounds `{StdSort} p ma :
  p ∈ [50; 90; 99] → 3 <= Z.of_nat (length ma) <= 300 →
  Forall (fun m => is_nan (value m) = false) ma →
  let rank := Z.of_nat (length ma) * p / 100 in
  ∃ m, Percentile.apply p ma = Ok m ∧ m ∈ ma ∧
    Z.of_nat (length (base.filter (fun x => f64_key (value x) < f64_key (value m)) ma)) <= rank ∧
    rank < Z.of_nat (length (base.filter (fun x => f64_key (value x) <= f64_key (value m)) ma)).
Proof.
  intros Hp Hn Hnan rank. set (key := fun m => f64_key (value m)).
  pose proof (std_sort_perm key ma) as Hperm.
  assert (Hr : 0 <= rank < Z.of_nat (length ma)).
  { unfold rank. assert (0 <= p < 100).
    { rewrite !elem_of_cons in Hp. destruct Hp as [->|[->|[->|Hp]]]; [lia..|by apply elem_of_nil in Hp]. }
    split; [apply Z.div_pos; nia|]. apply Z.div_lt_upper_bound; nia. }
  destruct (lookup_lt_is_Some_2 (std_sort key ma) (Z.to_nat rank)) as [m Hm].
  { rewrite (Permutation_length Hperm). lia. }
  assert (Hex : existsb (fun m => is_nan (value m)) ma = false).
  { apply not_true_is_false. rewrite existsb_exists. intros (x & Hx & Hx').
    rewrite Forall_forall in Hnan. apply list_elem_of_In in Hx. by rewrite (Hnan _ Hx) in Hx'. }
  exists m. split.
  - unfold Percentile.apply. do 3 (destruct ma as [|? ma]; [cbn in Hn; lia|]).
    rewrite Hex, percentile_index by done. rewrite bind_Ok. fold rank key. by rewrite Hm.
  - destruct (sorted_rank key _ _ _ (std_sort_sorted key ma) Hm) as [H1 H2].
    rewrite Hperm in H1, H2. unfold key in H1, H2. split; [|lia].
    rewrite <- Hperm. by eapply list_elem_of_lookup_2.
Qed.

Lemma percentile_in_bounds_witness :
  let ma := (fun v => mkMeas 7 v (f64_from v) 0) <$> [5; 1; 4; 2; 3] in
  ∃ m, Percentile.apply 90 ma = Ok m ∧ m ∈ ma ∧
    Z.of_nat (length (base.filter (fun x => f64_key (value x) < f64_key (value m)) ma)) <= 4 ∧
    4 < Z.of_nat (length (base.filter (fun x => f64_key (value x) <= f64_key (value m)) ma)).
Proof.
  intros ma. apply (percentile_in_bounds 90 ma).
  - set_solver.
  - cbn. lia.
  - repeat apply Forall_cons_2; try apply Forall_nil_2; reflexivity.
Defined.

Lemma calculator_spec {S C} `{StdSort} `{CursorSpec C} `{!IMeasSource S C} pow i from to fl fs
    (s : S) answer :
  source_answers s answer → from <= to →
  let ma := answer (mkQueryInterval [i] fl from to 0) i in
  Forall (fun name => ∃ m, calculate_one pow i ma (make_one name) = Ok m) fs →
  ∃ ms, calculator_apply pow i from to fl fs s = Ok (ms, s) ∧
    match ma with
    | [] => ms = []
    | _ => Forall2 (fun name m => calculate_one pow i ma (make_one name) = Ok m ∧
                      id m = i ∧ inFlag _STATS m = true) fs ms
    end.
Proof.
  intros Hs Hft ma Hfs. unfold calculator_apply.
  rewrite (readInterval_answers _ s answer Hs) by (done || apply NoDup_singleton).
  rewrite bind_Ok. cbn [qi_ids fmap list_fmap concat]. rewrite app_nil_r. fold ma.
  destruct ma as [|m0 l] eqn:Ema; [by eexists|]. rewrite <- Ema in *. clear Ema.
  assert (Hgen : ∀ fs acc, Forall (fun name => ∃ m, calculate_one pow i ma (make_one name) = Ok m) fs →
    ∃ ms, foldM (fun result f => m ← calculate_one pow i ma f; Ok (result ++ [m]))
            (make_one <$> fs) acc = Ok (acc ++ ms) ∧
      Forall2 (fun name m => calculate_one pow i ma (make_one name) = Ok m ∧
                 id m = i ∧ inFlag _STATS m = true) fs ms).
  { clear fs Hfs. induction fs as [|f fs IH]; intros acc Hfs.
    { exists []. rewrite app_nil_r. by split; [|constructor]. }
    apply Forall_cons in Hfs as [(m & Hm) Hfs]. cbn [fmap list_fmap foldM].
    rewrite Hm, !bind_Ok. destruct (IH (acc ++ [m]) Hfs) as (ms & E & Hms).
    exists (m :: ms). rewrite E, <- (assoc_L app). split; [done|]. constructor; [|done].
    split; [done|]. unfold calculate_one in Hm. apply bind_Ok_inv in Hm as (x & _ & Hm).
    injection Hm as <-. split; [done|]. unfold inFlag. cbn.
    apply Z.eqb_eq, Z.bits_inj'. intros n Hn. rewrite Z.land_spec, Z.lor_spec.
    destruct (Z.testbit (flag x) n), (Z.testbit _STATS n); done. }
  destruct (Hgen fs [] Hfs) as (ms & E & Hms). exists ms. rewrite E, bind_Ok. by split.
Qed.

(** C35: the calculator gives one measurement per requested function, in the order
    of the request, with the identifier of the series and the flag of a
    statistic, computed from what the storage answers for the interval; nothing
    when the interval is empty. *)
Theorem calculator_results {S C} `{StdSort} `{CursorSpec C} `{!IMeasSource S C} pow i from to fl fs
    (s : S) answer :
  source_answers s answer → from <= to →
  let ma := answer (mkQueryInterval [i] fl from to 0) i in
  Forall (fun name => ∃ m, calculate_one pow i ma (make_one name) = Ok m) fs →
  ∃ ms, calculator_apply pow i from to fl fs s = Ok (ms, s) ∧
    match ma with
    | [] => ms = []
    | _ => Forall2 (fun name m => calculate_one pow i ma (make_one name) = Ok m ∧
                      id m = i ∧ inFlag _STATS m = true) fs ms
    end.
Proof. apply calculator_spec. Qed.

Lemma calculator_results_witness :
  ∃ (s : MemStorage.t UnlimitMemoryAllocator.t (list Chunk.t) (list Meas)) G ms,
    mem_list G 7 = [m_at 10 0] ∧
    calculator_apply (fun _ b => b) 7 0 100 0 ["Minimum"; "count"; "mode"]%string s = Ok (ms, s) ∧
    let ma := mem_answer G (mkQueryInterval [7] 0 0 100 0) 7 in
    match ma with
    | [] => ms = []
    | _ => Forall2 (fun name m => calculate_one (fun _ b => b) 7 ma (make_one name) = Ok m ∧
              id m = 7 ∧ inFlag _STATS m = true) ["Minimum"; "count"; "mode"]%string ms
    end.
Proof.
  destruct storage_of_one as (s & G & Hm & Hs & Hl).
  destruct (calculator_results (fun _ b => b) 7 0 100 0 ["Minimum"; "count"; "mode"]%string s
              (mem_answer G)) as (ms & E & Hms).
  - by apply mem_source_answers.
  - done.
  - repeat constructor; by eexists.
  - exists s, G, ms. split; [exact Hl|]. split; [exact E|]. exact Hms.
Defined.
