(* ===== verification/TimeUtil.v ===== *)
(** * Time utilities

    [timeutil.cpp]: times as milliseconds since 1970, their calendar fields, and
    the intervals of an aggregation.  The Gregorian calendar is that of
    Boost.Date_Time: [Calendar] has the functions the code calls, on days
    counted from 1970-01-01, and the facts of the calendar it relies on. *)

From Stdlib Require Import ZArith Lia Floats.SpecFloat String.
From stdpp Require Import base numbers list.
From S2P Require Import Prelude Float64 Meas Allocators.

Local Open Scope Z_scope.

(** ** The calendar *)

Class Calendar := {
  (** The last day the library can represent. *)
  cal_max : Z;
  (** [gregorian_calendar::from_day_number] *)
  ymd_of_day : Z → Z * Z * Z;
  (** [date(year, month, day)] *)
  day_of_ymd : Z → Z → Z → Z;
  (** [date::end_of_month] *)
  end_of_month : Z → Z;
  (** [date::day_of_week], Sunday first *)
  day_of_week : Z → Z;

  cal_date : ∀ d y m dd, 0 <= d <= cal_max → ymd_of_day d = (y, m, dd) → day_of_ymd y m dd = d;
  cal_month : ∀ d y m dd, 0 <= d <= cal_max → ymd_of_day d = (y, m, dd) →
    0 <= day_of_ymd y m 1 <= d ∧ d <= end_of_month d <= cal_max ∧
    ∀ d', day_of_ymd y m 1 <= d' <= end_of_month d →
      (ymd_of_day d').1 = (y, m) ∧ end_of_month d' = end_of_month d;
  cal_year : ∀ d y m dd, 0 <= d <= cal_max → ymd_of_day d = (y, m, dd) →
    0 <= day_of_ymd y 1 1 <= d ∧ d <= day_of_ymd y 12 31 <= cal_max ∧
    ∀ d', day_of_ymd y 1 1 <= d' <= day_of_ymd y 12 31 →
      (ymd_of_day d').1.1 = y;
  cal_week : ∀ d, 0 <= d <= cal_max → day_of_week d = (d + 4) mod 7;
}.

Record DateTime := mkDateTime {
  year : Z; month : Z; day : Z; day_of_year : Z;
  hour : Z; minute : Z; second : Z; millisecond : Z;
}.

Definition DAY : Z := 86400000.

Section TimeUtil.
Context `{Calendar}.

(** [from_ptime(ptime(d, duration))]: the milliseconds are converted to the
    unsigned [Time]. *)
Definition from_ptime (d duration : Z) : Z := u64 (d * DAY + duration).

(** Of a [time_of_day] in milliseconds. *)
Definition to_datetime (t : Z) : DateTime :=
  let date := t / DAY in
  let tod := t mod DAY in
  let '(y, m, d) := ymd_of_day date in
  mkDateTime y m d (date - day_of_ymd y 1 1 + 1)
    (tod / 3600000) (tod / 60000 mod 60) (tod / 1000 mod 60) (tod mod 1000).

Definition hours (n : Z) : Z := n * 3600000.
Definition minutes (n : Z) : Z := n * 60000.
Definition seconds (n : Z) : Z := n * 1000.

Definition from_datetime (dt : DateTime) : Z :=
  from_ptime (day_of_ymd (year dt) (month dt) (day dt))
    (hours (hour dt) + minutes (minute dt) + seconds (second dt) + millisecond dt).

(** ** Units *)

(** [a * b] on [int]; overflow is undefined. *)
Definition int_mul (a b : Z) : outcome Z :=
  if (- 2 ^ 31 <=? a * b) && (a * b <? 2 ^ 31) then Ok (a * b) else UB.

Definition from_seconds (s : Z) : Z := u64 (u64 s * 1000).
Definition from_minutes (m : Z) : outcome Z := s ← int_mul m 60; Ok (from_seconds s).
Definition from_hours (h : Z) : outcome Z := m ← int_mul h 60; from_minutes m.
Definition from_days (d : Z) : outcome Z := h ← int_mul d 24; from_hours h.

(** [(Time)(Time(float(t) / 1e3) * 1e3)] *)
Definition round_to_seconds (t : Z) : outcome Z :=
  let ft :=
    match f32_of_Z t with
    | S754_finite s m e => binary_normalize 53 1024 (cond_Zopp s (Z.pos m)) e false
    | x => x
    end in
  s ← to_size_t (SFdiv 53 1024 ft (f64_of_Z 1000));
  to_size_t (SFmul 53 1024 (f64_of_Z s) (f64_of_Z 1000)).
Definition round_to_minutes (t : Z) : Z := t - t mod (60 * 1000).
Definition round_to_hours (t : Z) : Z := t - t mod (3600 * 1000).

(** ** Intervals *)

Definition predefinedIntervals : list string :=
  ["minute"; "halfhour"; "hour"; "day"; "week"; "month"; "year"]%string.

Definition intervalName2time (interval : string) : Z :=
  let minute := 1000 * 60 in
  let hour := minute * 60 in
  let day := hour * 24 in
  if String.eqb interval "minute" then minute
  else if String.eqb interval "halfhour" then minute * 30
  else if String.eqb interval "hour" then hour
  else if String.eqb interval "day" then day
  else if String.eqb interval "week" then day * 7
  else if String.eqb interval "month" then day * 31
  else if String.eqb interval "year" then day * 365
  else 0.

Definition intervalsLessCmp (l r : string) : bool :=
  intervalName2time l <? intervalName2time r.

Definition last_moment (d : Z) : Z :=
  from_ptime d (hours 23 + minutes 59 + seconds 59 + 999).
Definition first_moment (d : Z) : Z := from_ptime d (hours 0 + minutes 0 + seconds 0 + 0).

(** The two loops over days of the week; at most seven turns each. *)
Fixpoint seek_day (fuel : nat) (dow step d : Z) : outcome Z :=
  match fuel with
  | O => Diverge
  | S fuel => if day_of_week d =? dow then Ok d else seek_day fuel dow step (d + step)
  end.

Definition target_interval (period : string) (currentTime : Z) : outcome (Z * Z) :=
  let dt := to_datetime currentTime in
  let last_sec := seconds 59 + 999 in
  let first_sec := seconds 0 + 0 in
  let d := day_of_ymd (year dt) (month dt) (day dt) in
  if String.eqb period "minute" then
    Ok (from_ptime d (hours (hour dt) + minutes (minute dt) + first_sec),
        from_ptime d (hours (hour dt) + minutes (minute dt) + last_sec))
  else if String.eqb period "halfhour" then
    let '(mints_start, mints_end) :=
      if minute dt <? 30 then (minutes 0, minutes 29) else (minutes 30, minutes 59) in
    Ok (from_ptime d (hours (hour dt) + mints_start + first_sec),
        from_ptime d (hours (hour dt) + mints_end + last_sec))
  else if String.eqb period "hour" then
    Ok (from_ptime d (hours (hour dt) + minutes 0 + first_sec),
        from_ptime d (hours (hour dt) + minutes 59 + last_sec))
  else if String.eqb period "day" then Ok (first_moment d, last_moment d)
  else if String.eqb period "week" then
    end_day ← seek_day 7 0 1 d;
    start_day ← seek_day 7 1 (-1) d;
    Ok (first_moment start_day, last_moment end_day)
  else if String.eqb period "month" then
    Ok (first_moment (day_of_ymd (year dt) (month dt) 1), last_moment (end_of_month d))
  else if String.eqb period "year" then
    Ok (first_moment (day_of_ymd (year dt) 1 1), last_moment (day_of_ymd (year dt) 12 31))
  else Ok (MAX_TIME, MAX_TIME).
End TimeUtil.

(** ** Dates *)

Section Dates.
Context `{Calendar}.

(** [t] is on a day of the calendar. *)
Definition on_calendar (t : Z) : Prop := 0 <= t ∧ t / DAY <= cal_max ∧ cal_max * DAY + DAY <= 2 ^ 64.

Lemma date_of t :
  on_calendar t →
  day_of_ymd (year (to_datetime t)) (month (to_datetime t)) (day (to_datetime t)) = t / DAY.
Proof.
  intros (H0 & H1 & _). unfold to_datetime.
  destruct (ymd_of_day (t / DAY)) as [[y m] d] eqn:E. cbn.
  eapply cal_date; [|done]. split; [|done]. by apply Z.div_pos.
Qed.

Lemma from_ptime_Ok d x : 0 <= d * DAY + x < 2 ^ 64 → from_ptime d x = d * DAY + x.
Proof. apply wrap_small. Qed.

Lemma from_to_datetime t : on_calendar t → from_datetime (to_datetime t) = t.
Proof.
  intros Ht. unfold from_datetime. rewrite (date_of t Ht). destruct Ht as (H0 & H1 & H2).
  unfold to_datetime. destruct (ymd_of_day (t / DAY)) as [[y m] d]. cbn.
  unfold hours, minutes, seconds, DAY in *.
  rewrite from_ptime_Ok; unfold DAY; Z.to_euclidean_division_equations; lia.
Qed.

(** ** Intervals of fixed width *)

(** The multiples of [w] around [t]. *)
Definition slot (w t : Z) : Z * Z := (t / w * w, t / w * w + (w - 1)).

Lemma slot_spec w t : 0 < w → (slot w t).1 <= t <= (slot w t).2.
Proof.
  intros Hw. unfold slot. cbn. pose proof (Z.div_mod t w ltac:(lia)).
  pose proof (Z.mod_pos_bound t w Hw). lia.
Qed.

Lemma slot_same w t t' : 0 < w → (slot w t).1 <= t' <= (slot w t).2 → slot w t' = slot w t.
Proof.
  unfold slot. cbn. intros Hw Ht'. replace (t' / w) with (t / w); [done|].
  apply (Z.div_unique _ _ _ (t' - t / w * w)); lia.
Qed.

Ltac solve_slot :=
  rewrite !from_ptime_Ok by (unfold DAY; Z.to_euclidean_division_equations; lia); unfold DAY;
  do 2 f_equal; Z.to_euclidean_division_equations; lia.

Lemma interval_small t (p : string) w :
  (p, w) ∈ [("minute", 60000); ("halfhour", 1800000); ("hour", 3600000); ("day", DAY)]%string →
  on_calendar t → target_interval p t = Ok (slot w t).
Proof.
  intros Hp Ht. unfold target_interval. rewrite (date_of t Ht). destruct Ht as (H0 & H1 & H2).
  unfold to_datetime. destruct (ymd_of_day (t / DAY)) as [[y m] d]. cbn [hour minute].
  unfold first_moment, last_moment, hours, minutes, seconds, slot.
  rewrite !elem_of_cons in Hp. unfold DAY in *.
  destruct Hp as [[= -> ->]|[[= -> ->]|[[= -> ->]|[[= -> ->]|Hp]]]]; cbn [String.eqb Ascii.eqb Bool.eqb];
    [| | | |by apply elem_of_nil in Hp].
  - solve_slot.
  - destruct (Z.ltb_spec (t mod 86400000 / 60000 mod 60) 30); solve_slot.
  - solve_slot.
  - solve_slot.
Qed.

(** ** Intervals of days *)

(** [f d]: the first and the last day of the interval of the day [d]; the days
    of an interval have the same one. *)
Definition day_intervals (lo hi : Z) (f : Z → Z * Z) : Prop :=
  ∀ d, lo <= d <= hi → 0 <= (f d).1 <= d ∧ d <= (f d).2 <= cal_max ∧
    ∀ d', (f d).1 <= d' <= (f d).2 → f d' = f d.

Lemma moments a b :
  0 <= a → a <= b <= cal_max → cal_max * DAY + DAY <= 2 ^ 64 →
  (first_moment a, last_moment b) = (a * DAY, b * DAY + (DAY - 1)).
Proof.
  intros. unfold first_moment, last_moment, hours, minutes, seconds.
  rewrite !from_ptime_Ok; unfold DAY in *; f_equal; lia.
Qed.

Lemma in_days a b t : a * DAY <= t <= b * DAY + (DAY - 1) ↔ a <= t / DAY <= b.
Proof. unfold DAY. Z.to_euclidean_division_equations. lia. Qed.

Lemma seek_day_finds n fuel dow step d :
  (∀ k, 0 <= k < Z.of_nat n → day_of_week (d + k * step) ≠ dow) →
  day_of_week (d + Z.of_nat n * step) = dow → (n < fuel)%nat →
  seek_day fuel dow step d = Ok (d + Z.of_nat n * step).
Proof.
  revert fuel d. induction n as [|n IH]; intros fuel d Hk Hn Hf;
    (destruct fuel as [|fuel]; [lia|]); cbn [seek_day].
  - rewrite Z.add_0_r in *. by rewrite (proj2 (Z.eqb_eq _ _)).
  - rewrite (proj2 (Z.eqb_neq _ _)).
    + rewrite (IH fuel (d + step)); [f_equal; lia| |rewrite <- Hn; f_equal; lia|lia].
      intros k Hk'. replace (d + step + k * step) with (d + (k + 1) * step) by lia. apply Hk. lia.
    + specialize (Hk 0 ltac:(lia)). by rewrite Z.add_0_r in Hk.
Qed.

(** Monday to Sunday; the first of January 1970 is a Thursday. *)
Definition week_of (d : Z) : Z * Z := (d - (d + 3) mod 7, d - (d + 3) mod 7 + 6).

Lemma seek_week d :
  4 <= d → d + 6 <= cal_max →
  seek_day 7 0 1 d = Ok (week_of d).2 ∧ seek_day 7 1 (-1) d = Ok (week_of d).1.
Proof.
  intros H0 H1. pose proof (Z.mod_pos_bound (d + 3) 7 ltac:(lia)) as Hb. split.
  - rewrite (seek_day_finds (Z.to_nat (6 - (d + 3) mod 7))); [cbn; f_equal; lia| | |lia].
    + intros k Hk. rewrite cal_week; Z.to_euclidean_division_equations; lia.
    + rewrite cal_week; Z.to_euclidean_division_equations; lia.
  - rewrite (seek_day_finds (Z.to_nat ((d + 3) mod 7))); [cbn; f_equal; lia| | |lia].
    + intros k Hk. rewrite cal_week; Z.to_euclidean_division_equations; lia.
    + rewrite cal_week; Z.to_euclidean_division_equations; lia.
Qed.

Lemma week_intervals : day_intervals 4 (cal_max - 6) week_of.
Proof.
  intros d Hd. unfold week_of. cbn. split_and!; try (Z.to_euclidean_division_equations; lia).
  intros d' Hd'. f_equal; Z.to_euclidean_division_equations; lia.
Qed.

Definition month_of (d : Z) : Z * Z :=
  (let '(y, m, _) := ymd_of_day d in day_of_ymd y m 1, end_of_month d).

Lemma month_intervals : day_intervals 0 cal_max month_of.
Proof.
  intros d Hd. unfold month_of. destruct (ymd_of_day d) as [[y m] dd] eqn:E.
  destruct (cal_month d y m dd Hd E) as (H1 & H2 & H3). cbn. split_and!; try lia.
  intros d' Hd'. destruct (H3 d' Hd') as [Hy ->].
  destruct (ymd_of_day d') as [[y' m'] dd']. cbn in Hy. by injection Hy as -> ->.
Qed.

Definition year_of (d : Z) : Z * Z :=
  let '(y, _, _) := ymd_of_day d in (day_of_ymd y 1 1, day_of_ymd y 12 31).

Lemma year_intervals : day_intervals 0 cal_max year_of.
Proof.
  intros d Hd. unfold year_of. destruct (ymd_of_day d) as [[y m] dd] eqn:E.
  destruct (cal_year d y m dd Hd E) as (H1 & H2 & H3). cbn. split_and!; try lia.
  intros d' Hd'. specialize (H3 d' Hd'). destruct (ymd_of_day d') as [[y' m'] dd']. cbn in H3. by subst.
Qed.

(** The interval of whole days that [f] gives. *)
Definition days_of (f : Z → Z * Z) (t : Z) : Z * Z :=
  ((f (t / DAY)).1 * DAY, (f (t / DAY)).2 * DAY + (DAY - 1)).

Lemma interval_days t (p : string) lo hi f :
  (p, lo, hi, f) ∈ [("week", 4, cal_max - 6, week_of); ("month", 0, cal_max, month_of);
                    ("year", 0, cal_max, year_of)]%string →
  on_calendar t → lo <= t / DAY <= hi → target_interval p t = Ok (days_of f t).
Proof.
  intros Hp Ht Hd. unfold target_interval. rewrite (date_of t Ht). destruct Ht as (H0 & H1 & H2).
  unfold to_datetime, days_of. rewrite !elem_of_cons in Hp.
  destruct Hp as [[= -> -> -> ->]|[[= -> -> -> ->]|[[= -> -> -> ->]|Hp]]]; [| | |by apply elem_of_nil in Hp].
  - destruct (ymd_of_day (t / DAY)) as [[y m] dd]. cbn [String.eqb Ascii.eqb Bool.eqb].
    destruct (seek_week (t / DAY)) as [-> ->]; [lia..|]. rewrite !bind_Ok. f_equal.
    pose proof (week_intervals (t / DAY) Hd) as (? & ? & _). apply moments; lia.
  - pose proof (month_intervals (t / DAY) Hd) as (Hs & He & _). unfold month_of in *.
    destruct (ymd_of_day (t / DAY)) as [[y m] dd]. cbn [String.eqb Ascii.eqb Bool.eqb year month fst snd] in *.
    f_equal. apply moments; lia.
  - pose proof (year_intervals (t / DAY) Hd) as (Hs & He & _). unfold year_of in *.
    destruct (ymd_of_day (t / DAY)) as [[y m] dd]. cbn [String.eqb Ascii.eqb Bool.eqb year month fst snd] in *.
    f_equal. apply moments; lia.
Qed.

Lemma days_of_partition lo hi f t t' :
  day_intervals lo hi f → lo <= t / DAY <= hi →
  (days_of f t).1 <= t <= (days_of f t).2 ∧
  ((days_of f t).1 <= t' <= (days_of f t).2 →
   (f (t / DAY)).1 <= t' / DAY <= (f (t / DAY)).2 ∧ days_of f t' = days_of f t).
Proof.
  intros Hf Hd. destruct (Hf _ Hd) as (H1 & H2 & H3). unfold days_of at 1 2 3 4. cbn [fst snd].
  rewrite !in_days. split; [lia|]. intros Ht'. split; [done|]. unfold days_of. by rewrite (H3 _ Ht').
Qed.
End Dates.

(** ** A Gregorian calendar *)

(** Days before the year, and before the month of a year. *)
Definition leap (y : Z) : bool := (y mod 4 =? 0) && (negb (y mod 100 =? 0) || (y mod 400 =? 0)).
Definition days_before_year (y : Z) : Z :=
  let k := y - 1 in 365 * (y - 1970) + (k / 4 - 492) - (k / 100 - 19) + (k / 400 - 4).
Definition month_days (y : Z) : list Z :=
  [31; if leap y then 29 else 28; 31; 30; 31; 30; 31; 31; 30; 31; 30; 31].
Definition gregorian_day (y m d : Z) : Z :=
  days_before_year y + fold_left Z.add (take (Z.to_nat (m - 1)) (month_days y)) 0 + (d - 1).

(** The month and the day of a day of the year, counted from 0. *)
Fixpoint find_month (m d : Z) (ds : list Z) : Z * Z :=
  match ds with
  | [] => (m, d + 1)
  | n :: ds => if d <? n then (m, d + 1) else find_month (m + 1) (d - n) ds
  end.

Definition gregorian_ymd (d : Z) : Z * Z * Z :=
  let y := 1970 + d / 366 in
  let y := if days_before_year (y + 1) <=? d then y + 1 else y in
  let '(m, dd) := find_month 1 (d - days_before_year y) (month_days y) in (y, m, dd).

Definition gregorian_month_end (d : Z) : Z :=
  let '(y, m, _) := gregorian_ymd d in
  gregorian_day y m 1 + nth (Z.to_nat (m - 1)) (month_days y) 31 - 1.

(** The last day of 1972, a leap year; the calendar is checked day by day. *)
Definition gregorian_max : Z := 1095.

Definition same_month (d d' : Z) : bool :=
  let '(y, m, _) := gregorian_ymd d in
  let '(y', m', _) := gregorian_ymd d' in
  (y =? y') && (m =? m') && (gregorian_month_end d =? gregorian_month_end d').
Definition same_year (d d' : Z) : bool := (gregorian_ymd d).1.1 =? (gregorian_ymd d').1.1.

(** A day is between the ends of its month and of its year, is in the month and
    in the year of their first days, and so is the next day up to the ends. *)
Definition day_checked (d : Z) : bool :=
  let '(y, m, dd) := gregorian_ymd d in
  let first := gregorian_day y m 1 in
  let last := gregorian_month_end d in
  let yfirst := gregorian_day y 1 1 in
  let ylast := gregorian_day y 12 31 in
  (gregorian_day y m dd =? d) &&
  (0 <=? first) && (first <=? d) && (d <=? last) && (last <=? gregorian_max) &&
  same_month first d && ((d =? last) || same_month d (d + 1)) &&
  (0 <=? yfirst) && (yfirst <=? d) && (d <=? ylast) && (ylast <=? gregorian_max) &&
  same_year yfirst d && ((d =? ylast) || same_year d (d + 1)).

Lemma days_checked d : 0 <= d <= gregorian_max → day_checked d = true.
Proof.
  intros Hd. assert (H : forallb day_checked (seqZ 0 (gregorian_max + 1)) = true)
    by (vm_compute; reflexivity).
  rewrite forallb_forall in H. apply H, list_elem_of_In, elem_of_seqZ. lia.
Qed.

(** A relation between neighbours up to [last] holds from the first day on. *)
Lemma days_chain (same : Z → Z → Prop) first last :
  (∀ a b c, same a b → same b c → same a c) → same first first →
  (∀ d, first <= d < last → same first d → same d (d + 1)) → ∀ d, first <= d <= last → same first d.
Proof.
  intros Htr Hr Hs d Hd. replace d with (first + Z.of_nat (Z.to_nat (d - first))) by lia.
  assert (Hn : first + Z.of_nat (Z.to_nat (d - first)) <= last) by lia. revert Hn.
  induction (Z.to_nat (d - first)) as [|n IH]; intros Hn; [by rewrite Z.add_0_r|].
  replace (first + Z.of_nat (S n)) with (first + Z.of_nat n + 1) by lia.
  eapply Htr; [apply IH; lia|]. apply Hs; [lia|]. apply IH. lia.
Qed.

Lemma same_month_spec d d' :
  same_month d d' = true ↔
  (gregorian_ymd d).1 = (gregorian_ymd d').1 ∧ gregorian_month_end d = gregorian_month_end d'.
Proof.
  unfold same_month. destruct (gregorian_ymd d) as [[y m] dd], (gregorian_ymd d') as [[y' m'] dd'].
  rewrite !andb_true_iff, !Z.eqb_eq. cbn. split; [intros [[-> ->] ->]; done|intros [[= -> ->] ->]; done].
Qed.

Lemma gregorian_facts d y m dd :
  0 <= d <= gregorian_max → gregorian_ymd d = (y, m, dd) →
  gregorian_day y m dd = d ∧
  (0 <= gregorian_day y m 1 <= d ∧ d <= gregorian_month_end d <= gregorian_max ∧
   same_month (gregorian_day y m 1) d = true ∧
   (d < gregorian_month_end d → same_month d (d + 1) = true)) ∧
  (0 <= gregorian_day y 1 1 <= d ∧ d <= gregorian_day y 12 31 <= gregorian_max ∧
   same_year (gregorian_day y 1 1) d = true ∧
   (d < gregorian_day y 12 31 → same_year d (d + 1) = true)).
Proof.
  intros Hd E. pose proof (days_checked d Hd) as H. unfold day_checked in H. rewrite E in H.
  rewrite !andb_true_iff, !orb_true_iff, !Z.leb_le, !Z.eqb_eq in H.
  destruct H as [[[[[[[[[[[[H0 H1] H2] H3] H4] H5] H6] H7] H8] H9] H10] H11] H12].
  split_and!; try done; [destruct H6; [lia|done]|destruct H12; [lia|done]].
Qed.

#[export] Instance gregorian_calendar : Calendar.
Proof.
  refine {| cal_max := gregorian_max; ymd_of_day := gregorian_ymd; day_of_ymd := gregorian_day;
            end_of_month := gregorian_month_end; day_of_week := fun d => (d + 4) mod 7 |}.
  - intros d y m dd Hd E. by destruct (gregorian_facts d y m dd Hd E) as (? & _).
  - intros d y m dd Hd E. destruct (gregorian_facts d y m dd Hd E) as (_ & (H1 & H2 & H3 & _) & _).
    split; [lia|]. split; [lia|]. apply same_month_spec in H3 as [H3 H3']. rewrite E in H3. cbn in H3.
    intros d' Hd'. rewrite <- H3, <- H3'. rewrite <- H3' in Hd', H2.
    cut (same_month (gregorian_day y m 1) d' = true).
    { intros [-> ->]%same_month_spec. done. }
    apply (days_chain (fun a b => same_month a b = true) _ (gregorian_month_end (gregorian_day y m 1)));
      [| | |lia].
    + intros a b c. rewrite !same_month_spec. by intros [-> ->].
    + by apply same_month_spec.
    + intros x Hx [_ Hxe]%same_month_spec. destruct (gregorian_ymd x) as [[yx mx] ddx] eqn:Ex.
      destruct (gregorian_facts x yx mx ddx ltac:(lia) Ex) as (_ & (_ & _ & _ & Hn) & _).
      apply Hn. lia.
  - intros d y m dd Hd E. destruct (gregorian_facts d y m dd Hd E) as (_ & _ & (H1 & H2 & H3 & _)).
    split; [lia|]. split; [lia|]. unfold same_year in H3. apply Z.eqb_eq in H3. rewrite E in H3. cbn in H3.
    intros d' Hd'. rewrite <- H3. symmetry. apply Z.eqb_eq.
    apply (days_chain (fun a b => same_year a b = true) _ (gregorian_day y 12 31)); [| | |lia].
    + unfold same_year. intros a b c. rewrite !Z.eqb_eq. by intros ->.
    + unfold same_year. by apply Z.eqb_eq.
    + intros x Hx Hxy. unfold same_year in Hxy. apply Z.eqb_eq in Hxy. rewrite H3 in Hxy.
      destruct (gregorian_ymd x) as [[yx mx] ddx] eqn:Ex. cbn in Hxy. subst yx.
      destruct (gregorian_facts x y mx ddx ltac:(lia) Ex) as (_ & _ & (_ & _ & _ & Hn)).
      apply Hn. lia.
  - done.
Defined.

(** ** Theorems *)

(** Membership of a given list. *)
Ltac in_list := repeat first [left; reflexivity | right].

Section Partition.
Context `{Calendar}.

(** The interval of [t] contains it and is the interval of all its times. *)
Definition partition_at (p : string) (t : Z) : Prop :=
  ∃ a b, target_interval p t = Ok (a, b) ∧ a <= t <= b ∧
    ∀ t', a <= t' <= b → target_interval p t' = Ok (a, b).

Lemma day_on_calendar t :
  0 <= t / DAY <= cal_max → cal_max * DAY + DAY <= 2 ^ 64 → on_calendar t.
Proof. intros Ht Hc. split; [|lia]. unfold DAY in *. Z.to_euclidean_division_equations. lia. Qed.

Lemma slot_partition p w t :
  0 < w → (w | DAY) → 0 <= t / DAY <= cal_max → cal_max * DAY + DAY <= 2 ^ 64 →
  (p, w) ∈ [("minute", 60000); ("halfhour", 1800000); ("hour", 3600000); ("day", DAY)]%string →
  partition_at p t.
Proof.
  intros Hw [k Hk] Hd Hc Hp. exists (slot w t).1, (slot w t).2. rewrite <- surjective_pairing.
  rewrite (interval_small t p w Hp) by by apply day_on_calendar.
  pose proof (slot_spec w t Hw) as Ht. split; [done|]. split; [done|]. intros t' Ht'.
  rewrite (interval_small t' p w Hp), (slot_same w t t' Hw Ht'); [done|].
  apply day_on_calendar; [|done]. replace (t' / DAY) with (t / DAY); [done|].
  assert (0 < k) by (unfold DAY in Hk; nia).
  rewrite Hk, (Z.mul_comm k w), <- !Z.div_div by lia. f_equal.
  pose proof (slot_same w t t' Hw Ht') as E. unfold slot in E. injection E as E _. nia.
Qed.

Lemma day_partition p lo hi f t :
  day_intervals lo hi f → 0 <= lo → lo <= t / DAY <= hi → hi <= cal_max →
  lo <= (f (t / DAY)).1 ∧ (f (t / DAY)).2 <= hi → cal_max * DAY + DAY <= 2 ^ 64 →
  (p, lo, hi, f) ∈ [("week", 4, cal_max - 6, week_of); ("month", 0, cal_max, month_of);
                    ("year", 0, cal_max, year_of)]%string →
  partition_at p t.
Proof.
  intros Hf Hlo Hl Hhi Hr Hc Hp. exists (days_of f t).1, (days_of f t).2. rewrite <- surjective_pairing.
  rewrite (interval_days t p lo hi f Hp) by (done || apply day_on_calendar; lia).
  split; [done|]. split; [by apply (days_of_partition lo hi f t t)|]. intros t' Ht'.
  destruct (days_of_partition lo hi f t t' Hf Hl) as [_ Hx]. destruct (Hx Ht') as [Hin <-].
  rewrite (interval_days t' p lo hi f Hp); [done|apply day_on_calendar; lia|lia].
Qed.
End Partition.

(** C32: the intervals of an aggregation cut the time line: the interval of a time
    contains it, and is the interval of every other time in it.  The times of
    the first days of 1970 are left out, whose week begins before the epoch. *)
Theorem target_interval_partition `{Calendar} p t :
  p ∈ predefinedIntervals → 4 <= t / DAY <= cal_max - 12 → cal_max * DAY + DAY <= 2 ^ 64 →
  ∃ a b, target_interval p t = Ok (a, b) ∧ a <= t <= b ∧
    ∀ t', a <= t' <= b → target_interval p t' = Ok (a, b).
Proof.
  intros Hp Hd Hc. change (partition_at p t).
  unfold predefinedIntervals in Hp. rewrite !elem_of_cons in Hp.
  destruct Hp as [->|[->|[->|[->|[->|[->|[->|Hp]]]]]]]; [..|by apply elem_of_nil in Hp].
  - apply (slot_partition _ 60000); [lia|by exists 1440|lia|lia|in_list].
  - apply (slot_partition _ 1800000); [lia|by exists 48|lia|lia|in_list].
  - apply (slot_partition _ 3600000); [lia|by exists 24|lia|lia|in_list].
  - apply (slot_partition _ DAY); [done|by exists 1|lia|lia|in_list].
  - apply (day_partition _ 4 (cal_max - 6) week_of); [apply week_intervals|lia..| |lia|in_list].
    unfold week_of. cbn. revert Hd. generalize (t / DAY). intros d Hd.
    Z.to_euclidean_division_equations. lia.
  - apply (day_partition _ 0 cal_max month_of); [apply month_intervals|lia..| |lia|in_list].
    assert (Hd0 : 0 <= t / DAY <= cal_max) by lia.
    destruct (month_intervals _ Hd0) as (? & ? & _). lia.
  - apply (day_partition _ 0 cal_max year_of); [apply year_intervals|lia..| |lia|in_list].
    assert (Hd0 : 0 <= t / DAY <= cal_max) by lia.
    destruct (year_intervals _ Hd0) as (? & ? & _). lia.
Qed.

Lemma target_interval_partition_witness :
  ∃ a b, target_interval "week" 1000000000 = Ok (a, b) ∧ a <= 1000000000 <= b ∧
    ∀ t', a <= t' <= b → target_interval "week" t' = Ok (a, b).
Proof.
  apply (target_interval_partition "week" 1000000000).
  - unfold predefinedIntervals. in_list.
  - split; [discriminate|]. vm_compute. discriminate.
  - vm_compute. discriminate.
Defined.

(** A time on the calendar is the time of its calendar fields. *)
Theorem datetime_roundtrip `{Calendar} t : on_calendar t → from_datetime (to_datetime t) = t.
Proof. apply from_to_datetime. Qed.

Lemma datetime_roundtrip_witness :
  from_datetime (to_datetime 68211845678) = 68211845678 ∧
  month (to_datetime 68211845678) = 2 ∧ day (to_datetime 68211845678) = 29.
Proof.
  split; [|split; vm_compute; reflexivity].
  apply (datetime_roundtrip 68211845678). split; [discriminate|split; vm_compute; discriminate].
Defined.

Lemma int_mul_Ok a b : - 2 ^ 31 <= a * b < 2 ^ 31 → int_mul a b = Ok (a * b).
Proof.
  intros [Hl Hu]. unfold int_mul. by rewrite (proj2 (Z.leb_le _ _) Hl), (proj2 (Z.ltb_lt _ _) Hu).
Qed.

Lemma int_mul_UB a b : 2 ^ 31 <= a * b → int_mul a b = UB.
Proof. intros Hu. unfold int_mul. by rewrite (proj2 (Z.ltb_ge _ _) Hu), andb_false_r. Qed.

(** [from_days] multiplies [int]s: it is defined, and gives the milliseconds
    of that many days, exactly for the counts of days whose seconds fit. *)
Theorem from_days_range d :
  0 <= d →
  (d <= 24855 ∧ from_days d = Ok (d * DAY)) ∨ (24855 < d ∧ from_days d = UB).
Proof.
  intros Hd. unfold from_days, from_hours, from_minutes.
  destruct (Z.leb_spec d 24855) as [Hle|Hgt]; [left|right]; (split; [lia|]).
  - do 3 rewrite int_mul_Ok, bind_Ok by lia. unfold from_seconds.
    rewrite (wrap_small 64 (d * 24 * 60 * 60)), wrap_small by lia. unfold DAY. f_equal. lia.
  - destruct (Z.ltb_spec (d * 24) (2 ^ 31)); [rewrite int_mul_Ok, bind_Ok by lia|by rewrite int_mul_UB].
    destruct (Z.ltb_spec (d * 24 * 60) (2 ^ 31)); [rewrite int_mul_Ok, bind_Ok by lia|by rewrite int_mul_UB].
    by rewrite int_mul_UB by lia.
Qed.

Lemma from_days_range_witness :
  (1 <= 24855 ∧ from_days 1 = Ok 86400000) ∨ (24855 < 1 ∧ from_days 1 = UB).
Proof. apply (from_days_range 1). discriminate. Defined.

(** [round_to_seconds] goes through [float], which has 24 bits: a whole second
    of the year 2017 is moved by 26 seconds. *)
Example round_to_seconds_moves : round_to_seconds 1500000000000 = Ok 1500000026000.
Proof. vm_compute. reflexivity. Qed.
