(* ===== verification/Scheme.v ===== *)
(** * Scheme

    [scheme/ischeme.h] and [scheme/scheme.cpp]: the names of the series, with the
    interval and the aggregation function that a name ends in, their
    identifiers, and the series an aggregation of a series is written to.  The
    file the scheme is saved to is JSON; [load] starts from its records. *)

From Stdlib Require Import ZArith Lia Ascii String.
From stdpp Require Import base numbers list gmap strings.
From S2P Require Import Prelude Meas StdSort Storages StatFunctions TimeUtil.

Local Open Scope Z_scope.

(** [utils::strings::split]: the pieces between separators that are not empty. *)
Definition push_piece (temp : string) (tokens : list string) : list string :=
  if String.eqb temp "" then tokens else temp :: tokens.

Fixpoint split_from (sep : ascii) (temp text : string) : list string :=
  match text with
  | EmptyString => push_piece temp []
  | String c text =>
    if Ascii.eqb c sep then push_piece temp (split_from sep "" text)
    else split_from sep (String.append temp (String c "")) text
  end.

Definition split (text : string) (sep : ascii) : list string := split_from sep "" text.

Record MeasurementDescription := mkDescription {
  md_name : string;
  md_id : Z;
  md_interval : string;
  md_aggregation_func : string;
}.

(** The name up to the first occurrence of the interval. *)
Definition prefix (d : MeasurementDescription) : string :=
  if String.eqb (md_interval d) "" then md_name d
  else
    match String.index 0 (md_interval d) (md_name d) with
    | None => md_name d
    | Some interval_pos => substring 0 interval_pos (md_name d)
    end.

Abbreviation DescriptionMap := (gmap Z MeasurementDescription).

(** [DescriptionMap::idByParam] *)
Definition idByParam `{UnorderedMap} (param : string) (m : DescriptionMap) : Z :=
  match List.find (fun kv => String.eqb (md_name kv.2) param) (um_list m) with
  | None => MAX_ID
  | Some kv => kv.1
  end.

Module Scheme.

Record t := mk {
  _params : gmap string (gmap string MeasurementDescription);
  _id2descr : gmap Z MeasurementDescription;
  _next_id : Z;
}.

Definition empty : t := mk ∅ ∅ 0.

Definition is_interval (s : string) : bool :=
  String.eqb s "raw" || existsb (fun v => String.eqb s v) predefinedIntervals.

Definition is_aggregate_fn (s : string) : bool :=
  existsb (fun fn => String.eqb fn s) functions.

(** The interval and the function in the last parts of a name. *)
Definition describe (param : string) : string * string :=
  let splited := split param "." in
  match reverse splited with
  | last_ :: before :: rest =>
    (if is_interval last_ then last_ else "",
     match rest with
     | [] => ""
     | _ => if is_aggregate_fn before then before else ""
     end)%string
  | _ => ("", "")%string
  end.

Definition find_param (interval name : string) (s : t) : option MeasurementDescription :=
  p ← _params s !! interval; p !! name.

Definition addParam (param : string) (s : t) : Z * t :=
  let '(interval, fn) := describe param in
  match find_param interval param s with
  | Some d => (md_id d, s)
  | None =>
    let md := mkDescription param (_next_id s) interval fn in
    (md_id md,
     mk (<[interval := <[param := md]> (default ∅ (_params s !! interval))]> (_params s))
        (<[md_id md := md]> (_id2descr s)) (u32 (_next_id s + 1)))
  end.

Section Iterate.
Context `{UnorderedMap} `{StdSort}.

Definition by_id (l : list (string * MeasurementDescription)) (m : DescriptionMap) : DescriptionMap :=
  fold_left (fun m kv => <[md_id kv.2 := kv.2]> m) l m.

Definition ls (s : t) : DescriptionMap :=
  fold_left (fun m inter => by_id (um_list inter.2) m) (um_list (_params s)) ∅.

Definition descriptionFor (i : Z) (s : t) : MeasurementDescription :=
  default (mkDescription "" MAX_ID "" "") (_id2descr s !! i).

Definition lsInterval (interval : string) (s : t) : DescriptionMap :=
  match _params s !! interval with
  | None => ∅
  | Some p => by_id (um_list p) ∅
  end.

(** The series of [target] whose prefix begins with that of the parameter;
    [insert] keeps the first of two with one identifier. *)
Definition linked_in (source_prefix target : string) (s : t) (m : DescriptionMap) : DescriptionMap :=
  fold_left (fun (m : DescriptionMap) kv =>
    let candidate := prefix kv.2 in
    if String.eqb (substring 0 (String.length source_prefix) candidate) source_prefix then
      match m !! md_id kv.2 with
      | None => <[md_id kv.2 := kv.2]> m
      | Some _ => m
      end
    else m) (um_list (default ∅ (_params s !! target))) m.

(** The loop over neighbouring intervals. *)
Fixpoint linked_loop (param : MeasurementDescription) (all_intervals : list string) (s : t)
    (m : DescriptionMap) : DescriptionMap :=
  match all_intervals with
  | i :: ((next :: _) as rest) =>
    let m := if String.eqb i (md_interval param) then linked_in (prefix param) next s m else m in
    linked_loop param rest s m
  | _ => m
  end.

(** With no interval at all [size() - 1] wraps around. *)
Definition linkedForValue (param : MeasurementDescription) (s : t) : outcome DescriptionMap :=
  let all_intervals := std_sort intervalName2time (fst <$> um_list (_params s)) in
  match all_intervals with
  | [] => UB
  | _ => Ok (linked_loop param all_intervals s ∅)
  end.
End Iterate.

(** The records of the file; a name that is already there is not replaced. *)
Definition load_record (p : t * Z) (r : MeasurementDescription) : t * Z :=
  let '(s, max_id) := p in
  let params := default ∅ (_params s !! md_interval r) in
  let params := match params !! md_name r with None => <[md_name r := r]> params | Some _ => params end in
  (mk (<[md_interval r := params]> (_params s)) (<[md_id r := r]> (_id2descr s)) (_next_id s),
   Z.max max_id (md_id r)).

Definition load (records : list MeasurementDescription) (s : t) : t :=
  let '(s, max_id) := fold_left load_record records (s, 0) in
  mk (_params s) (_id2descr s) (u32 (max_id + 1)).

End Scheme.

(** ** Names and identifiers *)

Import Scheme.

(** The two maps describe the same series, by name and by identifier. *)
Record scheme_inv (s : t) : Prop := {
  si_param : ∀ i n d, find_param i n s = Some d →
    md_name d = n ∧ md_interval d = i ∧ _id2descr s !! md_id d = Some d;
  si_id : ∀ k d, _id2descr s !! k = Some d →
    md_id d = k ∧ 0 <= k < _next_id s ∧ find_param (md_interval d) (md_name d) s = Some d ∧
    (describe (md_name d)).1 = md_interval d;
  si_next : 0 <= _next_id s;
}.

Lemma empty_inv : scheme_inv empty.
Proof.
  split; [|by intros|done]. intros i n d Hd. unfold find_param in Hd. cbn in Hd.
  by rewrite lookup_empty in Hd.
Qed.

(** Looking a name up after it, or another one, was added. *)
Lemma find_param_insert i n md s k nx i' n' :
  find_param i' n' (mk (<[i := <[n := md]> (default ∅ (_params s !! i))]> (_params s)) k nx) =
  if decide (i = i' ∧ n = n') then Some md else find_param i' n' s.
Proof.
  unfold find_param. cbn. destruct (decide (i = i')) as [<-|Hi].
  - rewrite lookup_insert_eq. cbn. destruct (decide (n = n')) as [<-|Hn].
    + by rewrite lookup_insert_eq, decide_True.
    + rewrite lookup_insert_ne, decide_False by naive_solver.
      by destruct (_params s !! i); cbn; rewrite ?lookup_empty.
  - by rewrite lookup_insert_ne, decide_False by naive_solver.
Qed.

Lemma addParam_spec p s :
  scheme_inv s → _next_id s < 2 ^ 32 - 1 →
  ∃ i s' d, addParam p s = (i, s') ∧ scheme_inv s' ∧ _next_id s' <= _next_id s + 1 ∧
    _id2descr s' !! i = Some d ∧ md_name d = p ∧
    ∀ k e, _id2descr s !! k = Some e → _id2descr s' !! k = Some e.
Proof.
  intros [Hp Hi Hn] Hlt. unfold addParam. destruct (describe p) as [interval fn] eqn:Ed.
  destruct (find_param interval p s) as [d|] eqn:Ef.
  { destruct (Hp _ _ _ Ef) as (? & ? & ?). exists (md_id d), s, d. split_and!; try done; lia. }
  set (md := mkDescription p (_next_id s) interval fn).
  assert (Hfresh : ∀ k e, _id2descr s !! k = Some e → k ≠ _next_id s).
  { intros k e He. destruct (Hi _ _ He) as (_ & ? & _). lia. }
  eexists _, _, md. split; [done|]. cbn [md_id]. split; [|split].
  - split; cbn [_id2descr _next_id]; [| |pose proof (wrap_range 32 (_next_id s + 1)); lia].
    + intros i n d. rewrite find_param_insert. case_decide as Hdec; intros Hd.
      * destruct Hdec as [<- <-]. injection Hd as <-. by rewrite lookup_insert_eq.
      * destruct (Hp _ _ _ Hd) as (? & ? & Hk). split_and!; try done.
        rewrite lookup_insert_ne; [done|]. symmetry. by eapply Hfresh.
    + intros k d. rewrite find_param_insert, (wrap_small 32 (_next_id s + 1)) by lia.
      intros [[<- <-]|[Hk Hd]]%lookup_insert_Some.
      * unfold md. cbn [md_name md_interval md_id]. rewrite decide_True, Ed by done. split_and!; (done || lia).
      * destruct (Hi _ _ Hd) as (H1 & H2 & H3 & H4). split_and!; (done || lia || idtac).
        case_decide as Hdec; [|done]. destruct Hdec as [E1 E2].
        cbn [md_name] in *. rewrite <- E1, <- E2 in H3. congruence.
  - cbn. rewrite wrap_small; lia.
  - cbn [_id2descr]. split; [by apply lookup_insert_eq|]. split; [done|]. intros k e He.
    rewrite lookup_insert_ne; [done|]. symmetry. by eapply Hfresh.
Qed.

Definition add_all (ps : list string) (s : t) : t := fold_left (fun s p => (addParam p s).2) ps s.

Lemma add_all_spec ps s :
  scheme_inv s → _next_id s + Z.of_nat (length ps) < 2 ^ 32 →
  scheme_inv (add_all ps s) ∧
  (∀ k e, _id2descr s !! k = Some e → _id2descr (add_all ps s) !! k = Some e) ∧
  ∀ p, p ∈ ps → ∃ i d, _id2descr (add_all ps s) !! i = Some d ∧ md_name d = p.
Proof.
  revert s. induction ps as [|p ps IH]; intros s Hs Hlt.
  { split_and!; [done|done|]. by intros p ?%elem_of_nil. }
  cbn [length] in Hlt. destruct (addParam_spec p s Hs ltac:(lia)) as (i & s' & d & E & Hs' & Hnx & Hd & Hp & Hk).
  cbn [add_all fold_left]. rewrite E. fold (add_all ps s').
  destruct (IH s' Hs' ltac:(cbn; lia)) as (H1 & H2 & H3). split_and!; [done|by eauto|].
  intros q [->|Hq]%elem_of_cons; [|by apply H3]. exists i, d. split; [by apply H2|done].
Qed.

(** Names and identifiers of a scheme correspond: every name that was added
    has an identifier, whose description has that name, and adding the name
    again answers the same identifier and changes nothing. *)
Theorem scheme_names_roundtrip ps p :
  Z.of_nat (length ps) < 2 ^ 32 → p ∈ ps →
  ∃ i, addParam p (add_all ps empty) = (i, add_all ps empty) ∧
    md_name (descriptionFor i (add_all ps empty)) = p.
Proof.
  intros Hlt Hin. destruct (add_all_spec ps empty empty_inv Hlt) as (Hs & _ & Hp).
  destruct (Hp p Hin) as (i & d & Hd & <-). exists i.
  destruct (si_id _ Hs _ _ Hd) as (Hi & _ & Hf & Hde). split.
  - unfold addParam. destruct (describe (md_name d)) as [interval fn]. cbn in Hde. subst interval.
    by rewrite Hf, Hi.
  - unfold descriptionFor. by rewrite Hd.
Qed.

Lemma scheme_names_roundtrip_witness :
  let ps := ["lvl1.lvl2.raw"; "lvl1.lvl2.average.minute"; "lvl1.lvl2.raw"]%string in
  ∃ i, addParam "lvl1.lvl2.average.minute" (add_all ps empty) = (i, add_all ps empty) ∧
    md_name (descriptionFor i (add_all ps empty)) = "lvl1.lvl2.average.minute"%string.
Proof. apply scheme_names_roundtrip; [reflexivity|]. right. left. Defined.
