(* ===== verification/Settings.v ===== *)
(** * Settings

    [engines/strategy.h] and the part of [storage/settings.cpp] the other parts
    read: the strategies, the options by interval with their defaults and their
    lookups. *)

From Stdlib Require Import ZArith String.
From stdpp Require Import base numbers strings.
From S2P Require Import Prelude.

Local Open Scope Z_scope.

Inductive STRATEGY := WAL | COMPRESSED | MEMORY | CACHE | SHARD.

Record IntervalSettings := mkIntervalSettings {
  lifetime_raw : Z; lifetime_minute : Z; lifetime_halfhour : Z; lifetime_hour : Z;
  lifetime_day : Z; lifetime_week : Z; lifetime_month : Z;
  strategy_raw : STRATEGY; strategy_minute : STRATEGY; strategy_halfhour : STRATEGY;
  strategy_hour : STRATEGY; strategy_day : STRATEGY; strategy_week : STRATEGY;
  strategy_month : STRATEGY; strategy : STRATEGY;
}.

Definition MINUTE_INTERVAL : Z := 1000 * 60.
Definition HOUR_INTERVAL : Z := 1000 * 60 * 60.
Definition DAY_INTERVAL : Z := 1000 * 60 * 60 * 24.

(** The values the constructor gives the options. *)
Definition default_IntervalSettings : IntervalSettings :=
  mkIntervalSettings (MINUTE_INTERVAL * 60) (HOUR_INTERVAL * 2) (HOUR_INTERVAL * 5)
    (DAY_INTERVAL * 2) (DAY_INTERVAL * 3) (DAY_INTERVAL * 7 * 2) (DAY_INTERVAL * 31 * 2)
    MEMORY COMPRESSED COMPRESSED COMPRESSED COMPRESSED COMPRESSED COMPRESSED COMPRESSED.

Definition lifetime_for_interval (st : IntervalSettings) (interval : string) : outcome Z :=
  if String.eqb interval "raw" then Ok (lifetime_raw st)
  else if String.eqb interval "minute" then Ok (lifetime_minute st)
  else if String.eqb interval "halfhour" then Ok (lifetime_halfhour st)
  else if String.eqb interval "hour" then Ok (lifetime_hour st)
  else if String.eqb interval "day" then Ok (lifetime_day st)
  else if String.eqb interval "week" then Ok (lifetime_week st)
  else if String.eqb interval "month" then Ok (lifetime_month st)
  else Throw.

Definition strategy_for_interval (st : IntervalSettings) (interval : string) : STRATEGY :=
  if String.eqb interval "raw" then strategy_raw st
  else if String.eqb interval "minute" then strategy_minute st
  else if String.eqb interval "halfhour" then strategy_halfhour st
  else if String.eqb interval "hour" then strategy_hour st
  else if String.eqb interval "day" then strategy_day st
  else if String.eqb interval "week" then strategy_week st
  else if String.eqb interval "month" then strategy_month st
  else strategy st.
