(* ===== verification/Aggregator.v ===== *)
(** * Aggregation

    [aggregate/aggregator.cpp] and [aggregate/timer.cpp]: the values of a series
    over an interval are put through the functions of the series linked to it
    and written to them, on start for everything that was missed and then each
    time the timer calls; old values are erased by the lifetimes of
    [storage/settings.cpp].  The engine is used through [IMeasSource],
    [IMeasWriter] and [IErasable]. *)

From Stdlib Require Import ZArith Lia String.
From stdpp Require Import base numbers list gmap strings.
From S2P Require Import Prelude Float64 Meas StdSort ICursor Storages StatFunctions TimeUtil Scheme Settings.
From S2P Require Import Chunk Cursors Allocators TimeTrackSpec MemStorage MemStorageSpec.

Local Open Scope Z_scope.

(** [eraseOld(id, t)] of the engine. *)
Class IErasable (E : Type) := { en_eraseOld : Z → Z → E → outcome E }.

(** ** The timer *)

Module Timer.

(** A record of the queue: its time and the two intervals of its callback. *)
Record QueueReccord := mkRecord { target : Z; from_interval : string; to_interval : string }.

Definition resort_queue `{StdSort} (q : list QueueReccord) : list QueueReccord := std_sort target q.

Definition addCallback `{StdSort} (firstTime : Z) (from to : string) (q : list QueueReccord)
  : list QueueReccord := resort_queue (q ++ [mkRecord firstTime from to]).

(** One pass of [async_loop] at the time [ct] over the state [S] of the callbacks. *)
Definition fire {S} (apply : string → string → Z → S → outcome (Z * S)) (ct : Z)
    (p : list QueueReccord * S) (r : QueueReccord) : outcome (list QueueReccord * S) :=
  let '(q, s) := p in
  if target r <=? ct then
    '(t, s) ← apply (from_interval r) (to_interval r) (target r) s;
    Ok (q ++ [mkRecord t (from_interval r) (to_interval r)], s)
  else Ok (q ++ [r], s).

Definition async_pass {S} `{StdSort} (apply : string → string → Z → S → outcome (Z * S)) (ct : Z)
    (q : list QueueReccord) (s : S) : outcome (list QueueReccord * S) :=
  '(q, s) ← foldM (fire apply ct) q ([], s); Ok (resort_queue q, s).

End Timer.

(** ** The aggregator *)

Module Aggregator.
Section Aggregator.
Context {E C : Type} `{ICursor C} `{!IMeasSource E C} `{IMeasWriter E} `{IErasable E}.
Context `{UnorderedMap} `{StdSort} `{Calendar}.
Variable pow : Z → Z → Z.
Variable settings : IntervalSettings.
(** [_storage->getScheme()]; null when it was not set. *)
Variable scheme : option Scheme.t.

(** Each target with the result of its function. *)
Definition write_results (targets : list MeasurementDescription) (results : list Meas) (e : E)
  : outcome E :=
  foldM (fun e (p : MeasurementDescription * Meas) =>
    '(_, e) ← append_value (md_id p.1) (time p.2) (value p.2) e; Ok e)
    (combine targets results) e.

(** One turn of the loop of [aggregate] over the series of the interval. *)
Definition aggregate_series (sch : Scheme.t) (from to : string) (start end_ : Z) (e : E)
    (kv : Z * MeasurementDescription) : outcome E :=
  all_linked ← Scheme.linkedForValue kv.2 sch;
  let linked_for_interval :=
    snd <$> um_list (filter (fun l => md_interval l.2 = to) (all_linked : DescriptionMap)) in
  match linked_for_interval with
  | [] => Ok e
  | _ =>
    let statistic_functions := md_aggregation_func <$> linked_for_interval in
    '(result_functions, e) ← calculator_apply pow (md_id kv.2) start end_ 0 statistic_functions e;
    match result_functions with
    | [] => Ok e
    | _ =>
      e ← write_results linked_for_interval result_functions e;
      interval_lifetime ← lifetime_for_interval settings from;
      en_eraseOld kv.1 (u64 (end_ - interval_lifetime)) e
    end
  end.

Definition aggregate (from to : string) (start end_ : Z) (e : E) : outcome E :=
  match scheme with
  | None => Ok e
  | Some sch =>
    foldM (aggregate_series sch from to start end_) (um_list (Scheme.lsInterval from sch)) e
  end.

(** [TimerCallback::apply]: the next call is at the end of the next interval. *)
Definition next_call (ito : string) (current_time : Z) : outcome Z :=
  let current_time := u64 (current_time + intervalName2time ito / 2) in
  r ← target_interval ito current_time; Ok r.2.

Definition timer_apply (ifrom ito : string) (current_time : Z) (e : E) : outcome (Z * E) :=
  interval_to_target ← target_interval ito current_time;
  e ← aggregate ifrom ito interval_to_target.1 interval_to_target.2 e;
  t ← next_call ito current_time;
  Ok (t, e).

(** ["raw"] and the predefined intervals, neighbours paired. *)
Definition interval_pairs : list (string * string) :=
  combine ("raw"%string :: predefinedIntervals) predefinedIntervals.

Definition mininum_time_of_interval (interval : string) (e : E) : outcome (Z * E) :=
  match scheme with
  | None => UB
  | Some sch =>
    '(curvals, e) ← ms_currentValue (fst <$> um_list (Scheme.lsInterval interval sch)) 0 e;
    Ok (fold_left (fun r v => Z.min r (time v.2)) (um_list curvals) MAX_TIME, e)
  end.

(** [std::set<std::pair<Time, Time>>], in ascending order. *)
Fixpoint interval_insert (i : Z * Z) (l : list (Z * Z)) : list (Z * Z) :=
  match l with
  | [] => [i]
  | j :: l' =>
    if (i.1 =? j.1) && (i.2 =? j.2) then l
    else if (i.1 <? j.1) || ((i.1 =? j.1) && (i.2 <? j.2)) then i :: l
    else j :: interval_insert i l'
  end.

Definition split_by_interval (to : string) (values : list Meas) : outcome (list (Z * Z)) :=
  foldM (fun intervals v => i ← target_interval to (time v); Ok (interval_insert i intervals)) values [].

(** One missed interval of one linked series. *)
Definition write_interval (src linked : MeasurementDescription) (linked_id : Z) (e : E) (i : Z * Z)
  : outcome E :=
  '(resfuncs, e) ← calculator_apply pow (md_id src) i.1 i.2 0 [md_aggregation_func linked] e;
  match resfuncs with
  | [] => Ok e
  | r :: _ => '(_, e) ← append_value linked_id (time r) (value r) e; Ok e
  end.

(** One linked series of a series with the times [fromMinTime], [fromMaxTime]. *)
Definition start_linked (to : string) (currentTime : Z) (currentInterval : Z * Z)
    (kv : Z * MeasurementDescription) (fromMinTime fromMaxTime : Z) (e : E)
    (linkedKv : Z * MeasurementDescription) : outcome E :=
  '(mm, e) ← ms_minMaxTime linkedKv.1 e;
  let toMaxTime := match mm with Some (_, mx) => mx | None => fromMinTime end in
  if toMaxTime <? fromMaxTime then
    targetInterval ← target_interval to toMaxTime;
    if targetInterval.2 <=? currentInterval.2 then
      '(values, e) ← readInterval (mkQueryInterval [kv.1] 0 toMaxTime currentTime 0) e;
      intervals ← split_by_interval to values;
      foldM (write_interval kv.2 linkedKv.2 linkedKv.1) intervals e
    else Ok e
  else Ok e.

Definition start_series (sch : Scheme.t) (to : string) (currentTime : Z) (currentInterval : Z * Z)
    (e : E) (kv : Z * MeasurementDescription) : outcome E :=
  '(mm, e) ← ms_minMaxTime kv.1 e;
  match mm with
  | None => Ok e
  | Some (fromMinTime, fromMaxTime) =>
    linkedValues ← Scheme.linkedForValue kv.2 sch;
    foldM (start_linked to currentTime currentInterval kv fromMinTime fromMaxTime)
      (um_list linkedValues) e
  end.

Definition aggregate_on_start (sch : Scheme.t) (currentTime : Z) (e : E) : outcome E :=
  foldM (fun e p =>
    currentInterval ← target_interval p.2 currentTime;
    foldM (start_series sch p.2 currentTime currentInterval)
      (um_list (Scheme.lsInterval p.1 sch)) e) interval_pairs e.

Definition fill_timer (start_time : Z) (q : list Timer.QueueReccord) (e : E)
  : outcome (list Timer.QueueReccord * E) :=
  match scheme with
  | None => Ok (q, e)
  | Some sch =>
    e ← aggregate_on_start sch start_time e;
    q ← foldM (fun q p =>
          interval_to_target ← target_interval p.2 start_time;
          Ok (Timer.addCallback interval_to_target.2 p.1 p.2 q)) interval_pairs q;
    Ok (q, e)
  end.
End Aggregator.
End Aggregator.

(** ** Theorems *)

Import Aggregator.

Section NextCall.
Context `{Calendar}.

Lemma next_slot w t0 t :
  0 < w → Z.Even w → t = (slot w t0).2 → (slot w (t + w / 2)).2 = t + w.
Proof.
  intros Hw [h Hh] ->. unfold slot. cbn. subst w. rewrite (Z.mul_comm 2 h), Z.div_mul by lia.
  replace (t0 / (h * 2) * (h * 2) + (h * 2 - 1) + h)
    with ((h - 1) + (t0 / (h * 2) + 1) * (h * 2)) by lia.
  rewrite Z.div_add, Z.div_small by lia. lia.
Qed.

Lemma next_week t0 t :
  t = (days_of week_of t0).2 → (days_of week_of (t + 7 * DAY / 2)).2 = t + 7 * DAY.
Proof.
  unfold days_of, week_of. cbn [fst snd]. generalize (t0 / DAY) as d. intros d ->.
  set (s := d - (d + 3) mod 7).
  assert (Hs : (s + 3) mod 7 = 0) by (unfold s; Z.to_euclidean_division_equations; lia).
  clearbody s. unfold DAY. replace (7 * 86400000 / 2) with 302400000 by reflexivity.
  replace (((s + 6) * 86400000 + (86400000 - 1) + 302400000) / 86400000) with (s + 10).
  - replace ((s + 10 + 3) mod 7) with 3 by (Z.to_euclidean_division_equations; lia). lia.
  - Z.to_euclidean_division_equations. lia.
Qed.

Lemma next_call_slot p w t0 a t :
  (p, w) ∈ [("minute", 60000); ("halfhour", 1800000); ("hour", 3600000); ("day", DAY)]%string →
  Z.Even w → 0 < w <= DAY → intervalName2time p = w →
  0 <= t0 / DAY <= cal_max - 14 → cal_max * DAY + DAY <= 2 ^ 64 →
  target_interval p t0 = Ok (a, t) → next_call p t = Ok (t + w).
Proof.
  intros Hp Hev Hw Hn Hd Hc E. rewrite (interval_small t0 p w Hp) in E by (apply day_on_calendar; lia).
  assert (Et : t = (slot w t0).2) by (injection E as _ E; by symmetry). pose proof (slot_spec w t0 ltac:(lia)) as Ht.
  rewrite <- Et in Ht. assert (Hbound : t0 <= t < t0 + DAY) by (unfold slot in *; cbn in *; lia).
  assert (Hh : 0 <= w / 2 <= DAY) by (Z.to_euclidean_division_equations; lia).
  assert (Hday : 0 <= (t + w / 2) / DAY <= cal_max).
  { clear - Hd Hbound Hh. unfold DAY in *. Z.to_euclidean_division_equations. lia. }
  unfold next_call. rewrite Hn, wrap_small.
  - rewrite (interval_small _ p w Hp) by by apply day_on_calendar. rewrite bind_Ok. f_equal.
    eapply next_slot; [lia|done|done].
  - clear - Hday Hc. unfold DAY in *. Z.to_euclidean_division_equations. lia.
Qed.

Lemma next_call_week t0 a t :
  4 <= t0 / DAY <= cal_max - 24 → cal_max * DAY + DAY <= 2 ^ 64 →
  target_interval "week" t0 = Ok (a, t) → next_call "week" t = Ok (t + 7 * DAY).
Proof.
  intros Hd Hc E.
  assert (Hin : (("week"%string, 4, cal_max - 6), week_of) ∈
    [("week", 4, cal_max - 6, week_of); ("month", 0, cal_max, month_of);
     ("year", 0, cal_max, year_of)]%string) by left.
  rewrite (interval_days t0 "week" _ _ _ Hin) in E by (lia || apply day_on_calendar; lia).
  assert (Et : t = (days_of week_of t0).2) by (injection E as _ E; by symmetry).
  assert (Hday : 4 <= (t + 7 * DAY / 2) / DAY <= cal_max - 6).
  { clear - Et Hd. subst t. revert Hd. unfold days_of, week_of. cbn [fst snd].
    generalize (t0 / DAY). intros d Hd. unfold DAY. replace (7 * 86400000 / 2) with 302400000 by reflexivity.
    Z.to_euclidean_division_equations. lia. }
  unfold next_call. change (intervalName2time "week") with (7 * DAY). rewrite wrap_small.
  - rewrite (interval_days _ "week" _ _ _ Hin) by (lia || apply day_on_calendar; lia).
    rewrite bind_Ok. f_equal. by eapply next_week.
  - clear - Hday Hc. revert Hday. generalize (t + 7 * DAY / 2). unfold DAY in *.
    intros x Hx. Z.to_euclidean_division_equations. lia.
Qed.
End NextCall.



(** What [aggregate] does with one series: nothing when no series of the target
    interval is linked to it. *)
Definition targets_of `{UnorderedMap} (to : string) (linked : DescriptionMap)
  : list MeasurementDescription :=
  snd <$> um_list (filter (fun l => md_interval l.2 = to) linked).


(** The memory storage as the engine. *)
#[local] Instance mem_writer
  : IMeasWriter (MemStorage.t UnlimitMemoryAllocator.t (list Chunk.t) (list Meas)) := {
  mw_append m s := MemStorage.append (H0 := {| cs_appendChunks cs d := Ok (d ++ cs) |})
    (H1 := {| mw_append m w := Ok (Status_writed 1, w ++ [m]) |}) ChunkHeader.zero 1 m s;
}.
#[local] Instance mem_erasable
  : IErasable (MemStorage.t UnlimitMemoryAllocator.t (list Chunk.t) (list Meas)) := {
  en_eraseOld i t s := MemStorage.dropOld i t s;
}.

Definition two_names : Scheme.t := add_all ["a.raw"; "a.minimum.minute"]%string Scheme.empty.
Definition source_7 : Z * MeasurementDescription := (7, mkDescription "a.raw" 7 "raw" "").

Lemma linked_to_7 :
  (linked ← Scheme.linkedForValue source_7.2 two_names; Ok (targets_of "minute" linked)) =
  Ok [mkDescription "a.minimum.minute" 1 "minute" "minimum"].
Proof. vm_compute. reflexivity. Qed.

