(* ===== verification/Files.v ===== *)
(** * Files and the manifest

    What the write-ahead log and the pages use of the file system
    ([utils/fs.cpp] and the C library's files): names with the bytes of each
    file, and [storage/manifest.cpp], the tables of page and log files.  The
    manifest is an SQLite database; its statements act on the rows of two
    tables, which are kept here in the order of their row identifiers. *)

From Stdlib Require Import ZArith Lia Ascii String.
From stdpp Require Import base numbers list gmap strings.
From S2P Require Import Prelude.

Local Open Scope Z_scope.

(** ** Paths *)

Definition slash : ascii := "/"%char.

Fixpoint no_slash (s : string) : bool :=
  match s with
  | EmptyString => true
  | String c s => negb (Ascii.eqb c slash) && no_slash s
  end.

(** A name without directories. *)
Definition plain_name (s : string) : bool := negb (String.eqb s "") && no_slash s.

(** [boost::filesystem::path] *)
Class Paths := {
  append_path : string → string → string;
  extract_filename : string → string;
  parent_path : string → string;
  extract_append : ∀ d f, plain_name f = true → extract_filename (append_path d f) = f;
  extract_plain : ∀ f, plain_name f = true → extract_filename f = f;
  append_longer : ∀ d f e, plain_name f = true → append_path d (f +:+ e) = append_path d f +:+ e;
}.

Fixpoint all_digits (s : string) : bool :=
  match s with
  | EmptyString => true
  | String c s => (48 <=? Ascii.nat_of_ascii c)%nat && (Ascii.nat_of_ascii c <=? 57)%nat && all_digits s
  end.

(** The time of the [k]-th call of the clock in microseconds, in decimal. *)
Class FileNames := {
  file_stem : nat → string;
  file_stem_digits : ∀ k, all_digits (file_stem k) = true ∧ file_stem k ≠ "";
}.

(** [random_file_name]: the time of the call and the extension. *)
Definition random_file_name `{FileNames} (k : nat) (ext : string) : string := file_stem k +:+ ext.

Lemma no_slash_app a b : no_slash a = true → no_slash b = true → no_slash (a +:+ b) = true.
Proof.
  induction a as [|c a IH]; intros Ha Hb; [done|]. apply andb_true_iff in Ha as [Hc Ha].
  change (negb (Ascii.eqb c slash) && no_slash (a +:+ b) = true). by rewrite IH, andb_true_r.
Qed.

Lemma plain_name_app a b : plain_name a = true → no_slash b = true → plain_name (a +:+ b) = true.
Proof.
  unfold plain_name. intros [Hn Ha]%andb_true_iff Hb. rewrite no_slash_app, andb_true_r by done. by destruct a.
Qed.

Lemma digits_plain s : all_digits s = true → s ≠ "" → plain_name s = true.
Proof.
  intros Hs Hn. apply andb_true_iff. split; [by apply negb_true_iff, String.eqb_neq|]. clear Hn.
  induction s as [|c s IH]; [done|]. cbn in Hs. apply andb_true_iff in Hs as [Hc Hs].
  change (negb (Ascii.eqb c slash) && no_slash s = true).
  rewrite IH, andb_true_r by done. apply negb_true_iff, Ascii.eqb_neq. by intros ->.
Qed.

Lemma random_file_name_plain `{FileNames} k ext :
  no_slash ext = true → plain_name (random_file_name k ext) = true.
Proof. apply plain_name_app, digits_plain; apply file_stem_digits. Qed.

(** Directories joined with one slash. *)
Fixpoint ends_with_slash (s : string) : bool :=
  match s with
  | EmptyString => false
  | String c EmptyString => Ascii.eqb c slash
  | String _ s => ends_with_slash s
  end.

Definition unix_append (d f : string) : string :=
  if String.eqb d "" then f
  else if ends_with_slash d then String.append d f
  else String.append d (String slash f).

Fixpoint after_slash (acc s : string) : string :=
  match s with
  | EmptyString => acc
  | String c s =>
    if Ascii.eqb c slash then after_slash s s else after_slash acc s
  end.

Definition unix_filename (p : string) : string := after_slash p p.

Fixpoint before_slash (acc seen s : string) : string :=
  match s with
  | EmptyString => acc
  | String c s =>
    before_slash (if Ascii.eqb c slash then seen else acc) (String.append seen (String c "")) s
  end.

Definition unix_parent (p : string) : string := before_slash "" "" p.

(** ** The file system *)

Record fs := mkFs {
  fs_files : gmap string (list Z);
  fs_dirs : gset string;
  (** whether the file can be opened for writing *)
  fs_writable : string → bool;
}.

Definition path_exists (p : string) (f : fs) : bool :=
  bool_decide (is_Some (fs_files f !! p)) || bool_decide (p ∈ fs_dirs f).

(** [fopen(name, "ab")]: makes the file when there is none. *)
Definition fopen_ab (p : string) (f : fs) : option fs :=
  if fs_writable f p then
    Some (mkFs (<[p := default [] (fs_files f !! p)]> (fs_files f)) (fs_dirs f) (fs_writable f))
  else None.

(** [fopen(name, "rb")] *)
Definition fopen_rb (p : string) (f : fs) : option (list Z) := fs_files f !! p.

(** [fwrite] to a file opened for appending; what is written to a file that was
    removed in the meantime is lost. *)
Definition fwrite_ab (p : string) (bs : list Z) (f : fs) : fs :=
  match fs_files f !! p with
  | Some old => mkFs (<[p := old ++ bs]> (fs_files f)) (fs_dirs f) (fs_writable f)
  | None => f
  end.

(** [tellg] of a stream opened at the end; -1 when it did not open. *)
Definition tellg_end (p : string) (f : fs) : Z :=
  match fs_files f !! p with
  | Some bs => Z.of_nat (length bs)
  | None => -1
  end.

(** [rm] of a file *)
Definition rm (p : string) (f : fs) : fs :=
  mkFs (delete p (fs_files f)) (fs_dirs f) (fs_writable f).

Definition mkdir (p : string) (f : fs) : fs :=
  mkFs (fs_files f) ({[p]} ∪ fs_dirs f) (fs_writable f).

(** ** The manifest *)

Module Manifest.

Record WalFileDescription := mkDescr { fname : string; measId : Z }.

#[global] Instance WalFileDescription_eq_dec : EqDecision WalFileDescription.
Proof. solve_decision. Defined.

Record t := mk {
  (** whether statements can be prepared *)
  db_ok : bool;
  pages : list string;
  wal : list WalFileDescription;
  format : option string;
}.

(** [sqlite3_prepare] of a statement. *)
Definition prepare (m : t) : outcome unit := if db_ok m then Ok () else Throw.

Definition set_pages (l : list string) (m : t) : t := mk (db_ok m) l (wal m) (format m).
Definition set_wal (l : list WalFileDescription) (m : t) : t := mk (db_ok m) (pages m) l (format m).

Definition page_list (m : t) : outcome (list string) := _ ← prepare m; Ok (pages m).
Definition page_append (rec : string) (m : t) : outcome t :=
  _ ← prepare m; Ok (set_pages (pages m ++ [rec]) m).
Definition page_rm (rec : string) (m : t) : outcome t :=
  _ ← prepare m; Ok (set_pages (base.filter (fun f => f ≠ rec) (pages m)) m).

Definition wal_list (m : t) : outcome (list WalFileDescription) := _ ← prepare m; Ok (wal m).
Definition wal_list_id (i : Z) (m : t) : outcome (list WalFileDescription) :=
  _ ← prepare m; Ok (base.filter (fun d => measId d = i) (wal m)).
Definition wal_append (rec : string) (i : Z) (m : t) : outcome t :=
  _ ← prepare m; Ok (set_wal (wal m ++ [mkDescr rec i]) m).
Definition wal_rm (rec : string) (m : t) : outcome t :=
  _ ← prepare m; Ok (set_wal (base.filter (fun d => fname d ≠ rec) (wal m)) m).

Inductive field := PAGE_JS_KEY | WAL_JS_KEY.

Definition clear_field_values (fld : field) (m : t) : outcome t :=
  _ ← prepare m;
  Ok match fld with PAGE_JS_KEY => set_pages [] m | WAL_JS_KEY => set_wal [] m end.

Definition set_format (version : string) (m : t) : outcome t :=
  _ ← prepare m; Ok (mk (db_ok m) (pages m) (wal m) (Some version)).
Definition get_format (m : t) : outcome string :=
  _ ← prepare m; Ok (default "" (format m)).

(** The files the tables name and the directory does not have are taken out; a
    table that changes is emptied and written again. *)
Definition restore `{Paths} (raw_storage_path : string) (f : fs) (m : t) : outcome t :=
  wals ← wal_list m;
  let wals' := base.filter (fun d =>
    path_exists (append_path raw_storage_path (fname d)) f = true) wals in
  m ← (if negb (length wals' =? length wals)%nat then
         m ← clear_field_values WAL_JS_KEY m;
         foldM (fun m d => wal_append (fname d) (measId d) m) wals' m
       else Ok m);
  pgs ← page_list m;
  let pgs' := base.filter (fun p => path_exists (append_path raw_storage_path p) f = true) pgs in
  if negb (length pgs' =? length pgs)%nat then
    m ← clear_field_values PAGE_JS_KEY m;
    foldM (fun m p => page_append p m) pgs' m
  else Ok m.

(** The constructor; [db]: the database of the file, [None] when it cannot be
    opened. *)
Definition create `{Paths} (storage_path raw_path : string) (db : option t) (f : fs)
  : outcome (t * fs) :=
  let storage_path := parent_path (append_path storage_path "Manifest") in
  let is_exists := path_exists storage_path f in
  let f := if is_exists then f else mkdir storage_path f in
  match db with
  | None => Throw
  | Some m =>
    _ ← prepare m;
    m ← (if is_exists then restore raw_path f m else Ok m);
    Ok (m, f)
  end.

End Manifest.

(** ** Paths: one implementation *)

Lemma after_slash_plain acc s : no_slash s = true → after_slash acc s = acc.
Proof.
  revert acc. induction s as [|c s IH]; intros acc Hs; cbn in *; [done|].
  apply andb_true_iff in Hs as [Hc%negb_true_iff Hs]. by rewrite Hc, IH.
Qed.

Lemma after_slash_app acc d f :
  no_slash f = true → after_slash acc (String.append d (String slash f)) = f.
Proof.
  intros Hf. revert acc. induction d as [|c d IH]; intros acc.
  - change (String.append "" (String slash f)) with (String slash f). cbn [after_slash]. rewrite Ascii.eqb_refl. by apply after_slash_plain.
  - change (String.append (String c d) ?s) with (String c (String.append d s)).
    cbn [after_slash]. destruct (Ascii.eqb c slash); apply IH.
Qed.

Lemma after_slash_ends acc d f :
  no_slash f = true → ends_with_slash d = true → after_slash acc (String.append d f) = f.
Proof.
  intros Hf. revert acc. induction d as [|c d IH]; intros acc Hd; [done|].
  change (String.append (String c d) f) with (String c (String.append d f)). cbn [after_slash].
  destruct d as [|c' d].
  - cbn [ends_with_slash] in Hd. rewrite Hd. by apply after_slash_plain.
  - destruct (Ascii.eqb c slash); by apply IH.
Qed.

Lemma string_app_assoc (a b c : string) : a +:+ (b +:+ c) = (a +:+ b) +:+ c.
Proof.
  induction a as [|x a IH]; [done|].
  change (String x (a +:+ (b +:+ c)) = String x ((a +:+ b) +:+ c)). by rewrite IH.
Qed.

#[export] Instance unix_Paths : Paths.
Proof.
  refine {| append_path := unix_append; extract_filename := unix_filename;
            parent_path := unix_parent |}.
  - intros d f [_ Hf]%andb_true_iff. unfold unix_append, unix_filename.
    destruct (String.eqb d ""); [by apply after_slash_plain|].
    destruct (ends_with_slash d) eqn:Hd; [by apply after_slash_ends|by apply after_slash_app].
  - intros f [_ Hf]%andb_true_iff. by apply after_slash_plain.
  - intros d f e _. unfold unix_append. destruct (String.eqb d ""); [done|].
    destruct (ends_with_slash d); [apply string_app_assoc|apply (string_app_assoc d (String slash f) e)].
Defined.

(** Calls at the microseconds 1, 11, 111, ... *)
Fixpoint ones (k : nat) : string :=
  match k with O => "1" | S k => String "1"%char (ones k) end.

#[export] Instance ones_FileNames : FileNames.
Proof.
  refine {| file_stem := ones |}. intros k. split; [by induction k|by destruct k].
Defined.

Lemma ones_inj ext i j : random_file_name i ext = random_file_name j ext → i = j.
Proof.
  assert (Hl : ∀ k, String.length (ones k +:+ ext) = (S k + String.length ext)%nat).
  { induction k as [|k IH]; [done|]. change (S (String.length (ones k +:+ ext)) = (S (S k) + String.length ext)%nat). by rewrite IH. }
  intros E. apply (f_equal String.length) in E. unfold random_file_name in E. cbn in E. rewrite !Hl in E. lia.
Qed.

(** ** The environment of a storage *)

Record env := mkEnv { e_fs : fs; e_manifest : Manifest.t; e_calls : nat }.

Definition set_fs (f : fs) (e : env) : env := mkEnv f (e_manifest e) (e_calls e).
Definition set_manifest (m : Manifest.t) (e : env) : env := mkEnv (e_fs e) m (e_calls e).

(** The next random file name. *)
Definition next_file_name `{FileNames} (ext : string) (e : env) : string * env :=
  (random_file_name (e_calls e) ext, mkEnv (e_fs e) (e_manifest e) (S (e_calls e))).

(** Nothing but the file [p] has changed. *)
Record frame (p : string) (e e' : env) : Prop := {
  fr_manifest : e_manifest e' = e_manifest e;
  fr_calls : e_calls e' = e_calls e;
  fr_dirs : fs_dirs (e_fs e') = fs_dirs (e_fs e);
  fr_writable : fs_writable (e_fs e') = fs_writable (e_fs e);
  fr_files : ∀ g, g ≠ p → fs_files (e_fs e') !! g = fs_files (e_fs e) !! g;
}.

#[export] Instance frame_preorder p : PreOrder (frame p).
Proof.
  split; [by intros e|]. intros e1 e2 e3 [] []. split; try congruence.
  intros g Hg. rewrite fr_files1, fr_files0; done.
Qed.

(** ** The manifest: lemmas *)

Lemma wal_append_all l (m : Manifest.t) :
  Manifest.db_ok m = true →
  foldM (fun m d => Manifest.wal_append (Manifest.fname d) (Manifest.measId d) m) l m =
  Ok (Manifest.set_wal (Manifest.wal m ++ l) m).
Proof.
  revert m. induction l as [|[n i] l IH]; intros m Hm; cbn [foldM].
  { rewrite app_nil_r. by destruct m. }
  unfold Manifest.wal_append at 2, Manifest.prepare. rewrite Hm, !bind_Ok.
  rewrite IH by done. cbn. by rewrite <- (assoc_L (++)).
Qed.

Lemma page_append_all l (m : Manifest.t) :
  Manifest.db_ok m = true →
  foldM (fun m p => Manifest.page_append p m) l m = Ok (Manifest.set_pages (Manifest.pages m ++ l) m).
Proof.
  revert m. induction l as [|p l IH]; intros m Hm; cbn [foldM].
  { rewrite app_nil_r. by destruct m. }
  unfold Manifest.page_append at 2, Manifest.prepare. rewrite Hm, !bind_Ok.
  rewrite IH by done. cbn. by rewrite <- (assoc_L (++)).
Qed.

Lemma filter_all_length {A} (P : A → Prop) `{∀ x, Decision (P x)} l :
  length (base.filter P l) = length l → base.filter P l = l.
Proof.
  intros E. apply filter_id, Forall_forall. intros x Hx. destruct (decide (P x)) as [|Hp]; [done|].
  pose proof (length_filter_lt P l x Hx Hp). lia.
Qed.

(** Restoring the manifest keeps, in their order, exactly the log and page
    files that are in the directory. *)
Theorem manifest_restore_spec `{Paths} dir f (m : Manifest.t) :
  Manifest.db_ok m = true →
  Manifest.restore dir f m =
  Ok (Manifest.mk true
        (base.filter (fun p => path_exists (append_path dir p) f = true) (Manifest.pages m))
        (base.filter (fun d => path_exists (append_path dir (Manifest.fname d)) f = true)
           (Manifest.wal m))
        (Manifest.format m)).
Proof.
  intros Hm. unfold Manifest.restore, Manifest.wal_list, Manifest.prepare. rewrite Hm, !bind_Ok.
  set (ws := base.filter _ (Manifest.wal m)).
  set (m1 := Manifest.set_wal ws m).
  match goal with |- (?a ≫= _) = _ => assert (a = Ok m1) as -> end.
  { destruct (Nat.eqb_spec (length ws) (length (Manifest.wal m))) as [E|E]; cbn [negb].
    - apply filter_all_length in E. fold ws in E. unfold m1. rewrite E. by destruct m.
    - unfold Manifest.clear_field_values, Manifest.prepare. rewrite Hm, !bind_Ok.
      by rewrite wal_append_all by done. }
  rewrite bind_Ok. unfold Manifest.page_list, Manifest.prepare.
  change (Manifest.db_ok m1) with (Manifest.db_ok m). rewrite Hm, !bind_Ok.
  change (Manifest.pages m1) with (Manifest.pages m). set (ps := base.filter _ (Manifest.pages m)).
  destruct (Nat.eqb_spec (length ps) (length (Manifest.pages m))) as [E|E]; cbn [negb].
  - apply filter_all_length in E. fold ps in E. unfold m1. rewrite E, <- Hm. done.
  - unfold Manifest.clear_field_values, Manifest.prepare.
    change (Manifest.db_ok m1) with (Manifest.db_ok m). rewrite Hm, !bind_Ok.
    rewrite page_append_all by done. unfold m1. rewrite <- Hm. done.
Qed.

Lemma manifest_restore_spec_witness :
  let f := mkFs {["raw/1.wal" := []]} ∅ (fun _ => true) in
  let m := Manifest.mk true ["2.page"] [Manifest.mkDescr "1.wal" 7; Manifest.mkDescr "3.wal" 8] None in
  Manifest.restore "raw" f m =
  Ok (Manifest.mk true [] [Manifest.mkDescr "1.wal" 7] None).
Proof. intros f m. rewrite (manifest_restore_spec "raw" f m eq_refl). vm_compute. reflexivity. Defined.
