(* ===== verification/Options.v ===== *)
(** * Settings: the options and their file

    [engines/strategy.cpp] and [storage/settings.cpp]: the options of a storage, the
    text of their values, and the file of options in the directory of the storage.
    The text of a value is read as [std::istream] reads it.  The JSON library and
    the decimal text of a [float] are parameters. *)

From Stdlib Require Import ZArith Lia Ascii String Floats.SpecFloat.
From stdpp Require Import base numbers list gmap strings.
From S2P Require Import Prelude ThreadPool Float64 Meas Scheme Settings Files.

Local Open Scope Z_scope.

(** ** Text *)

(** [isspace] of the C locale *)
Definition is_space (c : ascii) : bool :=
  let n := nat_of_ascii c in (n =? 32)%nat || ((9 <=? n)%nat && (n <=? 13)%nat).

Definition digit_of (c : ascii) : option Z :=
  let n := Z.of_nat (nat_of_ascii c) in
  if (48 <=? n) && (n <=? 57) then Some (n - 48) else None.

Fixpoint skip_spaces (s : string) : string :=
  match s with
  | EmptyString => EmptyString
  | String c s' => if is_space c then skip_spaces s' else s
  end.

(** The digits at the start of a text; [None] when there are none. *)
Fixpoint read_digits (acc : option Z) (s : string) : option Z :=
  match s with
  | EmptyString => acc
  | String c s =>
    match digit_of c with
    | Some d => read_digits (Some (10 * default 0 acc + d)) s
    | None => acc
    end
  end.

(** The sign and the magnitude of a number. *)
Definition read_number (s : string) : bool * option Z :=
  match s with
  | String "-" s => (true, read_digits None s)
  | String "+" s => (false, read_digits None s)
  | _ => (false, read_digits None s)
  end.

(** [iss >> value] for an unsigned integer of [w] bits that was [old]: nothing but
    spaces leaves the value, no digits make it zero, and a number that is too big
    the largest. *)
Definition read_unsigned (w old : Z) (s : string) : Z :=
  match skip_spaces s with
  | EmptyString => old
  | s =>
    match read_number s with
    | (_, None) => 0
    | (neg, Some n) =>
      if 2 ^ w <=? n then 2 ^ w - 1 else if neg : bool then wrap w (- n) else n
    end
  end.

(** [iss >> value] for a [bool]: any number but zero is true. *)
Definition read_bool (old : bool) (s : string) : bool :=
  match skip_spaces s with
  | EmptyString => old
  | s => match read_number s with (_, None) => false | (_, Some n) => negb (n =? 0) end
  end.

(** [std::stoi] *)
Definition stoi (s : string) : outcome Z :=
  match read_number (skip_spaces s) with
  | (_, None) => Throw
  | (neg, Some n) =>
    let n := if neg : bool then - n else n in
    if (- 2 ^ 31 <=? n) && (n <? 2 ^ 31) then Ok n else Throw
  end.

Definition digit_char (d : Z) : ascii := ascii_of_nat (Z.to_nat (48 + d)).

(** [std::to_string] of a number that is not negative; [fuel] bounds its digits. *)
Fixpoint print_digits (fuel : nat) (n : Z) (rest : string) : string :=
  match fuel with
  | O => rest
  | S fuel =>
    let rest := String (digit_char (n mod 10)) rest in
    if n <? 10 then rest else print_digits fuel (n / 10) rest
  end.

Definition to_string (n : Z) : string := print_digits (S (Z.to_nat (Z.log2 n))) n "".

Definition bool_to_string (b : bool) : string := to_string (if b then 1 else 0).

(** [to_upper] of the C locale *)
Definition to_upper_char (c : ascii) : ascii :=
  let n := nat_of_ascii c in
  if (97 <=? n)%nat && (n <=? 122)%nat then ascii_of_nat (n - 32) else c.

Fixpoint to_upper (s : string) : string :=
  match s with
  | EmptyString => EmptyString
  | String c s => String (to_upper_char c) (to_upper s)
  end.

(** [in >> token] *)
Fixpoint until_space (s : string) : string :=
  match s with
  | EmptyString => EmptyString
  | String c s => if is_space c then EmptyString else String c (until_space s)
  end.

(** [tokens]: the words of a text, with fuel for its length. *)
Fixpoint tokens_loop (fuel : nat) (s : string) : list string :=
  match fuel, skip_spaces s with
  | O, _ | _, EmptyString => []
  | S fuel, s =>
    let w := until_space s in
    w :: tokens_loop fuel (String.substring (String.length w) (String.length s - String.length w) s)
  end.
Definition tokens (s : string) : list string := tokens_loop (String.length s) s.

Definition read_strategy (s : string) : outcome STRATEGY :=
  let token := to_upper (until_space (skip_spaces s)) in
  if String.eqb token "WAL" then Ok WAL
  else if String.eqb token "COMPRESSED" then Ok COMPRESSED
  else if String.eqb token "MEMORY" then Ok MEMORY
  else if String.eqb token "CACHE" then Ok CACHE
  else if String.eqb token "SHARD" then Ok SHARD
  else Throw.

Definition strategy_to_string (x : STRATEGY) : string :=
  match x with
  | COMPRESSED => "COMPRESSED"
  | WAL => "WAL"
  | MEMORY => "MEMORY"
  | CACHE => "CACHE"
  | SHARD => "SHARD"
  end.

(** ** Options *)

(** [std::to_string(float)] and [iss >> value] for a [float] that was given. *)
Class FloatText := {
  float_to_string : spec_float → string;
  read_float : spec_float → string → spec_float;
}.

(** The JSON library: an object of texts, [None] for a value that is none. *)
Class Json := {
  json_dump : gmap string (option string) → list Z;
  json_parse : list Z → option (gmap string (option string));
  (** line ends are only between the tokens *)
  parse_dump : ∀ js, json_parse (base.filter (fun b => b ≠ 10) (json_dump js)) = Some js;
}.

(** [read_file] of [utils/fs.cpp]: the lines, one after the other, without their ends. *)
Definition read_file (fname : string) (f : fs) : outcome (list Z) :=
  match fs_files f !! fname with
  | None => Throw
  | Some bs => Ok (base.filter (fun b => b ≠ 10) bs)
  end.

Definition SETTINGS_FILE_NAME : string := "Settings".
Definition MEMORY_ONLY_PATH : string := "::memory_only::".

(** A measurement has 24 bytes. *)
Definition WAL_CACHE_SIZE : Z := 4096 / 24 * 10.
Definition WAL_FILE_SIZE : Z := 1024 * 1024 * 4 / 24.
Definition CHUNK_SIZE : Z := 1024.
Definition MAX_CHUNKS_PER_PAGE : Z := 10 * 1024.
Definition MAXIMUM_MEMORY_LIMIT : Z := 100 * 1024 * 1024.
Definition THREADS_COMMON : Z := 2.
Definition THREADS_DISKIO : Z := 1.

(** [float(0.75)], [float(0.1)] and [float(0.15)] *)
Definition f075 : spec_float := S754_finite false 12582912 (-24).
Definition f010 : spec_float := S754_finite false 13421773 (-27).
Definition f015 : spec_float := S754_finite false 10066330 (-26).

Module Settings.

(** The options in the order of their declaration; those by interval, and the
    strategy, are in [intervals]. *)
Record t := mk {
  storage_path : string;
  raw_path : string;
  wal_file_size : Z;
  wal_cache_size : Z;
  max_chunks_per_page : Z;
  chunk_size : Z;
  memory_limit : Z;
  percent_when_start_droping : spec_float;
  percent_to_drop : spec_float;
  max_pages_in_level : Z;
  threads_in_common : Z;
  threads_in_diskio : Z;
  raw_is_memonly : bool;
  intervals : IntervalSettings;
  load_min_max : bool;
  is_memory_only_mode : bool;
}.

(** The values of the options. *)
Inductive value := VNum (w n : Z) | VBool (b : bool) | VStrategy (x : STRATEGY) | VFloat (f : spec_float).

Section Options.
Context `{FloatText}.

Definition value_str (v : value) : string :=
  match v with
  | VNum _ n => to_string n
  | VBool b => bool_to_string b
  | VStrategy x => strategy_to_string x
  | VFloat f => float_to_string f
  end.

Definition from_string (v : value) (s : string) : outcome value :=
  match v with
  | VNum w n => Ok (VNum w (read_unsigned w n s))
  | VBool b => Ok (VBool (read_bool b s))
  | VStrategy _ => x ← read_strategy s; Ok (VStrategy x)
  | VFloat f => Ok (VFloat (read_float f s))
  end.

(** [_all_options], by key. *)
Definition options (s : t) : list (string * value) :=
  let i := intervals s in
  [("wal_file_size", VNum 64 (wal_file_size s));
   ("wal_cache_size", VNum 64 (wal_cache_size s));
   ("chunks_per_page", VNum 64 (max_chunks_per_page s));
   ("chunk_size", VNum 32 (chunk_size s));
   ("strategy", VStrategy (strategy i));
   ("memory_limit", VNum 32 (memory_limit s));
   ("percent_when_start_droping", VFloat (percent_when_start_droping s));
   ("percent_to_drop", VFloat (percent_to_drop s));
   ("max_pages_per_level", VNum 16 (max_pages_in_level s));
   ("threads_in_common", VNum 64 (threads_in_common s));
   ("threads_in_diskio", VNum 64 (threads_in_diskio s));
   ("lifetime_raw", VNum 64 (lifetime_raw i));
   ("lifetime_minute", VNum 64 (lifetime_minute i));
   ("lifetime_halfhour", VNum 64 (lifetime_halfhour i));
   ("lifetime_hour", VNum 64 (lifetime_hour i));
   ("lifetime_day", VNum 64 (lifetime_day i));
   ("lifetime_week", VNum 64 (lifetime_week i));
   ("lifetime_month", VNum 64 (lifetime_month i));
   ("raw_is_memonly", VBool (raw_is_memonly s));
   ("strategy_raw", VStrategy (strategy_raw i));
   ("strategy_minute", VStrategy (strategy_minute i));
   ("strategy_halfhour", VStrategy (strategy_halfhour i));
   ("strategy_hour", VStrategy (strategy_hour i));
   ("strategy_day", VStrategy (strategy_day i));
   ("strategy_week", VStrategy (strategy_week i));
   ("strategy_month", VStrategy (strategy_month i))].

(** The options written back. *)
Definition with_options (l : list (string * value)) (s : t) : t :=
  match snd <$> l with
  | [VNum _ a1; VNum _ a2; VNum _ a3; VNum _ a4; VStrategy a5; VNum _ a6; VFloat a7; VFloat a8; VNum _ a9;
     VNum _ a10; VNum _ a11; VNum _ l1; VNum _ l2; VNum _ l3; VNum _ l4; VNum _ l5; VNum _ l6; VNum _ l7;
     VBool a12; VStrategy s1; VStrategy s2; VStrategy s3; VStrategy s4; VStrategy s5; VStrategy s6;
     VStrategy s7] =>
    mk (storage_path s) (raw_path s) a1 a2 a3 a4 a6 a7 a8 a9 a10 a11 a12
      (mkIntervalSettings l1 l2 l3 l4 l5 l6 l7 s1 s2 s3 s4 s5 s6 s7 a5) (load_min_max s)
      (is_memory_only_mode s)
  | _ => s
  end.

(** The members before the file is read. *)
Definition defaults `{Paths} (path_to_storage : string) : t :=
  mk path_to_storage (append_path path_to_storage "raw") WAL_FILE_SIZE WAL_CACHE_SIZE
    MAX_CHUNKS_PER_PAGE CHUNK_SIZE MAXIMUM_MEMORY_LIMIT f075 f010 2 THREADS_COMMON THREADS_DISKIO false
    default_IntervalSettings true false.

Definition setStrategy (x : STRATEGY) (s : t) : t :=
  let i := intervals s in
  mk (storage_path s) (raw_path s) (wal_file_size s) (wal_cache_size s) (max_chunks_per_page s) (chunk_size s)
    (memory_limit s) (percent_when_start_droping s) (percent_to_drop s) (max_pages_in_level s)
    (threads_in_common s) (threads_in_diskio s) (raw_is_memonly s)
    (mkIntervalSettings (lifetime_raw i) (lifetime_minute i) (lifetime_halfhour i) (lifetime_hour i)
      (lifetime_day i) (lifetime_week i) (lifetime_month i) (strategy_raw i) (strategy_minute i)
      (strategy_halfhour i) (strategy_hour i) (strategy_day i) (strategy_week i) (strategy_month i) x)
    (load_min_max s) (is_memory_only_mode s).

Definition set_default (s : t) : t :=
  setStrategy COMPRESSED
    (mk (storage_path s) (raw_path s) WAL_FILE_SIZE WAL_CACHE_SIZE (max_chunks_per_page s) CHUNK_SIZE
       MAXIMUM_MEMORY_LIMIT f075 f015 (max_pages_in_level s) (threads_in_common s) (threads_in_diskio s)
       (raw_is_memonly s) (intervals s) (load_min_max s) (is_memory_only_mode s)).

Definition thread_pools_params (s : t) : list (nat * THREAD_KINDS) :=
  [(Z.to_nat (threads_in_common s), COMMON); (Z.to_nat (threads_in_diskio s), DISK_IO)].

(** ** The file *)

Definition settings_file_path `{Paths} (path : string) : string := append_path path SETTINGS_FILE_NAME.

Definition save_to `{Json} (file : string) (s : t) (f : fs) : outcome fs :=
  let js := list_to_map ((fun o => (o.1, Some (value_str o.2))) <$> options s) in
  if fs_writable f file then Ok (mkFs (<[file := json_dump js]> (fs_files f)) (fs_dirs f) (fs_writable f))
  else Throw.

Definition save `{Paths} `{Json} (s : t) (f : fs) : outcome fs :=
  if String.eqb (storage_path s) MEMORY_ONLY_PATH then Ok f
  else save_to (settings_file_path (storage_path s)) s f.

(** One turn of the loop of [load]. *)
Definition load_option (js : gmap string (option string)) (o : string * value) : outcome (string * value) :=
  match js !! o.1 with
  | None => Ok o
  | Some None => Throw
  | Some (Some str_val) => v ← from_string o.2 str_val; Ok (o.1, v)
  end.

Definition load `{Json} (file : string) (s : t) (f : fs) : outcome t :=
  if String.eqb (storage_path s) MEMORY_ONLY_PATH then Ok s
  else
    content ← read_file file f;
    match json_parse content with
    | None => Throw
    | Some js =>
      l ← foldM (fun l o => o ← load_option js o; Ok (l ++ [o])) (options s) [];
      Ok (with_options l s)
    end.

(** The constructor. *)
Definition create `{Paths} `{Json} (path_to_storage : string) (f : fs) : outcome (t * fs) :=
  let s := defaults path_to_storage in
  if String.eqb path_to_storage MEMORY_ONLY_PATH then Ok (s, f)
  else
    let file := settings_file_path path_to_storage in
    if path_exists file f then s ← load file s f; Ok (s, f)
    else
      f ← save s (mkdir (raw_path s) (mkdir (storage_path s) f));
      Ok (s, f).

(** [create()], for a storage in memory. *)
Definition create_memory_only `{Paths} : t :=
  let s := setStrategy MEMORY (defaults MEMORY_ONLY_PATH) in
  mk (storage_path s) (raw_path s) (wal_file_size s) (wal_cache_size s) (max_chunks_per_page s) (chunk_size s)
    (memory_limit s) (percent_when_start_droping s) (percent_to_drop s) (max_pages_in_level s)
    (threads_in_common s) (threads_in_diskio s) (raw_is_memonly s) (intervals s) (load_min_max s) true.

Definition dump `{Paths} `{Json} (s : t) (f : fs) : outcome (list Z) :=
  content ← read_file (settings_file_path (storage_path s)) f;
  match json_parse content with
  | None => Throw
  | Some js => Ok (json_dump js ++ [10])
  end.

(** An unknown name is only reported. *)
Definition change (expression : string) (s : t) : outcome t :=
  match split expression "="%char with
  | [n; v] =>
    l ← foldM (fun l o =>
      if String.eqb o.1 n then x ← from_string o.2 v; Ok (l ++ [(o.1, x)]) else Ok (l ++ [o])) (options s) [];
    Ok (with_options l s)
  | _ => Throw
  end.

End Options.
End Settings.

(** ** The environment of the managers *)

Module EngineEnvironment.

Inductive Resource := SETTINGS | MANIFEST.
#[export] Instance Resource_eq_dec : EqDecision Resource.
Proof. solve_decision. Defined.

(** [_resource_map], whose values are pointers *)
Definition t (P : Type) := Resource → option P.

Definition create {P} : t P := fun _ => None.
Definition addResource {P} (res : Resource) (ptr : P) (env : t P) : t P :=
  fun r => if decide (r = res) then Some ptr else env r.
Definition getResourcePtr {P} (res : Resource) (env : t P) : outcome P :=
  match env res with None => Throw | Some ptr => Ok ptr end.

End EngineEnvironment.

(** ** The text of values *)

Lemma ten_digits d : 0 <= d < 10 →
  d = 0 ∨ d = 1 ∨ d = 2 ∨ d = 3 ∨ d = 4 ∨ d = 5 ∨ d = 6 ∨ d = 7 ∨ d = 8 ∨ d = 9.
Proof. lia. Qed.

Lemma digit_of_char d : 0 <= d < 10 → digit_of (digit_char d) = Some d.
Proof.
  intros Hd. apply ten_digits in Hd. destruct_or! Hd; by subst.
Qed.

(** The printed digits are read back, whatever was read before them. *)
Lemma read_print fuel n rest : 0 <= n < 10 ^ Z.of_nat fuel → (0 < fuel)%nat →
  ∃ k, 0 <= k ∧ ∀ acc, read_digits acc (print_digits fuel n rest) =
                       read_digits (Some (default 0 acc * 10 ^ k + n)) rest.
Proof.
  revert n rest. induction fuel as [|fuel IH]; intros n rest Hn Hf; [lia|]. cbn [print_digits].
  pose proof (Z.mod_pos_bound n 10 ltac:(lia)) as Hm. pose proof (Z.div_mod n 10 ltac:(lia)) as Ed.
  destruct (Z.ltb_spec n 10) as [Hs|Hs].
  - exists 1. split; [lia|]. intros acc. cbn [read_digits]. rewrite digit_of_char by lia. do 2 f_equal.
    rewrite Z.mod_small by lia. lia.
  - rewrite Nat2Z.inj_succ, Z.pow_succ_r in Hn by lia.
    assert (0 < n / 10 < 10 ^ Z.of_nat fuel) by (split; [apply Z.div_str_pos|apply Z.div_lt_upper_bound]; lia).
    destruct (IH (n / 10) (String (digit_char (n mod 10)) rest)) as (k & Hk0 & Hk); [lia|destruct fuel; cbn in *; lia|].
    exists (k + 1). split; [lia|]. intros acc. rewrite Hk. cbn [read_digits]. rewrite digit_of_char by lia. cbn [default].
    unfold Datatypes.id. do 2 f_equal. rewrite Z.pow_add_r, Z.pow_1_r by lia. rewrite Ed at 3. ring.
Qed.

Lemma print_first fuel n rest : 0 <= n → (0 < fuel)%nat →
  ∃ d r, 0 <= d < 10 ∧ print_digits fuel n rest = String (digit_char d) r.
Proof.
  revert n rest. induction fuel as [|fuel IH]; intros n rest Hn Hf; [lia|]. cbn [print_digits].
  pose proof (Z.mod_pos_bound n 10 ltac:(lia)). destruct (n <? 10); [by eexists _, _|].
  destruct fuel as [|fuel]; [by eexists _, _|]. apply IH; [|lia]. apply Z.div_pos; lia.
Qed.

Lemma digit_starts d s : 0 <= d < 10 →
  skip_spaces (String (digit_char d) s) = String (digit_char d) s ∧
  read_number (String (digit_char d) s) = (false, read_digits None (String (digit_char d) s)).
Proof.
  intros Hd. apply ten_digits in Hd. destruct_or! Hd; by subst.
Qed.

Lemma read_to_string n : 0 <= n →
  (∃ d s, to_string n = String d s) ∧ skip_spaces (to_string n) = to_string n ∧
  read_number (to_string n) = (false, Some n).
Proof.
  intros Hn. unfold to_string.
  destruct (print_first (S (Z.to_nat (Z.log2 n))) n "" Hn ltac:(lia)) as (d & r & Hd & E).
  destruct (digit_starts d r Hd) as [Es En]. rewrite <- E in Es, En.
  split; [rewrite E; by eexists _, _|]. split; [done|]. rewrite En. f_equal.
  destruct (read_print (S (Z.to_nat (Z.log2 n))) n "") as (k & Hk & ->); [|lia|done]. split; [done|].
  destruct (Z.eq_dec n 0) as [->|]; [done|]. pose proof (Z.log2_spec n ltac:(lia)). pose proof (Z.log2_nonneg n).
  assert (2 ^ Z.succ (Z.log2 n) <= 10 ^ Z.succ (Z.log2 n)) by (apply Z.pow_le_mono_l; lia).
  rewrite Nat2Z.inj_succ, Z2Nat.id by lia. lia.
Qed.

Lemma read_unsigned_string w old n : 0 <= n < 2 ^ w → read_unsigned w old (to_string n) = n.
Proof.
  intros Hn. destruct (read_to_string n ltac:(lia)) as ((d & s & E) & Es & En).
  unfold read_unsigned. rewrite Es, E, <- E, En. by rewrite (proj2 (Z.leb_gt _ _)) by lia.
Qed.

Lemma stoi_string n : 0 <= n < 2 ^ 31 → stoi (to_string n) = Ok n.
Proof.
  intros Hn. destruct (read_to_string n ltac:(lia)) as (_ & Es & En). unfold stoi. rewrite Es, En.
  by rewrite (proj2 (Z.leb_le _ _)), (proj2 (Z.ltb_lt _ _)) by lia.
Qed.

Lemma read_bool_string old b : read_bool old (bool_to_string b) = b.
Proof. by destruct b. Qed.

Lemma read_strategy_string x : read_strategy (strategy_to_string x) = Ok x.
Proof. by destruct x. Qed.

(** ** The round trip *)

Section RoundTrip.
Context `{FloatText} `{Paths} `{Json}.
Import Settings.

(** A value whose text has all of it. *)
Definition printable (v : value) : Prop :=
  match v with
  | VNum w n => 0 <= n < 2 ^ w
  | VFloat x => ∀ old, read_float old (float_to_string x) = x
  | _ => True
  end.

Definition same_kind (v v' : value) : Prop :=
  match v, v' with
  | VNum w _, VNum w' _ => w = w'
  | VBool _, VBool _ | VStrategy _, VStrategy _ | VFloat _, VFloat _ => True
  | _, _ => False
  end.

Lemma from_string_value v0 v : same_kind v0 v → printable v → from_string v0 (value_str v) = Ok v.
Proof.
  destruct v0, v; intros Hk Hv; try done; cbn [same_kind printable from_string value_str] in *.
  - subst. by rewrite read_unsigned_string.
  - by rewrite read_bool_string.
  - by rewrite read_strategy_string.
  - by rewrite Hv.
Qed.

Definition same_option (o o' : string * value) : Prop := o.1 = o'.1 ∧ same_kind o.2 o'.2.

Lemma options_same s s' : Forall2 same_option (options s) (options s').
Proof. repeat constructor. Qed.

Lemma options_keys s : NoDup (options s).*1.
Proof. apply (bool_decide_unpack _). by vm_compute. Qed.

Lemma load_options js l0 l acc : Forall2 same_option l0 l → Forall (fun o => printable o.2) l →
  Forall (fun o => js !! o.1 = Some (Some (value_str o.2))) l →
  foldM (fun l o => o ← load_option js o; Ok (l ++ [o])) l0 acc = Ok (acc ++ l).
Proof.
  intros Hs. revert acc. induction Hs as [|[k v0] [k' v] l0 l [E Hk] Hs IH]; intros acc Hp Hj; cbn [foldM].
  { by rewrite app_nil_r. }
  cbn in E. subst k'. apply Forall_cons in Hp as [Hv Hp], Hj as [Hjv Hj]. unfold load_option at 2.
  cbn [fst snd] in *. rewrite Hjv, (from_string_value v0 v Hk Hv), !bind_Ok, IH by done.
  by rewrite <- (assoc_L (++)).
Qed.

Lemma with_options_all s s0 : storage_path s0 = storage_path s → raw_path s0 = raw_path s →
  load_min_max s0 = load_min_max s → is_memory_only_mode s0 = is_memory_only_mode s →
  with_options (options s) s0 = s.
Proof. intros E1 E2 E3 E4. unfold with_options. cbn. rewrite E1, E2, E3, E4. destruct s as [? ? ? ? ? ? ? ? ? ? ? ? ? []]. done. Qed.

(** Settings as the constructor makes them. *)
Record stored (s : t) : Prop := {
  sd_path : storage_path s ≠ MEMORY_ONLY_PATH;
  sd_raw : raw_path s = append_path (storage_path s) "raw";
  sd_load : load_min_max s = true;
  sd_disk : is_memory_only_mode s = false;
  sd_values : Forall (fun o => printable o.2) (options s);
}.
End RoundTrip.

(** C37: options survive the restart of a storage.  Whatever values they have been
    given, when [save] has written the file, settings created for the same path are
    the saved ones; numbers and strategies always come back, the two fractions when
    their decimal text has all of them. *)
Theorem settings_roundtrip `{FloatText} `{Paths} `{Json} s f f' :
  stored s → Settings.save s f = Ok f' → Settings.create (Settings.storage_path s) f' = Ok (s, f').
Proof.
  intros [S1 S2 S3 S4 S5]. unfold Settings.save, Settings.save_to, Settings.create.
  rewrite (proj2 (String.eqb_neq _ _) S1). set (file := Settings.settings_file_path _).
  destruct (fs_writable f file); [|done]. set (js := list_to_map _). intros [= <-].
  assert (path_exists file (mkFs (<[file := json_dump js]> (fs_files f)) (fs_dirs f) (fs_writable f)) = true) as ->.
  { unfold path_exists. cbn [fs_files]. rewrite lookup_insert_eq. by rewrite bool_decide_true by by eexists. }
  unfold Settings.load. cbn [Settings.defaults Settings.storage_path].
  rewrite (proj2 (String.eqb_neq _ _) S1). unfold read_file. cbn [fs_files].
  rewrite lookup_insert_eq, bind_Ok, parse_dump.
  rewrite (load_options js _ (Settings.options s) []); [|apply options_same|done|].
  - rewrite !bind_Ok. cbn [app]. by rewrite (with_options_all s) by done.
  - apply Forall_forall. intros [k v] Ho. unfold js. apply elem_of_list_to_map.
    + rewrite <- list_fmap_compose. apply options_keys.
    + apply (list_elem_of_fmap_2 (fun o => (o.1, Some (Settings.value_str o.2))) _ _ Ho).
Qed.

(** The text of the two fractions the constructor gives. *)
#[local] Instance small_float_text : FloatText := {
  float_to_string x := match x with S754_finite _ 12582912 _ => "0.750000" | _ => "0.100000" end;
  read_float old s := if String.eqb s "0.750000" then f075 else if String.eqb s "0.100000" then f010 else old;
}.

(** An object as one number. *)
#[local] Instance number_json : Json.
Proof.
  refine {| json_dump js := [Z.pos (encode js) + 10];
            json_parse bs := match bs with [z] => decode (Z.to_pos (z - 10)) | _ => None end |}.
  intros js. rewrite filter_cons, decide_True, filter_nil by lia. cbn [fst]. rewrite Z.add_simpl_r.
  rewrite Pos2Z.id. apply decode_encode.
Defined.

Definition small_options : Settings.t := Settings.setStrategy CACHE (Settings.defaults "db").

Lemma settings_roundtrip_witness : ∃ f', Settings.save small_options (mkFs ∅ ∅ (fun _ => true)) = Ok f' ∧
  Settings.create "db" f' = Ok (small_options, f').
Proof.
  refine (ex_intro _ _ (conj eq_refl _)).
  refine (settings_roundtrip small_options (mkFs ∅ ∅ (fun _ => true)) _ _ eq_refl).
  split; [done..|]. repeat constructor; vm_compute; congruence.
Defined.
