(* ===== verification/WalFile.v ===== *)
(** * Write-ahead log: one file

    [storage/wal/walfile.cpp]: measurements are written to the end of a file as
    the bytes of the packed structure, 24 per measurement, and read back all at
    once for every query.  An object keeps the number of measurements written,
    the handle of the file and the filter of its identifiers. *)

From Stdlib Require Import ZArith Lia String Sorting.Sorted.
From stdpp Require Import base numbers list gmap strings.
From S2P Require Import Prelude Float64 Meas Bloom Stat StdSort ICursor FullCursor KMerge.
From S2P Require Import StripedMap TimeTrack Storages Settings Files.

Local Open Scope Z_scope.

(** ** Measurements as bytes *)

(** The packed structure on a little-endian machine. *)
Definition Meas_bytes (m : Meas) : list Z :=
  to_le 4 (id m) ++ to_le 8 (time m) ++ to_le 8 (value m) ++ to_le 4 (flag m).

Definition Meas_of_bytes (bs : list Z) : Meas :=
  mkMeas (of_le (take 4 bs)) (of_le (take 8 (drop 4 bs)))
         (of_le (take 8 (drop 12 bs))) (of_le (take 4 (drop 20 bs))).

(** [fread(p, sizeof(Meas), n, file)] from the start: the whole records. *)
Fixpoint fread_Meas (n : nat) (bs : list Z) : list Meas :=
  match n with
  | O => []
  | S n =>
    if (length bs <? 24)%nat then []
    else Meas_of_bytes (take 24 bs) :: fread_Meas n (drop 24 bs)
  end.

(** The settings the log reads. *)
Record WalSettings := mkWalSettings {
  raw_path : string;
  wal_file_size : Z;
  wal_cache_size : Z;
  wal_strategy : STRATEGY;
}.

Definition WAL_FILE_EXT : string := ".wal".

Module WALFile.

Inductive mode := ab | rb.

Record t := mk {
  _filename : string;
  _is_readonly : bool;
  _writed : Z;
  _file : option mode;
  _idBloom : Z;
  _minTime : Z;
  _maxTime : Z;
}.

Definition set_file (h : option mode) (w : t) : t :=
  mk (_filename w) (_is_readonly w) (_writed w) h (_idBloom w) (_minTime w) (_maxTime w).
Definition set_bloom (b : Z) (w : t) : t :=
  mk (_filename w) (_is_readonly w) (_writed w) (_file w) b (_minTime w) (_maxTime w).

(** The static [writed]: an absent file has size -1, which is converted to an
    unsigned number by the division. *)
Definition writed_of (fname : string) (e : env) : Z := u64 (tellg_end fname (e_fs e)) / 24.

(** The two constructors. *)
Definition create `{Paths, FileNames} (st : WalSettings) (i : Z) (e : env) : outcome (t * env) :=
  let '(rnd_fname, e) := next_file_name WAL_FILE_EXT e in
  m ← Manifest.wal_append rnd_fname i (e_manifest e);
  Ok (mk (append_path (raw_path st) rnd_fname) false 0 None bloom_empty MAX_TIME MIN_TIME,
      set_manifest m e).

Definition open (fname : string) (readonly : bool) (e : env) : t :=
  mk fname readonly (writed_of fname e) None MIN_ID MAX_TIME MIN_TIME.

Definition close (w : t) : t := set_file None w.

Definition open_to_append (w : t) (e : env) : outcome (t * env) :=
  match _file w with
  | Some _ => Ok (w, e)
  | None =>
    match fopen_ab (_filename w) (e_fs e) with
    | None => Throw
    | Some f => Ok (set_file (Some ab) w, set_fs f e)
    end
  end.

Definition open_to_read (w : t) (e : env) : outcome (t * list Z) :=
  match fopen_rb (_filename w) (e_fs e) with
  | None => Throw
  | Some bs => Ok (set_file (Some rb) w, bs)
  end.

(** [fwrite] to the handle; nothing is written to a file opened for reading. *)
Definition fwrite (bs : list Z) (w : t) (e : env) : env :=
  match _file w with
  | Some ab => set_fs (fwrite_ab (_filename w) bs (e_fs e)) e
  | _ => e
  end.

(** What [append] notes of a measurement. *)
Definition note (w : t) (v : Meas) : t :=
  mk (_filename w) (_is_readonly w) (_writed w) (_file w) (bloom_add (_idBloom w) (id v))
     (Z.min (_minTime w) (time v)) (Z.max (_maxTime w) (time v)).

Definition add_writed (n : Z) (w : t) : t :=
  mk (_filename w) (_is_readonly w) (u64 (_writed w + n)) (_file w) (_idBloom w)
     (_minTime w) (_maxTime w).

Definition append (st : WalSettings) (v : Meas) (w : t) (e : env) : outcome (Status * t * env) :=
  if wal_file_size st <? _writed w then Ok (Status_error 1 wal_file_limit, w, e)
  else
    '(w, e) ← open_to_append w e;
    let e := fwrite (Meas_bytes v) w e in
    Ok (Status_writed 1, close (add_writed 1 (note w v)), e).

(** [append(begin, end)]; [fwrite] of more measurements than the range has reads
    past its end. *)
Definition append_range (st : WalSettings) (ms : list Meas) (w : t) (e : env)
  : outcome (Status * t * env) :=
  let sz := Z.of_nat (length ms) in
  '(w, e) ← open_to_append w e;
  let max_size := wal_file_size st in
  let write_size := if max_size <? u64 (sz + _writed w) then u64 (max_size - _writed w) else sz in
  if write_size =? 0 then Ok (mkStatus (Some 0) sz wal_file_limit, w, e)
  else if sz <? write_size then UB
  else
    let vs := take (Z.to_nat write_size) ms in
    let e := fwrite (concat (Meas_bytes <$> vs)) w e in
    Ok (Status_writed write_size, close (add_writed write_size (fold_left note vs w)), e).

Definition readAll (w : t) (e : env) : outcome (list Meas * t) :=
  '(w, bs) ← open_to_read w e;
  let ma := fread_Meas (Z.to_nat (_writed w)) bs in
  if Z.of_nat (length ma) <? _writed w then Throw else Ok (ma, close w).

Definition stat (i from to : Z) (w : t) (e : env) : outcome (Statistic * t) :=
  '(all, w) ← readAll w e;
  Ok (fold_left (fun result val =>
        if inQueryInterval [i] 0 from to val then update val result else result)
        all Statistic_empty, w).

(** The measurements of a query by identifier, each set ordered by time. *)
Definition select (q : QueryInterval) (subresult : gmap Z (list Meas)) (val : Meas)
  : gmap Z (list Meas) :=
  if inQueryInterval (qi_ids q) (qi_flag q) (qi_from q) (qi_to q) val
  then <[id val := mset_insert val (um_at [] (id val) subresult)]> subresult
  else subresult.

Definition intervalReader `{StdSort} (q : QueryInterval) (w : t) (e : env)
  : outcome (gmap Z FullCursor.t * t) :=
  '(all, w) ← readAll w e;
  let subresult := fold_left (select q) all ∅ in
  Ok ((fun ma => FullCursor.make (std_sort time ma)) <$> subresult, w).

Definition foreach `{StdSort, UnorderedMap} {K} `{IReadCallback K} (q : QueryInterval) (clbk : K)
    (w : t) (e : env) : outcome (K * t) :=
  '(readers, w) ← intervalReader q w e;
  clbk ← foldM (fun clbk kv =>
    '(clbk, _) ← ICursor.apply (S (Z.to_nat (cursor_count kv.2))) clbk kv.2;
    Ok clbk) (um_list readers) clbk;
  Ok (clbk, w).

(** [emplace] has no effect on a map that has the key. *)
Definition emplace (m : Meas) (s : gmap Z Meas) : gmap Z Meas :=
  match s !! id m with Some _ => s | None => <[id m := m]> s end.

Definition replace_if_older (s : gmap Z Meas) (m : Meas) : gmap Z Meas :=
  match s !! id m with
  | None => emplace m s
  | Some f => if time f <? time m then emplace m s else s
  end.

(** Identifiers that were asked for and not read get a mark. *)
Definition mark_missing (ids : list Z) (tm : Z) (readed : gset Z) (s : gmap Z Meas) : gmap Z Meas :=
  if negb (length ids =? 0)%nat && negb (size readed =? length ids)%nat then
    fold_left (fun s i => if bool_decide (i ∈ readed) then s
                          else <[i := mkMeas i tm 0 _NO_DATA]> s) ids s
  else s.

Definition readTimePoint (q : QueryTimePoint) (w : t) (e : env) : outcome (gmap Z Meas * t) :=
  '(all, w) ← readAll w e;
  let '(sub_res, readed) := fold_left (fun (p : gmap Z Meas * gset Z) val =>
    if inQuery (qt_ids q) (qt_flag q) val && (time val <=? qt_time_point q)
    then (replace_if_older p.1 val, {[id val]} ∪ p.2) else p) all (∅, ∅) in
  Ok (mark_missing (qt_ids q) (qt_time_point q) readed sub_res, w).

Definition currentValue (ids : list Z) (fl : Z) (w : t) (e : env) : outcome (gmap Z Meas * t) :=
  '(all, w) ← readAll w e;
  let '(sub_res, readed) := fold_left (fun (p : gmap Z Meas * gset Z) val =>
    if inFlag fl val && inIds ids val
    then (replace_if_older p.1 val, {[id val]} ∪ p.2) else p) all (∅, ∅) in
  Ok (mark_missing ids 0 readed sub_res, w).

Definition updateBloom (w : t) (e : env) : outcome t :=
  '(all, w) ← readAll (set_bloom bloom_empty w) e;
  Ok (set_bloom (fold_left (fun b v => bloom_add b (id v)) all (_idBloom w)) w).

Definition id_bloom (w : t) (e : env) : outcome (Z * t) :=
  w ← (if _idBloom w =? MIN_ID then updateBloom w e else Ok w);
  Ok (_idBloom w, w).

Definition minTime (w : t) (e : env) : outcome (Z * t) :=
  '(all, w) ← readAll w e; Ok (fold_left (fun r v => Z.min (time v) r) all MAX_TIME, w).
Definition maxTime (w : t) (e : env) : outcome (Z * t) :=
  '(all, w) ← readAll w e; Ok (fold_left (fun r v => Z.max (time v) r) all MIN_TIME, w).

Definition minMaxTime (i : Z) (w : t) (e : env) : outcome (bool * Z * Z * t) :=
  '(all, w) ← readAll w e;
  let '(result, mn, mx) := fold_left (fun (p : bool * Z * Z) val =>
    let '(result, mn, mx) := p in
    if id val =? i then (true, Z.min mn (time val), Z.max mx (time val)) else p)
    all (false, MAX_TIME, MIN_TIME) in
  Ok (result, mn, mx, w).

Definition loadMinMax (w : t) (e : env) : outcome (Id2MinMax * t) :=
  '(all, w) ← readAll w e;
  result ← foldM (fun result val =>
    StrippedMap.with_bucket MeasMinMax_default result (id val)
      (fun d => Ok (updateMin val (updateMax val d)))) all (StrippedMap.make 1000);
  Ok (result, w).

Definition id_from_first (w : t) (e : env) : outcome (Z * t) :=
  '(all, w) ← readAll w e;
  Ok (match all with [] => MAX_ID | m :: _ => id m end, w).

End WALFile.

(** ** Round trip of one measurement *)

Lemma length_Meas_bytes m : length (Meas_bytes m) = 24%nat.
Proof. unfold Meas_bytes. by rewrite !length_app, !length_to_le. Qed.

Lemma Meas_of_bytes_bytes m : meas_wf m → Meas_of_bytes (Meas_bytes m) = m.
Proof.
  intros (Hi & Ht & Hv & Hf). unfold Meas_of_bytes, Meas_bytes.
  set (a := to_le 4 (id m)). set (b := to_le 8 (time m)).
  set (c := to_le 8 (value m)). set (d := to_le 4 (flag m)).
  assert (length a = 4%nat ∧ length b = 8%nat ∧ length c = 8%nat ∧ length d = 4%nat)
    as (La & Lb & Lc & Ld) by (repeat split; apply length_to_le).
  replace (take 4 (a ++ b ++ c ++ d)) with a by (symmetry; by apply take_app_length').
  replace (drop 4 (a ++ b ++ c ++ d)) with (b ++ c ++ d) by (symmetry; by apply drop_app_length').
  replace (drop 12 (a ++ b ++ c ++ d)) with (c ++ d).
  2:{ symmetry. rewrite (assoc_L (++) a). apply drop_app_length'. by rewrite length_app, La, Lb. }
  replace (drop 20 (a ++ b ++ c ++ d)) with d.
  2:{ symmetry. rewrite (assoc_L (++) a), (assoc_L (++) (a ++ b)). apply drop_app_length'.
      by rewrite !length_app, La, Lb, Lc. }
  rewrite !take_app_length' by done. rewrite take_ge by lia.
  destruct m as [i t v f]. unfold a, b, c, d. cbn [id time value flag] in *.
  unfold is_id, is_time, is_value, is_flag in *.
  rewrite !of_to_le_small; [done|change (256 ^ Z.of_nat 4) with (2 ^ 32); done|..|
    change (256 ^ Z.of_nat 4) with (2 ^ 32); done];
    change (256 ^ Z.of_nat 8) with (2 ^ 64); done.
Qed.

Lemma length_bytes (l : list Meas) : length (concat (Meas_bytes <$> l)) = (24 * length l)%nat.
Proof.
  induction l as [|m l IH]; [done|]. cbn [fmap list_fmap concat length].
  rewrite length_app, length_Meas_bytes. change (list_fmap _ _ Meas_bytes l) with (Meas_bytes <$> l).
  rewrite IH. lia.
Qed.

Lemma fread_bytes l : Forall meas_wf l → fread_Meas (length l) (concat (Meas_bytes <$> l)) = l.
Proof.
  induction 1 as [|m l Hm Hl IH]; [done|]. cbn [length fread_Meas fmap list_fmap concat].
  change (list_fmap _ _ Meas_bytes l) with (Meas_bytes <$> l).
  rewrite (proj2 (Nat.ltb_ge _ _)) by (rewrite length_app, length_Meas_bytes; lia).
  rewrite take_app_length', drop_app_length' by (by rewrite length_Meas_bytes).
  by rewrite Meas_of_bytes_bytes, IH.
Qed.

(** ** What a file holds *)

(** The file is on disk. *)
Definition on_disk (w : WALFile.t) (e : env) : Prop :=
  is_Some (fs_files (e_fs e) !! WALFile._filename w).

Record holds (w : WALFile.t) (e : env) (l : list Meas) : Prop := {
  h_bytes : default [] (fs_files (e_fs e) !! WALFile._filename w) = concat (Meas_bytes <$> l);
  h_writed : WALFile._writed w = Z.of_nat (length l);
  h_wf : Forall meas_wf l;
  h_handle : WALFile._file w = None ∨ WALFile._file w = Some WALFile.ab ∧ on_disk w e;
}.

Lemma holds_on_disk w e l : holds w e l → l ≠ [] → on_disk w e.
Proof.
  intros H Hl. pose proof (h_bytes _ _ _ H) as Hb. unfold on_disk.
  destruct (fs_files (e_fs e) !! WALFile._filename w) as [bs|]; [by eexists|].
  apply (f_equal length) in Hb. rewrite length_bytes in Hb. destruct l as [|m l]; [done|].
  cbn in Hb. lia.
Qed.

Lemma readAll_holds w e l :
  holds w e l → on_disk w e → WALFile.readAll w e = Ok (l, WALFile.close w).
Proof.
  intros [Hb Hw Hwf Hh] [bs Hd]. unfold WALFile.readAll, WALFile.open_to_read, fopen_rb.
  rewrite Hd in *. cbn in Hb. rewrite bind_Ok. cbn [WALFile._writed WALFile.set_file].
  rewrite Hw, Nat2Z.id, Hb, fread_bytes by done. by rewrite Z.ltb_irrefl.
Qed.

(** A file that is opened again holds the same. *)
Lemma open_holds w e l ro :
  holds w e l → on_disk w e → 24 * Z.of_nat (length l) < 2 ^ 64 →
  holds (WALFile.open (WALFile._filename w) ro e) e l.
Proof.
  intros [Hb Hw Hwf Hh] [bs Hd] Hs. split; [done| |done|by left].
  cbn. unfold WALFile.writed_of, tellg_end. rewrite Hd in *. cbn in Hb. rewrite Hb, length_bytes.
  rewrite wrap_small by lia. rewrite Nat2Z.inj_mul. change (Z.of_nat 24) with 24.
  rewrite Z.mul_comm. by apply Z.div_mul.
Qed.

Lemma close_holds w e l : holds w e l → holds (WALFile.close w) e l.
Proof. intros [? ? ? ?]. by split; [..|left]. Qed.

(** ** Appending *)

Lemma open_to_append_ok w e l :
  holds w e l → fs_writable (e_fs e) (WALFile._filename w) = true →
  ∃ e', WALFile.open_to_append w e = Ok (WALFile.set_file (Some WALFile.ab) w, e') ∧
    frame (WALFile._filename w) e e' ∧ holds (WALFile.set_file (Some WALFile.ab) w) e' l ∧
    on_disk w e'.
Proof.
  intros H Hw. pose proof H as [Hb Hn Hwf Hh]. unfold WALFile.open_to_append.
  destruct Hh as [Hh|[Hh Hd]]; rewrite Hh.
  - unfold fopen_ab. rewrite Hw. eexists. split; [done|].
    assert (Hd : on_disk w (set_fs (mkFs (<[WALFile._filename w :=
      default [] (fs_files (e_fs e) !! WALFile._filename w)]> (fs_files (e_fs e)))
      (fs_dirs (e_fs e)) (fs_writable (e_fs e))) e)).
    { unfold on_disk. cbn. rewrite lookup_insert_eq. by eexists. }
    split_and!; [|split; [|done|done|by right]|done].
    + split; try done. intros g Hg. by apply lookup_insert_ne.
    + cbn. by rewrite lookup_insert_eq.
  - exists e. replace (WALFile.set_file (Some WALFile.ab) w) with w
      by (destruct w; cbn in *; by subst).
    by split_and!.
Qed.

(** Writing the bytes of [vs] to the open handle. *)
Lemma fwrite_holds w e l vs :
  holds w e l → WALFile._file w = Some WALFile.ab → on_disk w e → Forall meas_wf vs →
  Z.of_nat (length l + length vs) < 2 ^ 64 →
  let e' := WALFile.fwrite (concat (Meas_bytes <$> vs)) w e in
  frame (WALFile._filename w) e e' ∧
  ∀ w', WALFile._filename w' = WALFile._filename w → WALFile._file w' = None →
    WALFile._writed w' = u64 (WALFile._writed w + Z.of_nat (length vs)) →
    holds w' e' (l ++ vs) ∧ on_disk w' e'.
Proof.
  intros [Hb Hn Hwf Hh] Hf [bs Hd] Hvs Hs e'. unfold e', WALFile.fwrite, fwrite_ab.
  rewrite Hf, Hd in *. cbn in Hb. split.
  - split; try done. intros g Hg. by apply lookup_insert_ne.
  - intros w' Ew Hf' Hn'. unfold on_disk. cbn. rewrite Ew, lookup_insert_eq. split; [|by eexists].
    split; [|..|by apply Forall_app|by left]; cbn.
    + rewrite Ew, lookup_insert_eq. cbn. by rewrite Hb, fmap_app, concat_app.
    + rewrite Hn', Hn, <- Nat2Z.inj_add, length_app. by rewrite wrap_small by lia.
Qed.

Lemma append_holds st v w e l :
  holds w e l → fs_writable (e_fs e) (WALFile._filename w) = true → meas_wf v →
  Z.of_nat (length l) <= wal_file_size st < 2 ^ 64 - 1 →
  ∃ w' e', WALFile.append st v w e = Ok (Status_writed 1, w', e') ∧
    WALFile._filename w' = WALFile._filename w ∧ frame (WALFile._filename w) e e' ∧
    holds w' e' (l ++ [v]) ∧ on_disk w' e'.
Proof.
  intros H Hw Hv Hs. unfold WALFile.append. pose proof (h_writed _ _ _ H) as Hn.
  rewrite (proj2 (Z.ltb_ge _ _)) by lia.
  destruct (open_to_append_ok w e l H Hw) as (e1 & -> & F1 & H1 & D1). rewrite bind_Ok.
  destruct (fwrite_holds _ e1 l [v] H1 eq_refl D1) as [F2 H2]; [by constructor|cbn; lia|].
  cbn [concat fmap list_fmap] in F2, H2. rewrite app_nil_r in F2, H2.
  do 2 eexists. split; [done|]. split; [done|]. split; [by etrans|]. by apply H2.
Qed.

Lemma note_fold vs w :
  let w' := fold_left WALFile.note vs w in
  WALFile._filename w' = WALFile._filename w ∧ WALFile._writed w' = WALFile._writed w.
Proof. revert w. induction vs as [|v vs IH]; intros w; [done|]. cbn. by rewrite !(proj1 (IH _)), (proj2 (IH _)). Qed.

(** The number of measurements of a range the file has room for. *)
Definition room (st : WalSettings) (l ms : list Meas) : nat :=
  (length ms `min` (Z.to_nat (wal_file_size st) - length l))%nat.

Lemma append_range_size st (l ms : list Meas) :
  Z.of_nat (length l) <= wal_file_size st < 2 ^ 63 → Z.of_nat (length ms) < 2 ^ 63 →
  (if wal_file_size st <? u64 (Z.of_nat (length ms) + Z.of_nat (length l))
   then u64 (wal_file_size st - Z.of_nat (length l)) else Z.of_nat (length ms)) =
  Z.of_nat (room st l ms).
Proof.
  intros Hl Hm. unfold room. rewrite !wrap_small by lia.
  destruct (Z.ltb_spec (wal_file_size st) (Z.of_nat (length ms) + Z.of_nat (length l))); lia.
Qed.

Lemma append_range_holds st ms w e l :
  holds w e l → fs_writable (e_fs e) (WALFile._filename w) = true → Forall meas_wf ms →
  Z.of_nat (length l) <= wal_file_size st < 2 ^ 63 → Z.of_nat (length ms) < 2 ^ 63 →
  let n := room st l ms in
  ∃ w' e', WALFile.append_range st ms w e =
      Ok (if (n =? 0)%nat then mkStatus (Some 0) (Z.of_nat (length ms)) wal_file_limit
          else Status_writed (Z.of_nat n), w', e') ∧
    WALFile._filename w' = WALFile._filename w ∧ frame (WALFile._filename w) e e' ∧
    holds w' e' (l ++ take n ms) ∧ on_disk w' e'.
Proof.
  intros H Hw Hms Hl Hm n. unfold WALFile.append_range. pose proof (h_writed _ _ _ H) as Hn.
  destruct (open_to_append_ok w e l H Hw) as (e1 & -> & F1 & H1 & D1). rewrite bind_Ok.
  cbn [WALFile._writed WALFile.set_file]. rewrite Hn, append_range_size by done. fold n.
  assert (Hnm : (n <= length ms)%nat) by (unfold n, room; lia).
  destruct (Nat.eqb_spec n 0) as [En|En].
  - rewrite En. cbn [Z.of_nat Z.eqb]. do 2 eexists. split; [done|].
    rewrite take_0, app_nil_r. done.
  - rewrite (proj2 (Z.eqb_neq _ _)), (proj2 (Z.ltb_ge _ _)), Nat2Z.id by lia.
    destruct (fwrite_holds _ e1 l (take n ms) H1 eq_refl D1) as [F2 H2].
    { by apply Forall_take. }
    { rewrite length_take. unfold n, room. lia. }
    do 2 eexists. split; [done|].
    destruct (note_fold (take n ms) (WALFile.set_file (Some WALFile.ab) w)) as [N1 N2].
    split; [exact N1|]. split; [by etrans|]. apply H2; [exact N1|done|].
    cbn [WALFile._writed WALFile.close WALFile.set_file WALFile.add_writed].
    rewrite N2, length_take, Nat.min_l by done. done.
Qed.

(** ** Writing and reading back *)

(** The calls of a writer, with the status of each. *)
Definition write (st : WalSettings) (p : list Status * WALFile.t * env) (op : Meas + list Meas)
  : outcome (list Status * WALFile.t * env) :=
  let '(sts, w, e) := p in
  '(s, w, e) ← match op with
               | inl v => WALFile.append st v w e
               | inr ms => WALFile.append_range st ms w e
               end;
  Ok (sts ++ [s], w, e).

Definition op_values (op : Meas + list Meas) : list Meas :=
  match op with inl v => [v] | inr ms => ms end.

Lemma write_all st ops sts w e l :
  holds w e l → fs_writable (e_fs e) (WALFile._filename w) = true →
  Forall (fun op => op_values op ≠ []) ops → Forall meas_wf (concat (op_values <$> ops)) →
  Z.of_nat (length l + length (concat (op_values <$> ops))) <= wal_file_size st < 2 ^ 63 →
  on_disk w e ∨ ops ≠ [] →
  ∃ w' e', foldM (write st) ops (sts, w, e) =
      Ok (sts ++ ((fun op => Status_writed (Z.of_nat (length (op_values op)))) <$> ops), w', e') ∧
    WALFile._filename w' = WALFile._filename w ∧ frame (WALFile._filename w) e e' ∧
    holds w' e' (l ++ concat (op_values <$> ops)) ∧ on_disk w' e'.
Proof.
  intros H Hw Hne Hwf Hs Hd. revert sts w e l H Hw Hs Hd.
  induction Hne as [|op ops Hop Hne IH]; intros sts w e l H Hw Hs Hd.
  { exists w, e. rewrite !app_nil_r. destruct Hd; by split_and!. }
  cbn [fmap list_fmap concat] in *. change (list_fmap _ _ op_values ops) with (op_values <$> ops) in *.
  apply Forall_app in Hwf as [Hv Hwf]. rewrite length_app in Hs.
  assert (∃ w1 e1, write st (sts, w, e) op =
      Ok (sts ++ [Status_writed (Z.of_nat (length (op_values op)))], w1, e1) ∧
      WALFile._filename w1 = WALFile._filename w ∧ frame (WALFile._filename w) e e1 ∧
      holds w1 e1 (l ++ op_values op) ∧ on_disk w1 e1) as (w1 & e1 & E1 & N1 & F1 & H1 & D1).
  { destruct op as [v|ms]; cbn [op_values write length] in *.
    - apply Forall_cons_1 in Hv as [Hv _].
      destruct (append_holds st v w e l H Hw Hv ltac:(lia)) as (w1 & e1 & -> & ?).
      rewrite bind_Ok. by exists w1, e1.
    - destruct (append_range_holds st ms w e l H Hw Hv ltac:(lia) ltac:(lia)) as (w1 & e1 & E & R).
      assert (En : room st l ms = length ms) by (unfold room; lia). rewrite En in *.
      rewrite firstn_all in R. rewrite E, bind_Ok. exists w1, e1. split; [|done].
      destruct ms as [|m ms]; [done|]. done. }
  cbn [foldM]. rewrite E1, bind_Ok.
  destruct (IH Hwf (sts ++ [Status_writed (Z.of_nat (length (op_values op)))]) w1 e1
    (l ++ op_values op) H1) as (w' & e' & E' & N' & F' & H' & D').
  { by rewrite N1, (fr_writable _ _ _ F1). }
  { rewrite length_app. lia. }
  { by left. }
  exists w', e'. rewrite <- !(assoc_L (++)) in *. rewrite E', N', N1.
  split_and!; [done..| |done|done]. rewrite N1 in F'. by etrans.
Qed.

(** ** Sets of measurements *)

Lemma mset_insert_above v x l :
  Forall (fun m => time x < time m) l → time x < time v →
  Forall (fun m => time x < time m) (mset_insert v l).
Proof.
  intros Hl Hv. induction Hl as [|y l Hy Hl IH]; cbn; [by constructor|].
  destruct (time v <? time y); [by repeat constructor|].
  destruct (time y <? time v); by repeat constructor.
Qed.

Lemma mset_insert_strict v l : strictly_by time l → strictly_by time (mset_insert v l).
Proof.
  induction 1 as [|x l Hl IH Hx]; cbn; [repeat constructor|].
  destruct (Z.ltb_spec (time v) (time x)).
  - constructor; [by constructor|]. constructor; [done|].
    eapply Forall_impl; [exact Hx|]. cbn. lia.
  - destruct (Z.ltb_spec (time x) (time v)); [|by constructor].
    constructor; [done|]. by apply mset_insert_above.
Qed.

(** The first of several measurements with one time stays. *)
Lemma mset_insert_first_at t v l :
  strictly_by time l → first_at t (mset_insert v l) = first_at t (l ++ [v]).
Proof.
  induction 1 as [|x l Hl IH Hx]; cbn [mset_insert app]; [done|].
  rewrite first_at_cons.
  destruct (Z.ltb_spec (time v) (time x)) as [Hv|Hv]; [|destruct (Z.ltb_spec (time x) (time v)) as [Hv'|Hv']].
  - rewrite !first_at_cons, first_at_app, first_at_cons.
    destruct (decide (time v = t)) as [<-|]; [|destruct (decide (time x = t)); [done|]].
    + rewrite decide_False by lia. by rewrite (first_at_above (time v) x l Hx) by lia.
    + cbn. by destruct (first_at t l).
  - rewrite first_at_cons, IH. done.
  - rewrite first_at_cons. destruct (decide (time x = t)) as [|Hne]; [done|].
    rewrite first_at_app, (first_at_cons t v), decide_False by lia. cbn.
    by destruct (first_at t l).
Qed.

Lemma mset_fold_kmerge s :
  fold_left (fun mset v => mset_insert v mset) s [] = kmerge [s].
Proof.
  apply kmerge_unique.
  - assert (H : strictly_by time ([] : list Meas)) by constructor. revert H.
    generalize ([] : list Meas). induction s as [|v s IH]; intros acc Hacc; cbn; [done|].
    by apply IH, mset_insert_strict.
  - intros t. cbn [concat]. rewrite app_nil_r.
    assert (H : strictly_by time ([] : list Meas)) by constructor.
    change s with ([] ++ s) at 2. revert H.
    generalize ([] : list Meas). induction s as [|v s IH]; intros acc Hacc; cbn [fold_left].
    { by rewrite app_nil_r. }
    rewrite IH by (by apply mset_insert_strict).
    rewrite !first_at_app, mset_insert_first_at, first_at_app, first_at_cons by done.
    destruct (first_at t acc); [done|]. rewrite (first_at_cons t v s). by destruct (decide _).
Qed.

(** A cursor on a strictly ordered array yields the array. *)
Lemma uniq_strictly l : strictly_by time l → uniq l = l.
Proof.
  assert (H : ∀ t l, strictly_by time l → Forall (fun m => t < time m) l → uniq_after t l = l).
  { clear. intros t l Hl. revert t. induction Hl as [|x l Hl IH Hx]; intros t Ht; [done|].
    apply Forall_cons_1 in Ht as [Hxt _]. cbn. rewrite (proj2 (Z.eqb_neq _ _)) by lia. by rewrite IH. }
  destruct 1 as [|x l Hl Hx]; [done|]. cbn. by rewrite H.
Qed.

Lemma std_sort_strictly `{StdSort} l : strictly_by time l → std_sort time l = l.
Proof.
  intros Hl. symmetry. apply (sorted_by_unique time).
  - by apply strictly_by_NoDup.
  - by apply strictly_by_sorted.
  - apply std_sort_sorted.
  - by rewrite std_sort_perm.
Qed.

Lemma full_kmerge_rep s : rep (FullCursor.make (kmerge [s])) (kmerge [s]).
Proof.
  rewrite <- (uniq_strictly (kmerge [s])) at 2 by apply kmerge_strict. apply full_make_rep.
Qed.

(** ** Queries *)

(** What a query selects of the series [i] from a log [l]. *)
Definition selected (q : QueryInterval) (i : Z) (l : list Meas) : list Meas :=
  base.filter (fun m => in_query q m ∧ id m = i) l.

(** The answer: ordered by time, the first written of those with one time. *)
Definition wal_answer (l : list Meas) (q : QueryInterval) (i : Z) : list Meas :=
  kmerge [selected q i l].

Lemma select_fold q l acc i :
  fold_left (WALFile.select q) l acc !! i =
  match selected q i l with
  | [] => acc !! i
  | s => Some (fold_left (fun mset v => mset_insert v mset) s (um_at [] i acc))
  end.
Proof.
  revert acc. induction l as [|m l IH]; intros acc; [done|]. cbn [fold_left].
  rewrite IH. unfold selected. rewrite filter_cons. fold (selected q i l).
  unfold WALFile.select, um_at. destruct (inQueryInterval _ _ _ _ m) eqn:Em.
  - destruct (decide (id m = i)) as [<-|Hne].
    + rewrite decide_True by done. rewrite lookup_insert_eq. cbn [default].
      by destruct (selected q (id m) l).
    + rewrite decide_False by (by intros [_ ?]). by rewrite lookup_insert_ne by done.
  - rewrite decide_False by (intros [Hq _]; unfold in_query in Hq; congruence). done.
Qed.

Lemma selected_kmerge q i l :
  base.filter (in_query q) (kmerge [selected q i l]) = kmerge [selected q i l].
Proof.
  apply filter_id, Forall_forall. intros m Hm%kmerge_elem. cbn in Hm. rewrite app_nil_r in Hm.
  by apply list_elem_of_filter in Hm as [[? _] _].
Qed.

#[export] Instance WALFile_IMeasSource `{StdSort} : IMeasSource (WALFile.t * env) FullCursor.t := {
  ms_minMaxTime i s :=
    '(found, mn, mx, w) ← WALFile.minMaxTime i s.1 s.2;
    Ok (if found : bool then Some (mn, mx) else None, (w, s.2));
  ms_intervalReader q s := '(r, w) ← WALFile.intervalReader q s.1 s.2; Ok (r, (w, s.2));
  ms_readTimePoint q s := '(r, w) ← WALFile.readTimePoint q s.1 s.2; Ok (r, (w, s.2));
  ms_currentValue ids fl s := '(r, w) ← WALFile.currentValue ids fl s.1 s.2; Ok (r, (w, s.2));
}.

Lemma intervalReader_holds `{StdSort} q w e l :
  holds w e l → on_disk w e →
  ∃ r, WALFile.intervalReader q w e = Ok (r, WALFile.close w) ∧
    ∀ i, r !! i = match selected q i l with
                  | [] => None
                  | _ => Some (FullCursor.make (wal_answer l q i))
                  end.
Proof.
  intros H0 Hd. unfold WALFile.intervalReader. rewrite (readAll_holds w e l H0 Hd), bind_Ok.
  eexists. split; [done|]. intros i. rewrite lookup_fmap, select_fold, lookup_empty.
  unfold um_at. rewrite lookup_empty. cbn [default]. unfold wal_answer.
  destruct (selected q i l) as [|m s]; [done|]. cbn [fmap option_fmap option_map].
  rewrite mset_fold_kmerge. by rewrite std_sort_strictly by apply kmerge_strict.
Qed.

Lemma wal_source_answers `{StdSort} w e l :
  holds w e l → on_disk w e → WALFile._file w = None →
  source_answers (w, e) (wal_answer l).
Proof.
  intros H0 Hd Hf q _. destruct (intervalReader_holds q w e l H0 Hd) as (r & E & Hr).
  exists r. split.
  - cbn. rewrite E, bind_Ok. do 3 f_equal. destruct w; cbn in *; by subst.
  - intros i _. rewrite Hr. destruct (selected q i l) as [|m ms] eqn:Es.
    + unfold wal_answer. by rewrite Es.
    + exists (wal_answer l q i). split; [apply full_kmerge_rep|apply selected_kmerge].
Qed.

(** ** Time points *)

Definition point_ok (q : QueryTimePoint) (m : Meas) : bool :=
  inQuery (qt_ids q) (qt_flag q) m && (time m <=? qt_time_point q).

Lemma replace_if_older_lookup s m i :
  WALFile.replace_if_older s m !! i =
  match s !! i with Some x => Some x | None => if decide (id m = i) then Some m else None end.
Proof.
  unfold WALFile.replace_if_older, WALFile.emplace.
  destruct (s !! id m) as [x|] eqn:E; [|].
  - assert (E' : (if time x <? time m then s else s) = s) by (by destruct (_ <? _)).
    rewrite E'. destruct (s !! i) eqn:Ei; [done|]. rewrite decide_False; [done|]. congruence.
  - destruct (decide (id m = i)) as [<-|Hne].
    + by rewrite lookup_insert_eq, E.
    + rewrite lookup_insert_ne by done. by destruct (s !! i).
Qed.

(** The scan keeps the first match of every identifier. *)
Lemma point_fold (P : Meas → bool) l s d i :
  let p := fold_left (fun (p : gmap Z Meas * gset Z) val =>
    if P val then (WALFile.replace_if_older p.1 val, {[id val]} ∪ p.2) else p) l (s, d) in
  p.1 !! i = match s !! i with
             | Some x => Some x
             | None => head (base.filter (fun m => P m = true ∧ id m = i) l)
             end ∧
  (i ∈ p.2 ↔ i ∈ d ∨ base.filter (fun m => P m = true ∧ id m = i) l ≠ []).
Proof.
  revert s d. induction l as [|m l IH]; intros s d; cbn zeta; cbn [fold_left].
  { cbn [fst snd]. split; [by destruct (s !! i)|]. change (base.filter _ []) with ([] : list Meas). naive_solver. }
  rewrite filter_cons. cbn [fst snd]. destruct (P m) eqn:Em.
  - destruct (IH (WALFile.replace_if_older s m) ({[id m]} ∪ d)) as [E1 E2]. rewrite E1, E2.
    rewrite replace_if_older_lookup, elem_of_union, elem_of_singleton.
    destruct (decide (id m = i)) as [<-|Hne].
    + rewrite decide_True by done. split; [by destruct (s !! id m)|]. naive_solver.
    + rewrite decide_False by naive_solver. split; [by destruct (s !! i)|]. naive_solver.
  - rewrite decide_False by (intros [? _]; congruence). apply IH.
Qed.

Lemma mark_fold ids tm (d : gset Z) (s : gmap Z Meas) i :
  fold_left (fun s j => if bool_decide (j ∈ d) then s else <[j := mkMeas j tm 0 _NO_DATA]> s) ids s !! i =
  if decide (i ∈ ids ∧ i ∉ d) then Some (mkMeas i tm 0 _NO_DATA) else s !! i.
Proof.
  revert s. induction ids as [|j ids IH]; intros s; cbn [fold_left].
  { by rewrite decide_False by (intros [[]%elem_of_nil _]). }
  rewrite IH. destruct (decide (i ∈ ids ∧ i ∉ d)) as [[Hi Hd]|Hn].
  { rewrite decide_True; [done|]. split; [by right|done]. }
  destruct (decide (i = j)) as [->|Hne].
  - destruct (bool_decide_reflect (j ∈ d)) as [Hj|Hj].
    + by rewrite decide_False by (intros [_ Hx]; by apply Hx).
    + rewrite decide_True by (split; [left|done]). by rewrite lookup_insert_eq.
  - rewrite decide_False by (intros [[?|?]%elem_of_cons ?]; [done|by apply Hn]).
    destruct (bool_decide (j ∈ d)); [done|]. by rewrite lookup_insert_ne by done.
Qed.

(** An identifier that was not read makes the number of those read too small. *)
Lemma unread_size (ids : list Z) (d : gset Z) i :
  (∀ j, j ∈ d → j ∈ ids) → i ∈ ids → i ∉ d → size d ≠ length ids.
Proof.
  intros Hd Hi Hn E.
  assert (Hs : (size ({[i]} ∪ d) <= size (list_to_set ids : gset Z))%nat).
  { apply subseteq_size. intros j. rewrite elem_of_union, elem_of_singleton, elem_of_list_to_set.
    intros [->|?]; auto. }
  rewrite size_union, size_singleton in Hs by set_solver.
  assert (Hl : (size (list_to_set ids : gset Z) <= length ids)%nat).
  { clear. induction ids as [|j ids IH]; [done|]. rewrite list_to_set_cons.
    rewrite size_union_alt, size_singleton. cbn [length].
    pose proof (subseteq_size (list_to_set ids ∖ {[j]} : gset Z) (list_to_set ids) ltac:(set_solver)).
    lia. }
  lia.
Qed.

Lemma mark_missing_spec ids tm (d : gset Z) (s : gmap Z Meas) i :
  (∀ j, j ∈ d → j ∈ ids) → i ∈ ids → (i ∉ d → s !! i = None) →
  WALFile.mark_missing ids tm d s !! i =
  if decide (i ∈ d) then s !! i else Some (mkMeas i tm 0 _NO_DATA).
Proof.
  intros Hd Hi Hs. unfold WALFile.mark_missing. case_decide as Hid.
  - destruct (negb _ && negb _); [|done]. rewrite mark_fold. by rewrite decide_False by (intros [_ Hx]; by apply Hx).
  - pose proof (unread_size ids d i Hd Hi Hid).
    rewrite (proj2 (Nat.eqb_neq (size d) _)) by done.
    destruct ids as [|j ids]; [by apply elem_of_nil in Hi|]. cbn [length Nat.eqb negb andb].
    rewrite mark_fold. by rewrite decide_True.
Qed.

(** ** Properties *)

Lemma create_holds `{Paths, FileNames} st i e w e0 :
  WALFile.create st i e = Ok (w, e0) → fs_files (e_fs e) !! WALFile._filename w = None →
  holds w e0 [] ∧ e_fs e0 = e_fs e ∧ WALFile._file w = None.
Proof.
  unfold WALFile.create, next_file_name. intros E Hn. inv_Ok. simplify_eq. cbn in Hn |- *.
  split; [|done]. split; cbn; [by rewrite Hn|done|done|by left].
Qed.

(** C28: what is written to a new log file is read back: as long as the measurements
    fit, every append reports their number, no other file is touched, and the
    object itself and any object that opens the file later read exactly the
    measurements that were appended, in their order. *)
Theorem wal_write_reopen `{Paths, FileNames} st i ops e w e0 :
  WALFile.create st i e = Ok (w, e0) → fs_files (e_fs e) !! WALFile._filename w = None →
  fs_writable (e_fs e) (WALFile._filename w) = true →
  ops ≠ [] → Forall (fun op => op_values op ≠ []) ops →
  let ms := concat (op_values <$> ops) in
  Forall meas_wf ms → Z.of_nat (length ms) <= wal_file_size st < 2 ^ 59 →
  ∃ w' e', foldM (write st) ops ([], w, e0) =
      Ok ((fun op => Status_writed (Z.of_nat (length (op_values op)))) <$> ops, w', e') ∧
    frame (WALFile._filename w) e0 e' ∧
    WALFile.readAll w' e' = Ok (ms, WALFile.close w') ∧
    ∀ ro, let w2 := WALFile.open (WALFile._filename w) ro e' in
      WALFile.readAll w2 e' = Ok (ms, w2).
Proof.
  intros Ec Hn Hw Hne Hops ms Hwf Hs. destruct (create_holds st i e w e0 Ec Hn) as (Hh & Hfs & _).
  destruct (write_all st ops [] w e0 [] Hh) as (w' & e' & E & N & F & H' & D');
    [by rewrite Hfs|done|done|fold ms; cbn [length]; lia|by right|].
  fold ms in H'. exists w', e'. split_and!; [done..|by apply readAll_holds|].
  intros ro w2. rewrite (readAll_holds w2 e' ms); [done| |by unfold on_disk, w2; cbn; rewrite <- N].
  unfold w2. rewrite <- N. apply open_holds; [done|done|lia].
Qed.

Definition wal_settings (n : Z) : WalSettings := mkWalSettings "raw" n 100 COMPRESSED.
Definition empty_env : env := mkEnv (mkFs ∅ ∅ (fun _ => true)) (Manifest.mk true [] [] None) 0.

Lemma wal_write_reopen_witness :
  let m t := mkMeas 7 t 5 3 in
  ∃ w e0 w' e', WALFile.create (wal_settings 10) 7 empty_env = Ok (w, e0) ∧
    foldM (write (wal_settings 10)) [inl (m 3); inr [m 1; m 2]] ([], w, e0) =
      Ok ([Status_writed 1; Status_writed 2], w', e') ∧
    WALFile.readAll (WALFile.open (WALFile._filename w) true e') e' =
      Ok ([m 3; m 1; m 2], WALFile.open (WALFile._filename w) true e').
Proof.
  intros m.
  destruct (WALFile.create (wal_settings 10) 7 empty_env) as [[w e0]| | |] eqn:E; try discriminate E.
  destruct (wal_write_reopen (wal_settings 10) 7 [inl (m 3); inr [m 1; m 2]] empty_env w e0 E)
    as (w' & e' & E' & _ & _ & R).
  - vm_compute in E. injection E as <- <-. reflexivity.
  - reflexivity.
  - done.
  - by repeat constructor.
  - repeat constructor; vm_compute; congruence.
  - vm_compute. done.
  - exists w, e0, w', e'. exact (conj eq_refl (conj E' (R true))).
Defined.

(** C31: a range that does not fit is cut: the file gets exactly the measurements
    there is room for and never more than the limit; the status tells how many
    were written, and when the file is full all are reported as ignored. *)
Theorem wal_append_range_limit st ms w e l :
  holds w e l → fs_writable (e_fs e) (WALFile._filename w) = true → Forall meas_wf ms →
  Z.of_nat (length l) <= wal_file_size st < 2 ^ 59 → Z.of_nat (length ms) < 2 ^ 63 → ms ≠ [] →
  ∃ s w' e', WALFile.append_range st ms w e = Ok (s, w', e') ∧
    let n := (length ms `min` (Z.to_nat (wal_file_size st) - length l))%nat in
    WALFile.readAll w' e' = Ok (l ++ take n ms, WALFile.close w') ∧
    Z.of_nat (length (l ++ take n ms)) <= wal_file_size st ∧
    writed s = Some (Z.of_nat n) ∧
    (Z.of_nat (length l) < wal_file_size st → error s = APPEND_OK) ∧
    (Z.of_nat (length l) = wal_file_size st → error s = wal_file_limit ∧ ignored s = Z.of_nat (length ms)).
Proof.
  intros H Hw Hms Hl Hm Hne.
  destruct (append_range_holds st ms w e l H Hw Hms ltac:(lia) Hm) as (w' & e' & E & _ & _ & H' & D').
  do 3 eexists. split; [exact E|]. intros n. unfold room in *. fold n in E, H' |- *.
  split; [by apply readAll_holds|]. split; [rewrite length_app, length_take; lia|].
  destruct ms as [|m ms]; [done|]. cbn [length] in *.
  destruct (Nat.eqb_spec n 0) as [En|En]; cbn [writed error ignored Status_writed];
    split_and!; try done; intros; try lia.
  by rewrite En.
Qed.

Lemma wal_append_range_limit_witness :
  let m t := mkMeas 7 t 5 3 in
  let w := WALFile.mk "raw/1.wal" false 1 None 0 0 0 in
  let e := set_fs (mkFs {["raw/1.wal" := Meas_bytes (m 1)]} ∅ (fun _ => true)) empty_env in
  ∃ s w' e', WALFile.append_range (wal_settings 2) [m 2; m 3] w e = Ok (s, w', e') ∧
    WALFile.readAll w' e' = Ok ([m 1; m 2], WALFile.close w') ∧ writed s = Some 1.
Proof.
  intros m w e.
  destruct (wal_append_range_limit (wal_settings 2) [m 2; m 3] w e [m 1])
    as (s & w' & e' & E & R & _ & S & _).
  - split; [reflexivity|reflexivity| |by left]. repeat constructor; vm_compute; congruence.
  - reflexivity.
  - repeat constructor; vm_compute; congruence.
  - vm_compute. split; congruence.
  - vm_compute. congruence.
  - done.
  - exists s, w', e'. exact (conj E (conj R S)).
Defined.

(** The single append compares with [>]: a full file takes one more
    measurement, and the next append of a range, whatever it is, computes a
    negative room as a huge number and reads past the end of the range. *)
Theorem wal_append_past_limit st v w e l :
  holds w e l → fs_writable (e_fs e) (WALFile._filename w) = true → meas_wf v →
  Z.of_nat (length l) = wal_file_size st → wal_file_size st < 2 ^ 59 →
  ∃ w' e', WALFile.append st v w e = Ok (Status_writed 1, w', e') ∧
    WALFile.readAll w' e' = Ok (l ++ [v], WALFile.close w') ∧
    ∀ ms, Z.of_nat (length ms) < 2 ^ 60 → WALFile.append_range st ms w' e' = UB.
Proof.
  intros H Hw Hv Hl Hs.
  destruct (append_holds st v w e l H Hw Hv ltac:(lia)) as (w' & e' & E & N & F & H' & D').
  exists w', e'. split_and!; [done|by apply readAll_holds|]. intros ms Hms.
  unfold WALFile.append_range.
  destruct (open_to_append_ok w' e' _ H') as (e2 & -> & _).
  { by rewrite N, (fr_writable _ _ _ F). }
  rewrite bind_Ok. cbn [WALFile._writed WALFile.set_file].
  rewrite (h_writed _ _ _ H'), length_app. cbn [length].
  assert (Hu : u64 (wal_file_size st - Z.of_nat (length l + 1)) = 2 ^ 64 - 1).
  { replace (wal_file_size st - Z.of_nat (length l + 1)) with (-1) by lia. reflexivity. }
  rewrite Hu, wrap_small by lia. rewrite (proj2 (Z.ltb_lt _ _)) by lia.
  change (2 ^ 64 - 1 =? 0) with false. cbn iota. by rewrite (proj2 (Z.ltb_lt _ _)) by lia.
Qed.

Lemma wal_append_past_limit_witness :
  let m t := mkMeas 7 t 5 3 in
  let w := WALFile.mk "raw/1.wal" false 1 None 0 0 0 in
  let e := set_fs (mkFs {["raw/1.wal" := Meas_bytes (m 1)]} ∅ (fun _ => true)) empty_env in
  ∃ w' e', WALFile.append (wal_settings 1) (m 2) w e = Ok (Status_writed 1, w', e') ∧
    WALFile.readAll w' e' = Ok ([m 1; m 2], WALFile.close w') ∧
    WALFile.append_range (wal_settings 1) [m 3] w' e' = UB.
Proof.
  intros m w e.
  destruct (wal_append_past_limit (wal_settings 1) (m 2) w e [m 1]) as (w' & e' & E & R & U).
  - split; [reflexivity|reflexivity| |by left]. repeat constructor; vm_compute; congruence.
  - reflexivity.
  - repeat constructor; vm_compute; congruence.
  - reflexivity.
  - reflexivity.
  - exists w', e'. split; [exact E|]. split; [exact R|]. apply U. reflexivity.
Defined.

(** C29: [readInterval] on a log file gives, for each identifier of the query in
    turn, the measurements of the file that the query selects, in strictly
    ascending order of time; of several with one time the first that was
    written. *)
Theorem wal_read_interval `{StdSort} q w e l :
  holds w e l → l ≠ [] → WALFile._file w = None → qi_from q <= qi_to q → NoDup (qi_ids q) →
  readInterval q (w, e) = Ok (concat (wal_answer l q <$> qi_ids q), (w, e)) ∧
  Forall (fun i => strictly_by time (wal_answer l q i) ∧
                   ∀ t, first_at t (wal_answer l q i) = first_at t (selected q i l)) (qi_ids q).
Proof.
  intros H0 Hl Hf Hq Hnd. split.
  - apply readInterval_answers; [|done|done].
    apply wal_source_answers; [done|by eapply holds_on_disk|done].
  - apply Forall_forall. intros i _. split; [apply kmerge_strict|]. intros t.
    unfold wal_answer. rewrite kmerge_first_at. cbn. by rewrite app_nil_r.
Qed.

Lemma wal_read_interval_witness :
  let m i t := mkMeas i t 5 3 in
  let l := [m 7 4; m 8 1; m 7 2; m 7 9] in
  let w := WALFile.mk "raw/1.wal" false 4 None 0 0 0 in
  let e := set_fs (mkFs {["raw/1.wal" := concat (Meas_bytes <$> l)]} ∅ (fun _ => true)) empty_env in
  readInterval (mkQueryInterval [7; 8] 1 0 5 0) (w, e) = Ok ([m 7 2; m 7 4; m 8 1], (w, e)).
Proof.
  intros m l w e.
  refine (proj1 (wal_read_interval (mkQueryInterval [7; 8] 1 0 5 0) w e l _ _ _ _ _)).
  - split; [reflexivity|reflexivity| |by left]. repeat constructor; vm_compute; congruence.
  - done.
  - reflexivity.
  - vm_compute. congruence.
  - repeat constructor; vm_compute; intros Hin; inversion Hin; inversion H1.
Defined.

(** [readTimePoint] on a log file answers each identifier with the first
    measurement that was written to the file among those at or before the time
    point, not with the latest; an identifier with none gets a mark. *)
Theorem wal_time_point_first q w e l i :
  holds w e l → l ≠ [] → i ∈ qt_ids q →
  ∃ r, WALFile.readTimePoint q w e = Ok (r, WALFile.close w) ∧
    r !! i = Some (default (mkMeas i (qt_time_point q) 0 _NO_DATA)
      (head (base.filter (fun m => point_ok q m = true ∧ id m = i) l))).
Proof.
  intros H Hl Hi. unfold WALFile.readTimePoint.
  rewrite (readAll_holds w e l H) by (by eapply holds_on_disk). rewrite bind_Ok.
  pose proof (point_fold (fun val => inQuery (qt_ids q) (qt_flag q) val &&
    (time val <=? qt_time_point q)) l ∅ ∅) as Hf. cbn beta zeta in Hf.
  unfold point_ok. destruct (fold_left _ l (∅, ∅)) as [s d]. cbn [fst snd] in Hf.
  eexists. split; [done|]. destruct (Hf i) as [E1 E2]. rewrite lookup_empty in E1.
  set (fs := base.filter _ l) in *.
  rewrite mark_missing_spec; [|intros j Hj|done|].
  - case_decide as Hd.
    + apply E2 in Hd as [Hd|Hd]; [by apply not_elem_of_empty in Hd|]. rewrite E1.
      by destruct fs.
    + destruct fs; [done|]. exfalso. apply Hd, E2. by right.
  - destruct (Hf j) as [_ E]. apply E in Hj as [Hj|Hj]; [by apply not_elem_of_empty in Hj|].
    match type of Hj with ?f ≠ [] => destruct f as [|m ms] eqn:Em; [done|] end.
    assert (Hm : m ∈ m :: ms) by left. rewrite <- Em in Hm.
    apply list_elem_of_filter in Hm as [[Hp <-] _]. unfold inQuery in Hp. breflect.
    destruct (proj1 (inIds_spec (qt_ids q) m) ltac:(done)) as [E0|]; [|done].
    rewrite E0 in Hi. by apply elem_of_nil in Hi.
  - intros Hd. rewrite E1. destruct fs; [done|]. exfalso. apply Hd, E2. by right.
Qed.

Lemma wal_time_point_first_witness :
  let m t := mkMeas 7 t 5 3 in
  let w := WALFile.mk "raw/1.wal" false 2 None 0 0 0 in
  let e := set_fs (mkFs {["raw/1.wal" := concat (Meas_bytes <$> [m 1; m 4])]} ∅ (fun _ => true))
             empty_env in
  ∃ r, WALFile.readTimePoint (mkQueryTimePoint [7] 0 5) w e = Ok (r, w) ∧ r !! 7 = Some (m 1).
Proof.
  intros m w e.
  destruct (wal_time_point_first (mkQueryTimePoint [7] 0 5) w e [m 1; m 4] 7) as (r & E & R).
  - split; [reflexivity|reflexivity| |by left]. repeat constructor; vm_compute; congruence.
  - done.
  - left.
  - exists r. exact (conj E R).
Defined.
