(* ===== verification/WalManager.v ===== *)
(** * Write-ahead log: the manager

    [storage/wal/wal_manager.cpp]: a buffer per identifier, written to the log
    file of the identifier when it is full; a full file is closed, offered to
    the storage that drops logs ([IWALDropper]) and replaced by a new one.  The
    buffers are shared objects: [_buffers] holds their addresses, [_bds] the
    objects.  Queries read the files the manifest lists for an identifier and
    the buffer.  Tasks of the thread pool are waited for, so they run here in
    place. *)

From Stdlib Require Import ZArith Lia String Sorting.Sorted.
From stdpp Require Import base numbers list gmap strings.
From S2P Require Import Prelude Float64 Meas Bloom Stat StdSort ICursor FullCursor KMerge Cursors Colapse.
From S2P Require Import StripedMap TimeTrack Storages Settings Files WalFile.

Local Open Scope Z_scope.

(** The file system is there for the dropper to look at. *)
Class IWALDropper (D : Type) := { wd_dropWAL : string → fs → D → outcome D }.

Module WALManager.

Record BufferDescription := mkBd {
  walfile : option WALFile.t;
  buffer : list Meas;
  pos : nat;
  locked : bool;
}.

Definition make_bd (file : option WALFile.t) (buffer_size : Z) : BufferDescription :=
  mkBd file (replicate (Z.to_nat buffer_size) Meas_default) 0 false.

Record TimeMinMax := mkTimeMinMax { tm_minTime : Z; tm_maxTime : Z; bloom_id : Z }.

Record t (D : Type) := Mk {
  _down : option D;
  _buffers : StrippedMap.stripped_map (option nat);
  _bds : list BufferDescription;
  _files_send_to_drop : gset string;
  _file2minmax : gmap string TimeMinMax;
  _env : env;
}.
Arguments Mk {D} _ _ _ _ _ _.
Arguments _down {D} _.
Arguments _buffers {D} _.
Arguments _bds {D} _.
Arguments _files_send_to_drop {D} _.
Arguments _file2minmax {D} _.
Arguments _env {D} _.

Section Manager.
Context {D : Type} `{IWALDropper D} `{Paths} `{FileNames} `{StdSort} `{UnorderedMap}.
Variable st : WalSettings.

Implicit Types s : t D.

Definition set_down (d : option D) s : t D :=
  Mk d (_buffers s) (_bds s) (_files_send_to_drop s) (_file2minmax s) (_env s).
Definition set_buffers (m : StrippedMap.stripped_map (option nat)) s : t D :=
  Mk (_down s) m (_bds s) (_files_send_to_drop s) (_file2minmax s) (_env s).
Definition set_bds (l : list BufferDescription) s : t D :=
  Mk (_down s) (_buffers s) l (_files_send_to_drop s) (_file2minmax s) (_env s).
Definition set_sent (x : gset string) s : t D :=
  Mk (_down s) (_buffers s) (_bds s) x (_file2minmax s) (_env s).
Definition set_mm (x : gmap string TimeMinMax) s : t D :=
  Mk (_down s) (_buffers s) (_bds s) (_files_send_to_drop s) x (_env s).
Definition set_env (e : env) s : t D :=
  Mk (_down s) (_buffers s) (_bds s) (_files_send_to_drop s) (_file2minmax s) e.

Definition deref (p : option nat) s : outcome BufferDescription :=
  match p with
  | None => UB
  | Some p => match _bds s !! p with Some bd => Ok bd | None => UB end
  end.

Definition put_bd (p : nat) (bd : BufferDescription) s : t D := set_bds (<[p := bd]> (_bds s)) s.

Definition set_walfile (w : option WALFile.t) (bd : BufferDescription) : BufferDescription :=
  mkBd w (buffer bd) (pos bd) (locked bd).
Definition set_pos (n : nat) (bd : BufferDescription) : BufferDescription :=
  mkBd (walfile bd) (buffer bd) n (locked bd).
Definition set_locked (b : bool) (bd : BufferDescription) : BufferDescription :=
  mkBd (walfile bd) (buffer bd) (pos bd) b.

(** ** Files *)

Definition full_paths (l : list Manifest.WalFileDescription) : list string :=
  (fun d => append_path (raw_path st) (Manifest.fname d)) <$> l.

Definition wal_files (i : Z) s : outcome (list string) :=
  files ← Manifest.wal_list_id i (e_manifest (_env s)); Ok (full_paths files).
Definition wal_files_all s : outcome (list string) :=
  files ← Manifest.wal_list (e_manifest (_env s)); Ok (full_paths files).

Definition filesCount s : outcome Z := files ← wal_files_all s; Ok (Z.of_nat (length files)).

Definition erase (fname : string) s : outcome (t D) :=
  let full_path := append_path (raw_path st) fname in
  m ← Manifest.wal_rm fname (e_manifest (_env s));
  let s := set_mm (delete full_path (_file2minmax s)) s in
  Ok (set_env (set_fs (rm full_path (e_fs (_env s))) (set_manifest m (_env s))) s).

(** ** Dropping *)

Definition dropWAL (fname : string) (storage : D) s : outcome (D * t D) :=
  let without_path := extract_filename fname in
  let s := set_sent ({[without_path]} ∪ _files_send_to_drop s) s in
  d ← wd_dropWAL without_path (e_fs (_env s)) storage;
  Ok (d, s).

Definition dropFile (f : string) s : outcome (t D) :=
  match _down s with
  | None => Ok s
  | Some d =>
    let without_path := extract_filename f in
    s ← (if bool_decide (without_path ∈ _files_send_to_drop s) then Ok s
         else '(d, s) ← dropWAL f d s; Ok (set_down (Some d) s));
    wals_exists ← Manifest.wal_list (e_manifest (_env s));
    let wal_exists_set : gset string := list_to_set (Manifest.fname <$> wals_exists) in
    Ok (set_sent (base.filter (fun v => v ∈ wal_exists_set) (_files_send_to_drop s)) s)
  end.

(** Whether an open buffer writes to the file [f]. *)
Definition is_open (f : string) s : outcome (bool * t D) :=
  '(m, exists_) ← StrippedMap.apply (fun (exists_ : bool) kv =>
    match kv.2 with
    | None => Ok exists_
    | Some p =>
      bd ← deref (Some p) s;
      Ok match walfile bd with
         | Some wfile => if String.eqb (WALFile._filename wfile) f then true else exists_
         | None => exists_
         end
    end) (_buffers s) false;
  Ok (exists_, set_buffers m s).

Definition drop_old_if_needed s : outcome (t D) :=
  match wal_strategy st with
  | WAL => Ok s
  | _ =>
    all_files ← wal_files_all s;
    foldM (fun s f =>
      '(exists_, s) ← is_open f s;
      if exists_ : bool then Ok s else dropFile f s) all_files s
  end.

Definition setDownlevel (down : option D) s : outcome (t D) := drop_old_if_needed (set_down down s).

Definition closedWals s : outcome (list string * t D) :=
  all_files ← wal_files_all s;
  foldM (fun (r : list string * t D) fn =>
    let '(result, s) := r in
    if StrippedMap._size (_buffers s) =? 0 then Ok (result ++ [fn], s)
    else
      '(exists_, s) ← is_open fn s;
      Ok (if exists_ : bool then result else result ++ [fn], s)) all_files ([], s).

(** ** Writing *)

(** What is noted of a file when it is closed or found at the start. *)
Definition file_minmax (w : WALFile.t) (e : env) : outcome (TimeMinMax * WALFile.t) :=
  '(mn, w) ← WALFile.minTime w e;
  '(mx, w) ← WALFile.maxTime w e;
  '(b, w) ← WALFile.id_bloom w e;
  Ok (mkTimeMinMax mn mx b, w).

Definition create_new (p : nat) (i : Z) s : outcome (t D) :=
  bd ← deref (Some p) s;
  s ← match walfile bd with
      | None => Ok s
      | Some w =>
        '(mm, w) ← file_minmax w (_env s);
        let f := WALFile._filename w in
        let s := set_mm (<[f := mm]> (_file2minmax s)) s in
        match wal_strategy st with WAL => Ok s | _ => dropFile f s end
      end;
  '(result, e) ← WALFile.create st i (_env s);
  Ok (put_bd p (set_walfile (Some result) bd) (set_env e s)).

(** The loop of [flush_buffer_logic]; [from] is its [pos]. *)
Fixpoint flush_loop (fuel : nat) (p : nat) (i : Z) (from : nat) (total_writed : Z) s
  : outcome (t D) :=
  match fuel with
  | O => Diverge
  | S fuel =>
    bd ← deref (Some p) s;
    match walfile bd with
    | None => UB
    | Some w =>
      '(res, w, e) ← WALFile.append_range st (take (pos bd - from) (drop from (buffer bd))) w (_env s);
      let s := put_bd p (set_walfile (Some w) bd) (set_env e s) in
      match writed res with
      | None => UB
      | Some n =>
        let total_writed := u64 (total_writed + n) in
        let continue s :=
          if negb (total_writed =? Z.of_nat (pos bd))
          then flush_loop fuel p i (from + Z.to_nat n) total_writed s
          else Ok (put_bd p (set_locked false (set_pos 0 (default bd (_bds s !! p)))) s) in
        match error res with
        | wal_file_limit => s ← create_new p i s; continue s
        | APPEND_OK => continue s
        | _ => Ok s
        end
      end
    end
  end.

Definition flush_buffer_logic (fuel p : nat) s : outcome (t D) :=
  bd ← deref (Some p) s;
  if (pos bd =? 0)%nat then Ok (put_bd p (set_locked false bd) s)
  else
    match buffer bd with
    | [] => UB
    | front :: _ =>
      let i := id front in
      s ← match walfile bd with None => create_new p i s | Some _ => Ok s end;
      flush_loop fuel p i 0 0 s
    end.

(** A run of the loop writes something or opens a new file, so twice the number
    of buffered measurements and two more are enough. *)
Definition flush_buffer (p : nat) s : outcome (t D) :=
  bd ← deref (Some p) s; flush_buffer_logic (2 * pos bd + 2) p s.

Definition flush s : outcome (t D) :=
  '(m, s) ← StrippedMap.apply (fun s kv =>
    bd ← deref kv.2 s;
    if (pos bd =? 0)%nat then Ok s else flush_buffer (default 0%nat kv.2) s) (_buffers s) s;
  Ok (set_buffers m s).

Definition flush_id (i : Z) s : outcome (t D) :=
  '(m, bd) ← StrippedMap.find (_buffers s) i;
  let s := set_buffers m s in
  match bd with
  | None => Ok s
  | Some p =>
    bd ← deref p s;
    if (pos bd =? 0)%nat then Ok s else flush_buffer (default 0%nat p) s
  end.

(** [buffer[i] = value]; an index past the end is undefined. *)
Definition buffer_set (i : nat) (value : Meas) (bd : BufferDescription) : outcome BufferDescription :=
  if (i <? length (buffer bd))%nat
  then Ok (mkBd (walfile bd) (<[i := value]> (buffer bd)) (pos bd) (locked bd))
  else UB.

(** The first measurement of an identifier makes its buffer. *)
Definition append (value : Meas) s : outcome (Status * t D) :=
  '(m, it) ← StrippedMap.find_bucket None (_buffers s) (id value);
  v ← StrippedMap.it_get m it;
  match v with
  | None =>
    let p := length (_bds s) in
    m ← StrippedMap.it_set m it (Some p);
    bd ← buffer_set 0 value (make_bd None (wal_cache_size st));
    m ← StrippedMap.it_release m it;
    Ok (Status_writed 1, set_bds (_bds s ++ [set_pos 1 bd]) (set_buffers m s))
  | Some p =>
    bd ← deref (Some p) s;
    if locked bd then Diverge
    else
      m ← StrippedMap.it_release m it;
      bd ← buffer_set (pos bd) value (set_locked true bd);
      let bd := set_pos (S (pos bd)) bd in
      let s := put_bd p bd (set_buffers m s) in
      s ← (if wal_cache_size st <=? Z.of_nat (pos bd) then flush_buffer p s
           else Ok (put_bd p (set_locked false bd) s));
      Ok (Status_writed 1, s)
  end.

Definition dropAll s : outcome (t D) :=
  match _down s with
  | None => Ok s
  | Some _ =>
    s ← flush s;
    '(m, s) ← StrippedMap.apply (fun s kv =>
      match kv.2 with
      | None => Ok s
      | Some p =>
        bd ← deref (Some p) s;
        match walfile bd with
        | Some w => dropFile (WALFile._filename w) s
        | None => Ok s
        end
      end) (_buffers s) s;
    m ← StrippedMap.clear m;
    let s := set_buffers m s in
    all_files ← wal_files_all s;
    foldM (fun s f => dropFile f s) all_files s
  end.

(** The constructor, over the files of the manifest; a file without measurements
    is erased and its object, now null, is used. *)
Definition open_existing s (f : Manifest.WalFileDescription) : outcome (t D) :=
  let full_filename := append_path (raw_path st) (Manifest.fname f) in
  let p := WALFile.open full_filename false (_env s) in
  if WALFile._writed p =? 0 then s ← erase (Manifest.fname f) s; UB
  else
    '(mm, p) ← file_minmax p (_env s);
    let s := set_mm (<[full_filename := mm]> (_file2minmax s)) s in
    if negb (WALFile.writed_of full_filename (_env s) =? wal_file_size st) then
      '(i, p) ← WALFile.id_from_first p (_env s);
      m ← StrippedMap.insert None (_buffers s) i (Some (length (_bds s)));
      Ok (set_bds (_bds s ++ [make_bd (Some p) (wal_cache_size st)]) (set_buffers m s))
    else Ok s.

Definition make (e : env) : outcome (t D) :=
  let s := Mk None (StrippedMap.make 1000) [] ∅ ∅ e in
  if path_exists (raw_path st) (e_fs e) then
    wals ← Manifest.wal_list (e_manifest e);
    foldM open_existing wals s
  else Ok s.

(** ** Queries *)

(** The measurements in a buffer; [at] throws past the end. *)
Definition buffered (bd : BufferDescription) : outcome (list Meas) :=
  if (pos bd <=? length (buffer bd))%nat then Ok (take (pos bd) (buffer bd)) else Throw.

Definition find_buffered (i : Z) s : outcome (list Meas * t D) :=
  '(m, bd) ← StrippedMap.find (_buffers s) i;
  let s := set_buffers m s in
  match bd with
  | None => Ok ([], s)
  | Some p => bd ← deref p s; l ← buffered bd; Ok (l, s)
  end.

(** A fold over the measurements in all the buffers. *)
Definition fold_buffered {X} (f : X → Meas → outcome X) (x : X) s : outcome (X * t D) :=
  '(m, x) ← StrippedMap.apply (fun x kv =>
    bd ← deref kv.2 s; l ← buffered bd; foldM f l x) (_buffers s) x;
  Ok (x, set_buffers m s).

(** The files are opened anew for every query. *)
Definition minTime s : outcome (Z * t D) :=
  files ← wal_files_all s;
  result ← foldM (fun result f =>
    '(local, _) ← WALFile.minTime (WALFile.open f true (_env s)) (_env s);
    Ok (Z.min local result)) files MAX_TIME;
  fold_buffered (fun result v => Ok (Z.min (time v) result)) result s.

Definition maxTime s : outcome (Z * t D) :=
  files ← wal_files_all s;
  result ← foldM (fun result f =>
    '(local, _) ← WALFile.maxTime (WALFile.open f true (_env s)) (_env s);
    Ok (Z.max local result)) files MIN_TIME;
  fold_buffered (fun result v => Ok (Z.max (time v) result)) result s.

Definition minMaxTime (i : Z) s : outcome (bool * Z * Z * t D) :=
  files ← wal_files i s;
  r ← foldM (fun (r : bool * Z * Z) f =>
    let '(res, mn, mx) := r in
    '(found, lmin, lmax, _) ← WALFile.minMaxTime i (WALFile.open f true (_env s)) (_env s);
    Ok (if found : bool then (true, Z.min lmin mn, Z.max lmax mx) else (res, mn, mx)))
    files (false, MAX_TIME, MIN_TIME);
  '(l, s) ← find_buffered i s;
  let '(res, mn, mx) := fold_left (fun (r : bool * Z * Z) v =>
    let '(res, mn, mx) := r in (true, Z.min (time v) mn, Z.max (time v) mx)) l r in
  Ok (res, mn, mx, s).

(** Whether a file can have measurements a query asks for. *)
Definition file_in_query (f : string) (q : QueryInterval) s : bool :=
  match _file2minmax s !! f with
  | None => true
  | Some mm =>
    let mn := tm_minTime mm in
    let mx := tm_maxTime mm in
    (inInterval mn mx (qi_from q) || inInterval mn mx (qi_to q) ||
     inInterval (qi_from q) (qi_to q) mn || inInterval (qi_from q) (qi_to q) mx) &&
    existsb (bloom_check (bloom_id mm)) (qi_ids q)
  end.

Definition file_in_point (f : string) (q : QueryTimePoint) s : bool :=
  match _file2minmax s !! f with
  | None => true
  | Some mm =>
    negb (qt_time_point q <? tm_minTime mm) && existsb (bloom_check (bloom_id mm)) (qt_ids q)
  end.

Definition push_reader (rl : gmap Z (list (cursor FullCursor.t))) (kv : Z * FullCursor.t)
  : gmap Z (list (cursor FullCursor.t)) :=
  <[kv.1 := um_at [] kv.1 rl ++ [Leaf kv.2]]> rl.

Definition intervalReader_async_logic (files : list string) (q : QueryInterval)
    (rl : gmap Z (list (cursor FullCursor.t))) s : outcome (gmap Z (list (cursor FullCursor.t))) :=
  foldM (fun rl f =>
    if negb (file_in_query f q s) then Ok rl
    else
      '(rdr_map, _) ← WALFile.intervalReader q (WALFile.open f true (_env s)) (_env s);
      Ok (fold_left push_reader (um_list rdr_map) rl)) files rl.

(** The query for one identifier. *)
Definition local_query (q : QueryInterval) (i : Z) : QueryInterval :=
  mkQueryInterval [i] (qi_flag q) (qi_from q) (qi_to q) (qi_step q).

Definition intervalReader (q : QueryInterval) s
  : outcome (gmap Z (cursor FullCursor.t) * t D) :=
  rl ← foldM (fun rl i =>
    files ← wal_files i s;
    intervalReader_async_logic files (local_query q i) rl s) (qi_ids q) ∅;
  '(i2ms, s) ← foldM (fun (p : gmap Z (list Meas) * t D) i =>
    '(l, s) ← find_buffered i p.2;
    Ok (fold_left (WALFile.select q) l p.1, s)) (qi_ids q) (∅, s);
  let rl := fold_left push_reader
    (um_list ((fun ma => FullCursor.make (std_sort time ma)) <$> i2ms)) rl in
  r ← colapseCursorsMap (um_list rl);
  Ok (list_to_map r, s).

Definition stat (i from to : Z) s : outcome (Statistic * t D) :=
  files ← wal_files i s;
  let qi := mkQueryInterval [i] 0 from to 0 in
  result ← foldM (fun result f =>
    if negb (file_in_query f qi s) then Ok result
    else
      '(local, _) ← WALFile.stat i from to (WALFile.open f true (_env s)) (_env s);
      Ok (update_stat local result)) files Statistic_empty;
  '(l, s) ← find_buffered i s;
  Ok (fold_left (fun result v =>
        if inInterval from to (time v) then update v result else result) l result, s).

Definition foreach {K} `{IReadCallback K} (q : QueryInterval) (clbk : K) s : outcome (K * t D) :=
  '(readers, s) ← intervalReader q s;
  clbk ← foldM (fun clbk kv =>
    '(clbk, _) ← ICursor.apply (S (Z.to_nat (cursor_count kv.2))) clbk kv.2;
    Ok clbk) (um_list readers) clbk;
  Ok (clbk, s).

(** The answers of the files: the first one that has data stays. *)
Definition merge_point (sub_result : gmap Z Meas) (kv : Z * Meas) : gmap Z Meas :=
  match sub_result !! kv.1 with
  | None => <[kv.1 := kv.2]> sub_result
  | Some m => if flag m =? _NO_DATA then <[kv.1 := kv.2]> sub_result else sub_result
  end.

Definition merge_buffered (q : QueryTimePoint) (sub_result : gmap Z Meas) (v : Meas)
  : gmap Z Meas :=
  if inQuery (qt_ids q) (qt_flag q) v then
    match sub_result !! id v with
    | None => <[id v := v]> sub_result
    | Some m =>
      if (flag v =? _NO_DATA) || ((time m <? time v) && (time v <=? qt_time_point q))
      then <[id v := v]> sub_result else sub_result
    end
  else sub_result.

Definition readTimePoint (q : QueryTimePoint) s : outcome (gmap Z Meas * t D) :=
  results ← foldM (fun results i =>
    files ← wal_files i s;
    let local_q := mkQueryTimePoint [i] (qt_flag q) (qt_time_point q) in
    foldM (fun results f =>
      if negb (file_in_point f local_q s) then Ok results
      else
        '(r, _) ← WALFile.readTimePoint local_q (WALFile.open f true (_env s)) (_env s);
        Ok (results ++ [r])) files results) (qt_ids q) [];
  let sub_result := fold_left (fun sub out => fold_left merge_point (um_list out) sub) results ∅ in
  '(sub_result, s) ← foldM (fun (p : gmap Z Meas * t D) i =>
    '(l, s) ← find_buffered i p.2;
    Ok (fold_left (merge_buffered q) l p.1, s)) (qt_ids q) (sub_result, s);
  Ok (fold_left (fun sub i =>
        match sub !! i with
        | None => <[i := mkMeas 0 (qt_time_point q) 0 _NO_DATA]> sub
        | Some _ => sub
        end) (qt_ids q) sub_result, s).

Definition merge_current (meases : gmap Z Meas) (kv : Z * Meas) : gmap Z Meas :=
  match meases !! kv.1 with
  | None => <[kv.1 := kv.2]> meases
  | Some m =>
    if (flag m =? _NO_DATA) || (time m <? time kv.2) then <[kv.1 := kv.2]> meases else meases
  end.

(** The buffers are not looked at. *)
Definition currentValue (ids : list Z) (fl : Z) s : outcome (gmap Z Meas * t D) :=
  meases ← foldM (fun meases i =>
    files ← wal_files i s;
    foldM (fun meases f =>
      '(sub_rdr, _) ← WALFile.currentValue ids fl (WALFile.open f true (_env s)) (_env s);
      Ok (fold_left merge_current (um_list sub_rdr) meases)) files meases) ids ∅;
  Ok (meases, s).

Definition loadMinMax s : outcome (Id2MinMax * t D) :=
  files ← wal_files_all s;
  result ← foldM (fun result f =>
    '(sub_res, _) ← WALFile.loadMinMax (WALFile.open f true (_env s)) (_env s);
    '(result, _) ← minmax_append result sub_res;
    Ok result) files (StrippedMap.make 1000);
  fold_buffered (fun result val =>
    StrippedMap.with_bucket MeasMinMax_default result (id val)
      (fun d => Ok (updateMin val (updateMax val d)))) result s.

End Manager.
End WALManager.

(** The manager as a source, for its settings. *)
Definition WALManager_IMeasSource {D} `{Paths} `{StdSort} `{UnorderedMap} (st : WalSettings)
  : IMeasSource (WALManager.t D) (cursor FullCursor.t) := {|
  ms_minMaxTime i s :=
    '(found, mn, mx, s) ← WALManager.minMaxTime st i s;
    Ok (if found : bool then Some (mn, mx) else None, s);
  ms_intervalReader := WALManager.intervalReader st;
  ms_readTimePoint := WALManager.readTimePoint st;
  ms_currentValue := WALManager.currentValue st;
|}.
