(* ===== verification/Series.v ===== *)
(** * Cursors on one series

    Readers of parts of a series that do not overlap in time are collapsed to a
    linear cursor on all of them ([flat]), and such cursors are collapsed again
    the same way: the readers of chunks in a page, of the pages in the manager and
    of the storages in the engine. *)

From Stdlib Require Import ZArith Lia Sorting.Sorted.
From stdpp Require Import base numbers list gmap.
From S2P Require Import Prelude Float64 Meas Stat StdSort ICursor FullCursor Chunk KMerge Cursors Colapse TimeTrackSpec Storages.

Local Open Scope Z_scope.

(** ** No reader overlaps another *)

Section NoOverlap.
Context (overlap : nat → nat → bool) (n : nat).
Hypothesis no_overlap : ∀ i j, (i < n)%nat → (j < n)%nat → i ≠ j → overlap i j = false.

Lemma colapse_row_alone s i : (i < n)%nat → processed_pos s = [] →
  colapse_row overlap n s i = mkColapse (overlapped s) [] (result_readers s ++ [i]).
Proof.
  intros Hi Hp. unfold colapse_row.
  assert (Hf : ∀ js, Forall (fun j => j < n)%nat js →
    fold_left (fun st j => colapse_pair overlap i j st) js (s, false) = (s, false)).
  { induction 1 as [|j js Hj _ IH]; [done|]. cbn [fold_left]. unfold colapse_pair at 2.
    destruct (Nat.eqb_spec i j) as [->|Hij]; cbn [negb]; [done|]. by rewrite no_overlap. }
  rewrite Hf by (apply Forall_forall; intros j Hj; apply elem_of_seq in Hj; lia).
  rewrite Hp. cbn [set_mem existsb negb andb]. done.
Qed.

Lemma colapse_positions_alone : colapse_positions overlap n = mkColapse [] [] (seq 0 n).
Proof.
  unfold colapse_positions.
  enough (Hg : ∀ k, (k <= n)%nat → fold_left (colapse_row overlap n) (seq 0 k) (mkColapse [] [] []) =
                                   mkColapse [] [] (seq 0 k)) by by apply Hg.
  induction k as [|k IH]; intros Hk; [done|].
  rewrite seq_S, fold_left_app, IH by lia. cbn [fold_left]. by rewrite colapse_row_alone by (done || lia).
Qed.
End NoOverlap.

Lemma Forall2_perm_r {A B} (P : A → B → Prop) xs ys ys' :
  ys ≡ₚ ys' → Forall2 P xs ys → ∃ xs', xs ≡ₚ xs' ∧ Forall2 P xs' ys'.
Proof.
  intros Hp Hf%Forall2_flip. destruct (Forall2_perm_l (flip P) ys ys' xs Hp Hf) as (xs' & Hx & Hf').
  exists xs'. split; [done|]. by apply Forall2_flip.
Qed.

(** ** Flat cursors *)

Section Flat.
Context {L : Type} `{CursorSpec L} `{StdSort}.

Record exact (r : L) (l : list Meas) : Prop := {
  ex_rep : rep r l;
  ex_min : cursor_minTime r = tfirst l;
  ex_max : cursor_maxTime r = tlast l;
  ex_count : cursor_count r = Z.of_nat (length l);
}.

Definition flat (c : cursor L) (l : list Meas) : Prop :=
  ∃ rs ls, Forall2 exact rs ls ∧ Forall (fun l => l ≠ []) ls ∧ concat ls = l ∧
    match c with
    | Leaf r => rs = [r]
    | LinearCursor n cs mn mx =>
      cs = Leaf <$> rs ∧ n = Z.of_nat (length l) ∧ mn = tfirst l ∧ mx = tlast l
    | MergeSortCursor _ _ _ _ _ _ => False
    end.

Lemma flat_leaf r l : exact r l → l ≠ [] → flat (Leaf r) l.
Proof.
  intros Hr Hl. exists [r], [l]. split; [constructor; [done|constructor]|]. split; [by repeat constructor|].
  cbn. by rewrite app_nil_r.
Qed.

Lemma leaves_flat rs ls : Forall2 exact rs ls → Forall (fun l => l ≠ []) ls → Forall2 flat (Leaf <$> rs) ls.
Proof.
  induction 1 as [|r l rs ls Hx _ IH]; intros Hn; [constructor|].
  apply Forall_cons_1 in Hn as [Hl Hn]. constructor; [by apply flat_leaf|by apply IH].
Qed.

Lemma flat_bounds c l : flat c l →
  c_minTime c = tfirst l ∧ c_maxTime c = tlast l ∧ c_count c = Z.of_nat (length l).
Proof.
  intros (rs & ls & Hr & _ & <- & Hc). destruct c as [r|??????|????]; [|done|].
  - subst rs. apply Forall2_cons_inv_l in Hr as (l & ls' & [_ E1 E2 E3] & Hn & ->).
    apply Forall2_nil_inv_l in Hn as ->. cbn. by rewrite app_nil_r.
  - destruct Hc as (_ & -> & -> & ->). done.
Qed.

Lemma flat_rep c l : flat c l → strictly_by time l → rep c l.
Proof.
  intros (rs & ls & Hr & Hn & <- & Hc) Hs. change (Rep c (concat ls)).
  assert (HR : Forall2 rep rs ls) by (eapply Forall2_impl; [exact Hr|]; by intros ? ? []).
  destruct c as [r|??????|????]; [|done|].
  - subst rs. apply Forall2_cons_inv_l in HR as (l & ls' & HR & Hn' & ->).
    apply Forall2_nil_inv_l in Hn' as ->. cbn. rewrite app_nil_r. by constructor.
  - destruct Hc as (-> & -> & -> & ->). constructor; [by apply leaves_Rep|done| |lia].
    apply Forall_concat. apply Forall_forall. intros m Hm. by apply strict_bounds.
Qed.

Lemma flat_unpack cs ls : Forall2 flat cs ls →
  ∃ rs lss, unpack_linear_readers cs = Leaf <$> rs ∧ Forall2 exact rs lss ∧
    Forall (fun l => l ≠ []) lss ∧ concat lss = concat ls.
Proof.
  induction 1 as [|c l cs ls (rs1 & ls1 & Hr1 & Hn1 & <- & Hc) _ (rs & lss & E & Hr & Hn & Ec)].
  { by exists [], []. }
  exists (rs1 ++ rs), (ls1 ++ lss). rewrite fmap_app, concat_app, Ec.
  split_and!; [|by apply Forall2_app|by apply Forall_app|done].
  destruct c as [r|??????|n cs' mn mx]; [|done|]; cbn [unpack_linear_readers]; rewrite E.
  - by subst rs1.
  - by destruct Hc as (-> & _).
Qed.

(** The first and last times of parts of a series. *)
Lemma parts_times ls : Forall (fun l => l ≠ []) ls → strictly_by time (concat ls) →
  strictly_by tfirst ls ∧ ∀ i j l l', ls !! i = Some l → ls !! j = Some l' → (i < j)%nat → tlast l < tfirst l'.
Proof.
  induction 1 as [|l ls Hl Hn IH]; intros Hs; [by split; [constructor|]|].
  cbn [concat] in Hs. apply StronglySorted_append in Hs as (Hs1 & Hs2 & Hx).
  destruct (IH Hs2) as [IH1 IH2].
  assert (Hall : ∀ l', l' ∈ ls → tlast l < tfirst l').
  { intros l' Hl'. destruct (tlast_elem l Hl) as (m & Hm & <-).
    rewrite Forall_forall in Hn. destruct (tfirst_elem l' (Hn _ Hl')) as (m' & Hm' & <-).
    apply Hx; [done|]. apply list_elem_of_In, in_concat. exists l'. split; by apply list_elem_of_In. }
  split.
  - constructor; [done|]. apply Forall_forall. intros l' Hl'. specialize (Hall l' Hl').
    destruct (tfirst_elem l Hl) as (m & Hm & <-). pose proof (strict_bounds l m Hs1 Hm). lia.
  - intros [|i] [|j] a b Ha Hb Hij; try lia; cbn in Ha, Hb.
    + injection Ha as <-. by apply Hall, list_elem_of_lookup_2 with j.
    + apply (IH2 i j a b); [done..|lia].
Qed.

Lemma exact_counts rs ls : Forall2 exact rs ls → counts (Leaf <$> rs) = Z.of_nat (length (concat ls)).
Proof.
  induction 1 as [|r l rs ls [_ _ _ E] _ IH]; [done|].
  rewrite fmap_cons. cbn [concat]. rewrite length_app.
  change (counts (Leaf r :: (Leaf <$> rs))) with (c_count (Leaf r) + counts (Leaf <$> rs)).
  rewrite IH. cbn [c_count]. lia.
Qed.

Lemma readers_maxTime_le (rs : list (cursor L)) x :
  (∀ r, r ∈ rs → c_maxTime r <= x) → MIN_TIME <= x → readers_maxTime rs <= x.
Proof.
  unfold readers_maxTime. generalize MIN_TIME. induction rs as [|r rs IH]; intros a Hr Ha; [done|].
  cbn [fold_left]. apply IH; [intros r' Hr'; apply Hr; by right|].
  specialize (Hr r ltac:(by left)). lia.
Qed.

Lemma exact_times rs ls : Forall2 exact rs ls → Forall (fun l => l ≠ []) ls → rs ≠ [] →
  strictly_by time (concat ls) → Forall (fun m => MIN_TIME <= time m <= MAX_TIME) (concat ls) →
  readers_minTime (Leaf <$> rs) = tfirst (concat ls) ∧ readers_maxTime (Leaf <$> rs) = tlast (concat ls).
Proof.
  intros Hr Hn Hne Hs Ht.
  assert (Hcn : concat ls ≠ []).
  { destruct Hr as [|r l rs ls _ _]; [done|]. apply Forall_cons_1 in Hn as [Hl _]. by destruct l. }
  assert (Hel : ∀ c, c ∈ Leaf <$> rs → ∃ l, l ∈ ls ∧ l ≠ [] ∧ c_minTime c = tfirst l ∧ c_maxTime c = tlast l).
  { intros c (r & -> & Hc)%list_elem_of_fmap. apply list_elem_of_lookup_1 in Hc as [k Hk].
    destruct (Forall2_lookup_l _ _ _ _ _ Hr Hk) as (l & Hl & [_ E1 E2 _]). exists l.
    apply list_elem_of_lookup_2 in Hl. rewrite Forall_forall in Hn. split_and!; auto. }
  assert (Hin : ∀ l m, l ∈ ls → m ∈ l → m ∈ concat ls).
  { intros l m Hl Hm. apply list_elem_of_In, in_concat. exists l. split; by apply list_elem_of_In. }
  assert (Hlv : ∀ m, m ∈ concat ls → ∃ c l, c ∈ Leaf <$> rs ∧ l ∈ ls ∧ m ∈ l ∧
      c_minTime c = tfirst l ∧ c_maxTime c = tlast l ∧ strictly_by time l).
  { intros m Hm. apply list_elem_of_In, in_concat in Hm as (l & Hl & Hm).
    apply list_elem_of_In in Hl, Hm. pose proof Hl as Hl'. apply list_elem_of_lookup_1 in Hl' as [k Hk].
    destruct (Forall2_lookup_r _ _ _ _ _ Hr Hk) as (r & Hrk & [_ E1 E2 _]). exists (Leaf r), l.
    destruct (strict_concat _ Hs) as [Hss _]. rewrite Forall_forall in Hss.
    split_and!; try done; [|by apply Hss]. apply list_elem_of_fmap_2, list_elem_of_lookup_2 with k, Hrk. }
  rewrite Forall_forall in Ht. split; apply Z.le_antisymm.
  - destruct (tfirst_elem _ Hcn) as (m & Hm & <-). destruct (Hlv m Hm) as (c & l & Hc & Hl & Hml & E1 & _ & Hsl).
    pose proof (readers_minTime_le _ _ Hc). pose proof (strict_bounds l m Hsl Hml). lia.
  - destruct (tfirst_elem _ Hcn) as (m0 & Hm0 & E0). apply readers_minTime_ge; [|specialize (Ht _ Hm0); cbn in *; lia].
    intros c Hc. destruct (Hel c Hc) as (l & Hl & Hln & -> & _). destruct (tfirst_elem l Hln) as (m & Hm & <-).
    by apply (strict_bounds (concat ls)), (Hin l).
  - destruct (tlast_elem _ Hcn) as (m0 & Hm0 & E0). apply readers_maxTime_le; [|specialize (Ht _ Hm0); cbn in *; lia].
    intros c Hc. destruct (Hel c Hc) as (l & Hl & Hln & _ & ->). destruct (tlast_elem l Hln) as (m & Hm & <-).
    by apply (strict_bounds (concat ls)), (Hin l).
  - destruct (tlast_elem _ Hcn) as (m & Hm & <-). destruct (Hlv m Hm) as (c & l & Hc & Hl & Hml & _ & E1 & Hsl).
    pose proof (readers_maxTime_ge _ _ Hc). pose proof (strict_bounds l m Hsl Hml). lia.
Qed.

(** ** Collapsing *)

Lemma unpack_perm (cs cs' : list (cursor L)) : cs ≡ₚ cs' → unpack_linear_readers cs ≡ₚ unpack_linear_readers cs'.
Proof.
  assert (Hc : ∀ (c : cursor L) cs, unpack_linear_readers (c :: cs) = unpack_linear_readers [c] ++ unpack_linear_readers cs).
  { intros [r|??????|????] cs0; cbn; by rewrite ?app_nil_r. }
  induction 1 as [|c cs cs' _ IH|c c' cs|? ? ? _ IH1 _ IH2]; [done| | |by etransitivity].
  - by rewrite (Hc c cs), (Hc c cs'), IH.
  - rewrite (Hc c' (c :: cs)), (Hc c cs), (Hc c (c' :: cs)), (Hc c' cs). apply Permutation_app_swap_app.
Qed.

Lemma make_linear_flat cs ls' ls : Forall2 flat cs ls' → ls' ≡ₚ ls → Forall (fun l => l ≠ []) ls → cs ≠ [] →
  strictly_by time (concat ls) → Forall (fun m => MIN_TIME <= time m <= MAX_TIME) (concat ls) →
  Z.of_nat (length (concat ls)) < 2 ^ 64 →
  flat (make_LinearCursor cs) (concat ls).
Proof.
  intros Hf' Hpm Hn Hne Hs Ht Hl.
  destruct (Forall2_perm_r flat cs ls' ls Hpm Hf') as (cs0 & Hpc & Hf).
  destruct (flat_unpack cs0 ls Hf) as (rs & lss & E & Hr & Hn' & Ec).
  unfold make_LinearCursor. pose proof (unpack_perm cs cs0 Hpc) as Hup. rewrite E in Hup. rewrite <- Ec in *.
  assert (Hrs : rs ≠ []).
  { intros ->. apply Forall2_nil_inv_l in Hr as ->. cbn in Ec. destruct Hf as [|c l cs0 ls _ _].
    - by apply Permutation_nil_r in Hpc.
    - apply Forall_cons_1 in Hn as [Hnl _]. by destruct l. }
  rewrite (std_sort_strict c_minTime (Leaf <$> rs)); [| |done].
  - exists rs, lss. split_and!; try done.
    + rewrite (readers_count_small _ lss); rewrite ?(exact_counts _ _ Hr); [done| |done].
      apply leaves_Rep. eapply Forall2_impl; [exact Hr|]. by intros ? ? [].
    + by apply (exact_times rs lss).
    + by apply (exact_times rs lss).
  - destruct (parts_times lss Hn' Hs) as [Hp _]. clear -Hr Hp.
    unfold strictly_by in *. revert Hp. induction Hr as [|r l rs lss [_ E _ _] Hr IH]; intros Hp; [constructor|].
    apply StronglySorted_inv in Hp as [Hp Ha]. rewrite fmap_cons. constructor; [by apply IH|].
    apply Forall_fmap, Forall_forall. intros r' Hr'. apply list_elem_of_lookup_1 in Hr' as [k Hk].
    destruct (Forall2_lookup_l _ _ _ _ _ Hr Hk) as (l' & Hl' & [_ E' _ _]).
    rewrite Forall_forall in Ha. specialize (Ha l' (list_elem_of_lookup_2 _ _ _ Hl')). cbn in *. by rewrite E, E'.
Qed.

Lemma parts_disjoint ls' ls i j l l' :
  ls' ≡ₚ ls → Forall (fun l => l ≠ []) ls → strictly_by time (concat ls) →
  ls' !! i = Some l → ls' !! j = Some l' → i ≠ j → tlast l < tfirst l' ∨ tlast l' < tfirst l.
Proof.
  intros Hp Hn Hs Hl Hl' Hij. destruct (parts_times ls Hn Hs) as [_ Ht].
  apply Permutation_inj in Hp as (_ & f & Hf & Ef). rewrite Ef in Hl, Hl'.
  assert (f i ≠ f j) by (intros E; by apply Hf in E).
  assert (f i < f j ∨ f j < f i)%nat as [Hlt|Hlt] by lia; [left|right]; by eapply Ht.
Qed.

(** Parts of a series in any order, one or collapsed. *)
Lemma colapse_flat cs ls' ls : Forall2 flat cs ls' → ls' ≡ₚ ls → Forall (fun l => l ≠ []) ls → cs ≠ [] →
  strictly_by time (concat ls) → Forall (fun m => MIN_TIME <= time m <= MAX_TIME) (concat ls) →
  Z.of_nat (length (concat ls)) < 2 ^ 64 →
  ∃ c, match cs with [r] => Ok r | rs => colapseCursors rs end = Ok c ∧ flat c (concat ls).
Proof.
  intros Hf Hpm Hn Hne Hs Ht Hl.
  assert (Hmk : colapseCursors cs = Ok (make_LinearCursor cs)).
  { unfold colapseCursors. rewrite colapse_positions_alone.
    - cbn [overlapped result_readers make_groups]. rewrite bind_Ok, at_positions_seq. by rewrite app_nil_r.
    - intros i j Hi Hj Hij. unfold overlap_of.
      apply lookup_lt_is_Some_2 in Hi as [a Ha], Hj as [b Hb]. rewrite Ha, Hb.
      destruct (Forall2_lookup_l _ _ _ _ _ Hf Ha) as (la & Hla & Fa).
      destruct (Forall2_lookup_l _ _ _ _ _ Hf Hb) as (lb & Hlb & Fb).
      destruct (flat_bounds _ _ Fa) as (E1 & E2 & _), (flat_bounds _ _ Fb) as (E3 & E4 & _).
      unfold is_linear_readers. rewrite negb_involutive, E1, E2, E3, E4.
      destruct (strict_concat _ Hs) as [Hss _].
      assert (Hin : ∀ k l, ls' !! k = Some l → tfirst l <= tlast l).
      { intros k l Hk%list_elem_of_lookup_2. rewrite Hpm in Hk. rewrite Forall_forall in Hss, Hn.
        destruct (tfirst_elem l (Hn _ Hk)) as (m & Hm & <-). by apply strict_bounds; [apply Hss|]. }
      pose proof (Hin _ _ Hla). pose proof (Hin _ _ Hlb).
      pose proof (parts_disjoint ls' ls i j la lb Hpm Hn Hs Hla Hlb Hij).
      unfold intervalsIntersection, inInterval. apply not_true_is_false.
      rewrite !orb_true_iff, !andb_true_iff, !Z.leb_le. lia. }
  pose proof (make_linear_flat cs ls' ls Hf Hpm Hn Hne Hs Ht Hl) as Hm.
  destruct cs as [|c [|c2 cs]]; [done| |by rewrite Hmk; eauto].
  exists c. split; [done|]. apply Forall2_cons_inv_l in Hf as (l & ls0 & Hc & Hnil & ->).
  apply Forall2_nil_inv_l in Hnil as ->. apply Permutation_singleton_l in Hpm as <-. cbn. by rewrite app_nil_r.
Qed.
End Flat.

(** ** Collapsing the readers of all series *)

Lemma colapse_gmap {L} `{CursorSpec L} `{StdSort} `{UnorderedMap} (rl : gmap Z (list (cursor L)))
    (P : Z → cursor L → Prop) :
  (∀ i rs, rl !! i = Some rs → ∃ c, match rs with [r] => Ok r | rs => colapseCursors rs end = Ok c ∧ P i c) →
  ∃ r, colapseCursorsMap (um_list rl) = Ok r ∧
    ∀ i, match list_to_map (M := gmap Z (cursor L)) r !! i with Some c => P i c | None => rl !! i = None end.
Proof.
  intros Hrl. destruct (colapse_map_ok (um_list rl) P) as (r & -> & Hf & Hr).
  { intros [i rs] Hi. rewrite um_perm in Hi. apply elem_of_map_to_list in Hi. cbn [fst snd].
    destruct (Hrl i rs Hi) as (c & E & Hc). exists c. split; [by destruct rs as [|? []]|done]. }
  exists r. split; [done|]. intros i. destruct (list_to_map r !! i) as [c|] eqn:Ei.
  - apply elem_of_list_to_map_2 in Ei. apply (Hr (i, c) Ei).
  - apply not_elem_of_list_to_map_2 in Ei. rewrite Hf in Ei. apply eq_None_not_Some. intros [cs Hcs].
    apply Ei, list_elem_of_fmap. exists (i, cs). split; [done|]. rewrite um_perm. by apply elem_of_map_to_list.
Qed.
