(* ===== verification/WalManagerSpec.v ===== *)
(** * Write-ahead log: what the manager keeps

    The files the manifest lists for an identifier and its buffer hold, in the
    order of writing, everything that was appended for it; flushing a buffer
    ends and moves it to the files; queries skip no file that has something
    they ask for. *)

From Stdlib Require Import ZArith Lia String Sorting.Sorted.
From stdpp Require Import base numbers list gmap strings.
From S2P Require Import Prelude Float64 Meas Bloom Stat StdSort ICursor FullCursor Chunk KMerge Cursors Colapse TimeTrackSpec Series.
From S2P Require Import StripedMap TimeTrack Storages Settings Files WalFile WalManager.

Local Open Scope Z_scope.
#[local] Opaque jenkins_one_at_a_time_hash.

Import WALManager.

(** ** Summary of one file *)

Definition ids_bloom (l : list Meas) : Z := fold_left (fun b v => bloom_add b (id v)) l bloom_empty.

Lemma ids_bloom_of l : ids_bloom l = bloom_of bloom_empty (id <$> l).
Proof.
  unfold ids_bloom, bloom_of. generalize bloom_empty. induction l as [|m l IH]; intros b; cbn; [done|].
  apply IH.
Qed.

Lemma ids_bloom_check l m : m ∈ l → bloom_check (ids_bloom l) (id m) = true.
Proof. intros Hm. rewrite ids_bloom_of. by apply bloom_of_check, list_elem_of_fmap_2. Qed.

Lemma fold_min_spec l t :
  fold_left (fun r v => Z.min (time v) r) l t <= t ∧
  Forall (fun m => fold_left (fun r v => Z.min (time v) r) l t <= time m) l.
Proof.
  revert t. induction l as [|m l IH]; intros t; cbn [fold_left]; [split; [lia|constructor]|].
  destruct (IH (Z.min (time m) t)) as [H1 H2]. split; [lia|]. constructor; [lia|done].
Qed.

Lemma fold_max_spec l t :
  t <= fold_left (fun r v => Z.max (time v) r) l t ∧
  Forall (fun m => time m <= fold_left (fun r v => Z.max (time v) r) l t) l.
Proof.
  revert t. induction l as [|m l IH]; intros t; cbn [fold_left]; [split; [lia|constructor]|].
  destruct (IH (Z.max (time m) t)) as [H1 H2]. split; [lia|]. constructor; [lia|done].
Qed.

(** The summary [mm] does not exclude anything a file with [l] has. *)
Definition covers (mm : TimeMinMax) (l : list Meas) : Prop :=
  Forall (fun m => tm_minTime mm <= time m <= tm_maxTime mm ∧
                   bloom_check (bloom_id mm) (id m) = true) l.

Definition bloom_kept (w : WALFile.t) (l : list Meas) : Prop :=
  WALFile._idBloom w = bloom_empty ∨ WALFile._idBloom w = ids_bloom l.

Lemma id_bloom_ok w e l :
  holds w e l → on_disk w e → bloom_kept w l → WALFile._file w = None →
  ∃ w', WALFile.id_bloom w e = Ok (ids_bloom l, w') ∧
    holds w' e l ∧ WALFile._filename w' = WALFile._filename w ∧
    WALFile._idBloom w' = ids_bloom l ∧ WALFile._file w' = None.
Proof.
  intros H Hd Hb Hf. unfold WALFile.id_bloom. destruct (Z.eqb_spec (WALFile._idBloom w) MIN_ID) as [E|E].
  - unfold WALFile.updateBloom.
    assert (H1 : holds (WALFile.set_bloom bloom_empty w) e l) by (by destruct H).
    rewrite (readAll_holds _ e l H1 Hd), !bind_Ok. eexists. split; [done|].
    split; [|done]. destruct H. by split; [..|left].
  - destruct Hb as [Hb|Hb]; [done|]. rewrite bind_Ok, Hb. by exists w.
Qed.

Lemma file_minmax_ok w e l :
  holds w e l → on_disk w e → bloom_kept w l →
  ∃ mm w', file_minmax w e = Ok (mm, w') ∧ covers mm l ∧
    holds w' e l ∧ WALFile._filename w' = WALFile._filename w ∧
    bloom_kept w' l ∧ WALFile._file w' = None.
Proof.
  intros H Hd Hb. unfold file_minmax, WALFile.minTime, WALFile.maxTime.
  pose proof (close_holds w e l H) as H1.
  rewrite (readAll_holds w e l H Hd), !bind_Ok, (readAll_holds (WALFile.close w) e l H1 Hd), !bind_Ok.
  destruct (id_bloom_ok (WALFile.close w) e l H1 Hd Hb eq_refl) as (w' & E & H' & N & B & F).
  change (WALFile.close (WALFile.close w)) with (WALFile.close w).
  rewrite E, bind_Ok. do 2 eexists. split; [done|]. split; [|by split_and!; [..|right|]].
  destruct (fold_min_spec l MAX_TIME) as [_ Hmn]. destruct (fold_max_spec l MIN_TIME) as [_ Hmx].
  unfold covers. rewrite Forall_forall in *. intros m Hm. cbn.
  split; [split; [by apply Hmn|by apply Hmx]|by apply ids_bloom_check].
Qed.

(** Appending keeps the filter of an object. *)
Lemma note_bloom vs w :
  WALFile._idBloom (fold_left WALFile.note vs w) =
  fold_left (fun b v => bloom_add b (id v)) vs (WALFile._idBloom w).
Proof. revert w. induction vs as [|v vs IH]; intros w; [done|]. cbn. by rewrite IH. Qed.

Lemma append_range_bloom st ms w e l sta w' e' :
  WALFile.append_range st ms w e = Ok (sta, w', e') →
  holds w e l → holds w' e' (l ++ take (Z.to_nat (default 0 (writed sta))) ms) →
  WALFile._idBloom w = ids_bloom l →
  WALFile._idBloom w' = ids_bloom (l ++ take (Z.to_nat (default 0 (writed sta))) ms).
Proof.
  unfold WALFile.append_range. intros E H H' Hb. apply bind_Ok_inv in E as ([w1 e1] & E1 & E).
  assert (Hb1 : WALFile._idBloom w1 = ids_bloom l).
  { unfold WALFile.open_to_append in E1. destruct (WALFile._file w); [by simplify_eq|].
    destruct (fopen_ab _ _); by simplify_eq. }
  match goal with H : (if ?z =? 0 then _ else _) = _ |- _ => set (z0 := z) in H end.
  destruct (z0 =? 0); [simplify_eq; cbn; by rewrite app_nil_r|].
  destruct (_ <? z0); [done|]. simplify_eq. cbn [writed Status_writed default].
  cbn [WALFile._idBloom WALFile.close WALFile.set_file WALFile.add_writed].
  rewrite note_bloom, Hb1. unfold ids_bloom. by rewrite fold_left_app.
Qed.

(** ** The files of the manager *)

Section Spec.
Context {D : Type} `{IWALDropper D} `{Paths} `{FileNames} `{StdSort} `{UnorderedMap}.
Variable st : WalSettings.

(** No two calls of the clock give one name, the storage below takes what it is
    given, and a file and a buffer have room. *)
Hypothesis names_differ : ∀ i j,
  random_file_name i WAL_FILE_EXT = random_file_name j WAL_FILE_EXT → i = j.
Hypothesis dropper_accepts : ∀ f g (d : D), ∃ d', wd_dropWAL f g d = Ok d'.
Hypothesis file_room : 1 <= wal_file_size st < 2 ^ 59.
Hypothesis cache_room : 2 <= wal_cache_size st < 2 ^ 59.

(** What else is kept track of: a predicate on the open file of each series, the
    storage below, the files sent to it, and the environment. *)
Variable T : gmap Z string → option D → gset string → env → Prop.

Definition name (k : nat) : string := random_file_name k WAL_FILE_EXT.
Definition path (n : string) : string := append_path (raw_path st) n.
Definition rows (e : env) : list Manifest.WalFileDescription := Manifest.wal (e_manifest e).

(** The names of the files of a series, in the order of their creation. *)
Definition names (i : Z) (e : env) : list string :=
  Manifest.fname <$> base.filter (fun d => Manifest.measId d = i) (rows e).

(** The measurements of a series in its files; [fc] gives the contents. *)
Definition flog (i : Z) (e : env) (fc : string → list Meas) : list Meas := concat (fc <$> names i e).

Record files_ok (e : env) (fc : string → list Meas) : Prop := {
  fo_db : Manifest.db_ok (e_manifest e) = true;
  fo_names : ∀ d, d ∈ rows e → ∃ k, (k < e_calls e)%nat ∧ Manifest.fname d = name k;
  fo_nodup : NoDup (Manifest.fname <$> rows e);
  fo_fresh : ∀ k, (e_calls e <= k)%nat → fs_files (e_fs e) !! path (name k) = None;
  fo_writable : ∀ k, fs_writable (e_fs e) (path (name k)) = true;
  fo_content : ∀ d, d ∈ rows e →
    default [] (fs_files (e_fs e) !! path (Manifest.fname d)) =
    concat (Meas_bytes <$> fc (Manifest.fname d));
  fo_wf : ∀ d, d ∈ rows e →
    Forall (fun m => meas_wf m ∧ id m = Manifest.measId d) (fc (Manifest.fname d)) ∧
    Z.of_nat (length (fc (Manifest.fname d))) <= wal_file_size st;
}.

Record mm_ok (e : env) (fc : string → list Meas) (mm : gmap string TimeMinMax) : Prop := {
  mo_covers : ∀ d x, d ∈ rows e → mm !! path (Manifest.fname d) = Some x →
    covers x (fc (Manifest.fname d));
  mo_fresh : ∀ k, (e_calls e <= k)%nat → mm !! path (name k) = None;
}.

Definition core (s : t D) (fc : string → list Meas) (op : gmap Z string) : Prop :=
  files_ok (_env s) fc ∧ mm_ok (_env s) fc (_file2minmax s) ∧
  T op (_down s) (_files_send_to_drop s) (_env s).

(** [w] is the file the series [i] is written to. *)
Record current (i : Z) (e : env) (fc : string → list Meas) (mm : gmap string TimeMinMax)
    (n : string) (w : WALFile.t) : Prop := {
  cu_last : last (names i e) = Some n;
  cu_name : WALFile._filename w = path n;
  cu_holds : holds w e (fc n);
  cu_bloom : WALFile._idBloom w = ids_bloom (fc n);
  cu_mm : mm !! path n = None;
}.

(** Only the files of the series [i] have changed. *)
Record only (i : Z) (e : env) (fc : string → list Meas) (mm : gmap string TimeMinMax)
    (e' : env) (fc' : string → list Meas) (mm' : gmap string TimeMinMax) : Prop := {
  on_names : ∀ j, j ≠ i → names j e' = names j e;
  on_sub : ∀ n, n ∈ names i e → n ∈ names i e';
  on_fc : ∀ n, n ∉ names i e' → fc' n = fc n;
  on_files : ∀ k, name k ∉ names i e' →
    fs_files (e_fs e') !! path (name k) = fs_files (e_fs e) !! path (name k);
  on_mm : ∀ k, name k ∉ names i e' → mm' !! path (name k) = mm !! path (name k);
}.

Definition upd (n : string) (l : list Meas) (fc : string → list Meas) : string → list Meas :=
  fun n' => if decide (n' = n) then l else fc n'.

Lemma upd_eq n l fc : upd n l fc n = l.
Proof. unfold upd. by rewrite decide_True. Qed.
Lemma upd_ne n n' l fc : n' ≠ n → upd n l fc n' = fc n'.
Proof. intros. unfold upd. by rewrite decide_False. Qed.

Lemma path_inj k k' : path (name k) = path (name k') → name k = name k'.
Proof.
  intros E. apply (f_equal extract_filename) in E. unfold path in E.
  by rewrite !extract_append in E by (by apply random_file_name_plain).
Qed.

Lemma elem_names i e n :
  n ∈ names i e ↔ ∃ d, d ∈ rows e ∧ Manifest.measId d = i ∧ Manifest.fname d = n.
Proof.
  unfold names. rewrite list_elem_of_fmap. split.
  - intros (d & -> & [Hi Hd]%list_elem_of_filter). by exists d.
  - intros (d & Hd & Hi & <-). exists d. split; [done|]. by apply list_elem_of_filter.
Qed.

(** A file belongs to one row. *)
Lemma row_unique e fc d d' :
  files_ok e fc → d ∈ rows e → d' ∈ rows e → Manifest.fname d = Manifest.fname d' → d = d'.
Proof.
  intros Hf Hd Hd' E. apply list_elem_of_lookup in Hd as [a Ha].
  apply list_elem_of_lookup in Hd' as [b Hb].
  assert (a = b) as <-; [|congruence].
  apply (NoDup_lookup _ a b (Manifest.fname d) (fo_nodup e fc Hf)); rewrite list_lookup_fmap.
  - by rewrite Ha.
  - rewrite Hb. cbn. by rewrite E.
Qed.

Lemma names_disjoint e fc i j n : files_ok e fc → n ∈ names i e → n ∈ names j e → i = j.
Proof.
  intros Hf (d & Hd & <- & E)%elem_names (d' & Hd' & <- & E')%elem_names.
  by rewrite (row_unique e fc d d') by (done || congruence).
Qed.

Lemma names_name e fc i n : files_ok e fc → n ∈ names i e → ∃ k, (k < e_calls e)%nat ∧ n = name k.
Proof. intros Hf (d & Hd & _ & <-)%elem_names. by apply (fo_names e fc Hf). Qed.

Lemma only_refl i e fc mm : only i e fc mm e fc mm.
Proof. by split. Qed.

Lemma only_trans i e1 fc1 mm1 e2 fc2 mm2 e3 fc3 mm3 :
  only i e1 fc1 mm1 e2 fc2 mm2 → only i e2 fc2 mm2 e3 fc3 mm3 → only i e1 fc1 mm1 e3 fc3 mm3.
Proof.
  intros [A1 A2 A3 A4 A5] [B1 B2 B3 B4 B5]. split.
  - intros j Hj. by rewrite B1, A1.
  - auto.
  - intros n Hn. rewrite B3, A3 by auto. done.
  - intros k Hn. rewrite B4, A4 by auto. done.
  - intros k Hn. rewrite B5, A5 by auto. done.
Qed.

(** The file of another series stays the file of that series. *)
Lemma current_only i j e fc mm e' fc' mm' n w :
  only i e fc mm e' fc' mm' → files_ok e fc → files_ok e' fc' → j ≠ i →
  current j e fc mm n w → current j e' fc' mm' n w.
Proof.
  intros Ho Hf Hf' Hne [C1 C2 C3 C4 C5].
  assert (Hn : n ∈ names j e) by (apply last_Some_elem_of in C1; done).
  assert (Hn' : n ∉ names i e').
  { intros Hi. apply Hne. eapply (names_disjoint e' fc'); [done| |exact Hi].
    by rewrite (on_names _ _ _ _ _ _ _ Ho j Hne). }
  destruct (names_name e fc j n Hf Hn) as (k & _ & ->).
  pose proof (on_fc _ _ _ _ _ _ _ Ho _ Hn') as Efc.
  pose proof (on_files _ _ _ _ _ _ _ Ho _ Hn') as Efs.
  split.
  - by rewrite (on_names _ _ _ _ _ _ _ Ho j Hne).
  - done.
  - destruct C3 as [B1 B2 B3 B4]. rewrite C2 in B1. unfold on_disk in B4. rewrite C2 in B4.
    split; rewrite ?Efc; [by rewrite C2, Efs|done|done|].
    unfold on_disk. by rewrite C2, Efs.
  - by rewrite Efc.
  - by rewrite (on_mm _ _ _ _ _ _ _ Ho _ Hn').
Qed.

(** *** Appending to the current file *)

Lemma flog_upd i e fc n l' :
  NoDup (names i e) → last (names i e) = Some n →
  flog i e (upd n (fc n ++ l') fc) = flog i e fc ++ l'.
Proof.
  intros Hnd Hl. unfold flog. apply last_Some in Hl as [ns E]. rewrite E in *.
  apply NoDup_app in Hnd as (_ & Hd & _).
  rewrite !fmap_app, !concat_app. cbn. rewrite upd_eq, !app_nil_r, (assoc_L (++)). do 2 f_equal.
  f_equal. apply list_fmap_ext. intros k x Hx. apply upd_ne. intros ->.
  apply (Hd n); [by eapply list_elem_of_lookup_2|by left].
Qed.

Lemma names_NoDup i e fc : files_ok e fc → NoDup (names i e).
Proof.
  intros Hf. eapply sublist_NoDup; [apply (fo_nodup e fc Hf)|].
  apply fmap_sublist, sublist_filter.
Qed.

Lemma frame_other k k' e e' :
  frame (path (name k)) e e' → k' ≠ k →
  fs_files (e_fs e') !! path (name k') = fs_files (e_fs e) !! path (name k').
Proof. intros F Hne. apply (fr_files _ _ _ F). intros E%path_inj%names_differ. done. Qed.

(** One file has new contents. *)
Lemma fc_upd_other e fc d d' k l' :
  files_ok e fc → d ∈ rows e → Manifest.fname d = name k → d' ∈ rows e → d' ≠ d →
  upd (name k) l' fc (Manifest.fname d') = fc (Manifest.fname d').
Proof.
  intros Hf Hd En Hd' Hne. apply upd_ne. rewrite <- En. intros E2. apply Hne. by eapply row_unique.
Qed.

Lemma files_ok_upd e e' fc d k l' :
  files_ok e fc → d ∈ rows e → Manifest.fname d = name k → (k < e_calls e)%nat →
  frame (path (name k)) e e' →
  default [] (fs_files (e_fs e') !! path (name k)) = concat (Meas_bytes <$> l') →
  Forall (fun m => meas_wf m ∧ id m = Manifest.measId d) l' →
  Z.of_nat (length l') <= wal_file_size st →
  files_ok e' (upd (name k) l' fc).
Proof.
  intros Hf Hd En Hk F Hb Hwf Hlen.
  assert (Er : rows e' = rows e) by (unfold rows; by rewrite (fr_manifest _ _ _ F)).
  split; rewrite ?Er, ?(fr_calls _ _ _ F), ?(fr_writable _ _ _ F), ?(fr_manifest _ _ _ F);
    try by apply Hf.
  - intros k' Hk'. rewrite (frame_other k k' e e' F) by lia. by apply (fo_fresh e fc Hf).
  - intros d' Hd'. destruct (decide (d' = d)) as [->|Hne]; [by rewrite En, upd_eq|].
    rewrite (fc_upd_other e fc d) by done. destruct (fo_names e fc Hf d' Hd') as (k' & _ & Ek).
    rewrite Ek, (frame_other k k' e e' F), <- Ek; [by apply (fo_content e fc Hf)|].
    intros ->. apply Hne. eapply (row_unique e fc); [done..|congruence].
  - intros d' Hd'. destruct (decide (d' = d)) as [->|Hne]; [by rewrite En, upd_eq|].
    rewrite (fc_upd_other e fc d) by done. by apply (fo_wf e fc Hf).
Qed.

Lemma mm_ok_upd e e' fc mm d k l' :
  files_ok e fc → mm_ok e fc mm → d ∈ rows e → Manifest.fname d = name k →
  mm !! path (name k) = None → frame (path (name k)) e e' → mm_ok e' (upd (name k) l' fc) mm.
Proof.
  intros Hf Hm Hd En Hn F.
  assert (Er : rows e' = rows e) by (unfold rows; by rewrite (fr_manifest _ _ _ F)).
  split; rewrite ?Er, ?(fr_calls _ _ _ F); [|apply (mo_fresh e fc mm Hm)].
  intros d' x Hd' Hx. destruct (decide (d' = d)) as [->|Hne]; [congruence|].
  rewrite (fc_upd_other e fc d) by done. by apply (mo_covers e fc mm Hm).
Qed.

Lemma append_current i e fc mm n w ms :
  files_ok e fc → mm_ok e fc mm → current i e fc mm n w →
  Forall (fun m => meas_wf m ∧ id m = i) ms → Z.of_nat (length ms) < 2 ^ 59 →
  let r := room st (fc n) ms in
  let fc' := upd n (fc n ++ take r ms) fc in
  ∃ w' e', WALFile.append_range st ms w e =
      Ok (if (r =? 0)%nat then mkStatus (Some 0) (Z.of_nat (length ms)) wal_file_limit
          else Status_writed (Z.of_nat r), w', e') ∧
    files_ok e' fc' ∧ mm_ok e' fc' mm ∧ current i e' fc' mm n w' ∧ on_disk w' e' ∧
    (∀ j, names j e' = names j e) ∧ only i e fc mm e' fc' mm ∧
    flog i e' fc' = flog i e fc ++ take r ms ∧ frame (path n) e e'.
Proof.
  intros Hf Hm [C1 C2 C3 C4 C5] Hms Hs r fc'.
  assert (Hn : n ∈ names i e) by (by apply last_Some_elem_of in C1).
  destruct (names_name e fc i n Hf Hn) as (k & Hk & ->).
  pose proof Hn as (d & Hd & Hi & En)%elem_names.
  destruct (fo_wf e fc Hf d Hd) as [Hwf Hlen]. rewrite En in *.
  destruct (append_range_holds st ms w e (fc (name k)) C3) as (w' & e' & E & N & F & H' & Dd);
    [rewrite C2; apply (fo_writable e fc Hf)|by eapply Forall_impl; [exact Hms|intros ? []]|lia..|].
  rewrite C2 in N, F. fold r in E, H'.
  assert (En' : ∀ j, names j e' = names j e)
    by (intros j; unfold names, rows; by rewrite (fr_manifest _ _ _ F)).
  exists w', e'. split; [done|]. split_and!; try done.
  - apply (files_ok_upd e e' fc d); try done.
    + rewrite <- N. apply (h_bytes _ _ _ H').
    + rewrite Hi in *. apply Forall_app. split; [done|]. by apply Forall_take.
    + rewrite length_app, length_take. unfold r, room. lia.
  - by apply (mm_ok_upd e e' fc mm d).
  - split; rewrite ?En'; try done; unfold fc'; rewrite upd_eq; [done|].
    assert (Ew : take (Z.to_nat (default 0 (writed (if (r =? 0)%nat
        then mkStatus (Some 0) (Z.of_nat (length ms)) wal_file_limit
        else Status_writed (Z.of_nat r))))) ms = take r ms).
    { destruct (Nat.eqb_spec r 0) as [->|]; [done|]. cbn. by rewrite Nat2Z.id. }
    rewrite <- Ew in H' |- *. by eapply append_range_bloom.
  - split; rewrite ?En'; try done.
    + intros n' Hn'. apply upd_ne. by intros ->.
    + intros k' Hk'. apply (frame_other k); [done|]. by intros ->.
  - unfold flog. rewrite En'. change (concat (fc' <$> names i e)) with (flog i e fc').
    apply flog_upd; [by eapply names_NoDup|done].
Qed.

(** *** A new file *)

Definition with_row (i : Z) (e : env) : env :=
  mkEnv (e_fs e) (Manifest.set_wal (rows e ++ [Manifest.mkDescr (name (e_calls e)) i]) (e_manifest e))
        (S (e_calls e)).

Lemma fresh_name e fc j : files_ok e fc → name (e_calls e) ∉ names j e.
Proof.
  intros Hf Hn. destruct (names_name e fc j _ Hf Hn) as (k & Hk & E%names_differ). lia.
Qed.

Lemma rows_with_row e fc i d :
  files_ok e fc → d ∈ rows (with_row i e) →
  (d ∈ rows e ∧ Manifest.fname d ≠ name (e_calls e)) ∨ d = Manifest.mkDescr (name (e_calls e)) i.
Proof.
  intros Hf Hd. unfold rows, with_row in Hd. cbn in Hd.
  apply elem_of_app in Hd as [Hd|Hd]; [left|right; by apply list_elem_of_singleton in Hd].
  split; [done|]. intros E. apply (fresh_name e fc (Manifest.measId d) Hf).
  apply elem_names. by exists d.
Qed.

Lemma names_with_row e i j :
  names j (with_row i e) = names j e ++ (if decide (i = j) then [name (e_calls e)] else []).
Proof.
  unfold names, rows at 1, with_row. cbn. rewrite filter_app, fmap_app. f_equal.
  rewrite filter_cons. cbn. by destruct (decide (i = j)).
Qed.

Lemma files_ok_with_row e fc i :
  files_ok e fc → files_ok (with_row i e) (upd (name (e_calls e)) [] fc).
Proof.
  intros Hf. split; try by apply Hf.
  - intros d Hd. destruct (rows_with_row e fc i d Hf Hd) as [[Hd' _]|Ed].
    + destruct (fo_names e fc Hf d Hd') as (k & Hk & E). exists k. split; [cbn; lia|done].
    + exists (e_calls e). split; [cbn; lia|by rewrite Ed].
  - unfold rows, with_row. cbn. rewrite fmap_app. apply NoDup_app. split; [apply Hf|].
    split; [|apply NoDup_singleton]. intros x (d & -> & Hd)%list_elem_of_fmap Hx%list_elem_of_singleton.
    apply (fresh_name e fc (Manifest.measId d) Hf). apply elem_names. by exists d.
  - intros k Hk. apply (fo_fresh e fc Hf). cbn in Hk. lia.
  - intros d Hd. destruct (rows_with_row e fc i d Hf Hd) as [[Hd' Hne]|Ed].
    + rewrite upd_ne by done. by apply (fo_content e fc Hf).
    + rewrite Ed. cbn [Manifest.fname]. rewrite upd_eq. by rewrite (fo_fresh e fc Hf).
  - intros d Hd. destruct (rows_with_row e fc i d Hf Hd) as [[Hd' Hne]|Ed].
    + rewrite upd_ne by done. by apply (fo_wf e fc Hf).
    + rewrite Ed. cbn [Manifest.fname]. rewrite upd_eq. split; [constructor|cbn; lia].
Qed.

Lemma mm_ok_with_row e fc mm i :
  files_ok e fc → mm_ok e fc mm → mm_ok (with_row i e) (upd (name (e_calls e)) [] fc) mm.
Proof.
  intros Hf Hm. split.
  - intros d x Hd Hx. destruct (rows_with_row e fc i d Hf Hd) as [[Hd' Hne]|Ed].
    + rewrite upd_ne by done. by apply (mo_covers e fc mm Hm).
    + rewrite Ed. cbn [Manifest.fname]. rewrite upd_eq. constructor.
  - intros k Hk. apply (mo_fresh e fc mm Hm). cbn in Hk. lia.
Qed.

Lemma create_ok e fc mm i :
  files_ok e fc → mm_ok e fc mm →
  let n := name (e_calls e) in
  let fc' := upd n [] fc in
  ∃ w, WALFile.create st i e = Ok (w, with_row i e) ∧
    current i (with_row i e) fc' mm n w ∧ only i e fc mm (with_row i e) fc' mm ∧
    flog i (with_row i e) fc' = flog i e fc.
Proof.
  intros Hf Hm n fc'. unfold WALFile.create, next_file_name, Manifest.wal_append, Manifest.prepare.
  cbn [e_manifest]. rewrite (fo_db e fc Hf), !bind_Ok. eexists. split; [done|]. split_and!.
  - split; unfold fc'; rewrite ?upd_eq; try done.
    + rewrite names_with_row, decide_True by done. by rewrite last_snoc.
    + split; [|done|constructor|by left]. cbn. fold (name (e_calls e)). fold (path (name (e_calls e))).
      by rewrite (fo_fresh e fc Hf).
    + by apply (mo_fresh e fc mm Hm).
  - split; try done.
    + intros j Hj. rewrite names_with_row, decide_False by done. apply app_nil_r.
    + intros x Hx. rewrite names_with_row. apply elem_of_app. by left.
    + intros x Hx. apply upd_ne. intros ->. apply Hx. rewrite names_with_row, decide_True by done.
      apply elem_of_app. right. by left.
  - unfold flog. rewrite names_with_row, decide_True, fmap_app, concat_app by done. cbn.
    unfold fc'. rewrite upd_eq, !app_nil_r. f_equal. apply list_fmap_ext. intros x y Hy. apply upd_ne.
    intros ->. by eapply (fresh_name e fc i Hf), list_elem_of_lookup_2.
Qed.

(** [create_new] sends the file it closes to the storage below. *)
Definition close_file (f : string) (s : t D) : outcome (t D) :=
  match wal_strategy st with WAL => Ok s | _ => dropFile f s end.

(** What is kept track of goes through a write to an open file, through its close,
    and through the making of a new one. *)
Hypothesis T_write : ∀ op i n d x fc e e',
  files_ok e fc → T op d x e → op !! i = Some n → n ∈ names i e → frame (path n) e e' → T op d x e'.
Hypothesis T_close : ∀ op i n fc (s s' : t D),
  files_ok (_env s) fc → T op (_down s) (_files_send_to_drop s) (_env s) → op !! i = Some n →
  last (names i (_env s)) = Some n → is_Some (fs_files (e_fs (_env s)) !! path n) →
  close_file (path n) s = Ok s' → _env s' = _env s →
  T (delete i op) (_down s') (_files_send_to_drop s') (_env s').
Hypothesis T_new : ∀ op i d x fc e,
  files_ok e fc → T op d x e → op !! i = None → T (<[i := name (e_calls e)]> op) d x (with_row i e).

(** Everything but what is dropped is as before. *)
Definition same_store (s s' : t D) : Prop :=
  _env s' = _env s ∧ _file2minmax s' = _file2minmax s ∧ _buffers s' = _buffers s ∧ _bds s' = _bds s.

Lemma dropFile_ok f s fc : files_ok (_env s) fc → ∃ s', dropFile f s = Ok s' ∧ same_store s s'.
Proof.
  intros Hf. unfold dropFile. destruct (_down s) as [d|]; [|by exists s].
  destruct (bool_decide _).
  - rewrite bind_Ok. unfold Manifest.wal_list, Manifest.prepare. rewrite (fo_db _ _ Hf), !bind_Ok.
    by eexists.
  - unfold dropWAL. cbn [_env set_sent]. destruct (dropper_accepts (extract_filename f) (e_fs (_env s)) d) as [d' ->]. rewrite !bind_Ok.
    cbn [_env set_down set_sent]. unfold Manifest.wal_list, Manifest.prepare.
    rewrite (fo_db _ _ Hf), !bind_Ok. by eexists.
Qed.

(** The summary of a file that is closed. *)
Lemma mm_ok_close i e fc mm n w x :
  files_ok e fc → mm_ok e fc mm → current i e fc mm n w → covers x (fc n) →
  mm_ok e fc (<[path n := x]> mm) ∧ only i e fc mm e fc (<[path n := x]> mm).
Proof.
  intros Hf Hm [C1 C2 C3 C4 C5] Hx.
  assert (Hn : n ∈ names i e) by (by apply last_Some_elem_of in C1).
  destruct (names_name e fc i n Hf Hn) as (k & Hk & ->). split.
  - split.
    + intros d y Hd Hy. destruct (decide (Manifest.fname d = name k)) as [E|E].
      * rewrite E, lookup_insert_eq in Hy. injection Hy as <-. by rewrite E.
      * rewrite lookup_insert_ne in Hy; [by apply (mo_covers e fc mm Hm)|].
        destruct (fo_names e fc Hf d Hd) as (k' & _ & Ek). rewrite Ek in *.
        intros E'%path_inj. congruence.
    + intros k' Hk'. rewrite lookup_insert_ne; [by apply (mo_fresh e fc mm Hm)|].
      intros E%path_inj%names_differ. lia.
  - split; try done. intros k' Hk'. rewrite lookup_insert_ne; [done|].
    intros E%path_inj. congruence.
Qed.

Lemma create_new_ok p i s fc op bd :
  core s fc op → _bds s !! p = Some bd →
  (∀ w, walfile bd = Some w →
    ∃ n, current i (_env s) fc (_file2minmax s) n w ∧ on_disk w (_env s) ∧ op !! i = Some n) →
  (walfile bd = None → op !! i = None) →
  let n' := name (e_calls (_env s)) in
  let fc' := upd n' [] fc in
  ∃ s' w', create_new st p i s = Ok s' ∧ core s' fc' (<[i := n']> op) ∧
    _env s' = with_row i (_env s) ∧ current i (_env s') fc' (_file2minmax s') n' w' ∧
    only i (_env s) fc (_file2minmax s) (_env s') fc' (_file2minmax s') ∧
    flog i (_env s') fc' = flog i (_env s) fc ∧
    _buffers s' = _buffers s ∧ _bds s' = <[p := set_walfile (Some w') bd]> (_bds s).
Proof.
  intros (Hf & Hm & Ht) Hp Hw Hnone n' fc'. unfold create_new, deref. rewrite Hp, bind_Ok.
  match goal with |- context [(match walfile bd with None => Ok s | Some w => @?f w end) ≫= _] =>
    set (act := match walfile bd with None => Ok s | Some w => f w end) end.
  assert (∃ s1, act = Ok s1 ∧ _env s1 = _env s ∧ _buffers s1 = _buffers s ∧ _bds s1 = _bds s ∧
    mm_ok (_env s) fc (_file2minmax s1) ∧
    only i (_env s) fc (_file2minmax s) (_env s) fc (_file2minmax s1) ∧
    T (delete i op) (_down s1) (_files_send_to_drop s1) (_env s))
    as (s1 & E1 & Ee & Eb & Ed & Hm1 & O1 & Ht1).
  { unfold act. destruct (walfile bd) as [w|].
    2:{ exists s. rewrite delete_id by by apply Hnone. by split_and!. }
    destruct (Hw w eq_refl) as (n & Hc & Hd & Hop). pose proof Hc as [C1 C2 C3 C4 C5].
    destruct (file_minmax_ok w (_env s) (fc n) C3 Hd) as (mm & w' & E & Hcov & _ & N & _); [by right|].
    rewrite E, bind_Ok, N, C2.
    destruct (mm_ok_close i (_env s) fc _ n w mm Hf Hm Hc Hcov) as [M1 M2].
    set (s1 := set_mm (<[path n := mm]> (_file2minmax s)) s). fold (close_file (path n) s1).
    assert (Hdrop : ∃ s2, close_file (path n) s1 = Ok s2 ∧ same_store s1 s2).
    { pose proof (dropFile_ok (path n) s1 fc Hf). unfold close_file. destruct (wal_strategy st); try done. by exists s1. }
    destruct Hdrop as (s2 & E2 & E1 & E3 & E4 & E5). exists s2. split; [done|]. rewrite E3, E4, E5. split_and!; try done.
    change (_env s) with (_env s1). rewrite <- E1. apply (T_close op i n fc s1 s2); try done.
    unfold on_disk in Hd. by rewrite C2 in Hd. }
  rewrite E1, bind_Ok, Ee.
  destruct (create_ok (_env s) fc (_file2minmax s1) i Hf Hm1) as (w & -> & Hc & O2 & Hl).
  rewrite bind_Ok. do 2 eexists. split; [done|]. cbn [_env _file2minmax _buffers _bds put_bd set_bds set_env].
  rewrite Eb, Ed. split_and!; try done.
  - split; [by apply files_ok_with_row|]. split; [by apply mm_ok_with_row|].
    cbn [_down _files_send_to_drop put_bd set_bds set_env _env]. rewrite <- insert_delete_eq.
    apply (T_new (delete i op) i _ _ fc); [done..|apply lookup_delete_eq].
  - by eapply only_trans.
Qed.

(** *** Flushing a buffer *)

(** The files have something, the one called [n] aside. *)
Definition filled_but (n : string) (e : env) (fc : string → list Meas) : Prop :=
  ∀ d, d ∈ rows e → Manifest.fname d ≠ n → fc (Manifest.fname d) ≠ [].
Definition filled (e : env) (fc : string → list Meas) : Prop :=
  ∀ d, d ∈ rows e → fc (Manifest.fname d) ≠ [].

(** [vs] has been moved from the buffer at [p] to the files of [i]. *)
Record flushed (p : nat) (i : Z) (vs : list Meas) (bd : BufferDescription) (s : t D)
    (fc : string → list Meas) (op : gmap Z string) (s' : t D) (fc' : string → list Meas) (n' : string)
    (w' : WALFile.t) : Prop := {
  fl_core : core s' fc' (<[i := n']> op);
  fl_cur : current i (_env s') fc' (_file2minmax s') n' w';
  fl_filled : filled (_env s') fc';
  fl_only : only i (_env s) fc (_file2minmax s) (_env s') fc' (_file2minmax s');
  fl_log : flog i (_env s') fc' = flog i (_env s) fc ++ vs;
  fl_buffers : _buffers s' = _buffers s;
  fl_bds : _bds s' = <[p := mkBd (Some w') (buffer bd) 0 false]> (_bds s);
}.

Lemma room_le l ms : (room st l ms <= length ms)%nat.
Proof. unfold room. lia. Qed.

Lemma room_zero l ms :
  room st l ms = 0%nat → ms ≠ [] → Z.of_nat (length l) <= wal_file_size st →
  length l = Z.to_nat (wal_file_size st).
Proof. unfold room. intros Hr Hne Hl. destruct ms; [done|]. cbn [length] in Hr. lia. Qed.

Lemma room_full l ms :
  (room st l ms < length ms)%nat → Z.of_nat (length l) <= wal_file_size st →
  length (l ++ take (room st l ms) ms) = Z.to_nat (wal_file_size st).
Proof. rewrite length_app, length_take. unfold room. lia. Qed.

Lemma current_length i e fc mm n w :
  files_ok e fc → current i e fc mm n w → Z.of_nat (length (fc n)) <= wal_file_size st.
Proof.
  intros Hf [C1 _ _ _ _]. apply last_Some_elem_of in C1.
  apply elem_names in C1 as (d & Hd & _ & <-). apply (fo_wf e fc Hf d Hd).
Qed.

Lemma slice_drop (l : list Meas) (a from r : nat) :
  (from + r <= a <= length l)%nat →
  drop from (take a l) = take r (take (a - from) (drop from l)) ++ drop (from + r) (take a l).
Proof.
  intros Hl. replace (take (a - from) (drop from l)) with (drop from (take a l)).
  - rewrite <- (take_drop r (drop from (take a l))) at 1. by rewrite drop_drop.
  - rewrite take_drop_commute. f_equal. f_equal. lia.
Qed.

(** What a run of the loop finds. *)
Record flushing (p : nat) (i : Z) (from : nat) (s : t D) (fc : string → list Meas) (op : gmap Z string)
    (bd : BufferDescription) (n : string) (w : WALFile.t) : Prop := {
  fg_core : core s fc op;
  fg_bd : _bds s !! p = Some bd;
  fg_file : walfile bd = Some w;
  fg_cur : current i (_env s) fc (_file2minmax s) n w;
  fg_open : op !! i = Some n;
  fg_filled : filled_but n (_env s) fc;
  fg_from : (from < pos bd <= length (buffer bd))%nat;
  fg_pos : Z.of_nat (pos bd) < 2 ^ 59;
  fg_wf : Forall (fun m => meas_wf m ∧ id m = i) (take (pos bd) (buffer bd));
}.

(** One append of the loop, before a new file is opened or the loop goes on. *)
Lemma flush_append p i from s fc op bd n w :
  flushing p i from s fc op bd n w →
  let ms := take (pos bd - from) (drop from (buffer bd)) in
  let r := room st (fc n) ms in
  let fc1 := upd n (fc n ++ take r ms) fc in
  ∃ w1 e1, WALFile.append_range st ms w (_env s) =
      Ok (if (r =? 0)%nat then mkStatus (Some 0) (Z.of_nat (length ms)) wal_file_limit
          else Status_writed (Z.of_nat r), w1, e1) ∧
    let bd1 := set_walfile (Some w1) bd in
    let s1 := put_bd p bd1 (set_env e1 s) in
    core s1 fc1 op ∧ _bds s1 !! p = Some bd1 ∧
    current i (_env s1) fc1 (_file2minmax s1) n w1 ∧ on_disk w1 (_env s1) ∧
    filled_but n (_env s1) fc1 ∧
    only i (_env s) fc (_file2minmax s) (_env s1) fc1 (_file2minmax s1) ∧
    flog i (_env s1) fc1 = flog i (_env s) fc ++ take r ms.
Proof.
  intros [(Hf & Hm & Ht) Hp Hw Hc Hop Hfill Hfrom Hpos Hwf] ms r fc1.
  assert (Hms : Forall (fun m => meas_wf m ∧ id m = i) ms).
  { unfold ms. rewrite take_drop_commute. apply Forall_drop.
    replace (from + (pos bd - from))%nat with (pos bd) by lia. done. }
  assert (Hl : Z.of_nat (length ms) < 2 ^ 59) by (unfold ms; rewrite length_take; lia).
  destruct (append_current i (_env s) fc _ n w ms Hf Hm Hc Hms Hl)
    as (w1 & e1 & E & Hf1 & Hm1 & Hc1 & Hd1 & En & Ho1 & Hl1 & Hfr).
  exists w1, e1. split; [exact E|]. intros bd1 s1. split_and!; try done.
  - split; [done|]. split; [done|]. apply (T_write op i n _ _ fc (_env s)); try done.
    by eapply last_Some_elem_of, cu_last.
  - cbn. apply list_lookup_insert_eq. by apply lookup_lt_Some in Hp.
  - intros d Hd Hne. cbn in Hd. unfold fc1. rewrite upd_ne by done.
    apply Hfill; [|done].
    assert (Hn : Manifest.fname d ∈ names (Manifest.measId d) e1) by (apply elem_names; by exists d).
    rewrite En in Hn. apply elem_names in Hn as (d' & Hd' & Hi' & Ef').
    destruct d, d'; cbn in *; by subst.
Qed.

(** What was done before a flush that is complete. *)
Lemma flushed_after p i vs1 vs2 bd s fc op bd1 s1 fc1 op1 s' fc' n' w' :
  flushed p i vs2 bd1 s1 fc1 op1 s' fc' n' w' → <[i := n']> op1 = <[i := n']> op →
  only i (_env s) fc (_file2minmax s) (_env s1) fc1 (_file2minmax s1) →
  flog i (_env s1) fc1 = flog i (_env s) fc ++ vs1 → _buffers s1 = _buffers s →
  buffer bd1 = buffer bd → _bds s1 = <[p := bd1]> (_bds s) →
  flushed p i (vs1 ++ vs2) bd s fc op s' fc' n' w'.
Proof.
  intros [K1 K2 K3 K4 K5 K6 K7] Eop Ho Hl Eb Ebf Ed. split; try done.
  - by rewrite <- Eop.
  - by eapply only_trans.
  - by rewrite K5, Hl, (assoc_L (++)).
  - by rewrite K6, Eb.
  - by rewrite K7, Ebf, Ed, list_insert_insert_eq.
Qed.

(** The file is full: the loop goes on with a new one. *)
Lemma flush_new_file p i from s fc op bd n w :
  core s fc op → _bds s !! p = Some bd → walfile bd = Some w →
  current i (_env s) fc (_file2minmax s) n w → op !! i = Some n → on_disk w (_env s) → filled_but n (_env s) fc →
  length (fc n) = Z.to_nat (wal_file_size st) →
  (from < pos bd <= length (buffer bd))%nat → Z.of_nat (pos bd) < 2 ^ 59 →
  Forall (fun m => meas_wf m ∧ id m = i) (take (pos bd) (buffer bd)) →
  ∃ s2 fc2 n2 w2, create_new st p i s = Ok s2 ∧
    flushing p i from s2 fc2 (<[i := n2]> op) (set_walfile (Some w2) bd) n2 w2 ∧ fc2 n2 = [] ∧
    only i (_env s) fc (_file2minmax s) (_env s2) fc2 (_file2minmax s2) ∧
    flog i (_env s2) fc2 = flog i (_env s) fc ∧ _buffers s2 = _buffers s ∧
    _bds s2 = <[p := set_walfile (Some w2) bd]> (_bds s).
Proof.
  intros C1 B1 W1 U1 Hop D1 F1 Hfull Hfrom Hpos Hwf.
  destruct (create_new_ok p i s fc op bd C1 B1) as (s2 & w2 & E & C2 & E2 & U2 & O2 & L2 & Bf2 & Bd2).
  { intros w0 E0. rewrite W1 in E0. injection E0 as <-. by exists n. }
  { by rewrite W1. }
  do 3 eexists. exists w2. split; [exact E|]. split; [split; try done|].
  - rewrite Bd2. apply list_lookup_insert_eq. by apply lookup_lt_Some in B1.
  - apply lookup_insert_eq.
  - rewrite E2. intros d Hd Hne.
    destruct (rows_with_row (_env s) fc i d (proj1 C1) Hd) as [[Hd' _]|Ed]; [|by rewrite Ed in Hne].
    rewrite upd_ne by done. destruct (decide (Manifest.fname d = n)) as [->|Hn]; [|by apply F1].
    intros E0. rewrite E0 in Hfull. cbn in Hfull. lia.
  - split_and!; try done. apply upd_eq.
Qed.

Lemma flush_loop_ok fuel p i from s fc op bd n w :
  flushing p i from s fc op bd n w →
  (2 * (pos bd - from) +
    (if (length (fc n) =? Z.to_nat (wal_file_size st))%nat then 1 else 0) <= fuel)%nat →
  ∃ s' fc' n' w', flush_loop st fuel p i from (Z.of_nat from) s = Ok s' ∧
    flushed p i (drop from (take (pos bd) (buffer bd))) bd s fc op s' fc' n' w'.
Proof.
  revert from s fc op bd n w. induction fuel as [|fuel IH]; intros from s fc op bd n w Hg Hfuel.
  { pose proof (fg_from _ _ _ _ _ _ _ _ _ Hg). lia. }
  destruct (flush_append p i from s fc op bd n w Hg) as (w1 & e1 & E & C1 & B1 & U1 & D1 & F1 & O1 & L1).
  destruct Hg as [(Hf & Hm & Ht) Hp Hw Hc Hop Hfill Hfrom Hpos Hwf].
  pose proof (current_length i (_env s) fc _ n w Hf Hc) as Hlen.
  set (ms := take (pos bd - from) (drop from (buffer bd))) in *. set (r := room st (fc n) ms) in *.
  set (fc1 := upd n (fc n ++ take r ms) fc) in *. set (bd1 := set_walfile (Some w1) bd) in *.
  set (s1 := put_bd p bd1 (set_env e1 s)) in *.
  assert (Hms : length ms = (pos bd - from)%nat) by (unfold ms; rewrite length_take, length_drop; lia).
  pose proof (room_le (fc n) ms) as Hr. fold r in Hr.
  assert (Hfc1 : fc1 n = fc n ++ take r ms) by apply upd_eq.
  pose proof (slice_drop (buffer bd) (pos bd) from r ltac:(lia)) as Hslice. fold ms in Hslice.
  cbn [flush_loop deref]. rewrite Hp, bind_Ok, Hw. fold ms. rewrite E, bind_Ok. fold bd1 s1.
  destruct (Nat.eqb_spec r 0) as [Er|Er]; cbn [writed error Status_writed].
  - pose proof (room_zero (fc n) ms Er ltac:(intros E0; rewrite E0 in Hms; cbn in Hms; lia) Hlen) as Hfull.
    destruct (flush_new_file p i from s1 fc1 op bd1 n w1) as (s2 & fc2 & n2 & w2 & -> & G2 & E0 & O2 & L2 & Bf2 & Bd2);
      try done.
    { by rewrite Hfc1, Er, app_nil_r. }
    rewrite bind_Ok, Z.add_0_r, wrap_small by lia.
    rewrite (proj2 (Z.eqb_neq _ _)) by lia. cbn [negb Z.to_nat]. rewrite Nat.add_0_r.
    destruct (IH from s2 fc2 _ _ n2 w2 G2) as (s' & fc' & n' & w' & E' & Hl').
    { rewrite E0. cbn [length pos set_walfile bd1].
      rewrite Hfull, Nat.eqb_refl in Hfuel. destruct (Nat.eqb_spec 0 (Z.to_nat (wal_file_size st))); lia. }
    exists s', fc', n', w'. split; [exact E'|].
    rewrite <- (app_nil_l (drop from _)). eapply flushed_after; [exact Hl'|apply insert_insert_eq|by eapply only_trans|..]; try done.
    + by rewrite L2, L1, Er.
    + rewrite Bd2. cbn. by rewrite list_insert_insert_eq.
  - rewrite Nat2Z.id, <- Nat2Z.inj_add, wrap_small by lia. rewrite Hslice.
    destruct (Z.eqb_spec (Z.of_nat (from + r)) (Z.of_nat (pos bd))) as [Ez|Ez]; cbn [negb].
    + rewrite B1. cbn [default]. do 3 eexists. exists w1. split; [done|]. split; try done.
      * by rewrite insert_id.
      * intros d Hd. destruct (decide (Manifest.fname d = n)) as [->|Hn]; [|by apply F1].
        rewrite Hfc1. intros E0. apply (f_equal length) in E0.
        rewrite length_app, length_take in E0. cbn in E0. lia.
      * rewrite (drop_ge (take (pos bd) (buffer bd))) by (rewrite length_take; lia).
        by rewrite app_nil_r.
      * cbn. by rewrite list_insert_insert_eq.
    + destruct (IH (from + r)%nat s1 fc1 op bd1 n w1) as (s' & fc' & n' & w' & E' & Hl').
      * split; try done. cbn. lia.
      * rewrite Hfc1. pose proof (room_full (fc n) ms ltac:(fold r; lia) Hlen) as Hfull.
        fold r in Hfull. rewrite Hfull, Nat.eqb_refl. cbn [pos bd1 set_walfile]. lia.
      * exists s', fc', n', w'. split; [exact E'|]. by eapply flushed_after.
Qed.

(** [flush_buffer] ends, and everything that was in the buffer is in the files. *)
Lemma flush_buffer_ok p i s fc op bd :
  core s fc op → filled (_env s) fc → _bds s !! p = Some bd →
  (∀ w, walfile bd = Some w → ∃ n, current i (_env s) fc (_file2minmax s) n w ∧ op !! i = Some n) →
  (walfile bd = None → op !! i = None) →
  (0 < pos bd <= length (buffer bd))%nat → Z.of_nat (pos bd) < 2 ^ 59 →
  Forall (fun m => meas_wf m ∧ id m = i) (take (pos bd) (buffer bd)) →
  ∃ s' fc' n' w', flush_buffer st p s = Ok s' ∧
    flushed p i (take (pos bd) (buffer bd)) bd s fc op s' fc' n' w'.
Proof.
  intros Hc Hfill Hp Hw Hnone Hpos Hlt Hwf. unfold flush_buffer, flush_buffer_logic, deref.
  rewrite Hp, !bind_Ok. rewrite (proj2 (Nat.eqb_neq _ _)) by lia.
  destruct (buffer bd) as [|front rest] eqn:Eb; [cbn in Hpos; lia|].
  assert (Ei : id front = i).
  { destruct (pos bd); [lia|]. cbn in Hwf. by apply Forall_cons_1 in Hwf as [[_ ?] _]. }
  rewrite Ei, <- Eb in *. destruct (walfile bd) as [w|] eqn:Ew.
  - rewrite bind_Ok. destruct (Hw w eq_refl) as (n & Hn & Hop).
    destruct (flush_loop_ok (2 * pos bd + 2) p i 0 s fc op bd n w) as (s' & fc' & n' & w' & E & Hf).
    + split; try done. intros d Hd _. by apply Hfill.
    + destruct (_ =? _)%nat; lia.
    + by exists s', fc', n', w'.
  - destruct (create_new_ok p i s fc op bd Hc Hp) as (s1 & w1 & -> & C1 & E1 & U1 & O1 & L1 & Bf1 & Bd1).
    { intros w. by rewrite Ew. }
    { by rewrite Ew. }
    rewrite bind_Ok. set (n1 := name (e_calls (_env s))) in *. set (bd1 := set_walfile (Some w1) bd) in *.
    destruct (flush_loop_ok (2 * pos bd + 2) p i 0 s1 (upd n1 [] fc) (<[i := n1]> op) bd1 n1 w1)
      as (s' & fc' & n' & w' & E & Hf).
    + split; try done.
      * rewrite Bd1. apply list_lookup_insert_eq. by apply lookup_lt_Some in Hp.
      * apply lookup_insert_eq.
      * rewrite E1. intros d Hd Hne.
        destruct (rows_with_row (_env s) fc i d (proj1 Hc) Hd) as [[Hd' _]|Ed]; [|by rewrite Ed in Hne].
        rewrite upd_ne by done. by apply Hfill.
    + cbn [pos bd1 set_walfile]. destruct (_ =? _)%nat; lia.
    + exists s', fc', n', w'. split; [exact E|]. rewrite <- (app_nil_l (take _ _)).
      eapply flushed_after; [exact Hf|apply insert_insert_eq|done|by rewrite L1, app_nil_r|done..].
Qed.

(** ** The manager *)

Implicit Types s : t D.

Record bd_ok (e : env) (fc : string → list Meas) (op : gmap Z string) (mm : gmap string TimeMinMax) (i : Z)
    (bd : BufferDescription) : Prop := {
  bo_size : length (buffer bd) = Z.to_nat (wal_cache_size st);
  bo_pos : (pos bd < length (buffer bd))%nat;
  bo_free : locked bd = false;
  bo_wf : Forall (fun m => meas_wf m ∧ id m = i) (take (pos bd) (buffer bd));
  bo_file : ∀ w, walfile bd = Some w → ∃ n, current i e fc mm n w ∧ op !! i = Some n;
  bo_none : walfile bd = None → op !! i = None;
}.

(** [l] is what the buffer of the series [i] has. *)
Definition buffer_ok s fc (op : gmap Z string) (i : Z) (v : option (option nat)) (l : list Meas) : Prop :=
  match v with
  | None => l = [] ∧ op !! i = None
  | Some None => False
  | Some (Some p) => ∃ bd, _bds s !! p = Some bd ∧
      bd_ok (_env s) fc op (_file2minmax s) i bd ∧ l = take (pos bd) (buffer bd)
  end.

Record inv s (fc : string → list Meas) (op : gmap Z string) (nodes : list (bucket (option nat)))
    (bl : Z → list Meas) : Prop := {
  iv_core : core s fc op;
  iv_filled : filled (_env s) fc;
  iv_wf : StripedMap.wf (_buffers s) nodes;
  iv_unlocked : unlocked (_buffers s);
  iv_buffers : ∀ i, buffer_ok s fc op i (abs nodes !! i) (bl i);
  iv_apart : ∀ i j p, abs nodes !! i = Some (Some p) → abs nodes !! j = Some (Some p) → i = j;
}.

(** The manager holds, for each series [i], the measurements [l i] in the order
    they were appended: first those in the files, then those in the buffer. *)
Definition holds_with s (l : Z → list Meas) : Prop :=
  ∃ fc op nodes bl, inv s fc op nodes bl ∧ ∀ i, l i = flog i (_env s) fc ++ bl i.

Definition put_log (i : Z) (x : list Meas) (l : Z → list Meas) : Z → list Meas :=
  fun j => if decide (j = i) then x else l j.

(** Another series sees no change. *)
Lemma bd_ok_only i j e fc op mm e' fc' mm' n bd :
  only i e fc mm e' fc' mm' → files_ok e fc → files_ok e' fc' → j ≠ i →
  bd_ok e fc op mm j bd → bd_ok e' fc' (<[i := n]> op) mm' j bd.
Proof.
  intros Ho Hf Hf' Hne [B1 B2 B3 B4 B5 B6]. split; try done; rewrite ?lookup_insert_ne by done; [|done].
  intros w Hw. destruct (B5 w Hw) as (n' & Hn & Hop). exists n'. split; [by eapply current_only|done].
Qed.

Lemma flog_only i j e fc mm e' fc' mm' :
  only i e fc mm e' fc' mm' → files_ok e' fc' → j ≠ i → flog j e' fc' = flog j e fc.
Proof.
  intros Ho Hf' Hne. unfold flog. rewrite (on_names _ _ _ _ _ _ _ Ho j Hne). f_equal.
  apply list_fmap_ext. intros k n Hn. apply (on_fc _ _ _ _ _ _ _ Ho). intros Hi. apply Hne.
  eapply (names_disjoint e' fc'); [done| |exact Hi].
  rewrite (on_names _ _ _ _ _ _ _ Ho j Hne). by eapply list_elem_of_lookup_2.
Qed.

Lemma put_log_eq i x l : put_log i x l i = x.
Proof. unfold put_log. by rewrite decide_True. Qed.
Lemma put_log_ne i j x l : j ≠ i → put_log i x l j = l j.
Proof. intros. unfold put_log. by rewrite decide_False. Qed.

Lemma take_insert_next (l : list Meas) p v :
  (p < length l)%nat → take (S p) (<[p := v]> l) = take p l ++ [v].
Proof.
  intros Hp. rewrite (take_S_r _ _ v) by (by apply list_lookup_insert_eq).
  by rewrite take_insert_ge by lia.
Qed.

(** The first measurement of a series. *)
Lemma append_first s fc op nodes bl v m2 n2 :
  inv s fc op nodes bl → abs nodes !! id v = None → meas_wf v →
  StripedMap.wf m2 n2 → unlocked m2 →
  abs n2 = <[id v := Some (length (_bds s))]> (abs nodes) →
  inv (set_bds (_bds s ++ [mkBd None (<[0%nat := v]> (replicate (Z.to_nat (wal_cache_size st)) Meas_default))
                            1 false]) (set_buffers m2 s))
      fc op n2 (put_log (id v) (bl (id v) ++ [v]) bl).
Proof.
  intros [Hc Hfill Hw Hu Hb Ha] Hi Hv Hw2 Hu2 Hab.
  assert (Hold : ∀ j p, abs nodes !! j = Some (Some p) → (p < length (_bds s))%nat).
  { intros j p Hj. specialize (Hb j). rewrite Hj in Hb. destruct Hb as (bd & Hp & _).
    by apply lookup_lt_Some in Hp. }
  split; try done.
  - intros j. rewrite Hab. destruct (decide (j = id v)) as [->|Hne].
    + rewrite lookup_insert_eq, put_log_eq. specialize (Hb (id v)). rewrite Hi in Hb. cbn in Hb.
      destruct Hb as [-> Hop]. eexists. split; [cbn; by rewrite lookup_app_r, Nat.sub_diag|].
      destruct (Z.to_nat (wal_cache_size st)) as [|[|c]] eqn:Ec; [lia|lia|].
      split; [|done]. split; cbn; rewrite ?length_replicate; try done; [lia|]. by constructor; [|constructor].
    + rewrite lookup_insert_ne, put_log_ne by done. specialize (Hb j). unfold buffer_ok in *.
      destruct (abs nodes !! j) as [[p|]|]; try done. destruct Hb as (bd & Hp & Hbd).
      exists bd. split; [|done]. cbn. by apply lookup_app_l_Some.
  - intros i j p. rewrite Hab, !lookup_insert_Some.
    intros [[<- E1]|[N1 E1]] [[<- E2]|[N2 E2]]; try done.
    + injection E1 as <-. apply Hold in E2. lia.
    + injection E2 as <-. apply Hold in E1. lia.
    + by eapply Ha.
Qed.

(** The buffer of a series is replaced. *)
Lemma put_bd_inv s fc op nodes bl m2 n2 i p bd :
  inv s fc op nodes bl → abs nodes !! i = Some (Some p) →
  StripedMap.wf m2 n2 → unlocked m2 → abs n2 = abs nodes →
  bd_ok (_env s) fc op (_file2minmax s) i bd →
  inv (put_bd p bd (set_buffers m2 s)) fc op n2 (put_log i (take (pos bd) (buffer bd)) bl).
Proof.
  intros [Hc Hfill Hw Hu Hb Ha] Hi Hw2 Hu2 Hab Hbd.
  assert (Hp : (p < length (_bds s))%nat).
  { specialize (Hb i). rewrite Hi in Hb. destruct Hb as (bd0 & Hp & _). by apply lookup_lt_Some in Hp. }
  split; try done; [|by rewrite Hab].
  intros j. destruct (decide (j = i)) as [->|Hne].
  - rewrite put_log_eq, Hab, Hi. exists bd. split; [by apply list_lookup_insert_eq|done].
  - rewrite put_log_ne, Hab by done. specialize (Hb j). unfold buffer_ok in *.
    destruct (abs nodes !! j) as [[q|]|] eqn:Ej; try done. destruct Hb as (bd0 & Hq & Hbd0).
    exists bd0. split; [|done]. cbn. rewrite list_lookup_insert_ne; [done|].
    intros ->. apply Hne. by eapply Ha.
Qed.

(** After a flush. *)
Lemma flushed_inv s fc op nodes bl m2 n2 i p bd s' fc' n' w' :
  inv s fc op nodes bl → abs nodes !! i = Some (Some p) →
  StripedMap.wf m2 n2 → unlocked m2 → abs n2 = abs nodes →
  length (buffer bd) = Z.to_nat (wal_cache_size st) →
  flushed p i (take (pos bd) (buffer bd)) bd (put_bd p bd (set_buffers m2 s)) fc op s' fc' n' w' →
  inv s' fc' (<[i := n']> op) n2 (put_log i [] bl) ∧
  flog i (_env s') fc' = flog i (_env s) fc ++ take (pos bd) (buffer bd) ∧
  ∀ j, j ≠ i → flog j (_env s') fc' = flog j (_env s) fc.
Proof.
  intros [Hc Hfill Hw Hu Hb Ha] Hi Hw2 Hu2 Hab Hsz [K1 K2 K3 K4 K5 K6 K7].
  assert (Hp : (p < length (_bds s))%nat).
  { specialize (Hb i). rewrite Hi in Hb. destruct Hb as (bd0 & Hp & _). by apply lookup_lt_Some in Hp. }
  cbn [_env _file2minmax put_bd set_bds set_buffers _bds] in K4, K5, K7.
  rewrite list_insert_insert_eq in K7. split_and!; [|done|].
  - split; try done; rewrite ?K6; try done; [|by rewrite Hab].
    intros j. rewrite Hab. destruct (decide (j = i)) as [->|Hne].
    + rewrite put_log_eq, Hi. eexists. split; [rewrite K7; by apply list_lookup_insert_eq|].
      split; [|done]. split; try done; [cbn; lia|]. intros w [= <-]. exists n'. by rewrite lookup_insert_eq.
    + rewrite put_log_ne by done. specialize (Hb j). unfold buffer_ok in *.
      destruct (abs nodes !! j) as [[q|]|] eqn:Ej; [|done|by rewrite lookup_insert_ne].
      destruct Hb as (bd0 & Hq & Hbd0 & El).
      exists bd0. split; [|split; [|done]].
      * rewrite K7, list_lookup_insert_ne; [done|]. intros ->. apply Hne. by eapply Ha.
      * eapply bd_ok_only; [exact K4|apply Hc|apply K1|done|done].
  - intros j Hne. eapply flog_only; [exact K4|apply K1|done].
Qed.

(** The logs after [v] was appended. *)
Definition logged (v : Meas) s fc (bl : Z → list Meas) s' fc' (bl' : Z → list Meas) : Prop :=
  ∀ i, flog i (_env s') fc' ++ bl' i =
       put_log (id v) (flog (id v) (_env s) fc ++ bl (id v) ++ [v])
         (fun i => flog i (_env s) fc ++ bl i) i.

(** A measurement of a series that has a buffer. *)
Lemma append_existing v s fc op nodes bl p m1 n1 :
  inv s fc op nodes bl → abs nodes !! id v = Some (Some p) → meas_wf v →
  StripedMap.wf m1 n1 → unlocked m1 → abs n1 = abs nodes →
  ∃ bd, _bds s !! p = Some bd ∧ locked bd = false ∧ (pos bd < length (buffer bd))%nat ∧
    let bd1 := mkBd (walfile bd) (<[pos bd := v]> (buffer bd)) (S (pos bd)) true in
    let s1 := put_bd p bd1 (set_buffers m1 s) in
    ∃ s' fc' op' bl', (if wal_cache_size st <=? Z.of_nat (S (pos bd)) then flush_buffer st p s1
                   else Ok (put_bd p (set_locked false bd1) s1)) = Ok s' ∧
      inv s' fc' op' n1 bl' ∧ logged v s fc bl s' fc' bl'.
Proof.
  intros Hinv Ei Hv Hw1 Hu1 Hab. pose proof Hinv as [Hc Hfill Hw Hu Hb Ha].
  pose proof (Hb (id v)) as Hbv. rewrite Ei in Hbv. destruct Hbv as (bd & Hp & [B1 B2 B3 B4 B5 B6] & El).
  exists bd. split_and!; [done..|]. intros bd1 s1.
  assert (Ht : take (pos bd1) (buffer bd1) = bl (id v) ++ [v])
    by (rewrite El; by apply take_insert_next).
  assert (Hwf1 : Forall (fun m => meas_wf m ∧ id m = id v) (take (pos bd1) (buffer bd1))).
  { rewrite Ht, El. apply Forall_app. split; [done|]. by constructor; [|constructor]. }
  destruct (Z.leb_spec (wal_cache_size st) (Z.of_nat (S (pos bd)))) as [Hfull|Hroom].
  - destruct (flush_buffer_ok p (id v) s1 fc op bd1) as (s' & fc' & n' & w' & -> & Hfl); try done.
    { apply list_lookup_insert_eq. by apply lookup_lt_Some in Hp. }
    { cbn. rewrite length_insert. lia. }
    { cbn. lia. }
    destruct (flushed_inv s fc op nodes bl m1 n1 (id v) p bd1 s' fc' n' w') as (I' & L1 & L2); try done.
    { cbn. by rewrite length_insert. }
    rewrite Ht in L1. do 4 eexists. split; [done|]. split; [exact I'|]. intros i.
    destruct (decide (i = id v)) as [->|Hne]; [by rewrite !put_log_eq, app_nil_r, L1|].
    by rewrite !put_log_ne, L2 by done.
  - unfold s1. set (bd2 := set_locked false bd1).
    replace (put_bd p bd2 (put_bd p bd1 (set_buffers m1 s))) with (put_bd p bd2 (set_buffers m1 s))
      by (unfold put_bd, set_bds; cbn; by rewrite list_insert_insert_eq).
    do 4 eexists. split; [done|]. split.
    { apply (put_bd_inv s fc op nodes bl m1 n1 (id v) p bd2); try done.
      split; cbn; rewrite ?length_insert; try done. lia. }
    intros i. change (take (pos bd2) (buffer bd2)) with (take (pos bd1) (buffer bd1)). rewrite Ht.
    destruct (decide (i = id v)) as [->|Hne]; [by rewrite !put_log_eq|by rewrite !put_log_ne].
Qed.

Lemma append_inv v s fc op nodes bl :
  inv s fc op nodes bl → StrippedMap._size (_buffers s) < 2 ^ 62 → meas_wf v →
  ∃ s' fc' op' nodes' bl', append st v s = Ok (Status_writed 1, s') ∧ inv s' fc' op' nodes' bl' ∧
    logged v s fc bl s' fc' bl' ∧ (length nodes' <= S (length nodes))%nat.
Proof.
  intros Hinv Hsz Hv. pose proof Hinv as [Hc Hfill Hw Hu Hb Ha]. unfold append.
  destruct (find_bucket_spec None _ _ (id v) Hw Hu Hsz) as (m & it & n1 & b & -> & Hloc).
  rewrite bind_Ok. pose proof (loc_data _ _ _ _ _ _ _ Hloc) as Hd.
  pose proof (loc_abs _ _ _ _ _ _ _ Hloc) as Hab. pose proof (Hb (id v)) as Hbv.
  destruct (it_get_release _ _ _ _ _ _ _ Hloc) as [-> (m1 & E1 & Hw1 & Hu1)]. rewrite bind_Ok.
  destruct (abs nodes !! id v) as [[p|]|] eqn:Ei; cbn in Hd; [|done|].
  - rewrite Hd in *. rewrite insert_id in Hab by done.
    destruct (append_existing v s fc op nodes bl p m1 n1) as (bd & Hp & Hfree & Hpos & s' & fc' & op' & bl' & E & R);
      try done.
    unfold deref. rewrite Hp, bind_Ok, Hfree, E1, bind_Ok.
    unfold buffer_set. cbn [set_locked buffer pos walfile locked].
    rewrite (proj2 (Nat.ltb_lt _ _)) by done. rewrite bind_Ok.
    cbv zeta in E |- *. unfold set_pos at 1 2 3 4. cbn [buffer pos walfile locked] in E |- *.
    rewrite E, bind_Ok. exists s', fc', op', n1, bl'. split; [done|]. destruct R as [R1 R2].
    split_and!; [done..|apply (loc_size _ _ _ _ _ _ _ Hloc)].
  - rewrite Hd. destruct (it_set_release _ _ _ _ _ _ _ (Some (length (_bds s))) Hloc)
      as [_ (m2 & n2 & E2 & Hw2 & Hu2 & Ha2 & Hlen)].
    destruct (StrippedMap.it_set m it _) as [m3| | |] eqn:E3; try done.
    cbn [mbind outcome_bind] in E2. rewrite bind_Ok. unfold buffer_set, make_bd.
    cbn [buffer pos walfile locked]. rewrite length_replicate.
    rewrite (proj2 (Nat.ltb_lt 0 _)) by lia. rewrite bind_Ok, E2, bind_Ok.
    do 5 eexists. split; [done|]. split; [by apply (append_first s fc op nodes bl v m2 n2)|].
    split; [|rewrite Hlen; apply (loc_size _ _ _ _ _ _ _ Hloc)]. intros i. cbn [_env set_bds set_buffers].
    destruct (decide (i = id v)) as [->|Hne]; [by rewrite !put_log_eq|by rewrite !put_log_ne].
Qed.

(** ** Queries *)

(** A file whose summary covers its contents is skipped only when it has nothing
    the query asks for. *)
Lemma file_in_query_false f q s mm l :
  _file2minmax s !! f = Some mm → covers mm l → file_in_query f q s = false → qi_ids q ≠ [] →
  Forall (fun m => ¬ in_query q m) l.
Proof.
  intros Hf Hc Hq Hids. unfold file_in_query in Hq. rewrite Hf in Hq.
  unfold covers in Hc. rewrite Forall_forall in Hc |- *. intros m Hm Hin. destruct (Hc m Hm) as [Ht Hb].
  unfold in_query, inQueryInterval, inQuery in Hin. breflect.
  - unfold inInterval in *.
    repeat match goal with
    | H : _ && _ = true |- _ => apply andb_true_iff in H as [? ?]
    | H : (_ <=? _) = true |- _ => apply Z.leb_le in H
    end.
    breflect; lia.
  - assert (Hi : inIds (qi_ids q) m = true) by done. apply inIds_spec in Hi as [E|Hi]; [done|].
    assert (existsb (bloom_check (bloom_id mm)) (qi_ids q) = true); [|congruence].
    apply existsb_exists. exists (id m). split; [by apply list_elem_of_In|done].
Qed.

(** The files of a series, as a query opens them. *)
Lemma open_file_ok s fc op d :
  core s fc op → filled (_env s) fc → d ∈ rows (_env s) →
  let w := WALFile.open (path (Manifest.fname d)) true (_env s) in
  holds w (_env s) (fc (Manifest.fname d)) ∧ on_disk w (_env s).
Proof.
  intros [Hf Hm] Hfill Hd w.
  destruct (fo_wf _ _ Hf d Hd) as [Hwf Hlen].
  set (w0 := WALFile.mk (path (Manifest.fname d)) true (Z.of_nat (length (fc (Manifest.fname d))))
               None 0 0 0).
  assert (H0' : holds w0 (_env s) (fc (Manifest.fname d))).
  { split; [by apply (fo_content _ _ Hf)|done| |by left]. eapply Forall_impl; [exact Hwf|]. by intros ? []. }
  assert (Hd0 : on_disk w0 (_env s)) by (eapply holds_on_disk; [done|by apply Hfill]).
  split; [|exact Hd0]. apply (open_holds w0); [done|done|]. lia.
Qed.

(** What a file gives for the series it belongs to. *)
Lemma read_file_ok q i s fc op d :
  core s fc op → filled (_env s) fc → d ∈ rows (_env s) →
  let l := fc (Manifest.fname d) in
  ∃ r w', WALFile.intervalReader (local_query q i)
      (WALFile.open (path (Manifest.fname d)) true (_env s)) (_env s) = Ok (r, w') ∧
    r = match selected (local_query q i) i l with
        | [] => ∅
        | _ => {[ i := FullCursor.make (wal_answer l (local_query q i) i) ]}
        end.
Proof.
  intros Hc Hfill Hd l. destruct (open_file_ok s fc op d Hc Hfill Hd) as [Hh Hdk].
  destruct (intervalReader_holds (local_query q i) _ _ _ Hh Hdk) as (r & E & Hr).
  do 2 eexists. split; [exact E|]. apply map_eq. intros j. rewrite Hr. fold l.
  destruct (decide (j = i)) as [->|Hne].
  - destruct (selected (local_query q i) i l); [by rewrite lookup_empty|by rewrite lookup_singleton_eq].
  - assert (selected (local_query q i) j l = []) as ->.
    { apply filter_none, Forall_forall. intros m _ [Hq <-]. apply Hne.
      unfold in_query, inQueryInterval, inQuery in Hq. breflect.
      assert (Hi : inIds [i] m = true) by done. apply inIds_spec in Hi as [?|Hi]; [done|].
      by apply list_elem_of_singleton in Hi. }
    destruct (selected (local_query q i) i l); [by rewrite lookup_empty|by rewrite lookup_singleton_ne].
Qed.

Lemma um_list_singleton {A} (i : Z) (x : A) : um_list ({[ i := x ]} : gmap Z A) = [(i, x)].
Proof.
  pose proof (um_perm ({[ i := x ]} : gmap Z A)) as Hp. rewrite map_to_list_singleton in Hp.
  by apply Permutation_singleton_r in Hp.
Qed.

Lemma um_list_empty {A} : um_list (∅ : gmap Z A) = [].
Proof.
  pose proof (um_perm (∅ : gmap Z A)) as Hp. rewrite map_to_list_empty in Hp.
  by apply Permutation_nil_r in Hp.
Qed.

(** The readers a list of logs gives. *)
Definition readers_of (q : QueryInterval) (i : Z) (ls : list (list Meas)) : list (cursor FullCursor.t) :=
  (fun l => Leaf (FullCursor.make (wal_answer l q i))) <$>
  base.filter (fun l => selected q i l ≠ []) ls.

(** The lists of readers by identifier; an entry is made with its first reader. *)
Definition readers_are (rl : gmap Z (list (cursor FullCursor.t))) (f : Z → list (cursor FullCursor.t))
  : Prop := ∀ j, rl !! j = match f j with [] => None | rs => Some rs end.

Definition put_readers (i : Z) (rs : list (cursor FullCursor.t)) (f : Z → list (cursor FullCursor.t))
  : Z → list (cursor FullCursor.t) := fun j => if decide (j = i) then rs else f j.

Lemma push_reader_are rl f i c :
  readers_are rl f → readers_are (push_reader rl (i, c)) (put_readers i (f i ++ [Leaf c]) f).
Proof.
  intros Hr j. unfold push_reader, put_readers, um_at. cbn [fst snd].
  destruct (decide (j = i)) as [->|Hne].
  - rewrite lookup_insert_eq, Hr. destruct (f i); done.
  - rewrite lookup_insert_ne by done. apply Hr.
Qed.

Lemma readers_are_ext rl f g : readers_are rl f → (∀ j, f j = g j) → readers_are rl g.
Proof. intros Hr E j. rewrite <- E. apply Hr. Qed.

Lemma async_logic_ok q i s fc op ns rl f :
  core s fc op → filled (_env s) fc → (∀ n, n ∈ ns → n ∈ names i (_env s)) → readers_are rl f →
  ∃ rl', intervalReader_async_logic (path <$> ns) (local_query q i) rl s = Ok rl' ∧
    readers_are rl' (put_readers i (f i ++ readers_of (local_query q i) i (fc <$> ns)) f).
Proof.
  intros Hc Hfill. revert rl f. induction ns as [|n ns IH]; intros rl f Hns Hr.
  { exists rl. split; [done|]. eapply readers_are_ext; [exact Hr|]. intros j. unfold put_readers.
    destruct (decide (j = i)) as [->|]; [|done]. by rewrite app_nil_r. }
  unfold intervalReader_async_logic in *. cbn [fmap list_fmap foldM].
  change (list_fmap _ _ path ns) with (path <$> ns). change (list_fmap _ _ fc ns) with (fc <$> ns).
  pose proof (Hns n ltac:(left)) as (d & Hd & Hi & <-)%elem_names.
  specialize (fun rl f => IH rl f (fun n Hn => Hns n ltac:(by right))).
  set (l := fc (Manifest.fname d)) in *. unfold readers_of. rewrite filter_cons.
  fold (readers_of (local_query q i) i (fc <$> ns)).
  destruct (file_in_query (path (Manifest.fname d)) (local_query q i) s) eqn:Eq; cbn [negb].
  - destruct (read_file_ok q i s fc op d Hc Hfill Hd) as (r & w' & E & Er). fold l in Er.
    rewrite E, !bind_Ok, Er.
    destruct (selected (local_query q i) i l) as [|m ms] eqn:Es.
    + rewrite um_list_empty, decide_False by (intros Hx; by apply Hx). by apply IH.
    + rewrite um_list_singleton, decide_True by done. cbn [fold_left].
      destruct (IH _ _ (push_reader_are rl f i (FullCursor.make (wal_answer l (local_query q i) i)) Hr))
        as (rl' & E' & Hr'). exists rl'. split; [exact E'|].
      eapply readers_are_ext; [exact Hr'|]. intros j. unfold put_readers.
      destruct (decide (j = i)) as [->|]; [|done]. rewrite decide_True by done.
      rewrite fmap_cons. by rewrite <- (assoc_L (++)).
  - rewrite bind_Ok. assert (Es : selected (local_query q i) i l = []).
    { unfold file_in_query in Eq.
      destruct (_file2minmax s !! path (Manifest.fname d)) as [mm|] eqn:Em; [|done].
      pose proof (file_in_query_false (path (Manifest.fname d)) (local_query q i) s mm l Em) as Hn.
      unfold file_in_query in Hn. rewrite Em in Hn. specialize (Hn (mo_covers _ _ _ (proj1 (proj2 Hc)) d mm Hd Em) Eq).
      apply filter_none. eapply Forall_impl; [by apply Hn|]. intros m Hm [? _]. by apply Hm. }
    rewrite decide_False by (intros Hx; by apply Hx). by apply IH.
Qed.

Lemma selected_local q i l : i ∈ qi_ids q → selected (local_query q i) i l = selected q i l.
Proof.
  intros Hi. apply list_filter_iff. intros m. destruct (decide (id m = i)) as [<-|]; [|naive_solver].
  unfold in_query, inQueryInterval, inQuery. cbn [qi_ids local_query qi_flag qi_from qi_to].
  rewrite (proj2 (inIds_spec [id m] m)) by (right; left).
  by rewrite (proj2 (inIds_spec (qi_ids q) m)) by (by right).
Qed.

Lemma readers_of_local q i ls :
  i ∈ qi_ids q → readers_of (local_query q i) i ls = readers_of q i ls.
Proof.
  intros Hi. unfold readers_of. induction ls as [|l ls IH]; [done|].
  rewrite !filter_cons, selected_local by done. unfold wal_answer in *.
  destruct (decide (selected q i l ≠ [])); [|done].
  rewrite !fmap_cons, IH, selected_local by done. done.
Qed.

Lemma wal_files_ok i s fc : files_ok (_env s) fc → wal_files st i s = Ok (path <$> names i (_env s)).
Proof.
  intros Hf. unfold wal_files, Manifest.wal_list_id, Manifest.prepare.
  rewrite (fo_db _ _ Hf), !bind_Ok. unfold full_paths, names, rows. by rewrite <- list_fmap_compose.
Qed.

(** The files of all the series of a query. *)
Lemma files_stage q s fc op is_ rl f :
  core s fc op → filled (_env s) fc → NoDup is_ → (∀ i, i ∈ is_ → i ∈ qi_ids q) → readers_are rl f →
  ∃ rl', foldM (fun rl i => files ← wal_files st i s;
            intervalReader_async_logic files (local_query q i) rl s) is_ rl = Ok rl' ∧
    readers_are rl' (fun j => if decide (j ∈ is_)
      then f j ++ readers_of q j (fc <$> names j (_env s)) else f j).
Proof.
  intros Hc Hfill Hnd. revert rl f. induction Hnd as [|i is_ Hi Hnd IH]; intros rl f Hq Hr.
  { exists rl. split; [done|]. eapply readers_are_ext; [exact Hr|]. intros j.
    by rewrite decide_False by (intros []%elem_of_nil). }
  cbn [foldM]. rewrite (wal_files_ok i s fc (proj1 Hc)), bind_Ok.
  destruct (async_logic_ok q i s fc op (names i (_env s)) rl f Hc Hfill (fun n Hn => Hn) Hr)
    as (rl1 & -> & Hr1). rewrite bind_Ok.
  destruct (IH rl1 _ ltac:(intros j Hj; apply Hq; by right) Hr1) as (rl' & E & Hr').
  exists rl'. split; [exact E|]. eapply readers_are_ext; [exact Hr'|]. intros j. unfold put_readers.
  destruct (decide (j = i)) as [->|Hne].
  - rewrite decide_False, decide_True by (done || by left).
    rewrite readers_of_local; [done|]. apply Hq. by left.
  - destruct (decide (j ∈ is_)) as [Hj|Hj].
    + by rewrite decide_True by (by right).
    + rewrite decide_False; [done|]. by intros [?|?]%elem_of_cons.
Qed.

Lemma set_buffers_id s : set_buffers (_buffers s) s = s.
Proof. by destruct s. Qed.

Lemma find_buffered_ok i s fc op nodes bl : inv s fc op nodes bl → find_buffered i s = Ok (bl i, s).
Proof.
  intros [Hc Hfill Hw Hu Hb Ha]. unfold find_buffered. rewrite (find_spec _ _ i Hw Hu), bind_Ok.
  rewrite set_buffers_id. specialize (Hb i). destruct (abs nodes !! i) as [[p|]|]; [|done|by destruct Hb as [-> _]].
  destruct Hb as (bd & Hp & [B1 B2 _ _ _ _] & El). unfold deref, buffered. rewrite Hp, bind_Ok.
  rewrite (proj2 (Nat.leb_le _ _)) by lia. by rewrite bind_Ok, El.
Qed.

(** The buffers of all the series of a query. *)
Lemma buffers_stage q s fc op nodes bl is_ acc :
  inv s fc op nodes bl →
  foldM (fun (p : gmap Z (list Meas) * t D) i =>
    '(l, s) ← find_buffered i p.2; Ok (fold_left (WALFile.select q) l p.1, s)) is_ (acc, s) =
  Ok (fold_left (WALFile.select q) (concat (bl <$> is_)) acc, s).
Proof.
  intros Hinv. revert acc. induction is_ as [|i is_ IH]; intros acc; [done|].
  cbn [foldM fst snd fmap list_fmap concat]. rewrite (find_buffered_ok i s fc op nodes bl Hinv), !bind_Ok.
  rewrite IH, fold_left_app. done.
Qed.

(** One entry of an unordered map. *)
Lemma um_list_filter {A} (m : gmap Z A) (j : Z) :
  base.filter (fun kv => kv.1 = j) (um_list m) = match m !! j with None => [] | Some x => [(j, x)] end.
Proof.
  assert (Hn : ∀ m' : gmap Z A, m' !! j = None → base.filter (fun kv => kv.1 = j) (map_to_list m') = []).
  { intros m' Hm'. apply filter_none, Forall_forall. intros [k x] Hk%elem_of_map_to_list E. cbn in E.
    congruence. }
  destruct (m !! j) as [x|] eqn:Ej.
  - assert (Hp : base.filter (fun kv => kv.1 = j) (um_list m) ≡ₚ [(j, x)]).
    { rewrite (um_perm m), <- (map_to_list_delete m j x Ej), filter_cons, decide_True by done.
      by rewrite Hn by apply lookup_delete_eq. }
    by apply Permutation_singleton_r in Hp.
  - assert (Hp : base.filter (fun kv => kv.1 = j) (um_list m) ≡ₚ []) by by rewrite (um_perm m), Hn.
    by apply Permutation_nil_r in Hp.
Qed.

Lemma push_all_are kvs rl f :
  readers_are rl f →
  readers_are (fold_left push_reader kvs rl)
    (fun j => f j ++ ((fun kv => Leaf kv.2) <$> base.filter (fun kv => kv.1 = j) kvs)).
Proof.
  revert rl f. induction kvs as [|[i c] kvs IH]; intros rl f Hr; cbn [fold_left].
  { eapply readers_are_ext; [exact Hr|]. intros j. by rewrite app_nil_r. }
  eapply readers_are_ext; [apply IH, push_reader_are, Hr|]. intros j. unfold put_readers.
  rewrite filter_cons. cbn [fst]. destruct (decide (j = i)) as [->|Hne].
  - by rewrite decide_True, fmap_cons, <- (assoc_L (++)) by done.
  - by rewrite decide_False by done.
Qed.

Lemma buffer_ids s fc op nodes bl i : inv s fc op nodes bl → Forall (fun m => meas_wf m ∧ id m = i) (bl i).
Proof.
  intros [_ _ _ _ Hb _]. specialize (Hb i). destruct (abs nodes !! i) as [[p|]|]; [|done|].
  - destruct Hb as (bd & _ & [_ _ _ B4 _ _] & ->). done.
  - by destruct Hb as [-> _].
Qed.

Lemma log_wf s fc op nodes bl i : inv s fc op nodes bl →
  Forall (fun m => meas_wf m ∧ id m = i) (flog i (_env s) fc ++ bl i).
Proof.
  intros Hinv. apply Forall_app. split; [|by eapply buffer_ids].
  unfold flog. apply Forall_forall. intros m Hm. apply list_elem_of_In, in_concat in Hm as (x & Hx & Hm).
  apply list_elem_of_In, list_elem_of_fmap in Hx as (n & -> & Hn).
  apply elem_names in Hn as (d & Hd & <- & <-).
  destruct (fo_wf _ _ (proj1 (iv_core _ _ _ _ _ Hinv)) d Hd) as [Hwf _].
  rewrite Forall_forall in Hwf. by apply (Hwf m), list_elem_of_In.
Qed.

(** A series is found in its own buffer only. *)
Lemma selected_buffers q s fc op nodes bl is_ j :
  inv s fc op nodes bl → NoDup is_ →
  selected q j (concat (bl <$> is_)) = if decide (j ∈ is_) then selected q j (bl j) else [].
Proof.
  intros Hinv Hnd. assert (Hother : ∀ i, i ≠ j → selected q j (bl i) = []).
  { intros i Hne. apply filter_none. eapply Forall_impl; [by eapply (buffer_ids s fc op nodes bl i)|].
    intros m [_ <-] [_ E]. done. }
  unfold selected in *. induction Hnd as [|i is_ Hi Hnd IH].
  { by rewrite decide_False by (intros []%elem_of_nil). }
  cbn [fmap list_fmap concat]. rewrite filter_app. change (list_fmap _ _ bl is_) with (bl <$> is_).
  rewrite IH. destruct (decide (i = j)) as [<-|Hne].
  - by rewrite decide_False, decide_True, app_nil_r by (done || by left).
  - rewrite Hother by done. cbn. destruct (decide (j ∈ is_)) as [Hj|Hj].
    + by rewrite decide_True by (by right).
    + rewrite decide_False; [done|]. by intros [?|?]%elem_of_cons.
Qed.

(** The readers of a query: those of the files, then that of the buffer. *)
Lemma readers_stage q s fc op nodes bl rl :
  inv s fc op nodes bl → NoDup (qi_ids q) →
  readers_are rl (fun j => if decide (j ∈ qi_ids q)
    then readers_of q j (fc <$> names j (_env s)) else []) →
  readers_are (fold_left push_reader (um_list ((fun ma => FullCursor.make (std_sort time ma)) <$>
      fold_left (WALFile.select q) (concat (bl <$> qi_ids q)) ∅)) rl)
    (fun j => if decide (j ∈ qi_ids q)
      then readers_of q j ((fc <$> names j (_env s)) ++ [bl j]) else []).
Proof.
  intros Hinv Hnd Hr. eapply readers_are_ext; [by apply push_all_are|]. intros j. cbn beta.
  rewrite um_list_filter, lookup_fmap, select_fold, lookup_empty.
  unfold um_at. rewrite lookup_empty. cbn [default].
  rewrite (selected_buffers q s fc op nodes bl _ j Hinv Hnd).
  destruct (decide (j ∈ qi_ids q)) as [Hj|Hj]; [|done]. unfold readers_of.
  rewrite filter_app, fmap_app. f_equal. rewrite filter_cons. unfold wal_answer.
  destruct (selected q j (bl j)) as [|m ms] eqn:Es;
    [by rewrite decide_False by (intros Hx; by apply Hx)|].
  rewrite decide_True by done. cbn [fmap option_fmap option_map list_fmap snd].
  rewrite mset_fold_kmerge, std_sort_strictly by apply kmerge_strict. by rewrite Es.
Qed.

(** *** Logs in the order of time *)

Lemma selected_strict q i l : strictly_by time l → strictly_by time (selected q i l).
Proof.
  unfold selected, strictly_by. induction 1 as [|x l Hl IH Hx]; [constructor|].
  rewrite filter_cons. destruct (decide _); [|done]. constructor; [done|].
  rewrite Forall_forall in *. intros y [_ Hy]%list_elem_of_filter. auto.
Qed.

(** The parts of the answer that are not empty. *)
Definition parts (q : QueryInterval) (i : Z) (ls : list (list Meas)) : list (list Meas) :=
  selected q i <$> base.filter (fun l => selected q i l ≠ []) ls.

Lemma concat_parts q i ls : concat (parts q i ls) = selected q i (concat ls).
Proof.
  unfold parts, selected. induction ls as [|l ls IH]; [done|]. rewrite filter_cons. cbn [concat].
  rewrite filter_app. fold (selected q i l) in *. destruct (decide (selected q i l ≠ [])) as [Hn|Hn].
  - rewrite fmap_cons. cbn [concat]. by rewrite IH.
  - rewrite IH. destruct (selected q i l) eqn:E; [done|]. exfalso. by apply Hn.
Qed.

Lemma readers_of_parts q i ls :
  strictly_by time (concat ls) →
  readers_of q i ls = Leaf <$> (FullCursor.make <$> parts q i ls).
Proof.
  intros [Hs _]%strict_concat. unfold readers_of, parts. rewrite <- !list_fmap_compose.
  apply list_fmap_ext. intros k l Hl%list_elem_of_lookup_2. cbn. do 2 f_equal.
  apply list_elem_of_filter in Hl as [_ Hl]. rewrite Forall_forall in Hs. unfold wal_answer.
  rewrite kmerge_ordered; cbn; rewrite app_nil_r; [done|]. by apply selected_strict, Hs.
Qed.

(** A cursor on an array in order. *)
Lemma full_exact l : l ≠ [] → strictly_by time l → Forall (fun m => MIN_TIME <= time m <= MAX_TIME) l →
  exact (FullCursor.make l) l.
Proof.
  intros Hl Hs Ht. rewrite Forall_forall in Ht. destruct (full_make_bounds l) as [E1 E2].
  destruct (tfirst_elem l Hl) as (mf & Hf & Ef), (tlast_elem l Hl) as (ml & Hm & El).
  split; cbn [cursor_minTime cursor_maxTime cursor_count FullCursor_ICursor].
  - rewrite <- (uniq_strictly l Hs) at 2. apply full_make_rep.
  - rewrite E1. destruct (time_min_spec l MAX_TIME) as (_ & Hle & [E|(m & Hx & E)]);
      rewrite Forall_forall in Hle; pose proof (Hle mf Hf); pose proof (Ht mf Hf); [lia|].
    pose proof (strict_bounds l m Hs Hx). lia.
  - rewrite E2. destruct (time_max_spec l MIN_TIME) as (_ & Hle & [E|(m & Hx & E)]);
      rewrite Forall_forall in Hle; pose proof (Hle ml Hm); pose proof (Ht ml Hm); [lia|].
    pose proof (strict_bounds l m Hs Hx). lia.
  - unfold FullCursor.count. cbn. lia.
Qed.

(** The readers of a series, collapsed, yield its part of the answer. *)
Lemma colapse_parts q i ls :
  strictly_by time (concat ls) → Forall (fun m => MIN_TIME <= time m <= MAX_TIME) (concat ls) →
  Z.of_nat (length (concat ls)) < 2 ^ 64 → readers_of q i ls ≠ [] →
  ∃ c, match readers_of q i ls with [r] => Ok r | rs => colapseCursors rs end = Ok c ∧
       flat c (selected q i (concat ls)) ∧ selected q i (concat ls) ≠ [].
Proof.
  intros Hs Ht Hl Hne.
  assert (Hps : strictly_by time (concat (parts q i ls))) by (rewrite concat_parts; by apply selected_strict).
  assert (Hpt : Forall (fun m => MIN_TIME <= time m <= MAX_TIME) (concat (parts q i ls))).
  { rewrite concat_parts. eapply Forall_sublist_of; [apply sublist_filter|done]. }
  destruct (strict_concat _ Hps) as [Hp1 Hp2].
  assert (Hn : Forall (fun l => l ≠ []) (parts q i ls)).
  { unfold parts. apply Forall_fmap, Forall_forall. intros l Hx. by apply list_elem_of_filter in Hx as [? _]. }
  rewrite readers_of_parts in * by done. rewrite <- concat_parts.
  assert (Hex : Forall2 exact (FullCursor.make <$> parts q i ls) (parts q i ls)).
  { apply Forall2_fmap_l, Forall_Forall2_diag. rewrite Forall_forall in Hn; rewrite Forall_forall in Hp1; rewrite Forall_forall in Hpt. apply Forall_forall.
    intros l Hx. apply full_exact; [by apply Hn|by apply Hp1|]. apply Forall_forall. intros m Hm.
    apply Hpt, list_elem_of_In, in_concat. exists l. split; by apply list_elem_of_In. }
  destruct (colapse_flat (Leaf <$> (FullCursor.make <$> parts q i ls)) (parts q i ls) (parts q i ls))
    as (c & E & Hc); try done.
  - by apply leaves_flat.
  - rewrite concat_parts. pose proof (length_filter (fun m => in_query q m ∧ id m = i) (concat ls)). unfold selected. lia.
  - exists c. split; [by destruct (Leaf <$> _) as [|? []]|]. split; [done|]. destruct (parts q i ls) as [|l lss]; [done|].
    apply Forall_cons in Hn as [Hn _]. by destruct l.
Qed.

(** A series in the order of time, of a size that can be counted. *)
Definition ordered_log (l : list Meas) : Prop :=
  strictly_by time l ∧ Forall (fun m => time m < MAX_TIME) l ∧ Z.of_nat (length l) < 2 ^ 64.

Lemma intervalReader_ok q s fc op nodes bl :
  inv s fc op nodes bl → NoDup (qi_ids q) →
  (∀ i, i ∈ qi_ids q → ordered_log (flog i (_env s) fc ++ bl i)) →
  ∃ r, intervalReader st q s = Ok (r, s) ∧ ∀ i, match r !! i with
    | None => i ∈ qi_ids q → selected q i (flog i (_env s) fc ++ bl i) = []
    | Some c => i ∈ qi_ids q ∧ flat c (selected q i (flog i (_env s) fc ++ bl i)) ∧
        selected q i (flog i (_env s) fc ++ bl i) ≠ []
    end.
Proof.
  intros Hinv Hnd Hord. pose proof Hinv as [Hc Hfill _ _ _ _]. unfold intervalReader.
  set (pieces := fun i => (fc <$> names i (_env s)) ++ [bl i]).
  assert (Hp : ∀ i, concat (pieces i) = flog i (_env s) fc ++ bl i).
  { intros i. unfold pieces, flog. rewrite concat_app. cbn. by rewrite app_nil_r. }
  destruct (files_stage q s fc op (qi_ids q) ∅ (fun _ => []) Hc Hfill Hnd (fun i Hi => Hi))
    as (rl & -> & Hrl); [intros j; by rewrite lookup_empty|].
  rewrite bind_Ok, (buffers_stage q s fc op nodes bl _ _ Hinv), bind_Ok.
  pose proof (readers_stage q s fc op nodes bl rl Hinv Hnd Hrl) as Hrd.
  set (rl2 := fold_left push_reader _ rl) in *.
  destruct (colapse_gmap rl2 (fun i c => i ∈ qi_ids q ∧ flat c (selected q i (flog i (_env s) fc ++ bl i)) ∧
    selected q i (flog i (_env s) fc ++ bl i) ≠ [])) as (r & -> & Hr).
  { intros i rs Hi. rewrite Hrd in Hi. destruct (decide (i ∈ qi_ids q)) as [Hq|]; [|done]. fold (pieces i) in Hi.
    destruct (readers_of q i (pieces i)) as [|r0 rs0] eqn:Er; [done|]. injection Hi as <-.
    destruct (Hord i Hq) as (O1 & O2 & O3). rewrite <- Hp in O1, O3 |- *.
    destruct (colapse_parts q i (pieces i)) as (c & E & Hcc & Hne); [done| |done|by rewrite Er|].
    - rewrite Hp. eapply Forall_impl; [by eapply (log_wf s fc op nodes bl i)|].
      intros m [(_ & Ht & _) _]. unfold is_time in Ht. unfold MIN_TIME, MAX_TIME. lia.
    - rewrite Er in E. exists c. split; [by destruct rs0|done]. }
  rewrite bind_Ok. eexists. split; [done|]. intros i. specialize (Hr i).
  destruct (list_to_map r !! i) as [c|]; [done|]. intros Hi. rewrite Hrd, decide_True in Hr by done.
  fold (pieces i) in Hr. rewrite <- Hp.
  destruct (readers_of q i (pieces i)) eqn:Er; [|done]. unfold readers_of in Er.
  apply fmap_nil_inv in Er. rewrite <- concat_parts. unfold parts. by rewrite Er.
Qed.

Lemma append_log v s l :
  holds_with s l → StrippedMap._size (_buffers s) < 2 ^ 62 → meas_wf v →
  ∃ s', append st v s = Ok (Status_writed 1, s') ∧
    holds_with s' (put_log (id v) (l (id v) ++ [v]) l) ∧
    StrippedMap._size (_buffers s') <= StrippedMap._size (_buffers s) + 1.
Proof.
  intros (fc & op & nodes & bl & Hinv & Hl) Hsz Hv.
  destruct (append_inv v s fc op nodes bl Hinv Hsz Hv) as (s' & fc' & op' & nodes' & bl' & E & Hinv' & Hlog & Hn).
  exists s'. split_and!; [done| |].
  - exists fc', op', nodes', bl'. split; [done|]. intros i. rewrite Hlog.
    destruct (decide (i = id v)) as [->|Hne]; [by rewrite !put_log_eq, Hl, <- (assoc_L (++))|].
    by rewrite !put_log_ne.
  - rewrite (wf_size _ _ (iv_wf _ _ _ _ _ Hinv)), (wf_size _ _ (iv_wf _ _ _ _ _ Hinv')). lia.
Qed.

Lemma append_all ms s l :
  holds_with s l → StrippedMap._size (_buffers s) + Z.of_nat (length ms) < 2 ^ 62 → Forall meas_wf ms →
  ∃ s', foldM (fun s m => '(_, s) ← append st m s; Ok s) ms s = Ok s' ∧
    holds_with s' (fun i => l i ++ base.filter (fun m => id m = i) ms).
Proof.
  revert s l. induction ms as [|m ms IH]; intros s l Hl Hsz Hwf.
  { exists s. split; [done|]. destruct Hl as (fc & op & nodes & bl & Hi & E). exists fc, op, nodes, bl.
    split; [done|]. intros i. by rewrite app_nil_r. }
  apply Forall_cons_1 in Hwf as [Hm Hwf]. cbn [length] in Hsz.
  destruct (append_log m s l Hl ltac:(lia) Hm) as (s1 & E1 & Hl1 & Hs1).
  destruct (IH s1 _ Hl1 ltac:(lia) Hwf) as (s' & E' & fc & op & nodes & bl & Hi & E).
  exists s'. cbn [foldM]. rewrite E1, !bind_Ok. split; [done|]. exists fc, op, nodes, bl.
  split; [done|]. intros i. rewrite <- E, filter_cons. destruct (decide (id m = i)) as [<-|Hne].
  - by rewrite put_log_eq, <- (assoc_L (++)).
  - by rewrite put_log_ne by done.
Qed.

(** A new manager where nothing has been logged. *)
Definition fresh_env (e : env) : Prop :=
  Manifest.db_ok (e_manifest e) = true ∧ rows e = [] ∧
  (∀ k, fs_files (e_fs e) !! path (name k) = None) ∧
  (∀ k, fs_writable (e_fs e) (path (name k)) = true).

Lemma make_fresh e : fresh_env e → make st e = Ok (Mk (D := D) None (StrippedMap.make 1000) [] ∅ ∅ e).
Proof.
  intros (Hdb & Hr & _ & _). unfold make, Manifest.wal_list, Manifest.prepare. rewrite Hdb, !bind_Ok.
  change (Manifest.wal (e_manifest e)) with (rows e). rewrite Hr. by destruct (path_exists _ _).
Qed.

Lemma fresh_inv e : fresh_env e → T ∅ None ∅ e →
  inv (Mk None (StrippedMap.make 1000) [] ∅ ∅ e) (fun _ => []) ∅ [] (fun _ => []).
Proof.
  intros (Hdb & Hr & Hf & Hw) Ht. destruct (make_wf (D := option nat) 1000 ltac:(lia)) as [Hw0 Hu0].
  assert (Hno : ∀ d, d ∉ rows e) by (intros d; rewrite Hr; apply not_elem_of_nil).
  split; try done.
  - split_and!; [split| |done]; cbn [_env _file2minmax]; try done; try (intros d Hd; by destruct (Hno d)).
    rewrite Hr. constructor.
  - intros d. cbn [_env]. intros Hd. by destruct (Hno d).
Qed.

Lemma make_log e : fresh_env e → T ∅ None ∅ e → ∃ s : t D, make st e = Ok s ∧ holds_with s (fun _ => []) ∧
  StrippedMap._size (_buffers s) = 0.
Proof.
  intros Hf Ht. eexists. split; [by apply make_fresh|]. split; [|done].
  exists (fun _ => []), ∅, [], (fun _ => []). split; [by apply fresh_inv|].
  intros i. destruct Hf as (_ & Hr & _). unfold flog, names. cbn. by rewrite Hr.
Qed.

Lemma log_ids s l i : holds_with s l → Forall (fun m => id m = i) (l i).
Proof.
  intros (fc & op & nodes & bl & Hinv & ->). eapply Forall_impl; [by eapply log_wf|]. by intros m [].
Qed.

Lemma selected_own q i l : Forall (fun m => id m = i) l → selected q i l = base.filter (in_query q) l.
Proof.
  unfold selected. induction 1 as [|m l Hm _ IH]; [done|]. rewrite !filter_cons, IH.
  destruct (decide (in_query q m)); [by rewrite decide_True|].
  by rewrite decide_False by by intros [? _].
Qed.

Lemma readInterval_log q s l :
  holds_with s l → NoDup (qi_ids q) → (∀ i, i ∈ qi_ids q → ordered_log (l i)) →
  @readInterval _ _ _ (WALManager_IMeasSource st) q s =
  Ok (concat ((fun i => base.filter (in_query q) (l i)) <$> qi_ids q), s).
Proof.
  intros Hl Hnd Hord. pose proof Hl as (fc & op & nodes & bl & Hinv & El).
  destruct (intervalReader_ok q s fc op nodes bl Hinv Hnd) as (r & E & Hr).
  { intros i Hi. rewrite <- El. by apply Hord. }
  unfold readInterval. cbn [ms_intervalReader WALManager_IMeasSource]. rewrite E, bind_Ok.
  destruct (read_one_fold q r [] (fun i => base.filter (in_query q) (l i)) (qi_ids q) Hnd) as [r' ->];
    [|done].
  intros i Hi. specialize (Hr i). rewrite <- El in Hr.
  rewrite selected_own in Hr by by apply (log_ids s). destruct (r !! i) as [c|]; [|by apply Hr].
  destruct Hr as (_ & Hfl & _). exists (base.filter (in_query q) (l i)). split.
  { apply flat_rep; [done|]. destruct (Hord i Hi) as [Hs _].
    eapply StronglySorted_sublist; [apply sublist_filter|exact Hs]. }
  apply filter_id, Forall_forall. intros m Hm. by apply list_elem_of_filter in Hm as [? _].
Qed.
End Spec.

(** Nothing else is kept track of. *)
Definition no_track {D} : gmap Z string → option D → gset string → env → Prop := fun _ _ _ _ => True.

Definition holds_log {D} `{Paths} `{FileNames} (st : WalSettings) (s : t D) (l : Z → list Meas) : Prop :=
  holds_with st no_track s l.

(** ** The manager's contract *)

(** C12: an append is acknowledged as one written measurement, whatever flushes
    and new files it causes, and adds the measurement at the end of the log of
    its identifier: no other log and nothing already logged changes. *)
Theorem wal_manager_append {D} `{IWALDropper D} `{Paths} `{FileNames} `{StdSort} `{UnorderedMap}
    (st : WalSettings) v (s : t D) l :
  (∀ i j, random_file_name i WAL_FILE_EXT = random_file_name j WAL_FILE_EXT → i = j) →
  (∀ f g d, ∃ d', wd_dropWAL f g d = Ok d') →
  1 <= wal_file_size st < 2 ^ 59 → 2 <= wal_cache_size st < 2 ^ 59 →
  holds_log st s l → StrippedMap._size (_buffers s) < 2 ^ 62 → meas_wf v →
  ∃ s', append st v s = Ok (Status_writed 1, s') ∧
    holds_log st s' (put_log (id v) (l (id v) ++ [v]) l).
Proof.
  intros Hn Hd Hf Hc Hl Hs Hv.
  destruct (append_log st Hn Hd Hf Hc no_track ltac:(done) ltac:(done) ltac:(done) v s l Hl Hs Hv) as (s' & E & Hl' & _). by exists s'.
Qed.


(** *** Witnesses *)

(** A dropper that takes every file. *)
#[local] Instance accepting_dropper : IWALDropper unit := { wd_dropWAL := fun _ _ d => Ok d }.

Definition small_settings : WalSettings := mkWalSettings "raw" 2 2 COMPRESSED.

Lemma empty_env_fresh : fresh_env small_settings empty_env.
Proof. by repeat split. Qed.

Lemma wal_manager_append_witness :
  let m := mkMeas 7 3 5 3 in
  ∃ s s' : t unit, make small_settings empty_env = Ok s ∧
    append small_settings m s = Ok (Status_writed 1, s') ∧
    holds_log small_settings s' (put_log 7 [m] (fun _ => [])).
Proof.
  intros m. destruct (make_log (D := unit) small_settings no_track _ empty_env_fresh I) as (s & E & Hl & Hs).
  destruct (wal_manager_append small_settings m s (fun _ => [])) as (s' & E' & Hl').
  - apply ones_inj.
  - intros f g []. by exists tt.
  - done.
  - done.
  - exact Hl.
  - rewrite Hs. done.
  - repeat constructor; vm_compute; congruence.
  - by exists s, s'.
Defined.


(** A file that was not full is opened again when the manager starts and
    further measurements are written to it, but the summary of its times made at
    the start is kept: a query for the new measurements skips the file and finds
    nothing, although the file holds them. *)
Theorem wal_reopened_file_skipped :
  let st := mkWalSettings "raw" 10 2 COMPRESSED in
  let m t := mkMeas 7 t 5 3 in
  let e := mkEnv (mkFs {["raw/old.wal" := Meas_bytes (m 1)]} {["raw"]} (fun _ => true))
             (Manifest.mk true [] [Manifest.mkDescr "old.wal" 7] None) 0 in
  (s0 ← (make st e : outcome (t unit));
   s ← foldM (fun s m => '(_, s) ← append st m s; Ok s) [m 5; m 6] s0;
   '(written, _) ← WALFile.readAll (WALFile.open "raw/old.wal" true (_env s)) (_env s);
   '(answer, _) ← @readInterval _ _ _ (WALManager_IMeasSource st) (mkQueryInterval [7] 0 4 9 0) s;
   Ok (written, answer)) = Ok ([m 1; m 5; m 6], []).
Proof. vm_compute. reflexivity. Qed.
