(* ===== verification/PageFormat.v ===== *)
(** * Pages: the structures in the files

    [storage/magic.h], the packed structures of [storage/pages/index.h],
    [storage/pages/page.h], [storage/chunk.h] and [stat.h], and their bytes in a
    file.  A structure is described by the widths of its fields ([Packed]); what
    is written is read back whenever every field is in its range. *)

From Stdlib Require Import ZArith Lia.
From stdpp Require Import base numbers list.
From S2P Require Import Prelude Float64 Meas Bloom Stat StdSort Chunk.

Local Open Scope Z_scope.

Definition MAGIC_NUMBER_DARIADB : Z := 0x2E62646169726164.
Definition MAGIC_NUMBER_INDEXFTR : Z := 0xAA.
Definition MAGIC_NUMBER_PAGEFTR : Z := 0x55.

(** ** Packed structures *)

Fixpoint struct_bytes (ws : list nat) (vs : list Z) : list Z :=
  match ws, vs with
  | w :: ws, v :: vs => to_le w v ++ struct_bytes ws vs
  | _, _ => []
  end.

Fixpoint struct_fields (ws : list nat) (bs : list Z) : list Z :=
  match ws with
  | [] => []
  | w :: ws => of_le (take w bs) :: struct_fields ws (drop w bs)
  end.

Definition in_width (w : nat) (v : Z) : Prop := 0 <= v < 256 ^ Z.of_nat w.

Class Packed (A : Type) := {
  layout : list nat;
  fields : A → list Z;
  of_fields : list Z → A;
  of_fields_fields : ∀ a, of_fields (fields a) = a;
  length_fields : ∀ a, length (fields a) = length layout;
}.

Section Packed.
Context {A : Type} `{!Packed A}.

Definition size_of : nat := sum_list layout.
Definition bytes_of (a : A) : list Z := struct_bytes layout (fields a).
Definition of_bytes (bs : list Z) : A := of_fields (struct_fields layout bs).
Definition in_range (a : A) : Prop := Forall2 in_width layout (fields a).

Lemma length_bytes_of a : length (bytes_of a) = size_of.
Proof.
  unfold bytes_of, size_of. pose proof (length_fields a) as Hl. revert Hl.
  generalize (fields a). induction layout as [|w ws IH]; intros [|v vs] Hl; try done.
  cbn [struct_bytes]. rewrite length_app, length_to_le. cbn. f_equal. apply IH. by injection Hl.
Qed.

Lemma struct_roundtrip ws vs rest :
  Forall2 in_width ws vs → struct_fields ws (struct_bytes ws vs ++ rest) = vs.
Proof.
  induction 1 as [|w v ws vs Hv _ IH]; [done|]. cbn [struct_bytes struct_fields].
  rewrite <- app_assoc, take_app_length', drop_app_length' by (by rewrite length_to_le).
  by rewrite IH, of_to_le_small.
Qed.

Lemma of_bytes_of a rest : in_range a → of_bytes (bytes_of a ++ rest) = a.
Proof.
  intros Ha. unfold of_bytes, bytes_of. by rewrite struct_roundtrip, of_fields_fields.
Qed.

(** [fread(p, sizeof(A), n, file)] from the start: the whole structures. *)
Fixpoint fread (n : nat) (bs : list Z) : list A :=
  match n with
  | O => []
  | S n =>
    if (length bs <? size_of)%nat then []
    else of_bytes bs :: fread n (drop size_of bs)
  end.

Lemma fread_structs l rest :
  Forall in_range l → fread (length l) (concat (bytes_of <$> l) ++ rest) = l.
Proof.
  induction 1 as [|a l Ha _ IH]; [done|].
  change (concat (bytes_of <$> a :: l)) with (bytes_of a ++ concat (bytes_of <$> l)).
  rewrite <- app_assoc. cbn [length fread]. rewrite length_app, length_bytes_of.
  rewrite (proj2 (Nat.ltb_ge _ _)) by lia.
  rewrite of_bytes_of, drop_app_length' by (done || by rewrite length_bytes_of). by rewrite IH.
Qed.

(** The structure at the end of a file; [None] when the file is too short. *)
Definition read_tail (bs : list Z) : option A :=
  if (length bs <? size_of)%nat then None else Some (of_bytes (drop (length bs - size_of) bs)).

Lemma read_tail_bytes bs a : in_range a → read_tail (bs ++ bytes_of a) = Some a.
Proof.
  intros Ha. unfold read_tail. rewrite length_app, length_bytes_of.
  rewrite (proj2 (Nat.ltb_ge _ _)) by lia. rewrite drop_app_length' by lia.
  rewrite <- (app_nil_r (bytes_of a)). by rewrite of_bytes_of.
Qed.
End Packed.

#[global] Arguments size_of A {_} : assert.

(** ** Statistics and chunk headers *)

Definition stat_layout : list nat := [8; 8; 4; 8; 8; 8; 8]%nat.
Definition stat_fields (st : Statistic) : list Z :=
  [minTime st; maxTime st; count st; flag_bloom st; minValue st; maxValue st; sum st].

(** [MeasData::id] is never set and never read; its bytes are zero here. *)
#[export] Instance ChunkHeader_Packed : Packed ChunkHeader.t.
Proof.
  refine {|
    layout := ([8; 4] ++ [4; 8; 8; 4] ++ [4; 8; 8; 4] ++ [4; 4; 4; 8] ++ stat_layout ++ [1])%nat;
    fields h :=
      let f := ChunkHeader.data_first h in
      let l := ChunkHeader.data_last h in
      [ChunkHeader.id h; ChunkHeader.meas_id h] ++
      [0; d_time f; d_value f; d_flag f] ++ [0; d_time l; d_value l; d_flag l] ++
      [ChunkHeader.bw_pos h; ChunkHeader.size h; ChunkHeader.crc h; ChunkHeader.offset_in_page h] ++
      stat_fields (ChunkHeader.stat h) ++ [ChunkHeader.is_sorted h];
    of_fields l :=
      match l with
      | [i; mi; _; ft; fv; ff; _; lt; lv; lf; bp; sz; crc; off; t1; t2; n; fb; v1; v2; sm; srt] =>
        ChunkHeader.mk i mi (mkMeasData ft fv ff) (mkMeasData lt lv lf) bp sz crc off
          (mkStatistic t1 t2 n fb v1 v2 sm) srt
      | _ => ChunkHeader.zero
      end
  |}.
  - by intros [? ? [] [] ? ? ? ? [] ?].
  - done.
Defined.

(** ** The index file *)

Record IndexFooter := mkIndexFooter {
  if_magic_number : Z;
  if_is_sorted : Z;
  if_target_id : Z;
  if_stat : Statistic;
  if_recs_count : Z;
  if_level : Z;
  if_parent_offset : Z;
  if_ftr_end : Z;
}.

Definition IndexFooter_init : IndexFooter :=
  mkIndexFooter MAGIC_NUMBER_DARIADB 0 0 Statistic_empty 0 0 0 MAGIC_NUMBER_INDEXFTR.

(** A footer of zero bytes. *)
Definition IndexFooter_zero : IndexFooter :=
  mkIndexFooter 0 0 0 (mkStatistic 0 0 0 0 0 0 0) 0 0 0 0.

Definition IndexFooter_check (f : IndexFooter) : bool :=
  if negb (if_parent_offset f =? 0) then false
  else if negb (if_magic_number f =? MAGIC_NUMBER_DARIADB) then false
  else if negb (if_ftr_end f =? MAGIC_NUMBER_INDEXFTR) then false
  else true.

#[export] Instance IndexFooter_Packed : Packed IndexFooter.
Proof.
  refine {|
    layout := ([8; 1; 4] ++ stat_layout ++ [8; 2; 8; 1])%nat;
    fields f :=
      [if_magic_number f; if_is_sorted f; if_target_id f] ++ stat_fields (if_stat f) ++
      [if_recs_count f; if_level f; if_parent_offset f; if_ftr_end f];
    of_fields l :=
      match l with
      | [mg; srt; i; t1; t2; n; fb; v1; v2; sm; rc; lv; po; fe] =>
        mkIndexFooter mg srt i (mkStatistic t1 t2 n fb v1 v2 sm) rc lv po fe
      | _ => IndexFooter_zero
      end
  |}.
  - by intros [? ? ? [] ? ? ? ?].
  - done.
Defined.

Record IndexReccord := mkIndexReccord {
  ir_target_id : Z;
  ir_chunk_id : Z;
  ir_offset : Z;
  ir_stat : Statistic;
}.

#[export] Instance IndexReccord_Packed : Packed IndexReccord.
Proof.
  refine {|
    layout := ([8; 8; 8] ++ stat_layout)%nat;
    fields r := [ir_target_id r; ir_chunk_id r; ir_offset r] ++ stat_fields (ir_stat r);
    of_fields l :=
      match l with
      | [i; c; o; t1; t2; n; fb; v1; v2; sm] =>
        mkIndexReccord i c o (mkStatistic t1 t2 n fb v1 v2 sm)
      | _ => mkIndexReccord 0 0 0 Statistic_empty
      end
  |}.
  - by intros [? ? ? []].
  - done.
Defined.

(** ** The page file *)

Record PageFooter := mkPageFooter {
  pf_magic_dariadb : Z;
  pf_addeded_chunks : Z;
  pf_filesize : Z;
  pf_stat : Statistic;
  pf_max_chunk_id : Z;
  pf_level : Z;
  pf_parent_offset : Z;
  pf_ftr_end : Z;
}.

(** The constructor sets [max_chunk_id] to its argument and then to 0. *)
Definition PageFooter_make (lvl chunk_id : Z) : PageFooter :=
  mkPageFooter MAGIC_NUMBER_DARIADB 0 0 Statistic_empty 0 lvl 0 MAGIC_NUMBER_PAGEFTR.

Definition PageFooter_zero : PageFooter :=
  mkPageFooter 0 0 0 (mkStatistic 0 0 0 0 0 0 0) 0 0 0 0.

Definition PageFooter_check (f : PageFooter) : bool :=
  if negb (pf_parent_offset f =? 0) then false
  else if negb (pf_magic_dariadb f =? MAGIC_NUMBER_DARIADB) then false
  else if negb (pf_ftr_end f =? MAGIC_NUMBER_PAGEFTR) then false
  else true.

#[export] Instance PageFooter_Packed : Packed PageFooter.
Proof.
  refine {|
    layout := ([8; 4; 8] ++ stat_layout ++ [8; 2; 8; 1])%nat;
    fields f :=
      [pf_magic_dariadb f; pf_addeded_chunks f; pf_filesize f] ++ stat_fields (pf_stat f) ++
      [pf_max_chunk_id f; pf_level f; pf_parent_offset f; pf_ftr_end f];
    of_fields l :=
      match l with
      | [mg; ac; fz; t1; t2; n; fb; v1; v2; sm; mc; lv; po; fe] =>
        mkPageFooter mg ac fz (mkStatistic t1 t2 n fb v1 v2 sm) mc lv po fe
      | _ => PageFooter_zero
      end
  |}.
  - by intros [? ? ? [] ? ? ? ?].
  - done.
Defined.

(** ** Ranges *)

Lemma stat_in_width st : stat_wf st → Forall2 in_width stat_layout (stat_fields st).
Proof.
  intros [H1 H2 H3 H4 H5 H6 H7]. unfold is_time, is_value in *.
  repeat constructor; unfold in_width; cbn [Z.of_nat]; lia.
Qed.
