(* ===== verification/PageIndex.v ===== *)
(** * Pages: the index of a page

    [storage/pages/index.cpp], [storage/pages/index.h] and [ChunkLink] of
    [storage/chunkcontainer.h]: the index file of a page has one record per
    chunk and a footer; a query selects records by time, identifier and flag. *)

From Stdlib Require Import ZArith Lia String.
From stdpp Require Import base numbers list gmap strings.
From S2P Require Import Prelude Float64 Meas Bloom Stat StdSort Chunk Files PageFormat.

Local Open Scope Z_scope.

Record ChunkLink := mkChunkLink {
  cl_id : Z;
  cl_meas_id : Z;
  cl_minTime : Z;
  cl_maxTime : Z;
  cl_page_name : string;
  cl_index_rec_number : nat;
}.

Definition check_index_rec (it : IndexReccord) (from to : Z) : bool :=
  inInterval from to (minTime (ir_stat it)) || inInterval from to (maxTime (ir_stat it)) ||
  inInterval (minTime (ir_stat it)) (maxTime (ir_stat it)) from ||
  inInterval (minTime (ir_stat it)) (maxTime (ir_stat it)) to.

Definition check_blooms (it : IndexReccord) (i fl : Z) : bool :=
  let id_check_result := ir_target_id it =? i in
  let flag_bloom_result := (fl =? 0) || bloom_check (flag_bloom (ir_stat it)) fl in
  id_check_result && flag_bloom_result.

Module PageIndex.

Record t := mk {
  filename : string;
  iheader : IndexFooter;
}.

Definition index_name_from_page_name (page_name : string) : string := page_name +:+ "i".

(** A read from a file that is too short leaves the zeroed footer. *)
Definition readIndexFooter (ifile : string) (f : fs) : outcome IndexFooter :=
  match fopen_rb ifile f with
  | None => Throw
  | Some bs =>
    let result := default IndexFooter_zero (read_tail bs) in
    if negb (IndexFooter_check result) then Throw else Ok result
  end.

Definition open (_filename : string) (f : fs) : outcome t :=
  h ← readIndexFooter _filename f; Ok (mk _filename h).

Definition readReccords (ix : t) (f : fs) : outcome (list IndexReccord) :=
  match fopen_rb (filename ix) f with
  | None => Throw
  | Some bs =>
    let n := if_recs_count (iheader ix) in
    let records := fread (Z.to_nat n) bs in
    if Z.of_nat (length records) <? n then Throw else Ok records
  end.

(** The record [pos] is asked for. *)
Definition selects (ids : list Z) (from to fl : Z) (it : IndexReccord) : bool :=
  check_index_rec it from to &&
  match ids with [] => true | _ => existsb (fun i => check_blooms it i fl) ids end.

Definition link (pos : nat) (it : IndexReccord) : ChunkLink :=
  mkChunkLink (ir_chunk_id it) (ir_target_id it) (minTime (ir_stat it)) (maxTime (ir_stat it))
    "" pos.

(** The counter of the loop has 32 bits. *)
Definition get_chunks_links (ids : list Z) (from to fl : Z) (ix : t) (f : fs)
  : outcome (list ChunkLink) :=
  records ← readReccords ix f;
  if 2 ^ 32 <=? if_recs_count (iheader ix) then Diverge
  else
    Ok (omap (fun p => if selects ids from to fl p.2 then Some (link p.1 p.2) else None)
             (imap pair records)).

End PageIndex.
