(* ===== verification/Page.v ===== *)
(** * Pages: one page

    [storage/pages/helpers.cpp] and [storage/pages/page.cpp]: a page is a file of
    compressed chunks of one series with a footer, and an index file.  Pages are
    written once, from measurements (when a log is dropped), from chunks of the
    memory storage, or from other pages (repacking); then they are only read.
    The tasks of the thread pool run here in place. *)

From Stdlib Require Import ZArith Lia String.
From stdpp Require Import base numbers list gmap strings.
From S2P Require Import Prelude ByteBuffer Float64 Meas Bloom Stat StdSort ICursor FullCursor Chunk KMerge Cursors Colapse.
From S2P Require Import StripedMap StdMap Storages Files PageFormat PageIndex.

Local Open Scope Z_scope.

(** ** Updates of the footers *)

Definition pf_set_stat (x : Statistic) (p : PageFooter) : PageFooter :=
  mkPageFooter (pf_magic_dariadb p) (pf_addeded_chunks p) (pf_filesize p) x (pf_max_chunk_id p)
    (pf_level p) (pf_parent_offset p) (pf_ftr_end p).
Definition pf_set_addeded_chunks (x : Z) (p : PageFooter) : PageFooter :=
  mkPageFooter (pf_magic_dariadb p) x (pf_filesize p) (pf_stat p) (pf_max_chunk_id p)
    (pf_level p) (pf_parent_offset p) (pf_ftr_end p).
Definition pf_set_filesize (x : Z) (p : PageFooter) : PageFooter :=
  mkPageFooter (pf_magic_dariadb p) (pf_addeded_chunks p) x (pf_stat p) (pf_max_chunk_id p)
    (pf_level p) (pf_parent_offset p) (pf_ftr_end p).
Definition pf_set_max_chunk_id (x : Z) (p : PageFooter) : PageFooter :=
  mkPageFooter (pf_magic_dariadb p) (pf_addeded_chunks p) (pf_filesize p) (pf_stat p) x
    (pf_level p) (pf_parent_offset p) (pf_ftr_end p).

Definition if_set_stat (x : Statistic) (h : IndexFooter) : IndexFooter :=
  mkIndexFooter (if_magic_number h) (if_is_sorted h) (if_target_id h) x (if_recs_count h)
    (if_level h) (if_parent_offset h) (if_ftr_end h).
Definition if_set_level (x : Z) (h : IndexFooter) : IndexFooter :=
  mkIndexFooter (if_magic_number h) (if_is_sorted h) (if_target_id h) (if_stat h) (if_recs_count h)
    x (if_parent_offset h) (if_ftr_end h).
Definition if_set_target (i n : Z) (h : IndexFooter) : IndexFooter :=
  mkIndexFooter (if_magic_number h) (if_is_sorted h) i (if_stat h) n
    (if_level h) (if_parent_offset h) (if_ftr_end h).

(** [ICompactionController] *)
Record CompactionController := mkController {
  targetId : Z;
  eraseOlderThan : Z;
  cc_from : Z;
  cc_to : Z;
  (** [compact] may change both arrays *)
  cc_compact : list Meas → list Z → list Meas * list Z;
}.

Module PageInner.

Record HdrAndBuffer := mkHab { hdr : ChunkHeader.t; buffer : list Z }.

Definition have_overlap (links : list ChunkLink) : bool :=
  let ls := imap pair links in
  existsb (fun p => existsb (fun r =>
    negb (p.1 =? r.1)%nat &&
    intervalsIntersection (cl_minTime p.2) (cl_maxTime p.2) (cl_minTime r.2) (cl_maxTime r.2)) ls) ls.

(** The inner loop: what the chunk refuses is left. *)
Fixpoint fill_chunk (ch : Chunk.t) (it : list Meas) : outcome (Chunk.t * list Meas) :=
  match it with
  | [] => Ok (ch, [])
  | m :: it' =>
    '(ok, ch) ← Chunk.append m ch;
    if negb ok then Ok (ch, it) else fill_chunk ch it'
  end.

Fixpoint compress_loop (fuel : nat) (max_chunk_size : Z) (it : list Meas)
    (results : list HdrAndBuffer) (phdr : PageFooter) : outcome (list HdrAndBuffer * PageFooter) :=
  match it with
  | [] => Ok (results, phdr)
  | m :: it =>
    match fuel with
    | O => Diverge
    | S fuel =>
      ch ← Chunk.create ChunkHeader.zero (Z.to_nat max_chunk_size) m;
      '(ch, it) ← fill_chunk ch it;
      let phdr := pf_set_max_chunk_id (u64 (pf_max_chunk_id phdr + 1)) phdr in
      let h := ChunkHeader.set_id (pf_max_chunk_id phdr) (Chunk.header ch) in
      let phdr := pf_set_stat (update_stat (ChunkHeader.stat h) (pf_stat phdr)) phdr in
      compress_loop fuel max_chunk_size it (results ++ [mkHab h (get_range (Chunk.bw ch))]) phdr
    end
  end.

(** Every round takes a measurement. *)
Definition compressValues (to_compress : list Meas) (phdr : PageFooter) (max_chunk_size : Z)
  : outcome (list HdrAndBuffer * PageFooter) :=
  compress_loop (length to_compress) max_chunk_size to_compress [] phdr.

Definition init_chunk_index_rec (cheader : ChunkHeader.t) (iheader : IndexFooter)
  : IndexReccord * IndexFooter :=
  (mkIndexReccord (ChunkHeader.meas_id cheader) (ChunkHeader.id cheader)
     (ChunkHeader.offset_in_page cheader) (ChunkHeader.stat cheader),
   if_set_target (ChunkHeader.meas_id cheader) (u64 (if_recs_count iheader + 1)) iheader).

Section Write.
(** [utils::crc32] is [boost::crc_32_type]. *)
Variable crc32 : list Z → Z.

Record writing := mkWriting {
  w_fs : fs;
  w_phdr : PageFooter;
  w_ihdr : IndexFooter;
  w_offset : Z;
  w_recs : list IndexReccord;
}.

(** A chunk, cut to the bytes in use, at the end of the page file. *)
Definition write_chunk (file : string) (w : writing) (hb : HdrAndBuffer) : outcome writing :=
  let phdr := pf_set_addeded_chunks (u32 (pf_addeded_chunks (w_phdr w) + 1)) (w_phdr w) in
  let phdr := pf_set_stat (update_stat (ChunkHeader.stat (hdr hb)) (pf_stat phdr)) phdr in
  let '(skip_count, h) := Chunk.compact (hdr hb) in
  let h := ChunkHeader.set_offset_in_page (w_offset w) h in
  if Z.of_nat (length (buffer hb)) <? skip_count + ChunkHeader.size h then UB
  else
    let data := take (Z.to_nat (ChunkHeader.size h)) (drop (Z.to_nat skip_count) (buffer hb)) in
    let h := Chunk.updateChecksum crc32 h data in
    let f := fwrite_ab file (bytes_of h) (w_fs w) in
    let f := fwrite_ab file data f in
    let offset := u64 (w_offset w + Z.of_nat (size_of ChunkHeader.t) + ChunkHeader.size h) in
    let '(index_reccord, ihdr) := init_chunk_index_rec h (w_ihdr w) in
    Ok (mkWriting f phdr ihdr offset (w_recs w ++ [index_reccord])).

Definition writeToFile (file index_file : string) (phdr : PageFooter) (ihdr : IndexFooter)
    (compressed_results : list HdrAndBuffer) (file_size : Z) (f : fs)
  : outcome (Z * PageFooter * IndexFooter * fs) :=
  w ← foldM (write_chunk file) compressed_results (mkWriting f phdr ihdr file_size []);
  let f := fwrite_ab index_file (concat (bytes_of <$> w_recs w)) (w_fs w) in
  Ok (w_offset w, w_phdr w, if_set_stat (pf_stat (w_phdr w)) (w_ihdr w), f).

End Write.
End PageInner.

Module Page.
Import PageInner.

Record t := mk {
  footer : PageFooter;
  filename : string;
  _index : PageIndex.t;
}.

(** ** Opening *)

Definition readFooter (file_name : string) (f : fs) : outcome PageFooter :=
  match fopen_rb file_name f with
  | None => Throw
  | Some bs =>
    let result := default PageFooter_zero (read_tail bs) in
    if negb (PageFooter_check result) then Throw else Ok result
  end.

Definition open_with (file_name : string) (phdr : PageFooter) (f : fs) : outcome t :=
  ix ← PageIndex.open (PageIndex.index_name_from_page_name file_name) f;
  Ok (mk phdr file_name ix).

Definition open (file_name : string) (f : fs) : outcome t :=
  phdr ← readFooter file_name f; open_with file_name phdr f.

(** ** Reading chunks *)

(** The page file opened for reading, with its position. *)
Definition page_io : Type := list Z * nat.

(** The offset is converted to [int]; [fseek] to a negative one fails and leaves
    the position. *)
Definition readChunkByOffset (io : page_io) (offset : Z) : outcome (Chunk.t * page_io) :=
  let '(bs, pos) := io in
  let off := swrap 32 offset in
  let pos := if 0 <=? off then Z.to_nat off else pos in
  match fread (A := ChunkHeader.t) 1 (drop pos bs) with
  | [] => Throw
  | cheader :: _ =>
    let pos := (pos + size_of ChunkHeader.t)%nat in
    let n := Z.to_nat (ChunkHeader.size cheader) in
    if (n =? 0)%nat || (length bs <? pos + n)%nat then Throw
    else Ok (Chunk.open cheader (take n (drop pos bs)), (bs, (pos + n)%nat))
  end.

(** [indexReccords[i]] *)
Definition record_at (recs : list IndexReccord) (i : nat) : outcome IndexReccord :=
  match recs !! i with Some r => Ok r | None => UB end.

Fixpoint apply_loop {X} (callback : X → Chunk.t → outcome (X * bool)) (recs : list IndexReccord)
    (links : list ChunkLink) (io : page_io) (x : X) : outcome X :=
  match links with
  | [] => Ok x
  | l :: links =>
    r ← record_at recs (cl_index_rec_number l);
    '(c, io) ← readChunkByOffset io (ir_offset r);
    '(x, stop) ← callback x c;
    if (stop : bool) then Ok x else apply_loop callback recs links io x
  end.

Definition apply_to_chunks {X} (links : list ChunkLink)
    (callback : X → Chunk.t → outcome (X * bool)) (x : X) (p : t) (f : fs) : outcome X :=
  match links with
  | [] => Ok x
  | _ =>
    match fopen_rb (filename p) f with
    | None => Throw
    | Some bs => recs ← PageIndex.readReccords (_index p) f; apply_loop callback recs links (bs, 0%nat) x
    end
  end.

Definition linksByIterval (qi : QueryInterval) (p : t) (f : fs) : outcome (list ChunkLink) :=
  PageIndex.get_chunks_links (qi_ids qi) (qi_from qi) (qi_to qi) (qi_flag qi) (_index p) f.

(** ** Queries *)

Section Queries.
Context `{StdSort} `{UnorderedMap}.

Definition push_reader (sub_result : gmap Z (list (cursor Chunk.cursor))) (c : Chunk.t)
  : outcome (gmap Z (list (cursor Chunk.cursor)) * bool) :=
  rdr ← Chunk.getReader c;
  let i := ChunkHeader.meas_id (Chunk.header c) in
  Ok (<[i := um_at [] i sub_result ++ [Leaf rdr]]> sub_result, false).

Definition intervalReader_links (links : list ChunkLink) (p : t) (f : fs)
  : outcome (gmap Z (cursor Chunk.cursor)) :=
  sub_result ← apply_to_chunks links push_reader ∅ p f;
  r ← colapseCursorsMap (um_list sub_result);
  Ok (list_to_map r).

Definition intervalReader (query : QueryInterval) (p : t) (f : fs)
  : outcome (gmap Z (cursor Chunk.cursor)) :=
  links ← linksByIterval query p f; intervalReader_links links p f.

(** [ChunkContainer::foreach] *)
Definition foreach {K} `{IReadCallback K} (query : QueryInterval) (clbk : K) (p : t) (f : fs) : outcome K :=
  readers ← intervalReader query p f; foreach_cursors query clbk readers.

(** The time of the new measurement is compared with the identifier that is the
    key of the entry. *)
Definition before_callback (q : QueryTimePoint) (x : gmap Z Meas * gset Z) (c : Chunk.t)
  : outcome (gmap Z Meas * gset Z * bool) :=
  let '(result, to_read) := x in
  reader ← Chunk.getReader c;
  '(m, _) ← read_time_point q (S (Z.to_nat (cursor_count reader))) reader;
  let '(result, to_read) :=
    match result !! id m with
    | None => (<[id m := m]> result, to_read ∖ {[id m]})
    | Some _ => if id m <? time m then (<[id m := m]> result, to_read) else (result, to_read)
    end in
  Ok (result, to_read, bool_decide (to_read = ∅)).

Definition valuesBeforeTimePoint (q : QueryTimePoint) (p : t) (f : fs) : outcome (gmap Z Meas) :=
  raw_links ← PageIndex.get_chunks_links (qt_ids q) (minTime (if_stat (PageIndex.iheader (_index p))))
                (qt_time_point q) (qt_flag q) (_index p) f;
  x ← apply_to_chunks raw_links (before_callback q) (∅, list_to_set (qt_ids q)) p f;
  Ok x.1.

Fixpoint stat_links (i from to : Z) (recs : list IndexReccord) (links : list ChunkLink)
    (io : page_io) (result : Statistic) : outcome Statistic :=
  match links with
  | [] => Ok result
  | l :: links =>
    if negb (cl_meas_id l =? i) then stat_links i from to recs links io result
    else
      r ← record_at recs (cl_index_rec_number l);
      if inInterval from to (minTime (ir_stat r)) && inInterval from to (maxTime (ir_stat r))
      then stat_links i from to recs links io (update_stat (ir_stat r) result)
      else
        '(c, io) ← readChunkByOffset io (ir_offset r);
        sub_result ← Chunk.stat from to c;
        stat_links i from to recs links io (update_stat sub_result result)
  end.

Definition stat (i from to : Z) (p : t) (f : fs) : outcome Statistic :=
  links ← PageIndex.get_chunks_links [i] from to 0 (_index p) f;
  match links with
  | [] => Ok Statistic_empty
  | _ =>
    match fopen_rb (filename p) f with
    | None => Throw
    | Some bs =>
      recs ← PageIndex.readReccords (_index p) f;
      stat_links i from to recs links (bs, 0%nat) Statistic_empty
    end
  end.
End Queries.

Definition minMaxTime (i : Z) (p : t) (f : fs) : outcome (bool * Z * Z) :=
  let st := pf_stat (footer p) in
  all_chunks ← linksByIterval (mkQueryInterval [i] 0 (minTime st) (maxTime st) 0) p f;
  recs ← PageIndex.readReccords (_index p) f;
  foldM (fun (x : bool * Z * Z) l =>
    let '(_, mn, mx) := x in
    r ← record_at recs (cl_index_rec_number l);
    Ok (true, Z.min mn (minTime (ir_stat r)), Z.max mx (maxTime (ir_stat r))))
    all_chunks (false, MAX_TIME, MIN_TIME).

Definition loadMinMax (p : t) (f : fs) : outcome Id2MinMax :=
  match fopen_rb (filename p) f with
  | None => Throw
  | Some bs =>
    recs ← PageIndex.readReccords (_index p) f;
    '(result, _) ← foldM (fun (x : Id2MinMax * page_io) i =>
      let '(result, io) := x in
      r ← record_at recs i;
      '(c, io) ← readChunkByOffset io (ir_offset r);
      let info := Chunk.header c in
      result ← StrippedMap.with_bucket MeasMinMax_default result (ChunkHeader.meas_id info)
        (fun d => Ok (updateMin (ChunkHeader.last info) (updateMax (ChunkHeader.first info) d)));
      Ok (result, io)) (seq 0 (Z.to_nat (pf_addeded_chunks (footer p)))) (StrippedMap.make 1000, (bs, 0%nat));
    Ok result
  end.

(** [NOT_IMPLEMENTED] *)
Definition appendChunks (a : list Chunk.t) (p : t) : outcome t := Throw.

(** ** Writing pages *)

Section Writing.
Context `{StdSort} `{UnorderedMap}.
Variable crc32 : list Z → Z.

Definition index_name (file_name : string) : string := PageIndex.index_name_from_page_name file_name.

(** The page file and the index file opened for appending. *)
Definition open_files (file_name : string) (f : fs) : outcome fs :=
  match fopen_ab file_name f with
  | None => Throw
  | Some f => match fopen_ab (index_name file_name) f with None => Throw | Some f => Ok f end
  end.

(** The footers, at the end of both files. *)
Definition write_footers (file_name : string) (phdr : PageFooter) (ihdr : IndexFooter) (f : fs) : fs :=
  let ihdr := if_set_level (pf_level phdr) ihdr in
  fwrite_ab (index_name file_name) (bytes_of ihdr) (fwrite_ab file_name (bytes_of phdr) f).

(** [create_write_logic], a task that writes ten chunks and runs again while some
    are left. *)
Fixpoint create_write_logic (fuel : nat) (compressed_results : list HdrAndBuffer)
    (file_name : string) (phdr : PageFooter) (ihdr : IndexFooter) (f : fs) : outcome (t * fs) :=
  match fuel with
  | O => Diverge
  | S fuel =>
    match compressed_results with
    | [] =>
      let f := write_footers file_name phdr ihdr f in
      p ← open_with file_name phdr f; Ok (p, f)
    | _ =>
      '(page_size, phdr, ihdr, f) ← writeToFile crc32 file_name (index_name file_name) phdr ihdr
        (take 10 compressed_results) (pf_filesize phdr) f;
      let phdr := pf_set_filesize page_size phdr in
      create_write_logic fuel (drop 10 compressed_results) file_name phdr ihdr f
    end
  end.

(** A page from measurements; the page is what the callback is called with. *)
Definition create (file_name : string) (lvl chunk_id max_chunk_size : Z) (to_compress : list Meas)
    (f : fs) : outcome (t * fs) :=
  '(compressed_results, phdr) ← compressValues to_compress (PageFooter_make lvl chunk_id) max_chunk_size;
  f ← open_files file_name f;
  create_write_logic (S (length compressed_results)) compressed_results file_name phdr
    IndexFooter_init f.

(** A page from the first [count] chunks of [a], whose headers are changed. *)
Record chunk_writing := mkChunkWriting {
  cw_fs : fs;
  cw_phdr : PageFooter;
  cw_ihdr : IndexFooter;
  cw_offset : Z;
  cw_recs : list IndexReccord;
}.

Definition create_chunk (file : string) (w : chunk_writing) (c : Chunk.t)
  : outcome (chunk_writing * Chunk.t) :=
  let h := Chunk.header c in
  let buffer := get_range (Chunk.bw c) in
  let phdr := pf_set_max_chunk_id (u64 (pf_max_chunk_id (cw_phdr w) + 1)) (cw_phdr w) in
  let phdr := pf_set_stat (update_stat (ChunkHeader.stat h) (pf_stat phdr)) phdr in
  let ihdr := if_set_stat (update_stat (ChunkHeader.stat h) (if_stat (cw_ihdr w))) (cw_ihdr w) in
  let h := ChunkHeader.set_id (pf_max_chunk_id phdr) h in
  let phdr := pf_set_addeded_chunks (u32 (pf_addeded_chunks phdr + 1)) phdr in
  let h := ChunkHeader.set_offset_in_page (cw_offset w) h in
  let '(skip_count, h) := Chunk.compact h in
  if Z.of_nat (length buffer) <? skip_count + ChunkHeader.size h then UB
  else
    let data := take (Z.to_nat (ChunkHeader.size h)) (drop (Z.to_nat skip_count) buffer) in
    let h := Chunk.updateChecksum crc32 h data in
    let f := fwrite_ab file (bytes_of h) (cw_fs w) in
    let f := fwrite_ab file data f in
    let offset := u64 (cw_offset w + Z.of_nat (size_of ChunkHeader.t) + ChunkHeader.size h) in
    let '(index_reccord, ihdr) := init_chunk_index_rec h ihdr in
    Ok (mkChunkWriting f phdr ihdr offset (cw_recs w ++ [index_reccord]), Chunk.set_header h c).

Definition create_chunks (file_name : string) (lvl chunk_id : Z) (a : list Chunk.t) (count : nat)
    (f : fs) : outcome (t * list Chunk.t * fs) :=
  f ← open_files file_name f;
  if (length a <? count)%nat then UB
  else
    '(w, a') ← foldM (fun (x : chunk_writing * list Chunk.t) c =>
      '(w, c) ← create_chunk file_name x.1 c; Ok (w, x.2 ++ [c])) (take count a)
      (mkChunkWriting f (PageFooter_make lvl chunk_id) IndexFooter_init 0 [], []);
    let phdr := pf_set_filesize (cw_offset w) (cw_phdr w) in
    let f := fwrite_ab file_name (bytes_of phdr) (cw_fs w) in
    let f := fwrite_ab (index_name file_name) (concat (bytes_of <$> cw_recs w)) f in
    let f := fwrite_ab (index_name file_name) (bytes_of (if_set_level (pf_level phdr) (cw_ihdr w))) f in
    p ← open_with file_name phdr f;
    Ok (p, a' ++ drop count a, f).

(** ** Checking and restoring *)

Definition checksum (p : t) (f : fs) : outcome bool :=
  match fopen_rb (filename p) f with
  | None => Throw
  | Some bs =>
    recs ← PageIndex.readReccords (_index p) f;
    '(result, _) ← foldM (fun (x : bool * page_io) r =>
      let '(result, io) := x in
      if negb result then Ok x
      else
        '(c, io) ← readChunkByOffset io (ir_offset r);
        Ok (Chunk.checkChecksum crc32 c, io)) recs (true, (bs, 0%nat));
    Ok result
  end.

(** The loop of [update_index_recs], [n] chunks from the position [pos]. *)
Fixpoint update_loop (n : nat) (bs : list Z) (pos : nat) (index_file : string) (ihdr : IndexFooter)
    (f : fs) : outcome (IndexFooter * fs) :=
  match n with
  | O => Ok (ihdr, f)
  | S n =>
    match fread (A := ChunkHeader.t) 1 (drop pos bs) with
    | [] => Throw
    | info :: _ =>
      let '(index_reccord, ihdr) := init_chunk_index_rec info ihdr in
      let f := fwrite_ab index_file (bytes_of index_reccord) f in
      update_loop n bs (pos + size_of ChunkHeader.t + Z.to_nat (ChunkHeader.size info)) index_file
        ihdr f
    end
  end.

Definition update_index_recs (file_name : string) (phdr : PageFooter) (f : fs) : outcome fs :=
  match fopen_ab (index_name file_name) f with
  | None => Throw
  | Some f =>
    match fopen_rb file_name f with
    | None => Throw
    | Some bs =>
      '(ihdr, f) ← update_loop (Z.to_nat (pf_addeded_chunks phdr)) bs 0 (index_name file_name)
        IndexFooter_init f;
      Ok (fwrite_ab (index_name file_name) (bytes_of (if_set_stat (pf_stat phdr) ihdr)) f)
    end
  end.

Definition restoreIndexFile (file_name : string) (f : fs) : outcome fs :=
  phdr ← readFooter file_name f;
  f ← update_index_recs file_name phdr f;
  _ ← PageIndex.open (index_name file_name) f;
  Ok f.

(** ** Repacking *)

(** The controller may change the sizes of the arrays; a filter that is too short
    is read past its end. *)
Definition applyFilter (inputValues : list Meas) (logic : CompactionController) : outcome (list Meas) :=
  let '(values, data_filter) := cc_compact logic inputValues (replicate (length inputValues) 1) in
  if negb (existsb (fun v => v =? 1) data_filter) then Ok []
  else if (length data_filter <? length values)%nat then UB
  else
    Ok (std_sort time
          (omap (fun p => if p.2 =? 1 then Some p.1 else None) (zip values data_filter))).

(** [writeChunkToResultPage], for the chunks of one page. *)
Definition copy_chunk (file_name : string) (x : PageFooter * IndexFooter * fs) (c : Chunk.t)
  : outcome (PageFooter * IndexFooter * fs * bool) :=
  let '(phdr, ihdr, f) := x in
  if negb (Chunk.checkChecksum crc32 c) then Throw
  else
    let phdr := pf_set_max_chunk_id (u64 (pf_max_chunk_id phdr + 1)) phdr in
    let hab := mkHab (ChunkHeader.set_id (pf_max_chunk_id phdr) (Chunk.header c))
                 (get_range (Chunk.bw c)) in
    '(page_size, phdr, ihdr, f) ← writeToFile crc32 file_name (index_name file_name) phdr ihdr [hab]
      (pf_filesize phdr) f;
    Ok (pf_set_filesize page_size phdr, ihdr, f, false).

Definition writeChunkToResultPage (file_name : string) (fname2links : gmap string (list ChunkLink))
    (openned_pages : gmap string t) (x : PageFooter * IndexFooter * fs)
  : outcome (PageFooter * IndexFooter * fs) :=
  foldM (fun x f2l =>
    match openned_pages !! f2l.1 with
    | None => UB
    | Some p => apply_to_chunks f2l.2 (copy_chunk file_name) x p x.2
    end) (um_list fname2links) x.

Definition add_fname_link (m : gmap string (list ChunkLink)) (l : ChunkLink) : gmap string (list ChunkLink) :=
  <[cl_page_name l := default [] (m !! cl_page_name l) ++ [l]]> m.

(** [links[k].push_back(l)] of a [std::map] *)
Definition links_push (m : list (Z * list ChunkLink)) (l : ChunkLink) : list (Z * list ChunkLink) :=
  let old := match base.filter (fun e => e.1 = cl_meas_id l) m with e :: _ => e.2 | [] => [] end in
  sm_assign (cl_meas_id l) (old ++ [l]) m.

Definition cl_set_page_name (n : string) (l : ChunkLink) : ChunkLink :=
  mkChunkLink (cl_id l) (cl_meas_id l) (cl_minTime l) (cl_maxTime l) n (cl_index_rec_number l).

Definition all_query : QueryInterval := mkQueryInterval [] 0 MIN_TIME MAX_TIME 0.

(** The links of all the pages, by identifier. *)
Definition collect_links (timepoint : Z) (logic : option CompactionController) (f : fs)
    (x : gmap string t * list (Z * list ChunkLink)) (path : string)
  : outcome (gmap string t * list (Z * list ChunkLink)) :=
  p ← open path f;
  let pages := match x.1 !! path with Some _ => x.1 | None => <[path := p]> x.1 end in
  clinks ← linksByIterval all_query p f;
  let too_old cl :=
    match logic with
    | Some lg => eraseOlderThan lg <=? u64 (timepoint - cl_maxTime cl)
    | None => false
    end in
  Ok (pages, fold_left (fun m cl => links_push m (cl_set_page_name path cl))
               (base.filter (fun cl => too_old cl = false) clinks) x.2).

(** The readers of one chunk, opened through its page. *)
Definition link_readers (openned_pages : gmap string t) (f : fs) (l : ChunkLink)
  : outcome (list (cursor Chunk.cursor)) :=
  match openned_pages !! cl_page_name l with
  | None => UB
  | Some p => rdr ← intervalReader_links [l] p f; Ok (snd <$> um_list rdr)
  end.

Definition read_values (ma : list Meas) (r : cursor Chunk.cursor) : outcome (list Meas) :=
  '(ma, _) ← apply (S (Z.to_nat (cursor_count r))) ma r; Ok ma.

(** Everything the chunks of one identifier hold, ordered, once per time. *)
Definition unpack (openned_pages : gmap string t) (link_vec : list ChunkLink) (f : fs)
  : outcome (list Meas) :=
  cursors ← foldM (fun cs l => rs ← link_readers openned_pages f l; Ok (cs ++ rs)) link_vec [];
  ma ← foldM read_values cursors [];
  Ok (uniq (std_sort time ma)).

Definition repack_series (file_name : string) (max_chunk_size : Z) (logic : option CompactionController)
    (openned_pages : gmap string t) (x : PageFooter * IndexFooter * fs)
    (kv : Z * list ChunkLink) : outcome (PageFooter * IndexFooter * fs) :=
  let link_vec := std_sort cl_id kv.2 in
  if match logic with None => negb (have_overlap link_vec) | Some _ => false end then
    writeChunkToResultPage file_name (fold_left add_fname_link link_vec ∅) openned_pages x
  else
    ma ← unpack openned_pages link_vec x.2;
    ma ← match logic with None => Ok ma | Some lg => applyFilter ma lg end;
    match ma with
    | [] => Ok x
    | _ =>
      let '(phdr, ihdr, f) := x in
      '(compressed_results, phdr) ← compressValues ma phdr max_chunk_size;
      '(page_size, phdr, ihdr, f) ← writeToFile crc32 file_name (index_name file_name) phdr ihdr
        compressed_results (pf_filesize phdr) f;
      Ok (pf_set_filesize page_size phdr, ihdr, f)
    end.

(** [now] is the current time. *)
Definition repackTo (file_name : string) (lvl chunk_id max_chunk_size : Z)
    (pages_full_paths : list string) (logic : option CompactionController) (now : Z) (f : fs)
  : outcome (option t * fs) :=
  '(openned_pages, links) ← foldM (collect_links now logic f) pages_full_paths (∅, []);
  let phdr := pf_set_max_chunk_id chunk_id (PageFooter_make lvl chunk_id) in
  f1 ← open_files file_name f;
  '(phdr, ihdr, f2) ← foldM (repack_series file_name max_chunk_size logic openned_pages) links
    (phdr, IndexFooter_init, f1);
  let f3 := write_footers file_name phdr ihdr f2 in
  if count (pf_stat phdr) =? 0 then Ok (None, rm (index_name file_name) (rm file_name f3))
  else p ← open_with file_name phdr f3; Ok (Some p, f3).

End Writing.
End Page.
