(* ===== verification/PageSpec.v ===== *)
(** * Pages: what they keep and what they answer

    The bytes of a page and of its index ([page_at]): chunks one after another,
    each with its header, and one index record per chunk.  Every query reads
    exactly the chunks its index selects from them, and for the page of one
    series ([page_series]) these hold the whole answer. *)

From Stdlib Require Import ZArith Lia String Sorting.Sorted.
From stdpp Require Import base numbers list gmap strings.
From S2P Require Import Prelude ByteBuffer Float64 Meas Bloom Stat Delta Xor Compression StdSort ICursor FullCursor Chunk KMerge Cursors Colapse.
From S2P Require Import StripedMap StdMap TimeTrack TimeTrackSpec Series Storages Files PageFormat PageIndex Page.

Local Open Scope Z_scope.

(** ** Ranges of the fields *)

Record header_wf (h : ChunkHeader.t) : Prop := {
  hw_id : 0 <= ChunkHeader.id h < 2 ^ 64;
  hw_meas_id : is_id (ChunkHeader.meas_id h);
  hw_first : meas_wf (ChunkHeader.first h);
  hw_last : meas_wf (ChunkHeader.last h);
  hw_bw_pos : 0 <= ChunkHeader.bw_pos h < 2 ^ 32;
  hw_size : 0 <= ChunkHeader.size h < 2 ^ 32;
  hw_crc : 0 <= ChunkHeader.crc h < 2 ^ 32;
  hw_offset : 0 <= ChunkHeader.offset_in_page h < 2 ^ 64;
  hw_stat : stat_wf (ChunkHeader.stat h);
  hw_sorted : 0 <= ChunkHeader.is_sorted h < 256;
}.

Ltac in_widths := repeat (apply Forall2_cons; split); try apply Forall2_nil_2; unfold in_width; cbn [Z.of_nat]; try lia.

Lemma header_in_range h : header_wf h → in_range h.
Proof.
  intros [H1 H2 (_ & F1 & F2 & F3) (_ & L1 & L2 & L3) H5 H6 H7 H8 H9 H10].
  unfold is_id, is_time, is_value, is_flag in *. cbn in F1, F2, F3, L1, L2, L3.
  unfold in_range. cbn [layout fields ChunkHeader_Packed].
  repeat (apply Forall2_app; [by in_widths|]). apply Forall2_app; [by apply stat_in_width|].
  by in_widths.
Qed.

Definition rec_of (h : ChunkHeader.t) : IndexReccord :=
  mkIndexReccord (ChunkHeader.meas_id h) (ChunkHeader.id h) (ChunkHeader.offset_in_page h)
    (ChunkHeader.stat h).

Lemma rec_in_range h : header_wf h → in_range (rec_of h).
Proof.
  intros [H1 H2 _ _ _ _ _ H8 H9 _]. unfold is_id in *. unfold in_range.
  cbn [layout fields IndexReccord_Packed rec_of ir_target_id ir_chunk_id ir_offset ir_stat].
  apply Forall2_app; [by in_widths|by apply stat_in_width].
Qed.

(** ** The files of a page *)

Definition entry : Type := ChunkHeader.t * list Z.
Definition entry_bytes (e : entry) : list Z := bytes_of e.1 ++ e.2.
Definition entry_size (e : entry) : nat := size_of ChunkHeader.t + length e.2.
Definition entries_bytes (es : list entry) : list Z := concat (entry_bytes <$> es).
Definition entry_chunk (e : entry) : Chunk.t := Chunk.open e.1 e.2.
Definition entry_rec (e : entry) : IndexReccord := rec_of e.1.
Definition index_bytes (es : list entry) : list Z := concat (bytes_of <$> (entry_rec <$> es)).

Record entry_ok (e : entry) : Prop := {
  eo_header : header_wf e.1;
  eo_size : ChunkHeader.size e.1 = Z.of_nat (length e.2);
  eo_data : (0 < length e.2)%nat;
}.

(** The headers say where the chunks are. *)
Fixpoint placed_at (off : nat) (es : list entry) : Prop :=
  match es with
  | [] => True
  | e :: es =>
    ChunkHeader.offset_in_page e.1 = Z.of_nat off ∧ entry_ok e ∧ placed_at (off + entry_size e) es
  end.

Lemma length_entry_bytes e : length (entry_bytes e) = entry_size e.
Proof. unfold entry_bytes, entry_size. by rewrite length_app, length_bytes_of. Qed.

Lemma entries_bytes_app es1 es2 : entries_bytes (es1 ++ es2) = entries_bytes es1 ++ entries_bytes es2.
Proof. unfold entries_bytes. by rewrite fmap_app, concat_app. Qed.
Lemma index_bytes_app es1 es2 : index_bytes (es1 ++ es2) = index_bytes es1 ++ index_bytes es2.
Proof. unfold index_bytes. by rewrite !fmap_app, concat_app. Qed.

#[export] Instance entries_length_proper : Proper (Permutation ==> eq) (fun es => length (entries_bytes es)).
Proof.
  intros es es' Hp. unfold entries_bytes. induction Hp as [|e es es' _ IH|e e' es|? ? ? _ IH1 _ IH2].
  - done.
  - rewrite !fmap_cons. cbn [concat]. rewrite !length_app. lia.
  - rewrite !fmap_cons. cbn [concat]. rewrite !length_app. lia.
  - by rewrite IH1.
Qed.

Lemma entries_count es : (length es <= length (entries_bytes es))%nat.
Proof.
  induction es as [|e es IH]; [done|].
  change (entries_bytes (e :: es)) with (entry_bytes e ++ entries_bytes es).
  rewrite length_app, length_entry_bytes. cbn [length].
  change (entry_size e) with (133 + length e.2)%nat. lia.
Qed.

Lemma placed_at_app off es1 es2 :
  placed_at off (es1 ++ es2) ↔ placed_at off es1 ∧ placed_at (off + length (entries_bytes es1)) es2.
Proof.
  revert off. induction es1 as [|e es1 IH]; intros off; cbn [placed_at app].
  - change (length (entries_bytes [])) with 0%nat. rewrite Nat.add_0_r. naive_solver.
  - rewrite IH. change (e :: es1) with ([e] ++ es1). rewrite entries_bytes_app, length_app.
    unfold entries_bytes at 2. cbn [fmap list_fmap concat]. rewrite app_nil_r, length_entry_bytes.
    rewrite Nat.add_assoc. naive_solver.
Qed.

Lemma placed_ok off es : placed_at off es → Forall entry_ok es.
Proof. revert off. induction es as [|e es IH]; intros off; [done|]. intros (_ & He & Hes). constructor; eauto. Qed.

(** [p] is open, and its files hold the chunks [es]. *)
Record page_at (f : fs) (p : Page.t) (es : list entry) : Prop := {
  pa_file : ∃ foot, fs_files f !! Page.filename p = Some (entries_bytes es ++ foot);
  pa_index : ∃ foot, fs_files f !! PageIndex.filename (Page._index p) = Some (index_bytes es ++ foot);
  pa_count : if_recs_count (PageIndex.iheader (Page._index p)) = Z.of_nat (length es);
  pa_placed : placed_at 0 es;
  pa_small : Z.of_nat (length (entries_bytes es)) < 2 ^ 31;
}.

(** The record of a chunk leads back to it. *)
Lemma read_entry es k e pos foot :
  placed_at 0 es → es !! k = Some e → Z.of_nat (length (entries_bytes es)) < 2 ^ 31 →
  ∃ pos', Page.readChunkByOffset (entries_bytes es ++ foot, pos) (ir_offset (rec_of e.1)) =
          Ok (entry_chunk e, (entries_bytes es ++ foot, pos')).
Proof.
  intros Hp Hk Hs. apply list_elem_of_split_length in Hk as (es1 & es2 & -> & _).
  apply placed_at_app in Hp as [_ Hp]. rewrite entries_bytes_app in *.
  change (entries_bytes (e :: es2)) with (entry_bytes e ++ entries_bytes es2) in *.
  rewrite !length_app in Hs. destruct Hp as (Hoff & [Hh Hsz Hd] & _). rewrite Nat.add_0_l in Hoff.
  unfold Page.readChunkByOffset. cbn [rec_of ir_offset]. rewrite Hoff, swrap_small by lia.
  rewrite (proj2 (Z.leb_le _ _)), Nat2Z.id by lia.
  rewrite <- app_assoc, drop_app_length. unfold entry_bytes at 1. rewrite <- !app_assoc.
  pose proof (fread_structs [e.1] (e.2 ++ entries_bytes es2 ++ foot)) as Hr.
  cbn [fmap list_fmap concat length] in Hr. rewrite app_nil_r in Hr.
  rewrite Hr by (constructor; [by apply header_in_range|constructor]).
  rewrite Hsz, Nat2Z.id. rewrite (proj2 (Nat.eqb_neq _ _)) by lia. cbn [orb].
  rewrite (proj2 (Nat.ltb_ge _ _)).
  2: { rewrite !length_app, length_entry_bytes. unfold entry_size. lia. }
  eexists. f_equal. f_equal. unfold entry_chunk. f_equal.
  unfold entry_bytes. rewrite <- app_assoc, app_assoc, drop_app_length'.
  2: { by rewrite length_app, length_bytes_of. }
  by rewrite take_app_length.
Qed.

(** ** What a query reads *)

Section Read.
Context (f : fs) (p : Page.t) (es : list entry) (Hpage : page_at f p es).

Lemma readReccords_ok : PageIndex.readReccords (Page._index p) f = Ok (entry_rec <$> es).
Proof.
  destruct Hpage as [_ [foot Hi] Hn Hp _]. unfold PageIndex.readReccords, fopen_rb. rewrite Hi, Hn, Nat2Z.id.
  pose proof (fread_structs (entry_rec <$> es) foot) as Hr. rewrite length_fmap in Hr.
  unfold index_bytes. rewrite Hr.
  - by rewrite length_fmap, Z.ltb_irrefl.
  - apply Forall_fmap. eapply Forall_impl; [by eapply placed_ok|]. intros e [He _ _]. by apply rec_in_range.
Qed.

(** The chunks whose index records the query selects. *)
Definition sel (ids : list Z) (from to fl : Z) : list entry :=
  base.filter (fun e : entry => PageIndex.selects ids from to fl (entry_rec e) = true) es.

Definition leads (l : ChunkLink) (e : entry) : Prop :=
  es !! cl_index_rec_number l = Some e ∧ cl_meas_id l = ChunkHeader.meas_id e.1.

Lemma links_ok ids from to fl :
  ∃ links, PageIndex.get_chunks_links ids from to fl (Page._index p) f = Ok links ∧
    Forall2 leads links (sel ids from to fl).
Proof.
  unfold PageIndex.get_chunks_links. rewrite readReccords_ok, bind_Ok.
  destruct Hpage as [_ _ Hn Hp Hs]. rewrite Hn, (proj2 (Z.leb_gt _ _)).
  2: { pose proof (entries_count es). lia. }
  eexists. split; [done|]. unfold sel, leads.
  enough (Hg : ∀ pre es', es = pre ++ es' → Forall2 (fun l e => es !! cl_index_rec_number l = Some e ∧ cl_meas_id l = ChunkHeader.meas_id e.1)
    (omap (fun q => if PageIndex.selects ids from to fl q.2 then Some (PageIndex.link q.1 q.2) else None)
       (imap (fun i r => (length pre + i, r)%nat) (entry_rec <$> es')))
    (base.filter (fun e : entry => PageIndex.selects ids from to fl (entry_rec e) = true) es'))
    by (apply (Hg []); done).
  intros pre es'. revert pre. induction es' as [|e es' IH]; intros pre E; [constructor|].
  specialize (IH (pre ++ [e]) ltac:(by rewrite <- app_assoc)).
  rewrite fmap_cons, imap_cons. cbn [omap list_omap]. rewrite filter_cons.
  replace (imap ((fun i r => (length pre + i, r)%nat) ∘ S) (entry_rec <$> es'))
    with (imap (fun i r => (length (pre ++ [e]) + i, r)%nat) (entry_rec <$> es')).
  2: { apply imap_ext. intros i r _. cbn. by rewrite length_app, <- Nat.add_assoc. }
  cbn [snd fst].
  destruct (PageIndex.selects ids from to fl (entry_rec e)); [|exact IH].
  rewrite decide_True by done. constructor; [|exact IH]. split; [|done]. cbn. rewrite E, Nat.add_0_r.
  by apply list_lookup_middle.
Qed.

(** What [apply_to_chunks] does with the chunks it reads. *)
Fixpoint fold_chunks {X} (cb : X → Chunk.t → outcome (X * bool)) (l : list entry) (x : X) : outcome X :=
  match l with
  | [] => Ok x
  | e :: l => '(x, stop) ← cb x (entry_chunk e); if (stop : bool) then Ok x else fold_chunks cb l x
  end.

Lemma apply_loop_ok {X} (cb : X → Chunk.t → outcome (X * bool)) foot links l pos x :
  Forall2 leads links l →
  Page.apply_loop cb (entry_rec <$> es) links (entries_bytes es ++ foot, pos) x = fold_chunks cb l x.
Proof.
  intros Hl. revert pos x. induction Hl as [|k e links l [Hk _] _ IH]; intros pos x; [done|].
  cbn [Page.apply_loop fold_chunks]. unfold Page.record_at. rewrite list_lookup_fmap, Hk. cbn [fmap option_fmap option_map].
  rewrite bind_Ok. change (entry_rec e) with (rec_of e.1).
  destruct (read_entry es _ e pos foot (pa_placed _ _ _ Hpage) Hk (pa_small _ _ _ Hpage)) as (pos' & ->).
  rewrite bind_Ok. destruct (cb x (entry_chunk e)) as [[x' []]| | |]; try done. cbn. apply IH.
Qed.

Lemma apply_to_chunks_ok {X} (cb : X → Chunk.t → outcome (X * bool)) links l x :
  Forall2 leads links l → Page.apply_to_chunks links cb x p f = fold_chunks cb l x.
Proof.
  intros Hl. unfold Page.apply_to_chunks, fopen_rb. destruct (pa_file _ _ _ Hpage) as [foot ->].
  rewrite readReccords_ok, bind_Ok. destruct Hl as [|k e links l Hk Hl]; [done|].
  by apply apply_loop_ok; constructor.
Qed.
End Read.

(** ** Pages of one series *)

(** The chunks of a page with what they hold: one ascending series. *)
Record page_series (f : fs) (p : Page.t) (i : Z) (els : list (entry * list Meas)) : Prop := {
  ps_page : ∃ es, es ≡ₚ els.*1 ∧ page_at f p es;
  ps_readable : Forall (fun el => readable (entry_chunk el.1) el.2) els;
  ps_ids : Forall (fun m => id m = i) (concat els.*2);
  ps_strict : strictly_by time (concat els.*2);
}.

(** A flag that is asked for is one of the measurements' own: the filters of the
    index know the flags, not their bits. *)
Definition flags_exact (q : QueryInterval) (l : list Meas) : Prop :=
  Forall (fun m => in_query q m → qi_flag q = 0 ∨ flag m = qi_flag q) l.

Lemma check_index_rec_meets st from to m i o c :
  minTime st <= time m <= maxTime st → from <= time m <= to →
  check_index_rec (mkIndexReccord i o c st) from to = true.
Proof.
  intros Hm Ht. unfold check_index_rec, inInterval. cbn [ir_stat].
  rewrite !orb_true_iff, !andb_true_iff, !Z.leb_le. lia.
Qed.

(** What the index does not select has no answer. *)
Lemma not_selected q e l :
  readable (entry_chunk e) l → flags_exact q l →
  PageIndex.selects (qi_ids q) (qi_from q) (qi_to q) (qi_flag q) (entry_rec e) = false →
  Forall (fun m => ¬ in_query q m) l.
Proof.
  intros Hr Hfl Hsel. destruct (readable_facts _ _ Hr) as (Est & _ & _ & _ & Hwf & _ & _).
  destruct Hr as (m0 & l' & -> & (Hh & _ & _ & Hids & _) & _ & _). change (Chunk.header (entry_chunk e)) with e.1 in *.
  assert (Hid : Forall (fun m => id m = ChunkHeader.meas_id e.1) (m0 :: l')).
  { pose proof (hh_first _ _ _ Hh) as Ef. apply (f_equal id) in Ef. cbn in Ef. rewrite Ef.
    constructor; [done|]. done. }
  pose proof (stat_of_bounds _ Hwf) as Hb. rewrite <- Est in Hb. unfold flags_exact in Hfl.
  rewrite Forall_forall in Hid, Hb, Hfl |- *. intros m Hm Hq. specialize (Hfl m Hm Hq).
  pose proof Hq as Hq'. unfold in_query, inQueryInterval, inQuery, inInterval in Hq'.
  rewrite !andb_true_iff, !Z.leb_le in Hq'. destruct Hq' as [[Hf Hi] Ht].
  unfold PageIndex.selects, entry_rec, rec_of in Hsel.
  rewrite (check_index_rec_meets _ _ _ m) in Hsel by (by apply Hb || lia). cbn [andb] in Hsel.
  unfold inIds in Hi. destruct (qi_ids q) as [|x xs]; [done|].
  apply existsb_exists in Hi as (k & Hk & Ek%Z.eqb_eq). subst k.
  assert (E : existsb (fun k => check_blooms (rec_of e.1) k (qi_flag q)) (x :: xs) = true)
    by (apply existsb_exists; exists (id m); split; [done|];
        unfold check_blooms; cbn [rec_of ir_target_id ir_stat]; rewrite (Hid m Hm), Z.eqb_refl;
        destruct Hfl as [->|<-]; [done|]; rewrite Est; cbn [andb];
        destruct (update_all_fields (m0 :: l') Statistic_empty) as (_ & _ & _ & Eb & _);
        unfold stat_of; rewrite Eb; apply orb_true_iff; right;
        by apply bloom_of_check, list_elem_of_fmap_2).
  unfold rec_of in E. rewrite E in Hsel. done.
Qed.

Section Answer.
Context `{StdSort} `{UnorderedMap}.

Lemma readable_id e l i : readable (entry_chunk e) l → Forall (fun m => id m = i) l →
  ChunkHeader.meas_id e.1 = i.
Proof.
  intros (m0 & l' & -> & (Hh & _) & _ & _) [Hi _]%Forall_cons_1.
  pose proof (hh_first _ _ _ Hh) as Ef. apply (f_equal id) in Ef. cbn in Ef. congruence.
Qed.

Lemma push_readers_ok i (els : list (entry * list Meas)) acc :
  Forall (fun el => readable (entry_chunk el.1) el.2) els →
  Forall (fun m => id m = i) (concat els.*2) →
  ∃ rs, Forall2 exact rs els.*2 ∧
    fold_chunks Page.push_reader els.*1 acc =
    Ok match rs with [] => acc | _ => <[i := um_at [] i acc ++ (Leaf <$> rs)]> acc end.
Proof.
  intros Hr. revert acc. induction Hr as [|[e l] els Hel _ IH]; intros acc Hi.
  { exists []. split; [constructor|done]. }
  cbn [fst snd] in Hel. rewrite !fmap_cons in *. cbn [concat fst snd] in *.
  apply Forall_app in Hi as [Hi1 Hi]. destruct (readable_reader _ _ Hel) as (r & E & Hrep & Hmn & Hmx & Hc).
  assert (Ep : Page.push_reader acc (entry_chunk e) = Ok (<[i := um_at [] i acc ++ [Leaf r]]> acc, false)).
  { unfold Page.push_reader. rewrite E, bind_Ok. change (Chunk.header (entry_chunk e)) with e.1.
    by rewrite (readable_id e l i). }
  cbn [fold_chunks]. rewrite Ep, bind_Ok.
  destruct (IH (<[i := um_at [] i acc ++ [Leaf r]]> acc) Hi) as (rs & Hrs & ->).
  exists (r :: rs). split; [by constructor|]. f_equal. rewrite fmap_cons.
  destruct rs as [|r2 rs]; [done|]. unfold um_at at 1. rewrite lookup_insert_eq. cbn [default].
  rewrite insert_insert_eq. cbn [Datatypes.id]. by rewrite <- app_assoc.
Qed.

Lemma um_empty {V} : um_list (∅ : gmap Z V) = [].
Proof. apply Permutation_nil_r. by rewrite um_perm, map_to_list_empty. Qed.

Lemma um_singleton {V} (i : Z) (v : V) : um_list {[i := v]} = [(i, v)].
Proof. apply Permutation_singleton_r. by rewrite um_perm, map_to_list_singleton. Qed.

Lemma readable_times els : Forall (fun el : entry * list Meas => readable (entry_chunk el.1) el.2) els →
  Forall (fun m => MIN_TIME <= time m <= MAX_TIME) (concat els.*2) ∧ Forall (fun l => l ≠ []) els.*2.
Proof.
  induction 1 as [|el els Hel _ [IH1 IH2]]; [by split|].
  apply readable_facts in Hel as (_ & _ & _ & _ & Hwf & _ & Hn). rewrite fmap_cons. split; [|by constructor].
  cbn [concat]. apply Forall_app. split; [|done]. eapply Forall_impl; [exact Hwf|].
  intros m (_ & Ht & _). unfold is_time, MIN_TIME, MAX_TIME in *. lia.
Qed.

(** The cursor over the chunks of a query, in the order [els'] of the page. *)
Lemma readers_colapse i (els' els : list (entry * list Meas)) :
  els' ≡ₚ els → Forall (fun el => readable (entry_chunk el.1) el.2) els →
  Forall (fun m => id m = i) (concat els.*2) → strictly_by time (concat els.*2) →
  Z.of_nat (length (concat els.*2)) < 2 ^ 64 →
  ∃ r, (sub_result ← fold_chunks Page.push_reader els'.*1 ∅;
        r ← colapseCursorsMap (um_list sub_result);
        Ok (list_to_map r : gmap Z (cursor Chunk.cursor))) = Ok r ∧
    match els with
    | [] => r = ∅
    | _ => ∃ c, r = {[i := c]} ∧ flat c (concat els.*2)
    end.
Proof.
  intros Hp Hr Hi Hs Hl.
  assert (Hr' : Forall (fun el => readable (entry_chunk el.1) el.2) els') by by rewrite Hp.
  assert (Hi' : Forall (fun m => id m = i) (concat els'.*2)).
  { apply Forall_concat. apply Forall_concat in Hi. rewrite Hp. done. }
  destruct (push_readers_ok i els' ∅ Hr' Hi') as (rs & Hrs & ->). rewrite bind_Ok.
  destruct rs as [|r0 rs].
  { apply Forall2_nil_inv_l, fmap_nil_inv in Hrs. rewrite Hrs in Hp. apply Permutation_nil_l in Hp. subst.
    exists ∅. split; [|done]. by rewrite um_empty. }
  destruct els as [|el els]; [apply Permutation_nil_r in Hp; subst; by apply Forall2_nil_inv_r in Hrs|].
  unfold um_at. rewrite lookup_empty. cbn [default app]. rewrite insert_empty, um_singleton.
  destruct (readable_times _ Hr) as [Ht Hn]. destruct (readable_times _ Hr') as [_ Hn'].
  destruct (colapse_flat (Leaf <$> r0 :: rs) els'.*2 (el :: els).*2) as (c & Ec & Hc); try done.
  { by apply leaves_flat. }
  { by rewrite Hp. }
  destruct (colapse_map_ok [(i, Leaf <$> r0 :: rs)] (fun _ c => flat c (concat (el :: els).*2))) as (r & -> & Hf & Hrr).
  { intros kv ->%list_elem_of_singleton. exists c. split; [|done]. cbn [fst snd]. by destruct rs. }
  rewrite bind_Ok. destruct r as [|[i' c'] [|]]; try done. injection Hf as ->.
  eexists. split; [done|]. exists c'. split; [done|]. apply (Hrr (i, c')). by left.
Qed.

Definition picked (q : QueryInterval) (els : list (entry * list Meas)) : list (entry * list Meas) :=
  base.filter (fun el => PageIndex.selects (qi_ids q) (qi_from q) (qi_to q) (qi_flag q) (entry_rec el.1) = true) els.

Lemma sel_picked q els :
  sel els.*1 (qi_ids q) (qi_from q) (qi_to q) (qi_flag q) = (picked q els).*1.
Proof.
  unfold sel, picked. induction els as [|el els IH]; [done|].
  rewrite fmap_cons, !filter_cons.
  case_decide; [|done]. by rewrite fmap_cons, IH.
Qed.

Lemma concat_sub {A} (P : A * list Meas → Prop) `{!∀ x, Decision (P x)} (els : list (A * list Meas)) :
  concat (base.filter P els).*2 `sublist_of` concat els.*2.
Proof.
  induction els as [|el els IH]; [done|]. rewrite filter_cons. case_decide; cbn [concat fmap list_fmap].
  - by apply sublist_app.
  - by apply sublist_inserts_l.
Qed.

Lemma picked_answers q els :
  Forall (fun el => readable (entry_chunk el.1) el.2) els → flags_exact q (concat els.*2) →
  base.filter (in_query q) (concat (picked q els).*2) = base.filter (in_query q) (concat els.*2).
Proof.
  unfold picked. induction 1 as [|el els Hel _ IH]; intros Hfl; [done|].
  rewrite fmap_cons in Hfl. cbn [concat] in Hfl. apply Forall_app in Hfl as [Hf1 Hfl].
  rewrite filter_cons, fmap_cons. cbn [concat]. rewrite filter_app. case_decide as Hd.
  - rewrite fmap_cons. cbn [concat]. by rewrite filter_app, IH.
  - rewrite IH by done. apply not_true_is_false in Hd.
    pose proof (not_selected q _ _ Hel Hf1 Hd) as Hno. assert (base.filter (in_query q) el.2 = []) as ->; [|done].
    clear -Hno. induction Hno as [|m l Hm _ IH]; [done|]. by rewrite filter_cons_False.
Qed.

Lemma picked_strict q els : strictly_by time (concat els.*2) → strictly_by time (concat (picked q els).*2).
Proof. intros Hs. eapply strict_sublist; [|exact Hs]. apply concat_sub. Qed.

Lemma page_lengths f p i els : page_series f p i els → Z.of_nat (length (concat els.*2)) < 2 ^ 64.
Proof.
  intros [(es & Hp & [_ _ _ _ Hs]) Hr _ _].
  assert (El : length (entries_bytes es) = length (entries_bytes els.*1)).
  { exact (entries_length_proper _ _ Hp). }
  rewrite El in Hs. clear El.
  enough (Z.of_nat (length (concat els.*2)) <= 2 ^ 32 * Z.of_nat (length (entries_bytes els.*1))) by lia.
  clear Hs Hp. induction Hr as [|[e l] els Hel _ IH]; [done|].
  rewrite !fmap_cons. cbn [concat fst snd]. change (entries_bytes (e :: els.*1)) with (entry_bytes e ++ entries_bytes els.*1).
  rewrite !length_app, length_entry_bytes. change (entry_size e) with (133 + length e.2)%nat.
  cbn [fst snd] in Hel. destruct Hel as (m0 & l' & -> & (_ & _ & _ & _ & _ & Hn) & _ & _). cbn [length]. lia.
Qed.

(** The answer depends only on the chunks. *)
Lemma intervalReader_chunks f p es q :
  page_at f p es →
  Page.intervalReader q p f =
  (sub_result ← fold_chunks Page.push_reader (sel es (qi_ids q) (qi_from q) (qi_to q) (qi_flag q)) ∅;
   r ← colapseCursorsMap (um_list sub_result);
   Ok (list_to_map r)).
Proof.
  intros Hp. unfold Page.intervalReader, Page.linksByIterval.
  destruct (links_ok f p es Hp (qi_ids q) (qi_from q) (qi_to q) (qi_flag q)) as (links & -> & Hl).
  rewrite bind_Ok. unfold Page.intervalReader_links. by rewrite (apply_to_chunks_ok f p es Hp _ _ _ _ Hl).
Qed.

(** The answer of a page to an interval query. *)
Lemma page_intervalReader f p i els q :
  page_series f p i els →
  ∃ r, Page.intervalReader q p f = Ok r ∧
    match picked q els with
    | [] => r = ∅
    | _ => ∃ c, r = {[i := c]} ∧ flat c (concat (picked q els).*2)
    end.
Proof.
  intros Hp. pose proof (page_lengths _ _ _ _ Hp) as Hlen. destruct Hp as [(es & Hperm & Hp) Hr Hi Hs].
  apply Permutation_map_inv in Hperm as (els' & -> & Hperm). change (map fst els') with els'.*1 in *.
  rewrite (intervalReader_chunks f p els'.*1 q Hp), sel_picked.
  pose proof (concat_sub (fun el => PageIndex.selects (qi_ids q) (qi_from q) (qi_to q) (qi_flag q)
    (entry_rec el.1) = true) els) as Hsub. fold (picked q els) in Hsub.
  apply readers_colapse.
  - unfold picked. by rewrite Hperm.
  - unfold picked. rewrite Forall_forall in *. intros el [_ Hel]%list_elem_of_filter. by apply Hr.
  - by eapply Forall_sublist_of.
  - by eapply strict_sublist.
  - apply sublist_length in Hsub. lia.
Qed.

Lemma page_foreach f p i els q (l0 : list Meas) :
  page_series f p i els → flags_exact q (concat els.*2) →
  Page.foreach q l0 p f = Ok (l0 ++ base.filter (in_query q) (concat els.*2)).
Proof.
  intros Hp Hfl. destruct (page_intervalReader f p i els q Hp) as (r & E & Hr).
  unfold Page.foreach. rewrite E, bind_Ok. rewrite <- (picked_answers q els) by (done || apply Hp).
  unfold foreach_cursors. destruct (picked q els) as [|el els'] eqn:Ep.
  - rewrite Hr, um_empty. cbn. by rewrite app_nil_r.
  - destruct Hr as (c & -> & Hc). rewrite um_singleton. cbn [foldM fst snd].
    apply flat_rep in Hc; [|rewrite <- Ep; by eapply picked_strict, Hp].
    destruct (apply_query_all q l0 c _ Hc) as (c' & ->). rewrite !bind_Ok. by rewrite feed_collect.
Qed.
End Answer.
