(* ===== verification/PageWrite.v ===== *)
(** * Pages: how they are written

    Every way to write a page, from measurements or from chunks, leads to files
    that hold exactly what was given ([created]), with matching footers,
    checksums and index; an index that was lost is restored from the page. *)

From Stdlib Require Import ZArith Lia String Sorting.Sorted.
From stdpp Require Import base numbers list gmap strings.
From S2P Require Import Prelude ByteBuffer Float64 Meas Bloom Stat Delta Xor Compression StdSort ICursor FullCursor Chunk KMerge Cursors Colapse.
From S2P Require Import StripedMap StdMap TimeTrack TimeTrackSpec Series Storages Files PageFormat PageIndex Page PageSpec.

Local Open Scope Z_scope.

(** ** Cutting a series into chunks *)

(** The measurements a chunk takes after [m0 :: l], and the others. *)
Fixpoint cut (size : nat) (m0 : Meas) (l rest : list Meas) : list Meas * list Meas :=
  match rest with
  | [] => (l, [])
  | m :: rest' =>
    if decide (Z.of_nat (length (written_bytes m0 (l ++ [m]))) <= Z.of_nat size - 1)
    then cut size m0 (l ++ [m]) rest'
    else (l, rest)
  end.

Fixpoint cuts_loop (fuel : nat) (size : nat) (ma : list Meas) : list (list Meas) :=
  match fuel, ma with
  | S fuel, m0 :: rest =>
    let '(l, rest) := cut size m0 [] rest in (m0 :: l) :: cuts_loop fuel size rest
  | _, _ => []
  end.

(** Each chunk takes as much as its size allows. *)
Definition cuts (size : nat) (ma : list Meas) : list (list Meas) := cuts_loop (length ma) size ma.

Lemma cut_app size m0 l rest : let '(l', rest') := cut size m0 l rest in l' ++ rest' = l ++ rest.
Proof.
  revert l. induction rest as [|m rest IH]; intros l; cbn [cut]; [done|].
  case_decide; [|done]. specialize (IH (l ++ [m])). by rewrite <- app_assoc in IH.
Qed.

Lemma cut_length size m0 l rest : (length (cut size m0 l rest).2 <= length rest)%nat.
Proof.
  revert l. induction rest as [|m rest IH]; intros l; cbn [cut]; [done|].
  case_decide; [|done]. specialize (IH (l ++ [m])). cbn [length]. lia.
Qed.

Lemma cuts_loop_concat fuel size ma : (length ma <= fuel)%nat → concat (cuts_loop fuel size ma) = ma.
Proof.
  revert ma. induction fuel as [|fuel IH]; intros [|m ma] Hf; cbn [length cuts_loop concat] in *; try done; [lia|].
  pose proof (cut_app size m [] ma) as Ha. pose proof (cut_length size m [] ma) as Hl.
  destruct (cut size m [] ma) as [l rest]. cbn [snd concat app] in *. rewrite IH by lia. by rewrite Ha.
Qed.

Lemma cuts_concat size ma : concat (cuts size ma) = ma.
Proof. by apply cuts_loop_concat. Qed.

(** What the writer of chunks needs: measurements of one series whose values
    follow each other in a way that can be stored. *)
Record compressible (i : Z) (ma : list Meas) : Prop := {
  cm_wf : Forall meas_wf ma;
  cm_ids : Forall (fun m => id m = i) ma;
  cm_values : ∀ m l, ma = m :: l → values_fit (value m) l = true;
  cm_length : Z.of_nat (length ma) + 2 < 2 ^ 32;
}.

Lemma values_fit_tail pv l m l' : values_fit pv (l ++ m :: l') = true → values_fit (value m) l' = true.
Proof. rewrite values_fit_app. intros [_ Hv]%andb_true_iff. cbn in Hv. by apply andb_true_iff in Hv as [_ ?]. Qed.

Lemma compressible_tail i l rest : compressible i (l ++ rest) → compressible i rest.
Proof.
  intros [H1 H2 H3 H4]. apply Forall_app in H1 as [_ H1]. apply Forall_app in H2 as [_ H2].
  rewrite length_app in H4. split; [done|done| |lia]. intros m l' ->.
  destruct l as [|m0 l]; [by apply H3|]. specialize (H3 m0 _ eq_refl). by eapply values_fit_tail.
Qed.

Section Fill.
Context (size : nat) (Hsize : (0 < size)%nat ∧ Z.of_nat size < 2 ^ 32).

Lemma fill_chunk_ok c m0 l rest i :
  open_chunk size c m0 l → Chunk.isFull c = false → compressible i (m0 :: l ++ rest) →
  let '(l', rest') := cut size m0 l rest in
  ∃ c', PageInner.fill_chunk c rest = Ok (c', rest') ∧ sealed size c' m0 l'.
Proof.
  revert c l. induction rest as [|m rest IH]; intros c l Hc Hf Hm; cbn [cut].
  { exists c. split; [done|]. by apply open_chunk_sealed. }
  pose proof Hm as [H1 H2 H3 H4].
  assert (Hmw : meas_wf m ∧ id m = id m0).
  { rewrite Forall_cons, Forall_app, Forall_cons in H1. rewrite Forall_cons, Forall_app, Forall_cons in H2.
    destruct H1 as (_ & _ & ? & _), H2 as (? & _ & ? & _). split; [done|congruence]. }
  destruct Hmw as [Hmw Hid]. cbn [length] in H4. rewrite length_app in H4. cbn [length] in H4.
  assert (Hfit : fits_u64 (Z.lxor (pv_after (value m0) l) (value m)) = true).
  { specialize (H3 m0 _ eq_refl). rewrite values_fit_app in H3. apply andb_true_iff in H3 as [_ H3].
    cbn in H3. by apply andb_true_iff in H3 as [? _]. }
  pose proof (chunk_append_cases size c m0 l m Hc Hf Hmw Hid ltac:(lia) Hfit) as Hcase.
  cbn [PageInner.fill_chunk]. case_decide as Hd.
  - destruct Hcase as (c' & -> & Hc' & Hf'). rewrite bind_Ok. cbn [negb].
    apply IH; [done|done|]. by rewrite <- app_assoc.
  - destruct Hcase as (c' & -> & Hc' & _). rewrite bind_Ok. by exists c'.
Qed.

Lemma cut_sealed m0 rest i :
  compressible i (m0 :: rest) →
  let '(l, rest') := cut size m0 [] rest in
  ∃ c c', Chunk.create ChunkHeader.zero size m0 = Ok c ∧ PageInner.fill_chunk c rest = Ok (c', rest') ∧
    sealed size c' m0 l.
Proof.
  intros Hm. destruct Hsize as [H0 H1]. pose proof (cm_wf _ _ Hm) as [Hm0 _]%Forall_cons_1.
  destruct (chunk_create ChunkHeader.zero size m0 H0 H1 Hm0) as (c & E & Hc).
  pose proof (fill_chunk_ok c m0 [] rest i Hc (create_not_full _ _ _ _ E) Hm) as Hf.
  destruct (cut size m0 [] rest) as [l rest']. destruct Hf as (c' & E' & Hs). by exists c, c'.
Qed.
End Fill.

(** ** Compressed chunks *)

(** A compressed chunk that holds [part]. *)
Definition hab_sealed (size : nat) (hb : PageInner.HdrAndBuffer) (part : list Meas) : Prop :=
  ∃ c m0 l, part = m0 :: l ∧ sealed size c m0 l ∧ 0 <= ChunkHeader.id (Chunk.header c) < 2 ^ 64 ∧
    hb = PageInner.mkHab (Chunk.header c) (get_range (Chunk.bw c)).

(** The statistic of a footer after the chunks [parts]. *)
Definition summed (st : Statistic) (parts : list (list Meas)) : Statistic :=
  fold_left (fun st part => update_stat (stat_of part) st) parts st.

Lemma sealed_set_id size c m0 l k :
  sealed size c m0 l → sealed size (Chunk.set_header (ChunkHeader.set_id k (Chunk.header c)) c) m0 l.
Proof. intros [(Hh & ? & ?) ? ? ? ? ?]. split; try done. split; [|done]. destruct Hh. by split. Qed.

Definition phdr_after (parts : list (list Meas)) (phdr : PageFooter) : PageFooter :=
  pf_set_stat (summed (pf_stat phdr) parts)
    (pf_set_max_chunk_id (pf_max_chunk_id phdr + Z.of_nat (length parts)) phdr).

Lemma compress_loop_ok size i fuel ma results phdr :
  (0 < size)%nat ∧ Z.of_nat size < 2 ^ 32 → (length ma <= fuel)%nat → compressible i ma →
  0 <= pf_max_chunk_id phdr → pf_max_chunk_id phdr + Z.of_nat (length ma) < 2 ^ 64 →
  ∃ hbs, PageInner.compress_loop fuel (Z.of_nat size) ma results phdr =
    Ok (results ++ hbs, phdr_after (cuts_loop fuel size ma) phdr) ∧
    Forall2 (hab_sealed size) hbs (cuts_loop fuel size ma).
Proof.
  intros Hsize. revert ma results phdr. induction fuel as [|fuel IH]; intros [|m ma] results phdr Hf Hm H0 Hid;
    cbn [length] in Hf; try lia.
  1, 2: exists []; rewrite app_nil_r; split; [|constructor]; cbn; unfold phdr_after; cbn;
    rewrite Z.add_0_r; by destruct phdr.
  cbn [PageInner.compress_loop cuts_loop]. rewrite Nat2Z.id.
  pose proof (cut_sealed size Hsize m ma i Hm) as Hcut. pose proof (cut_length size m [] ma) as Hlen.
  pose proof (cut_app size m [] ma) as Happ. destruct (cut size m [] ma) as [l rest]. cbn [snd] in Hlen.
  destruct Hcut as (c & c' & -> & E & Hs). rewrite bind_Ok, E, bind_Ok. cbn zeta. clear c E. cbn [length] in Hid.
  cbn [pf_max_chunk_id pf_set_max_chunk_id]. rewrite (wrap_small 64 (pf_max_chunk_id phdr + 1)) by lia.
  set (k := pf_max_chunk_id phdr + 1). set (c := Chunk.set_header (ChunkHeader.set_id k (Chunk.header c')) c').
  set (phdr1 := pf_set_stat _ _).
  destruct (IH rest (results ++ [PageInner.mkHab (Chunk.header c) (get_range (Chunk.bw c))]) phdr1)
    as (hbs & E & Hh); [lia| |cbn; lia|cbn; lia|].
  { apply (compressible_tail i (m :: l)). by rewrite <- app_comm_cons, Happ. }
  exists (PageInner.mkHab (Chunk.header c) (get_range (Chunk.bw c)) :: hbs). split.
  - etransitivity; [exact E|]. rewrite <- app_assoc. do 2 f_equal. unfold phdr_after.
    cbn [length]. cbn [pf_set_stat pf_set_max_chunk_id pf_stat pf_max_chunk_id summed fold_left phdr1].
    change (ChunkHeader.stat (ChunkHeader.set_id k (Chunk.header c'))) with (ChunkHeader.stat (Chunk.header c')).
    rewrite (hh_stat _ _ _ (proj1 (se_holds _ _ _ _ Hs))). unfold pf_set_stat, pf_set_max_chunk_id. cbn.
    f_equal. lia.
  - constructor; [|done]. exists c, m, l. split; [done|]. split; [by apply sealed_set_id|]. split; [cbn; lia|done].
Qed.

(** ** Writing chunks *)

Lemma fwrite_ab_twice n a b f : fwrite_ab n b (fwrite_ab n a f) = fwrite_ab n (a ++ b) f.
Proof.
  unfold fwrite_ab at 2 3. destruct (fs_files f !! n) as [old|] eqn:E.
  - unfold fwrite_ab. cbn [fs_files fs_dirs fs_writable]. rewrite lookup_insert_eq.
    by rewrite insert_insert_eq, <- app_assoc.
  - unfold fwrite_ab. by rewrite E.
Qed.

Lemma compact_fields h0 :
  let '(k, h) := Chunk.compact h0 in
  ChunkHeader.bw_pos h = 0 ∧ ChunkHeader.id h = ChunkHeader.id h0 ∧
  ChunkHeader.meas_id h = ChunkHeader.meas_id h0 ∧ ChunkHeader.stat h = ChunkHeader.stat h0.
Proof. unfold Chunk.compact. by destruct (Z.eqb_spec (ChunkHeader.bw_pos h0) 0). Qed.

Lemma header_holds_wf h m0 l :
  header_holds h m0 l → seq_wf m0 l → 0 <= ChunkHeader.id h < 2 ^ 64 → ChunkHeader.bw_pos h = 0 →
  0 <= ChunkHeader.size h < 2 ^ 32 → 0 <= ChunkHeader.crc h < 2 ^ 32 →
  0 <= ChunkHeader.offset_in_page h < 2 ^ 64 → header_wf h.
Proof.
  intros [Hf Hl Hst Hso] (Hwf & _) Hi Hb Hsz Hc Ho.
  pose proof Hwf as [Hm0 _]%Forall_cons_1.
  assert (Hid : ChunkHeader.meas_id h = id m0) by (apply (f_equal id) in Hf; exact Hf).
  assert (Hid' : is_id (ChunkHeader.meas_id h)) by (rewrite Hid; apply Hm0).
  split; try done; [by rewrite Hf| |lia| |].
  - destruct (last (m0 :: l)) as [y|] eqn:Ey; [|done]. injection Hl as Hl.
    apply last_Some_elem_of in Ey. rewrite Forall_forall in Hwf. destruct (Hwf y Ey) as (_ & ? & ? & ?).
    unfold ChunkHeader.last. rewrite Hl. by split_and!.
  - rewrite Hst. by apply stat_of_wf.
  - destruct Hso as [[-> _]|[-> _]]; lia.
Qed.

(** The chunk in a page holds [part]. *)
Definition entry_holds (e : entry) (part : list Meas) : Prop :=
  ∃ m0 l, part = m0 :: l ∧ holds (entry_chunk e) m0 l.

Section Write.
Context (crc32 : list Z → Z) (crc_range : ∀ bs, 0 <= crc32 bs < 2 ^ 32).

(** The entry of the page that a compressed chunk becomes. *)
Record entry_of (size : nat) (off : Z) (hb : PageInner.HdrAndBuffer) (part : list Meas) (e : entry)
  : Prop := {
  en_ok : entry_ok e;
  en_offset : ChunkHeader.offset_in_page e.1 = off;
  en_holds : entry_holds e part;
  en_crc : ChunkHeader.crc e.1 = crc32 e.2;
  en_size : (length e.2 <= size)%nat;
  en_id : ChunkHeader.id e.1 = ChunkHeader.id (PageInner.hdr hb);
}.

Lemma compacted_entry size off hb part :
  hab_sealed size hb part → 0 <= off < 2 ^ 64 →
  let '(k, h) := Chunk.compact (PageInner.hdr hb) in
  let data := drop (Z.to_nat k) (PageInner.buffer hb) in
  let h' := Chunk.updateChecksum crc32 (ChunkHeader.set_offset_in_page off h) data in
  Z.of_nat (length (PageInner.buffer hb)) = k + ChunkHeader.size h ∧
  take (Z.to_nat (ChunkHeader.size h)) data = data ∧ entry_of size off hb part (h', data).
Proof.
  intros (c & m0 & l & -> & Hs & Hi & ->) Ho. cbn [PageInner.hdr PageInner.buffer].
  pose proof (chunk_compact size c m0 l Hs) as Hc. pose proof (compact_fields (Chunk.header c)) as Hf.
  destruct (Chunk.compact (Chunk.header c)) as [k h]. destruct Hc as (Hk & Hsz & Hh), Hf as (Hb & Hid & _ & _).
  set (data := drop (Z.to_nat k) (get_range (Chunk.bw c))) in *.
  pose proof Hh as (Hhd & (Hd & _) & Hseq).
  assert (Hrange : get_range (Chunk.bw (Chunk.open h data)) = data).
  { cbn [Chunk.bw Chunk.open Chunk.c_writer CopmressedWriter.init CopmressedWriter._bb get_range set_pos make_buffer reset_pos _data].
    by rewrite Hsz, Nat2Z.id, take_ge. }
  rewrite Hrange in Hd.
  assert (Hlen : (length data + Z.to_nat k = size)%nat).
  { unfold data in *. rewrite length_drop, (se_length _ _ _ _ Hs) in *. lia. }
  assert (Htake : take (Z.to_nat (ChunkHeader.size h)) data = data) by (rewrite Hsz, Nat2Z.id; by apply take_ge).
  assert (Hcrc : Chunk.updateChecksum crc32 (ChunkHeader.set_offset_in_page off h) data =
    ChunkHeader.set_crc (crc32 data) (ChunkHeader.set_offset_in_page off h)).
  { unfold Chunk.updateChecksum, Chunk.calcChecksum. cbn [ChunkHeader.size ChunkHeader.set_offset_in_page].
    by rewrite Htake. }
  split; [rewrite (se_length _ _ _ _ Hs); lia|]. split; [done|]. rewrite Hcrc.
  assert (Hhd' : header_holds (ChunkHeader.set_crc (crc32 data) (ChunkHeader.set_offset_in_page off h)) m0 l)
    by (destruct Hhd; by split).
  destruct (se_bound _ _ _ _ Hs) as [_ Hb32].
  split; cbn [fst snd]; [|done| |done|lia|done].
  - split; cbn [fst snd]; [|done|lia].
    apply (header_holds_wf _ m0 l); try done; cbn [ChunkHeader.id ChunkHeader.size ChunkHeader.set_crc ChunkHeader.set_offset_in_page ChunkHeader.crc].
    + by rewrite Hid.
    + rewrite Hsz. lia.
    + apply crc_range.
  - exists m0, l. split; [done|]. split; [done|]. destruct Hh as (_ & Hr & _). by split.
Qed.

(** Entries with what they hold, written one after another from [off] on. *)
Record entries_of (size : nat) (off : nat) (i : Z) (parts : list (list Meas)) (es : list entry) : Prop := {
  es_placed : placed_at off es;
  es_holds : Forall2 entry_holds es parts;
  es_crc : Forall (fun e => ChunkHeader.crc e.1 = crc32 e.2) es;
  es_sizes : Forall (fun e => length e.2 <= size)%nat es;
  es_ids : Forall (fun e => ChunkHeader.meas_id e.1 = i) es;
}.

Lemma fwrite_ab_nil n f : fwrite_ab n [] f = f.
Proof.
  unfold fwrite_ab. destruct (fs_files f !! n) as [old|] eqn:E; [|done].
  rewrite app_nil_r, insert_id by done. by destruct f.
Qed.

Definition phdr_written (parts : list (list Meas)) (phdr : PageFooter) : PageFooter :=
  pf_set_stat (summed (pf_stat phdr) parts)
    (pf_set_addeded_chunks (pf_addeded_chunks phdr + Z.of_nat (length parts)) phdr).
Definition ihdr_written (i : Z) (parts : list (list Meas)) (ihdr : IndexFooter) : IndexFooter :=
  match parts with
  | [] => ihdr
  | _ => if_set_target i (if_recs_count ihdr + Z.of_nat (length parts)) ihdr
  end.

Lemma entry_holds_id e part i : entry_holds e part → Forall (fun m => id m = i) part →
  ChunkHeader.meas_id e.1 = i.
Proof.
  intros (m0 & l & -> & (Hh & _)) [Hi _]%Forall_cons_1.
  pose proof (hh_first _ _ _ Hh) as Ef. apply (f_equal id) in Ef. cbn in Ef. congruence.
Qed.

Lemma write_chunk_ok size i file w hb part :
  hab_sealed size hb part → Forall (fun m => id m = i) part →
  0 <= PageInner.w_offset w → PageInner.w_offset w + 133 + Z.of_nat size < 2 ^ 64 →
  0 <= pf_addeded_chunks (PageInner.w_phdr w) < 2 ^ 32 - 1 →
  0 <= if_recs_count (PageInner.w_ihdr w) < 2 ^ 64 - 1 →
  ∃ e, entry_of size (PageInner.w_offset w) hb part e ∧
    PageInner.write_chunk crc32 file w hb =
    Ok (PageInner.mkWriting (fwrite_ab file (entry_bytes e) (PageInner.w_fs w))
          (phdr_written [part] (PageInner.w_phdr w)) (ihdr_written i [part] (PageInner.w_ihdr w))
          (PageInner.w_offset w + Z.of_nat (entry_size e)) (PageInner.w_recs w ++ [entry_rec e])).
Proof.
  intros Hs Hi Ho1 Ho2 Ha Hr. unfold PageInner.write_chunk.
  pose proof (compacted_entry size (PageInner.w_offset w) hb part Hs ltac:(lia)) as Hc.
  pose proof (compact_fields (PageInner.hdr hb)) as Hcf.
  assert (Hst : ChunkHeader.stat (PageInner.hdr hb) = stat_of part).
  { destruct Hs as (c & m0 & l & -> & Hs & _ & ->). apply (hh_stat _ _ _ (proj1 (se_holds _ _ _ _ Hs))). }
  destruct (Chunk.compact (PageInner.hdr hb)) as [k h]. destruct Hc as (Hlen & Htake & He).
  set (data := drop (Z.to_nat k) (PageInner.buffer hb)) in *.
  set (h' := Chunk.updateChecksum crc32 (ChunkHeader.set_offset_in_page (PageInner.w_offset w) h) data) in *.
  exists (h', data). split; [done|].
  change (ChunkHeader.size (ChunkHeader.set_offset_in_page (PageInner.w_offset w) h)) with (ChunkHeader.size h).
  rewrite (proj2 (Z.ltb_ge _ _)) by lia. cbn zeta. rewrite Htake. fold h'.
  change (ChunkHeader.size h') with (ChunkHeader.size h).
  pose proof (eo_size _ (en_ok _ _ _ _ _ He)) as Hsz. cbn [fst snd] in Hsz. change (ChunkHeader.size h') with (ChunkHeader.size h) in Hsz.
  pose proof (en_size _ _ _ _ _ He) as Hle. cbn [snd] in Hle.
  assert (Hmi : ChunkHeader.meas_id h' = i) by (eapply (entry_holds_id (h', data)); [apply He|done]).
  unfold PageInner.init_chunk_index_rec. rewrite fwrite_ab_twice, Hmi. f_equal.
  change (Z.of_nat (size_of ChunkHeader.t)) with 133. rewrite (wrap_small 64 (_ + 133 + _)) by lia.
  rewrite (wrap_small 64) by lia. rewrite (wrap_small 32) by lia. rewrite Hst.
  f_equal.
  - unfold entry_size. cbn [snd]. rewrite Nat2Z.inj_add. change (Z.of_nat (size_of ChunkHeader.t)) with 133. lia.
  - unfold entry_rec, rec_of. cbn [fst]. by rewrite Hmi.
Qed.

Lemma write_chunks_ok size i file hbs parts w :
  Forall2 (hab_sealed size) hbs parts → Forall (Forall (fun m => id m = i)) parts →
  0 <= PageInner.w_offset w →
  PageInner.w_offset w + Z.of_nat (length parts) * (133 + Z.of_nat size) < 2 ^ 64 →
  0 <= pf_addeded_chunks (PageInner.w_phdr w) →
  pf_addeded_chunks (PageInner.w_phdr w) + Z.of_nat (length parts) < 2 ^ 32 →
  0 <= if_recs_count (PageInner.w_ihdr w) →
  if_recs_count (PageInner.w_ihdr w) + Z.of_nat (length parts) < 2 ^ 64 →
  ∃ es, entries_of size (Z.to_nat (PageInner.w_offset w)) i parts es ∧
    foldM (PageInner.write_chunk crc32 file) hbs w =
    Ok (PageInner.mkWriting (fwrite_ab file (entries_bytes es) (PageInner.w_fs w))
          (phdr_written parts (PageInner.w_phdr w)) (ihdr_written i parts (PageInner.w_ihdr w))
          (PageInner.w_offset w + Z.of_nat (length (entries_bytes es)))
          (PageInner.w_recs w ++ (entry_rec <$> es))).
Proof.
  intros Hs. revert w. induction Hs as [|hb part hbs parts Hs Hss IH]; intros w Hi Ho1 Ho2 Ha1 Ha2 Hr1 Hr2.
  { exists []. split; [by repeat split|]. cbn [foldM]. f_equal.
    change (entries_bytes []) with (@nil Z). rewrite fwrite_ab_nil, fmap_nil, app_nil_r, Z.add_0_r.
    destruct w as [? [] ? ? ?]. cbn. unfold phdr_written, pf_set_stat, pf_set_addeded_chunks. cbn. by rewrite Z.add_0_r. }
  apply Forall_cons_1 in Hi as [Hi1 Hi]. cbn [length] in *.
  rewrite Nat2Z.inj_succ, Z.mul_succ_l in Ho2.
  assert (0 <= Z.of_nat (length parts) * (133 + Z.of_nat size)) by (apply Z.mul_nonneg_nonneg; lia).
  destruct (write_chunk_ok size i file w hb part Hs Hi1) as (e & He & E); [lia..|].
  cbn [foldM]. rewrite E, bind_Ok.
  assert (Hsz : Z.of_nat (entry_size e) <= 133 + Z.of_nat size).
  { unfold entry_size. change (size_of ChunkHeader.t) with 133%nat. pose proof (en_size _ _ _ _ _ He). lia. }
  destruct (IH (PageInner.mkWriting (fwrite_ab file (entry_bytes e) (PageInner.w_fs w))
          (phdr_written [part] (PageInner.w_phdr w)) (ihdr_written i [part] (PageInner.w_ihdr w))
          (PageInner.w_offset w + Z.of_nat (entry_size e)) (PageInner.w_recs w ++ [entry_rec e])))
    as (es & Hes & ->); [done|cbn [PageInner.w_offset PageInner.w_phdr PageInner.w_ihdr];
      change (pf_addeded_chunks (phdr_written [part] ?p)) with (pf_addeded_chunks p + 1);
      change (if_recs_count (ihdr_written i [part] ?p)) with (if_recs_count p + 1); lia..|].
  exists (e :: es). destruct Hes as [P1 P2 P3 P4 P5], He as [E1 E2 E3 E4 E5 E6]. split.
  - split; [|by constructor..|].
    + cbn [placed_at]. split; [by rewrite E2, Z2Nat.id|]. split; [done|].
      cbn [PageInner.w_offset] in P1. by rewrite Z2Nat.inj_add, Nat2Z.id in P1 by lia.
    + constructor; [by eapply entry_holds_id|done].
  - change (entries_bytes (e :: es)) with (entry_bytes e ++ entries_bytes es).
    cbn [PageInner.w_fs PageInner.w_phdr PageInner.w_ihdr PageInner.w_offset PageInner.w_recs].
    rewrite fwrite_ab_twice, length_app, length_entry_bytes, <- app_assoc. f_equal.
    f_equal; [|by destruct parts; cbn; [|unfold if_set_target; cbn; f_equal; lia]|lia].
    unfold phdr_written, pf_set_stat, pf_set_addeded_chunks. cbn. f_equal. lia.
Qed.

(** ** Footers *)

Record phdr_wf (p : PageFooter) : Prop := {
  pw_magic : pf_magic_dariadb p = MAGIC_NUMBER_DARIADB;
  pw_parent : pf_parent_offset p = 0;
  pw_end : pf_ftr_end p = MAGIC_NUMBER_PAGEFTR;
  pw_stat : stat_wf (pf_stat p);
  pw_max_chunk_id : 0 <= pf_max_chunk_id p < 2 ^ 64;
  pw_level : 0 <= pf_level p < 2 ^ 16;
}.

Record ihdr_wf (h : IndexFooter) : Prop := {
  iw_magic : if_magic_number h = MAGIC_NUMBER_DARIADB;
  iw_sorted : if_is_sorted h = 0;
  iw_parent : if_parent_offset h = 0;
  iw_end : if_ftr_end h = MAGIC_NUMBER_INDEXFTR;
  iw_target : is_id (if_target_id h);
  iw_stat : stat_wf (if_stat h);
  iw_level : 0 <= if_level h < 2 ^ 16;
}.

Lemma phdr_in_range p :
  phdr_wf p → 0 <= pf_addeded_chunks p < 2 ^ 32 → 0 <= pf_filesize p < 2 ^ 64 → in_range p.
Proof.
  intros [E1 E2 E3 H4 H5 H6] Ha Hf. unfold in_range. cbn [layout fields PageFooter_Packed].
  rewrite E1, E2, E3. unfold MAGIC_NUMBER_DARIADB, MAGIC_NUMBER_PAGEFTR.
  apply Forall2_app; [by in_widths|]. apply Forall2_app; [by apply stat_in_width|by in_widths].
Qed.

Lemma ihdr_in_range h : ihdr_wf h → 0 <= if_recs_count h < 2 ^ 64 → in_range h.
Proof.
  intros [E1 E2 E3 E4 H5 H6 H7] Hr. unfold in_range, is_id in *. cbn [layout fields IndexFooter_Packed].
  rewrite E1, E2, E3, E4. unfold MAGIC_NUMBER_DARIADB, MAGIC_NUMBER_INDEXFTR.
  apply Forall2_app; [by in_widths|]. apply Forall2_app; [by apply stat_in_width|by in_widths].
Qed.

Lemma phdr_check p : phdr_wf p → PageFooter_check p = true.
Proof. intros [E1 E2 E3 _ _ _]. unfold PageFooter_check. by rewrite E1, E2, E3. Qed.
Lemma ihdr_check h : ihdr_wf h → IndexFooter_check h = true.
Proof. intros [E1 _ E2 E3 _ _ _]. unfold IndexFooter_check. by rewrite E1, E2, E3. Qed.

Lemma summed_wf st parts : stat_wf st → Forall (Forall meas_wf) parts → stat_wf (summed st parts).
Proof.
  intros Hst Hp. revert st Hst. induction Hp as [|part parts Hpart _ IH]; intros st Hst; [done|].
  cbn. apply IH, update_stat_wf; [by apply stat_of_wf|done].
Qed.

(** ** Pages being written *)

Abbreviation index_name := Page.index_name.

Lemma index_name_neq n : index_name n ≠ n.
Proof.
  unfold index_name, PageIndex.index_name_from_page_name. induction n as [|c n IH]; [done|].
  change (String c n +:+ "i") with (String c (n +:+ "i")). intros E. injection E as E. by apply IH.
Qed.

(** Only the files of the page [n] have changed. *)
Record fs_frame (n : string) (f f' : fs) : Prop := {
  ff_files : ∀ q, q ≠ n → q ≠ index_name n → fs_files f' !! q = fs_files f !! q;
  ff_dirs : fs_dirs f' = fs_dirs f;
  ff_writable : fs_writable f' = fs_writable f;
}.

#[export] Instance fs_frame_preorder n : PreOrder (fs_frame n).
Proof.
  split; [by split|]. intros f1 f2 f3 [A1 A2 A3] [B1 B2 B3].
  split; [|congruence..]. intros q Hq Hq'. by rewrite B1, A1.
Qed.

Lemma fwrite_frame n q bs f : q = n ∨ q = index_name n → fs_frame n f (fwrite_ab q bs f).
Proof.
  intros Hq. unfold fwrite_ab. destruct (fs_files f !! q); [|reflexivity].
  split; [|done..]. intros r H1 H2. cbn. rewrite lookup_insert_ne; [done|]. naive_solver.
Qed.

Lemma fwrite_lookup n bs old f : fs_files f !! n = Some old → fs_files (fwrite_ab n bs f) !! n = Some (old ++ bs).
Proof. intros E. unfold fwrite_ab. rewrite E. cbn. apply lookup_insert_eq. Qed.
Lemma fwrite_lookup_ne n q bs f : q ≠ n → fs_files (fwrite_ab n bs f) !! q = fs_files f !! q.
Proof.
  intros Hq. unfold fwrite_ab. destruct (fs_files f !! n); [|done]. cbn. by apply lookup_insert_ne.
Qed.

(** The files of the page [n] without their footers, and the footers so far. *)
Record written (size : nat) (i : Z) (n : string) (f : fs) (parts : list (list Meas)) (es : list entry)
    (phdr : PageFooter) (ihdr : IndexFooter) : Prop := {
  wr_file : fs_files f !! n = Some (entries_bytes es);
  wr_index : fs_files f !! index_name n = Some (index_bytes es);
  wr_entries : entries_of size 0 i parts es;
  wr_filesize : pf_filesize phdr = Z.of_nat (length (entries_bytes es));
  wr_added : pf_addeded_chunks phdr = Z.of_nat (length parts);
  wr_recs : if_recs_count ihdr = Z.of_nat (length parts);
  wr_phdr : phdr_wf phdr;
  wr_ihdr : ihdr_wf ihdr;
}.

Lemma entries_of_app size i parts1 parts2 es1 es2 :
  entries_of size 0 i parts1 es1 → entries_of size (length (entries_bytes es1)) i parts2 es2 →
  entries_of size 0 i (parts1 ++ parts2) (es1 ++ es2).
Proof.
  intros [A1 A2 A3 A4 A5] [B1 B2 B3 B4 B5]. split; [|by apply Forall2_app|by apply Forall_app..].
  by apply placed_at_app.
Qed.

Lemma writeToFile_ok size i n f parts es phdr ihdr hbs parts' :
  written size i n f parts es phdr ihdr → is_id i →
  Forall2 (hab_sealed size) hbs parts' → Forall (Forall (fun m => id m = i)) parts' →
  Forall (Forall meas_wf) parts' → parts' ≠ [] →
  Z.of_nat (length (parts ++ parts')) < 2 ^ 32 →
  pf_filesize phdr + Z.of_nat (length parts') * (133 + Z.of_nat size) < 2 ^ 64 →
  ∃ es' page_size ihdr' f', let phdr' := pf_set_filesize page_size (phdr_written parts' phdr) in
    PageInner.writeToFile crc32 n (index_name n) phdr ihdr hbs (pf_filesize phdr) f =
      Ok (page_size, phdr_written parts' phdr, ihdr', f') ∧
    written size i n f' (parts ++ parts') (es ++ es') phdr' ihdr' ∧
    if_target_id ihdr' = i ∧ if_stat ihdr' = pf_stat phdr' ∧ fs_frame n f f'.
Proof.
  intros [W1 W2 W3 W4 W5 W6 W7 W8] Hi Hs Hids Hwf Hne Hn Hsz. rewrite length_app in Hn.
  unfold PageInner.writeToFile.
  destruct (write_chunks_ok size i n hbs parts' (PageInner.mkWriting f phdr ihdr (pf_filesize phdr) []))
    as (es' & Hes & ->); try done; cbn [PageInner.w_offset PageInner.w_phdr PageInner.w_ihdr]; [lia..|].
  cbn [PageInner.w_fs PageInner.w_phdr PageInner.w_ihdr PageInner.w_offset PageInner.w_recs app] in *.
  rewrite bind_Ok. cbn [PageInner.w_fs PageInner.w_phdr PageInner.w_ihdr PageInner.w_offset PageInner.w_recs].
  eexists es', _, _, _. cbn zeta. split; [done|]. rewrite W4 in Hes. rewrite Nat2Z.id in Hes.
  assert (Hst : stat_wf (summed (pf_stat phdr) parts')) by (apply summed_wf; [apply W7|done]).
  assert (Hti : if_target_id (ihdr_written i parts' ihdr) = i) by (by destruct parts').
  assert (Hrc : if_recs_count (ihdr_written i parts' ihdr) = if_recs_count ihdr + Z.of_nat (length parts'))
    by (by destruct parts').
  split; [split|split_and!; [done|done|]].
  - rewrite fwrite_lookup_ne by (by apply not_eq_sym, index_name_neq).
    rewrite (fwrite_lookup _ _ _ _ W1). by rewrite entries_bytes_app.
  - erewrite fwrite_lookup by (rewrite fwrite_lookup_ne by apply index_name_neq; exact W2).
    by rewrite index_bytes_app.
  - by apply entries_of_app.
  - cbn. rewrite W4, entries_bytes_app, length_app. lia.
  - cbn. rewrite W5, length_app. lia.
  - rewrite length_app. cbn. rewrite Hrc, W6. lia.
  - destruct W7. by split.
  - destruct W8. destruct parts'; [done|]. by split.
  - etransitivity; [apply fwrite_frame; by left|apply fwrite_frame; by right].
Qed.

(** The page with its footers, open. *)
Lemma finish_page size i n f parts es phdr ihdr :
  written size i n f parts es phdr ihdr → Z.of_nat (length parts) < 2 ^ 32 → 
  Z.of_nat (length (entries_bytes es)) < 2 ^ 31 →
  let f' := Page.write_footers n phdr ihdr f in
  let p := Page.mk phdr n (PageIndex.mk (index_name n) (if_set_level (pf_level phdr) ihdr)) in
  Page.open_with n phdr f' = Ok p ∧ Page.open n f' = Ok p ∧ page_at f' p es ∧ fs_frame n f f'.
Proof.
  intros [W1 W2 W3 W4 W5 W6 W7 W8] Hn Hs. cbn zeta. unfold Page.write_footers.
  set (ih := if_set_level (pf_level phdr) ihdr).
  assert (Hih : ihdr_wf ih) by (destruct W8; split; try done; apply W7).
  assert (Ef : fs_files (fwrite_ab (index_name n) (bytes_of ih) (fwrite_ab n (bytes_of phdr) f)) !! n =
               Some (entries_bytes es ++ bytes_of phdr)).
  { rewrite fwrite_lookup_ne by (by apply not_eq_sym, index_name_neq). by rewrite (fwrite_lookup _ _ _ _ W1). }
  assert (Ei : fs_files (fwrite_ab (index_name n) (bytes_of ih) (fwrite_ab n (bytes_of phdr) f)) !! index_name n =
               Some (index_bytes es ++ bytes_of ih)).
  { erewrite fwrite_lookup by (rewrite fwrite_lookup_ne by apply index_name_neq; exact W2). done. }
  set (f' := fwrite_ab _ _ _) in *.
  assert (Eo : Page.open_with n phdr f' = Ok (Page.mk phdr n (PageIndex.mk (index_name n) ih))).
  { unfold Page.open_with, PageIndex.open, PageIndex.readIndexFooter, fopen_rb.
    change (PageIndex.index_name_from_page_name n) with (index_name n). rewrite Ei, read_tail_bytes.
    - cbn [default]. change (Datatypes.id ih) with ih. by rewrite ihdr_check.
    - apply ihdr_in_range; [done|]. change (if_recs_count ih) with (if_recs_count ihdr). lia. }
  split; [done|]. split; [|split].
  - unfold Page.open, Page.readFooter, fopen_rb. rewrite Ef, read_tail_bytes.
    + cbn [default]. change (Datatypes.id phdr) with phdr. by rewrite phdr_check.
    + apply phdr_in_range; [done|lia..].
  - split; cbn [Page.filename Page._index PageIndex.filename PageIndex.iheader]; [by eexists..| |apply W3|done].
    change (if_recs_count ih) with (if_recs_count ihdr). rewrite W6. by rewrite (Forall2_length _ _ _ (es_holds _ _ _ _ _ W3)).
  - etransitivity; [apply fwrite_frame; by left|apply fwrite_frame; by right].
Qed.

Lemma entries_length size off i parts es :
  entries_of size off i parts es →
  Z.of_nat (length (entries_bytes es)) <= Z.of_nat (length parts) * (133 + Z.of_nat size).
Proof.
  intros [_ Hh _ Hs _]. rewrite <- (Forall2_length _ _ _ Hh). clear Hh.
  induction Hs as [|e es He _ IH]; [done|].
  change (entries_bytes (e :: es)) with (entry_bytes e ++ entries_bytes es).
  rewrite length_app, length_entry_bytes. cbn [length]. rewrite Nat2Z.inj_succ, Z.mul_succ_l.
  change (entry_size e) with (133 + length e.2)%nat. lia.
Qed.

(** A page that was written with the chunks [parts] of the series [i]. *)
Record created (size : nat) (i : Z) (n : string) (parts : list (list Meas)) (st : Statistic)
    (max_id level : Z) (f : fs) (p : Page.t) (f' : fs) (es : list entry) : Prop := {
  cr_page : page_at f' p es;
  cr_entries : entries_of size 0 i parts es;
  cr_open : Page.open n f' = Ok p;
  cr_frame : fs_frame n f f';
  cr_name : Page.filename p = n;
  cr_added : pf_addeded_chunks (Page.footer p) = Z.of_nat (length es);
  cr_stat : pf_stat (Page.footer p) = st;
  cr_max_id : pf_max_chunk_id (Page.footer p) = max_id;
  cr_level : pf_level (Page.footer p) = level;
  cr_index : PageIndex.iheader (Page._index p) =
    mkIndexFooter MAGIC_NUMBER_DARIADB 0 i st (Z.of_nat (length es)) level 0 MAGIC_NUMBER_INDEXFTR;
  cr_phdr : phdr_wf (Page.footer p);
}.

Lemma write_batches_ok size i fuel n f parts es phdr ihdr hbs parts' :
  written size i n f parts es phdr ihdr → is_id i → (length hbs < fuel)%nat →
  Forall2 (hab_sealed size) hbs parts' → Forall (Forall (fun m => id m = i)) parts' →
  Forall (Forall meas_wf) parts' →
  Z.of_nat (length (parts ++ parts')) * (133 + Z.of_nat size) < 2 ^ 31 →
  (hbs = [] → if_target_id ihdr = i ∧ if_stat ihdr = pf_stat phdr) →
  ∃ p f' es', Page.create_write_logic crc32 fuel hbs n phdr ihdr f = Ok (p, f') ∧
    created size i n (parts ++ parts') (summed (pf_stat phdr) parts') (pf_max_chunk_id phdr) (pf_level phdr)
      f p f' (es ++ es').
Proof.
  revert f parts es phdr ihdr hbs parts'. induction fuel as [|fuel IH];
    intros f parts es phdr ihdr hbs parts' W Hi Hf Hs Hids Hwf Hsz Hih; [lia|].
  assert (Hlen : Z.of_nat (length (parts ++ parts')) < 2 ^ 31) by nia.
  cbn [Page.create_write_logic]. destruct Hs as [|hb part hbs parts' Hs Hss].
  { rewrite app_nil_r in *. destruct (Hih eq_refl) as [Et Es].
    pose proof (entries_length _ _ _ _ _ (wr_entries _ _ _ _ _ _ _ _ W)) as Hel.
    destruct (finish_page size i n f parts es phdr ihdr W) as (E1 & E2 & E3 & E4); [lia..|].
    rewrite E1, bind_Ok. eexists _, _, []. split; [done|]. rewrite app_nil_r.
    pose proof (Forall2_length _ _ _ (es_holds _ _ _ _ _ (wr_entries _ _ _ _ _ _ _ _ W))) as El.
    destruct W as [W1 W2 W3 W4 W5 W6 W7 [I1 I2 I3 I4 I5 I6 I7]]. split; try done; cbn.
    - by rewrite W5, El.
    - unfold if_set_level. rewrite I1, I2, I3, I4, Et, Es, W6. by rewrite El. }
  cbv beta iota. set (all := hb :: hbs) in *. set (allp := part :: parts') in *.
  assert (Hall : Forall2 (hab_sealed size) all allp) by (by constructor).
  destruct (writeToFile_ok size i n f parts es phdr ihdr (take 10 all) (take 10 allp) W Hi)
    as (es1 & sz & ihdr' & f1 & E & W1 & Et & Es & Hfr).
  - by apply Forall2_take.
  - by apply Forall_take.
  - by apply Forall_take.
  - done.
  - rewrite length_app, length_take in *. lia.
  - rewrite (wr_filesize _ _ _ _ _ _ _ _ W).
    pose proof (entries_length _ _ _ _ _ (wr_entries _ _ _ _ _ _ _ _ W)).
    rewrite length_app in Hsz. rewrite length_take. nia.
  - cbn zeta in *. rewrite E, bind_Ok. cbn zeta.
    destruct (IH f1 (parts ++ take 10 allp) (es ++ es1) (pf_set_filesize sz (phdr_written (take 10 allp) phdr))
      ihdr' (drop 10 all) (drop 10 allp) W1 Hi) as (p & f' & es' & E' & Hc).
    + rewrite length_drop. unfold all in *. cbn [length] in *. lia.
    + by apply Forall2_drop.
    + by apply Forall_drop.
    + by apply Forall_drop.
    + by rewrite <- app_assoc, take_drop.
    + done.
    + exists p, f', (es1 ++ es'). split; [exact E'|].
      rewrite <- (app_assoc parts), take_drop, <- app_assoc in Hc.
      destruct Hc as [C1 C2 C3 C4 C5 C6 C7 C8 C9 C10 C11].
      assert (Hsum : summed (pf_stat (pf_set_filesize sz (phdr_written (take 10 allp) phdr))) (drop 10 allp) =
                     summed (pf_stat phdr) allp).
      { cbn [pf_stat pf_set_filesize phdr_written pf_set_stat]. unfold summed.
        by rewrite <- fold_left_app, take_drop. }
      rewrite Hsum in *. split; try done. by etransitivity.
Qed.

(** ** Pages from measurements *)

(** Neither file of the page [n] exists, and both can be made. *)
Record fresh_page (n : string) (f : fs) : Prop := {
  fp_file : fs_files f !! n = None;
  fp_index : fs_files f !! index_name n = None;
  fp_writable : fs_writable f n = true;
  fp_index_writable : fs_writable f (index_name n) = true;
}.

Lemma open_files_ok size i n f phdr ihdr :
  fresh_page n f → phdr_wf phdr → ihdr_wf ihdr → pf_filesize phdr = 0 → pf_addeded_chunks phdr = 0 →
  if_recs_count ihdr = 0 →
  ∃ f', Page.open_files n f = Ok f' ∧ written size i n f' [] [] phdr ihdr ∧ fs_frame n f f'.
Proof.
  intros [F1 F2 F3 F4] Hp Hi E1 E2 E3. unfold Page.open_files, fopen_ab. rewrite F3.
  cbn [fs_writable fs_files fs_dirs]. rewrite F4, F1, lookup_insert_ne, F2 by (by apply not_eq_sym, index_name_neq).
  eexists. split; [done|]. split.
  - split; try done; cbn [fs_files].
    + by rewrite lookup_insert_ne, lookup_insert_eq by apply index_name_neq.
    + by rewrite lookup_insert_eq.
  - split; [|done..]. intros q H1 H2. cbn. by rewrite !lookup_insert_ne by congruence.
Qed.

Lemma PageFooter_make_wf lvl cid : 0 <= lvl < 2 ^ 16 → phdr_wf (PageFooter_make lvl cid).
Proof. intros H. by split. Qed.
Lemma IndexFooter_init_wf : ihdr_wf IndexFooter_init.
Proof. by split. Qed.

Lemma page_create_ok size i n lvl cid ma f :
  (0 < size)%nat ∧ Z.of_nat size < 2 ^ 32 → 0 <= lvl < 2 ^ 16 → fresh_page n f →
  is_id i → compressible i ma → ma ≠ [] →
  Z.of_nat (length (cuts size ma)) * (133 + Z.of_nat size) < 2 ^ 31 →
  ∃ p f' es, Page.create crc32 n lvl cid (Z.of_nat size) ma f = Ok (p, f') ∧
    created size i n (cuts size ma) (summed (summed Statistic_empty (cuts size ma)) (cuts size ma))
      (Z.of_nat (length (cuts size ma))) lvl f p f' es.
Proof.
  intros Hsize Hl Hfresh Hi Hm Hne Hsz. unfold Page.create, PageInner.compressValues.
  destruct (compress_loop_ok size i (length ma) ma [] (PageFooter_make lvl cid)) as (hbs & E & Hh);
    try done; [pose proof (cm_length _ _ Hm); cbn; lia|].
  fold (cuts size ma) in E, Hh. rewrite E, bind_Ok. cbn [app].
  pose proof (cuts_concat size ma) as Hc.
  assert (Hwf : Forall (Forall meas_wf) (cuts size ma)) by (apply Forall_concat; rewrite Hc; apply Hm).
  assert (Hids : Forall (Forall (fun m => id m = i)) (cuts size ma))
    by (apply Forall_concat; rewrite Hc; apply Hm).
  destruct (open_files_ok size i n f (phdr_after (cuts size ma) (PageFooter_make lvl cid)) IndexFooter_init)
    as (f1 & -> & W & Hfr); try done.
  { split; try done; cbn; [|nia]. by apply summed_wf. }
  rewrite bind_Ok.
  destruct (write_batches_ok size i (S (length hbs)) n f1 [] [] _ _ hbs (cuts size ma) W Hi) as (p & f' & es & -> & C);
    try done; [lia| |].
  { intros ->. apply Forall2_nil_inv_l in Hh. rewrite Hh in Hc. by destruct Hne. }
  exists p, f', es. split; [done|]. destruct C as [C1 C2 C3 C4 C5 C6 C7 C8 C9 C10 C11].
  split; try done. by etransitivity.
Qed.

(** ** What a written page is good for *)

(** No change of the times of a chunk is one of the misread ones. *)
Definition kept (part : list Meas) : bool :=
  match part with [] => true | m0 :: l => times_kept (dc_first m0) l end.

Lemma created_series size i n parts st mx lvl f p f' es :
  created size i n parts st mx lvl f p f' es → Forall (fun part => kept part = true) parts →
  Forall (fun m => id m = i) (concat parts) → strictly_by time (concat parts) →
  ∃ els, els.*1 = es ∧ els.*2 = parts ∧ page_series f' p i els.
Proof.
  intros C Hk Hid Hs. pose proof (es_holds _ _ _ _ _ (cr_entries _ _ _ _ _ _ _ _ _ _ _ C)) as Hh.
  pose proof (Forall2_length _ _ _ Hh) as Hlen. exists (zip es parts).
  rewrite fst_zip, snd_zip by lia. split; [done|]. split; [done|].
  split; rewrite ?fst_zip, ?snd_zip by lia; try done; [by exists es; split; [|apply C]|].
  destruct (strict_concat _ Hs) as [Hss _]. clear -Hh Hk Hss.
  induction Hh as [|e part es parts (m0 & l & -> & He) _ IH]; [constructor|].
  apply Forall_cons_1 in Hk as [Hk1 Hk], Hss as [Hs1 Hss]. constructor; [|by apply IH]. by exists m0, l.
Qed.

Lemma entry_range e : entry_ok e → get_range (Chunk.bw (entry_chunk e)) = e.2.
Proof.
  intros [_ Hsz _].
  cbn [entry_chunk Chunk.bw Chunk.open Chunk.c_writer CopmressedWriter.init CopmressedWriter._bb get_range set_pos make_buffer reset_pos _data].
  by rewrite Hsz, Nat2Z.id, take_ge.
Qed.

(** *** Checksums *)

Lemma entry_checksum e : entry_ok e → ChunkHeader.crc e.1 = crc32 e.2 →
  Chunk.checkChecksum crc32 (entry_chunk e) = true.
Proof.
  intros He Hc. unfold Chunk.checkChecksum, Chunk.calcChecksum. rewrite entry_range by done.
  change (Chunk.header (entry_chunk e)) with e.1. rewrite Hc, (eo_size _ He), Nat2Z.id, take_ge by done.
  by apply Z.eqb_eq.
Qed.

Lemma checksum_ok f p es :
  page_at f p es → Forall (fun e => ChunkHeader.crc e.1 = crc32 e.2) es → Page.checksum crc32 p f = Ok true.
Proof.
  intros Hp Hc. unfold Page.checksum, fopen_rb. destruct (pa_file _ _ _ Hp) as [foot ->].
  rewrite (readReccords_ok f p es Hp), bind_Ok.
  enough (Hg : ∀ es1 es2 pos, es = es1 ++ es2 → ∃ pos',
    foldM (fun (x : bool * Page.page_io) r =>
      let '(result, io) := x in
      if negb result then Ok x
      else
        '(c, io) ← Page.readChunkByOffset io (ir_offset r);
        Ok (Chunk.checkChecksum crc32 c, io)) (entry_rec <$> es2) (true, (entries_bytes es ++ foot, pos)) =
    Ok (true, (entries_bytes es ++ foot, pos'))) by (destruct (Hg [] es 0%nat eq_refl) as [pos' ->]; done).
  intros es1 es2. revert es1. induction es2 as [|e es2 IH]; intros es1 pos E; [by exists pos|].
  assert (Hk : es !! length es1 = Some e) by (rewrite E; by apply list_lookup_middle).
  destruct (read_entry es _ e pos foot (pa_placed _ _ _ Hp) Hk (pa_small _ _ _ Hp)) as (pos' & Er).
  rewrite fmap_cons. cbn [foldM negb]. change (entry_rec e) with (rec_of e.1). rewrite Er, bind_Ok.
  apply list_elem_of_lookup_2 in Hk. pose proof (placed_ok _ _ (pa_placed _ _ _ Hp)) as Hok.
  rewrite Forall_forall in Hc, Hok. rewrite entry_checksum by auto. rewrite bind_Ok.
  apply (IH (es1 ++ [e])). by rewrite <- app_assoc.
Qed.

(** *** Restoring the index *)

Lemma update_loop_ok es foot es1 es2 idx ihdr f i :
  es = es1 ++ es2 → Forall entry_ok es2 → Forall (fun e => ChunkHeader.meas_id e.1 = i) es2 →
  0 <= if_recs_count ihdr → if_recs_count ihdr + Z.of_nat (length es2) < 2 ^ 64 →
  Page.update_loop (length es2) (entries_bytes es ++ foot) (length (entries_bytes es1)) idx ihdr f =
  Ok (match es2 with [] => ihdr | _ => if_set_target i (if_recs_count ihdr + Z.of_nat (length es2)) ihdr end,
      fwrite_ab idx (index_bytes es2) f).
Proof.
  revert es1 ihdr f. induction es2 as [|e es2 IH]; intros es1 ihdr f E Hok Hid H0 H1.
  { cbn. by rewrite fwrite_ab_nil. }
  apply Forall_cons_1 in Hok as [He Hok], Hid as [Hi Hid]. cbn [length] in H1. cbn [length Page.update_loop].
  assert (Hd : drop (length (entries_bytes es1)) (entries_bytes es ++ foot) =
               bytes_of e.1 ++ e.2 ++ entries_bytes es2 ++ foot).
  { rewrite E, entries_bytes_app, <- app_assoc, drop_app_length.
    change (entries_bytes (e :: es2)) with (entry_bytes e ++ entries_bytes es2).
    unfold entry_bytes. by rewrite <- !app_assoc. }
  rewrite Hd. pose proof (fread_structs [e.1] (e.2 ++ entries_bytes es2 ++ foot)) as Hr.
  cbn [fmap list_fmap concat length] in Hr. rewrite app_nil_r in Hr.
  rewrite Hr by (constructor; [apply header_in_range, He|constructor]).
  unfold PageInner.init_chunk_index_rec. rewrite (eo_size _ He), Nat2Z.id.
  replace (length (entries_bytes es1) + size_of ChunkHeader.t + length e.2)%nat
    with (length (entries_bytes (es1 ++ [e]))).
  2: { rewrite entries_bytes_app, length_app. change (entries_bytes [e]) with (entry_bytes e ++ []).
       rewrite app_nil_r, length_entry_bytes. unfold entry_size. lia. }
  rewrite (wrap_small 64) by lia. rewrite Hi, IH; [|by rewrite <- app_assoc|done..|cbn; lia|cbn; lia].
  change (index_bytes (e :: es2)) with (bytes_of (entry_rec e) ++ index_bytes es2).
  unfold entry_rec, rec_of. rewrite fwrite_ab_twice, Hi. do 2 f_equal.
  destruct es2; [done|]. unfold if_set_target. cbn. f_equal. lia.
Qed.

Lemma readFooter_same n f g : fs_files g !! n = fs_files f !! n → Page.readFooter n g = Page.readFooter n f.
Proof. intros E. unfold Page.readFooter, fopen_rb. by rewrite E. Qed.

Lemma open_inv n f p : Page.open n f = Ok p →
  Page.readFooter n f = Ok (Page.footer p) ∧ Page.filename p = n ∧
  PageIndex.open (index_name n) f = Ok (Page._index p).
Proof.
  unfold Page.open, Page.open_with. intros H. apply bind_Ok_inv in H as (phdr & -> & H).
  apply bind_Ok_inv in H as (ix & E & H). by injection H as <-.
Qed.

(** The index of a page that lost it is the one the page was made with, at level
    0 and with the same chunks. *)
Lemma restore_ok size i n parts st mx lvl f p f' es :
  created size i n parts st mx lvl f p f' es → is_id i → es ≠ [] →
  fs_writable f' (index_name n) = true →
  ∃ f2 p2, Page.restoreIndexFile n (rm (index_name n) f') = Ok f2 ∧ Page.open n f2 = Ok p2 ∧
    page_at f2 p2 es ∧ Page.footer p2 = Page.footer p ∧
    PageIndex.iheader (Page._index p2) = if_set_level 0 (PageIndex.iheader (Page._index p)).
Proof.
  intros C Hi Hne Hw. pose proof (cr_page _ _ _ _ _ _ _ _ _ _ _ C) as Hp.
  destruct (pa_file _ _ _ Hp) as [foot Ef]. rewrite (cr_name _ _ _ _ _ _ _ _ _ _ _ C) in Ef.
  pose proof (entries_count es) as Hlen. pose proof (pa_small _ _ _ Hp) as Hsm.
  destruct (cr_entries _ _ _ _ _ _ _ _ _ _ _ C) as [_ _ _ _ Hids].
  set (f1 := rm (index_name n) f').
  assert (Ef1 : fs_files f1 !! n = Some (entries_bytes es ++ foot))
    by (cbn [f1 rm fs_files]; rewrite lookup_delete_ne by apply index_name_neq; done).
  destruct (open_inv _ _ _ (cr_open _ _ _ _ _ _ _ _ _ _ _ C)) as (Er & _ & _).
  unfold Page.restoreIndexFile. rewrite (readFooter_same n f'), Er, bind_Ok by (by rewrite Ef1, Ef).
  unfold Page.update_index_recs, fopen_ab. change (Page.index_name n) with (index_name n).
  change (fs_writable f1 (index_name n)) with (fs_writable f' (index_name n)). rewrite Hw.
  set (f2 := mkFs _ _ _).
  assert (Ef2 : fs_files f2 !! n = Some (entries_bytes es ++ foot))
    by (cbn [f2 fs_files]; rewrite lookup_insert_ne by apply index_name_neq; done).
  assert (Ei2 : fs_files f2 !! index_name n = Some [])
    by (cbn [f2 fs_files f1 rm]; rewrite lookup_insert_eq, lookup_delete_eq; done).
  unfold fopen_rb. rewrite Ef2, (cr_added _ _ _ _ _ _ _ _ _ _ _ C), Nat2Z.id.
  change 0%nat with (length (entries_bytes [])).
  rewrite (update_loop_ok es foot [] es (index_name n) IndexFooter_init f2 i eq_refl (placed_ok _ _ (pa_placed _ _ _ Hp)) Hids);
    [|done|cbn; lia].
  rewrite bind_Ok. destruct es as [|e0 es0] eqn:Ees; [done|]. rewrite <- Ees in *.
  set (ih := if_set_stat _ _). set (f3 := fwrite_ab _ _ f2).
  assert (Hih : ihdr_wf ih) by (split; cbn; try done; apply C).
  assert (Ei3 : fs_files (fwrite_ab (index_name n) (bytes_of ih) f3) !! index_name n = Some (index_bytes es ++ bytes_of ih)).
  { apply fwrite_lookup. unfold f3. by rewrite (fwrite_lookup _ _ _ _ Ei2). }
  assert (Ef3 : fs_files (fwrite_ab (index_name n) (bytes_of ih) f3) !! n = Some (entries_bytes es ++ foot)).
  { unfold f3. by rewrite !fwrite_lookup_ne by (apply not_eq_sym, index_name_neq). }
  set (f4 := fwrite_ab (index_name n) (bytes_of ih) f3) in *.
  assert (Eio : PageIndex.open (index_name n) f4 = Ok (PageIndex.mk (index_name n) ih)).
  { unfold PageIndex.open, PageIndex.readIndexFooter, fopen_rb. rewrite Ei3, read_tail_bytes.
    - cbn [default]. change (Datatypes.id ih) with ih. by rewrite ihdr_check.
    - apply ihdr_in_range; [done|]. cbn. lia. }
  rewrite bind_Ok, Eio, bind_Ok. exists f4, (Page.mk (Page.footer p) n (PageIndex.mk (index_name n) ih)).
  split; [done|]. split; [|split; [|split; [done|]]].
  - unfold Page.open, Page.open_with. rewrite (readFooter_same n f'), Er, bind_Ok by (by rewrite Ef3, Ef).
    change (PageIndex.index_name_from_page_name n) with (index_name n). by rewrite Eio.
  - split; [by eexists..|done|apply Hp|done].
  - cbn [Page._index PageIndex.iheader]. rewrite (cr_index _ _ _ _ _ _ _ _ _ _ _ C).
    unfold ih, if_set_stat, if_set_target, if_set_level. cbn. by rewrite (cr_stat _ _ _ _ _ _ _ _ _ _ _ C).
Qed.
End Write.

(** ** Sums of statistics *)

Lemma summed_count st parts :
  u32 (count (summed st parts)) = u32 (count st + Z.of_nat (length (concat parts))).
Proof.
  revert st. induction parts as [|part parts IH]; intros st; [by rewrite Z.add_0_r|].
  change (summed st (part :: parts)) with (summed (update_stat (stat_of part) st) parts).
  rewrite IH. cbn [count update_stat concat]. rewrite length_app, wrap_add_l.
  destruct (update_all_fields part Statistic_empty) as (_ & _ & E & _ & _).
  fold (stat_of part) in E. cbn [count Statistic_empty] in E.
  replace (count st + count (stat_of part) + Z.of_nat (length (concat parts)))
    with (count st + Z.of_nat (length (concat parts)) + count (stat_of part)) by lia.
  rewrite <- wrap_add_r, E, wrap_add_r. f_equal. lia.
Qed.

Lemma summed_times st parts :
  minTime st <= MAX_TIME → MIN_TIME <= maxTime st →
  minTime (summed st parts) = time_min (concat parts) (minTime st) ∧
  maxTime (summed st parts) = time_max (concat parts) (maxTime st).
Proof.
  revert st. induction parts as [|part parts IH]; intros st Hmn Hmx; [done|].
  change (summed st (part :: parts)) with (summed (update_stat (stat_of part) st) parts).
  destruct (update_all_fields part Statistic_empty) as (E1 & E2 & _).
  fold (stat_of part) in E1, E2. cbn [minTime maxTime Statistic_empty] in E1, E2.
  pose proof (time_min_spec (concat parts) (minTime st)) as (L1 & _).
  pose proof (time_max_spec (concat parts) (maxTime st)) as (L2 & _).
  destruct (IH (update_stat (stat_of part) st)) as [-> ->]; cbn [update_stat minTime maxTime]; [lia..|].
  rewrite E1, E2. cbn [concat]. rewrite time_min_shift, time_max_shift.
  assert (Hmin : ∀ t, time_min (part ++ concat parts) t = time_min part (time_min (concat parts) t))
    by (intros; apply foldr_app).
  assert (Hmax : ∀ t, time_max (part ++ concat parts) t = time_max part (time_max (concat parts) t))
    by (intros; apply foldr_app).
  rewrite Hmin, Hmax. split.
  - rewrite Z.min_comm, <- time_min_shift, Z.min_l by lia. done.
  - rewrite Z.max_comm, <- time_max_shift, Z.max_l by lia. done.
Qed.

Lemma summed_flags st parts m :
  (m ∈ concat parts ∨ bloom_check (flag_bloom st) (flag m) = true) →
  bloom_check (flag_bloom (summed st parts)) (flag m) = true.
Proof.
  revert st. induction parts as [|part parts IH]; intros st Hm; [by destruct Hm as [Hm%elem_of_nil|]|].
  change (summed st (part :: parts)) with (summed (update_stat (stat_of part) st) parts).
  apply IH. cbn [concat] in Hm. rewrite elem_of_app in Hm.
  destruct Hm as [[Hm|Hm]|Hm]; [right|by left|right]; cbn [update_stat flag_bloom]; unfold bloom_combine.
  - eapply bloom_check_mono; [apply bits_subset_lor_r|].
    destruct (update_all_fields part Statistic_empty) as (_ & _ & _ & E & _).
    fold (stat_of part) in E. rewrite E. by apply bloom_of_check, list_elem_of_fmap_2.
  - eapply bloom_check_mono; [apply bits_subset_lor_l|done].
Qed.

(** A statistic that has the times of the series and all its flags. *)
Record covers (st : Statistic) (l : list Meas) : Prop := {
  cv_min : minTime st = tfirst l;
  cv_max : maxTime st = tlast l;
  cv_flags : Forall (fun m => bloom_check (flag_bloom st) (flag m) = true) l;
}.

Lemma time_min_first l t : strictly_by time l → l ≠ [] → tfirst l <= t → time_min l t = tfirst l.
Proof.
  intros Hs Hn Ht. destruct (time_min_spec l t) as (L & Ha & Hx). destruct (tfirst_elem l Hn) as (m & Hm & E).
  rewrite Forall_forall in Ha. specialize (Ha m Hm). cbn in Ha.
  destruct Hx as [Hx|(m' & Hm' & Hx)]; [lia|]. pose proof (strict_bounds l m' Hs Hm'). lia.
Qed.

Lemma time_max_last l t : strictly_by time l → l ≠ [] → t <= tlast l → time_max l t = tlast l.
Proof.
  intros Hs Hn Ht. destruct (time_max_spec l t) as (L & Ha & Hx). destruct (tlast_elem l Hn) as (m & Hm & E).
  rewrite Forall_forall in Ha. specialize (Ha m Hm). cbn in Ha.
  destruct Hx as [Hx|(m' & Hm' & Hx)]; [lia|]. pose proof (strict_bounds l m' Hs Hm'). lia.
Qed.

Lemma wf_first_last l : Forall meas_wf l → l ≠ [] → tfirst l <= MAX_TIME ∧ MIN_TIME <= tlast l.
Proof.
  intros Hwf Hn. destruct (tfirst_elem l Hn) as (m & Hm & <-), (tlast_elem l Hn) as (m' & Hm' & <-).
  rewrite Forall_forall in Hwf. destruct (Hwf m Hm) as (_ & Ht & _), (Hwf m' Hm') as (_ & Ht' & _).
  unfold is_time, MAX_TIME, MIN_TIME in *. lia.
Qed.

Lemma summed_covers parts :
  Forall meas_wf (concat parts) → strictly_by time (concat parts) → concat parts ≠ [] →
  covers (summed Statistic_empty parts) (concat parts) ∧
  covers (summed (summed Statistic_empty parts) parts) (concat parts).
Proof.
  intros Hwf Hs Hn. destruct (wf_first_last _ Hwf Hn) as [Hf Hl].
  destruct (summed_times Statistic_empty parts) as [E1 E2]; [done..|].
  change (minTime Statistic_empty) with MAX_TIME in E1. change (maxTime Statistic_empty) with MIN_TIME in E2.
  rewrite time_min_first in E1 by done. rewrite time_max_last in E2 by done.
  destruct (summed_times (summed Statistic_empty parts) parts) as [E3 E4]; [lia..|].
  rewrite E1, time_min_first in E3 by (done || lia). rewrite E2, time_max_last in E4 by (done || lia).
  split; split; try done; apply Forall_forall; intros m Hm; apply summed_flags; by left.
Qed.

(** Measurements a page of chunks of [size] bytes can be made from. *)
Record page_input (size : nat) (i : Z) (ma : list Meas) : Prop := {
  pi_size : (0 < size)%nat ∧ Z.of_nat size < 2 ^ 32;
  pi_id : is_id i;
  pi_compressible : compressible i ma;
  pi_ne : ma ≠ [];
  pi_bytes : Z.of_nat (length (cuts size ma)) * (133 + Z.of_nat size) < 2 ^ 31;
  pi_kept : Forall (fun part => kept part = true) (cuts size ma);
  pi_strict : strictly_by time ma;
}.
