(* ===== verification/PageProps.v ===== *)
(** * Pages: properties

    What a page made from measurements promises: it answers queries with them,
    its checksums hold, its index can be rebuilt; and what its footer counts. *)

From Stdlib Require Import ZArith Lia String Sorting.Sorted.
From stdpp Require Import base numbers list gmap strings.
From S2P Require Import Prelude ByteBuffer Float64 Meas Bloom Stat Delta Xor Compression StdSort ICursor FullCursor Chunk KMerge Cursors Colapse.
From S2P Require Import StripedMap StdMap TimeTrack TimeTrackSpec Series Storages Files PageFormat PageIndex Page PageSpec PageWrite.

Local Open Scope Z_scope.

(** ** Properties *)


Definition small_fs : fs := mkFs ∅ ∅ (fun _ => true).
Definition small_series : list Meas := (fun t => mkMeas 7 t 5 3) <$> [1; 2; 1000; 70000; 70001].

Lemma small_series_compressible : compressible 7 small_series.
Proof.
  split; [repeat constructor; vm_compute; congruence|by repeat constructor|by intros ? ? [= <- <-]|done].
Qed.

Lemma small_fs_fresh n : fresh_page n small_fs.
Proof. by split. Qed.


(** C30: an index that was lost is rebuilt from the page alone: the page opens
    again, with the same footer, and answers every query as before.  The level of
    the page is not put back into the rebuilt index; it is always 0 there. *)
Theorem page_restore_index `{StdSort} `{UnorderedMap} crc32 size i n lvl cid ma f p f' :
  (∀ bs, 0 <= crc32 bs < 2 ^ 32) → (0 < size)%nat ∧ Z.of_nat size < 2 ^ 32 → 0 <= lvl < 2 ^ 16 →
  fresh_page n f → is_id i → compressible i ma → ma ≠ [] →
  Z.of_nat (length (cuts size ma)) * (133 + Z.of_nat size) < 2 ^ 31 →
  Page.create crc32 n lvl cid (Z.of_nat size) ma f = Ok (p, f') →
  ∃ f2 p2, Page.restoreIndexFile n (rm (Page.index_name n) f') = Ok f2 ∧ Page.open n f2 = Ok p2 ∧
    Page.footer p2 = Page.footer p ∧
    (∀ q (l : list Meas), Page.foreach q l p2 f2 = Page.foreach q l p f') ∧
    if_level (PageIndex.iheader (Page._index p)) = lvl ∧ if_level (PageIndex.iheader (Page._index p2)) = 0.
Proof.
  intros Hcrc Hsize Hl Hn Hi Hm Hne Hsz Ec.
  destruct (page_create_ok crc32 Hcrc size i n lvl cid ma f Hsize Hl Hn Hi Hm Hne Hsz) as (p0 & f0 & es & E & C).
  rewrite Ec in E. injection E as <- <-.
  destruct (restore_ok _ _ _ _ _ _ _ _ _ _ _ _ C Hi) as (f2 & p2 & R1 & R2 & R3 & R4 & R5).
  - intros ->. pose proof (es_holds _ _ _ _ _ _ (cr_entries _ _ _ _ _ _ _ _ _ _ _ _ C)) as Hh.
    apply Forall2_nil_inv_l in Hh. by rewrite <- (cuts_concat size ma), Hh in Hne.
  - rewrite (ff_writable _ _ _ (cr_frame _ _ _ _ _ _ _ _ _ _ _ _ C)). apply Hn.
  - exists f2, p2. split; [done|]. split; [done|]. split; [done|]. split; [|split].
    + intros q l. unfold Page.foreach.
      by rewrite (intervalReader_chunks _ _ _ q R3), (intervalReader_chunks _ _ _ q (cr_page _ _ _ _ _ _ _ _ _ _ _ _ C)).
    + by rewrite (cr_index _ _ _ _ _ _ _ _ _ _ _ _ C).
    + by rewrite R5.
Qed.

Lemma page_restore_index_witness :
  ∃ p f' f2 p2, Page.create (fun _ => 0) "p" 3 1 12 small_series small_fs = Ok (p, f') ∧
    Page.restoreIndexFile "p" (rm (Page.index_name "p") f') = Ok f2 ∧ Page.open "p" f2 = Ok p2 ∧
    Page.footer p2 = Page.footer p ∧
    (∀ q (l : list Meas), Page.foreach q l p2 f2 = Page.foreach q l p f') ∧
    if_level (PageIndex.iheader (Page._index p)) = 3 ∧ if_level (PageIndex.iheader (Page._index p2)) = 0.
Proof.
  change 12 with (Z.of_nat 12).
  pose proof (fun p f' => page_restore_index (fun _ => 0) 12 7 "p" 3 1 small_series small_fs p f'
    ltac:(done) ltac:(lia) ltac:(lia) (small_fs_fresh "p") ltac:(done) small_series_compressible
    ltac:(done) ltac:(by vm_compute)) as R.
  destruct (page_create_ok (fun _ => 0) ltac:(done) 12 7 "p" 3 1 small_series small_fs) as (p & f' & _ & E & _);
    [lia|lia|apply small_fs_fresh|done|apply small_series_compressible|done|by vm_compute|].
  destruct (R p f' E) as (f2 & p2 & R'). exists p, f', f2, p2. split; [exact E|exact R'].
Defined.

(** The footer of a page made from measurements counts every measurement
    twice, since both the step that compresses them and the step that writes the
    chunks add to it; the chunks are numbered from 1 in every page, whatever the
    identifier the caller gives. *)
Theorem page_footer_counts_twice `{StdSort} `{UnorderedMap} crc32 size i n lvl cid ma f :
  (∀ bs, 0 <= crc32 bs < 2 ^ 32) → (0 < size)%nat ∧ Z.of_nat size < 2 ^ 32 → 0 <= lvl < 2 ^ 16 →
  fresh_page n f → is_id i → compressible i ma → ma ≠ [] →
  Z.of_nat (length (cuts size ma)) * (133 + Z.of_nat size) < 2 ^ 31 →
  ∃ p f', Page.create crc32 n lvl cid (Z.of_nat size) ma f = Ok (p, f') ∧
    u32 (count (pf_stat (Page.footer p))) = u32 (2 * Z.of_nat (length ma)) ∧
    pf_addeded_chunks (Page.footer p) = Z.of_nat (length (cuts size ma)) ∧
    pf_max_chunk_id (Page.footer p) = Z.of_nat (length (cuts size ma)).
Proof.
  intros Hcrc Hsize Hl Hn Hi Hm Hne Hsz.
  destruct (page_create_ok crc32 Hcrc size i n lvl cid ma f Hsize Hl Hn Hi Hm Hne Hsz) as (p & f' & es & E & C).
  exists p, f'. split; [done|].
  rewrite (cr_stat _ _ _ _ _ _ _ _ _ _ _ _ C), (cr_max_id _ _ _ _ _ _ _ _ _ _ _ _ C), (cr_added _ _ _ _ _ _ _ _ _ _ _ _ C).
  rewrite (Forall2_length _ _ _ (es_holds _ _ _ _ _ _ (cr_entries _ _ _ _ _ _ _ _ _ _ _ _ C))).
  split; [|done]. rewrite summed_count, <- wrap_add_l, summed_count, wrap_add_l, !cuts_concat.
  cbn [count Statistic_empty]. f_equal. lia.
Qed.

Lemma page_footer_counts_twice_witness :
  ∃ p f', Page.create (fun _ => 0) "p" 0 1 12 small_series small_fs = Ok (p, f') ∧
    u32 (count (pf_stat (Page.footer p))) = 10.
Proof.
  destruct (page_footer_counts_twice (fun _ => 0) 12 7 "p" 0 1 small_series small_fs) as (p & f' & E & Ec & _);
    [done|lia|lia|apply small_fs_fresh|done|apply small_series_compressible|done|by vm_compute|].
  exists p, f'. split; [exact E|exact Ec].
Defined.
