(* ===== verification/PageManager.v ===== *)
(** * Pages: the manager

    [storage/pages/page_manager.cpp]: the pages of all series.  The manifest lists
    their files; the manager keeps the index footer of each page by identifier,
    and answers a query from the pages whose times meet it.  Pages come from the
    dropper ([append_async]) and from the memory storage ([appendChunks]); pages of
    one level are repacked to one page of the next.  No page is ever current
    ([_cur_page] stays null), and the tasks of the thread pool run in place. *)

From Stdlib Require Import ZArith Lia String Sorting.Sorted.
From stdpp Require Import base numbers list gmap strings.
From S2P Require Import Prelude ByteBuffer Float64 Meas Bloom Stat StdSort ICursor FullCursor Chunk KMerge Cursors Colapse.
From S2P Require Import StripedMap StdMap Storages Files PageFormat PageIndex Page.

Local Open Scope Z_scope.

(** [stx::btree_multimap] with integer keys, in the order of iteration; where a
    new entry goes among entries of the same key is open. *)
Class BtreeMultimap := {
  mm_insert : ∀ {A : Type}, Z → A → list (Z * A) → list (Z * A);
  mm_insert_perm : ∀ {A : Type} k (a : A) m, mm_insert k a m ≡ₚ (k, a) :: m;
  mm_insert_sorted : ∀ {A : Type} k (a : A) m, sorted_by fst m → sorted_by fst (mm_insert k a m);
}.

(** The options the manager reads. *)
Record PageSettings := mkPageSettings {
  p_raw_path : string;
  chunk_size : Z;
  max_pages_in_level : Z;
  max_chunks_per_page : Z;
}.

Definition PAGE_FILE_EXT : string := ".page".
Definition MIN_LEVEL : Z := 0.
Definition MAX_LEVEL : Z := 2 ^ 16 - 1.

(** [utils::fs::file_exists]: the path can be opened for reading. *)
Definition file_exists (p : string) (f : fs) : bool := path_exists p f.

Record PageFooterDescription := mkPfd { path : string; hdr : IndexFooter }.

Abbreviation File2PageFooter := (list (Z * PageFooterDescription)).

Module PageManager.

Record t := mk {
  last_id : Z;
  _file2footer : gmap Z File2PageFooter;
}.

Definition set_last_id (i : Z) (s : t) : t := mk i (_file2footer s).
Definition set_f2f (m : gmap Z File2PageFooter) (s : t) : t := mk (last_id s) m.

Section Manager.
Context `{BtreeMultimap} `{Paths} `{FileNames} `{StdSort} `{UnorderedMap}.
Variable st : PageSettings.
Variable crc32 : list Z → Z.

Definition full (n : string) : string := append_path (p_raw_path st) n.

Definition insert_pagedescr (page_name : string) (h : IndexFooter) (s : t) : t :=
  let i := if_target_id h in
  set_f2f (<[i := mm_insert (maxTime (if_stat h)) (mkPfd page_name h) (um_at [] i (_file2footer s))]>
             (_file2footer s)) s.

(** ** Opening *)

Definition load_footer (f : fs) (s : t) (n : string) : outcome t :=
  let file_name := full n in
  phdr ← Page.readFooter file_name f;
  let s := set_last_id (Z.max (pf_max_chunk_id phdr) (last_id s)) s in
  let index_filename := PageIndex.index_name_from_page_name file_name in
  if file_exists index_filename f then
    ihdr ← PageIndex.readIndexFooter index_filename f;
    Ok (insert_pagedescr n ihdr s)
  else Ok s.

Definition reloadIndexFooters (s : t) (e : env) : outcome t :=
  if path_exists (p_raw_path st) (e_fs e) then
    let s := set_f2f ∅ s in
    pages ← Manifest.page_list (e_manifest e);
    foldM (load_footer (e_fs e)) pages s
  else Ok s.

Definition make (e : env) : outcome t := reloadIndexFooters (mk 0 ∅) e.

(** ** Finding pages *)

(** [_file2footer[id]], which makes an entry for a new identifier. *)
Definition footers_of (i : Z) (s : t) : File2PageFooter * t :=
  match _file2footer s !! i with
  | Some m => (m, s)
  | None => ([], set_f2f (<[i := []]> (_file2footer s)) s)
  end.

Definition add_pages (pred : IndexFooter → bool) (x : list PageFooterDescription * t) (i : Z)
  : list PageFooterDescription * t :=
  let '(m, s) := footers_of i x.2 in
  (x.1 ++ base.filter (fun d => pred (hdr d) = true) (snd <$> m), s).

Definition pages_by_filter (ids : list Z) (pred : IndexFooter → bool) (s : t) : list string * t :=
  let '(sub_result, s) := fold_left (add_pages pred) ids ([], s) in
  ((fun d => full (path d)) <$> std_sort (fun d => minTime (if_stat (hdr d))) sub_result, s).

Definition all_ids (s : t) : list Z := fst <$> um_list (_file2footer s).

Definition interval_check (from to : Z) (h : IndexFooter) : bool :=
  let st := if_stat h in
  ((from <=? minTime st) && (maxTime st <=? to)) ||
  inInterval from to (minTime st) || inInterval from to (maxTime st) ||
  inInterval (minTime st) (maxTime st) from || inInterval (minTime st) (maxTime st) to.

(** ** Queries *)

Definition open_page_to_read (pname : string) (f : fs) : outcome Page.t := Page.open pname f.

Definition minMaxTime (i : Z) (s : t) (e : env) : outcome (bool * Z * Z * t) :=
  let '(pages, s) := pages_by_filter [i] (fun _ => true) s in
  results ← foldM (fun rs pname =>
    pg ← open_page_to_read pname (e_fs e);
    r ← Page.minMaxTime i pg (e_fs e);
    Ok (rs ++ [r])) pages [];
  let '(res, mn, mx) := fold_left (fun (x : bool * Z * Z) (r : bool * Z * Z) =>
    if r.1.1 then (true, Z.min r.1.2 x.1.2, Z.max r.2 x.2) else x) results (false, MAX_TIME, MIN_TIME) in
  Ok (res, mn, mx, s).

Definition stat (i from to : Z) (s : t) (e : env) : outcome (Statistic * t) :=
  let '(page_list, s) := pages_by_filter [i]
    (fun h => interval_check from to h && (if_target_id h =? i)) s in
  result ← foldM (fun result pname =>
    p ← Page.open pname (e_fs e);
    sub_result ← Page.stat i from to p (e_fs e);
    Ok (update_stat sub_result result)) page_list Statistic_empty;
  Ok (result, s).

Definition in_query_page (query : QueryInterval) (h : IndexFooter) : bool :=
  interval_check (qi_from query) (qi_to query) h &&
  existsb (fun i => (if_target_id h =? i) &&
    ((qi_flag query =? 0) || bloom_check (flag_bloom (if_stat h)) (qi_flag query))) (qi_ids query).

Abbreviation page_cursor := (cursor Chunk.cursor).

Definition push_cursor (rl : gmap Z (list page_cursor)) (kv : Z * page_cursor)
  : gmap Z (list page_cursor) :=
  <[kv.1 := um_at [] kv.1 rl ++ [kv.2]]> rl.

Definition callback_for_interval_readers (query : QueryInterval) (s : t) (e : env)
  : outcome (gmap Z (list page_cursor) * t) :=
  let '(page_list, s) := pages_by_filter (qi_ids query) (in_query_page query) s in
  result ← foldM (fun result pname =>
    p ← Page.open pname (e_fs e);
    sub_result ← Page.intervalReader query p (e_fs e);
    Ok (fold_left push_cursor (um_list sub_result) result)) page_list ∅;
  Ok (result, s).

Definition intervalReader (query : QueryInterval) (s : t) (e : env) : outcome (gmap Z page_cursor * t) :=
  '(result, s) ← callback_for_interval_readers query s e;
  r ← colapseCursorsMap (um_list result);
  Ok (list_to_map r, s).

(** [ChunkContainer::foreach] *)
Definition foreach {K} `{IReadCallback K} (query : QueryInterval) (clbk : K) (s : t) (e : env)
  : outcome (K * t) :=
  '(readers, s) ← intervalReader query s e;
  clbk ← foreach_cursors query clbk readers;
  Ok (clbk, s).

Definition in_point_page (query : QueryTimePoint) (h : IndexFooter) : bool :=
  (inInterval (minTime (if_stat h)) (maxTime (if_stat h)) (qt_time_point query) ||
   (maxTime (if_stat h) <? qt_time_point query)) &&
  existsb (fun i => if_target_id h =? i) (qt_ids query).

(** The pages from the latest on, until one has answered for all identifiers. *)
Fixpoint read_before (query : QueryTimePoint) (f : fs) (pages : list string) (result : gmap Z Meas)
  : outcome (gmap Z Meas) :=
  match pages with
  | [] => Ok result
  | pname :: pages =>
    pg ← open_page_to_read pname f;
    subres ← Page.valuesBeforeTimePoint query pg f;
    let result := fold_left (fun r kv => <[kv.1 := kv.2]> r) (um_list subres) result in
    if (size subres =? length (qt_ids query))%nat then Ok result
    else read_before query f pages result
  end.

Definition valuesBeforeTimePoint (query : QueryTimePoint) (s : t) (e : env)
  : outcome (gmap Z Meas * t) :=
  let result := fold_left (fun (r : gmap Z Meas) i =>
    let m := um_at Meas_default i r in
    <[i := mkMeas (id m) (qt_time_point query) (value m) _NO_DATA]> r) (qt_ids query) ∅ in
  let '(page_list, s) := pages_by_filter (qt_ids query) (in_point_page query) s in
  result ← read_before query (e_fs e) (reverse page_list) result;
  Ok (result, s).

Definition chunks_in_cur_page (s : t) : Z := 0.

Definition files_count (e : env) : outcome Z :=
  pages ← Manifest.page_list (e_manifest e); Ok (Z.of_nat (length pages)).

Definition time_of_pages (f : Z → Z → Z) (get : Statistic → Z) (start : Z) (s : t) (e : env)
  : outcome (Z * t) :=
  let '(page_list, s) := pages_by_filter (all_ids s) (fun _ => true) s in
  res ← foldM (fun res pname =>
    ih ← PageIndex.readIndexFooter (PageIndex.index_name_from_page_name pname) (e_fs e);
    Ok (f (get (if_stat ih)) res)) page_list start;
  Ok (res, s).

Definition minTime (s : t) (e : env) : outcome (Z * t) := time_of_pages Z.min Stat.minTime MAX_TIME s e.
Definition maxTime (s : t) (e : env) : outcome (Z * t) := time_of_pages Z.max Stat.maxTime MIN_TIME s e.

Definition loadMinMax (s : t) (e : env) : outcome (Id2MinMax * t) :=
  let '(pages, s) := pages_by_filter (all_ids s) (fun _ => true) s in
  result ← foldM (fun result pname =>
    pg ← open_page_to_read pname (e_fs e);
    sub_results ← Page.loadMinMax pg (e_fs e);
    '(result, _) ← minmax_append result sub_results;
    Ok result) pages (StrippedMap.make 1000);
  Ok (result, s).

(** ** New pages *)

(** The page is what [callback] is called with. *)
Definition append_async (file_prefix : string) (ma : list Meas) (s : t) (e : env)
  : outcome (Page.t * t * env) :=
  let e := if path_exists (p_raw_path st) (e_fs e) then e
           else set_fs (mkdir (p_raw_path st) (e_fs e)) e in
  let page_name := file_prefix +:+ PAGE_FILE_EXT in
  let file_name := full page_name in
  '(res, f) ← Page.create crc32 file_name MIN_LEVEL (last_id s) (chunk_size st) ma (e_fs e);
  m ← Manifest.page_append page_name (e_manifest e);
  let s := set_last_id (pf_max_chunk_id (Page.footer res)) s in
  index_footer ← PageIndex.readIndexFooter (PageIndex.index_name_from_page_name file_name) f;
  Ok (res, insert_pagedescr page_name index_footer s, set_manifest m (set_fs f e)).

(** One page of [appendChunks]. *)
Definition write_page (a : list Chunk.t) (s : t) (e : env) : outcome (t * env) :=
  let '(page_name, e) := next_file_name ".page" e in
  let file_name := full page_name in
  '(res, _, f) ← Page.create_chunks crc32 file_name MIN_LEVEL (last_id s) a (length a) (e_fs e);
  m ← Manifest.page_append page_name (e_manifest e);
  let s := set_last_id (pf_max_chunk_id (Page.footer res)) s in
  ih ← PageIndex.readIndexFooter (PageIndex.index_name_from_page_name file_name) f;
  Ok (insert_pagedescr page_name ih s, set_manifest m (set_fs f e)).

(** With no chunks per page the loop makes empty pages for ever. *)
Fixpoint append_loop (fuel : nat) (left : list Chunk.t) (s : t) (e : env) : outcome (t * env) :=
  match left with
  | [] => Ok (s, e)
  | _ =>
    match fuel with
    | O => Diverge
    | S fuel =>
      let max_chunks := s64 (max_chunks_per_page st) in
      let to_write := if max_chunks <? Z.of_nat (length left) then max_chunks
                      else Z.of_nat (length left) in
      if to_write <? 0 then UB
      else
        '(s, e) ← write_page (take (Z.to_nat to_write) left) s e;
        append_loop fuel (drop (Z.to_nat to_write) left) s e
    end
  end.

Definition appendChunks (a : list Chunk.t) (s : t) (e : env) : outcome (t * env) :=
  append_loop (length a) a s e.

(** ** Erasing *)

Definition erase (storage_path fname : string) (f : fs) : fs :=
  let full_file_name := append_path storage_path fname in
  rm (PageIndex.index_name_from_page_name full_file_name) (rm full_file_name f).

Fixpoint drop_descr (fname : string) (m : File2PageFooter) : option File2PageFooter :=
  match m with
  | [] => None
  | d :: m =>
    if bool_decide (path d.2 = fname) then Some m
    else m' ← drop_descr fname m; Some (d :: m')
  end.

(** The first entry that has the page, in the order of the map. *)
Fixpoint drop_page (fname : string) (l : list (Z * File2PageFooter)) (m : gmap Z File2PageFooter)
  : gmap Z File2PageFooter :=
  match l with
  | [] => m
  | kv :: l =>
    match drop_descr fname kv.2 with
    | Some v => <[kv.1 := v]> m
    | None => drop_page fname l m
    end
  end.

Definition erase_page (full_file_name : string) (s : t) (e : env) : outcome (t * env) :=
  let fname := extract_filename full_file_name in
  m ← Manifest.page_rm fname (e_manifest e);
  let s := set_f2f (drop_page fname (um_list (_file2footer s)) (_file2footer s)) s in
  let f := rm (PageIndex.index_name_from_page_name full_file_name) (rm full_file_name (e_fs e)) in
  Ok (s, set_manifest m (set_fs f e)).

Definition erase_pages (l : list string) (s : t) (e : env) : outcome (t * env) :=
  foldM (fun x p => erase_page p x.1 x.2) l (s, e).

Definition pagesOlderThan (i tm : Z) (s : t) : list string * t :=
  pages_by_filter [i] (fun h => (Stat.maxTime (if_stat h) <=? tm) && (if_target_id h =? i)) s.

Definition eraseOld (i tm : Z) (s : t) (e : env) : outcome (t * env) :=
  let '(page_list, s) := pagesOlderThan i tm s in
  erase_pages page_list s e.

(** ** Checking *)

(** The statement of [fsck] that makes the index usable. *)
Definition fsck_index (n : string) (f : fs) : outcome fs :=
  let index_file_path := full (PageIndex.index_name_from_page_name n) in
  if negb (path_exists index_file_path f) then Page.restoreIndexFile (full n) f
  else
    ifooter ← PageIndex.readIndexFooter index_file_path f;
    if negb (IndexFooter_check ifooter) then Page.restoreIndexFile (full n) (rm index_file_path f)
    else Ok f.

(** An exception in the block makes the page erased, with its index. *)
Definition fsck_page (x : t * env) (n : string) : outcome (t * env) :=
  let '(s, e) := x in
  let file_name := full n in
  let block :=
    f ← fsck_index n (e_fs e);
    p ← Page.open file_name f;
    ok ← Page.checksum crc32 p f;
    if negb ok || negb (PageFooter_check (Page.footer p)) then erase_page file_name s (set_fs f e)
    else Ok (s, set_fs f e) in
  match block with
  | Throw => erase_page file_name s e
  | r => r
  end.

Definition fsck (s : t) (e : env) : outcome (t * env) :=
  if negb (path_exists (p_raw_path st) (e_fs e)) then Ok (s, e)
  else
    pages ← Manifest.page_list (e_manifest e);
    '(s, e) ← foldM fsck_page pages (s, e);
    s ← reloadIndexFooters s e;
    Ok (s, e).

(** ** Repacking *)

(** What follows [repackTo] in [repack] and [compact]. *)
Definition replace_pages (page_name : string) (part : list string) (res : option Page.t) (s : t) (e : env)
  : outcome (t * env) :=
  let s := match res with Some p => set_last_id (pf_max_chunk_id (Page.footer p)) s | None => s end in
  '(s, e) ← erase_pages part s e;
  match res with
  | None => Ok (s, e)
  | Some _ =>
    ih ← PageIndex.readIndexFooter (PageIndex.index_name_from_page_name (full page_name)) (e_fs e);
    Ok (insert_pagedescr page_name ih s, e)
  end.

(** [repack(out_lvl, part)]; [now] is the current time. *)
Definition repack_part (now out_lvl : Z) (part : list string) (s : t) (e : env) : outcome (t * env) :=
  let '(page_name, e) := next_file_name ".page" e in
  '(res, f) ← Page.repackTo crc32 (full page_name) out_lvl (last_id s) (chunk_size st) part None now (e_fs e);
  m ← Manifest.page_append page_name (e_manifest e);
  replace_pages page_name part res s (set_manifest m (set_fs f e)).

(** The loop over the pages of one level. *)
Fixpoint repack_level (fuel : nat) (now level : Z) (page_list : list string) (s : t) (e : env)
  : outcome (t * env) :=
  let max_files_per_level := max_pages_in_level st in
  if Z.of_nat (length page_list) <? max_files_per_level then Ok (s, e)
  else
    match fuel with
    | O => Diverge
    | S fuel =>
      let part := take (Z.to_nat max_files_per_level) page_list in
      let page_list := drop (Z.to_nat max_files_per_level) page_list in
      if (length part <? 2)%nat then Ok (s, e)
      else
        '(s, e) ← repack_part now (level + 1) part s e;
        repack_level fuel now level page_list s e
    end.

Definition repack_at (now i : Z) (x : t * env) (level : Z) : outcome (t * env) :=
  let '(page_list, s) := pages_by_filter [i]
    (fun h => (if_target_id h =? i) && (if_level h =? level)) x.1 in
  repack_level (S (length page_list)) now level page_list s x.2.

Definition repack (now i : Z) (s : t) (e : env) : outcome (t * env) :=
  foldM (repack_at now i) (seqZ MIN_LEVEL (MAX_LEVEL - MIN_LEVEL)) (s, e).

(** Pages that are too old are erased, the others kept. *)
Definition compact_old (now : Z) (logic : CompactionController) (x : list string * t * env) (p : string)
  : outcome (list string * t * env) :=
  let '(page_list, s, e) := x in
  ftr ← Page.readFooter p (e_fs e);
  if eraseOlderThan logic <=? u64 (now - Stat.maxTime (pf_stat ftr)) then
    '(s, e) ← erase_page p s e; Ok (page_list, s, e)
  else Ok (page_list ++ [p], s, e).

(** [now] and [now'] are the current time here and in [repackTo].  The page is not
    put into the manifest. *)
Definition compact (now now' : Z) (logic : CompactionController) (s : t) (e : env) : outcome (t * env) :=
  let from := cc_from logic in
  let to := cc_to logic in
  let '(page_list_in_period, s) := pages_by_filter [targetId logic] (fun h =>
    (if_target_id h =? targetId logic) &&
    (inInterval from to (Stat.minTime (if_stat h)) || inInterval from to (Stat.maxTime (if_stat h)) ||
     inInterval (Stat.minTime (if_stat h)) (Stat.maxTime (if_stat h)) from ||
     inInterval (Stat.minTime (if_stat h)) (Stat.maxTime (if_stat h)) to)) s in
  match page_list_in_period with
  | [] => Ok (s, e)
  | _ =>
    '(page_list, s, e) ← foldM (compact_old now logic) page_list_in_period ([], s, e);
    level ← foldM (fun level p => ftr ← Page.readFooter p (e_fs e); Ok (Z.max (pf_level ftr) level)) page_list 0;
    let '(page_name, e) := next_file_name ".page" e in
    '(res, f) ← Page.repackTo crc32 (full page_name) level (last_id s) (chunk_size st) page_list
      (Some logic) now' (e_fs e);
    replace_pages page_name page_list res s (set_fs f e)
  end.

End Manager.
End PageManager.

#[export] Instance PageManager_IChunkStorage `{BtreeMultimap} `{Paths} `{FileNames} (st : PageSettings)
    (crc32 : list Z → Z) : IChunkStorage (PageManager.t * env) := {
  cs_appendChunks a d := PageManager.appendChunks st crc32 a d.1 d.2;
}.
