(* ===== verification/PageManagerSpec.v ===== *)
(** * Pages: the manager, its contents and its queries

    A manager is described by the pages of each series in the order of time
    ([series_at]).  Every operation that adds, finds or erases pages is shown to
    do so on this description, and a query is answered with exactly what the
    pages hold. *)

From Stdlib Require Import ZArith Lia String Sorting.Sorted.
From stdpp Require Import base numbers list gmap strings.
From S2P Require Import Prelude ByteBuffer Float64 Meas Bloom Stat Delta Xor Compression StdSort ICursor FullCursor Chunk KMerge Cursors Colapse.
From S2P Require Import StripedMap StdMap TimeTrack TimeTrackSpec Series Storages Files PageFormat PageIndex Page PageSpec PageWrite PageManager.

Local Open Scope Z_scope.

(** ** Descriptions *)

Abbreviation page_data := (PageFooterDescription * list (entry * list Meas))%type.

(** What the page holds. *)
Definition contents (x : page_data) : list Meas := concat x.2.*2.
Definition series_of (ps : list page_data) : list Meas := concat (contents <$> ps).
Definition first_time (x : page_data) : Z := minTime (if_stat (hdr x.1)).

Section Spec.
Context `{BtreeMultimap} `{Paths} `{FileNames} `{StdSort} `{UnorderedMap}.
Variable st : PageSettings.

Record page_of (f : fs) (i : Z) (x : page_data) : Prop := {
  po_page : ∃ p, Page.open (PageManager.full st (path x.1)) f = Ok p ∧
    PageIndex.iheader (Page._index p) = hdr x.1 ∧ page_series f p i x.2;
  po_target : if_target_id (hdr x.1) = i;
  po_min : first_time x = tfirst (contents x);
  po_max : maxTime (if_stat (hdr x.1)) = tlast (contents x);
  po_flags : Forall (fun m => bloom_check (flag_bloom (if_stat (hdr x.1))) (flag m) = true) (contents x);
  po_ne : contents x ≠ [];
}.

Definition descrs (s : PageManager.t) (i : Z) : list PageFooterDescription :=
  snd <$> default [] (PageManager._file2footer s !! i).

Record series_at (f : fs) (s : PageManager.t) (i : Z) (ps : list page_data) : Prop := {
  sa_descrs : descrs s i ≡ₚ ps.*1;
  sa_pages : Forall (page_of f i) ps;
  sa_strict : strictly_by time (series_of ps);
}.

(** Asking for the pages of an identifier makes an entry for it, nothing else. *)
Definition same (s s' : PageManager.t) : Prop :=
  PageManager.last_id s' = PageManager.last_id s ∧ ∀ i, descrs s' i = descrs s i.

#[export] Instance same_equivalence : Equivalence same.
Proof.
  split; [by intros s|by intros s s' [? ?]|].
  intros s1 s2 s3 [E1 D1] [E2 D2]. split; [congruence|]. intros i. by rewrite D2.
Qed.

#[export] Instance series_at_proper f : Proper (same ==> eq ==> eq ==> iff) (series_at f).
Proof.
  enough (Hg : ∀ s s' i ps, same s s' → series_at f s i ps → series_at f s' i ps).
  { intros s s' Hs i ? <- ps ? <-. split; apply Hg; [done|by symmetry]. }
  intros s s' i ps [_ Hd] [A1 A2 A3]. split; [by rewrite Hd|done|done].
Qed.

(** ** Finding pages *)

Lemma footers_of_ok i s : let '(m, s') := PageManager.footers_of i s in snd <$> m = descrs s i ∧ same s s'.
Proof.
  unfold PageManager.footers_of, descrs. destruct (PageManager._file2footer s !! i) as [m|] eqn:E.
  { by split. }
  split; [done|]. split; [done|]. intros j. unfold descrs. cbn. destruct (decide (j = i)) as [->|Hj].
  - by rewrite lookup_insert_eq, E.
  - by rewrite lookup_insert_ne.
Qed.

Lemma add_pages_ok pred ids acc s :
  let '(l, s') := fold_left (PageManager.add_pages pred) ids (acc, s) in
  l = acc ++ concat ((fun i => base.filter (fun d => pred (hdr d) = true) (descrs s i)) <$> ids) ∧ same s s'.
Proof.
  revert acc s. induction ids as [|i ids IH]; intros acc s; [by rewrite app_nil_r|].
  cbn [fold_left]. unfold PageManager.add_pages at 2. cbn [fst snd].
  pose proof (footers_of_ok i s) as Hf. destruct (PageManager.footers_of i s) as [m s1]. destruct Hf as [Em Hs].
  specialize (IH (acc ++ base.filter (fun d => pred (hdr d) = true) (snd <$> m)) s1).
  destruct (fold_left _ _ _) as [l s2]. destruct IH as [-> Hs2]. split; [|by etransitivity].
  rewrite Em, fmap_cons. cbn [concat]. rewrite <- app_assoc. do 3 f_equal.
  apply list_fmap_ext. intros k j Hj. by destruct Hs as [_ ->].
Qed.

(** The pages of the series that are asked for, in the order of their first times. *)
Record selected (ids : list Z) (pred : IndexFooter → bool) (data : Z → list page_data)
    (sel : list page_data) : Prop := {
  sl_perm : sel ≡ₚ concat ((fun i => base.filter (fun x => pred (hdr x.1) = true) (data i)) <$> ids);
  sl_sorted : sorted_by first_time sel;
}.

Lemma filter_fst (P : PageFooterDescription → Prop) `{!∀ d, Decision (P d)} (ps : list page_data) :
  base.filter P ps.*1 = (base.filter (fun x => P x.1) ps).*1.
Proof.
  induction ps as [|x ps IH]; [done|]. rewrite fmap_cons, !filter_cons.
  destruct (decide (P x.1)); [by rewrite fmap_cons, IH|done].
Qed.

Lemma sorted_fmap {A B} (g : A → B) (key : B → Z) l : sorted_by key (g <$> l) → sorted_by (fun x => key (g x)) l.
Proof.
  unfold sorted_by. induction l as [|x l IH]; intros Hs; [constructor|].
  rewrite fmap_cons in Hs. apply StronglySorted_inv in Hs as [Hs Hx]. constructor; [by apply IH|].
  by rewrite Forall_fmap in Hx.
Qed.

Lemma pages_by_filter_ok f ids pred s data :
  (∀ i, i ∈ ids → series_at f s i (data i)) →
  let '(names, s') := PageManager.pages_by_filter st ids pred s in
  same s s' ∧ ∃ sel, selected ids pred data sel ∧
    names = (fun x => PageManager.full st (path x.1)) <$> sel.
Proof.
  intros Hd. unfold PageManager.pages_by_filter. pose proof (add_pages_ok pred ids [] s) as Ha.
  destruct (fold_left _ _ _) as [l s']. destruct Ha as [El Hs]. split; [done|]. cbn [app] in El.
  set (all := concat ((fun i => base.filter (fun x => pred (hdr x.1) = true) (data i)) <$> ids)).
  assert (Hp : l ≡ₚ all.*1).
  { rewrite El. unfold all. clear -Hd. induction ids as [|i ids IH]; [done|].
    rewrite !fmap_cons. cbn [concat]. rewrite fmap_app, <- IH by (intros; apply Hd; by right). f_equiv.
    rewrite (sa_descrs _ _ _ _ (Hd i ltac:(by left))).
    by rewrite (filter_fst (fun d => pred (hdr d) = true)). }
  assert (Hsp : std_sort (fun d => minTime (if_stat (hdr d))) l ≡ₚ all.*1) by (etransitivity; [apply std_sort_perm|done]).
  apply Permutation_map_inv in Hsp as (sel & Esel & Hsel).
  exists sel. rewrite Esel. split; [split|].
  - by symmetry.
  - apply (sorted_fmap fst (fun d => minTime (if_stat (hdr d)))). change (fst <$> sel) with (map fst sel).
    rewrite <- Esel. apply std_sort_sorted.
  - change (map fst sel) with (fst <$> sel). by rewrite <- list_fmap_compose.
Qed.

Lemma series_sub (P : page_data → Prop) `{!∀ x, Decision (P x)} ps :
  series_of (base.filter P ps) `sublist_of` series_of ps.
Proof.
  unfold series_of. induction ps as [|x ps IH]; [done|]. rewrite filter_cons.
  case_decide; rewrite !fmap_cons; cbn [concat]; [by apply sublist_app|by apply sublist_inserts_l].
Qed.

Lemma first_times_strict f i ps :
  Forall (page_of f i) ps → strictly_by time (series_of ps) → strictly_by first_time ps.
Proof.
  intros Hp Hs. destruct (parts_times (contents <$> ps)) as [Hf _]; [|done|].
  { apply Forall_fmap. eapply Forall_impl; [exact Hp|]. by intros x []. }
  clear Hs. unfold strictly_by in *. induction Hp as [|x ps Hx Hp IH]; [constructor|].
  rewrite fmap_cons in Hf. apply StronglySorted_inv in Hf as [Hf Ha]. constructor; [by apply IH|].
  rewrite Forall_fmap in Ha. rewrite Forall_forall in *. intros y Hy. specialize (Ha y Hy). cbn in Ha.
  by rewrite (po_min _ _ _ Hx), (po_min _ _ _ (Hp y Hy)).
Qed.

Lemma filter_series (pred : IndexFooter → bool) (data : Z → list page_data) i ids :
  NoDup ids → (∀ j, j ∈ ids → Forall (fun x => if_target_id (hdr x.1) = j) (data j)) →
  base.filter (fun x : page_data => if_target_id (hdr x.1) = i)
    (concat ((fun j => base.filter (fun x => pred (hdr x.1) = true) (data j)) <$> ids)) =
  if decide (i ∈ ids) then base.filter (fun x => pred (hdr x.1) = true) (data i) else [].
Proof.
  induction 1 as [|j ids Hj Hnd IH]; intros Ht; [done|].
  rewrite fmap_cons. cbn [concat]. rewrite filter_app, IH by (intros; apply Ht; by right).
  pose proof (Ht j ltac:(by left)) as Hjt.
  assert (Hall : ∀ x, x ∈ base.filter (fun x => pred (hdr x.1) = true) (data j) → if_target_id (hdr x.1) = j).
  { intros x [_ Hx]%list_elem_of_filter. rewrite Forall_forall in Hjt. by apply Hjt. }
  destruct (decide (i = j)) as [->|Hij].
  - rewrite (decide_False (P := j ∈ ids)), (decide_True (P := j ∈ j :: ids)) by (done || by left). rewrite app_nil_r.
    apply filter_id, Forall_forall, Hall.
  - rewrite filter_none; [|apply Forall_forall; intros x Hx; specialize (Hall x Hx); congruence].
    cbn [app]. apply decide_ext. rewrite elem_of_cons. naive_solver.
Qed.

Lemma selected_of f ids pred data sel i :
  selected ids pred data sel → NoDup ids → (∀ j, j ∈ ids → Forall (page_of f j) (data j)) →
  (∀ j, j ∈ ids → strictly_by time (series_of (data j))) →
  base.filter (fun x => if_target_id (hdr x.1) = i) sel =
  if decide (i ∈ ids) then base.filter (fun x => pred (hdr x.1) = true) (data i) else [].
Proof.
  intros [Hp Hs] Hnd Hpg Hst. rewrite <- (filter_series pred data i ids Hnd).
  2: { intros j Hj. eapply Forall_impl; [by apply Hpg|]. by intros x []. }
  symmetry. apply (sorted_by_unique first_time).
  - rewrite filter_series; [|done|intros j Hj; eapply Forall_impl; [by apply Hpg|]; by intros x []].
    case_decide as Hi; [|constructor]. apply strictly_by_NoDup, (StronglySorted_sublist _ _ (data i)).
    + apply sublist_filter.
    + eapply first_times_strict; [by apply Hpg|by apply Hst].
  - rewrite filter_series; [|done|intros j Hj; eapply Forall_impl; [by apply Hpg|]; by intros x []].
    case_decide as Hi; [|constructor]. apply strictly_by_sorted, (StronglySorted_sublist _ _ (data i)).
    + apply sublist_filter.
    + eapply first_times_strict; [by apply Hpg|by apply Hst].
  - eapply StronglySorted_sublist; [apply sublist_filter|exact Hs].
  - by rewrite Hp.
Qed.

(** ** Interval queries *)

(** What the cursor of the page delivers, and those of the pages of one series. *)
Definition piece (q : QueryInterval) (x : page_data) : list Meas := concat (picked q x.2).*2.
Definition pieces (q : QueryInterval) (i : Z) (sel : list page_data) : list (list Meas) :=
  base.filter (fun l => l ≠ []) (piece q <$> base.filter (fun x => if_target_id (hdr x.1) = i) sel).

Definition collected (q : QueryInterval) (pre : list page_data) (r : gmap Z (list (cursor Chunk.cursor))) : Prop :=
  ∀ i, match r !! i with
       | None => pieces q i pre = []
       | Some cs => cs ≠ [] ∧ Forall2 flat cs (pieces q i pre)
       end.

Lemma pieces_snoc q i pre x :
  pieces q i (pre ++ [x]) =
  pieces q i pre ++ (if decide (if_target_id (hdr x.1) = i) then base.filter (fun l => l ≠ []) [piece q x] else []).
Proof.
  unfold pieces. rewrite filter_app, fmap_app, filter_app. f_equal.
  rewrite (filter_cons _ x). by case_decide.
Qed.

Lemma collected_push q pre x i r c :
  collected q pre r → if_target_id (hdr x.1) = i → flat c (piece q x) → piece q x ≠ [] →
  collected q (pre ++ [x]) (PageManager.push_cursor r (i, c)).
Proof.
  intros Hr Hx Hc Hn j. unfold PageManager.push_cursor. cbn [fst snd]. rewrite pieces_snoc, Hx.
  specialize (Hr j). destruct (decide (i = j)) as [->|Hj].
  - rewrite lookup_insert_eq, filter_cons_True by done. split; [by destruct (um_at _ _ _)|].
    unfold um_at. destruct (r !! j) as [cs|]; cbn [default].
    + destruct Hr as [_ Hr]. apply Forall2_app; [done|]. constructor; [done|constructor].
    + rewrite Hr. constructor; [done|constructor].
  - rewrite lookup_insert_ne by done. by rewrite app_nil_r.
Qed.

Lemma collected_skip q pre x r :
  collected q pre r → piece q x = [] → collected q (pre ++ [x]) r.
Proof.
  intros Hr Hx j. rewrite pieces_snoc, Hx. specialize (Hr j).
  case_decide; [rewrite filter_cons_False by (by intros [])|]; by rewrite ?filter_nil, app_nil_r.
Qed.

Lemma callback_loop f q pre sel r :
  Forall (fun x => page_of f (if_target_id (hdr x.1)) x) sel → collected q pre r →
  ∃ r', foldM (fun result pname =>
      p ← Page.open pname f;
      sub_result ← Page.intervalReader q p f;
      Ok (fold_left PageManager.push_cursor (um_list sub_result) result))
    ((fun x => PageManager.full st (path x.1)) <$> sel) r = Ok r' ∧ collected q (pre ++ sel) r'.
Proof.
  intros Hs. revert pre r. induction Hs as [|x sel Hx _ IH]; intros pre r Hr.
  { exists r. by rewrite app_nil_r. }
  rewrite fmap_cons. cbn [foldM]. destruct (po_page _ _ _ Hx) as (p & -> & _ & Hp). rewrite bind_Ok.
  destruct (page_intervalReader f p _ x.2 q Hp) as (sub & -> & Hsub). rewrite !bind_Ok.
  rewrite (app_assoc pre [x] sel : pre ++ x :: sel = _). apply IH.
  destruct (picked q x.2) as [|el els] eqn:Ep.
  - subst sub. rewrite um_empty. apply collected_skip; [done|]. unfold piece. by rewrite Ep.
  - destruct Hsub as (c & -> & Hc). rewrite um_singleton. cbn [fold_left].
    apply collected_push; [done|done|unfold piece; by rewrite Ep|]. unfold piece. rewrite Ep.
    assert (Hel : readable (entry_chunk el.1) el.2).
    { pose proof (ps_readable _ _ _ _ Hp) as Hrd. rewrite Forall_forall in Hrd. apply Hrd.
      assert (Hin : el ∈ picked q x.2) by (rewrite Ep; left). by apply list_elem_of_filter in Hin as [_ ?]. }
    apply readable_facts in Hel as (_ & _ & _ & _ & _ & _ & Hn). rewrite fmap_cons. cbn [concat].
    by destruct el.2.
Qed.

(** A page that is left out has nothing for the query. *)
Lemma page_skipped f q i x :
  page_of f i x → i ∈ qi_ids q → flags_exact q (contents x) →
  PageManager.in_query_page q (hdr x.1) = false → base.filter (in_query q) (contents x) = [].
Proof.
  intros Hx Hi Hfl Hq. apply filter_none, Forall_forall. intros m Hm Hin.
  unfold PageManager.in_query_page in Hq. apply andb_false_iff in Hq as [Hq|Hq].
  - destruct (po_page _ _ _ Hx) as (p & _ & _ & Hp).
    pose proof (strict_bounds _ _ (ps_strict _ _ _ _ Hp) Hm) as Hb. fold (contents x) in Hb.
    apply andb_true_iff in Hin as [_ [Ht1%Z.leb_le Ht2%Z.leb_le]%andb_true_iff]. revert Hq. unfold PageManager.interval_check, inInterval.
    change (minTime (if_stat (hdr x.1))) with (first_time x). rewrite (po_min _ _ _ Hx), (po_max _ _ _ Hx).
    rewrite !orb_false_iff, !andb_false_iff, !Z.leb_gt. lia.
  - apply not_true_iff_false in Hq. apply Hq, existsb_exists. exists i.
    split; [by apply list_elem_of_In|]. rewrite (po_target _ _ _ Hx), Z.eqb_refl. cbn [andb].
    unfold flags_exact in Hfl. rewrite Forall_forall in Hfl.
    destruct (Hfl m Hm Hin) as [->|<-]; [done|]. apply orb_true_iff. right.
    pose proof (po_flags _ _ _ Hx) as Hf. rewrite Forall_forall in Hf. by apply Hf.
Qed.

Lemma pieces_answers f q i ps :
  Forall (page_of f i) ps → flags_exact q (series_of ps) → i ∈ qi_ids q →
  base.filter (in_query q) (concat (pieces q i (base.filter (fun x => PageManager.in_query_page q (hdr x.1) = true) ps))) =
  base.filter (in_query q) (series_of ps).
Proof.
  intros Hp Hfl Hi. unfold pieces, series_of in *.
  assert (Hc : ∀ ls : list (list Meas), concat (base.filter (fun l => l ≠ []) ls) = concat ls).
  { induction ls as [|l ls IH]; [done|]. rewrite filter_cons. destruct l; cbn [decide]; [by rewrite decide_False by (by intros [])|].
    rewrite decide_True by done. cbn [concat]. by rewrite IH. }
  rewrite Hc. clear Hc. induction Hp as [|x ps Hx _ IH]; [done|].
  rewrite fmap_cons in *. cbn [concat] in *. apply Forall_app in Hfl as [Hf1 Hfl].
  rewrite filter_cons, filter_app. destruct (decide (PageManager.in_query_page q (hdr x.1) = true)) as [Hq|Hq].
  - rewrite filter_cons_True by apply Hx. rewrite fmap_cons. cbn [concat]. rewrite filter_app, IH by done.
    f_equal. destruct (po_page _ _ _ Hx) as (p & _ & _ & Hpp). apply picked_answers; [apply Hpp|done].
  - rewrite IH by done. by rewrite (page_skipped f q i x Hx Hi Hf1) by by apply not_true_is_false.
Qed.

(** The answer to an interval query: for each identifier a cursor whose
    measurements are in ascending order and, as far as they are in the query,
    exactly those of the series. *)
Definition answers (q : QueryInterval) (data : Z → list page_data) (r : gmap Z (cursor Chunk.cursor)) : Prop :=
  ∀ i, match r !! i with
       | Some c => i ∈ qi_ids q ∧ ∃ l, flat c l ∧ l `sublist_of` series_of (data i) ∧ l ≠ [] ∧
                     base.filter (in_query q) l = base.filter (in_query q) (series_of (data i))
       | None => i ∈ qi_ids q → base.filter (in_query q) (series_of (data i)) = []
       end.

Lemma pieces_sub q i ps : concat (pieces q i ps) `sublist_of` series_of ps.
Proof.
  unfold pieces, series_of. etransitivity; [apply sublist_concat, sublist_filter|].
  induction ps as [|x ps IH]; [done|]. rewrite filter_cons. rewrite fmap_cons. cbn [concat].
  case_decide; [|by apply sublist_inserts_l]. rewrite fmap_cons. cbn [concat].
  apply sublist_app; [apply concat_sub|done].
Qed.

Lemma pieces_selected f q data sel i :
  selected (qi_ids q) (PageManager.in_query_page q) data sel → NoDup (qi_ids q) →
  (∀ j, j ∈ qi_ids q → Forall (page_of f j) (data j)) →
  (∀ j, j ∈ qi_ids q → strictly_by time (series_of (data j))) →
  pieces q i sel =
  if decide (i ∈ qi_ids q)
  then pieces q i (base.filter (fun x => PageManager.in_query_page q (hdr x.1) = true) (data i)) else [].
Proof.
  intros Hs Hnd Hp Hst. unfold pieces at 1. rewrite (selected_of f _ _ _ _ i Hs Hnd Hp Hst).
  case_decide as Hi; [|done]. unfold pieces. do 2 f_equal. symmetry. apply filter_id, Forall_forall.
  intros x [_ Hx]%list_elem_of_filter. specialize (Hp i Hi). rewrite Forall_forall in Hp. by apply Hp.
Qed.

Lemma series_times f i ps : Forall (page_of f i) ps →
  Forall (fun m => MIN_TIME <= time m <= MAX_TIME) (series_of ps).
Proof.
  intros Hp. apply Forall_concat, Forall_fmap. eapply Forall_impl; [exact Hp|]. intros x Hx.
  destruct (po_page _ _ _ Hx) as (p & _ & _ & Hpp). apply readable_times, Hpp.
Qed.

Lemma page_of_target f i x : page_of f i x → page_of f (if_target_id (hdr x.1)) x.
Proof. intros Hx. by rewrite (po_target _ _ _ Hx). Qed.

Lemma selected_pages f ids pred data sel :
  selected ids pred data sel → (∀ j, j ∈ ids → Forall (page_of f j) (data j)) →
  Forall (fun x => page_of f (if_target_id (hdr x.1)) x) sel.
Proof.
  intros [Hp _] Hd. rewrite Hp. apply Forall_concat, Forall_fmap, Forall_forall. intros j Hj.
  apply Forall_forall. intros x [_ Hx]%list_elem_of_filter. specialize (Hd j Hj).
  rewrite Forall_forall in Hd. by eapply page_of_target, Hd.
Qed.

(** The cursors of the pages of one series, collapsed. *)
Lemma colapse_series f q i ps cs :
  Forall (page_of f i) ps → strictly_by time (series_of ps) → Z.of_nat (length (series_of ps)) < 2 ^ 64 →
  flags_exact q (series_of ps) → i ∈ qi_ids q → cs ≠ [] →
  Forall2 flat cs (pieces q i (base.filter (fun x => PageManager.in_query_page q (hdr x.1) = true) ps)) →
  ∃ c l, match cs with [r] => Ok r | rs => colapseCursors rs end = Ok c ∧ flat c l ∧
    l `sublist_of` series_of ps ∧ l ≠ [] ∧ base.filter (in_query q) l = base.filter (in_query q) (series_of ps).
Proof.
  intros Hp Hs Hl Hfl Hi Hne Hcs. set (ps' := base.filter _ ps) in Hcs.
  assert (Hsub : concat (pieces q i ps') `sublist_of` series_of ps)
    by (etransitivity; [apply pieces_sub|apply series_sub]).
  assert (Hnl : Forall (fun l => l ≠ []) (pieces q i ps')).
  { apply Forall_forall. by intros l [Hl' _]%list_elem_of_filter. }
  destruct (colapse_flat cs (pieces q i ps') (pieces q i ps')) as (c & Ec & Hc); try done.
  - eapply StronglySorted_sublist; [exact Hsub|done].
  - eapply Forall_sublist_of; [exact Hsub|by eapply series_times].
  - apply sublist_length in Hsub. lia.
  - exists c, (concat (pieces q i ps')). split; [done|]. split_and!; [done..| |].
    + destruct Hcs as [|? l ? ls _ _]; [done|]. apply Forall_cons_1 in Hnl as [Hnl _]. by destruct l.
    + by apply (pieces_answers f).
Qed.

Lemma manager_intervalReader_ok q s e data :
  NoDup (qi_ids q) → (∀ i, i ∈ qi_ids q → series_at (e_fs e) s i (data i)) →
  (∀ i, i ∈ qi_ids q → flags_exact q (series_of (data i)) ∧ Z.of_nat (length (series_of (data i))) < 2 ^ 64) →
  ∃ r s', PageManager.intervalReader st q s e = Ok (r, s') ∧ same s s' ∧ answers q data r.
Proof.
  intros Hnd Hd Hq. set (f := e_fs e) in *.
  assert (Hp : ∀ j, j ∈ qi_ids q → Forall (page_of f j) (data j)) by (intros j Hj; apply (Hd j Hj)).
  assert (Hst : ∀ j, j ∈ qi_ids q → strictly_by time (series_of (data j))) by (intros j Hj; apply (Hd j Hj)).
  unfold PageManager.intervalReader, PageManager.callback_for_interval_readers.
  pose proof (pages_by_filter_ok f _ (PageManager.in_query_page q) s data Hd) as Hf.
  destruct (PageManager.pages_by_filter _ _ _ _) as [names s']. destruct Hf as (Hs & sel & Hsel & ->).
  destruct (callback_loop f q [] sel ∅) as (r & E & Hr).
  { by eapply selected_pages. }
  { intros i. by rewrite lookup_empty. }
  fold f. rewrite E, !bind_Ok. cbn [app] in Hr. clear E.
  destruct (colapse_gmap r (fun i c => i ∈ qi_ids q ∧ ∃ l, flat c l ∧ l `sublist_of` series_of (data i) ∧ l ≠ [] ∧
    base.filter (in_query q) l = base.filter (in_query q) (series_of (data i)))) as (r' & -> & Hr').
  { intros i cs Hkv. specialize (Hr i). rewrite Hkv in Hr. destruct Hr as [Hne Hfl].
    rewrite (pieces_selected f _ _ _ i Hsel Hnd Hp Hst) in Hfl. case_decide as Hi; [|by apply Forall2_nil_inv_r in Hfl].
    destruct (Hq i Hi) as [Hq1 Hq2].
    destruct (colapse_series f q i (data i) cs (Hp i Hi) (Hst i Hi) Hq2 Hq1 Hi Hne Hfl) as (c & l & Ec & Hl).
    exists c. split; [done|]. split; [done|]. by exists l. }
  rewrite bind_Ok. exists (list_to_map r'), s'. split; [done|]. split; [done|]. intros i.
  specialize (Hr' i). destruct (list_to_map r' !! i) as [c|]; [done|]. intros Hi.
  specialize (Hr i). rewrite Hr', (pieces_selected f _ _ _ i Hsel Hnd Hp Hst), decide_True in Hr by done.
  rewrite <- (pieces_answers f q i (data i)); [by rewrite Hr|by apply Hp|by apply Hq|done].
Qed.

Lemma manager_foreach q i s e ps (l0 : list Meas) :
  qi_ids q = [i] → series_at (e_fs e) s i ps → flags_exact q (series_of ps) →
  Z.of_nat (length (series_of ps)) < 2 ^ 64 →
  ∃ s', PageManager.foreach st q l0 s e = Ok (l0 ++ base.filter (in_query q) (series_of ps), s') ∧ same s s'.
Proof.
  intros Eq Hs Hfl Hl.
  destruct (manager_intervalReader_ok q s e (fun _ => ps)) as (r & s' & E & Hsame & Ha).
  - rewrite Eq. apply NoDup_singleton.
  - rewrite Eq. by intros j ->%list_elem_of_singleton.
  - by intros.
  - exists s'. split; [|done]. unfold PageManager.foreach. rewrite E, bind_Ok. unfold foreach_cursors.
    pose proof (Ha i) as Hi. destruct (r !! i) as [c|] eqn:Ei.
    + assert (r = {[i := c]}) as ->.
      { apply map_eq. intros j. destruct (decide (j = i)) as [->|Hj]; [by rewrite Ei, lookup_singleton_eq|].
        rewrite lookup_singleton_ne by done. specialize (Ha j). destruct (r !! j); [|done].
        destruct Ha as [Hin _]. rewrite Eq in Hin. by apply list_elem_of_singleton in Hin. }
      rewrite um_singleton. cbn [foldM fst snd]. destruct Hi as (_ & l & Hc & Hst & _ & <-).
      destruct (apply_query_all q l0 c l (flat_rep _ _ Hc (StronglySorted_sublist _ _ _ Hst (sa_strict _ _ _ _ Hs)))) as (c' & ->). rewrite !bind_Ok. by rewrite feed_collect.
    + assert (r = ∅) as ->.
      { apply map_eq. intros j. rewrite lookup_empty. destruct (decide (j = i)) as [->|Hj]; [done|].
        specialize (Ha j). destruct (r !! j); [|done].
        destruct Ha as [Hin _]. rewrite Eq in Hin. by apply list_elem_of_singleton in Hin. }
      rewrite um_empty. cbn. rewrite Hi by (rewrite Eq; by left). by rewrite app_nil_r.
Qed.

(** ** Files *)

Lemma open_same n f g : fs_files g !! n = fs_files f !! n →
  fs_files g !! Page.index_name n = fs_files f !! Page.index_name n → Page.open n g = Page.open n f.
Proof.
  intros E1 E2. unfold Page.open. rewrite (readFooter_same n f g E1).
  destruct (Page.readFooter n f); [|done..]. rewrite !bind_Ok. unfold Page.open_with, PageIndex.open, PageIndex.readIndexFooter, fopen_rb.
  change (PageIndex.index_name_from_page_name n) with (Page.index_name n). by rewrite E2.
Qed.

(** A page does not change while its two files do not. *)
Lemma page_of_same f g i x :
  fs_files g !! PageManager.full st (path x.1) = fs_files f !! PageManager.full st (path x.1) →
  fs_files g !! Page.index_name (PageManager.full st (path x.1)) = fs_files f !! Page.index_name (PageManager.full st (path x.1)) →
  page_of f i x → page_of g i x.
Proof.
  intros E1 E2 [(p & Eo & Eh & Hp) A2 A3 A4 A5 A6]. split; try done. exists p.
  rewrite (open_same _ f g E1 E2). split; [done|]. split; [done|].
  destruct (open_inv _ _ _ Eo) as (_ & En & Ei). destruct Hp as [(es & Hes & [B1 B2 B3 B4 B5]) C2 C3 C4].
  assert (Ex : PageIndex.filename (Page._index p) = Page.index_name (PageManager.full st (path x.1))).
  { unfold PageIndex.open in Ei. apply bind_Ok_inv in Ei as (h & _ & Ei). by injection Ei as <-. }
  split; [|done|done|done]. exists es. split; [done|]. split; [| |done|done|done].
  - by rewrite En in *; rewrite E1.
  - by rewrite Ex in *; rewrite E2.
Qed.

Lemma page_of_exists f i x : page_of f i x →
  is_Some (fs_files f !! PageManager.full st (path x.1)) ∧
  is_Some (fs_files f !! Page.index_name (PageManager.full st (path x.1))).
Proof.
  intros [(p & Eo & _ & Hp) _ _ _ _ _]. destruct (open_inv _ _ _ Eo) as (_ & En & Ei).
  unfold PageIndex.open in Ei. apply bind_Ok_inv in Ei as (h & _ & Ei). injection Ei as Ei.
  destruct (ps_page _ _ _ _ Hp) as (es & _ & [[? B1] [? B2] _ _ _]). rewrite En in B1. rewrite <- Ei in B2. cbn in B2.
  split; eauto.
Qed.

Lemma page_of_new f g n i x : fresh_page n f → fs_frame n f g → page_of f i x → page_of g i x.
Proof.
  intros [F1 F2 _ _] [G _ _] Hx. destruct (page_of_exists _ _ _ Hx) as [[b1 E1] [b2 E2]].
  apply (page_of_same f); [apply G..|done]; congruence.
Qed.
End Spec.
