(* ===== verification/PageManagerOps.v ===== *)
(** * Pages: what the operations of the manager do

    The manager as a finite map from identifiers to the pages of their series
    ([holds]): starting on files, adding pages, erasing, checking and repacking. *)

From Stdlib Require Import ZArith Lia String Ascii Sorting.Sorted.
From stdpp Require Import base numbers list gmap strings.
From S2P Require Import Prelude ByteBuffer Float64 Meas Bloom Stat Delta Xor Compression StdSort ICursor FullCursor Chunk KMerge Cursors Colapse.
From S2P Require Import StripedMap StdMap TimeTrack TimeTrackSpec Series Storages Files PageFormat PageIndex Page PageSpec PageWrite PageManager PageManagerSpec.

Local Open Scope Z_scope.

Definition pages_at (data : gmap Z (list page_data)) (i : Z) : list page_data := default [] (data !! i).

Definition page_name (x : page_data) : string := path x.1.

(** The names of all pages. *)
Definition page_names (data : gmap Z (list page_data)) : list string :=
  concat ((fun kv : Z * list page_data => page_name <$> kv.2) <$> map_to_list data).

Fixpoint last_char (s : string) : option ascii :=
  match s with
  | EmptyString => None
  | String c EmptyString => Some c
  | String _ s => last_char s
  end.

Lemma last_char_app a c b : last_char (a +:+ String c b) = last_char (String c b).
Proof.
  induction a as [|x a IH]; [done|]. change (last_char (String x (a +:+ String c b)) = last_char (String c b)).
  rewrite <- IH. by destruct a.
Qed.

Section Ops.
Context `{BtreeMultimap} `{Paths} `{FileNames} `{StdSort} `{UnorderedMap}.
Variable st : PageSettings.
Variable crc32 : list Z → Z.

Abbreviation full := (PageManager.full st).

Record holds (e : env) (s : PageManager.t) (data : gmap Z (list page_data)) : Prop := {
  ho_series : ∀ i, series_at st (e_fs e) s i (pages_at data i);
  ho_manifest : Manifest.pages (e_manifest e) ≡ₚ page_names data;
  ho_ok : Manifest.db_ok (e_manifest e) = true;
  ho_names : NoDup (page_names data);
  ho_plain : Forall (fun n => plain_name n = true) (page_names data);
  ho_ext : Forall (fun n => ∃ pre, n = pre +:+ PAGE_FILE_EXT) (page_names data);
}.

Lemma full_inj n n' : plain_name n = true → plain_name n' = true → full n = full n' → n = n'.
Proof.
  intros P1 P2 E. rewrite <- (extract_append (p_raw_path st) n P1), <- (extract_append (p_raw_path st) n' P2).
  unfold PageManager.full in E. by rewrite E.
Qed.

Lemma index_name_inj n n' : Page.index_name n = Page.index_name n' → n = n'.
Proof.
  unfold Page.index_name, PageIndex.index_name_from_page_name. revert n'.
  induction n as [|c n IH]; intros [|c' n'] E; [done|..].
  - injection E as _ E. by destruct n'.
  - injection E as _ E. by destruct n.
  - injection E as -> E. f_equal. by apply IH.
Qed.


Lemma full_index_apart n n' : plain_name n = true → plain_name n' = true →
  (∃ pre, n = pre +:+ PAGE_FILE_EXT) → full n ≠ Page.index_name (full n').
Proof.
  intros P1 P2 [pre ->] E. unfold Page.index_name, PageIndex.index_name_from_page_name, PageManager.full in E.
  rewrite <- append_longer in E by done. apply (f_equal extract_filename) in E.
  rewrite !extract_append in E by (done || by apply plain_name_app).
  apply (f_equal last_char) in E. unfold PAGE_FILE_EXT in E. by rewrite !last_char_app in E.
Qed.

(** ** The names *)

Lemma page_names_insert data i ps :
  page_names (<[i := ps]> data) ≡ₚ (page_name <$> ps) ++ page_names (delete i data).
Proof.
  unfold page_names. rewrite <- insert_delete_eq, map_to_list_insert by apply lookup_delete_eq.
  by rewrite fmap_cons.
Qed.

Lemma page_names_split data i : page_names data ≡ₚ (page_name <$> pages_at data i) ++ page_names (delete i data).
Proof.
  unfold pages_at. destruct (data !! i) as [ps|] eqn:E; cbn [default].
  - rewrite <- page_names_insert. by rewrite insert_id.
  - by rewrite delete_id.
Qed.

Lemma page_names_elem data i x : x ∈ pages_at data i → page_name x ∈ page_names data.
Proof. intros Hx. rewrite (page_names_split data i). apply elem_of_app. left. by apply list_elem_of_fmap_2. Qed.

Lemma page_names_inv data n : n ∈ page_names data → ∃ i x, x ∈ pages_at data i ∧ page_name x = n.
Proof.
  intros Hn. apply list_elem_of_In, in_concat in Hn as (l & Hl & Hn). apply list_elem_of_In in Hl, Hn.
  apply list_elem_of_fmap in Hl as ([i ps] & -> & Hi). apply elem_of_map_to_list in Hi. cbn in Hn.
  apply list_elem_of_fmap in Hn as (x & -> & Hx). exists i, x. unfold pages_at. by rewrite Hi.
Qed.

(** The page is in the files. *)
Lemma holds_files e s data n : holds e s data → n ∈ page_names data →
  is_Some (fs_files (e_fs e) !! full n) ∧ is_Some (fs_files (e_fs e) !! Page.index_name (full n)).
Proof.
  intros Hh Hn. destruct (page_names_inv _ _ Hn) as (i & x & Hx & <-).
  destruct (ho_series _ _ _ Hh i) as [_ Hp _]. rewrite Forall_forall in Hp.
  by eapply page_of_exists, Hp.
Qed.

(** ** Adding a page *)

Lemma insert_descrs n h s i :
  descrs (PageManager.insert_pagedescr n h s) i ≡ₚ
  (if decide (i = if_target_id h) then [mkPfd n h] else []) ++ descrs s i.
Proof.
  unfold PageManager.insert_pagedescr, descrs. cbn [PageManager.set_f2f PageManager._file2footer].
  case_decide as Hi; [subst i; rewrite lookup_insert_eq|by rewrite lookup_insert_ne by done].
  cbn [default]. change (Datatypes.id ?x) with x. rewrite mm_insert_perm. by rewrite fmap_cons.
Qed.

Lemma series_insert f s i ps x :
  series_at st f s i ps → page_of st f i x → strictly_by time (series_of (ps ++ [x])) →
  series_at st f (PageManager.insert_pagedescr (page_name x) (hdr x.1) s) i (ps ++ [x]).
Proof.
  intros [D P _] Hx Hs. split; [|apply Forall_app; split; [done|by apply Forall_singleton]|done].
  rewrite insert_descrs, decide_True by (symmetry; apply Hx). rewrite D, fmap_app. cbn [app].
  rewrite Permutation_cons_append. by destruct x as [[] ?].
Qed.

Lemma series_insert_ne f s i ps n h :
  i ≠ if_target_id h → series_at st f s i ps → series_at st f (PageManager.insert_pagedescr n h s) i ps.
Proof. intros Hi [D P S]. split; [|done..]. by rewrite insert_descrs, decide_False. Qed.

(** The names of the pages with one more. *)
Lemma page_names_add data i x :
  page_names (<[i := pages_at data i ++ [x]]> data) ≡ₚ page_name x :: page_names data.
Proof.
  rewrite page_names_insert, (page_names_split data i), fmap_app, <- app_assoc.
  symmetry. apply Permutation_middle.
Qed.

Lemma fresh_page_name e s data n : holds e s data → fresh_page (full n) (e_fs e) → n ∉ page_names data.
Proof.
  intros Hh [F _ _ _] Hn. destruct (holds_files _ _ _ _ Hh Hn) as [[b E] _]. congruence.
Qed.

Lemma holds_add e e' s data i x k :
  holds e s data → plain_name (page_name x) = true → (∃ pre, page_name x = pre +:+ PAGE_FILE_EXT) →
  fresh_page (full (page_name x)) (e_fs e) →
  fs_frame (full (page_name x)) (e_fs e) (e_fs e') → page_of st (e_fs e') i x →
  e_manifest e' = Manifest.set_pages (Manifest.pages (e_manifest e) ++ [page_name x]) (e_manifest e) →
  strictly_by time (series_of (pages_at data i ++ [x])) →
  holds e' (PageManager.insert_pagedescr (page_name x) (hdr x.1) (PageManager.set_last_id k s))
    (<[i := pages_at data i ++ [x]]> data).
Proof.
  intros Hh Hpl Hext Hf Hfr Hx Em Hs. pose proof (fresh_page_name _ _ _ _ Hh Hf) as Hnew.
  assert (Hser : ∀ j ps, series_at st (e_fs e) s j ps → series_at st (e_fs e') (PageManager.set_last_id k s) j ps).
  { intros j ps [D P S]. split; [done| |done]. eapply Forall_impl; [exact P|]. intros y. by eapply page_of_new. }
  split.
  - intros j. unfold pages_at at 1. destruct (decide (j = i)) as [->|Hj].
    + rewrite lookup_insert_eq. cbn [default]. apply series_insert; [apply Hser, Hh|done|done].
    + rewrite lookup_insert_ne by done. apply series_insert_ne; [by rewrite (po_target _ _ _ _ Hx)|]. apply Hser, Hh.
  - rewrite Em, page_names_add. cbn. rewrite (ho_manifest _ _ _ Hh). symmetry. apply Permutation_cons_append.
  - rewrite Em. apply Hh.
  - rewrite page_names_add. apply NoDup_cons. split; [done|apply Hh].
  - rewrite page_names_add. constructor; [done|apply Hh].
  - rewrite page_names_add. constructor; [done|apply Hh].
Qed.

(** The checksums of a page hold. *)
Definition checked (x : page_data) : Prop := Forall (fun e : entry => ChunkHeader.crc e.1 = crc32 e.2) x.2.*1.

Lemma created_page_of size i nm parts sm mx lvl f p f' es :
  created crc32 size i (full nm) parts sm mx lvl f p f' es →
  Forall (fun part => kept part = true) parts → Forall (fun m => id m = i) (concat parts) →
  strictly_by time (concat parts) → concat parts ≠ [] → covers sm (concat parts) →
  ∃ els, els.*2 = parts ∧ page_of st f' i (mkPfd nm (PageIndex.iheader (Page._index p)), els) ∧
    checked (mkPfd nm (PageIndex.iheader (Page._index p)), els).
Proof.
  intros C Hk Hid Hs Hn Hc. destruct (created_series _ _ _ _ _ _ _ _ _ _ _ _ C Hk Hid Hs) as (els & E1 & E2 & Hp).
  exists els. split; [done|]. split; [|unfold checked; cbn [snd]; rewrite E1; apply C]. pose proof (cr_index _ _ _ _ _ _ _ _ _ _ _ _ C) as Ei.
  assert (Ec : contents (mkPfd nm (PageIndex.iheader (Page._index p)), els) = concat parts)
    by (unfold contents; cbn [snd]; by rewrite E2).
  split; rewrite ?Ec; unfold first_time; cbn [fst snd path hdr]; rewrite ?Ei; cbn [if_target_id if_stat].
  - exists p. split; [apply C|]. split; [by symmetry|done].
  - done.
  - apply Hc.
  - apply Hc.
  - apply Hc.
  - done.
Qed.

Lemma holds_mkdir e s data d : holds e s data → holds (set_fs (mkdir d (e_fs e)) e) s data.
Proof.
  intros [A1 A2 A3 A4 A5 A5']. split; try done. intros i. destruct (A1 i) as [D P S]. split; [done| |done].
  eapply Forall_impl; [exact P|]. intros x. by apply page_of_same.
Qed.

(** What a new page leaves as it was. *)
Record added_frame (n : string) (e e' : env) : Prop := {
  af_writable : fs_writable (e_fs e') = fs_writable (e_fs e);
  af_calls : e_calls e' = e_calls e;
  af_wal : Manifest.wal (e_manifest e') = Manifest.wal (e_manifest e);
  af_files : ∀ g, g ≠ full n → g ≠ Page.index_name (full n) → fs_files (e_fs e') !! g = fs_files (e_fs e) !! g;
  af_dir : path_exists (p_raw_path st) (e_fs e') = true;
}.

(** [append_async] makes the directory, then the page. *)
Lemma added_frame_ok n e m f' :
  let e1 := if path_exists (p_raw_path st) (e_fs e) then e else set_fs (mkdir (p_raw_path st) (e_fs e)) e in
  fresh_page (full n) (e_fs e1) → fs_frame (full n) (e_fs e1) f' →
  Manifest.wal m = Manifest.wal (e_manifest e) → added_frame n e (set_manifest m (set_fs f' e1)).
Proof.
  intros e1 [F1 F2 _ _] [G1 G2 G3] Em.
  assert (He : fs_writable (e_fs e1) = fs_writable (e_fs e) ∧ e_calls e1 = e_calls e ∧
    fs_files (e_fs e1) = fs_files (e_fs e) ∧ path_exists (p_raw_path st) (e_fs e1) = true).
  { unfold e1. destruct (path_exists (p_raw_path st) (e_fs e)) eqn:Ed; [done|]. split_and!; try done.
    unfold path_exists. cbn. rewrite (bool_decide_eq_true_2 (_ ∈ _)) by set_solver. apply orb_true_r. }
  destruct He as (E1 & E2 & E3 & E4). split; cbn; [by rewrite G3|done|done|by rewrite <- E3|].
  unfold path_exists in *. rewrite G2. apply orb_true_iff in E4 as [E4|E4]; [|by rewrite E4, orb_true_r].
  apply bool_decide_eq_true_1 in E4. rewrite bool_decide_eq_true_2; [done|].
  rewrite G1; [done|intros Er; rewrite Er in E4; destruct E4; congruence..].
Qed.

Lemma append_async_ok (crc_range : ∀ bs, 0 <= crc32 bs < 2 ^ 32) prefix i ma s e data :
  holds e s data → page_input (Z.to_nat (chunk_size st)) i ma → 0 < chunk_size st →
  plain_name (prefix +:+ PAGE_FILE_EXT) = true → fresh_page (full (prefix +:+ PAGE_FILE_EXT)) (e_fs e) →
  strictly_by time (series_of (pages_at data i) ++ ma) →
  ∃ p s' e' x, PageManager.append_async st crc32 prefix ma s e = Ok (p, s', e') ∧
    contents x = ma ∧ page_name x = prefix +:+ PAGE_FILE_EXT ∧
    holds e' s' (<[i := pages_at data i ++ [x]]> data) ∧ checked x ∧
    added_frame (prefix +:+ PAGE_FILE_EXT) e e'.
Proof.
  intros Hh0 Hin Hcs Hpl Hf0 Hs. unfold PageManager.append_async. set (n := prefix +:+ PAGE_FILE_EXT) in *.
  set (e1 := if path_exists _ _ then e else _).
  assert (Hh : holds e1 s data) by (unfold e1; destruct (path_exists _ _); [done|by apply holds_mkdir]).
  assert (Hf : fresh_page (full n) (e_fs e1)).
  { unfold e1. destruct (path_exists _ _); [done|]. destruct Hf0. by split. }
  assert (Hfr : ∀ m f', fs_frame (full n) (e_fs e1) f' → Manifest.wal m = Manifest.wal (e_manifest e1) →
    added_frame n e (set_manifest m (set_fs f' e1))).
  { intros m f' Hfr Em. apply added_frame_ok; [done|done|]. rewrite Em. unfold e1. by destruct (path_exists _ _). }
  clearbody e1. clear Hh0 Hf0.
  destruct (page_create_ok crc32 crc_range (Z.to_nat (chunk_size st)) i (full n) MIN_LEVEL
    (PageManager.last_id s) ma (e_fs e1)) as (p & f' & es & E & C); try apply Hin; [done|done|].
  rewrite Z2Nat.id in E by lia. rewrite E, bind_Ok.
  unfold Manifest.page_append, Manifest.prepare. rewrite (ho_ok _ _ _ Hh), !bind_Ok.
  destruct (open_inv _ _ _ (cr_open _ _ _ _ _ _ _ _ _ _ _ _ C)) as (_ & _ & Ei).
  unfold PageIndex.open in Ei. apply bind_Ok_inv in Ei as (h & Eh & Ei). injection Ei as Ei.
  change (PageIndex.index_name_from_page_name (full n)) with (Page.index_name (full n)).
  rewrite Eh, bind_Ok. pose proof (cuts_concat (Z.to_nat (chunk_size st)) ma) as Hc.
  destruct (created_page_of _ _ _ _ _ _ _ _ _ _ _ C (pi_kept _ _ _ Hin)) as (els & Eels & Hx & Hchk).
  1-3: rewrite Hc; apply Hin.
  { apply summed_covers; rewrite Hc; apply Hin. }
  assert (Ex : contents (mkPfd n (PageIndex.iheader (Page._index p)), els) = ma)
    by (unfold contents; cbn [snd]; by rewrite Eels, Hc).
  assert (PageIndex.iheader (Page._index p) = h) as Ehd by (by rewrite <- Ei). rewrite Ehd in *.
  eexists _, _, _, (mkPfd n h, els). split; [done|]. split; [done|]. split; [done|].
  split; [|split; [done|apply Hfr; [apply C|done]]].
  apply (holds_add e1 _ s data i (mkPfd n h, els)); try done; [by eexists|apply C|].
  unfold series_of in *. rewrite fmap_app, concat_app. cbn [fmap list_fmap concat]. by rewrite Ex, app_nil_r.
Qed.

(** ** Erasing a page *)

Lemma drop_descr_spec fname m :
  match PageManager.drop_descr fname m with
  | Some m' => ∃ d, path d = fname ∧ snd <$> m ≡ₚ d :: (snd <$> m')
  | None => Forall (fun d => path d ≠ fname) (snd <$> m)
  end.
Proof.
  induction m as [|[k d] m IH]; [constructor|]. cbn [PageManager.drop_descr snd].
  case_bool_decide as Hd; [by exists d|]. destruct (PageManager.drop_descr fname m) as [m'|]; cbn [mbind option_bind].
  - destruct IH as (d' & E & Hp). exists d'. split; [done|]. rewrite !fmap_cons. cbn [snd].
    rewrite Hp. constructor.
  - by constructor.
Qed.

Lemma drop_page_spec fname l m : NoDup l.*1 →
  (∃ k v v', (k, v) ∈ l ∧ PageManager.drop_descr fname v = Some v' ∧ PageManager.drop_page fname l m = <[k := v']> m) ∨
  (Forall (fun kv => PageManager.drop_descr fname kv.2 = None) l ∧ PageManager.drop_page fname l m = m).
Proof.
  induction l as [|[k v] l IH]; intros Hnd; [by right|]. cbn [PageManager.drop_page fst snd].
  apply NoDup_cons in Hnd as [_ Hnd].
  destruct (PageManager.drop_descr fname v) as [v'|] eqn:E.
  - left. exists k, v, v'. split; [by left|done].
  - destruct (IH Hnd) as [(k' & v1 & v2 & Hin & Hd & ->)|[Hf ->]].
    + left. exists k', v1, v2. split; [by right|done].
    + right. split; [by constructor|done].
Qed.

Lemma names_distinct data i j x y :
  NoDup (page_names data) → x ∈ pages_at data i → y ∈ pages_at data j → page_name x = page_name y → i = j.
Proof.
  intros Hnd Hx Hy E. destruct (decide (i = j)) as [|Hij]; [done|exfalso].
  rewrite (page_names_split data i) in Hnd. apply NoDup_app in Hnd as (_ & Hnd & _).
  apply (Hnd (page_name x)); [by apply list_elem_of_fmap_2|]. rewrite E.
  apply (page_names_elem _ j). unfold pages_at. by rewrite lookup_delete_ne.
Qed.

Lemma holds_entry e s data i d : holds e s data → d ∈ descrs s i → ∃ x, x ∈ pages_at data i ∧ x.1 = d.
Proof.
  intros Hh Hd. rewrite (sa_descrs _ _ _ _ _ (ho_series _ _ _ Hh i)) in Hd.
  apply list_elem_of_fmap in Hd as (x & -> & Hx). by exists x.
Qed.

(** The entry of the page is taken out, and no other. *)
Lemma drop_page_ok e s data i ps1 x ps2 :
  holds e s data → pages_at data i = ps1 ++ x :: ps2 →
  let s' := PageManager.set_f2f (PageManager.drop_page (page_name x) (um_list (PageManager._file2footer s))
    (PageManager._file2footer s)) s in
  descrs s' i ≡ₚ (ps1 ++ ps2).*1 ∧ ∀ j, j ≠ i → descrs s' j = descrs s j.
Proof.
  intros Hh Eps. cbn zeta. assert (Hx : x ∈ pages_at data i) by (rewrite Eps; set_solver).
  pose proof (sa_descrs _ _ _ _ _ (ho_series _ _ _ Hh i)) as Hdi.
  assert (Hnd : NoDup (um_list (PageManager._file2footer s)).*1).
  { rewrite um_perm. apply NoDup_fst_map_to_list. }
  destruct (drop_page_spec (page_name x) _ (PageManager._file2footer s) Hnd) as [(k & v & v' & Hin & Hd & ->)|[Hf _]].
  - rewrite um_perm in Hin. apply elem_of_map_to_list in Hin. pose proof (drop_descr_spec (page_name x) v) as Hs.
    rewrite Hd in Hs. destruct Hs as (d & Ed & Hp).
    assert (Hdk : d ∈ descrs s k) by (unfold descrs; rewrite Hin; cbn [default]; change (Datatypes.id v) with v; rewrite Hp; left).
    destruct (holds_entry _ _ _ _ _ Hh Hdk) as (y & Hy & <-).
    assert (k = i) as -> by (symmetry; eapply names_distinct; [apply Hh|done..]).
    split.
    + unfold descrs in *. cbn [PageManager.set_f2f PageManager._file2footer]. rewrite lookup_insert_eq. rewrite Hin in Hdi.
      cbn [default] in *. change (Datatypes.id v) with v in Hdi. change (Datatypes.id v') with v'.
      rewrite Hp, Eps, fmap_app, fmap_cons, <- Permutation_middle, <- fmap_app in Hdi.
      assert (y.1 = x.1) as E1.
      { pose proof (ho_names _ _ _ Hh) as Hn. rewrite (page_names_split data i), Eps in Hn.
        apply NoDup_app in Hn as (Hn & _). rewrite Eps in Hy. clear -Hn Hy Ed. rewrite fmap_app, fmap_cons in Hn.
        apply NoDup_app in Hn as (_ & Hn1 & Hn2). apply NoDup_cons in Hn2 as [Hn2 _].
        apply elem_of_app in Hy as [Hy|[->|Hy]%elem_of_cons]; [|done|].
        - exfalso. apply (Hn1 (page_name y)); [by apply list_elem_of_fmap_2|]. unfold page_name at 1. rewrite Ed. left.
        - exfalso. apply Hn2. rewrite <- Ed. by apply (list_elem_of_fmap_2 page_name). }
      rewrite E1 in Hdi. by apply Permutation_cons_inv in Hdi.
    + intros j Hj. unfold descrs. cbn. by rewrite lookup_insert_ne.
  - exfalso. assert (Hx1 : x.1 ∈ descrs s i) by (rewrite Hdi; by apply list_elem_of_fmap_2).
    unfold descrs in Hx1. destruct (PageManager._file2footer s !! i) as [v|] eqn:Ev; [|by apply elem_of_nil in Hx1].
    rewrite Forall_forall in Hf. specialize (Hf (i, v)). cbn [snd] in Hf.
    pose proof (drop_descr_spec (page_name x) v) as Hs. rewrite Hf in Hs.
    + rewrite Forall_forall in Hs. by apply (Hs _ Hx1).
    + rewrite um_perm. by apply elem_of_map_to_list.
Qed.

Lemma page_names_drop data i ps1 x ps2 : pages_at data i = ps1 ++ x :: ps2 →
  page_names data ≡ₚ page_name x :: page_names (<[i := ps1 ++ ps2]> data).
Proof.
  intros E. rewrite (page_names_split data i), E, page_names_insert, !fmap_app, fmap_cons.
  rewrite <- !app_assoc. cbn [app]. by rewrite <- Permutation_middle.
Qed.

Lemma pages_at_insert data i ps j : pages_at (<[i := ps]> data) j = if decide (j = i) then ps else pages_at data j.
Proof.
  unfold pages_at. case_decide as Hj; [subst; by rewrite lookup_insert_eq|by rewrite lookup_insert_ne].
Qed.

Lemma series_add data i x j :
  series_of (pages_at (<[i := pages_at data i ++ [x]]> data) j) =
  series_of (pages_at data j) ++ (if decide (i = j) then contents x else []).
Proof.
  rewrite pages_at_insert. destruct (decide (j = i)) as [->|Hi].
  - rewrite decide_True by done. unfold series_of. rewrite fmap_app, concat_app. cbn [fmap list_fmap concat].
    by rewrite app_nil_r.
  - rewrite decide_False by congruence. by rewrite app_nil_r.
Qed.

(** The files of a page are not those of another. *)
Lemma page_of_other e s data f j x y :
  holds e s data → page_name x ∈ page_names data → page_name y ∈ page_names data → page_name y ≠ page_name x →
  (∀ n, n ≠ full (page_name x) → n ≠ Page.index_name (full (page_name x)) → fs_files f !! n = fs_files (e_fs e) !! n) →
  page_of st (e_fs e) j y → page_of st f j y.
Proof.
  intros Hh Hx Hy Hne Hff Hp. pose proof (ho_plain _ _ _ Hh) as Hpl. rewrite Forall_forall in Hpl.
  pose proof (ho_ext _ _ _ Hh) as Hext. rewrite Forall_forall in Hext.
  apply (page_of_same st (e_fs e)); [apply Hff..|done]; change (path y.1) with (page_name y).
  - intros E. apply full_inj in E; auto.
  - by apply full_index_apart; auto.
  - apply not_eq_sym. by apply full_index_apart; auto.
  - intros E. apply index_name_inj, full_inj in E; auto.
Qed.

(** What erasing a page leaves as it was. *)
Record erased_frame (n : string) (s s' : PageManager.t) (e e' : env) : Prop := {
  ef_dirs : fs_dirs (e_fs e') = fs_dirs (e_fs e);
  ef_writable : fs_writable (e_fs e') = fs_writable (e_fs e);
  ef_calls : e_calls e' = e_calls e;
  ef_last_id : PageManager.last_id s' = PageManager.last_id s;
  ef_wal : Manifest.wal (e_manifest e') = Manifest.wal (e_manifest e);
  ef_files : ∀ g, g ≠ full n → g ≠ Page.index_name (full n) → fs_files (e_fs e') !! g = fs_files (e_fs e) !! g;
  ef_gone : fs_files (e_fs e') !! full n = None ∧ fs_files (e_fs e') !! Page.index_name (full n) = None;
}.

Lemma erase_page_run e s n : plain_name n = true → Manifest.db_ok (e_manifest e) = true →
  ∃ e', PageManager.erase_page (full n) s e =
      Ok (PageManager.set_f2f (PageManager.drop_page n (um_list (PageManager._file2footer s)) (PageManager._file2footer s)) s, e') ∧
    e_manifest e' = Manifest.set_pages (base.filter (fun m => m ≠ n) (Manifest.pages (e_manifest e))) (e_manifest e) ∧
    erased_frame n s (PageManager.set_f2f (PageManager.drop_page n (um_list (PageManager._file2footer s))
      (PageManager._file2footer s)) s) e e'.
Proof.
  intros Hpl Hok. unfold PageManager.erase_page.
  assert (extract_filename (full n) = n) as -> by by apply extract_append.
  unfold Manifest.page_rm, Manifest.prepare. rewrite Hok, !bind_Ok.
  eexists. split; [done|]. split; [done|].
  change (PageIndex.index_name_from_page_name (full n)) with (Page.index_name (full n)).
  split; try done; cbn [e_fs set_manifest set_fs rm fs_files].
  - intros g H1' H2'. by rewrite !lookup_delete_ne by congruence.
  - split; [|apply lookup_delete_eq]. rewrite lookup_delete_ne by apply index_name_neq. apply lookup_delete_eq.
Qed.

Lemma erase_page_ok e s data i ps1 x ps2 :
  holds e s data → pages_at data i = ps1 ++ x :: ps2 →
  ∃ s' e', PageManager.erase_page (full (page_name x)) s e = Ok (s', e') ∧
    holds e' s' (<[i := ps1 ++ ps2]> data) ∧ erased_frame (page_name x) s s' e e'.
Proof.
  intros Hh Eps. pose proof (page_names_drop _ _ _ _ _ Eps) as Hpn. pose proof (ho_names _ _ _ Hh) as Hnd.
  assert (Hx : page_name x ∈ page_names data) by (rewrite Hpn; left).
  pose proof (ho_plain _ _ _ Hh) as Hpl. rewrite Forall_forall in Hpl.
  destruct (erase_page_run e s (page_name x)) as (e' & E & Em & Hfr); [by apply Hpl|apply Hh|].
  destruct (drop_page_ok _ _ _ _ _ _ _ Hh Eps) as [Di Dj]. set (s' := PageManager.set_f2f _ _) in *.
  exists s', e'. split; [done|]. split; [|done]. rewrite Hpn in Hnd. apply NoDup_cons in Hnd as [Hnx Hnd].
  assert (Hkeep : ∀ j y, y ∈ pages_at (<[i := ps1 ++ ps2]> data) j → page_of st (e_fs e) j y → page_of st (e_fs e') j y).
  { intros j y Hy. apply page_names_elem in Hy. apply (page_of_other e s data _ j x); try done.
    - rewrite Hpn. by right.
    - intros Ey. by rewrite Ey in Hy.
    - apply Hfr. }
  split.
  - intros j. pose proof (ho_series _ _ _ Hh j) as [D P S]. rewrite pages_at_insert.
    assert (Hsub : (if decide (j = i) then ps1 ++ ps2 else pages_at data j) `sublist_of` pages_at data j).
    { case_decide as Hj; [subst j|done]. rewrite Eps. apply sublist_app; [done|by constructor]. }
    split.
    + case_decide as Hj; [by subst|]. by rewrite Dj.
    + rewrite Forall_forall in *. intros y Hy. apply Hkeep; [by rewrite pages_at_insert|].
      apply P. by eapply elem_of_sublist.
    + eapply StronglySorted_sublist; [|exact S]. by apply sublist_concat, sublist_map.
  - rewrite Em. cbn. rewrite (ho_manifest _ _ _ Hh), Hpn, filter_cons_False by (intros []; done).
    rewrite filter_id; [done|]. apply Forall_forall. intros n Hn ->. done.
  - rewrite Em. apply Hh.
  - done.
  - apply Forall_forall. intros n Hn. apply Hpl. rewrite Hpn. by right.
  - pose proof (ho_ext _ _ _ Hh) as Hext. rewrite Hpn in Hext. by apply Forall_cons in Hext as [_ Hext].
Qed.

(** ** Erasing several pages *)

#[export] Instance holds_proper e : Proper (same ==> eq ==> iff) (holds e).
Proof.
  intros s s' Hs data ? <-.
  split; intros [A1 A2 A3 A4 A5 A5']; split; try done; intros i; by (rewrite <- Hs || rewrite Hs).
Qed.

Lemma holds_touch e s data i : holds e s data → holds e s (<[i := pages_at data i]> data).
Proof.
  assert (Hp : page_names (<[i := pages_at data i]> data) ≡ₚ page_names data)
    by (by rewrite page_names_insert, <- page_names_split).
  intros [A1 A2 A3 A4 A5 A5']. split; rewrite ?Hp; try done.
  - intros j. rewrite pages_at_insert. case_decide as Hj; [by subst|done].
Qed.

(** The pages of one series a predicate selects. *)
Lemma pages_of_one e s data i pred : holds e s data →
  let '(names, s') := PageManager.pages_by_filter st [i] pred s in
  same s s' ∧ names = (fun x => full (page_name x)) <$> base.filter (fun x => pred (hdr x.1) = true) (pages_at data i).
Proof.
  intros Hh. pose proof (pages_by_filter_ok st (e_fs e) [i] pred s (pages_at data)) as Hf.
  destruct (PageManager.pages_by_filter _ _ _ _) as [names s']. destruct Hf as (Hs & sel & Hsel & ->).
  { intros j _. apply Hh. }
  split; [done|]. pose proof (selected_of st (e_fs e) [i] pred _ sel i Hsel (NoDup_singleton i)) as Ho.
  rewrite decide_True in Ho by by left. rewrite <- Ho by (intros j _; apply (ho_series _ _ _ Hh j)).
  rewrite filter_id; [done|]. destruct Hsel as [Hp _]. rewrite Hp. cbn. rewrite app_nil_r.
  apply Forall_forall. intros x [_ Hx]%list_elem_of_filter.
  destruct (ho_series _ _ _ Hh i) as [_ Hpg _]. rewrite Forall_forall in Hpg. by apply Hpg.
Qed.

Lemma erase_pages_ok (P : page_data → Prop) `{!∀ x, Decision (P x)} ps kept e s data i :
  holds e s data → pages_at data i = kept ++ ps →
  ∃ s' e', PageManager.erase_pages ((fun x => full (page_name x)) <$> base.filter P ps) s e = Ok (s', e') ∧
    holds e' s' (<[i := kept ++ base.filter (fun x => ¬ P x) ps]> data) ∧
    fs_dirs (e_fs e') = fs_dirs (e_fs e) ∧ fs_writable (e_fs e') = fs_writable (e_fs e) ∧
    e_calls e' = e_calls e ∧ PageManager.last_id s' = PageManager.last_id s ∧
    (∀ n, (∀ x, x ∈ base.filter P ps → n ≠ full (page_name x) ∧ n ≠ Page.index_name (full (page_name x))) →
          fs_files (e_fs e') !! n = fs_files (e_fs e) !! n).
Proof.
  revert kept e s data. induction ps as [|x ps IH]; intros kept e s data Hh Eps.
  { exists s, e. split; [done|]. split; [|done]. cbn. rewrite <- Eps. by apply holds_touch. }
  rewrite !filter_cons. destruct (decide (P x)) as [Hx|Hx].
  - rewrite (decide_False (P := ¬ P x)) by (intros Hn; by apply Hn).
    destruct (erase_page_ok e s data i kept x ps Hh Eps) as (s1 & e1 & E & Hh1 & Hfr).
    rewrite fmap_cons. unfold PageManager.erase_pages. cbn [foldM fst snd]. rewrite E, bind_Ok.
    destruct (IH kept e1 s1 (<[i := kept ++ ps]> data) Hh1) as (s' & e' & E' & Hh' & F1 & F2 & F3 & F4 & F5).
    { by rewrite pages_at_insert, decide_True. }
    exists s', e'. split; [exact E'|]. rewrite insert_insert_eq in Hh'. split; [done|]. destruct Hfr as [G1 G2 G3 G4 _ G5 _].
    split_and!; [congruence..|]. intros n Hn. rewrite F5 by (intros y Hy; apply Hn; by right).
    apply G5; by apply Hn; left.
  - rewrite (decide_True (P := ¬ P x)) by done.
    destruct (IH (kept ++ [x]) e s data Hh) as (s' & e' & E' & Hh' & F).
    { by rewrite <- app_assoc. }
    exists s', e'. split; [done|]. rewrite <- app_assoc in Hh'. by split.
Qed.

Lemma eraseOld_ok e s data i tm : holds e s data →
  ∃ s' e', PageManager.eraseOld st i tm s e = Ok (s', e') ∧
    holds e' s' (<[i := base.filter (fun x => ¬ tlast (contents x) <= tm) (pages_at data i)]> data).
Proof.
  intros Hh. unfold PageManager.eraseOld, PageManager.pagesOlderThan.
  set (pred := fun h : IndexFooter => (maxTime (if_stat h) <=? tm) && _). pose proof (pages_of_one e s data i pred Hh) as Hp.
  destruct (PageManager.pages_by_filter _ _ _ _) as [names s0]. destruct Hp as [Hs ->].
  assert (Hq : ∀ x, x ∈ pages_at data i → pred (hdr x.1) = true ↔ tlast (contents x) <= tm).
  { intros x Hx. destruct (ho_series _ _ _ Hh i) as [_ Hpg _]. rewrite Forall_forall in Hpg.
    destruct (Hpg x Hx) as [_ A2 _ A4 _ _]. unfold pred. rewrite A2, A4, Z.eqb_refl, andb_true_r. apply Z.leb_le. }
  destruct (erase_pages_ok (fun x => pred (hdr x.1) = true) (pages_at data i) [] e s0 data i) as (s' & e' & E & Hh' & _);
    [by rewrite <- Hs|done|].
  exists s', e'. split; [done|]. cbn [app] in Hh'.
  assert (base.filter (fun x => ¬ tlast (contents x) <= tm) (pages_at data i) =
          base.filter (fun x => ¬ pred (hdr x.1) = true) (pages_at data i)) as ->; [|done].
  clear -Hq. induction (pages_at data i) as [|x ps IH]; [done|]. rewrite !filter_cons, IH by (intros; apply Hq; by right).
  specialize (Hq x ltac:(by left)). do 2 case_decide; tauto.
Qed.

(** ** Starting *)

Definition all_pages (data : gmap Z (list page_data)) : list page_data := concat (map_to_list data).*2.

Lemma page_names_all data : page_names data = page_name <$> all_pages data.
Proof.
  unfold page_names, all_pages. induction (map_to_list data) as [|[i ps] l IH]; [done|].
  rewrite !fmap_cons. cbn [concat fst snd]. by rewrite fmap_app, IH.
Qed.

Lemma all_pages_split data i : all_pages data ≡ₚ pages_at data i ++ all_pages (delete i data).
Proof.
  unfold pages_at, all_pages. destruct (data !! i) as [ps|] eqn:E; cbn [default].
  - rewrite <- (insert_delete_id data i ps E) at 1.
    rewrite map_to_list_insert by apply lookup_delete_eq. by rewrite fmap_cons.
  - by rewrite delete_id.
Qed.

Lemma all_pages_elem data x : x ∈ all_pages data → ∃ i, x ∈ pages_at data i.
Proof.
  intros Hx. apply list_elem_of_In, in_concat in Hx as (l & Hl & Hx). apply list_elem_of_In in Hl, Hx.
  apply list_elem_of_fmap in Hl as ([i ps] & -> & Hi). apply elem_of_map_to_list in Hi.
  exists i. unfold pages_at. by rewrite Hi.
Qed.

Lemma all_pages_filter e s data i : holds e s data →
  base.filter (fun x => if_target_id (hdr x.1) = i) (all_pages data) ≡ₚ pages_at data i.
Proof.
  intros Hh. assert (Ht : ∀ j x, x ∈ pages_at data j → if_target_id (hdr x.1) = j).
  { intros j x Hx. destruct (ho_series _ _ _ Hh j) as [_ Hp _]. rewrite Forall_forall in Hp. by apply (Hp x Hx). }
  rewrite (all_pages_split data i), filter_app, filter_id by (apply Forall_forall; by apply Ht).
  rewrite filter_none; [by rewrite app_nil_r|]. apply Forall_forall. intros x (j & Hx)%all_pages_elem.
  unfold pages_at in Hx. destruct (decide (j = i)) as [->|Hj].
  - rewrite lookup_delete_eq in Hx. by apply elem_of_nil in Hx.
  - rewrite lookup_delete_ne in Hx by done. by rewrite (Ht j).
Qed.

Lemma page_of_reads f i x : page_of st f i x →
  ∃ phdr, Page.readFooter (full (page_name x)) f = Ok phdr ∧
    file_exists (Page.index_name (full (page_name x))) f = true ∧
    PageIndex.readIndexFooter (Page.index_name (full (page_name x))) f = Ok (hdr x.1).
Proof.
  intros Hx. destruct (page_of_exists _ _ _ _ Hx) as [_ Hi].
  destruct (po_page _ _ _ _ Hx) as (p & Eo & Eh & _). destruct (open_inv _ _ _ Eo) as (Er & _ & Ei).
  exists (Page.footer p). split; [done|]. split.
  - unfold file_exists, path_exists. apply orb_true_iff. left. by apply bool_decide_eq_true_2.
  - unfold PageIndex.open in Ei. apply bind_Ok_inv in Ei as (h & Eh' & Ei). injection Ei as Ei.
    unfold page_name. rewrite Eh'. f_equal. rewrite <- Eh, <- Ei. done.
Qed.

Lemma load_footers f xs s :
  Forall (fun x => page_of st f (if_target_id (hdr x.1)) x) xs →
  ∃ s', foldM (PageManager.load_footer st f) (page_name <$> xs) s = Ok s' ∧
    ∀ i, descrs s' i ≡ₚ descrs s i ++ (base.filter (fun x => if_target_id (hdr x.1) = i) xs).*1.
Proof.
  intros Hx. revert s. induction Hx as [|x xs Hx _ IH]; intros s.
  { exists s. split; [done|]. intros i. by rewrite app_nil_r. }
  rewrite fmap_cons. cbn [foldM]. unfold PageManager.load_footer at 2.
  destruct (page_of_reads _ _ _ Hx) as (phdr & -> & Ee & Ei). rewrite bind_Ok.
  change (PageIndex.index_name_from_page_name (full (page_name x))) with (Page.index_name (full (page_name x))).
  rewrite Ee, Ei, !bind_Ok. destruct (IH (PageManager.insert_pagedescr (page_name x) (hdr x.1)
    (PageManager.set_last_id (Z.max (pf_max_chunk_id phdr) (PageManager.last_id s)) s))) as (s' & -> & Hd).
  exists s'. split; [done|]. intros i. rewrite Hd, insert_descrs, filter_cons.
  change (descrs (PageManager.set_last_id _ s) i) with (descrs s i).
  destruct (decide (i = if_target_id (hdr x.1))) as [->|Hi].
  - rewrite decide_True by done. rewrite fmap_cons. cbn [app]. rewrite Permutation_middle.
    by destruct x as [[] ?].
  - by rewrite decide_False by congruence.
Qed.

Lemma reload_ok e s data s0 : holds e s data → path_exists (p_raw_path st) (e_fs e) = true →
  ∃ s', PageManager.reloadIndexFooters st s0 e = Ok s' ∧ holds e s' data.
Proof.
  intros Hh Hd. unfold PageManager.reloadIndexFooters. rewrite Hd.
  unfold Manifest.page_list, Manifest.prepare. rewrite (ho_ok _ _ _ Hh), !bind_Ok.
  pose proof (ho_manifest _ _ _ Hh) as Hm. rewrite page_names_all in Hm.
  apply Permutation_map_inv in Hm as (xs & -> & Hxs).
  destruct (load_footers (e_fs e) xs (PageManager.set_f2f ∅ s0)) as (s' & E & Hs').
  { rewrite <- Hxs. apply Forall_forall. intros x (i & Hx)%all_pages_elem.
    destruct (ho_series _ _ _ Hh i) as [_ Hp _]. rewrite Forall_forall in Hp. eapply page_of_target, Hp, Hx. }
  exists s'. split; [exact E|]. pose proof Hh as [A1 A2 A3 A4 A5 A5']. split; try done.
  intros i. destruct (A1 i) as [D P S]. split; [|done..]. rewrite Hs', <- Hxs.
  rewrite (all_pages_filter e s data i) by done. unfold descrs. cbn. by rewrite lookup_empty.
Qed.

(** ** Checking *)

Lemma set_fs_id e : set_fs (e_fs e) e = e.
Proof. by destruct e. Qed.

Lemma fsck_page_ok e s i x : page_of st (e_fs e) i x → plain_name (page_name x) = true → checked x →
  PageManager.fsck_page st crc32 (s, e) (page_name x) = Ok (s, e).
Proof.
  intros Hx Hpl Hc. destruct (page_of_reads _ _ _ Hx) as (phdr & Er & Ee & Ei).
  destruct (po_page _ _ _ _ Hx) as (p & Eo & Eh & Hps). destruct (open_inv _ _ _ Eo) as (Er' & _ & _).
  assert (Efull : full (PageIndex.index_name_from_page_name (page_name x)) = Page.index_name (full (page_name x)))
    by by apply append_longer.
  unfold PageManager.fsck_page, PageManager.fsck_index. rewrite Efull.
  change (path_exists (Page.index_name (full (page_name x))) (e_fs e))
    with (file_exists (Page.index_name (full (page_name x))) (e_fs e)).
  rewrite Ee, Ei. cbn [negb]. rewrite bind_Ok.
  assert (IndexFooter_check (hdr x.1) = true) as ->.
  { unfold PageIndex.readIndexFooter in Ei. destruct (fopen_rb _ _); [|done].
    destruct (IndexFooter_check (default _ _)) eqn:Ec; [|done]. cbn [negb] in Ei. by injection Ei as <-. }
  cbn [negb]. rewrite bind_Ok. unfold page_name. rewrite Eo, bind_Ok.
  destruct (ps_page _ _ _ _ Hps) as (es & Hes & Hpa).
  rewrite (checksum_ok crc32 _ _ es Hpa), bind_Ok by (by rewrite Hes).
  assert (PageFooter_check (Page.footer p) = true) as ->.
  { unfold Page.readFooter in Er'. destruct (fopen_rb _ _); [|done].
    destruct (PageFooter_check (default _ _)) eqn:Ec; [|done]. cbn [negb] in Er'. by injection Er' as <-. }
  cbn [negb orb]. by rewrite set_fs_id.
Qed.

Lemma fsck_ok e s data : holds e s data → (∀ i x, x ∈ pages_at data i → checked x) →
  ∃ s', PageManager.fsck st crc32 s e = Ok (s', e) ∧ holds e s' data.
Proof.
  intros Hh Hc. unfold PageManager.fsck. destruct (path_exists (p_raw_path st) (e_fs e)) eqn:Ed; cbn [negb].
  2: { exists s. by split. }
  unfold Manifest.page_list, Manifest.prepare. rewrite (ho_ok _ _ _ Hh), !bind_Ok.
  assert (Hf : ∀ l, l ⊆ page_names data → foldM (PageManager.fsck_page st crc32) l (s, e) = Ok (s, e)).
  { induction l as [|n l IH]; intros Hl; [done|]. cbn [foldM].
    destruct (page_names_inv data n) as (i & x & Hx & <-); [apply Hl; left|].
    pose proof (ho_plain _ _ _ Hh) as Hpl. rewrite Forall_forall in Hpl.
    destruct (ho_series _ _ _ Hh i) as [_ Hp _]. rewrite Forall_forall in Hp.
    rewrite (fsck_page_ok e s i x) by eauto using page_names_elem. rewrite bind_Ok. apply IH. set_solver. }
  rewrite Hf, bind_Ok by (intros n; by rewrite (ho_manifest _ _ _ Hh)).
  destruct (reload_ok e s data s Hh Ed) as (s' & -> & Hh'). rewrite bind_Ok. by exists s'.
Qed.
End Ops.
