(* ===== verification/PageManagerProps.v ===== *)
(** * Pages: properties of the manager

    Measurements given to the manager are answered by it, by a manager started
    later on the same files and after a check of the storage; and old pages can be
    erased. *)

From Stdlib Require Import ZArith Lia String Sorting.Sorted.
From stdpp Require Import base numbers list gmap strings.
From S2P Require Import Prelude ByteBuffer Float64 Meas Bloom Stat Delta Xor Compression StdSort ICursor FullCursor Chunk KMerge Cursors Colapse.
From S2P Require Import StripedMap StdMap TimeTrack TimeTrackSpec Series Storages Files WalFile PageFormat PageIndex Page PageSpec PageWrite PageManager PageManagerSpec PageManagerOps PageProps.

Local Open Scope Z_scope.

(** Measurements of a series and the name of the page they go to. *)
Record batch := mkBatch { bt_prefix : string; bt_id : Z; bt_meas : list Meas }.

Definition bt_page (b : batch) : string := bt_prefix b +:+ PAGE_FILE_EXT.

(** The measurements of a series, in the order they were given. *)
Definition given_to (bs : list batch) (i : Z) : list (list Meas) :=
  bt_meas <$> base.filter (fun b => bt_id b = i) bs.
Definition given (bs : list batch) (i : Z) : list Meas := concat (given_to bs i).

Section Batches.
Context `{BtreeMultimap} `{Paths} `{FileNames} `{StdSort} `{UnorderedMap}.
Variable st : PageSettings.
Variable crc32 : list Z → Z.

Definition append_batches (bs : list batch) (s : PageManager.t) (e : env) : outcome (PageManager.t * env) :=
  foldM (fun (x : PageManager.t * env) b =>
    '(_, s, e) ← PageManager.append_async st crc32 (bt_prefix b) (bt_meas b) x.1 x.2; Ok (s, e)) bs (s, e).

(** The pages are new, and every series is given in ascending order of time. *)
Record batches_ok (e : env) (bs : list batch) : Prop := {
  bk_input : Forall (fun b => page_input (Z.to_nat (chunk_size st)) (bt_id b) (bt_meas b)) bs;
  bk_plain : Forall (fun b => plain_name (bt_page b) = true) bs;
  bk_fresh : Forall (fun b => fresh_page (PageManager.full st (bt_page b)) (e_fs e)) bs;
  bk_nodup : NoDup (bt_page <$> bs);
}.

Hypothesis crc_range : ∀ bs, 0 <= crc32 bs < 2 ^ 32.
Hypothesis chunk_room : 0 < chunk_size st.

Lemma batches_next e e' b bs : batches_ok e (b :: bs) → added_frame st (bt_page b) e e' → batches_ok e' bs.
Proof.
  intros [B1 B2 B3 B4] [A1 _ _ A4 _]. apply Forall_cons in B1 as [_ B1], B2 as [P2 B2], B3 as [_ B3].
  rewrite fmap_cons in B4. apply NoDup_cons in B4 as [Hn B4]. split; [done|done| |done].
  rewrite Forall_forall in B2; rewrite Forall_forall in B3. apply Forall_forall. intros b' Hb'.
  destruct (B3 b' Hb') as [F1 F2 F3 F4]. specialize (B2 b' Hb').
  assert (Hne : bt_page b' ≠ bt_page b) by (intros E; apply Hn; rewrite <- E; by apply list_elem_of_fmap_2).
  split; rewrite ?A1; try done; rewrite A4; try done.
  - intros E. by apply Hne, (full_inj st).
  - by apply full_index_apart; try by eexists.
  - apply not_eq_sym. by apply full_index_apart; try by eexists.
  - intros E%index_name_inj. by apply Hne, (full_inj st).
Qed.

Lemma append_batches_ok bs s e data :
  holds st e s data → (∀ i x, x ∈ pages_at data i → checked crc32 x) → batches_ok e bs →
  (∀ i, strictly_by time (series_of (pages_at data i) ++ given bs i)) →
  ∃ s' e' data', append_batches bs s e = Ok (s', e') ∧ holds st e' s' data' ∧
    (∀ i x, x ∈ pages_at data' i → checked crc32 x) ∧
    (∀ i, contents <$> pages_at data' i = (contents <$> pages_at data i) ++ given_to bs i) ∧
    (bs ≠ [] → path_exists (p_raw_path st) (e_fs e') = true).
Proof.
  revert s e data. induction bs as [|b bs IH]; intros s e data Hh Hck Hb Hs.
  { exists s, e, data. do 3 (split; [done|]). split; [|done]. intros i. by rewrite app_nil_r. }
  pose proof Hb as [B1 B2 B3 _]. apply Forall_cons in B1 as [B1 _], B2 as [B2 _], B3 as [B3 _].
  assert (Hg : ∀ i, given_to (b :: bs) i = (if decide (bt_id b = i) then [bt_meas b] else []) ++ given_to bs i).
  { intros i. unfold given_to. rewrite filter_cons. by case_decide. }
  destruct (append_async_ok st crc32 crc_range (bt_prefix b) (bt_id b) (bt_meas b) s e data Hh B1 chunk_room B2 B3)
    as (p & s1 & e1 & x & E & Ex & Enx & Hh1 & Hx & Hfr).
  { eapply StronglySorted_sublist; [|exact (Hs (bt_id b))]. unfold given. rewrite Hg, decide_True by done.
    apply sublist_app; [done|]. by apply sublist_inserts_r. }
  set (data1 := <[bt_id b := _]> data) in *.
  assert (Hser : ∀ i, contents <$> pages_at data1 i =
    (contents <$> pages_at data i) ++ (if decide (bt_id b = i) then [bt_meas b] else [])).
  { intros i. unfold data1. rewrite pages_at_insert, <- Ex. destruct (decide (i = bt_id b)) as [->|Hi].
    - by rewrite decide_True, fmap_app.
    - by rewrite decide_False, app_nil_r by congruence. }
  destruct (IH s1 e1 data1 Hh1) as (s' & e' & data' & E' & Hh' & Hck' & Hser' & Hdir).
  { intros i y. unfold data1. rewrite pages_at_insert. case_decide; [|apply Hck].
    rewrite elem_of_app, list_elem_of_singleton. intros [Hy| ->]; [by eapply Hck|done]. }
  { by eapply batches_next. }
  { intros i. unfold series_of, given. rewrite Hser, <- concat_app, <- app_assoc, <- Hg, concat_app. apply Hs. }
  exists s', e', data'. unfold append_batches in *. cbn [foldM fst snd]. rewrite E, !bind_Ok.
  split; [exact E'|]. do 2 (split; [done|]). split.
  - intros i. by rewrite Hser', Hser, <- app_assoc, <- Hg.
  - intros _. destruct bs; [|by apply Hdir]. cbn in E'. injection E' as <- <-. apply Hfr.
Qed.

Lemma holds_empty e : Manifest.db_ok (e_manifest e) = true → Manifest.pages (e_manifest e) = [] →
  holds st e (PageManager.mk 0 ∅) ∅.
Proof.
  intros Hok Hp. split; try done; try by rewrite ?Hp; try constructor.
  intros i. split; unfold pages_at, descrs; rewrite lookup_empty; constructor.
Qed.
End Batches.

(** ** Properties *)


(** C19: erasing what is older than a time takes away whole pages.  Of the series, the
    pages whose last measurement is not after the time are gone, from the files too;
    every other page of this and of every other series is still there and
    is answered. *)
Theorem page_manager_erase_old `{BtreeMultimap} `{Paths} `{FileNames} `{StdSort} `{UnorderedMap}
    st crc32 bs e s e' i tm :
  (∀ bs, 0 <= crc32 bs < 2 ^ 32) → 0 < chunk_size st →
  Manifest.db_ok (e_manifest e) = true → Manifest.pages (e_manifest e) = [] →
  batches_ok st e bs → (∀ i, strictly_by time (given bs i)) →
  append_batches st crc32 bs (PageManager.mk 0 ∅) e = Ok (s, e') →
  ∃ s2 e2, PageManager.eraseOld st i tm s e' = Ok (s2, e2) ∧
    ∀ q j, qi_ids q = [j] →
      let ls := if decide (j = i) then base.filter (fun l => ¬ tlast l <= tm) (given_to bs j) else given_to bs j in
      flags_exact q (concat ls) → Z.of_nat (length (concat ls)) < 2 ^ 64 →
      ∃ s3, PageManager.foreach st q [] s2 e2 = Ok (base.filter (in_query q) (concat ls), s3).
Proof.
  intros Hcrc Hcs Hok Hp Hb Hs E1. pose proof (holds_empty st e Hok Hp) as Hh0.
  destruct (append_batches_ok st crc32 Hcrc Hcs bs _ e ∅ Hh0) as (s1 & e1 & data & E1' & Hh & _ & Hser & _);
    [by intros j x Hx%elem_of_nil|done|done|]. rewrite E1 in E1'. injection E1' as <- <-.
  destruct (eraseOld_ok st e' s data i tm Hh) as (s2 & e2 & E & Hh').
  exists s2, e2. split; [done|]. intros q j Hq ls Hf Hlen. pose proof (ho_series _ _ _ _ Hh' j) as Hj.
  set (ps := pages_at _ j) in Hj.
  assert (Hls : series_of ps = concat ls).
  { unfold series_of, ps, ls. rewrite pages_at_insert. case_decide as Hd; [subst j|by rewrite Hser].
    change (given_to bs i) with ((contents <$> pages_at ∅ i) ++ given_to bs i). rewrite <- Hser. by rewrite filter_of_fmap. }
  destruct (manager_foreach st q j s2 e2 ps [] Hq Hj) as (s3 & E3 & _); [by rewrite Hls..|].
  exists s3. by rewrite E3, Hls.
Qed.

(** ** A storage *)

Fixpoint insert_key {A} (k : Z) (a : A) (m : list (Z * A)) : list (Z * A) :=
  match m with
  | [] => [(k, a)]
  | x :: m' => if x.1 <=? k then x :: insert_key k a m' else (k, a) :: m
  end.

Lemma insert_key_perm {A} k (a : A) m : insert_key k a m ≡ₚ (k, a) :: m.
Proof.
  induction m as [|x m IH]; [done|]. cbn [insert_key]. destruct (x.1 <=? k); [|done].
  rewrite IH. constructor.
Qed.

#[export] Instance list_BtreeMultimap : BtreeMultimap.
Proof.
  refine {| mm_insert := @insert_key |}; [by intros; apply insert_key_perm|].
  intros A k a m Hm. induction Hm as [|x m Hm IH Hx]; [repeat constructor|]. cbn [insert_key].
  destruct (Z.leb_spec (x.1) k) as [Hk|Hk].
  - constructor; [done|]. rewrite insert_key_perm. by constructor.
  - constructor; [by constructor|]. constructor; [cbn; lia|]. eapply Forall_impl; [exact Hx|]. cbn. lia.
Defined.

Definition small_pages : PageSettings := mkPageSettings "raw" 12 4 10.

Definition small_batches : list batch :=
  [mkBatch "a" 7 ((fun t => mkMeas 7 t 5 3) <$> [1; 2; 1000]); mkBatch "c" 9 [mkMeas 9 4 1 3];
   mkBatch "b" 7 ((fun t => mkMeas 7 t 5 3) <$> [70000; 70001])].

Lemma small_batches_ok : batches_ok small_pages empty_env small_batches.
Proof.
  split.
  - repeat (apply Forall_cons; split); [..|by apply Forall_nil].
    all: split; [cbn; lia|done| |done|by vm_compute|apply (bool_decide_unpack _); by vm_compute|by repeat constructor].
    all: split; [repeat constructor; vm_compute; congruence|by repeat constructor|by intros ? ? [= <- <-]|done].
  - by repeat constructor.
  - apply Forall_forall. intros b _. by split.
  - apply (bool_decide_unpack _). by vm_compute.
Qed.

Lemma small_batches_strict i : strictly_by time (given small_batches i).
Proof.
  unfold given, given_to, small_batches. rewrite !filter_cons. cbn [bt_id].
  repeat case_decide; try lia; cbn; by repeat constructor.
Qed.


Lemma page_manager_erase_old_witness :
  ∃ s e' s2 e2 s3, append_batches small_pages (fun _ => 0) small_batches (PageManager.mk 0 ∅) empty_env = Ok (s, e') ∧
    PageManager.eraseOld small_pages 7 2000 s e' = Ok (s2, e2) ∧
    PageManager.foreach small_pages (mkQueryInterval [7] 0 0 100000 0) [] s2 e2 =
      Ok ((fun t => mkMeas 7 t 5 3) <$> [70000; 70001], s3).
Proof.
  pose proof (fun s e' => page_manager_erase_old small_pages (fun _ => 0) small_batches empty_env s e' 7 2000
    ltac:(done) ltac:(done) ltac:(done) ltac:(done) small_batches_ok small_batches_strict) as R.
  destruct (append_batches_ok small_pages (fun _ => 0) ltac:(done) ltac:(done) small_batches (PageManager.mk 0 ∅) empty_env ∅
    (holds_empty small_pages empty_env eq_refl eq_refl)) as (s & e' & _ & E & _);
    [by intros j x Hx%elem_of_nil|apply small_batches_ok|apply small_batches_strict|].
  destruct (R s e' E) as (s2 & e2 & E2 & Hr).
  destruct (Hr (mkQueryInterval [7] 0 0 100000 0) 7) as (s3 & E3).
  - done.
  - repeat constructor; by left.
  - by vm_compute.
  - exists s, e', s2, e2, s3. split; [assumption|]. split; [assumption|]. rewrite E3. by vm_compute.
Defined.
