(* ===== verification/Dropper.v ===== *)
(** * The dropper

    [storage/dropper.cpp]: a thread that turns closed log files into pages.  A
    file is queued by the log manager; the thread reads it, orders it by time,
    gives it to the page manager and erases it.  The stages are tasks of the
    thread pool and run here in place; an exception in a stage leaves the worker
    thread, which ends the program, so it is [Throw] for the whole round. *)

From Stdlib Require Import ZArith Lia String Ascii.
From stdpp Require Import base numbers list gmap strings.
From S2P Require Import Prelude Float64 Meas Stat StdSort ICursor FullCursor Chunk Cursors Colapse.
From S2P Require Import StripedMap Storages Files WalFile WalManager PageFormat PageIndex Page PageManager.

Local Open Scope Z_scope.

(** The names of [boost::filesystem] the dropper needs besides [Paths]: a name
    without its extension, the extension, and the entries of a directory in
    the order of [directory_iterator]. *)
Class DirectoryNames `{Paths} := {
  stem : string → string;
  extension : string → string;
  directory_entries : string → fs → list string;
  stem_append : ∀ n ext, plain_name (n +:+ String "."%char ext) = true → n ≠ "" →
    (∀ a b, ext ≠ a +:+ String "."%char b) → stem (n +:+ String "."%char ext) = n;
  entries_exist : ∀ d f p, p ∈ directory_entries d f ↔
    (is_Some (fs_files f !! p) ∨ p ∈ fs_dirs f) ∧ parent_path p = d;
}.

(** [ls(path, ext)] of [utils/fs.cpp] *)
Definition ls `{DirectoryNames} (path ext : string) (f : fs) : list string :=
  if path_exists path f then base.filter (fun p => extension p = ext) (directory_entries path f)
  else [].

Inductive DROPPER_STATE := DROPPER_OK | DROPPER_ERROR.

Module Dropper.

Record t := mk {
  _files_queue : list string;
  _stop : bool;
  _is_stoped : bool;
  _dropper_lock : bool;
  _active_operations : Z;
  _state : DROPPER_STATE;
}.

Definition make : t := mk [] false false false 0 DROPPER_OK.

Definition set_queue (l : list string) (d : t) : t :=
  mk l (_stop d) (_is_stoped d) (_dropper_lock d) (_active_operations d) (_state d).
Definition set_lock (b : bool) (d : t) : t :=
  mk (_files_queue d) (_stop d) (_is_stoped d) b (_active_operations d) (_state d).
Definition set_active (n : Z) (d : t) : t :=
  mk (_files_queue d) (_stop d) (_is_stoped d) (_dropper_lock d) n (_state d).
Definition set_state (x : DROPPER_STATE) (d : t) : t :=
  mk (_files_queue d) (_stop d) (_is_stoped d) (_dropper_lock d) (_active_operations d) x.

(** [DropperDescription]: the files in the queue and the active works. *)
Definition description (d : t) : Z * Z := (Z.of_nat (length (_files_queue d)), _active_operations d).

(** The loop ends at once when nothing is active, even if files are queued. *)
Definition flush (d : t) : outcome t :=
  let '(wal, _) := description d in
  if negb (wal =? 0) && negb (_active_operations d =? 0) then Diverge else Ok d.

(** The thread sees the flag and ends. *)
Definition stop (d : t) : t :=
  if _stop d then d
  else mk (_files_queue d) true true (_dropper_lock d) (_active_operations d) (_state d).

Section Dropper.
Context `{BtreeMultimap} `{Paths} `{FileNames} `{!DirectoryNames} `{StdSort} `{UnorderedMap}.
Variable wst : WalSettings.
Variable pst : PageSettings.
Variable crc32 : list Z → Z.

Definition dropWAL (fname : string) (f : fs) (d : t) : outcome t :=
  if bool_decide (fname ∈ _files_queue d) then Ok d
  else if path_exists (append_path (raw_path wst) fname) f
  then Ok (set_queue (_files_queue d ++ [fname]) d)
  else Ok d.

(** A page whose log was not erased is left over from a drop that did not end. *)
Definition cleanStorage (storagePath : string) (f : fs) : fs :=
  let wals_lst := ls storagePath WAL_FILE_EXT f in
  let page_lst := ls storagePath PAGE_FILE_EXT f in
  fold_left (fun f wal =>
    fold_left (fun f pagef =>
      if bool_decide (stem pagef = stem wal)
      then PageManager.erase storagePath (extract_filename pagef) f else f) page_lst f) wals_lst f.

(** The dropper works on both managers; their environment is that of the log
    manager, which also holds the dropper. *)
Record world := mkWorld {
  w_wal : WALManager.t t;
  w_pages : PageManager.t;
}.

Definition get_dropper (w : world) : outcome t :=
  match WALManager._down (w_wal w) with Some d => Ok d | None => UB end.

Definition put_dropper (d : t) (w : world) : world :=
  mkWorld (WALManager.set_down (Some d) (w_wal w)) (w_pages w).

(** The callback of the page: the log file is erased. *)
Definition on_complete (fname : string) (w : world) : outcome world :=
  wal ← WALManager.erase wst fname (w_wal w);
  let w := mkWorld wal (w_pages w) in
  d ← get_dropper w;
  Ok (put_dropper (set_active (_active_operations d - 1) d) w).

Definition drop_stage_compress (fname : string) (ma : list Meas) (w : world) : outcome world :=
  let without_path := extract_filename fname in
  let page_fname := stem without_path in
  '(_, pm, e) ← PageManager.append_async pst crc32 page_fname ma (w_pages w) (WALManager._env (w_wal w));
  on_complete fname (mkWorld (WALManager.set_env e (w_wal w)) pm).

Definition drop_stage_sort (fname : string) (ma : list Meas) (w : world) : outcome world :=
  drop_stage_compress fname (std_sort time ma) w.

Definition drop_stage_read (fname : string) (w : world) : outcome world :=
  let full_path := append_path (raw_path wst) fname in
  let e := WALManager._env (w_wal w) in
  '(ma, _) ← WALFile.readAll (WALFile.open full_path true e) e;
  drop_stage_sort fname ma w.

(** One round of [drop_wal_internal] with a file in the queue.  A lock that is held
    by the caller is waited for without end. *)
Definition drop_wal_internal (w : world) : outcome world :=
  d ← get_dropper w;
  match _files_queue d with
  | [] => Ok w
  | fname :: _ =>
    if _stop d then Ok w
    else if _dropper_lock d then Diverge
    else
      let d := set_state DROPPER_OK (set_active (_active_operations d + 1) (set_lock true d)) in
      w ← drop_stage_read fname (put_dropper d w);
      d ← get_dropper w;
      if negb (_active_operations d =? 0) then Diverge
      else
        match _state d with
        | DROPPER_ERROR => Ok w
        | DROPPER_OK =>
          match _files_queue d with
          | [] => UB
          | _ :: q => Ok (put_dropper (set_lock false (set_queue q d)) w)
          end
        end
  end.

(** Rounds while there are files. *)
Fixpoint drop_all (rounds : nat) (w : world) : outcome world :=
  match rounds with
  | O => Ok w
  | S rounds => w ← drop_wal_internal w; drop_all rounds w
  end.

End Dropper.
End Dropper.

#[export] Instance Dropper_IWALDropper `{Paths} (wst : WalSettings) : IWALDropper Dropper.t := {
  wd_dropWAL fname f d := Dropper.dropWAL wst fname f d;
}.
