(* ===== verification/DropperSpec.v ===== *)
(** * The dropper: nothing is lost between the log and the pages

    What erasing a log file does to the log manager, what a new page does not do to
    it, and the theorem that a round of the dropper moves the oldest file of a
    series to its pages and changes nothing else. *)

From Stdlib Require Import ZArith Lia String Ascii Sorting.Sorted.
From stdpp Require Import base numbers list gmap strings.
From S2P Require Import Prelude ByteBuffer Float64 Meas Bloom Stat Delta Xor Compression StdSort ICursor FullCursor Chunk KMerge Cursors Colapse.
From S2P Require Import StripedMap StdMap TimeTrack TimeTrackSpec Series Storages Settings Files PageFormat PageIndex Page PageSpec PageWrite PageManager PageManagerSpec PageManagerOps PageProps PageManagerProps.
From S2P Require Import WalFile WalManager WalManagerSpec Dropper.

Local Open Scope Z_scope.

(** ** Erasing a log file *)

Section Erase.
Context {D : Type} `{Paths} `{FileNames}.
Variable st : WalSettings.
Implicit Types s : WALManager.t D.

(** Nothing the log manager looks at is different. *)
Record same_logs (e e' : env) : Prop := {
  sl_rows : rows e' = rows e;
  sl_db : Manifest.db_ok (e_manifest e') = Manifest.db_ok (e_manifest e);
  sl_calls : e_calls e' = e_calls e;
  sl_writable : fs_writable (e_fs e') = fs_writable (e_fs e);
  sl_files : ∀ k, fs_files (e_fs e') !! WalManagerSpec.path st (name k) =
                  fs_files (e_fs e) !! WalManagerSpec.path st (name k);
}.

Lemma files_ok_same e e' fc : same_logs e e' → files_ok st e fc → files_ok st e' fc.
Proof.
  intros [S1 S2 S3 S4 S5] [F1 F2 F3 F4 F5 F6 F7]. split; rewrite ?S1, ?S2, ?S3, ?S4; try done.
  - intros k Hk. by rewrite S5, F4.
  - intros d Hd. destruct (F2 d Hd) as (k & _ & E). rewrite E, S5, <- E. by apply F6.
Qed.

Lemma current_same i e e' fc mm n w :
  same_logs e e' → files_ok st e fc → current st i e fc mm n w → current st i e' fc mm n w.
Proof.
  intros [S1 S2 S3 S4 S5] Hf [C1 C2 C3 C4 C5].
  assert (Hn : names i e' = names i e) by (unfold names; by rewrite S1).
  destruct (names_name st e fc i n Hf) as (k & _ & Ek); [by eapply last_Some_elem_of|].
  assert (Ef : fs_files (e_fs e') !! WALFile._filename w = fs_files (e_fs e) !! WALFile._filename w)
    by (by rewrite C2, Ek, S5).
  split; [by rewrite Hn|done| |done|done].
  destruct C3 as [B1 B2 B3 B4]. split; [by rewrite Ef|done|done|]. unfold on_disk in *. by rewrite Ef.
Qed.

Abbreviation inv := (inv st no_track).

(** What is kept track of is besides the logs. *)
Lemma inv_retrack T T' s fc op nodes bl : WalManagerSpec.inv st T s fc op nodes bl →
  T' op (WALManager._down s) (WALManager._files_send_to_drop s) (WALManager._env s) →
  WalManagerSpec.inv st T' s fc op nodes bl.
Proof. intros [(C1 & C2 & _) I2 I3 I4 I5 I6] Ht. by split. Qed.

Lemma inv_same s e' fc op nodes bl :
  same_logs (WALManager._env s) e' → inv s fc op nodes bl → inv (WALManager.set_env e' s) fc op nodes bl.
Proof.
  intros Hs [(C1 & C2 & _) I2 I3 I4 I5 I6]. split; try done.
  - split_and!; [by eapply files_ok_same| |done]. destruct C2 as [M1 M2]. destruct Hs as [S1 _ S3 _ _].
    split; cbn; rewrite ?S1, ?S3; done.
  - unfold filled in *. cbn. by rewrite (sl_rows _ _ Hs).
  - intros i. specialize (I5 i). destruct (abs nodes !! i) as [[p|]|]; [|done..].
    destruct I5 as (bd & Hp & [B1 B2 B3 B4 B5 B6] & El). exists bd. split; [done|]. split; [|done].
    split; try done. intros w Hw. destruct (B5 w Hw) as (n & Hn & Hop). exists n. split; [by eapply current_same|done].
Qed.

(** Without the row of [n]. *)
Definition without (n : string) (e : env) : env :=
  set_fs (rm (WalManagerSpec.path st n) (e_fs e))
    (set_manifest (Manifest.set_wal (base.filter (fun d => Manifest.fname d ≠ n) (rows e)) (e_manifest e)) e).

Lemma names_without n i e : names i (without n e) = base.filter (fun m => m ≠ n) (names i e).
Proof.
  unfold names, without. change (rows (set_fs _ _)) with
    (base.filter (fun d => Manifest.fname d ≠ n) (rows e)).
  induction (rows e) as [|d l IH]; [done|].
  repeat first [rewrite filter_cons|case_decide|rewrite fmap_cons]; try done; by rewrite <- IH.
Qed.

Lemma rows_without n e d : d ∈ rows (without n e) ↔ d ∈ rows e ∧ Manifest.fname d ≠ n.
Proof. unfold rows at 1. cbn. rewrite list_elem_of_filter. naive_solver. Qed.

(** What is not at the path of [n] stays. *)
Lemma files_without n k e : name k ≠ n → (∃ k0, n = name k0) →
  fs_files (e_fs (without n e)) !! WalManagerSpec.path st (name k) =
  fs_files (e_fs e) !! WalManagerSpec.path st (name k).
Proof.
  intros Hn [k0 ->]. cbn. apply lookup_delete_ne. intros E. by apply Hn, eq_sym, (path_inj st).
Qed.

Lemma files_ok_without k0 e fc : files_ok st e fc → files_ok st (without (name k0) e) fc.
Proof.
  intros Hf. pose proof Hf as [F1 F2 F3 F4 F5 F6 F7]. split; try done.
  - intros d [Hd _]%rows_without. by apply F2.
  - unfold rows. cbn. eapply sublist_NoDup; [exact F3|]. apply fmap_sublist, sublist_filter.
  - intros k Hk. cbn. apply lookup_delete_None. right. by apply F4.
  - intros d [Hd Hn]%rows_without. destruct (F2 d Hd) as (k & _ & E). rewrite E in Hn |- *.
    rewrite files_without, <- E by eauto. by apply F6.
  - intros d [Hd _]%rows_without. by apply F7.
Qed.

Lemma last_filter (P : string → Prop) `{∀ x, Decision (P x)} l x :
  last l = Some x → P x → last (base.filter P l) = Some x.
Proof.
  intros (l' & ->)%last_Some Hx. rewrite filter_app, filter_cons, decide_True by done. apply last_snoc.
Qed.

Lemma current_without i k0 e fc mm n w :
  files_ok st e fc → n ≠ name k0 → current st i e fc mm n w →
  current st i (without (name k0) e) fc (delete (WalManagerSpec.path st (name k0)) mm) n w.
Proof.
  intros Hf Hne [C1 C2 C3 C4 C5].
  destruct (names_name st e fc i n Hf) as (k & _ & Ek); [by eapply last_Some_elem_of|]. subst n.
  assert (Ef : fs_files (e_fs (without (name k0) e)) !! WALFile._filename w =
    fs_files (e_fs e) !! WALFile._filename w) by (rewrite C2; apply files_without; eauto).
  split; [|done| |done|by apply lookup_delete_None; right].
  - rewrite names_without. by apply last_filter.
  - destruct C3 as [B1 B2 B3 B4]. split; [by rewrite Ef|done|done|]. unfold on_disk in *. by rewrite Ef.
Qed.

(** No series writes to [n]: a closed file. *)
Definition closed (n : string) (op : gmap Z string) : Prop := ∀ i, op !! i ≠ Some n.

(** The open file of a series is its last one. *)
Lemma open_last s fc op nodes bl i n : inv s fc op nodes bl → op !! i = Some n →
  last (names i (WALManager._env s)) = Some n.
Proof.
  intros Hi Ho. pose proof (iv_buffers _ _ _ _ _ _ _ Hi i) as Hb.
  destruct (abs nodes !! i) as [[p|]|]; [|done|destruct Hb as [_ E]; congruence].
  destruct Hb as (bd & Hp & [_ _ _ _ B5 B6] & _). destruct (WALManager.walfile bd) as [w|]; [|by rewrite B6 in Ho].
  destruct (B5 w eq_refl) as (n' & Hn' & E). rewrite Ho in E. injection E as <-. apply Hn'.
Qed.

(** A file that is followed by another one is closed. *)
Lemma closed_followed s fc op nodes bl i n m ns :
  inv s fc op nodes bl → names i (WALManager._env s) = n :: m :: ns → closed n op.
Proof.
  intros Hi En j Hj. apply (open_last s fc op nodes bl) in Hj as Hl; [|done].
  destruct (iv_core _ _ _ _ _ _ _ Hi) as [Hf _].
  assert (i = j) as <-.
  { eapply (names_disjoint st); [done|rewrite En; left|by eapply last_Some_elem_of]. }
  rewrite En in Hl. change (last (m :: ns) = Some n) in Hl.
  pose proof (names_NoDup st i _ _ Hf) as Hnd. rewrite En in Hnd. apply NoDup_cons in Hnd as [Hnd _].
  by apply Hnd, last_Some_elem_of.
Qed.

Definition erased (n : string) s : WALManager.t D :=
  WALManager.set_env (without n (WALManager._env s))
    (WALManager.set_mm (delete (WalManagerSpec.path st n) (WALManager._file2minmax s)) s).

Lemma erase_run n s fc : files_ok st (WALManager._env s) fc →
  WALManager.erase st n s = Ok (erased n s).
Proof.
  intros [F1 _ _ _ _ _ _]. unfold WALManager.erase, Manifest.wal_rm, Manifest.prepare. by rewrite F1, !bind_Ok.
Qed.

Lemma erased_inv k0 s fc op nodes bl :
  inv s fc op nodes bl → closed (name k0) op → inv (erased (name k0) s) fc op nodes bl.
Proof.
  intros [(C1 & [M1 M2] & _) I2 I3 I4 I5 I6] Hc. split; try done.
  - split_and!; [by apply files_ok_without| |done]. split; cbn.
    + intros d x [Hd Hn]%rows_without [_ Hx]%lookup_delete_Some. by apply (M1 d x).
    + intros k Hk. apply lookup_delete_None. right. by apply M2.
  - intros d [Hd _]%rows_without. by apply I2.
  - intros i. specialize (I5 i). destruct (abs nodes !! i) as [[p|]|] eqn:Ei; [|done..].
    destruct I5 as (bd & Hp & [B1 B2 B3 B4 B5 B6] & El). exists bd. split; [done|]. split; [|done].
    split; try done. intros w Hw. destruct (B5 w Hw) as (n & Hn & Hop). exists n. split; [|done].
    apply current_without; try done. intros ->. by apply (Hc i).
Qed.

Lemma filter_other (n : string) (l : list string) : n ∉ l → base.filter (fun m => m ≠ n) l = l.
Proof. intros Hn. apply filter_id, Forall_forall. by intros m Hm ->. Qed.

Lemma filter_first (n : string) (l : list string) : NoDup (n :: l) → base.filter (fun m => m ≠ n) (n :: l) = l.
Proof.
  intros [Hn _]%NoDup_cons. rewrite filter_cons, decide_False by naive_solver. by apply filter_other.
Qed.

Lemma flog_without i n ns e fc : NoDup (names i e) → names i e = n :: ns →
  flog i e fc = fc n ++ flog i (without n e) fc.
Proof. intros Hn En. unfold flog. rewrite names_without, En in *. by rewrite filter_first. Qed.

Lemma flog_without_other i n e fc : n ∉ names i e → flog i (without n e) fc = flog i e fc.
Proof. intros Hn. unfold flog. by rewrite names_without, filter_other. Qed.
End Erase.

(** ** Names of logs and of pages *)

Section Drop.
Context `{BtreeMultimap} `{Paths} `{FileNames} `{!DirectoryNames} `{StdSort} `{UnorderedMap}.
Variable wst : WalSettings.
Variable pst : PageSettings.
Variable crc32 : list Z → Z.
Hypothesis crc_range : ∀ bs, 0 <= crc32 bs < 2 ^ 32.
Hypothesis file_room : 1 <= wal_file_size wst < 2 ^ 59.
(** Logs and pages are in one directory. *)
Hypothesis one_path : raw_path wst = p_raw_path pst.

Abbreviation full := (PageManager.full pst).
Abbreviation inv := (WalManagerSpec.inv wst no_track).

Lemma wal_page_apart k n : plain_name n = true → (∃ pre, n = pre +:+ PAGE_FILE_EXT) →
  WalManagerSpec.path wst (name k) ≠ full n ∧ WalManagerSpec.path wst (name k) ≠ Page.index_name (full n).
Proof.
  intros Hp [pre ->]. unfold WalManagerSpec.path, PageManager.full. rewrite one_path.
  assert (Hk : plain_name (name k) = true) by by apply random_file_name_plain.
  assert (Hl : last_char (name k) = Some "l"%char) by apply last_char_app.
  split; intros E.
  - apply (f_equal extract_filename) in E. rewrite !extract_append in E by done. rewrite E in Hl.
    unfold PAGE_FILE_EXT in Hl. by rewrite last_char_app in Hl.
  - unfold Page.index_name, PageIndex.index_name_from_page_name in E. rewrite <- append_longer in E by done.
    assert (Hp' : plain_name ((pre +:+ PAGE_FILE_EXT) +:+ "i") = true) by by apply plain_name_app.
    apply (f_equal extract_filename) in E. rewrite !extract_append in E by done. rewrite E in Hl.
    by rewrite last_char_app in Hl.
Qed.

(** The pages of different logs have different files. *)
Definition page_file (k : nat) : string := file_stem k +:+ PAGE_FILE_EXT.

Lemma page_file_plain k : plain_name (page_file k) = true.
Proof. by apply random_file_name_plain. Qed.

Lemma page_file_inj k k' : page_file k = page_file k' → name k = name k'.
Proof.
  assert (Hs : ∀ k, stem (page_file k) = file_stem k).
  { intros j. destruct (file_stem_digits j) as [Hd Hn]. apply stem_append; [apply page_file_plain|done|].
    intros a b E. destruct a as [|c1 [|c2 [|c3 [|c4 [|]]]]]; discriminate. }
  intros E. unfold name, random_file_name. by rewrite <- (Hs k), <- (Hs k'), E.
Qed.

Lemma page_file_apart k k' : name k ≠ name k' →
  ∀ g, g = full (page_file k) ∨ g = Page.index_name (full (page_file k)) →
    g ≠ full (page_file k') ∧ g ≠ Page.index_name (full (page_file k')) ∧ ∀ k0, g ≠ WalManagerSpec.path wst (name k0).
Proof.
  intros Hne g Hg. assert (He : ∀ k, ∃ pre, page_file k = pre +:+ PAGE_FILE_EXT) by (by eexists).
  assert (Hf : full (page_file k) ≠ full (page_file k')).
  { intros E. apply full_inj in E; [|apply page_file_plain..]. by apply Hne, page_file_inj. }
  destruct Hg as [->| ->]; split_and!.
  - done.
  - apply full_index_apart; [apply page_file_plain..|done].
  - intros k0 E. destruct (wal_page_apart k0 (page_file k)) as [A _]; [apply page_file_plain|done|]. by apply A.
  - apply not_eq_sym, full_index_apart; [apply page_file_plain..|done].
  - intros E. by apply Hf, index_name_inj.
  - intros k0 E. destruct (wal_page_apart k0 (page_file k)) as [_ A]; [apply page_file_plain|done|]. by apply A.
Qed.

(** A new page is nothing to the logs, *)
Lemma added_same_logs n e e' : plain_name n = true → (∃ pre, n = pre +:+ PAGE_FILE_EXT) →
  Manifest.db_ok (e_manifest e) = true → Manifest.db_ok (e_manifest e') = true →
  added_frame pst n e e' → same_logs wst e e'.
Proof.
  intros Hp He D1 D2 [A1 A2 A3 A4 _]. split; try done; [congruence|].
  intros k. apply A4; by apply wal_page_apart.
Qed.

(** and a log that is erased nothing to the pages. *)
Lemma holds_without e s data k : PageManagerOps.holds pst e s data →
  PageManagerOps.holds pst (without wst (name k) e) s data.
Proof.
  intros Hh. pose proof Hh as [A1 A2 A3 A4 A5 A5']. split; try done. intros i. destruct (A1 i) as [D P S].
  split; [done| |done]. rewrite Forall_forall in P; rewrite Forall_forall in A5; rewrite Forall_forall in A5'. apply Forall_forall. intros x Hx. apply (page_of_same pst (e_fs e)); [..|by apply P].
  all: destruct (wal_page_apart k (page_name x)) as [N1 N2]; [by apply A5, (page_names_elem _ i)|
    by apply A5', (page_names_elem _ i)|]; cbn; by rewrite lookup_delete_ne.
Qed.

(** ** A round *)

Lemma meas_bytes_inj l l' : Forall meas_wf l → Forall meas_wf l' →
  concat (Meas_bytes <$> l) = concat (Meas_bytes <$> l') → l = l'.
Proof.
  intros Hl Hl' E. assert (length l = length l') as El.
  { apply (f_equal length) in E. rewrite !length_bytes in E. lia. }
  rewrite <- (fread_bytes l Hl), <- (fread_bytes l' Hl'), El. by rewrite E.
Qed.

Lemma stem_name k : stem (name k) = file_stem k.
Proof.
  destruct (file_stem_digits k) as [Hd Hn]. unfold name, random_file_name, WAL_FILE_EXT.
  apply stem_append; [apply plain_name_app, eq_refl; by apply digits_plain|done|].
  intros a b E. destruct a as [|c1 [|c2 [|c3 [|]]]]; discriminate.
Qed.

(** What the dropper is to do: the file [n], the first in the queue. *)
Record ready (w : Dropper.world) (d : Dropper.t) (n : string) (q : list string) : Prop := {
  rd_down : WALManager._down (Dropper.w_wal w) = Some d;
  rd_queue : Dropper._files_queue d = n :: q;
  rd_stop : Dropper._stop d = false;
  rd_lock : Dropper._dropper_lock d = false;
  rd_active : Dropper._active_operations d = 0;
}.

(** The stages of the pool, from the measurements of the file. *)
Lemma drop_read_ok w d fc op nodes bl k row data i :
  WALManager._down (Dropper.w_wal w) = Some d →
  inv (Dropper.w_wal w) fc op nodes bl → row ∈ rows (WALManager._env (Dropper.w_wal w)) →
  Manifest.fname row = name k → closed (name k) op →
  PageManagerOps.holds pst (WALManager._env (Dropper.w_wal w)) (Dropper.w_pages w) data →
  page_input (Z.to_nat (chunk_size pst)) i (std_sort time (fc (name k))) → 0 < chunk_size pst →
  fresh_page (full (page_file k)) (e_fs (WALManager._env (Dropper.w_wal w))) →
  strictly_by time (series_of (pages_at data i) ++ std_sort time (fc (name k))) →
  ∃ s' pm e1 x, Dropper.drop_stage_read wst pst crc32 (name k) w =
      Ok (Dropper.put_dropper (Dropper.set_active (Dropper._active_operations d - 1) d) (Dropper.mkWorld s' pm)) ∧
    s' = erased wst (name k) (WALManager.set_env e1 (Dropper.w_wal w)) ∧
    contents x = std_sort time (fc (name k)) ∧ page_name x = page_file k ∧
    same_logs wst (WALManager._env (Dropper.w_wal w)) e1 ∧
    added_frame pst (page_file k) (WALManager._env (Dropper.w_wal w)) e1 ∧
    inv s' fc op nodes bl ∧
    PageManagerOps.holds pst (WALManager._env s') pm (<[i := pages_at data i ++ [x]]> data).
Proof.
  intros Hdown Hinv Hrow En Hc Hh Hin Hcs Hf Hs. destruct (iv_core _ _ _ _ _ _ _ Hinv) as [Hfo Hmm].
  unfold Dropper.drop_stage_read. cbn zeta.
  destruct (open_file_ok wst file_room no_track (Dropper.w_wal w) fc op row) as [Ho Hd];
    [apply Hinv|by apply Hinv|done|]. rewrite En in Ho, Hd. unfold WalManagerSpec.path in Ho, Hd.
  rewrite (readAll_holds _ _ _ Ho Hd), bind_Ok. unfold Dropper.drop_stage_sort, Dropper.drop_stage_compress. cbn zeta.
  assert (Hpl : plain_name (name k) = true) by (by apply random_file_name_plain).
  rewrite (extract_plain (name k) Hpl), stem_name.
  destruct (append_async_ok pst crc32 crc_range (file_stem k) i _ (Dropper.w_pages w) _ data Hh Hin Hcs (page_file_plain k) Hf Hs)
    as (p & pm & e1 & x & -> & Ex & Enx & Hh' & Hck & Hfr). rewrite bind_Ok.
  assert (Hsl : same_logs wst (WALManager._env (Dropper.w_wal w)) e1).
  { eapply added_same_logs; [apply page_file_plain|by eexists|apply Hfo|apply Hh'|done]. }
  pose proof (inv_same wst _ _ _ _ _ _ Hsl Hinv) as Hinv1.
  unfold Dropper.on_complete. cbn [Dropper.w_wal Dropper.w_pages].
  rewrite (erase_run wst (name k) _ fc) by apply Hinv1. rewrite bind_Ok. unfold Dropper.get_dropper.
  cbn [Dropper.w_wal erased WALManager.set_env WALManager.set_mm WALManager._down]. rewrite Hdown, bind_Ok.
  eexists _, pm, e1, x. do 6 (split; [done|]).
  split; [by apply erased_inv|by apply holds_without].
Qed.

Lemma inv_set_down (s : WALManager.t Dropper.t) fc op nodes bl d :
  inv s fc op nodes bl → inv (WALManager.set_down d s) fc op nodes bl.
Proof. intros [I1 I2 I3 I4 I5 I6]. by split. Qed.

(** The file that is dropped has [r]. *)
Lemma file_contents e fc n i r bs : files_ok wst e fc → n ∈ names i e →
  fs_files (e_fs e) !! WalManagerSpec.path wst n = Some bs → bs = concat (Meas_bytes <$> r) →
  Forall meas_wf r → ∃ row, row ∈ rows e ∧ Manifest.fname row = n ∧ fc n = r.
Proof.
  intros Hf (row & Hrow & Hi & <-)%elem_names Eb -> Hr. exists row. split; [done|]. split; [done|].
  pose proof (fo_content _ _ _ Hf row Hrow) as Ec. rewrite Eb in Ec. cbn in Ec.
  destruct (fo_wf _ _ _ Hf row Hrow) as [Hwf _]. symmetry. apply meas_bytes_inj; [done| |done].
  eapply Forall_impl; [exact Hwf|]. by intros ? [].
Qed.

(** What a round leaves as it was. *)
Record round_frame (k : nat) (e e' : env) : Prop := {
  rf_writable : fs_writable (e_fs e') = fs_writable (e_fs e);
  rf_files : ∀ g, g ≠ full (page_file k) → g ≠ Page.index_name (full (page_file k)) →
    g ≠ WalManagerSpec.path wst (name k) → fs_files (e_fs e') !! g = fs_files (e_fs e) !! g;
  rf_names : ∀ j, names j e' = base.filter (fun m => m ≠ name k) (names j e);
  rf_gone : fs_files (e_fs e') !! WalManagerSpec.path wst (name k) = None;
}.

Lemma round_frame_ok k e e1 : added_frame pst (page_file k) e e1 → same_logs wst e e1 →
  round_frame k e (without wst (name k) e1).
Proof.
  intros [A1 A2 A3 A4 A5] Hsl. split.
  - done.
  - intros g G1 G2 G3. cbn. by rewrite lookup_delete_ne, A4.
  - intros j. rewrite names_without. unfold names. by rewrite (sl_rows _ _ _ Hsl).
  - apply lookup_delete_eq.
Qed.

Lemma drop_round_inv w d k q i ns r fc op nodes bl data :
  ready w d (name k) q → inv (Dropper.w_wal w) fc op nodes bl → closed (name k) op →
  PageManagerOps.holds pst (WALManager._env (Dropper.w_wal w)) (Dropper.w_pages w) data →
  let e := WALManager._env (Dropper.w_wal w) in
  names i e = name k :: ns → fc (name k) = r → page_input (Z.to_nat (chunk_size pst)) i r → 0 < chunk_size pst →
  fresh_page (full (page_file k)) (e_fs e) → strictly_by time (series_of (pages_at data i) ++ r) →
  ∃ w' e1 x, Dropper.drop_wal_internal wst pst crc32 w = Ok w' ∧ contents x = r ∧ page_name x = page_file k ∧
    Dropper.w_wal w' = WALManager.set_down (Some (Dropper.mk q false (Dropper._is_stoped d) false 0 DROPPER_OK))
      (erased wst (name k) (WALManager.set_env e1 (Dropper.w_wal w))) ∧
    same_logs wst e e1 ∧ added_frame pst (page_file k) e e1 ∧
    inv (Dropper.w_wal w') fc op nodes bl ∧
    PageManagerOps.holds pst (WALManager._env (Dropper.w_wal w')) (Dropper.w_pages w')
      (<[i := pages_at data i ++ [x]]> data).
Proof.
  intros [R1 R2 R3 R4 R5] Hinv Hc Hh e En Efc Hin Hcs Hf Hs.
  assert (Hkn : name k ∈ names i e) by (rewrite En; left).
  apply elem_names in Hkn as (row & Hrow & _ & Efn).
  assert (Hsr : strictly_by time r).
  { eapply StronglySorted_sublist; [|exact Hs]. by apply sublist_inserts_l. }
  assert (Esort : std_sort time (fc (name k)) = r) by (rewrite Efc; by apply std_sort_strictly).
  unfold Dropper.drop_wal_internal, Dropper.get_dropper. rewrite R1, bind_Ok, R2, R3, R4, R5.
  set (d1 := Dropper.set_state _ _). set (w1 := Dropper.put_dropper d1 w).
  destruct (drop_read_ok w1 d1 fc op nodes bl k row data i) as (s' & pm & e1 & x & -> & Es & Ex & Enx & Hsl & Hfr & Hi' & Hh');
    try done; [by apply inv_set_down|by rewrite Esort|by rewrite Esort|].
  rewrite bind_Ok. cbn [Dropper.put_dropper Dropper.w_wal WALManager.set_down WALManager._down]. rewrite bind_Ok.
  cbn [Dropper.set_active Dropper._active_operations d1 Dropper.set_state Dropper._state Dropper._files_queue
       Dropper.set_lock Z.add Z.sub Z.opp Z.pos_sub Z.eqb negb]. rewrite R2.
  eexists _, e1, x. split; [reflexivity|]. split; [by rewrite Ex|]. split; [done|].
  cbn [Dropper.w_wal Dropper.w_pages Dropper.put_dropper].
  split; [|split; [done|split; [done|split; [by do 2 apply inv_set_down|done]]]].
  rewrite Es. unfold Dropper.set_lock, Dropper.set_queue. cbn. by rewrite R3.
Qed.

Lemma drop_round w d k q i m ns r l data :
  ready w d (name k) q → holds_log wst (Dropper.w_wal w) l →
  PageManagerOps.holds pst (WALManager._env (Dropper.w_wal w)) (Dropper.w_pages w) data →
  let e := WALManager._env (Dropper.w_wal w) in
  names i e = name k :: m :: ns →
  fs_files (e_fs e) !! WalManagerSpec.path wst (name k) = Some (concat (Meas_bytes <$> r)) → Forall meas_wf r →
  page_input (Z.to_nat (chunk_size pst)) i r → 0 < chunk_size pst →
  fresh_page (full (page_file k)) (e_fs e) →
  strictly_by time (series_of (pages_at data i) ++ l i) →
  ∃ w' rest x, Dropper.drop_wal_internal wst pst crc32 w = Ok w' ∧ l i = r ++ rest ∧ contents x = r ∧
    holds_log wst (Dropper.w_wal w') (put_log i rest l) ∧
    PageManagerOps.holds pst (WALManager._env (Dropper.w_wal w')) (Dropper.w_pages w')
      (<[i := pages_at data i ++ [x]]> data) ∧
    WALManager._down (Dropper.w_wal w') = Some (Dropper.mk q false (Dropper._is_stoped d) false 0 DROPPER_OK) ∧
    round_frame k e (WALManager._env (Dropper.w_wal w')).
Proof.
  intros Hrd (fc & op & nodes & bl & Hinv & Hl) Hh e En Eb Hr Hin Hcs Hf Hs.
  destruct (iv_core _ _ _ _ _ _ _ Hinv) as [Hfo _].
  destruct (file_contents e fc (name k) i r _ Hfo ltac:(rewrite En; left) Eb eq_refl Hr) as (row & Hrow & Efn & Efc).
  pose proof (flog_without wst i (name k) (m :: ns) e fc (names_NoDup _ _ _ _ Hfo) En) as Elog.
  pose proof (Hl i) as Eli. fold e in Eli. rewrite Elog, Efc in Eli.
  destruct (drop_round_inv w d k q i (m :: ns) r fc op nodes bl data) as (w' & e1 & x & E & Ex & Enx & Ew & Hsl & Hfr & Hi' & Hh');
    try done; [by eapply closed_followed| |].
  { eapply StronglySorted_sublist; [|exact Hs]. rewrite Eli.
    apply sublist_app; [done|]. by apply sublist_inserts_r, sublist_inserts_r. }
  pose proof (round_frame_ok k e e1 Hfr Hsl) as Hrf.
  exists w', (flog i (without wst (name k) e) fc ++ bl i), x. split; [done|]. split; [by rewrite Eli, <- app_assoc|].
  split; [done|]. split; [|split; [done|]].
  - exists fc, op, nodes, bl. split; [done|]. intros j.
    assert (Ef : flog j (WALManager._env (Dropper.w_wal w')) fc = flog j (without wst (name k) e) fc).
    { rewrite Ew. unfold flog. cbn [WALManager._env WALManager.set_down]. rewrite names_without.
      by rewrite <- (rf_names _ _ _ Hrf). }
    rewrite Ef. unfold put_log. case_decide as Hj; [by subst j|]. rewrite flog_without_other; [apply Hl|].
    intros Hkj. apply Hj. eapply (names_disjoint wst e fc); [done|exact Hkj|rewrite En; left].
  - rewrite Ew. by split.
Qed.

(** ** The whole queue *)

(** A file to drop: its number, its series and its measurements. *)
Record task := mkTask { tk : nat; tk_id : Z; tk_meas : list Meas }.

Definition todo (ts : list task) (i : Z) : list task := base.filter (fun t => tk_id t = i) ts.

Record droppable (e : env) (ts : list task) : Prop := {
  dr_files : Forall (fun t => fs_files (e_fs e) !! WalManagerSpec.path wst (name (tk t)) =
    Some (concat (Meas_bytes <$> tk_meas t))) ts;
  dr_input : Forall (fun t => Forall meas_wf (tk_meas t) ∧
    page_input (Z.to_nat (chunk_size pst)) (tk_id t) (tk_meas t)) ts;
  dr_fresh : Forall (fun t => fresh_page (full (page_file (tk t))) (e_fs e)) ts;
  dr_first : ∀ i, i ∈ tk_id <$> ts → ∃ m ns, names i e = ((fun t => name (tk t)) <$> todo ts i) ++ m :: ns;
  dr_nodup : NoDup ((fun t => name (tk t)) <$> ts);
}.

Lemma droppable_first e t ts : droppable e (t :: ts) →
  ∃ m ns, names (tk_id t) e = name (tk t) :: m :: ns.
Proof.
  intros Hd. destruct (dr_first _ _ Hd (tk_id t)) as (m & ns & E); [left|].
  unfold todo in E. rewrite filter_cons, decide_True, fmap_cons in E by done.
  destruct (base.filter _ ts) as [|t' ts']; [by exists m, ns|]. rewrite fmap_cons in E. eexists _, _. exact E.
Qed.

Lemma droppable_next e e' fc t ts : files_ok wst e fc → droppable e (t :: ts) → round_frame (tk t) e e' → droppable e' ts.
Proof.
  intros Hf Hd. destruct (droppable_first _ _ _ Hd) as (m0 & ns0 & E0). revert Hd.
  intros [D1 D2 D3 D4 D5] [R1 R2 R3 _]. apply Forall_cons in D1 as [_ D1], D2 as [_ D2], D3 as [_ D3].
  rewrite fmap_cons in D5. apply NoDup_cons in D5 as [Hnt D5].
  assert (Hne : ∀ t', t' ∈ ts → name (tk t') ≠ name (tk t)).
  { intros t' Ht' E. apply Hnt. rewrite <- E. by apply (list_elem_of_fmap_2 (fun t => name (tk t))). }
  split; [..|done].
  - rewrite Forall_forall in D1. apply Forall_forall. intros t' Ht'. rewrite R2; [by apply D1|..].
    1,2: eapply wal_page_apart; [apply page_file_plain|by eexists].
    intros E. by apply (Hne t' Ht'), (path_inj wst).
  - done.
  - rewrite Forall_forall in D3. apply Forall_forall. intros t' Ht'. destruct (D3 t' Ht') as [F1 F2 F3 F4].
    pose proof (page_file_apart _ _ (Hne t' Ht')) as Hap.
    split; rewrite ?R1; try done; rewrite R2; try done; apply Hap; auto.
  - intros i Hi. destruct (D4 i) as (m & ns & E); [rewrite fmap_cons; by right|]. rewrite R3, E.
    unfold todo in *. rewrite filter_cons in E |- *. case_decide as Ht.
    + rewrite fmap_cons. exists m, ns. apply filter_first.
      pose proof (names_NoDup wst i _ _ Hf) as Hnd. by rewrite E in Hnd.
    + exists m, ns. apply filter_other. rewrite <- E. intros Hin. apply Ht.
      eapply (names_disjoint wst e fc); [done|rewrite E0; left|done].
Qed.

(** Nothing is lost and nothing comes twice. *)
Record drained (l : Z → list Meas) (data : gmap Z (list page_data)) (ts : list task)
    (l' : Z → list Meas) (data' : gmap Z (list page_data)) : Prop := {
  dn_total : ∀ i, series_of (pages_at data' i) ++ l' i = series_of (pages_at data i) ++ l i;
  dn_moved : ∀ i, series_of (pages_at data' i) = series_of (pages_at data i) ++ concat (tk_meas <$> todo ts i);
}.

Lemma drop_all_ok ts w d l data :
  WALManager._down (Dropper.w_wal w) = Some d → Dropper._files_queue d = (fun t => name (tk t)) <$> ts →
  Dropper._stop d = false → Dropper._dropper_lock d = false → Dropper._active_operations d = 0 →
  holds_log wst (Dropper.w_wal w) l →
  PageManagerOps.holds pst (WALManager._env (Dropper.w_wal w)) (Dropper.w_pages w) data →
  droppable (WALManager._env (Dropper.w_wal w)) ts → 0 < chunk_size pst →
  (∀ i, strictly_by time (series_of (pages_at data i) ++ l i)) →
  ∃ w' l' data', Dropper.drop_all wst pst crc32 (length ts) w = Ok w' ∧
    holds_log wst (Dropper.w_wal w') l' ∧
    PageManagerOps.holds pst (WALManager._env (Dropper.w_wal w')) (Dropper.w_pages w') data' ∧
    (∃ d', WALManager._down (Dropper.w_wal w') = Some d' ∧ Dropper.description d' = (0, 0)) ∧
    drained l data ts l' data'.
Proof.
  revert w d l data. induction ts as [|t ts IH]; intros w d l data R1 R2 R3 R4 R5 Hl Hh Hd Hcs Hs.
  { exists w, l, data. do 3 (split; [done|]). split.
    - exists d. split; [done|]. unfold Dropper.description. by rewrite R2, R5.
    - split; [done|]. intros i. by rewrite app_nil_r. }
  rewrite fmap_cons in R2. destruct (droppable_first _ _ _ Hd) as (m & ns & En).
  pose proof (dr_files _ _ Hd) as D1. pose proof (dr_input _ _ Hd) as D2. pose proof (dr_fresh _ _ Hd) as D3.
  apply Forall_cons in D1 as [D1 _], D2 as [[Hwf Hin] _], D3 as [D3 _].
  pose proof Hl as (fc & op & nodes & bl & Hinv & _). destruct (iv_core _ _ _ _ _ _ _ Hinv) as [Hfo _].
  destruct (drop_round w d (tk t) _ (tk_id t) m ns (tk_meas t) l data ltac:(by split) Hl Hh En D1 Hwf Hin Hcs D3 (Hs _))
    as (w1 & rest & x & E & Eli & Ex & Hl1 & Hh1 & Hd1 & Hrf).
  cbn [length Dropper.drop_all]. rewrite E, bind_Ok.
  set (l1 := put_log (tk_id t) rest l) in *. set (data1 := <[tk_id t := _]> data) in *.
  assert (Hser : ∀ i, series_of (pages_at data1 i) =
    series_of (pages_at data i) ++ (if decide (tk_id t = i) then tk_meas t else [])).
  { intros i. unfold data1. by rewrite series_add, Ex. }
  assert (Htot : ∀ i, series_of (pages_at data1 i) ++ l1 i = series_of (pages_at data i) ++ l i).
  { intros i. rewrite Hser. unfold l1, put_log. rewrite <- app_assoc. f_equal.
    destruct (decide (i = tk_id t)) as [->|Hi].
    - by rewrite decide_True, Eli.
    - by rewrite decide_False by congruence. }
  destruct (IH w1 _ l1 data1 Hd1) as (w' & l' & data' & E' & Hl' & Hh' & Hq & [T1 T2]); try done.
  { by eapply droppable_next. }
  { intros i. rewrite Htot. apply Hs. }
  exists w', l', data'. split; [exact E'|]. do 3 (split; [done|]). split.
  - intros i. by rewrite T1, Htot.
  - intros i. rewrite T2, Hser, <- app_assoc. f_equal. unfold todo. rewrite filter_cons. by case_decide.
Qed.
End Drop.

(** ** Properties *)


(** ** A storage *)

(** The name up to its last dot, and what follows the dot. *)
Fixpoint cut_dot (s : string) : option (string * string) :=
  match s with
  | EmptyString => None
  | String c s =>
    match cut_dot s with
    | Some (a, b) => Some (String c a, b)
    | None => if Ascii.eqb c "."%char then Some (EmptyString, s) else None
    end
  end.

Definition unix_stem (p : string) : string :=
  match cut_dot (unix_filename p) with Some (a, _) => a | None => unix_filename p end.
Definition unix_extension (p : string) : string :=
  match cut_dot (unix_filename p) with Some (_, b) => String "."%char b | None => EmptyString end.
Definition unix_entries (d : string) (f : fs) : list string :=
  base.filter (fun p => unix_parent p = d) (elements (dom (fs_files f) ∪ fs_dirs f)).

Lemma cut_dot_none s : (∀ a b, s ≠ a +:+ String "."%char b) → cut_dot s = None.
Proof.
  induction s as [|c s IH]; intros Hs; [done|]. cbn. rewrite IH.
  - destruct (Ascii.eqb_spec c "."%char) as [->|]; [|done]. by destruct (Hs "" s).
  - intros a b ->. by apply (Hs (String c a) b).
Qed.

Lemma cut_dot_app n ext : cut_dot ext = None → cut_dot (n +:+ String "."%char ext) = Some (n, ext).
Proof.
  intros He. induction n as [|c n IH].
  - change (cut_dot (String "."%char ext) = Some (EmptyString, ext)). cbn [cut_dot]. by rewrite He.
  - change (cut_dot (String c (n +:+ String "."%char ext)) = Some (String c n, ext)). cbn [cut_dot]. by rewrite IH.
Qed.

#[export] Instance unix_DirectoryNames : DirectoryNames.
Proof.
  refine {| stem := unix_stem; extension := unix_extension; directory_entries := unix_entries |}.
  - intros n ext Hp _ He. unfold unix_stem. change (unix_filename ?p) with (extract_filename p).
    rewrite extract_plain by done. by rewrite cut_dot_app by by apply cut_dot_none.
  - intros d f p. unfold unix_entries. rewrite list_elem_of_filter, elem_of_elements, elem_of_union, elem_of_dom.
    cbn. naive_solver.
Defined.

Definition small_tasks : list task :=
  let m t := mkMeas 7 t 5 3 in [mkTask 0 7 [m 1; m 2]; mkTask 1 7 [m 3; m 4]; mkTask 2 7 [m 5; m 6]].

Lemma small_tasks_input : Forall (fun t => Forall meas_wf (tk_meas t) ∧
  page_input (Z.to_nat (chunk_size small_pages)) (tk_id t) (tk_meas t)) small_tasks.
Proof.
  repeat (apply Forall_cons; split); [..|by apply Forall_nil].
  all: split; [repeat constructor; vm_compute; congruence|].
  all: split; [cbn; lia|done| |done|by vm_compute|apply (bool_decide_unpack _); by vm_compute|by repeat constructor].
  all: split; [repeat constructor; vm_compute; congruence|by repeat constructor|by intros ? ? [= <- <-]|done].
Qed.

#[local] Instance small_dropper : IWALDropper Dropper.t := Dropper_IWALDropper small_settings.

Definition small_meas : list Meas := (fun t => mkMeas 7 t 5 3) <$> [1; 2; 3; 4; 5; 6; 7; 8; 9].

(** The log manager with a dropper, after nine measurements. *)
Definition small_log : outcome (WALManager.t Dropper.t) :=
  s ← WALManager.make small_settings empty_env;
  foldM (fun s m => '(_, s) ← WALManager.append small_settings m s; Ok s)
    small_meas (WALManager.set_down (Some Dropper.make) s).

Lemma small_log_holds : ∃ s, small_log = Ok s ∧
  holds_log small_settings s (fun i => base.filter (fun m => id m = i) small_meas).
Proof.
  destruct (make_log (D := Dropper.t) small_settings no_track _ empty_env_fresh I) as (s0 & E0 & Hl & Hs).
  unfold small_log. rewrite E0, bind_Ok.
  assert (Hacc : ∀ f g (d : Dropper.t), ∃ d', wd_dropWAL f g d = Ok d').
  { intros f g d. cbn. unfold Dropper.dropWAL. repeat case_match; by eexists. }
  destruct (append_all small_settings (ones_inj WAL_FILE_EXT) Hacc ltac:(done) ltac:(done)
    no_track ltac:(done) ltac:(done) ltac:(done) small_meas
    (WALManager.set_down (Some Dropper.make) s0) (fun _ => [])) as (s & E & Hl').
  - destruct Hl as (fc & op & nodes & bl & Hi & Hl). exists fc, op, nodes, bl. split; [by apply inv_set_down|done].
  - cbn [WALManager._buffers WALManager.set_down]. by rewrite Hs.
  - repeat constructor; vm_compute; congruence.
  - by exists s.
Qed.

Definition small_files (f : fs) (t : task) : Prop :=
  fs_files f !! WalManagerSpec.path small_settings (name (tk t)) = Some (concat (Meas_bytes <$> tk_meas t)) ∧
  fs_files f !! PageManager.full small_pages (page_file (tk t)) = None ∧
  fs_files f !! Page.index_name (PageManager.full small_pages (page_file (tk t))) = None ∧
  fs_writable f (PageManager.full small_pages (page_file (tk t))) = true ∧
  fs_writable f (Page.index_name (PageManager.full small_pages (page_file (tk t)))) = true.

#[local] Instance small_files_dec f t : Decision (small_files f t) := _.

Lemma small_log_facts s : small_log = Ok s →
  WALManager._down s = Some (Dropper.mk ["1.wal"; "11.wal"; "111.wal"] false false false 0 DROPPER_OK) ∧
  names 7 (WALManager._env s) = ["1.wal"; "11.wal"; "111.wal"; "1111.wal"] ∧
  Manifest.pages (e_manifest (WALManager._env s)) = [] ∧
  Forall (small_files (e_fs (WALManager._env s))) small_tasks.
Proof.
  intros E. assert (Ec : match small_log with Ok s =>
      (WALManager._down s, names 7 (WALManager._env s), Manifest.pages (e_manifest (WALManager._env s)),
       bool_decide (Forall (small_files (e_fs (WALManager._env s))) small_tasks)) | _ => (None, [], [], false) end =
      (Some (Dropper.mk ["1.wal"; "11.wal"; "111.wal"] false false false 0 DROPPER_OK),
       ["1.wal"; "11.wal"; "111.wal"; "1111.wal"], [], true)) by by vm_compute.
  rewrite E in Ec. injection Ec as E1 E2 E3 E4%bool_decide_eq_true_1. clear E. done.
Qed.

Lemma small_droppable s : small_log = Ok s → droppable small_settings small_pages (WALManager._env s) small_tasks.
Proof.
  intros (_ & En & _ & Hf)%small_log_facts. split.
  - eapply Forall_impl; [exact Hf|]. by intros t (? & _).
  - apply small_tasks_input.
  - eapply Forall_impl; [exact Hf|]. intros t (_ & F1 & F2 & F3 & F4). by split.
  - intros i Hi. assert (i = 7) as -> by (cbn in Hi; set_solver). by exists "1111.wal", [].
  - apply (bool_decide_unpack _). by vm_compute.
Qed.

