(* ===== verification/DropperQueue.v ===== *)
(** * The queue of the dropper

    While measurements are appended, the files the log manager closes are in the queue
    of the dropper, in the order of each series, followed by the file the series
    writes to ([tracked]).  The log manager keeps this so through writes, closes and
    new files, and a round of the dropper takes the first file of the queue to the
    pages and keeps it so as well. *)

From Stdlib Require Import ZArith Lia String Sorting.Sorted.
From stdpp Require Import base numbers list gmap strings.
From S2P Require Import Prelude Float64 Meas Bloom Stat StdSort ICursor FullCursor Chunk KMerge Cursors Colapse TimeTrackSpec Series.
From S2P Require Import StripedMap TimeTrack Storages Settings Files WalFile WalManager WalManagerSpec.
From S2P Require Import PageFormat PageIndex Page PageSpec PageWrite PageProps PageManager PageManagerSpec PageManagerOps PageManagerProps.
From S2P Require Import Dropper DropperSpec.

Local Open Scope Z_scope.
#[local] Opaque jenkins_one_at_a_time_hash.

Section Queue.
Context `{BtreeMultimap} `{Paths} `{FileNames} `{!DirectoryNames} `{StdSort} `{UnorderedMap}.
Variable wst : WalSettings.
Variable pst : PageSettings.
Variable crc32 : list Z → Z.
Hypothesis names_differ : ∀ i j,
  random_file_name i WAL_FILE_EXT = random_file_name j WAL_FILE_EXT → i = j.
Hypothesis crc_range : ∀ bs, 0 <= crc32 bs < 2 ^ 32.
Hypothesis file_room : 1 <= wal_file_size wst < 2 ^ 59.
Hypothesis cache_room : 2 <= wal_cache_size wst < 2 ^ 59.
Hypothesis compressed : wal_strategy wst = COMPRESSED.
Hypothesis one_path : raw_path wst = p_raw_path pst.
Hypothesis chunk_room : 0 < chunk_size pst.

#[local] Instance queue_dropper : IWALDropper Dropper.t := Dropper_IWALDropper wst.

Abbreviation full := (PageManager.full pst).

(** The files of the series [i] that are queued. *)
Definition queued (i : Z) (e : env) (q : list string) : list string := base.filter (fun n => n ∈ names i e) q.

Record tracked (pm : PageManager.t) (data : gmap Z (list page_data)) (op : gmap Z string) (d : option Dropper.t)
    (sent : gset string) (e : env) : Prop := {
  tr_down : ∃ q b, d = Some (Dropper.mk q false b false 0 DROPPER_OK) ∧
    (∀ i, names i e = queued i e q ++ option_list (op !! i)) ∧
    (∀ n, n ∈ q → ∃ i, n ∈ names i e) ∧ NoDup q;
  tr_unsent : ∀ i n, op !! i = Some n → n ∉ sent;
  tr_sent : ∀ n, n ∈ sent → ∃ k, (k < e_calls e)%nat ∧ n = name k;
  tr_fresh : ∀ k, (∃ i, name k ∈ names i e) ∨ (e_calls e <= k)%nat → fresh_page (full (page_file k)) (e_fs e);
  tr_pages : PageManagerOps.holds pst e pm data;
}.

(** ** The pages do not see the logs *)

Lemma holds_elsewhere e e' pm data :
  Manifest.pages (e_manifest e') = Manifest.pages (e_manifest e) → Manifest.db_ok (e_manifest e') = true →
  (∀ n, plain_name n = true → (∃ pre, n = pre +:+ PAGE_FILE_EXT) →
    fs_files (e_fs e') !! full n = fs_files (e_fs e) !! full n ∧
    fs_files (e_fs e') !! Page.index_name (full n) = fs_files (e_fs e) !! Page.index_name (full n)) →
  PageManagerOps.holds pst e pm data → PageManagerOps.holds pst e' pm data.
Proof.
  intros Ep Eok Hf [A1 A2 A3 A4 A5 A6]. split; try done; [|by rewrite Ep]. intros i. destruct (A1 i) as [D P S].
  split; [done| |done]. rewrite Forall_forall in P; rewrite Forall_forall in A5; rewrite Forall_forall in A6.
  apply Forall_forall. intros x Hx.
  destruct (Hf (page_name x)) as [F1 F2]; [by apply A5, (page_names_elem _ i)|by apply A6, (page_names_elem _ i)|].
  by apply (page_of_same pst (e_fs e)); [..|apply P].
Qed.

Lemma frame_pages e e' k n : frame (WalManagerSpec.path wst (name k)) e e' →
  plain_name n = true → (∃ pre, n = pre +:+ PAGE_FILE_EXT) →
  fs_files (e_fs e') !! full n = fs_files (e_fs e) !! full n ∧
  fs_files (e_fs e') !! Page.index_name (full n) = fs_files (e_fs e) !! Page.index_name (full n).
Proof.
  intros Hf Hp He. destruct (wal_page_apart wst pst one_path k n Hp He) as [N1 N2].
  split; apply (fr_files _ _ _ Hf); by apply not_eq_sym.
Qed.

Lemma names_frame p e e' i : frame p e e' → names i e' = names i e.
Proof. intros Hf. unfold names, rows. by rewrite (fr_manifest _ _ _ Hf). Qed.

(** ** The log manager *)

Lemma tracked_write pm data op i n d x fc e e' :
  files_ok wst e fc → tracked pm data op d x e → op !! i = Some n → n ∈ names i e →
  frame (WalManagerSpec.path wst n) e e' → tracked pm data op d x e'.
Proof.
  intros Hf [(q & b & T1 & T2 & T3 & T3') T4 T5 T6 T7] Ho Hn Hfr.
  destruct (names_name wst e fc i n Hf Hn) as (k & Hk & ->).
  assert (En : ∀ i, names i e' = names i e) by (intros j; by eapply names_frame).
  split.
  - exists q, b. split; [done|]. split_and!; [|intros n' Hn'; destruct (T3 n' Hn') as [j Hj]; exists j; by rewrite En|done].
    intros j. unfold queued. rewrite En. apply T2.
  - done.
  - by rewrite (fr_calls _ _ _ Hfr).
  - intros k' Hk'. rewrite (fr_calls _ _ _ Hfr) in Hk'. setoid_rewrite En in Hk'.
    destruct (T6 k' Hk') as [F1 F2 F3 F4].
    destruct (frame_pages e e' k (page_file k') Hfr) as [E1 E2]; [apply page_file_plain|by eexists|].
    split; rewrite ?(fr_writable _ _ _ Hfr), ?E1, ?E2; done.
  - apply (holds_elsewhere e); [by rewrite (fr_manifest _ _ _ Hfr)|rewrite (fr_manifest _ _ _ Hfr); apply T7| |done].
    intros n' Hp He. by eapply frame_pages.
Qed.

Lemma queued_app i e q q' : queued i e (q ++ q') = queued i e q ++ queued i e q'.
Proof. apply filter_app. Qed.

(** The open file of a series is not in the queue. *)
Lemma open_not_queued (op : gmap Z string) e i n fc q : files_ok wst e fc →
  (∀ i, names i e = queued i e q ++ option_list (op !! i)) → op !! i = Some n →
  n ∉ q ∧ n ∈ names i e.
Proof.
  intros Hf Hn Ho. assert (Hin : n ∈ names i e).
  { rewrite Hn, Ho. apply elem_of_app. right. by left. }
  split; [|done]. intros Hq. pose proof (names_NoDup wst i e fc Hf) as Hnd. rewrite Hn, Ho in Hnd.
  apply NoDup_app in Hnd as (_ & Hx & _). apply (Hx n); [|by left]. by apply list_elem_of_filter.
Qed.

Lemma queued_ext i e e' q : (∀ n, n ∈ q → n ∈ names i e' ↔ n ∈ names i e) → queued i e' q = queued i e q.
Proof.
  intros Hq. unfold queued. induction q as [|n q IH]; [done|]. rewrite !filter_cons.
  rewrite IH by (intros n' Hn'; apply Hq; by right). specialize (Hq n (list_elem_of_here _ _)).
  destruct (decide (n ∈ names i e)), (decide (n ∈ names i e')); naive_solver.
Qed.

(** A file that is closed goes to the end of the queue. *)
Lemma dropFile_queues n q b (s : WALManager.t Dropper.t) fc :
  files_ok wst (WALManager._env s) fc → plain_name n = true →
  WALManager._down s = Some (Dropper.mk q false b false 0 DROPPER_OK) →
  n ∉ q → n ∉ WALManager._files_send_to_drop s →
  is_Some (fs_files (e_fs (WALManager._env s)) !! WalManagerSpec.path wst n) →
  ∃ sent, WALManager.dropFile (WalManagerSpec.path wst n) s =
      Ok (WALManager.set_sent sent (WALManager.set_down (Some (Dropper.mk (q ++ [n]) false b false 0 DROPPER_OK)) s)) ∧
    ∀ n', n' ∈ sent → n' = n ∨ n' ∈ WALManager._files_send_to_drop s.
Proof.
  intros Hf Hp Hd Hq Hsent [bs Hbs].
  assert (Ex : extract_filename (WalManagerSpec.path wst n) = n) by (by apply extract_append).
  unfold WALManager.dropFile, WALManager.dropWAL. rewrite Hd, !Ex.
  rewrite bool_decide_false by done. cbn [wd_dropWAL queue_dropper Dropper_IWALDropper].
  unfold Dropper.dropWAL. cbn [Dropper._files_queue]. rewrite bool_decide_false by done.
  unfold path_exists. cbn [WALManager._env WALManager.set_sent]. fold (WalManagerSpec.path wst n).
  rewrite Hbs. rewrite bool_decide_true by eauto. cbn [orb]. rewrite !bind_Ok.
  unfold Manifest.wal_list, Manifest.prepare. cbn [WALManager._env WALManager.set_sent WALManager.set_down].
  rewrite (fo_db _ _ _ Hf), !bind_Ok. eexists. split; [reflexivity|]. intros n' [_ Hn']%elem_of_filter.
  cbn in Hn'. set_solver.
Qed.

Lemma tracked_close pm data op i n fc (s s' : WALManager.t Dropper.t) :
  files_ok wst (WALManager._env s) fc →
  tracked pm data op (WALManager._down s) (WALManager._files_send_to_drop s) (WALManager._env s) →
  op !! i = Some n → last (names i (WALManager._env s)) = Some n →
  is_Some (fs_files (e_fs (WALManager._env s)) !! WalManagerSpec.path wst n) →
  close_file wst (WalManagerSpec.path wst n) s = Ok s' → WALManager._env s' = WALManager._env s →
  tracked pm data (delete i op) (WALManager._down s') (WALManager._files_send_to_drop s') (WALManager._env s').
Proof.
  intros Hf [(q & b & T1 & T2 & T3 & T3') T4 T5 T6 T7] Ho _ Hfile E _.
  destruct (open_not_queued op _ i n fc q Hf T2 Ho) as [Hnq Hin].
  destruct (names_name wst _ fc i n Hf Hin) as (k & Hk & Ek).
  unfold close_file in E. rewrite compressed in E.
  destruct (dropFile_queues n q b s fc) as (sent & E' & Hsent); try done; [by rewrite Ek; apply random_file_name_plain|by eapply T4|].
  rewrite E' in E. injection E as <-. cbn [WALManager._env WALManager._down WALManager._files_send_to_drop WALManager.set_sent WALManager.set_down].
  split; try done.
  - exists (q ++ [n]), b. split; [done|]. split_and!.
    + intros j. rewrite T2, queued_app. destruct (decide (j = i)) as [->|Hj].
      * rewrite Ho, lookup_delete_eq, app_nil_r. unfold queued at 3. by rewrite filter_cons, decide_True.
      * rewrite lookup_delete_ne by done. unfold queued at 3. rewrite filter_cons, decide_False, app_nil_r; [done|].
        intros Hx. apply Hj. by eapply (names_disjoint wst).
    + intros n' [?|Hn']%elem_of_app; [by apply T3|]. apply list_elem_of_singleton in Hn' as ->. by exists i.
    + apply NoDup_app. split; [done|]. split; [|apply NoDup_singleton].
      intros n' Hn' Hx. apply list_elem_of_singleton in Hx. congruence.
  - intros j n' [Hj Hn']%lookup_delete_Some Hs. apply Hsent in Hs as [->|Hs]; [|by eapply T4].
    apply Hj. destruct (open_not_queued op _ j n fc q Hf T2 Hn') as [_ ?]. by eapply (names_disjoint wst).
  - intros n' Hn'. destruct (Hsent n' Hn') as [->|?]; [by exists k|by apply T5].
Qed.

Lemma tracked_new pm data op i d x fc e :
  files_ok wst e fc → tracked pm data op d x e → op !! i = None →
  tracked pm data (<[i := name (e_calls e)]> op) d x (with_row i e).
Proof.
  intros Hf [(q & b & T1 & T2 & T3 & T3') T4 T5 T6 T7] Ho.
  assert (Hfr : ∀ j, name (e_calls e) ∉ names j e) by (intros j; by eapply (fresh_name wst)).
  assert (Hel : ∀ n j, n ∈ names j (with_row i e) ↔ n ∈ names j e ∨ (i = j ∧ n = name (e_calls e))).
  { intros n j. rewrite names_with_row, elem_of_app. case_decide; set_solver. }
  split; try done.
  - exists q, b. split; [done|]. split_and!; [|intros n Hn; destruct (T3 n Hn) as [j Hj]; exists j; apply Hel; by left|done].
    intros j. rewrite names_with_row, T2. rewrite (queued_ext j e (with_row i e)).
    + case_decide as Hj; [subst j; by rewrite lookup_insert_eq, Ho, app_nil_r|]. by rewrite lookup_insert_ne, app_nil_r.
    + intros n Hn. rewrite Hel. destruct (T3 n Hn) as [j' Hj']. split; [|by left]. intros [?|[_ ->]]; [done|].
      by destruct (Hfr j').
  - intros j n. rewrite lookup_insert_Some. intros [[<- <-]|[_ Hj]]; [|by eapply T4]. intros (k & Hk & E)%T5.
    apply names_differ in E. lia.
  - intros n (k & Hk & E)%T5. exists k. cbn. split; [lia|done].
  - intros k Hk. apply T6. cbn in Hk. destruct Hk as [[j [Hj|[_ Hj]]%Hel]|Hk]; [by left; exists j| |right; lia].
    right. apply names_differ in Hj. lia.
  - apply (holds_elsewhere e); try done. apply T7.
Qed.

(** ** A round of the dropper *)

Abbreviation inv pm data := (WalManagerSpec.inv wst (tracked pm data)).

(** The file at the head of the queue is the first of its series, and closed. *)
Lemma queue_head (op : gmap Z string) e fc n q : files_ok wst e fc →
  (∀ i, names i e = queued i e (n :: q) ++ option_list (op !! i)) → (∃ i, n ∈ names i e) →
  ∃ i ns k, names i e = n :: ns ∧ n = name k ∧ (k < e_calls e)%nat ∧ closed n op.
Proof.
  intros Hf Hn [i Hi]. destruct (names_name wst e fc i n Hf Hi) as (k & Hk & Ek).
  exists i, (queued i e q ++ option_list (op !! i)), k. split; [|split; [done|split; [done|]]].
  - rewrite Hn. unfold queued. by rewrite filter_cons, decide_True.
  - intros j Hj. destruct (open_not_queued op e j n fc (n :: q) Hf Hn Hj) as [Hx _]. apply Hx. left.
Qed.

Lemma queue_next (op : gmap Z string) e e' n q : NoDup (n :: q) → closed n op →
  (∀ i, names i e = queued i e (n :: q) ++ option_list (op !! i)) →
  (∀ j, names j e' = base.filter (fun m => m ≠ n) (names j e)) →
  ∀ j, names j e' = queued j e' q ++ option_list (op !! j).
Proof.
  intros [Hn _]%NoDup_cons Hc Hq He j.
  assert (Eq : queued j e' q = queued j e q).
  { apply queued_ext. intros m Hm. rewrite He, list_elem_of_filter. naive_solver. }
  rewrite He, Hq, filter_app, Eq. f_equal.
  - unfold queued. rewrite filter_cons. case_decide; rewrite ?filter_cons, ?decide_False by naive_solver.
    all: apply filter_other; by intros [_ ?]%list_elem_of_filter.
  - apply filter_other. specialize (Hc j). destruct (op !! j); cbn; set_solver.
Qed.

Lemma fresh_next k k' e e' : fresh_page (full (page_file k')) (e_fs e) → name k' ≠ name k →
  round_frame wst pst k e e' → fresh_page (full (page_file k')) (e_fs e').
Proof.
  intros [F1 F2 F3 F4] Hne [R1 R2 _ _]. pose proof (page_file_apart wst pst one_path _ _ Hne) as Hap.
  split; rewrite ?R1; try done; rewrite R2; try done; apply Hap; auto.
Qed.

Lemma tracked_round k q b pm data pm' data' op sent e e' fc :
  files_ok wst e fc → tracked pm data op (Some (Dropper.mk (name k :: q) false b false 0 DROPPER_OK)) sent e →
  (k < e_calls e)%nat → closed (name k) op → round_frame wst pst k e e' → e_calls e' = e_calls e →
  PageManagerOps.holds pst e' pm' data' →
  tracked pm' data' op (Some (Dropper.mk q false b false 0 DROPPER_OK)) sent e'.
Proof.
  intros Hf [(q' & b' & [= <- <-] & T2 & T3 & T3') T4 T5 T6 T7] Hk Hc Hr Ec Hh.
  pose proof (rf_names _ _ _ _ _ Hr) as He. pose proof T3' as [Hq Hnd]%NoDup_cons.
  split; try done.
  - exists q, b. split; [done|]. split_and!; [by eapply queue_next| |done]. intros n Hn.
    destruct (T3 n ltac:(by right)) as [j Hj]. exists j. rewrite He. apply list_elem_of_filter. naive_solver.
  - by rewrite Ec.
  - intros k' Hk'. apply (fresh_next k k' e); [|intros E|done].
    + apply T6. rewrite Ec in Hk'. destruct Hk' as [[j Hj]|?]; [left|by right]. exists j. rewrite He in Hj.
      by apply list_elem_of_filter in Hj as [_ ?].
    + rewrite Ec in Hk'. destruct Hk' as [[j Hj]|?]; [|apply names_differ in E; lia].
      rewrite He in Hj. by apply list_elem_of_filter in Hj as [? _].
Qed.

(** A round moves a file to the pages, or finds nothing to do. *)
Lemma round_ok w fc op nodes bl data :
  inv (Dropper.w_pages w) data (Dropper.w_wal w) fc op nodes bl →
  let e := WALManager._env (Dropper.w_wal w) in
  (∀ i, strictly_by time (series_of (pages_at data i) ++ flog i e fc)) →
  (∀ i n, n ∈ names i e → page_input (Z.to_nat (chunk_size pst)) i (fc n)) →
  ∃ w' data', Dropper.drop_wal_internal wst pst crc32 w = Ok w' ∧
    inv (Dropper.w_pages w') data' (Dropper.w_wal w') fc op nodes bl ∧
    WALManager._buffers (Dropper.w_wal w') = WALManager._buffers (Dropper.w_wal w) ∧
    (∀ i, series_of (pages_at data' i) ++ flog i (WALManager._env (Dropper.w_wal w')) fc =
          series_of (pages_at data i) ++ flog i e fc).
Proof.
  intros Hinv e Hs Hin. pose proof Hinv as [(Hf & _ & Ht) _ _ _ _ _].
  pose proof Ht as [(q & b & T1 & T2 & T3 & T3') _ _ T6 T7].
  destruct q as [|n q].
  { exists w, data. split; [|done]. unfold Dropper.drop_wal_internal, Dropper.get_dropper. by rewrite T1, bind_Ok. }
  destruct (queue_head op e fc n q Hf T2 (T3 n ltac:(left))) as (i & ns & k & En & -> & Hk & Hc).
  assert (Elog : flog i e fc = fc (name k) ++ flog i (without wst (name k) e) fc).
  { eapply flog_without; [by eapply (names_NoDup wst)|done]. }
  destruct (drop_round_inv wst pst crc32 crc_range file_room one_path w _ k q i ns (fc (name k)) fc op nodes bl data
    (Build_ready w _ (name k) q T1 eq_refl eq_refl eq_refl eq_refl))
    as (w' & e1 & x & E & Ex & Enx & Ew & Hsl & Hfr & Hi' & Hh'); try done.
  { by eapply inv_retrack. }
  { apply Hin. rewrite En. left. }
  { apply T6. left. exists i. fold e. rewrite En. left. }
  { eapply StronglySorted_sublist; [|exact (Hs i)]. rewrite Elog. apply sublist_app; [done|]. by apply sublist_inserts_r. }
  assert (Ee : WALManager._env (Dropper.w_wal w') = without wst (name k) e1) by by rewrite Ew.
  pose proof (round_frame_ok wst pst k e e1 Hfr Hsl) as Hrf. rewrite <- Ee in Hrf.
  exists w', (<[i := pages_at data i ++ [x]]> data). split; [done|]. split_and!.
  - eapply inv_retrack; [exact Hi'|]. rewrite Ew at 1 2. cbn [WALManager._down WALManager._files_send_to_drop
      WALManager.set_down erased WALManager.set_env WALManager.set_mm Dropper._is_stoped].
    rewrite T1 in Ht. eapply tracked_round; try done. rewrite Ee. cbn. apply Hsl.
  - by rewrite Ew.
  - intros j. rewrite series_add, Ex, <- app_assoc. f_equal.
    assert (Ej : flog j (WALManager._env (Dropper.w_wal w')) fc = flog j (without wst (name k) e) fc).
    { unfold flog. by rewrite names_without, (rf_names _ _ _ _ _ Hrf). }
    rewrite Ej. case_decide as Hj; [by subst j|]. apply flog_without_other. intros Hx. apply Hj.
    eapply (names_disjoint wst e fc); [done|rewrite En; left|done].
Qed.

End Queue.
