(* ===== verification/Engine.v ===== *)
(** * The engine

    [engines/engine.cpp]: one storage of all its levels.  Depending on the strategy
    measurements go to the write-ahead log, whose files the dropper turns to pages
    ([WAL], [COMPRESSED]), to memory, from where full chunks go to pages ([MEMORY]), or
    to memory and the log ([CACHE]); without a directory they stay in memory.  A query
    joins what the levels answer.  The managers are shared objects: [_disk] has them,
    and the pointers the memory storage keeps to them are set to it for every call.
    Tasks of the pool that are waited for run in place; the dropper takes its turn by
    [drop_round]. *)

From Stdlib Require Import ZArith Lia String.
From stdpp Require Import base numbers list gmap strings.
From S2P Require Import Prelude Float64 Meas Stat StdSort ICursor FullCursor Chunk Cursors Colapse.
From S2P Require Import StripedMap Allocators TimeTrack Storages MemStorage Settings Files Options WalFile WalManager.
From S2P Require Import PageFormat PageIndex Page PageManager Dropper.

Local Open Scope Z_scope.

(** [FullCursor], which the logs make, is also one of the cursors of chunks. *)
Fixpoint cursor_map {A B} (f : A → B) (c : cursor A) : cursor B :=
  match c with
  | Leaf c => Leaf (f c)
  | MergeSortCursor n rs times ends mn mx => MergeSortCursor n (List.map (cursor_map f) rs) times ends mn mx
  | LinearCursor n rs mn mx => LinearCursor n (List.map (cursor_map f) rs) mn mx
  end.

(** The parts of the settings each manager reads. *)
Definition wal_settings (st : Settings.t) : WalSettings :=
  mkWalSettings (Settings.raw_path st) (Settings.wal_file_size st) (Settings.wal_cache_size st)
    (strategy (Settings.intervals st)).
Definition page_settings (st : Settings.t) : PageSettings :=
  mkPageSettings (Settings.raw_path st) (Settings.chunk_size st) (Settings.max_pages_in_level st)
    (Settings.max_chunks_per_page st).
Definition mem_settings (st : Settings.t) : MemStorage.Settings :=
  MemStorage.mkSettings (Settings.is_memory_only_mode st) (Settings.percent_when_start_droping st)
    (Settings.percent_to_drop st).

(** [sizeof(ChunkHeader)] *)
Definition header_size : Z := Z.of_nat (size_of ChunkHeader.t).

(** [allocator_init] of the memory storage: one of two classes. *)
Abbreviation mem_allocator Q := (UnlimitMemoryAllocator.t + RegionChunkAllocator.t Q)%type.

#[export] Instance mem_allocator_MemAllocator {Q} `{LockfreeQueue Q} (heap : Z → option Z * option Z)
  : MemAllocator (mem_allocator Q) := {
  ma_allocator :=
    let U := unlimit_IMemoryAllocator heap in
    let R := region_IMemoryAllocator header_size in
    {| al_chunkSize a := match a with inl u => @al_chunkSize _ U u | inr r => @al_chunkSize _ R r end;
       al_allocate a :=
         match a with
         | inl u => let '(u, d) := @al_allocate _ U u in (inl u, d)
         | inr r => let '(r, d) := @al_allocate _ R r in (inr r, d)
         end;
       al_free a d :=
         match a with
         | inl u => u ← @al_free _ U u d; Ok (inl u)
         | inr r => r ← @al_free _ R r d; Ok (inr r)
         end |};
  ma_capacity a :=
    match a with inl _ => None | inr r => Some (RegionChunkAllocator._capacity r) end;
  ma_allocated a :=
    match a with
    | inl u => UnlimitMemoryAllocator._allocated u
    | inr r => RegionChunkAllocator._allocated r
    end;
}.

Definition allocator_init {Q} `{LockfreeQueue Q} (st : Settings.t) : outcome (mem_allocator Q) :=
  if Settings.is_memory_only_mode st then Ok (inl (UnlimitMemoryAllocator.make (Settings.chunk_size st)))
  else
    r ← RegionChunkAllocator.make header_size (Settings.memory_limit st) (Settings.chunk_size st);
    Ok (inr r).

Module Engine.

Definition STORAGE_FORMAT : Z := 3.
Definition MANIFEST_FILE_NAME : string := "Manifest".

(** The managers on disk, with the files: none in memory only mode and when the
    engine is stopped. *)
Inductive disk :=
| NoManagers (e : env)
| Pages (pm : PageManager.t) (e : env)
| PagesAndLogs (w : Dropper.world).

Definition disk_env (d : disk) : env :=
  match d with
  | NoManagers e => e
  | Pages _ e => e
  | PagesAndLogs w => WALManager._env (Dropper.w_wal w)
  end.

Record t (A K : Type) := mk {
  _settings : Settings.t;
  _strategy : STRATEGY;
  _thread_pool_owner : bool;
  _stoped : bool;
  _disk : disk;
  _memstorage : option (MemStorage.t A disk disk);
  (** [_drop_locker] of the memory storage *)
  _drop_locker : bool;
  _subscribe_notify : Subscribe.t;
  (** the callbacks of the subscriptions, by address *)
  _clbks : list K;
  _min_max_map : Id2MinMax;
}.
Arguments mk {A K} _ _ _ _ _ _ _ _ _ _.
Arguments _settings {A K} _.
Arguments _strategy {A K} _.
Arguments _thread_pool_owner {A K} _.
Arguments _stoped {A K} _.
Arguments _disk {A K} _.
Arguments _memstorage {A K} _.
Arguments _drop_locker {A K} _.
Arguments _subscribe_notify {A K} _.
Arguments _clbks {A K} _.
Arguments _min_max_map {A K} _.

Section Engine.
Context {A K : Type} `{MemAllocator A} `{IReadCallback K}.
Context `{BtreeMultimap} `{Paths} `{FileNames} `{!DirectoryNames} `{StdSort} `{UnorderedMap}.
Variable crc32 : list Z → Z.
Variable raw_header : ChunkHeader.t.
Variable st : Settings.t.

Implicit Types s : t A K.

#[local] Instance engine_dropper : IWALDropper Dropper.t := Dropper_IWALDropper (wal_settings st).

(** The page manager, as the memory storage uses it, *)
#[local] Instance disk_IChunkStorage : IChunkStorage disk := {
  cs_appendChunks a d :=
    match d with
    | Pages pm e => '(pm, e) ← PageManager.appendChunks (page_settings st) crc32 a pm e; Ok (Pages pm e)
    | _ => UB
    end;
}.

(** and the log manager. *)
#[local] Instance disk_IMeasWriter : IMeasWriter disk := {
  mw_append m d :=
    match d with
    | PagesAndLogs w =>
      '(r, wal) ← WALManager.append (wal_settings st) m (Dropper.w_wal w);
      Ok (r, PagesAndLogs (Dropper.mkWorld wal (Dropper.w_pages w)))
    | _ => UB
    end;
}.

Definition set_disk (d : disk) s : t A K :=
  mk (_settings s) (_strategy s) (_thread_pool_owner s) (_stoped s) d (_memstorage s) (_drop_locker s)
    (_subscribe_notify s) (_clbks s) (_min_max_map s).
Definition set_mem (m : option (MemStorage.t A disk disk)) s : t A K :=
  mk (_settings s) (_strategy s) (_thread_pool_owner s) (_stoped s) (_disk s) m (_drop_locker s)
    (_subscribe_notify s) (_clbks s) (_min_max_map s).
Definition set_drop_locker (b : bool) s : t A K :=
  mk (_settings s) (_strategy s) (_thread_pool_owner s) (_stoped s) (_disk s) (_memstorage s) b
    (_subscribe_notify s) (_clbks s) (_min_max_map s).
Definition set_subscribe (n : Subscribe.t) (ks : list K) s : t A K :=
  mk (_settings s) (_strategy s) (_thread_pool_owner s) (_stoped s) (_disk s) (_memstorage s)
    (_drop_locker s) n ks (_min_max_map s).
Definition set_min_max (m : Id2MinMax) s : t A K :=
  mk (_settings s) (_strategy s) (_thread_pool_owner s) (_stoped s) (_disk s) (_memstorage s)
    (_drop_locker s) (_subscribe_notify s) (_clbks s) m.
Definition set_stoped (b : bool) s : t A K :=
  mk (_settings s) (_strategy s) (_thread_pool_owner s) b (_disk s) (_memstorage s)
    (_drop_locker s) (_subscribe_notify s) (_clbks s) (_min_max_map s).

(** ** Pointers to the managers *)

(** A call of the page manager, when there is one. *)
Definition on_pages {X} (none : outcome X) (f : PageManager.t → env → outcome (X * PageManager.t)) s
  : outcome (X * t A K) :=
  match _disk s with
  | NoManagers _ => x ← none; Ok (x, s)
  | Pages pm e => '(x, pm) ← f pm e; Ok (x, set_disk (Pages pm e) s)
  | PagesAndLogs w =>
    '(x, pm) ← f (Dropper.w_pages w) (WALManager._env (Dropper.w_wal w));
    Ok (x, set_disk (PagesAndLogs (Dropper.mkWorld (Dropper.w_wal w) pm)) s)
  end.

(** A call of it that changes files. *)
Definition change_pages (none : outcome unit) (f : PageManager.t → env → outcome (PageManager.t * env)) s
  : outcome (t A K) :=
  match _disk s with
  | NoManagers _ => _ ← none; Ok s
  | Pages pm e => '(pm, e) ← f pm e; Ok (set_disk (Pages pm e) s)
  | PagesAndLogs w =>
    '(pm, e) ← f (Dropper.w_pages w) (WALManager._env (Dropper.w_wal w));
    Ok (set_disk (PagesAndLogs (Dropper.mkWorld (WALManager.set_env e (Dropper.w_wal w)) pm)) s)
  end.

(** A call of the log manager, when there is one. *)
Definition on_wal {X} (none : outcome X) (f : WALManager.t Dropper.t → outcome (X * WALManager.t Dropper.t)) s
  : outcome (X * t A K) :=
  match _disk s with
  | PagesAndLogs w =>
    '(x, wal) ← f (Dropper.w_wal w);
    Ok (x, set_disk (PagesAndLogs (Dropper.mkWorld wal (Dropper.w_pages w))) s)
  | _ => x ← none; Ok (x, s)
  end.

(** The objects behind the pointers of the memory storage. *)
Definition point_to (d : disk) (m : MemStorage.t A disk disk) : MemStorage.t A disk disk :=
  MemStorage.setDownLevel ((fun _ => d) <$> MemStorage._down_level_storage m)
    (MemStorage.setDiskStorage ((fun _ => d) <$> MemStorage._disk_storage m) m).

Definition pointed (d : disk) (m : MemStorage.t A disk disk) : disk :=
  match MemStorage._down_level_storage m, MemStorage._disk_storage m with
  | Some d, _ => d
  | None, Some d => d
  | None, None => d
  end.

(** A call of the memory storage, when there is one. *)
Definition on_mem {X} (none : outcome X)
    (f : MemStorage.t A disk disk → outcome (X * MemStorage.t A disk disk)) s : outcome (X * t A K) :=
  match _memstorage s with
  | None => x ← none; Ok (x, s)
  | Some m =>
    '(x, m) ← f (point_to (_disk s) m);
    Ok (x, set_disk (pointed (_disk s) m) (set_mem (Some m) s))
  end.

(** [_top_level_storage]: the memory storage, else the log manager; null once the
    engine is stopped. *)
Definition on_top {X} (none : outcome X)
    (fm : MemStorage.t A disk disk → outcome (X * MemStorage.t A disk disk))
    (fw : WALManager.t Dropper.t → outcome (X * WALManager.t Dropper.t)) s : outcome (X * t A K) :=
  match _memstorage s with
  | Some _ => on_mem none fm s
  | None => on_wal none fw s
  end.

(** ** Locks *)

(** The lock of the dropper, when there is one. *)
Definition dropper_lock s : option bool :=
  match _disk s with
  | PagesAndLogs w => Dropper._dropper_lock <$> WALManager._down (Dropper.w_wal w)
  | _ => None
  end.

Definition mem_lock s : option bool :=
  match _memstorage s with None => None | Some _ => Some (_drop_locker s) end.

Definition set_locks (b : bool) s : t A K :=
  let s :=
    match _disk s with
    | PagesAndLogs w =>
      match WALManager._down (Dropper.w_wal w) with
      | Some d => set_disk (PagesAndLogs (Dropper.put_dropper (Dropper.set_lock b d) w)) s
      | None => s
      end
    | _ => s
    end in
  match _memstorage s with None => s | Some _ => set_drop_locker b s end.

Definition is_locked s : bool := default false (dropper_lock s) || default false (mem_lock s).

Definition try_lock_storage s : outcome (bool * t A K) :=
  match dropper_lock s, mem_lock s with
  | None, None => Throw
  | _, _ => if is_locked s then Ok (false, s) else Ok (true, set_locks true s)
  end.

(** A lock that is held is waited for. *)
Definition lock_storage s : outcome (t A K) := if is_locked s then Diverge else Ok (set_locks true s).

Definition unlock_storage s : t A K := set_locks false s.

Definition locked {X} (f : t A K → outcome (X * t A K)) s : outcome (X * t A K) :=
  s ← lock_storage s; '(x, s) ← f s; Ok (x, unlock_storage s).

(** A task that tries to lock and asks to be run again when it cannot. *)
Definition locked_task {X} (f : t A K → outcome (X * t A K)) s : outcome (X * t A K) :=
  '(ok, s) ← try_lock_storage s;
  if ok : bool then '(x, s) ← f s; Ok (x, unlock_storage s) else Diverge.

(** ** Minimum and maximum *)

Definition append_minmax (r : Id2MinMax * t A K) (mm : outcome (option Id2MinMax * t A K))
  : outcome (Id2MinMax * t A K) :=
  '(x, s) ← mm;
  match x with
  | None => Ok (r.1, s)
  | Some x => '(out, _) ← minmax_append r.1 x; Ok (out, s)
  end.

Definition page_minmax s : outcome (option Id2MinMax * t A K) :=
  on_pages (Ok None) (fun pm e => '(m, pm) ← PageManager.loadMinMax (page_settings st) pm e; Ok (Some m, pm)) s.
Definition wal_minmax s : outcome (option Id2MinMax * t A K) :=
  on_wal (Ok None) (fun w => '(m, w) ← WALManager.loadMinMax (wal_settings st) w; Ok (Some m, w)) s.
Definition top_minmax (none : outcome (option Id2MinMax)) s : outcome (option Id2MinMax * t A K) :=
  on_top none (fun m => '(x, m) ← MemStorage.loadMinMax m; Ok (Some x, m))
    (fun w => '(x, w) ← WALManager.loadMinMax (wal_settings st) w; Ok (Some x, w)) s.

Definition readMinMaxFromStorages s : outcome (t A K) :=
  if negb (Settings.load_min_max (_settings s)) then Ok s
  else
    '(r, s) ← append_minmax (_min_max_map s, s) (page_minmax s);
    '(r, s) ← append_minmax (r, s) (wal_minmax s);
    '(r, s) ← append_minmax (r, s) (top_minmax (Ok None) s);
    Ok (set_min_max r s).

Definition loadMinMax s : outcome (Id2MinMax * t A K) :=
  locked (fun s =>
    '(r, s) ← append_minmax (StrippedMap.make 1000, s) (page_minmax s);
    '(r, s) ← (match _strategy s with CACHE => append_minmax (r, s) (wal_minmax s) | _ => Ok (r, s) end);
    append_minmax (r, s) (top_minmax UB s)) s.

(** [minTime] and [maxTime]; [f] is the minimum or the maximum. *)
Definition time_of_levels (f : Z → Z → Z) (start : Z)
    (fp : PageManager.t → env → outcome (Z * PageManager.t))
    (fw : WALManager.t Dropper.t → outcome (Z * WALManager.t Dropper.t))
    (fm : MemStorage.t A disk disk → outcome (Z * MemStorage.t A disk disk)) s : outcome (Z * t A K) :=
  locked (fun s =>
    '(p, s) ← on_pages (Ok start) fp s;
    '(p, s) ← (match _strategy s with
               | CACHE => '(a, s) ← on_wal UB fw s; Ok (f p a, s)
               | _ => Ok (p, s)
               end);
    '(a, s) ← on_top UB fm fw s;
    Ok (f p a, s)) s.

Definition minTime s : outcome (Z * t A K) :=
  time_of_levels Z.min MAX_TIME (PageManager.minTime (page_settings st)) (WALManager.minTime (wal_settings st))
    MemStorage.minTime s.
Definition maxTime s : outcome (Z * t A K) :=
  time_of_levels Z.max MIN_TIME (PageManager.maxTime (page_settings st)) (WALManager.maxTime (wal_settings st))
    MemStorage.maxTime s.

(** The memory storage leaves the variables as they are when it has nothing. *)
Definition top_minMaxTime (i mn mx : Z) s : outcome (bool * Z * Z * t A K) :=
  '(r, s) ← on_top UB
    (fun m => '(r, m) ← MemStorage.minMaxTime i m;
              Ok (match r with None => (false, mn, mx) | Some (a, b) => (true, a, b) end, m))
    (fun w => '(r, a, b, w) ← WALManager.minMaxTime (wal_settings st) i w; Ok (r, a, b, w)) s;
  Ok (r.1.1, r.1.2, r.2, s).

(** With the strategy [CACHE] the task for the log is made and the one for the top
    level is posted a second time. *)
Definition minMaxTime (i : Z) s : outcome (bool * Z * Z * t A K) :=
  '(x, s) ← locked (fun s =>
    '(p, s) ← (if negb (Settings.is_memory_only_mode (_settings s))
               then on_pages UB (fun pm e => '(r, a, b, pm) ← PageManager.minMaxTime (page_settings st) i pm e;
                                             Ok ((r, a, b), pm)) s
               else Ok ((false, MAX_TIME, MIN_TIME), s));
    '(ar, mn, mx, s) ← top_minMaxTime i MAX_TIME MIN_TIME s;
    '(ar, mn, mx, s) ← (match _strategy s with
                        | CACHE => top_minMaxTime i mn mx s
                        | _ => Ok (ar, mn, mx, s)
                        end);
    Ok ((p.1.1 || ar, Z.min p.1.2 mn, Z.max p.2 mx), s)) s;
  let '(r, mn, mx) := x in
  Ok (r, mn, mx, s).

(** ** Writing *)

(** [fuel] bounds the attempts of the memory storage. *)
Definition append (fuel : nat) (value : Meas) s : outcome (Status * t A K) :=
  '(result, s) ← on_top UB (MemStorage.append raw_header fuel value) (WALManager.append (wal_settings st) value) s;
  if bool_decide (writed result = Some 1) then
    ks ← Subscribe.on_append value (_subscribe_notify s) (_clbks s);
    m ← StrippedMap.with_bucket MeasMinMax_default (_min_max_map s) (id value) (fun d => Ok (updateMax value d));
    Ok (result, set_min_max m (set_subscribe (_subscribe_notify s) ks s))
  else Ok (result, s).

(** The callback gets the next address. *)
Definition subscribe (ids : list Z) (fl : Z) (clbk : K) s : outcome (t A K) :=
  if _thread_pool_owner s then
    Ok (set_subscribe (Subscribe.add (Subscribe.mkSubscribeInfo ids fl (length (_clbks s))) (_subscribe_notify s))
          (_clbks s ++ [clbk]) s)
  else Throw.

Definition currentValue (ids : list Z) (fl : Z) s : outcome (gmap Z Meas * t A K) :=
  locked (fun s =>
    s ← (if StrippedMap._size (_min_max_map s) =? 0 then readMinMaxFromStorages s else Ok s);
    '(m, r) ← StrippedMap.apply (fun (r : gmap Z Meas) v =>
      if ((length ids =? 0)%nat || existsb (Z.eqb v.1) ids) && inFlag fl (mm_max v.2)
      then Ok (match r !! v.1 with None => <[v.1 := mm_max v.2]> r | Some _ => r end)
      else Ok r) (_min_max_map s) ∅;
    Ok (r, set_min_max m s)) s.

Definition flush s : outcome (t A K) :=
  '(_, s) ← on_wal (Ok ()) (fun w => w ← WALManager.flush (wal_settings st) w; Ok ((), w)) s; Ok s.

(** ** Reading *)

Abbreviation readers := (gmap Z (cursor Chunk.cursor)).

Definition lift_wal (r : gmap Z (cursor FullCursor.t)) : readers := cursor_map inr <$> r.

Definition from_wal (q : QueryInterval) s : outcome (readers * t A K) :=
  on_wal (Ok ∅) (fun w =>
    '(r, w) ← WALManager.intervalReader (wal_settings st) q w; Ok (lift_wal r, w)) s.
Definition from_mem (q : QueryInterval) s : outcome (readers * t A K) :=
  on_mem UB (MemStorage.intervalReader q) s.
Definition from_top (q : QueryInterval) s : outcome (readers * t A K) :=
  match _memstorage s with Some _ => from_mem q s | None => from_wal q s end.

Definition push_all (l : list (Z * cursor Chunk.cursor)) (all : gmap Z (list (cursor Chunk.cursor)))
  : gmap Z (list (cursor Chunk.cursor)) := fold_left PageManager.push_cursor l all.

(** [tm] is the level above the pages. *)
Definition internal_readers_two_level (q : QueryInterval) (tm : QueryInterval → t A K → outcome (readers * t A K))
    s : outcome (readers * t A K) :=
  '(pm_readers, s) ← on_pages (Ok ∅) (PageManager.intervalReader (page_settings st) q) s;
  '(tm_readers, s) ← tm q s;
  let all_readers := push_all (um_list pm_readers) (push_all (um_list tm_readers) ∅) in
  r ← colapseCursorsMap (um_list all_readers);
  Ok (list_to_map r, s).

(** [IdSet] in its order. *)
Fixpoint id_insert (i : Z) (l : list Z) : list Z :=
  match l with
  | [] => [i]
  | j :: l => if i <? j then i :: j :: l else if i =? j then j :: l else j :: id_insert i l
  end.

Definition with_period (i from to : Z) (q : QueryInterval) : QueryInterval :=
  mkQueryInterval [i] (qi_flag q) from to (qi_step q).

Definition interval_readers_from_disk_only (ids : list Z) (q : QueryInterval) s : outcome (readers * t A K) :=
  match ids with
  | [] => Ok (∅, s)
  | _ => internal_readers_two_level (mkQueryInterval ids (qi_flag q) (qi_from q) (qi_to q) 0) from_wal s
  end.

(** The memory storage gets the whole query. *)
Definition interval_readers_from_mem_only (ids : list Z) (q : QueryInterval) s : outcome (readers * t A K) :=
  match ids with
  | [] => Ok (∅, s)
  | _ => from_mem q s
  end.

(** Where the measurements of an identifier are: on disk, in memory, or on both
    sides of the time it was last written to disk. *)
Record places := mkPlaces {
  disk_only : list Z;
  mem_only : list Z;
  queryById : list (Z * (QueryInterval * QueryInterval));
}.

Definition place_id (q : QueryInterval) (memory_mm : Id2MinMax) (sync_map : gmap Z Z) (p : places) (i : Z)
  : outcome places :=
  '(_, found) ← StrippedMap.find memory_mm i;
  match found with
  | None => Ok (mkPlaces (id_insert i (disk_only p)) (mem_only p) (queryById p))
  | Some mm =>
    if qi_from q <? time (mm_min mm) then
      let min_mem_time := um_at 0 i sync_map in
      if min_mem_time <=? qi_to q then
        let disk_q := with_period i (qi_from q) min_mem_time q in
        let mem_q := with_period i (u64 (min_mem_time + 1)) (qi_to q) q in
        Ok (mkPlaces (disk_only p) (mem_only p) (StdMap.sm_insert i (disk_q, mem_q) (queryById p)))
      else Ok (mkPlaces (id_insert i (disk_only p)) (mem_only p) (queryById p))
    else Ok (mkPlaces (disk_only p) (id_insert i (mem_only p)) (queryById p))
  end.

Definition interval_readers_when_cache (q : QueryInterval) s : outcome (readers * t A K) :=
  '(memory_mm, s) ← on_mem UB MemStorage.loadMinMax s;
  '(sync_map, s) ← on_mem UB MemStorage.getSyncMap s;
  p ← foldM (place_id q memory_mm sync_map) (qi_ids q) (mkPlaces [] [] []);
  '(disk_only_readers, s) ← interval_readers_from_disk_only (disk_only p) q s;
  '(mem_only_readers, s) ← interval_readers_from_mem_only (mem_only p) q s;
  '(result, s) ← foldM (fun (x : readers * t A K) kv =>
    '(disk_readers, s) ← internal_readers_two_level kv.2.1 from_wal x.2;
    '(mm_readers, s) ← from_mem kv.2.2 s;
    r_ptr ← colapseCursors ((snd <$> um_list mm_readers) ++ (snd <$> um_list disk_readers));
    Ok (<[kv.1 := r_ptr]> x.1, s)) (queryById p) (∅, s);
  let put (r : readers) (l : readers) := fold_left (fun r kv => <[kv.1 := kv.2]> r) (um_list l) r in
  Ok (put (put result disk_only_readers) mem_only_readers, s).

Definition intervalReader (q : QueryInterval) s : outcome (readers * t A K) :=
  locked_task (fun s =>
    match _strategy s with
    | CACHE => interval_readers_when_cache q s
    | _ => internal_readers_two_level q from_top s
    end) s.

Definition readInterval (q : QueryInterval) s : outcome (list Meas * t A K) :=
  '(r, s) ← intervalReader q s;
  p ← foldM (read_one q) (qi_ids q) (r, []);
  Ok (p.2, s).

Definition stat_from_disk (i from to : Z) s : outcome (Statistic * t A K) :=
  '(x, s) ← on_pages (Ok Statistic_empty) (PageManager.stat (page_settings st) i from to) s;
  '(y, s) ← on_wal (Ok Statistic_empty) (WALManager.stat (wal_settings st) i from to) s;
  Ok (update_stat y (update_stat x Statistic_empty), s).

(** An identifier memory has is read from disk only; for another one the times of
    [mm], which nothing has set, decide. *)
Definition stat_from_cache (i from to : Z) s : outcome (Statistic * t A K) :=
  '(memory_mm, s) ← on_mem UB MemStorage.loadMinMax s;
  '(sync_map, s) ← on_mem UB MemStorage.getSyncMap s;
  '(_, found) ← StrippedMap.find memory_mm i;
  match found with
  | Some _ => stat_from_disk i from to s
  | None =>
    if from <? time (mm_min MeasMinMax_default) then
      let min_mem_time := um_at 0 i sync_map in
      if min_mem_time <=? to then
        '(disk_stat, s) ← stat_from_disk i from min_mem_time s;
        '(mem_stat, s) ← on_mem UB (MemStorage.stat i (u64 (min_mem_time + 1)) to) s;
        Ok (update_stat mem_stat disk_stat, s)
      else stat_from_disk i from to s
    else on_mem UB (MemStorage.stat i from to) s
  end.

Definition stat (i from to : Z) s : outcome (Statistic * t A K) :=
  locked_task (fun s =>
    match _strategy s with
    | CACHE => '(x, s) ← stat_from_cache i from to s; Ok (update_stat x Statistic_empty, s)
    | _ =>
      '(x, s) ← stat_from_disk i from to s;
      let result := update_stat x Statistic_empty in
      match _memstorage s with
      | None => Ok (result, s)
      | Some _ => '(y, s) ← on_mem UB (MemStorage.stat i from to) s; Ok (update_stat y result, s)
      end
    end) s.

Definition top_readTimePoint (q : QueryTimePoint) s : outcome (gmap Z Meas * t A K) :=
  on_top UB (MemStorage.readTimePoint q) (WALManager.readTimePoint (wal_settings st) q) s.

(** One turn of the loop over the identifiers. *)
Definition read_point (q : QueryTimePoint) (x : gmap Z Meas * t A K) (i : Z) : outcome (gmap Z Meas * t A K) :=
  let '(result, s) := x in
  let local_q := mkQueryTimePoint [i] (qt_flag q) (qt_time_point q) in
  '(found, minT, maxT, s) ← top_minMaxTime i 0 0 s;
  if found && ((minT <? qt_time_point q) || (maxT <? qt_time_point q)) then
    '(subres, s) ← top_readTimePoint local_q s;
    Ok (<[i := um_at Meas_default i subres]> result, s)
  else
    '(result, in_wal_level, s) ← (match _strategy s with
      | CACHE =>
        '(subres, s) ← on_wal UB (WALManager.readTimePoint (wal_settings st) local_q) s;
        let value := um_at Meas_default i subres in
        Ok (<[i := value]> result, negb (flag value =? _NO_DATA), s)
      | _ => Ok (result, false, s)
      end);
    if in_wal_level : bool then Ok (result, s)
    else
      '(subres, s) ← on_pages (Ok None) (fun pm e =>
        '(r, pm) ← PageManager.valuesBeforeTimePoint (page_settings st) local_q pm e; Ok (Some r, pm)) s;
      Ok (match subres with
          | None => result
          | Some subres => <[i := um_at Meas_default i subres]> result
          end, s).

Definition readTimePoint (q : QueryTimePoint) s : outcome (gmap Z Meas * t A K) :=
  let result := fold_left (fun (r : gmap Z Meas) i =>
    let m := um_at Meas_default i r in <[i := mkMeas (id m) (time m) (value m) _NO_DATA]> r) (qt_ids q) ∅ in
  locked_task (fun s => foldM (read_point q) (qt_ids q) (result, s)) s.

(** ** The dropper *)

(** A round of its thread. *)
Definition drop_round s : outcome (t A K) :=
  match _disk s with
  | PagesAndLogs w =>
    w ← Dropper.drop_wal_internal (wal_settings st) (page_settings st) crc32 w; Ok (set_disk (PagesAndLogs w) s)
  | _ => Ok s
  end.

(** The files in the queue and those being worked on. *)
Definition dropper_description s : Z * Z :=
  match _disk s with
  | PagesAndLogs w => match WALManager._down (Dropper.w_wal w) with Some d => Dropper.description d | None => (0, 0) end
  | _ => (0, 0)
  end.

Fixpoint drop_rounds (n : nat) s : outcome (t A K) :=
  match n with O => Ok s | S n => s ← drop_round s; drop_rounds n s end.

(** While it waits, the thread of the dropper works off the queue. *)
Definition compress_all s : outcome (t A K) :=
  match _disk s with
  | PagesAndLogs w =>
    wal ← WALManager.dropAll (wal_settings st) (Dropper.w_wal w);
    d ← Dropper.get_dropper (Dropper.mkWorld wal (Dropper.w_pages w));
    d ← Dropper.flush d;
    d ← Dropper.flush d;
    s ← flush (set_disk (PagesAndLogs (Dropper.put_dropper d (Dropper.mkWorld wal (Dropper.w_pages w)))) s);
    s ← drop_rounds (Z.to_nat (dropper_description s).1) s;
    if bool_decide (dropper_description s = (0, 0)) then Ok s else Diverge
  | _ => Ok s
  end.

(** ** Maintenance *)

Definition fsck s : outcome (t A K) :=
  s ← lock_storage s;
  s ← change_pages UB (PageManager.fsck (page_settings st) crc32) s;
  Ok (unlock_storage s).

Definition eraseOld (i tm : Z) s : outcome (t A K) :=
  s ← lock_storage s;
  s ← change_pages (Ok ()) (PageManager.eraseOld (page_settings st) i tm) s;
  '(_, s) ← on_mem (Ok ()) (fun m => m ← MemStorage.dropOld i tm m; Ok ((), m)) s;
  Ok (unlock_storage s).

Definition flush_id (i : Z) s : outcome (t A K) :=
  '(_, s) ← on_wal (Ok ()) (fun w => w ← WALManager.flush_id (wal_settings st) i w; Ok ((), w)) s; Ok s.

(** [now], [now']: the current time, when it is asked for. *)
Definition repack (now i : Z) s : outcome (t A K) :=
  s ← lock_storage s;
  s ← flush_id i s;
  s ← change_pages UB (PageManager.repack (page_settings st) crc32 now i) s;
  Ok (unlock_storage s).

Definition compact (now now' : Z) (logic : CompactionController) s : outcome (t A K) :=
  s ← lock_storage s;
  s ← flush_id (targetId logic) s;
  s ← change_pages UB (PageManager.compact (page_settings st) crc32 now now' logic) s;
  Ok (unlock_storage s).

(** [memstorage::Description]: the capacity, zero for the heap, and the chunks. *)
Record Description := mkDescription {
  wal_count : Z; pages_count : Z; active_works : Z; d_dropper : Z * Z; d_memstorage : Z * Z;
}.

Definition description (works : Z) s : outcome Description :=
  '(wal_count, _) ← on_wal (Ok 0) (fun w => n ← WALManager.filesCount (wal_settings st) w; Ok (n, w)) s;
  '(pages_count, _) ← on_pages (Ok 0) (fun pm e => n ← PageManager.files_count e; Ok (n, pm)) s;
  Ok (mkDescription wal_count pages_count works (dropper_description s)
        match _memstorage s with
        | None => (0, 0)
        | Some m =>
          let a := w_alloc (MemStorage._world m) in (default 0 (ma_capacity a), ma_allocated a)
        end).

(** ** Starting and stopping *)

Definition lockfile_path : string := append_path (Settings.storage_path st) "lockfile".

Definition lockfile_unlock (f : fs) : fs := rm lockfile_path f.

(** The program ends when the storage is locked. *)
Definition lockfile_lock_or_die (ignore_lock_file : bool) (f : fs) : outcome fs :=
  f ← (if path_exists lockfile_path f then
         if negb ignore_lock_file then Throw else Ok (lockfile_unlock f)
       else Ok f);
  if fs_writable f lockfile_path
  then Ok (mkFs (<[lockfile_path := [108; 111; 99; 107; 101; 100; 46]]> (fs_files f)) (fs_dirs f) (fs_writable f))
  else Throw.

Definition check_storage_version (m : Manifest.t) : outcome unit :=
  v ← Manifest.get_format m;
  storage_version ← stoi v;
  if negb (storage_version =? STORAGE_FORMAT) then Throw else Ok ().

(** The files a storage starts with: its directories, the lock and the manifest. *)
Definition open_storage (ignore_lock_file : bool) (e : env) : outcome env :=
  let f := e_fs e in
  let f := if path_exists (Settings.storage_path st) f then f
           else mkdir (Settings.raw_path st) (mkdir (Settings.storage_path st) f) in
  f ← lockfile_lock_or_die ignore_lock_file f;
  let manifest_file_name := append_path (Settings.storage_path st) MANIFEST_FILE_NAME in
  let is_new_storage := negb (file_exists manifest_file_name f) in
  '(m, f) ← Manifest.create (Settings.storage_path st) (Settings.raw_path st) (Some (e_manifest e)) f;
  let f := mkFs (<[manifest_file_name := default [] (fs_files f !! manifest_file_name)]> (fs_files f))
             (fs_dirs f) (fs_writable f) in
  if is_new_storage then
    m ← Manifest.set_format (to_string STORAGE_FORMAT) m;
    Ok (mkEnv f m (e_calls e))
  else
    _ ← check_storage_version m;
    Ok (mkEnv (Dropper.cleanStorage (Settings.raw_path st) f) m (e_calls e)).

(** [allocator]: what [allocator_init] answers. *)
Definition new_memstorage (allocator : outcome A) : outcome (MemStorage.t A disk disk) :=
  a ← allocator; MemStorage.make (mem_settings st) a 0.

Definition init_managers (allocator : outcome A) (e : env) : outcome (disk * option (MemStorage.t A disk disk)) :=
  if Settings.is_memory_only_mode st then
    m ← new_memstorage allocator; Ok (NoManagers e, Some m)
  else
    pm ← PageManager.make (page_settings st) e;
    match strategy (Settings.intervals st) with
    | MEMORY =>
      m ← new_memstorage allocator;
      Ok (Pages pm e, Some (MemStorage.setDownLevel (Some (Pages pm e)) m))
    | x =>
      wal ← WALManager.make (wal_settings st) e;
      wal ← WALManager.setDownlevel (wal_settings st) (Some Dropper.make) wal;
      let d := PagesAndLogs (Dropper.mkWorld wal pm) in
      match x with
      | CACHE => m ← new_memstorage allocator; Ok (d, Some (MemStorage.setDiskStorage (Some d) m))
      | _ => Ok (d, None)
      end
    end.

Definition make (allocator : outcome A) (init_threadpool ignore_lock_file : bool) (e : env) : outcome (t A K) :=
  e ← (if Settings.is_memory_only_mode st then Ok e else open_storage ignore_lock_file e);
  '(d, m) ← init_managers allocator e;
  let n := Subscribe.mk [] true in
  readMinMaxFromStorages
    (mk st (strategy (Settings.intervals st)) init_threadpool false d m false
       (if init_threadpool then Subscribe.start n else n) [] (StrippedMap.make 1000)).

(** The memory storage drops to the pages what it can; the log manager, flushed a
    second time, has nothing left to write. *)
Definition stop s : outcome (t A K) :=
  if _stoped s then Ok s
  else
    let s := if _thread_pool_owner s then set_subscribe (Subscribe.stop (_subscribe_notify s)) (_clbks s) s else s in
    s ← flush s;
    '(_, s) ← on_mem (Ok ()) (fun m => m ← MemStorage.stop m; Ok ((), m)) s;
    s ← flush s;
    let e := disk_env (_disk s) in
    let e := if negb (Settings.is_memory_only_mode (_settings s)) then set_fs (lockfile_unlock (e_fs e)) e else e in
    Ok (set_stoped true (set_mem None (set_disk (NoManagers e) s))).

End Engine.
End Engine.
