(* ===== verification/EngineSpec.v ===== *)
(** * The engine: nothing is lost

    The levels of a storage with the strategy [COMPRESSED] put together: whatever
    measurements are appended, subscribed to and asked for, and whenever the dropper
    takes its turns, the engine answers as the list of all appended measurements
    does. *)

From Stdlib Require Import ZArith Lia String Sorting.Sorted.
From stdpp Require Import base numbers list gmap strings.
From S2P Require Import Prelude Float64 Meas Bloom Stat StdSort ICursor FullCursor Chunk KMerge Cursors Colapse TimeTrackSpec Series.
From S2P Require Import StripedMap Allocators TimeTrack Storages MemStorage Settings Files Options WalFile WalManager WalManagerSpec.
From S2P Require Import PageFormat PageIndex Page PageSpec PageWrite PageProps PageManager PageManagerSpec PageManagerOps PageManagerProps.
From S2P Require Import Dropper DropperSpec DropperQueue Engine MemStorageSpec.

Local Open Scope Z_scope.
#[local] Opaque jenkins_one_at_a_time_hash.

(** ** Cursors of two levels *)

Lemma flat_lift (c : cursor FullCursor.t) l : flat c l → flat (cursor_map inr c : cursor Chunk.cursor) l.
Proof.
  intros (rs & ls & Hr & Hn & Ec & Hc). exists (inr <$> rs), ls. split_and!; [|done|done|].
  - apply Forall2_fmap_l. eapply Forall2_impl; [exact Hr|]. intros r x [E1 E2 E3 E4]. by split.
  - destruct c as [r|??????|n cs mn mx]; [by subst rs|done|]. destruct Hc as (-> & -> & -> & ->). split_and!; try done.
    clear. induction rs as [|r rs IH]; [done|]. cbn in *. by rewrite IH.
Qed.

Section Readers.
Context `{UnorderedMap}.

Lemma push_list_lookup (l : list (Z * cursor Chunk.cursor)) all i : NoDup l.*1 →
  Engine.push_all l all !! i =
  match list_to_map (M := gmap Z _) l !! i with
  | None => all !! i
  | Some c => Some (um_at [] i all ++ [c])
  end.
Proof.
  revert all. induction l as [|[j c] l IH]; intros all Hnd; [done|]. rewrite fmap_cons in Hnd.
  apply NoDup_cons in Hnd as [Hj Hnd]. unfold Engine.push_all in *. cbn [fold_left list_to_map foldr].
  rewrite IH by done. change (foldr _ _ l) with (list_to_map (M := gmap Z (cursor Chunk.cursor)) l).
  unfold PageManager.push_cursor, um_at. cbn [fst snd uncurry].
  destruct (decide (i = j)) as [->|Hij].
  - rewrite lookup_insert_eq, (not_elem_of_list_to_map_1 l j), lookup_insert_eq by done. done.
  - by rewrite !lookup_insert_ne by done.
Qed.

Lemma push_all_lookup (r : gmap Z (cursor Chunk.cursor)) all i :
  Engine.push_all (um_list r) all !! i =
  match r !! i with None => all !! i | Some c => Some (um_at [] i all ++ [c]) end.
Proof.
  assert (Hp : um_list r ≡ₚ map_to_list r) by apply um_perm.
  assert (Hnd : NoDup (um_list r).*1) by (rewrite Hp; apply NoDup_fst_map_to_list).
  rewrite push_list_lookup by done. by rewrite (list_to_map_proper _ _ Hnd Hp), list_to_map_to_list.
Qed.

(** The readers of both levels, the upper one first. *)
Lemma both_lookup (rp rw : gmap Z (cursor Chunk.cursor)) i :
  Engine.push_all (um_list rp) (Engine.push_all (um_list rw) ∅) !! i =
  match rw !! i, rp !! i with
  | None, None => None
  | cw, cp => Some (option_list cw ++ option_list cp)
  end.
Proof.
  rewrite push_all_lookup. unfold um_at. rewrite !push_all_lookup, lookup_empty.
  unfold um_at. rewrite lookup_empty. by destruct (rw !! i), (rp !! i).
Qed.
End Readers.

(** ** What a storage promises *)

(** Calls of the engine, and turns of the dropper. *)
Inductive op (K : Type) :=
| Append (m : Meas)
| Subscribe (ids : list Z) (fl : Z) (clbk : K)
| DropRound
| Read (q : QueryInterval)
| Current (ids : list Z) (fl : Z).
Arguments Append {K} m.
Arguments Subscribe {K} ids fl clbk.
Arguments DropRound {K}.
Arguments Read {K} q.
Arguments Current {K} ids fl.

Inductive answer :=
| Done
| Wrote (x : Status)
| Values (l : list Meas)
| Latest (m : gmap Z Meas).

(** All that was appended, and the subscriptions with what their callbacks were given. *)
Record spec (K : Type) := mkSpec {
  sp_log : list Meas;
  sp_subs : list (Subscribe.SubscribeInfo * K);
}.
Arguments mkSpec {K} _ _.
Arguments sp_log {K} _.
Arguments sp_subs {K} _.

Definition series (i : Z) (log : list Meas) : list Meas := base.filter (fun m => id m = i) log.

(** The later of two measurements; a new series starts with one of time zero. *)
Definition newer (c m : Meas) : Meas := if time c <? time m then m else c.
Definition latest (log : list Meas) : gmap Z Meas :=
  fold_left (fun c m => <[id m := newer (default Meas_default (c !! id m)) m]> c) log ∅.

Definition asked (ids : list Z) (fl : Z) (v : Z * Meas) : Prop := (ids = [] ∨ v.1 ∈ ids) ∧ inFlag fl v.2 = true.
#[export] Instance asked_dec ids fl v : Decision (asked ids fl v).
Proof. unfold asked. apply _. Defined.

Definition spec_op {K} `{IReadCallback K} (o : op K) (x : spec K) : answer * spec K :=
  match o with
  | Append m =>
    (Wrote (Status_writed 1),
     mkSpec (sp_log x ++ [m])
       ((fun sub => (sub.1, if Subscribe.isYours sub.1 m then callback m sub.2 else sub.2)) <$> sp_subs x))
  | Subscribe ids fl clbk =>
    (Done, mkSpec (sp_log x) (sp_subs x ++ [(Subscribe.mkSubscribeInfo ids fl (length (sp_subs x)), clbk)]))
  | DropRound => (Done, x)
  | Read q => (Values (concat ((fun i => base.filter (in_query q) (series i (sp_log x))) <$> qi_ids q)), x)
  | Current ids fl => (Latest (base.filter (asked ids fl) (latest (sp_log x))), x)
  end.

Fixpoint spec_run {K} `{IReadCallback K} (ops : list (op K)) (x : spec K) : list answer * spec K :=
  match ops with
  | [] => ([], x)
  | o :: ops =>
    let '(a, x) := spec_op o x in
    let '(rest, x) := spec_run ops x in (a :: rest, x)
  end.

(** What a sequence of calls appends. *)
Definition appended {K} (ops : list (op K)) : list Meas :=
  omap (fun o => match o with Append m => Some m | _ => None end) ops.

(** ** The queries of single series *)

Lemma series_id i log m : m ∈ series i log → id m = i.
Proof. unfold series. by intros [? _]%list_elem_of_filter. Qed.

Lemma local_in_query q i m : i ∈ qi_ids q → id m = i → in_query (IEngine.local_query q i) m ↔ in_query q m.
Proof.
  intros Hi Hm. unfold in_query, inQueryInterval, inQuery, IEngine.local_query. cbn [qi_ids qi_flag qi_from qi_to].
  assert (inIds [i] m = true ∧ inIds (qi_ids q) m = true) as [-> ->]; [|done]. cbn. rewrite Hm, Z.eqb_refl. split; [done|].
  destruct (qi_ids q) as [|j l]; [by apply elem_of_nil in Hi|]. unfold inIds. rewrite Hm. apply existsb_exists.
  exists i. split; [by apply list_elem_of_In|apply Z.eqb_refl].
Qed.

Lemma local_filter q i (l : list Meas) : i ∈ qi_ids q → (∀ m, m ∈ l → id m = i) →
  base.filter (in_query (IEngine.local_query q i)) l = base.filter (in_query q) l.
Proof.
  intros Hi. induction l as [|m l IH]; intros Hl; [done|]. rewrite !filter_cons, IH by (intros; apply Hl; by right).
  pose proof (local_in_query q i m Hi (Hl m ltac:(left))). by repeat case_decide; try done; exfalso; tauto.
Qed.

Lemma flags_series q i l : flags_exact q l → flags_exact q (series i l).
Proof. apply Forall_sublist_of, sublist_filter. Qed.

Lemma local_flags q i log : i ∈ qi_ids q → flags_exact q log → flags_exact (IEngine.local_query q i) (series i log).
Proof.
  intros Hi Hfl. pose proof (flags_series q i _ Hfl) as Hfi. unfold flags_exact in *. rewrite Forall_forall in Hfi |- *.
  intros m Hmem Hq. apply Hfi; [done|]. eapply local_in_query; [done| |done]. by apply (series_id i log).
Qed.

(** ** Subscriptions *)

Section Subscriptions.
Context {K : Type} `{IReadCallback K}.

(** The subscriptions and their callbacks, which were given the addresses in order. *)
Definition subscribed (subs : list (Subscribe.SubscribeInfo * K)) (n : Subscribe.t) (ks : list K) : Prop :=
  Subscribe._subscribes n = subs.*1 ∧ ks = subs.*2 ∧ Subscribe.sub_clbk <$> subs.*1 = seq 0 (length subs).

Lemma notify_all m (done_ todo : list (Subscribe.SubscribeInfo * K)) :
  Subscribe.sub_clbk <$> todo.*1 = seq (length done_) (length todo) →
  foldM (Subscribe.notify m) todo.*1 (done_.*2 ++ todo.*2) =
  Ok (done_.*2 ++ ((fun sub => if Subscribe.isYours sub.1 m then callback m sub.2 else sub.2) <$> todo)).
Proof.
  revert done_. induction todo as [|[si k] todo IH]; intros done_ Ha; [done|].
  rewrite !fmap_cons in *. cbn [length seq fst snd] in Ha. injection Ha as Hsi Ha. cbn [foldM fst snd].
  assert (Hn : Subscribe.notify m (done_.*2 ++ k :: todo.*2) si =
    Ok ((done_ ++ [(si, if Subscribe.isYours si m then callback m k else k)]).*2 ++ todo.*2)).
  { unfold Subscribe.notify. rewrite Hsi, fmap_app. cbn [fmap list_fmap snd]. rewrite <- app_assoc.
    destruct (Subscribe.isYours si m); [|done].
    assert (El : length done_ = length done_.*2) by by rewrite length_fmap.
    rewrite lookup_app_r, El, Nat.sub_diag by lia. cbn. f_equal.
    rewrite insert_app_r_alt, Nat.sub_diag by lia. done. }
  rewrite Hn, bind_Ok, IH.
  - by rewrite fmap_app, <- app_assoc.
  - rewrite length_app. cbn. by rewrite Nat.add_1_r.
Qed.

Lemma subscribed_append (x : spec K) m n ks : subscribed (sp_subs x) n ks →
  ∃ ks', Subscribe.on_append m n ks = Ok ks' ∧ subscribed (sp_subs (spec_op (Append m) x).2) n ks'.
Proof.
  intros (E1 & -> & E3). unfold Subscribe.on_append. rewrite E1. pose proof (notify_all m [] (sp_subs x) E3) as Hn.
  cbn [app fmap list_fmap] in Hn. rewrite Hn. eexists. split; [done|]. unfold subscribed. cbn [spec_op snd sp_subs].
  rewrite <- !list_fmap_compose, length_fmap. split_and!; [exact E1|done|by rewrite <- E3, <- list_fmap_compose].
Qed.

Lemma subscribed_add (x : spec K) ids fl clbk n ks : subscribed (sp_subs x) n ks →
  subscribed (sp_subs (spec_op (Subscribe ids fl clbk) x).2)
    (Subscribe.add (Subscribe.mkSubscribeInfo ids fl (length ks)) n) (ks ++ [clbk]).
Proof.
  intros (E1 & -> & E3). unfold subscribed. cbn [spec_op snd sp_subs Subscribe.add Subscribe._subscribes].
  rewrite E1, !fmap_app. cbn [fmap list_fmap fst snd Subscribe.sub_clbk]. rewrite length_fmap, E3, length_app, seq_app. done.
Qed.
End Subscriptions.

Section Compressed.
Context {A K : Type} `{MemAllocator A} `{IReadCallback K}.
Context `{BtreeMultimap} `{Paths} `{FileNames} `{!DirectoryNames} `{StdSort} `{UnorderedMap}.
Variable crc32 : list Z → Z.
Variable raw_header : ChunkHeader.t.
Variable st : Settings.t.
Hypothesis names_differ : ∀ i j,
  random_file_name i WAL_FILE_EXT = random_file_name j WAL_FILE_EXT → i = j.
Hypothesis crc_range : ∀ bs, 0 <= crc32 bs < 2 ^ 32.
Hypothesis file_room : 1 <= Settings.wal_file_size st < 2 ^ 59.
Hypothesis cache_room : 2 <= Settings.wal_cache_size st < 2 ^ 59.
Hypothesis chunk_room : 0 < Settings.chunk_size st.
Hypothesis compressed : strategy (Settings.intervals st) = COMPRESSED.
Hypothesis on_disk_mode : Settings.is_memory_only_mode st = false.

Abbreviation wst := (wal_settings st).
Abbreviation pst := (page_settings st).
#[local] Instance spec_dropper : IWALDropper Dropper.t := Dropper_IWALDropper wst.

Implicit Types s : Engine.t A K.

(** ** Reading *)

(** The parts of a series the levels answer with, collapsed. *)
Lemma colapse_two q (cp cw : option (cursor Chunk.cursor)) lp lw total :
  match cp with None => lp = [] | Some c => flat c lp ∧ lp ≠ [] end →
  match cw with None => lw = [] | Some c => flat c lw ∧ lw ≠ [] end →
  lp ++ lw `sublist_of` total → ordered_log total → Forall (fun m => MIN_TIME <= time m) total →
  base.filter (in_query q) (lp ++ lw) = base.filter (in_query q) total → option_list cw ++ option_list cp ≠ [] →
  ∃ c, match option_list cw ++ option_list cp with [r] => Ok r | rs => colapseCursors rs end = Ok c ∧
    ∃ l, rep c l ∧ l `sublist_of` total ∧ base.filter (in_query q) l = base.filter (in_query q) total.
Proof.
  intros Hp Hw Hsub (O1 & O2 & O3) Hmin Hq Hne.
  assert (Hs : strictly_by time (lp ++ lw)) by (by eapply StronglySorted_sublist).
  assert (Ht : Forall (fun m => MIN_TIME <= time m <= MAX_TIME) (lp ++ lw)).
  { eapply Forall_sublist_of; [exact Hsub|]. apply Forall_forall. intros m Hm.
    rewrite Forall_forall in O2; rewrite Forall_forall in Hmin. specialize (O2 m Hm). specialize (Hmin m Hm). cbn in *. lia. }
  assert (Hl : Z.of_nat (length (lp ++ lw)) < 2 ^ 64) by (apply sublist_length in Hsub; lia).
  assert (∃ c, match option_list cw ++ option_list cp with [r] => Ok r | rs => colapseCursors rs end = Ok c ∧
    flat c (lp ++ lw)) as (c & E & Hc).
  { destruct cp as [cp|], cw as [cw|]; cbn [option_list app] in *; [..|done].
    - destruct (colapse_flat [cw; cp] [lw; lp] [lp; lw]) as (c & E & Hc).
      + constructor; [apply Hw|]. constructor; [apply Hp|constructor].
      + apply Permutation_swap.
      + constructor; [apply Hp|]. constructor; [apply Hw|constructor].
      + done.
      + cbn. by rewrite app_nil_r.
      + cbn. by rewrite app_nil_r.
      + cbn. by rewrite app_nil_r.
      + exists c. split; [done|]. cbn in Hc. by rewrite app_nil_r in Hc.
    - subst lw. rewrite app_nil_r. exists cp. split; [done|apply Hp].
    - subst lp. exists cw. split; [done|apply Hw]. }
  exists c. split; [done|]. exists (lp ++ lw). split; [by apply flat_rep|by split].
Qed.

(** What the two answers have of a series. *)
Lemma parts_of_levels q w fc op nodes bl data rp (rw : gmap Z (cursor FullCursor.t)) i :
  WalManagerSpec.inv wst no_track (Dropper.w_wal w) fc op nodes bl →
  let e := WALManager._env (Dropper.w_wal w) in
  answers q (pages_at data) rp → i ∈ qi_ids q →
  match rw !! i with
  | None => i ∈ qi_ids q → WalFile.selected q i (flog i e fc ++ bl i) = []
  | Some c => i ∈ qi_ids q ∧ flat c (WalFile.selected q i (flog i e fc ++ bl i)) ∧ WalFile.selected q i (flog i e fc ++ bl i) ≠ []
  end →
  ∃ lp lw,
    match rp !! i with None => lp = [] | Some c => flat c lp ∧ lp ≠ [] end ∧
    match Engine.lift_wal rw !! i with None => lw = [] | Some c => flat c lw ∧ lw ≠ [] end ∧
    lp ++ lw `sublist_of` series_of (pages_at data i) ++ flog i e fc ++ bl i ∧
    base.filter (in_query q) (lp ++ lw) =
    base.filter (in_query q) (series_of (pages_at data i) ++ flog i e fc ++ bl i).
Proof.
  intros Hinv e Hp Hi Hw. specialize (Hp i). unfold Engine.lift_wal. rewrite lookup_fmap.
  assert (Hids : Forall (fun m => id m = i) (flog i e fc ++ bl i)).
  { eapply Forall_impl; [by eapply (log_wf wst)|]. by intros m []. }
  rewrite selected_own in Hw by done. set (log := flog i e fc ++ bl i) in *.
  assert (Hf : ∀ l : list Meas, base.filter (in_query q) (base.filter (in_query q) l) = base.filter (in_query q) l).
  { intros l. apply filter_id, Forall_forall. by intros m [? _]%list_elem_of_filter. }
  assert (∃ lw, match cursor_map inr <$> rw !! i with None => lw = [] | Some c => flat (c : cursor Chunk.cursor) lw ∧ lw ≠ [] end ∧
    lw = base.filter (in_query q) log) as (lw & Hlw & ->).
  { destruct (rw !! i) as [c|]; cbn.
    - destruct Hw as (_ & Hc & Hn). eexists. split; [split; [by apply flat_lift|done]|done].
    - exists []. by rewrite Hw. }
  destruct (rp !! i) as [c|].
  - destruct Hp as (_ & l & Hc & Hsub & Hn & E). exists l. eexists. split; [done|]. split; [done|]. split.
    + apply sublist_app; [done|apply sublist_filter].
    + by rewrite !filter_app, E, Hf.
  - exists []. eexists. split; [done|]. split; [done|]. split.
    + apply sublist_inserts_l, sublist_filter.
    + by rewrite filter_app, Hf, filter_app, Hp.
Qed.

Lemma two_level_ok q s w fc op nodes bl data :
  Engine._disk s = Engine.PagesAndLogs w → Engine._memstorage s = None →
  WalManagerSpec.inv wst no_track (Dropper.w_wal w) fc op nodes bl →
  let e := WALManager._env (Dropper.w_wal w) in
  let total i := series_of (pages_at data i) ++ flog i e fc ++ bl i in
  PageManagerOps.holds pst e (Dropper.w_pages w) data → NoDup (qi_ids q) →
  (∀ i, i ∈ qi_ids q → ordered_log (total i) ∧ flags_exact q (total i)) →
  ∃ r pm, Engine.internal_readers_two_level st q (Engine.from_top st) s =
      Ok (r, Engine.set_disk (Engine.PagesAndLogs (Dropper.mkWorld (Dropper.w_wal w) pm)) s) ∧
    same (Dropper.w_pages w) pm ∧
    ∀ i, match r !! i with
      | None => i ∈ qi_ids q → base.filter (in_query q) (total i) = []
      | Some c => i ∈ qi_ids q ∧ ∃ l, rep c l ∧ l `sublist_of` total i ∧
          base.filter (in_query q) l = base.filter (in_query q) (total i)
      end.
Proof.
  intros Ed Em Hinv e total Hh Hnd Hq.
  assert (Hlp : ∀ i, ordered_log (total i) → Z.of_nat (length (total i)) < 2 ^ 64 ∧
    ordered_log (flog i e fc ++ bl i) ∧ Z.of_nat (length (series_of (pages_at data i))) < 2 ^ 64).
  { intros i (O1 & O2 & O3). split; [done|]. unfold total in *. rewrite length_app in O3. split; [|lia].
    apply Forall_app in O2 as [_ O2]. apply StronglySorted_append in O1 as (_ & O1 & _). split_and!; [done..|lia]. }
  unfold Engine.internal_readers_two_level, Engine.on_pages. rewrite Ed.
  destruct (manager_intervalReader_ok pst q (Dropper.w_pages w) e (pages_at data)) as (rp & pm & Ep & Hsame & Hp).
  { done. }
  { intros i _. apply Hh. }
  { intros i Hi. destruct (Hq i Hi) as [Ho Hfl]. split; [|by apply Hlp]. by apply Forall_app in Hfl as [? _]. }
  fold e. rewrite Ep, !bind_Ok. unfold Engine.from_top, Engine.from_wal, Engine.on_wal.
  cbn [Engine._memstorage Engine.set_disk Engine._disk Dropper.w_wal Dropper.w_pages]. rewrite Em.
  destruct (intervalReader_ok wst file_room cache_room no_track q (Dropper.w_wal w) fc op nodes bl Hinv Hnd) as (rw & Ew & Hw).
  { intros i Hi. apply Hlp. by apply Hq. }
  rewrite Ew, !bind_Ok. fold e in Hw.
  assert (Hparts : ∀ i, i ∈ qi_ids q → ∃ lp lw,
    match rp !! i with None => lp = [] | Some c => flat c lp ∧ lp ≠ [] end ∧
    match Engine.lift_wal rw !! i with None => lw = [] | Some c => flat c lw ∧ lw ≠ [] end ∧
    lp ++ lw `sublist_of` total i ∧
    base.filter (in_query q) (lp ++ lw) = base.filter (in_query q) (total i)).
  { intros i Hi. exact (parts_of_levels q w fc op nodes bl data rp rw i Hinv Hp Hi (Hw i)). }
  set (all := Engine.push_all _ _).
  destruct (colapse_gmap all (fun i c => i ∈ qi_ids q ∧ ∃ l, rep c l ∧ l `sublist_of` total i ∧
    base.filter (in_query q) l = base.filter (in_query q) (total i))) as (r & E & Hr).
  { intros i rs Hi. unfold all in Hi. rewrite both_lookup in Hi.
    assert (Hin : i ∈ qi_ids q).
    { specialize (Hp i). specialize (Hw i). unfold Engine.lift_wal in Hi. rewrite lookup_fmap in Hi.
      destruct (rw !! i); [apply Hw|]. destruct (rp !! i); [apply Hp|done]. }
    destruct (Hparts i Hin) as (lp & lw & P1 & P2 & P3 & P4).
    destruct (colapse_two q (rp !! i) (Engine.lift_wal rw !! i) lp lw (total i)) as (c & Ec & Hc); try done.
    - by apply Hq.
    - unfold total. apply Forall_app. split.
      + eapply Forall_impl; [eapply series_times, (ho_series _ _ _ _ Hh)|]. cbn. lia.
      + eapply Forall_impl; [by eapply (log_wf wst)|]. intros m [(_ & Ht & _) _]. unfold is_time in Ht. unfold MIN_TIME. lia.
    - by destruct (rp !! i), (Engine.lift_wal rw !! i).
    - exists c. split; [|by split]. rewrite <- Ec. by destruct (rp !! i), (Engine.lift_wal rw !! i); simplify_eq. }
  rewrite E, bind_Ok. exists (list_to_map r), pm. split; [done|]. split; [done|]. intros i. specialize (Hr i).
  destruct (list_to_map r !! i) as [c|]; [by apply Hr|]. intros Hi.
  destruct (Hparts i Hi) as (lp & lw & P1 & P2 & P3 & <-). unfold all in Hr. rewrite both_lookup in Hr.
  destruct (rp !! i), (Engine.lift_wal rw !! i); try done. by subst.
Qed.
(** ** Locks *)

Lemma set_down_id (wal : WALManager.t Dropper.t) d : WALManager._down wal = Some d → WALManager.set_down (Some d) wal = wal.
Proof. destruct wal. cbn. by intros ->. Qed.

(** The lock of the dropper is free. *)
Definition unheld (w : Dropper.world) : Prop :=
  ∃ d, WALManager._down (Dropper.w_wal w) = Some d ∧ Dropper._dropper_lock d = false.

(** The storage while its lock is held. *)
Definition held (w : Dropper.world) : Dropper.world :=
  match WALManager._down (Dropper.w_wal w) with
  | Some d => Dropper.put_dropper (Dropper.set_lock true d) w
  | None => w
  end.

Lemma set_locks_on s w : Engine._disk s = Engine.PagesAndLogs w → Engine._memstorage s = None → unheld w →
  Engine.is_locked s = false ∧
  Engine.set_locks true s = Engine.set_disk (Engine.PagesAndLogs (held w)) s.
Proof.
  intros Ed Em (d & Hd & Hl). unfold Engine.is_locked, Engine.dropper_lock, Engine.mem_lock, Engine.set_locks, held.
  rewrite Ed, Em, Hd. cbn. by rewrite Hl, Em.
Qed.

Lemma set_locks_off s w pm : Engine._memstorage s = None → unheld w →
  Engine.set_locks false (Engine.set_disk (Engine.PagesAndLogs (Dropper.mkWorld (Dropper.w_wal (held w)) pm)) s) =
  Engine.set_disk (Engine.PagesAndLogs (Dropper.mkWorld (Dropper.w_wal w) pm)) s.
Proof.
  intros Em (d & Hd & Hl). unfold Engine.set_locks, held. rewrite Hd. cbn. rewrite Em.
  unfold Engine.set_disk, Dropper.put_dropper. cbn. rewrite Em. do 3 f_equal.
  rewrite <- (set_down_id (Dropper.w_wal w) d Hd) at 2. unfold WALManager.set_down. cbn. do 2 f_equal.
  unfold Dropper.set_lock. destruct d. cbn in *. by subst.
Qed.

(** A task that reads. *)
Lemma locked_task_ok {X} (f : Engine.t A K → outcome (X * Engine.t A K)) s s' w pm x :
  Engine._disk s = Engine.PagesAndLogs w → Engine._memstorage s = None → Engine._memstorage s' = None → unheld w →
  f (Engine.set_disk (Engine.PagesAndLogs (held w)) s) =
    Ok (x, Engine.set_disk (Engine.PagesAndLogs (Dropper.mkWorld (Dropper.w_wal (held w)) pm)) s') →
  Engine.locked_task f s = Ok (x, Engine.set_disk (Engine.PagesAndLogs (Dropper.mkWorld (Dropper.w_wal w) pm)) s') ∧
  Engine.locked f s = Ok (x, Engine.set_disk (Engine.PagesAndLogs (Dropper.mkWorld (Dropper.w_wal w) pm)) s').
Proof.
  intros Ed Em Em' Hu Ef. destruct (set_locks_on s w Ed Em Hu) as [El Es].
  unfold Engine.locked_task, Engine.try_lock_storage, Engine.locked, Engine.lock_storage, Engine.unlock_storage.
  assert (∃ b, Engine.dropper_lock s = Some b) as [b Eb].
  { unfold Engine.dropper_lock. rewrite Ed. destruct Hu as (d & -> & _). by eexists. }
  rewrite Eb, El, !bind_Ok, Es, Ef, !bind_Ok. by rewrite (set_locks_off s' w pm).
Qed.

Lemma intervalReader_two q s w fc op nodes bl data :
  Engine._disk s = Engine.PagesAndLogs w → Engine._memstorage s = None → Engine._strategy s = COMPRESSED →
  unheld w → WalManagerSpec.inv wst no_track (Dropper.w_wal w) fc op nodes bl →
  let e := WALManager._env (Dropper.w_wal w) in
  let total i := series_of (pages_at data i) ++ flog i e fc ++ bl i in
  PageManagerOps.holds pst e (Dropper.w_pages w) data → NoDup (qi_ids q) →
  (∀ i, i ∈ qi_ids q → ordered_log (total i) ∧ flags_exact q (total i)) →
  ∃ r pm, Engine.intervalReader st q s =
      Ok (r, Engine.set_disk (Engine.PagesAndLogs (Dropper.mkWorld (Dropper.w_wal w) pm)) s) ∧
    same (Dropper.w_pages w) pm ∧
    ∀ i, match r !! i with
      | None => i ∈ qi_ids q → base.filter (in_query q) (total i) = []
      | Some c => i ∈ qi_ids q ∧ ∃ l, rep c l ∧ l `sublist_of` total i ∧
          base.filter (in_query q) l = base.filter (in_query q) (total i)
      end.
Proof.
  intros Ed Em Es Hu Hinv e total Hh Hnd Hq. destruct Hu as (d & Hd & Hl). unfold held.
  set (s1 := Engine.set_disk (Engine.PagesAndLogs (held w)) s).
  assert (Ew : WALManager._env (Dropper.w_wal (held w)) = e) by (unfold held; by rewrite Hd).
  assert (Ep : Dropper.w_pages (held w) = Dropper.w_pages w) by (unfold held; by rewrite Hd).
  destruct (two_level_ok q s1 (held w) fc op nodes bl data) as (r & pm & Er & Hsame & Hr); try done.
  { unfold held. rewrite Hd. by apply inv_set_down. }
  { by rewrite Ew, Ep. }
  { by rewrite Ew. }
  rewrite Ew in Hr. exists r, pm. rewrite <- Ep. split; [|done]. unfold Engine.intervalReader.
  destruct (locked_task_ok (fun s => match Engine._strategy s with
    | CACHE => Engine.interval_readers_when_cache st q s
    | _ => Engine.internal_readers_two_level st q (Engine.from_top st) s end) s s w pm r Ed Em Em ltac:(by exists d)) as [-> _]; [|done].
  cbn [Engine._strategy Engine.set_disk]. rewrite Es. fold s1. by rewrite Er.
Qed.

Lemma readInterval_ok q s w fc op nodes bl data :
  Engine._disk s = Engine.PagesAndLogs w → Engine._memstorage s = None → Engine._strategy s = COMPRESSED →
  unheld w → WalManagerSpec.inv wst no_track (Dropper.w_wal w) fc op nodes bl →
  let e := WALManager._env (Dropper.w_wal w) in
  let total i := series_of (pages_at data i) ++ flog i e fc ++ bl i in
  PageManagerOps.holds pst e (Dropper.w_pages w) data → NoDup (qi_ids q) →
  (∀ i, i ∈ qi_ids q → ordered_log (total i) ∧ flags_exact q (total i)) →
  ∃ pm, Engine.readInterval st q s =
      Ok (concat ((fun i => base.filter (in_query q) (total i)) <$> qi_ids q),
          Engine.set_disk (Engine.PagesAndLogs (Dropper.mkWorld (Dropper.w_wal w) pm)) s) ∧
    same (Dropper.w_pages w) pm.
Proof.
  intros Ed Em Es Hu Hinv e total Hh Hnd Hq.
  destruct (intervalReader_two q s w fc op nodes bl data) as (r & pm & E & Hsame & Hr); try done.
  exists pm. split; [|done]. unfold Engine.readInterval. rewrite E, bind_Ok.
  destruct (read_one_fold q r [] (fun i => base.filter (in_query q) (total i)) (qi_ids q) Hnd)
    as [r' ->]; [|by rewrite bind_Ok]. intros i Hi. specialize (Hr i).
  destruct (r !! i) as [c|]; [|by apply Hr]. destruct Hr as (_ & l & Hl & _ & Ef). by exists l.
Qed.

(** ** The calls *)

Definition engine_op (fuel : nat) (o : op K) s : outcome (answer * Engine.t A K) :=
  match o with
  | Append m => '(x, s) ← Engine.append crc32 raw_header st fuel m s; Ok (Wrote x, s)
  | Subscribe ids fl clbk => s ← Engine.subscribe ids fl clbk s; Ok (Done, s)
  | DropRound => s ← Engine.drop_round crc32 st s; Ok (Done, s)
  | Read q => '(l, s) ← Engine.readInterval st q s; Ok (Values l, s)
  | Current ids fl => '(m, s) ← Engine.currentValue st ids fl s; Ok (Latest m, s)
  end.

(** What is appended can be put on pages, whatever run of it a log file has. *)
Definition storable (i : Z) (l : list Meas) : Prop :=
  ∀ a r b, l = a ++ r ++ b → r ≠ [] → Z.of_nat (length r) <= Settings.wal_file_size st →
    page_input (Z.to_nat (Settings.chunk_size st)) i r.

Abbreviation tracks pm data := (WalManagerSpec.inv wst (tracked pst pm data)).

(** The engine has what [x] has; [n] bounds the number of series. *)
Record keeps (owner : bool) (n : Z) (x : spec K) s : Prop := {
  kp_strategy : Engine._strategy s = COMPRESSED;
  kp_mem : Engine._memstorage s = None;
  kp_settings : Engine._settings s = st;
  kp_owner : Engine._thread_pool_owner s = owner;
  kp_disk : ∃ w fc op nodes bl data, Engine._disk s = Engine.PagesAndLogs w ∧
    tracks (Dropper.w_pages w) data (Dropper.w_wal w) fc op nodes bl ∧
    (∀ i, series i (sp_log x) = series_of (pages_at data i) ++ flog i (WALManager._env (Dropper.w_wal w)) fc ++ bl i) ∧
    StrippedMap._size (WALManager._buffers (Dropper.w_wal w)) <= n;
  kp_minmax : ∃ nodes, StripedMap.wf (Engine._min_max_map s) nodes ∧ unlocked (Engine._min_max_map s) ∧
    StrippedMap._size (Engine._min_max_map s) <= n ∧ mm_max <$> abs nodes = latest (sp_log x);
  kp_subs : subscribed (sp_subs x) (Engine._subscribe_notify s) (Engine._clbks s);
}.

Variable owner : bool.

(** *** Appending *)

Lemma dropper_takes f g (d : Dropper.t) : ∃ d', wd_dropWAL f g d = Ok d'.
Proof. cbn. unfold Dropper.dropWAL. repeat case_match; by eexists. Qed.

Lemma wal_append_ok w fc op nodes bl data m :
  tracks (Dropper.w_pages w) data (Dropper.w_wal w) fc op nodes bl →
  StrippedMap._size (WALManager._buffers (Dropper.w_wal w)) < 2 ^ 62 → meas_wf m →
  ∃ wal fc' op' nodes' bl', WALManager.append wst m (Dropper.w_wal w) = Ok (Status_writed 1, wal) ∧
    tracks (Dropper.w_pages w) data wal fc' op' nodes' bl' ∧ logged m (Dropper.w_wal w) fc bl wal fc' bl' ∧
    StrippedMap._size (WALManager._buffers wal) <= StrippedMap._size (WALManager._buffers (Dropper.w_wal w)) + 1.
Proof.
  intros Hinv Hsz Hm.
  destruct (append_inv wst names_differ dropper_takes file_room cache_room (tracked pst (Dropper.w_pages w) data))
    with (v := m) (s := Dropper.w_wal w) (fc := fc) (op := op) (nodes := nodes) (bl := bl)
    as (wal & fc' & op' & nodes' & bl' & E & Hi & Hl & Hn); try done.
  - intros. by eapply (tracked_write wst).
  - intros. by eapply (tracked_close wst).
  - intros. by eapply (tracked_new wst).
  - exists wal, fc', op', nodes', bl'. split_and!; try done.
    rewrite (wf_size _ _ (iv_wf _ _ _ _ _ _ _ Hi)), (wf_size _ _ (iv_wf _ _ _ _ _ _ _ Hinv)). lia.
Qed.

Lemma series_snoc i l m : series i (l ++ [m]) = series i l ++ (if decide (id m = i) then [m] else []).
Proof. unfold series. by rewrite filter_app, filter_cons. Qed.

Lemma latest_snoc l m : latest (l ++ [m]) = <[id m := newer (default Meas_default (latest l !! id m)) m]> (latest l).
Proof. unfold latest. by rewrite fold_left_app. Qed.

Lemma minmax_put (m : Meas) (mm : Id2MinMax) nodes log : StripedMap.wf mm nodes → unlocked mm →
  StrippedMap._size mm < 2 ^ 62 → mm_max <$> abs nodes = latest log →
  ∃ mm' nodes', StrippedMap.with_bucket MeasMinMax_default mm (id m) (fun d => Ok (updateMax m d)) = Ok mm' ∧
    StripedMap.wf mm' nodes' ∧ unlocked mm' ∧ StrippedMap._size mm' <= StrippedMap._size mm + 1 ∧
    mm_max <$> abs nodes' = latest (log ++ [m]).
Proof.
  intros Hw Hu Hsz Hl.
  destruct (with_bucket_spec MeasMinMax_default mm nodes (id m) (fun d => Ok (updateMax m d)) _ Hw Hu Hsz eq_refl)
    as (mm' & nodes' & E & Hw' & Hu' & Ha & Hn). exists mm', nodes'. split_and!; try done.
  - rewrite (wf_size _ _ Hw), (wf_size _ _ Hw'). lia.
  - rewrite Ha, fmap_insert, latest_snoc, <- Hl, lookup_fmap. f_equal.
    unfold newer, updateMax. destruct (abs nodes !! id m) as [d|]; cbn; by destruct (_ <? _).
Qed.

Lemma append_keeps n x s fuel m : keeps owner n x s → n < 2 ^ 61 → meas_wf m →
  ∃ s', engine_op fuel (Append m) s = Ok ((spec_op (Append m) x).1, s') ∧ keeps owner (n + 1) (spec_op (Append m) x).2 s'.
Proof.
  intros [K1 K2 K0 K3 (w & fc & op & nodes & bl & data & Ed & Hinv & Hl & Hsz) (mn & Hw & Hu & Hms & Hm) Hsub] Hn Hwf.
  destruct (wal_append_ok w fc op nodes bl data m Hinv ltac:(lia) Hwf) as (wal & fc' & op' & nodes' & bl' & E & Hi & Hlog & Hs').
  destruct (minmax_put m _ mn (sp_log x) Hw Hu ltac:(lia) Hm) as (mm' & mn' & Emm & Hw' & Hu' & Hms' & Hm').
  destruct (subscribed_append x m _ _ Hsub) as (ks & Es & Hsub').
  unfold engine_op, Engine.append, Engine.on_top, Engine.on_wal. change (Engine.engine_dropper st) with spec_dropper.
  rewrite K2, Ed, E, !bind_Ok.
  cbn [writed Status_writed]. rewrite bool_decide_true by done.
  cbn [Engine._subscribe_notify Engine._clbks Engine._min_max_map Engine.set_disk]. rewrite Es, bind_Ok, Emm, !bind_Ok.
  eexists. split; [reflexivity|]. split; try done.
  - exists (Dropper.mkWorld wal (Dropper.w_pages w)), fc', op', nodes', bl', data. split_and!; try done.
    + intros i. cbn [spec_op snd sp_log Dropper.w_wal]. rewrite Hlog, series_snoc, Hl.
      destruct (decide (id m = i)) as [<-|Hne].
      * by rewrite put_log_eq, <- !app_assoc.
      * by rewrite put_log_ne, app_nil_r by congruence.
    + cbn. lia.
  - exists mn'. split_and!; try done. cbn. lia.
Qed.

(** *** Subscribing, dropping and reading *)

Lemma subscribe_keeps n x s fuel ids fl clbk : keeps owner n x s → owner = true →
  ∃ s', engine_op fuel (Subscribe ids fl clbk) s = Ok ((spec_op (Subscribe ids fl clbk) x).1, s') ∧
    keeps owner n (spec_op (Subscribe ids fl clbk) x).2 s'.
Proof.
  intros [K1 K2 K0 K3 Kd Km Ks] Ho. unfold engine_op, Engine.subscribe. rewrite K3, Ho, bind_Ok.
  eexists. split; [reflexivity|]. split; try done; [by cbn; rewrite K3|]. by apply subscribed_add.
Qed.

Lemma file_infix i e fc n : n ∈ names i e → ∃ a b, flog i e fc = a ++ fc n ++ b.
Proof.
  unfold flog. intros Hn. apply list_elem_of_split in Hn as (l1 & l2 & ->).
  rewrite fmap_app, fmap_cons, concat_app. cbn [concat]. by eexists _, _.
Qed.

Lemma drop_keeps n x s fuel : keeps owner n x s →
  (∀ i, strictly_by time (series i (sp_log x)) ∧ storable i (series i (sp_log x))) →
  ∃ s', engine_op fuel DropRound s = Ok (Done, s') ∧ keeps owner n x s'.
Proof.
  intros [K1 K2 K0 K3 (w & fc & op & nodes & bl & data & Ed & Hinv & Hl & Hsz) Km Ks] Hs.
  unfold engine_op, Engine.drop_round. rewrite Ed.
  destruct (round_ok wst pst crc32) with (w := w) (fc := fc) (op := op) (nodes := nodes) (bl := bl) (data := data)
    as (w' & data' & E & Hinv' & Eb & Hl'); try done.
  - intros i. eapply StronglySorted_sublist; [|apply (Hs i)]. rewrite Hl. apply sublist_app; [done|].
    by apply sublist_inserts_r.
  - intros i f Hf. destruct (file_infix i _ fc f Hf) as (a & b & Ef). destruct (Hs i) as [_ Hst].
    destruct (iv_core _ _ _ _ _ _ _ Hinv) as [Hfo _]. pose proof (iv_filled _ _ _ _ _ _ _ Hinv) as Hfill.
    pose proof Hf as (d & Hd & _ & <-)%elem_names.
    apply (Hst (series_of (pages_at data i) ++ a) _ (b ++ bl i)).
    + rewrite Hl, Ef. by rewrite <- !app_assoc.
    + by apply Hfill.
    + by apply (fo_wf _ _ _ Hfo).
  - rewrite E, !bind_Ok. eexists. split; [done|]. split; try done.
    exists w', fc, op, nodes, bl, data'. split_and!; try done; [|by rewrite Eb].
    intros i. by rewrite app_assoc, Hl', <- app_assoc.
Qed.

Lemma tracks_same pm pm' data wal fc op nodes bl : same pm pm' →
  tracks pm data wal fc op nodes bl → tracks pm' data wal fc op nodes bl.
Proof.
  intros Hs Hi. eapply inv_retrack; [exact Hi|]. destruct (iv_core _ _ _ _ _ _ _ Hi) as (_ & _ & [T1 T2 T3 T4 T5]).
  split; try done. by rewrite <- Hs.
Qed.

Lemma tracks_free w data fc op nodes bl : tracks (Dropper.w_pages w) data (Dropper.w_wal w) fc op nodes bl → unheld w.
Proof.
  intros Hi. destruct (iv_core _ _ _ _ _ _ _ Hi) as (_ & _ & [(q & b & E & _) _ _ _ _]). unfold unheld. rewrite E. by eexists.
Qed.

Lemma read_keeps n x s fuel q : keeps owner n x s → NoDup (qi_ids q) →
  (∀ i, ordered_log (series i (sp_log x)) ∧ flags_exact q (series i (sp_log x))) →
  ∃ s', engine_op fuel (Read q) s = Ok ((spec_op (Read q) x).1, s') ∧ keeps owner n x s'.
Proof.
  intros [K1 K2 K0 K3 (w & fc & op & nodes & bl & data & Ed & Hinv & Hl & Hsz) Km Ks] Hnd Hq.
  destruct (readInterval_ok q s w fc op nodes bl data) as (pm & E & Hsame); try done.
  - by eapply tracks_free.
  - by eapply inv_retrack.
  - apply (iv_core _ _ _ _ _ _ _ Hinv).
  - intros i _. rewrite <- Hl. apply Hq.
  - unfold engine_op. rewrite E, bind_Ok. eexists. split.
    + cbn [spec_op fst]. do 4 f_equal. apply list_fmap_ext. intros k i _. by rewrite Hl.
    + split; try done. exists (Dropper.mkWorld (Dropper.w_wal w) pm), fc, op, nodes, bl, data. split_and!; try done.
      by eapply tracks_same.
Qed.

(** The reader of one series. *)
Lemma reader_keeps n x s q i : keeps owner n x s → qi_ids q = [i] → ordered_log (series i (sp_log x)) →
  flags_exact q (series i (sp_log x)) →
  ∃ r s', Engine.intervalReader st q s = Ok (r, s') ∧ keeps owner n x s' ∧
    ∀ j, match r !! j with
      | None => j = i → base.filter (in_query q) (series i (sp_log x)) = []
      | Some c => j = i ∧ ∃ l, rep c l ∧ l `sublist_of` series i (sp_log x) ∧
          base.filter (in_query q) l = base.filter (in_query q) (series i (sp_log x))
      end.
Proof.
  intros [K1 K2 K0 K3 (w & fc & op & nodes & bl & data & Ed & Hinv & Hl & Hsz) Km Ks] Hq Ho Hfl.
  destruct (intervalReader_two q s w fc op nodes bl data) as (r & pm & E & Hsame & Hr); try done.
  - by eapply tracks_free.
  - by eapply inv_retrack.
  - apply (iv_core _ _ _ _ _ _ _ Hinv).
  - rewrite Hq. apply NoDup_singleton.
  - rewrite Hq. intros j ->%list_elem_of_singleton. by rewrite <- Hl.
  - eexists r, _. split; [done|]. split.
    + split; try done.
      exists (Dropper.mkWorld (Dropper.w_wal w) pm), fc, op, nodes, bl, data. split_and!; try done. by eapply tracks_same.
    + intros j. specialize (Hr j). rewrite Hq in Hr. destruct (r !! j) as [c|].
      * destruct Hr as [->%list_elem_of_singleton (l & Hrep & Hs & Ef)]. split; [done|]. exists l. by rewrite Hl.
      * intros ->. rewrite Hl. apply Hr. left.
Qed.

(** *** A storage with nothing in it *)

Lemma no_entries {D} (m : StrippedMap.stripped_map D) : StripedMap.wf m [] → map b_kv (concat (StrippedMap._buckets m)) = [].
Proof.
  intros Hw. apply Permutation_nil_r. rewrite (entries_perm m [] Hw). unfold abs. cbn. by rewrite map_to_list_empty.
Qed.

Lemma minmax_append_nothing (r : Id2MinMax) :
  minmax_append r (StrippedMap.make 1000) = Ok (r, StrippedMap.make 1000).
Proof.
  destruct (make_wf (D := MeasMinMax) 1000 ltac:(lia)) as [Hw Hu]. unfold minmax_append.
  by rewrite (apply_spec _ (StrippedMap.make 1000) [] r r Hw Hu) by by rewrite no_entries.
Qed.

Definition nothing (wal : WALManager.t Dropper.t) (fc : string → list Meas) (bl : Z → list Meas)
    (data : gmap Z (list page_data)) : Prop :=
  ∀ i, series_of (pages_at data i) ++ flog i (WALManager._env wal) fc ++ bl i = [].

Lemma pages_minmax_nothing pm e data : PageManagerOps.holds pst e pm data →
  (∀ i, series_of (pages_at data i) = []) →
  ∃ pm', PageManager.loadMinMax pst pm e = Ok (StrippedMap.make 1000, pm') ∧ same pm pm'.
Proof.
  intros Hh Hn. unfold PageManager.loadMinMax.
  pose proof (pages_by_filter_ok pst (e_fs e) (PageManager.all_ids pm) (fun _ => true) pm (pages_at data)
    (fun i _ => ho_series _ _ _ _ Hh i)) as Hp.
  destruct (PageManager.pages_by_filter _ _ _ _) as [names pm']. destruct Hp as (Hs & sel & Hsel & ->).
  assert (sel = []) as ->.
  { apply Permutation_nil_r. rewrite (sl_perm _ _ _ _ Hsel). apply Permutation_nil_r. clear Hsel.
    induction (PageManager.all_ids pm) as [|i ids IH]; [done|]. rewrite fmap_cons. cbn [concat].
    assert (pages_at data i = []) as ->; [|exact IH]. specialize (Hn i).
    pose proof (sa_pages _ _ _ _ _ (ho_series _ _ _ _ Hh i)) as Hf. destruct (pages_at data i) as [|y ps]; [done|].
    apply Forall_cons in Hf as [Hy _]. apply po_ne in Hy. unfold series_of in Hn. cbn in Hn. by destruct (contents y). }
  exists pm'. split; [done|done].
Qed.

Lemma wal_minmax_nothing (wal : WALManager.t Dropper.t) fc op nodes bl :
  WalManagerSpec.inv wst no_track wal fc op nodes bl → (∀ i, flog i (WALManager._env wal) fc ++ bl i = []) →
  WALManager.loadMinMax wst wal = Ok (StrippedMap.make 1000, wal).
Proof.
  intros [(Hf & _) Hfill Hw Hu Hb _] Hn. unfold WALManager.loadMinMax, WALManager.wal_files_all.
  unfold Manifest.wal_list, Manifest.prepare. rewrite (fo_db _ _ _ Hf), !bind_Ok.
  assert (Er : Manifest.wal (e_manifest (WALManager._env wal)) = []).
  { change (rows (WALManager._env wal) = []). destruct (rows (WALManager._env wal)) as [|d ds] eqn:Er; [done|].
    assert (Hd : d ∈ rows (WALManager._env wal)) by (rewrite Er; left). destruct (Hfill d Hd).
    assert (Hin : Manifest.fname d ∈ names (Manifest.measId d) (WALManager._env wal)) by (apply elem_names; by exists d).
    destruct (file_infix _ _ fc _ Hin) as (a & b & E). specialize (Hn (Manifest.measId d)). rewrite E in Hn.
    apply app_eq_nil in Hn as [Hn _]. apply app_eq_nil in Hn as [_ Hn]. by apply app_eq_nil in Hn as [? _]. }
  rewrite Er. cbn [WALManager.full_paths fmap list_fmap foldM]. rewrite !bind_Ok. unfold WALManager.fold_buffered.
  erewrite (apply_spec _ _ nodes (StrippedMap.make 1000)); [|done|done|].
  - rewrite bind_Ok. by destruct wal.
  - pose proof (entries_perm _ _ Hw) as Hp. remember (map b_kv _) as es. clear Heqes.
    assert (He : ∀ kv, kv ∈ es → abs nodes !! kv.1 = Some kv.2).
    { intros [i v] Hi. rewrite Hp in Hi. by apply elem_of_map_to_list in Hi. }
    clear Hp. induction es as [|[i v] es IH]; [done|]. cbn [foldM fst snd].
    pose proof (He (i, v) ltac:(left)) as Hi. cbn in Hi. specialize (Hb i). rewrite Hi in Hb. destruct v as [p|]; [|done].
    destruct Hb as (bd & Hbd & [_ B2 _ _ _ _] & El). unfold WALManager.deref. rewrite Hbd, bind_Ok.
    unfold WALManager.buffered. rewrite (proj2 (Nat.leb_le _ _)) by lia.
    specialize (Hn i). apply app_eq_nil in Hn as [_ Hn]. rewrite <- El, Hn, !bind_Ok. cbn [foldM]. rewrite bind_Ok.
    apply IH. intros kv Hkv. apply He. by right.
Qed.

Lemma level_nothing (r : Id2MinMax) s s' :
  Engine.append_minmax (r, s) (Ok (Some (StrippedMap.make 1000), s')) = Ok (r, s').
Proof. unfold Engine.append_minmax. rewrite bind_Ok. cbn [fst]. by rewrite minmax_append_nothing. Qed.

Lemma readMinMax_nothing s w fc op nodes bl data :
  Engine._disk s = Engine.PagesAndLogs w → Engine._memstorage s = None →
  WalManagerSpec.inv wst no_track (Dropper.w_wal w) fc op nodes bl →
  PageManagerOps.holds pst (WALManager._env (Dropper.w_wal w)) (Dropper.w_pages w) data →
  nothing (Dropper.w_wal w) fc bl data →
  ∃ pm, Engine.readMinMaxFromStorages st s =
      Ok (Engine.set_disk (Engine.PagesAndLogs (Dropper.mkWorld (Dropper.w_wal w) pm)) s) ∧
    same (Dropper.w_pages w) pm.
Proof.
  intros Ed Em Hinv Hh Hn. unfold Engine.readMinMaxFromStorages. destruct (Settings.load_min_max _); cbn [negb].
  2:{ exists (Dropper.w_pages w). split; [|done]. destruct s, w. cbn in *. by subst. }
  destruct (pages_minmax_nothing _ _ data Hh) as (pm & Ep & Hs).
  { intros i. specialize (Hn i). by apply app_eq_nil in Hn as [? _]. }
  pose proof (wal_minmax_nothing _ _ _ _ _ Hinv) as Ew.
  exists pm. split; [|done].
  unfold Engine.page_minmax, Engine.on_pages. rewrite Ed, Ep, !bind_Ok, level_nothing, bind_Ok.
  unfold Engine.wal_minmax, Engine.on_wal. cbn [Engine._disk Engine.set_disk Dropper.w_wal].
  rewrite Ew, !bind_Ok, level_nothing, bind_Ok by (intros i; specialize (Hn i); by apply app_eq_nil in Hn as [_ ?]).
  unfold Engine.top_minmax, Engine.on_top, Engine.on_wal. cbn [Engine._disk Engine.set_disk Dropper.w_wal Engine._memstorage].
  rewrite Em, Ew, !bind_Ok, level_nothing, bind_Ok by (intros i; specialize (Hn i); by apply app_eq_nil in Hn as [_ ?]).
  by destruct s.
Qed.

(** *** Current values *)

Lemma latest_nothing log : latest log = ∅ → log = [].
Proof.
  intros Hl. destruct log as [|m log _] using rev_ind; [done|]. rewrite latest_snoc in Hl.
  by apply insert_non_empty in Hl.
Qed.

Lemma asked_bool ids fl (v : Z * Meas) :
  ((length ids =? 0)%nat || existsb (Z.eqb v.1) ids) && inFlag fl v.2 = bool_decide (asked ids fl v).
Proof.
  apply eq_bool_prop_intro. rewrite bool_decide_spec. unfold asked. rewrite andb_True, orb_True, !Is_true_true.
  rewrite Nat.eqb_eq, length_zero_iff_nil, existsb_exists. f_equiv. f_equiv.
  split; [intros (i & Hi & ->%Z.eqb_eq); by apply list_elem_of_In|].
  intros Hi. exists v.1. split; [by apply list_elem_of_In|by apply Z.eqb_eq].
Qed.

Lemma current_fold ids fl (l : list (Z * MeasMinMax)) (r0 : gmap Z Meas) : NoDup l.*1 → (∀ i, i ∈ l.*1 → r0 !! i = None) →
  ∃ r, foldM (fun (r : gmap Z Meas) v =>
      if ((length ids =? 0)%nat || existsb (Z.eqb v.1) ids) && inFlag fl (mm_max v.2)
      then Ok (match r !! v.1 with None => <[v.1 := mm_max v.2]> r | Some _ => r end)
      else Ok r) l r0 = Ok r ∧
    ∀ i, r !! i = match list_to_map (M := gmap Z _) l !! i with
                  | Some mm => if decide (asked ids fl (i, mm_max mm)) then Some (mm_max mm) else None
                  | None => r0 !! i
                  end.
Proof.
  revert r0. induction l as [|[j mm] l IH]; intros r0 Hnd Hr0; [by exists r0|].
  rewrite fmap_cons in Hnd, Hr0. apply NoDup_cons in Hnd as [Hj Hnd]. cbn [foldM fst snd].
  pose proof (asked_bool ids fl (j, mm_max mm)) as Hb. cbn [fst snd] in Hb. rewrite Hb.
  pose proof (Hr0 j ltac:(left)) as Hnj. rewrite Hnj.
  set (r1 := if bool_decide (asked ids fl (j, mm_max mm)) then <[j := mm_max mm]> r0 else r0).
  destruct (IH r1 Hnd) as (r & E & Hr).
  { intros i Hi. assert (i ≠ j) by (intros ->; done). unfold r1. destruct (bool_decide _); rewrite ?lookup_insert_ne by done.
    all: apply Hr0; by right. }
  exists r. split; [unfold r1 in E; by destruct (bool_decide _)|]. intros i. rewrite Hr. cbn [list_to_map foldr uncurry fst snd].
  change (foldr _ _ l) with (list_to_map (M := gmap Z MeasMinMax) l). unfold r1.
  destruct (decide (i = j)) as [->|Hij].
  - rewrite lookup_insert_eq, (not_elem_of_list_to_map_1 l j) by done.
    case_bool_decide; by rewrite ?decide_True, ?decide_False, ?lookup_insert_eq by done.
  - rewrite lookup_insert_ne by done. destruct (list_to_map l !! i); [done|].
    case_bool_decide; by rewrite ?lookup_insert_ne by done.
Qed.

Lemma current_map ids fl (mm : Id2MinMax) nodes log : StripedMap.wf mm nodes → unlocked mm →
  mm_max <$> abs nodes = latest log →
  StrippedMap.apply (fun (r : gmap Z Meas) v =>
      if ((length ids =? 0)%nat || existsb (Z.eqb v.1) ids) && inFlag fl (mm_max v.2)
      then Ok (match r !! v.1 with None => <[v.1 := mm_max v.2]> r | Some _ => r end)
      else Ok r) mm ∅ = Ok (mm, base.filter (asked ids fl) (latest log)).
Proof.
  intros Hw Hu Hl. apply (apply_spec _ _ nodes); [done..|].
  pose proof (entries_perm mm nodes Hw) as Hp. set (es := map b_kv _) in *.
  assert (Hnd : NoDup es.*1) by (rewrite Hp; apply NoDup_fst_map_to_list).
  destruct (current_fold ids fl es ∅ Hnd ltac:(done)) as (r & -> & Hr). f_equal. apply map_eq. intros i.
  rewrite Hr, (list_to_map_proper _ _ Hnd Hp), list_to_map_to_list, <- Hl, map_lookup_filter, lookup_fmap.
  destruct (abs nodes !! i) as [d|]; cbn; [|done]. by case_guard; rewrite ?decide_True, ?decide_False.
Qed.

Lemma current_keeps n x s fuel ids fl : keeps owner n x s →
  ∃ s', engine_op fuel (Current ids fl) s = Ok ((spec_op (Current ids fl) x).1, s') ∧ keeps owner n x s'.
Proof.
  intros [K1 K2 K0 K3 (w & fc & op & nodes & bl & data & Ed & Hinv & Hl & Hsz) (mn & Hw & Hu & Hms & Hm) Ks].
  pose proof (tracks_free w data fc op nodes bl Hinv) as Hfree.
  assert (Hrd : ∃ pm, (if StrippedMap._size (Engine._min_max_map s) =? 0
      then Engine.readMinMaxFromStorages st (Engine.set_disk (Engine.PagesAndLogs (held w)) s)
      else Ok (Engine.set_disk (Engine.PagesAndLogs (held w)) s)) =
      Ok (Engine.set_disk (Engine.PagesAndLogs (Dropper.mkWorld (Dropper.w_wal (held w)) pm)) s) ∧
      same (Dropper.w_pages w) pm).
  { assert (Hh : Dropper.w_pages (held w) = Dropper.w_pages w ∧
      WALManager._env (Dropper.w_wal (held w)) = WALManager._env (Dropper.w_wal w)).
    { unfold held. by destruct (WALManager._down _). }
    destruct Hh as [Hh1 Hh2].
    destruct (Z.eqb_spec (StrippedMap._size (Engine._min_max_map s)) 0) as [Ez|_].
    2:{ exists (Dropper.w_pages w). split; [|done]. rewrite <- Hh1. by destruct (held w). }
    assert (sp_log x = []) as Ex.
    { apply latest_nothing. rewrite <- Hm. rewrite (wf_size _ _ Hw) in Ez. destruct mn; [|cbn in Ez; lia].
      unfold abs. cbn. apply fmap_empty. }
    rewrite <- Hh1.
    destruct (readMinMax_nothing (Engine.set_disk (Engine.PagesAndLogs (held w)) s) (held w) fc op nodes bl data)
      as (pm & E & Hsame); try done.
    - unfold held. destruct Hfree as (d & -> & _). apply inv_set_down. by eapply inv_retrack.
    - rewrite Hh1, Hh2. apply (iv_core _ _ _ _ _ _ _ Hinv).
    - intros i. by rewrite Hh2, <- Hl, Ex.
    - by exists pm. }
  destruct Hrd as (pm & Er & Hsame).
  destruct (locked_task_ok (fun s =>
    s ← (if StrippedMap._size (Engine._min_max_map s) =? 0 then Engine.readMinMaxFromStorages st s else Ok s);
    '(m, r) ← StrippedMap.apply (fun (r : gmap Z Meas) v =>
      if ((length ids =? 0)%nat || existsb (Z.eqb v.1) ids) && inFlag fl (mm_max v.2)
      then Ok (match r !! v.1 with None => <[v.1 := mm_max v.2]> r | Some _ => r end)
      else Ok r) (Engine._min_max_map s) ∅;
    Ok (r, Engine.set_min_max m s)) s s w pm (base.filter (asked ids fl) (latest (sp_log x)))) as [_ E]; try done.
  { cbn [Engine._min_max_map Engine.set_disk]. rewrite Er, bind_Ok. cbn [Engine._min_max_map Engine.set_disk].
    rewrite (current_map ids fl _ mn (sp_log x)), bind_Ok by done. by destruct s. }
  unfold engine_op, Engine.currentValue. rewrite E, bind_Ok. eexists. split; [reflexivity|]. split; try done.
  - exists (Dropper.mkWorld (Dropper.w_wal w) pm), fc, op, nodes, bl, data. split_and!; try done. by eapply tracks_same.
  - by exists mn.
Qed.

(** *** Sequences of calls *)

Fixpoint engine_run (fuel : nat) (ops : list (op K)) s : outcome (list answer * Engine.t A K) :=
  match ops with
  | [] => Ok ([], s)
  | o :: ops =>
    '(a, s) ← engine_op fuel o s;
    '(rest, s) ← engine_run fuel ops s;
    Ok (a :: rest, s)
  end.

(** Calls that keep to the rules: each series is appended in the order of time, can be
    put on pages, and is asked for by its flags as they are. *)
Definition plays_fair (log : list Meas) (o : op K) : Prop :=
  match o with
  | Append m => meas_wf m
  | Read q => NoDup (qi_ids q) ∧ flags_exact q log
  | _ => True
  end.

Record admissible (log : list Meas) : Prop := {
  ad_count : Z.of_nat (length log) < 2 ^ 61;
  ad_order : ∀ i, ordered_log (series i log);
  ad_storable : ∀ i, storable i (series i log);
}.

Lemma admissible_prefix l1 l2 : admissible (l1 ++ l2) → admissible l1.
Proof.
  intros [A1 A2 A3]. rewrite length_app in A1. split; [lia| |].
  - intros i. destruct (A2 i) as (O1 & O2 & O3). unfold series in *. rewrite filter_app in O1, O2, O3.
    apply StronglySorted_append in O1 as (O1 & _ & _). apply Forall_app in O2 as [O2 _].
    rewrite length_app in O3. split_and!; [done|done|lia].
  - intros i a r b E. apply (A3 i a r (b ++ series i l2)). unfold series in *. rewrite filter_app, E.
    by rewrite <- !app_assoc.
Qed.

(** One call; [log] is all that will have been appended. *)
Lemma op_keeps n x s fuel o log : keeps owner n x s → n < 2 ^ 61 → admissible (sp_log x) → plays_fair log o →
  owner = true → sp_log x `prefix_of` log →
  ∃ s', engine_op fuel o s = Ok ((spec_op o x).1, s') ∧ keeps owner (n + Z.of_nat (length (appended [o]))) (spec_op o x).2 s'.
Proof.
  intros Hk Hn [_ A2 A3] Hf Hown [l' El]. destruct o as [m|ids fl clbk| |q|ids fl]; cbn [appended omap list_omap length];
    rewrite ?Z.add_0_r.
  - by apply append_keeps.
  - by apply subscribe_keeps.
  - apply drop_keeps; [done|]. intros i. split; [apply A2|apply A3].
  - destruct Hf as [Hnd Hfl]. apply read_keeps; [done..|]. intros i. split; [done|]. apply flags_series.
    subst log. by apply Forall_app in Hfl as [? _].
  - by apply current_keeps.
Qed.

Lemma spec_op_log (o : op K) x : sp_log (spec_op o x).2 = sp_log x ++ appended [o].
Proof. destruct o; cbn; by rewrite ?app_nil_r. Qed.

Lemma appended_cons (o : op K) ops : appended (o :: ops) = appended [o] ++ appended ops.
Proof. unfold appended. cbn. by destruct o. Qed.

Lemma run_keeps fuel ops n x s : keeps owner n x s → owner = true → n + Z.of_nat (length (appended ops)) < 2 ^ 61 →
  admissible (sp_log x ++ appended ops) → Forall (plays_fair (sp_log x ++ appended ops)) ops →
  ∃ s', engine_run fuel ops s = Ok ((spec_run ops x).1, s') ∧
    keeps owner (n + Z.of_nat (length (appended ops))) (spec_run ops x).2 s'.
Proof.
  revert n x s. induction ops as [|o ops IH]; intros n x s Hk Hown Hn Ha Hf.
  { exists s. split; [done|]. cbn. by rewrite Z.add_0_r. }
  apply Forall_cons in Hf as [Ho Hf]. rewrite appended_cons, length_app, Nat2Z.inj_add in Hn |- *.
  destruct (op_keeps n x s fuel o _ Hk ltac:(lia) (admissible_prefix _ _ Ha) Ho Hown) as (s1 & E1 & Hk1); [by eexists|].
  cbn [engine_run spec_run]. rewrite E1, bind_Ok. pose proof (spec_op_log o x) as El.
  destruct (spec_op o x) as [a x1]. cbn [fst snd] in *.
  destruct (IH _ x1 s1 Hk1 Hown ltac:(lia)) as (s' & E' & Hk').
  - by rewrite El, <- app_assoc, <- appended_cons.
  - by rewrite El, <- app_assoc, <- appended_cons.
  - destruct (spec_run ops x1) as [rest x']. exists s'. rewrite E', bind_Ok. split; [done|]. by rewrite Z.add_assoc.
Qed.

(** ** A new storage *)

Abbreviation lock_file := (Engine.lockfile_path st).
Abbreviation manifest_file := (append_path (Settings.storage_path st) Engine.MANIFEST_FILE_NAME).

(** The lock and the manifest are none of the files of the managers. *)
Definition own_file (f : string) : Prop := f = lock_file ∨ f = manifest_file.

Record new_directory (e : env) : Prop := {
  ns_db : Manifest.db_ok (e_manifest e) = true;
  ns_pages : Manifest.pages (e_manifest e) = [];
  ns_wal : Manifest.wal (e_manifest e) = [];
  ns_own : ∀ g, own_file g → path_exists g (e_fs e) = false ∧
    g ≠ Settings.storage_path st ∧ g ≠ Settings.raw_path st;
  ns_lock_writable : fs_writable (e_fs e) lock_file = true;
  ns_logs : ∀ k, fs_files (e_fs e) !! WalManagerSpec.path wst (name k) = None ∧
                 fs_writable (e_fs e) (WalManagerSpec.path wst (name k)) = true;
  ns_fresh : ∀ k, fresh_page (PageManager.full pst (page_file k)) (e_fs e);
}.

Lemma first_char_stem k ext : ∃ c r, file_stem k +:+ ext = String c r ∧
  (48 <=? Ascii.nat_of_ascii c)%nat = true ∧ (Ascii.nat_of_ascii c <=? 57)%nat = true.
Proof.
  destruct (file_stem_digits k) as [Hd Hn]. destruct (file_stem k) as [|c r]; [done|]. cbn in Hd.
  apply andb_true_iff in Hd as [[H1' H2']%andb_true_iff _]. by exists c, (r +:+ ext).
Qed.

(** Files of a storage that are none of its logs and pages. *)
Definition other_file (g : string) : Prop :=
  ∃ d n, n ∈ ["lockfile"; Engine.MANIFEST_FILE_NAME; SETTINGS_FILE_NAME]%string ∧ g = append_path d n.

Lemma own_other g : own_file g → other_file g.
Proof. intros [->| ->]; eexists _, _; (split; [|reflexivity]); set_solver. Qed.

Lemma other_file_apart g n : other_file g → plain_name n = true → (∃ k ext, n = file_stem k +:+ ext) →
  g ≠ append_path (Settings.raw_path st) n.
Proof.
  intros (d & x & Hx & ->) Hp (k & ext & ->) E. destruct (first_char_stem k ext) as (c & r & Ec & C1 & C2). rewrite Ec in *.
  rewrite !elem_of_cons, elem_of_nil in Hx. apply (f_equal extract_filename) in E.
  destruct Hx as [->|[->|[->|[]]]]; rewrite !extract_append in E by done; injection E as <- _; done.
Qed.

Lemma other_file_managers g k : other_file g →
  g ≠ WalManagerSpec.path wst (name k) ∧ g ≠ PageManager.full pst (page_file k) ∧
  g ≠ Page.index_name (PageManager.full pst (page_file k)).
Proof.
  intros Hg. split_and!.
  - apply (other_file_apart g (name k)); [done|by apply random_file_name_plain|by eexists _, _].
  - apply (other_file_apart g (page_file k)); [done|apply page_file_plain|by eexists _, _].
  - unfold Page.index_name, PageIndex.index_name_from_page_name, PageManager.full.
    rewrite <- append_longer by apply page_file_plain.
    apply (other_file_apart g (page_file k +:+ "i")); [done|by apply plain_name_app; [apply page_file_plain|]|].
    exists k, (PAGE_FILE_EXT +:+ "i"). unfold page_file. by rewrite string_app_assoc.
Qed.

Lemma open_new ign e : new_directory e →
  ∃ e', Engine.open_storage st ign e = Ok e' ∧ Manifest.db_ok (e_manifest e') = true ∧
    Manifest.pages (e_manifest e') = [] ∧ Manifest.wal (e_manifest e') = [] ∧
    (∀ g, ¬ own_file g → fs_files (e_fs e') !! g = fs_files (e_fs e) !! g) ∧
    fs_writable (e_fs e') = fs_writable (e_fs e).
Proof.
  intros [N1 N2 N3 N4 N5 _ _]. unfold Engine.open_storage.
  set (f0 := if path_exists _ _ then _ else _).
  assert (Hf0 : fs_files f0 = fs_files (e_fs e) ∧ fs_writable f0 = fs_writable (e_fs e) ∧
    ∀ g, own_file g → path_exists g f0 = false).
  { unfold f0. destruct (path_exists (Settings.storage_path st) _); [by split_and!; [..|apply N4]|].
    split_and!; [done..|]. intros g Hg. destruct (N4 g Hg) as (Hx & G1 & G2). unfold path_exists in *. cbn.
    apply orb_false_iff in Hx as [-> Hx]. apply bool_decide_eq_false in Hx. cbn. apply bool_decide_eq_false. set_solver. }
  destruct Hf0 as (F1 & F2 & F3). clearbody f0.
  assert (Hne : manifest_file ≠ lock_file).
  { intros E. apply (f_equal extract_filename) in E. unfold Engine.lockfile_path in E. by rewrite !extract_append in E. }
  unfold Engine.lockfile_lock_or_die. rewrite (F3 lock_file) by by left. rewrite bind_Ok, F2, N5, bind_Ok.
  set (f1 := mkFs (<[lock_file := _]> _) _ _).
  assert (Hm : path_exists manifest_file f1 = false).
  { unfold path_exists. cbn. rewrite lookup_insert_ne by done. apply (F3 manifest_file). by right. }
  unfold file_exists. rewrite Hm. cbn [negb].
  assert (∃ f2, Manifest.create (Settings.storage_path st) (Settings.raw_path st) (Some (e_manifest e)) f1 =
    Ok (e_manifest e, f2) ∧ fs_files f2 = fs_files f1 ∧ fs_writable f2 = fs_writable f1) as (f2 & -> & E2 & W2).
  { unfold Manifest.create, Manifest.restore, Manifest.wal_list, Manifest.page_list, Manifest.prepare.
    rewrite N1, !bind_Ok, N3. destruct (path_exists (parent_path _) f1); [|by eexists].
    cbn [base.filter list_filter length Nat.eqb negb]. rewrite !bind_Ok, N2, N1. by eexists. }
  rewrite bind_Ok. unfold Manifest.set_format, Manifest.prepare. rewrite N1, !bind_Ok.
  eexists. split; [done|]. cbn. split_and!; try done.
  intros g Hg. unfold own_file in Hg. rewrite lookup_insert_ne, E2 by (intros <-; apply Hg; by right).
  unfold f1. cbn. by rewrite lookup_insert_ne, F1 by (intros <-; apply Hg; by left).
Qed.

(** What the managers need of it. *)
Record bare (e : env) : Prop := {
  br_db : Manifest.db_ok (e_manifest e) = true;
  br_pages : Manifest.pages (e_manifest e) = [];
  br_wal : Manifest.wal (e_manifest e) = [];
  br_logs : ∀ k, fs_files (e_fs e) !! WalManagerSpec.path wst (name k) = None ∧
                 fs_writable (e_fs e) (WalManagerSpec.path wst (name k)) = true;
  br_fresh : ∀ k, fresh_page (PageManager.full pst (page_file k)) (e_fs e);
}.

Lemma open_bare ign e : new_directory e → ∃ e', Engine.open_storage st ign e = Ok e' ∧ bare e' ∧
  fs_writable (e_fs e') = fs_writable (e_fs e).
Proof.
  intros Hns. destruct (open_new ign e Hns) as (e' & E & M1 & M2 & M3 & Hfs & Hwr).
  exists e'. split; [done|]. split; [|done]. split; try done.
  - intros k. rewrite Hwr, Hfs; [apply (ns_logs _ Hns)|]. intros Hg. by destruct (other_file_managers _ k (own_other _ Hg)).
  - intros k. destruct (ns_fresh _ Hns k) as [F1 F2 F3 F4].
    split; rewrite ?Hwr, ?Hfs; try done; intros Hg; by destruct (other_file_managers _ k (own_other _ Hg)) as (_ & ? & ?).
Qed.

(** Another file written to it. *)
Lemma bare_write g bs e : bare e → other_file g →
  bare (set_fs (mkFs (<[g := bs]> (fs_files (e_fs e))) (fs_dirs (e_fs e)) (fs_writable (e_fs e))) e).
Proof.
  intros [M1 M2 M3 Hl Hfr] Hg. split; try done; cbn.
  - intros k. destruct (other_file_managers g k Hg) as (G1 & _ & _). rewrite lookup_insert_ne by done. apply Hl.
  - intros k. destruct (other_file_managers g k Hg) as (_ & G2 & G3). destruct (Hfr k) as [F1 F2 F3 F4].
    split; cbn; rewrite ?lookup_insert_ne; done.
Qed.

(** The engine started on it. *)
Definition started_wal (e : env) : WALManager.t Dropper.t :=
  WALManager.set_down (Some Dropper.make) (WALManager.Mk None (StrippedMap.make 1000) [] ∅ ∅ e).

Definition started (e : env) (pm : PageManager.t) : Engine.t A K :=
  Engine.mk st COMPRESSED owner false (Engine.PagesAndLogs (Dropper.mkWorld (started_wal e) pm)) None false
    (if owner then Subscribe.start (Subscribe.mk [] true) else Subscribe.mk [] true) [] (StrippedMap.make 1000).

Lemma bare_fresh e : bare e → fresh_env wst e ∧ ∀ i, names i e = [].
Proof.
  intros [M1 M2 M3 Hl Hfr]. split; [|intros i; unfold names, rows; by rewrite M3].
  split_and!; [done|done|intros k; apply Hl..].
Qed.

Lemma started_inv e : bare e → ∃ fc op nodes bl,
  WalManagerSpec.inv wst no_track (started_wal e) fc op nodes bl ∧ (∀ i, flog i e fc ++ bl i = []).
Proof.
  intros Hb. destruct (bare_fresh e Hb) as [Hfe Hnames].
  pose proof (inv_set_down wst _ _ _ _ _ (Some Dropper.make) (fresh_inv (D := Dropper.t) wst no_track e Hfe I)) as Hinv.
  eexists _, _, _, _. split; [exact Hinv|]. intros i. unfold flog. by rewrite Hnames.
Qed.

Lemma started_keeps e pm : bare e → same (PageManager.mk 0 ∅) pm → keeps owner 0 (mkSpec [] []) (started e pm).
Proof.
  intros Hb Hsame. destruct (bare_fresh e Hb) as [Hfe Hnames]. destruct Hb as [M1 M2 M3 Hlog Hfr].
  pose proof (holds_empty pst e M1 M2) as Hh.
  pose proof (inv_set_down wst _ _ _ _ _ (Some Dropper.make) (fresh_inv (D := Dropper.t) wst no_track e Hfe I)) as Hinv.
  assert (Ht : tracked pst (PageManager.mk 0 ∅) ∅ ∅ (Some Dropper.make) (WALManager._files_send_to_drop (started_wal e)) e).
  { split; try done. exists [], false. split; [done|]. split; [intros i; by rewrite Hnames|].
    split; [by intros n Hn%elem_of_nil|constructor]. }
  destruct (make_wf (D := MeasMinMax) 1000 ltac:(lia)) as [Hmw Hmu].
  split; try done.
  - exists (Dropper.mkWorld (started_wal e) pm). eexists _, _, _, _, ∅. split; [done|]. split; [|split].
    + apply (tracks_same (PageManager.mk 0 ∅)); [done|]. eapply inv_retrack; [exact Hinv|done].
    + intros i. unfold flog. cbn [Dropper.w_wal started_wal WALManager.set_down WALManager._env]. by rewrite Hnames.
    + done.
  - exists []. split_and!; try done.
  - unfold started. cbn. by destruct owner.
Qed.

(** Started on an empty directory, the engine has nothing. *)
Lemma make_started allocator ign e : new_directory e →
  ∃ e' pm, Engine.make st allocator owner ign e = Ok (started e' pm) ∧ bare e' ∧
    fs_writable (e_fs e') = fs_writable (e_fs e) ∧ same (PageManager.mk 0 ∅) pm.
Proof.
  intros Hns. destruct (open_bare ign e Hns) as (e' & E & Hb & Hwr). exists e'.
  destruct (bare_fresh e' Hb) as [Hfe Hnames]. destruct (started_inv e' Hb) as (fc & op & nodes & bl & Hinv & Hno).
  unfold Engine.make. rewrite on_disk_mode, E, bind_Ok. unfold Engine.init_managers. rewrite on_disk_mode.
  pose proof (br_db _ Hb) as M1. pose proof (br_pages _ Hb) as M2. pose proof (br_wal _ Hb) as M3.
  assert (PageManager.make pst e' = Ok (PageManager.mk 0 ∅)) as ->.
  { unfold PageManager.make, PageManager.reloadIndexFooters, Manifest.page_list, Manifest.prepare.
    rewrite M1, M2. by destruct (path_exists _ _). }
  rewrite bind_Ok, compressed. change (Engine.engine_dropper st) with spec_dropper.
  rewrite (make_fresh wst e' Hfe), bind_Ok.
  assert (WALManager.setDownlevel wst (Some Dropper.make) (WALManager.Mk None (StrippedMap.make 1000) [] ∅ ∅ e') =
    Ok (started_wal e')) as ->.
  { unfold WALManager.setDownlevel, WALManager.drop_old_if_needed. cbn [wal_strategy wal_settings]. rewrite compressed.
    unfold WALManager.wal_files_all, Manifest.wal_list, Manifest.prepare. cbn. by rewrite M1, M3. }
  rewrite !bind_Ok.
  match goal with |- context [Engine.readMinMaxFromStorages st ?s] => set (s0 := s) end.
  destruct (readMinMax_nothing s0 (Dropper.mkWorld (started_wal e') (PageManager.mk 0 ∅)) fc op nodes bl ∅ eq_refl eq_refl Hinv
    (holds_empty pst e' M1 M2)) as (pm & Er & Hsame); [intros i; apply Hno|].
  exists pm. by rewrite Er.
Qed.

Lemma make_new allocator ign e : new_directory e →
  ∃ s, Engine.make st allocator owner ign e = Ok s ∧ keeps owner 0 (mkSpec [] []) s.
Proof.
  intros Hns. destruct (make_started allocator ign e Hns) as (e' & pm & E & Hb & _ & Hsame).
  exists (started e' pm). split; [done|by apply started_keeps].
Qed.

End Compressed.

(** ** Properties *)

(** Settings of a storage on disk with the strategy [COMPRESSED]. *)
Record compressed_storage (st : Settings.t) : Prop := {
  cs_file : 1 <= Settings.wal_file_size st < 2 ^ 59;
  cs_cache : 2 <= Settings.wal_cache_size st < 2 ^ 59;
  cs_chunk : 0 < Settings.chunk_size st;
  cs_strategy : strategy (Settings.intervals st) = COMPRESSED;
  cs_disk : Settings.is_memory_only_mode st = false;
}.


(** ** A storage *)

Definition small_storage : Settings.t :=
  Settings.mk "db" "db/raw" 2 3 10 12 1000 f075 f010 4 2 1 false default_IntervalSettings true false.

Definition seven (t : Z) : Meas := mkMeas 7 t 5 3.

Definition small_ops : list (op (list Meas)) :=
  Subscribe [7] 0 [] :: (Append ∘ seven <$> [1; 2; 3; 4; 5]) ++ [DropRound; Read (mkQueryInterval [7] 0 2 5 0)] ++
  (Append ∘ seven <$> [6; 7; 8]) ++ [DropRound; DropRound; Read (mkQueryInterval [7] 0 2 7 0); Current [] 0].

Lemma small_series i : series i (appended small_ops) = if decide (i = 7) then seven <$> [1; 2; 3; 4; 5; 6; 7; 8] else [].
Proof.
  change (appended small_ops) with (seven <$> [1; 2; 3; 4; 5; 6; 7; 8]). unfold series. case_decide as Hi.
  - subst i. by vm_compute.
  - repeat (cbn [fmap list_fmap]; rewrite filter_cons, decide_False by (cbn; congruence)). done.
Qed.

Lemma small_storable i : storable small_storage i (series i (appended small_ops)).
Proof.
  rewrite small_series. case_decide as Hi.
  2:{ intros a r b E Hr. by destruct a, r. }
  subst i. intros a r b E Hr Hl. set (l := seven <$> _) in E.
  assert (Er : r = take (length r) (drop (length a) l)) by by rewrite E, drop_app_length, take_app_length.
  assert (Ha : (length a + length r <= 8)%nat).
  { apply (f_equal length) in E. rewrite !length_app in E. cbn [length l fmap list_fmap] in E. lia. }
  clear E. remember (length a) as j eqn:Ej. remember (length r) as n eqn:En. clear Ej a b.
  change (Settings.wal_file_size small_storage) with 2 in Hl.
  assert (n = 1 ∨ n = 2)%nat as Hn by (destruct r; [done|]; cbn in En; lia). clear Hl En Hr. subst r.
  destruct Hn as [->| ->]; repeat (destruct j as [|j]; [|try lia]); try lia.
  all: split; [cbn; lia|done| |done|by vm_compute|apply (bool_decide_unpack _); by vm_compute|by repeat constructor].
  all: split; [repeat constructor; vm_compute; congruence|by repeat constructor|by intros ? ? [= <- <-]|done].
Qed.

Lemma small_new : new_directory small_storage empty_env.
Proof.
  split; try done. intros g Hg. unfold own_file in Hg. destruct Hg as [->| ->]; by vm_compute.
Qed.

Lemma small_admissible : admissible small_storage (appended small_ops) ∧ Forall (plays_fair (appended small_ops)) small_ops.
Proof.
  split.
  - split; [done| |apply small_storable]. intros i. rewrite small_series. case_decide; [|by repeat constructor].
    split_and!; [by repeat constructor| |done]. apply (bool_decide_unpack _). by vm_compute.
  - repeat (apply Forall_cons; split); [..|by apply Forall_nil]; try done.
    all: try (split; [apply NoDup_singleton|]; apply (bool_decide_unpack _); by vm_compute).
    all: repeat split; vm_compute; congruence.
Qed.

