(* ===== verification/Shard.v ===== *)
(** * The engine over shards

    [engines/shard.cpp]: several engines behind one, each for a set of identifiers, for
    an interval of aggregation, or for all that no other has.  The engines are shared
    objects behind pointers: [heap] has them by address, and a pointer is an address or
    null.  An engine is anything with the interface [IEngine]; it has the files of its
    own directory, [_fs] those of the directory of the shards.  The JSON library and the
    removal of a directory are parameters. *)

From Stdlib Require Import ZArith Lia String.
From stdpp Require Import base numbers list gmap strings.
From S2P Require Import Prelude ThreadPool Float64 Meas Stat StdSort ICursor FullCursor Chunk Cursors.
From S2P Require Import StripedMap Allocators TimeTrack Storages MemStorage TimeUtil Scheme Settings Files Options WalFile WalManager.
From S2P Require Import PageFormat PageIndex Page PageManager Dropper Engine.

Local Open Scope Z_scope.

(** ** Engines *)

(** [IEngine], and a constructor for given settings.  [ie_env] has the files of the
    directory of the engine. *)
Class IEngine (E : Type) := {
  ie_new : Settings.t → bool → env → outcome E;
  ie_env : E → env;
  ie_set_env : env → E → E;
  ie_append : Meas → E → outcome (Status * E);
  ie_minTime : E → outcome (Z * E);
  ie_maxTime : E → outcome (Z * E);
  ie_loadMinMax : E → outcome (Id2MinMax * E);
  ie_minMaxTime : Z → E → outcome (bool * Z * Z * E);
  ie_intervalReader : QueryInterval → E → outcome (gmap Z (cursor Chunk.cursor) * E);
  ie_readTimePoint : QueryTimePoint → E → outcome (gmap Z Meas * E);
  ie_currentValue : list Z → Z → E → outcome (gmap Z Meas * E);
  ie_stat : Z → Z → Z → E → outcome (Statistic * E);
  ie_fsck : E → outcome E;
  ie_eraseOld : Z → Z → E → outcome E;
  ie_repack : Z → E → outcome E;
  ie_compact : CompactionController → E → outcome E;
  ie_description : E → outcome Engine.Description;
  ie_compress_all : E → outcome E;
  ie_stop : E → outcome E;
}.

(** The engine of [engines/engine.cpp] is one: it is made without a thread pool of its
    own.  [now], [now'] and [works] are the times and the number of tasks a call asks
    for. *)
Section EngineInstance.
Context {A K : Type} `{MemAllocator A} `{IReadCallback K}.
Context `{BtreeMultimap} `{Paths} `{FileNames} `{!DirectoryNames} `{StdSort} `{UnorderedMap}.
Variable allocator : Settings.t → outcome A.
Variable crc32 : list Z → Z.
Variable raw_header : ChunkHeader.t.
Variable fuel : nat.
Variable now now' works : Z.

Definition set_disk_env (e : env) (d : Engine.disk) : Engine.disk :=
  match d with
  | Engine.NoManagers _ => Engine.NoManagers e
  | Engine.Pages pm _ => Engine.Pages pm e
  | Engine.PagesAndLogs w =>
    Engine.PagesAndLogs (Dropper.mkWorld (WALManager.set_env e (Dropper.w_wal w)) (Dropper.w_pages w))
  end.

Definition Engine_IEngine : IEngine (Engine.t A K) := {|
  ie_new st force e := Engine.make st (allocator st) false force e;
  ie_env s := Engine.disk_env (Engine._disk s);
  ie_set_env e s := Engine.set_disk (set_disk_env e (Engine._disk s)) s;
  ie_append m s := Engine.append crc32 raw_header (Engine._settings s) fuel m s;
  ie_minTime s := Engine.minTime (Engine._settings s) s;
  ie_maxTime s := Engine.maxTime (Engine._settings s) s;
  ie_loadMinMax s := Engine.loadMinMax (Engine._settings s) s;
  ie_minMaxTime i s := Engine.minMaxTime (Engine._settings s) i s;
  ie_intervalReader q s := Engine.intervalReader (Engine._settings s) q s;
  ie_readTimePoint q s := Engine.readTimePoint (Engine._settings s) q s;
  ie_currentValue ids fl s := Engine.currentValue (Engine._settings s) ids fl s;
  ie_stat i from to s := Engine.stat (Engine._settings s) i from to s;
  ie_fsck s := Engine.fsck crc32 (Engine._settings s) s;
  ie_eraseOld i t s := Engine.eraseOld (Engine._settings s) i t s;
  ie_repack i s := Engine.repack crc32 (Engine._settings s) now i s;
  ie_compact logic s := Engine.compact crc32 (Engine._settings s) now now' logic s;
  ie_description s := Engine.description (Engine._settings s) works s;
  ie_compress_all s := Engine.compress_all crc32 (Engine._settings s) s;
  ie_stop s := Engine.stop crc32 (Engine._settings s) s;
|}.
End EngineInstance.

(** [IEngine::Description::update]; the tasks are not added. *)
Definition Description_update (other d : Engine.Description) : Engine.Description :=
  Engine.mkDescription (u64 (Engine.wal_count d + Engine.wal_count other))
    (u64 (Engine.pages_count d + Engine.pages_count other)) (Engine.active_works d)
    (u64 ((Engine.d_dropper d).1 + (Engine.d_dropper other).1), (Engine.d_dropper d).2)
    ((Engine.d_memstorage other).1, u64 ((Engine.d_memstorage d).2 + (Engine.d_memstorage other).2)).

(** ** Shards *)

Module ShardEngine.

Definition SHARD_FILE_NAME : string := "shards.js".

Record Shard := mkShard { path : string; alias : string; ids : list Z }.

(** The JSON library on the file of the shards: an array of them, nothing when there
    are none; [None] where it throws. *)
Class ShardJson := {
  shards_dump : list Shard → list Z;
  shards_parse : list Z → option (list Shard);
  (** a set is written in its order, and line ends are only between the tokens *)
  shards_parse_dump : ∀ l, Forall (fun sh => Sorted.StronglySorted Z.lt (ids sh)) l →
    shards_parse (base.filter (fun b => b ≠ 10) (shards_dump l)) = Some l;
}.

(** Pointers to engines are addresses in [heap], [None] is null; [_dirs] has the files of
    the directories of shards that no engine has open. *)
Record t (E K : Type) := mk {
  _stoped : bool;
  _force_unlock : bool;
  _id2shard : gmap Z (option nat);
  _shards : gmap string Shard;
  _interval2shard : gmap string (option nat);
  _sub_storages : list (string * nat);
  _default_shard : option nat;
  _settings : Settings.t;
  _scheme : option Scheme.t;
  _subscribe_notify : Subscribe.t;
  (** the callbacks of the subscriptions, by address *)
  _clbks : list K;
  heap : list E;
  _fs : fs;
  _dirs : gmap string env;
}.
Arguments mk {E K} _ _ _ _ _ _ _ _ _ _ _ _ _ _.
Arguments _stoped {E K} _.
Arguments _force_unlock {E K} _.
Arguments _id2shard {E K} _.
Arguments _shards {E K} _.
Arguments _interval2shard {E K} _.
Arguments _sub_storages {E K} _.
Arguments _default_shard {E K} _.
Arguments _settings {E K} _.
Arguments _scheme {E K} _.
Arguments _subscribe_notify {E K} _.
Arguments _clbks {E K} _.
Arguments heap {E K} _.
Arguments _fs {E K} _.
Arguments _dirs {E K} _.

Section ShardEngine.
Context {E K : Type} `{!IEngine E} `{IReadCallback K}.
Context `{Paths} `{FloatText} `{Json} `{!ShardJson} `{UnorderedMap}.
(** a directory nothing was written to *)
Variable empty_dir : env.

Implicit Types s : t E K.

Definition set_stoped (b : bool) s : t E K :=
  mk b (_force_unlock s) (_id2shard s) (_shards s) (_interval2shard s) (_sub_storages s) (_default_shard s)
    (_settings s) (_scheme s) (_subscribe_notify s) (_clbks s) (heap s) (_fs s) (_dirs s).
Definition set_id2shard (m : gmap Z (option nat)) s : t E K :=
  mk (_stoped s) (_force_unlock s) m (_shards s) (_interval2shard s) (_sub_storages s) (_default_shard s)
    (_settings s) (_scheme s) (_subscribe_notify s) (_clbks s) (heap s) (_fs s) (_dirs s).
Definition set_shards (m : gmap string Shard) s : t E K :=
  mk (_stoped s) (_force_unlock s) (_id2shard s) m (_interval2shard s) (_sub_storages s) (_default_shard s)
    (_settings s) (_scheme s) (_subscribe_notify s) (_clbks s) (heap s) (_fs s) (_dirs s).
Definition set_interval2shard (m : gmap string (option nat)) s : t E K :=
  mk (_stoped s) (_force_unlock s) (_id2shard s) (_shards s) m (_sub_storages s) (_default_shard s)
    (_settings s) (_scheme s) (_subscribe_notify s) (_clbks s) (heap s) (_fs s) (_dirs s).
Definition set_sub_storages (l : list (string * nat)) s : t E K :=
  mk (_stoped s) (_force_unlock s) (_id2shard s) (_shards s) (_interval2shard s) l (_default_shard s)
    (_settings s) (_scheme s) (_subscribe_notify s) (_clbks s) (heap s) (_fs s) (_dirs s).
Definition set_default_shard (p : option nat) s : t E K :=
  mk (_stoped s) (_force_unlock s) (_id2shard s) (_shards s) (_interval2shard s) (_sub_storages s) p
    (_settings s) (_scheme s) (_subscribe_notify s) (_clbks s) (heap s) (_fs s) (_dirs s).
Definition set_subscribe (n : Subscribe.t) (ks : list K) s : t E K :=
  mk (_stoped s) (_force_unlock s) (_id2shard s) (_shards s) (_interval2shard s) (_sub_storages s)
    (_default_shard s) (_settings s) (_scheme s) n ks (heap s) (_fs s) (_dirs s).
Definition set_heap (h : list E) s : t E K :=
  mk (_stoped s) (_force_unlock s) (_id2shard s) (_shards s) (_interval2shard s) (_sub_storages s)
    (_default_shard s) (_settings s) (_scheme s) (_subscribe_notify s) (_clbks s) h (_fs s) (_dirs s).
Definition set_files (f : fs) s : t E K :=
  mk (_stoped s) (_force_unlock s) (_id2shard s) (_shards s) (_interval2shard s) (_sub_storages s)
    (_default_shard s) (_settings s) (_scheme s) (_subscribe_notify s) (_clbks s) (heap s) f (_dirs s).
Definition set_dirs (d : gmap string env) s : t E K :=
  mk (_stoped s) (_force_unlock s) (_id2shard s) (_shards s) (_interval2shard s) (_sub_storages s)
    (_default_shard s) (_settings s) (_scheme s) (_subscribe_notify s) (_clbks s) (heap s) (_fs s) d.
Definition setScheme (scheme : option Scheme.t) s : t E K :=
  mk (_stoped s) (_force_unlock s) (_id2shard s) (_shards s) (_interval2shard s) (_sub_storages s)
    (_default_shard s) (_settings s) scheme (_subscribe_notify s) (_clbks s) (heap s) (_fs s) (_dirs s).

(** *** Engines behind pointers *)

(** A call of the engine at an address. *)
Definition on_engine {X} (a : nat) (f : E → outcome (X * E)) s : outcome (X * t E K) :=
  match heap s !! a with
  | None => UB
  | Some e => '(x, e) ← f e; Ok (x, set_heap (<[a := e]> (heap s)) s)
  end.

Definition change_engine (a : nat) (f : E → outcome E) s : outcome (t E K) :=
  '(_, s) ← on_engine a (fun e => e ← f e; Ok ((), e)) s; Ok s.

(** [new Engine(...)]: the next address. *)
Definition new_engine (st : Settings.t) (force : bool) (d : env) s : outcome (nat * t E K) :=
  e ← ie_new st force d; Ok (length (heap s), set_heap (heap s ++ [e]) s).

(** The loops over [_sub_storages]. *)
Definition over_storages {X} (f : X → E → outcome (X * E)) (x : X) s : outcome (X * t E K) :=
  foldM (fun (p : X * t E K) ss => on_engine ss.2 (f p.1) p.2) (_sub_storages s) (x, s).

Definition each_storage (f : E → outcome E) s : outcome (t E K) :=
  '(_, s) ← over_storages (fun _ e => e ← f e; Ok ((), e)) () s; Ok s.

(** The files of a directory, as the engine that has it open left them. *)
Definition dir_env (p : string) s : env :=
  match list_find (fun ss => ss.1 = p) (_sub_storages s) with
  | Some (_, (_, a)) =>
    match heap s !! a with Some e => ie_env e | None => empty_dir end
  | None => default empty_dir (_dirs s !! p)
  end.

(** *** The file of the shards *)

Definition shardFileName s : string := append_path (Settings.storage_path (_settings s)) SHARD_FILE_NAME.

Definition saveShardFile s : outcome (t E K) :=
  let file := shardFileName s in
  let f := _fs s in
  if fs_writable f file then
    Ok (set_files (mkFs (<[file := shards_dump (snd <$> um_list (_shards s))]> (fs_files f)) (fs_dirs f)
                     (fs_writable f)) s)
  else Throw.

(** *** Opening shards *)

Definition open_shard_path (d : Shard) s : outcome (nat * t E K) :=
  let dir := dir_env (path d) s in
  '(st, f) ← Settings.create (path d) (e_fs dir);
  new_engine st (_force_unlock s) (set_fs f dir) s.

Definition open_memonly_shard (d : Shard) s : outcome (nat * t E K) :=
  new_engine Settings.create_memory_only false empty_dir s.

(** The part of [shardAdd_inner] for an alias that is there: the shard gets the
    identifiers too; its engine is found by the path, null when the path is another. *)
Definition extend_shard (d old : Shard) s : option nat * t E K :=
  let shard_ptr :=
    match list_find (fun ss => ss.1 = path d) (_sub_storages s) with
    | Some (_, ss) => Some ss.2
    | None => None
    end in
  let new_shard_rec := mkShard (path d) (alias d) (fold_left (fun l i => Engine.id_insert i l) (ids old) (ids d)) in
  (shard_ptr, set_shards (<[alias d := new_shard_rec]> (_shards s)) s).

Definition shardAdd_inner (d : Shard) s : outcome (t E K) :=
  let interval_name := alias d in
  let is_interval_shard := Scheme.is_interval interval_name in
  '(shard_ptr, s) ← (match _shards s !! alias d with
    | Some old => Ok (extend_shard d old s)
    | None =>
      let s := set_shards (<[alias d := d]> (_shards s)) s in
      '(a, s) ← (if String.eqb interval_name "raw" && Settings.raw_is_memonly (_settings s)
                 then open_memonly_shard d s else open_shard_path d s);
      Ok (Some a, set_sub_storages (_sub_storages s ++ [(path d, a)]) s)
    end);
  if is_interval_shard then Ok (set_interval2shard (<[interval_name := shard_ptr]> (_interval2shard s)) s)
  else
    match ids d with
    | [] => Ok (set_default_shard shard_ptr s)
    | _ =>
      Ok (set_id2shard (fold_left (fun (m : gmap Z (option nat)) i =>
            match m !! i with None => <[i := shard_ptr]> m | Some _ => m end) (ids d) (_id2shard s)) s)
    end.

Definition shardAdd (d : Shard) s : outcome (t E K) := s ← shardAdd_inner d s; saveShardFile s.

Definition loadShardFile s : outcome (t E K) :=
  let fname := shardFileName s in
  if file_exists fname (_fs s) then
    content ← read_file fname (_fs s);
    match shards_parse content with
    | None => Throw
    | Some l => foldM (fun s d => shardAdd_inner d s) l s
    end
  else Ok s.

(** The engine of the path is stopped and leaves the list; the files stay in its
    directory. *)
Definition close_shard (p : string) s : outcome (t E K) :=
  match list_find (fun ss => ss.1 = p) (_sub_storages s) with
  | None => Ok s
  | Some (n, (_, a)) =>
    s ← change_engine a ie_stop s;
    let dir := dir_env p s in
    let s := set_dirs (<[p := dir]> (_dirs s)) (set_sub_storages (delete n (_sub_storages s)) s) in
    Ok (if bool_decide (_default_shard s = Some a) then set_default_shard None s else s)
  end.

Definition shardRm (name : string) (rm_shard_folder : bool) s : outcome (t E K) :=
  match _shards s !! name with
  | None => Ok s
  | Some d =>
    s ← close_shard (path d) s;
    let s := if rm_shard_folder then set_dirs (delete (path d) (_dirs s)) s else s in
    let s := set_id2shard (fold_left (fun (m : gmap Z (option nat)) i => delete i m) (ids d) (_id2shard s)) s in
    saveShardFile (set_shards (delete name (_shards s)) s)
  end.

Definition shardList s : list Shard := snd <$> um_list (_shards s).

(** *** Which shard *)

(** The settings of the engine for an interval, the name of its directory, and the
    directory. *)
Definition interval_storage (settings : Settings.t) (interval interval_dir : string) (dir : env)
  : outcome (Settings.t * string * env) :=
  if String.eqb interval "raw" && Settings.raw_is_memonly settings
  then Ok (Settings.create_memory_only, "raw"%string, empty_dir)
  else
    let f := if path_exists interval_dir (e_fs dir) then e_fs dir else mkdir interval_dir (e_fs dir) in
    '(st, f) ← Settings.create interval_dir f;
    Ok (Settings.setStrategy (strategy_for_interval (Settings.intervals settings) interval) st,
        interval_dir, set_fs f dir).

Definition shards_dir (settings : Settings.t) : string := append_path (Settings.storage_path settings) "shards".

Definition createShardForInterval (interval : string) s : outcome (nat * t E K) :=
  let shards_dir := shards_dir (_settings s) in
  let s := if path_exists shards_dir (_fs s) then s else set_files (mkdir shards_dir (_fs s)) s in
  let interval_dir := append_path shards_dir interval in
  '(st, p, dir) ← interval_storage (_settings s) interval interval_dir (dir_env interval_dir s);
  '(a, s) ← new_engine st false dir s;
  s ← change_engine a (fun e =>
        f ← Settings.save st (e_fs (ie_env e)); Ok (ie_set_env (set_fs f (ie_env e)) e)) s;
  let s := set_interval2shard (<[interval := Some a]> (_interval2shard s)) s in
  s ← saveShardFile (set_shards (<[interval := mkShard p interval []]> (_shards s)) s);
  Ok (a, set_sub_storages (_sub_storages s ++ [(p, a)]) s).

(** The shard of an interval, made when there is none. *)
Definition shard_for_interval (interval : string) s : outcome (option nat * t E K) :=
  match _interval2shard s !! interval with
  | None => '(a, s) ← createShardForInterval interval s; Ok (Some a, s)
  | Some p => Ok (p, s)
  end.

Definition get_shard_for_id (i : Z) s : outcome (option nat * t E K) :=
  match _id2shard s !! i with
  | Some target_shard => Ok (target_shard, s)
  | None =>
    match _scheme s with
    | None => Ok (_default_shard s, s)
    | Some scheme =>
      let d := Scheme.descriptionFor i scheme in
      if negb (md_id d =? MAX_ID) && negb (String.eqb (md_interval d) "") then
        '(target_shard, s) ← shard_for_interval (md_interval d) s;
        Ok (target_shard, set_id2shard (<[i := target_shard]> (_id2shard s)) s)
      else
        match _default_shard s with
        | None =>
          '(a, s) ← createShardForInterval "default" s; Ok (Some a, set_default_shard (Some a) s)
        | Some a => Ok (Some a, s)
        end
    end
  end.

(** A call of the engine of an identifier, when there is one. *)
Definition on_shard {X} (i : Z) (none : X) (f : E → outcome (X * E)) s : outcome (X * t E K) :=
  '(p, s) ← get_shard_for_id i s;
  match p with None => Ok (none, s) | Some a => on_engine a f s end.

Definition change_shard (i : Z) (f : E → outcome E) s : outcome (t E K) :=
  '(_, s) ← on_shard i () (fun e => e ← f e; Ok ((), e)) s; Ok s.

(** *** Writing and reading *)

Definition append (value : Meas) s : outcome (Status * t E K) :=
  '(p, s) ← get_shard_for_id (id value) s;
  match p with
  | None => Ok (Status_error 1 bad_shard, s)
  | Some a =>
    '(result, s) ← on_engine a (ie_append value) s;
    if bool_decide (writed result = Some 1) then
      ks ← Subscribe.on_append value (_subscribe_notify s) (_clbks s);
      Ok (result, set_subscribe (_subscribe_notify s) ks s)
    else Ok (result, s)
  end.

Definition minTime s : outcome (Z * t E K) :=
  over_storages (fun result e => '(subres, e) ← ie_minTime e; Ok (Z.min subres result, e)) MAX_TIME s.

Definition maxTime s : outcome (Z * t E K) :=
  over_storages (fun result e => '(subres, e) ← ie_maxTime e; Ok (Z.max subres result, e)) MIN_TIME s.

Definition loadMinMax s : outcome (Id2MinMax * t E K) :=
  over_storages (fun result e =>
    '(subres, e) ← ie_loadMinMax e;
    '(_, result) ← StrippedMap.apply (fun r v => StrippedMap.insert MeasMinMax_default r v.1 v.2) subres result;
    Ok (result, e)) (StrippedMap.make 1000) s.

(** The variables stay as they are when there is no shard. *)
Definition minMaxTime (i mn mx : Z) s : outcome (bool * Z * Z * t E K) :=
  '(x, s) ← on_shard i (false, mn, mx) (fun e => '(r, a, b, e) ← ie_minMaxTime i e; Ok ((r, a, b), e)) s;
  Ok (x.1.1, x.1.2, x.2, s).

(** The identifiers of each shard; one without a shard is left out. *)
Definition makeStorage2iset (l : list Z) s : outcome (gmap nat (list Z) * t E K) :=
  foldM (fun (x : gmap nat (list Z) * t E K) i =>
    '(p, s) ← get_shard_for_id i x.2;
    match p with
    | None => Ok (x.1, s)
    | Some a => Ok (<[a := Engine.id_insert i (default [] (x.1 !! a))]> x.1, s)
    end) l (∅, s).

(** [result[kv.first] = kv.second] for what a shard answers. *)
Definition put_all {V} (subresult result : gmap Z V) : gmap Z V :=
  fold_left (fun (r : gmap Z V) kv => <[kv.1 := kv.2]> r) (um_list subresult) result.

(** Every shard is asked for its identifiers, one after the other. *)
Definition ask_shards {V} (l : list Z) (f : Z → E → outcome (gmap Z V * E)) s : outcome (gmap Z V * t E K) :=
  '(storage2iset, s) ← makeStorage2iset l s;
  foldM (fun (x : gmap Z V * t E K) kv =>
    foldM (fun (x : gmap Z V * t E K) i =>
      '(subresult, s) ← on_engine kv.1 (f i) x.2; Ok (put_all subresult x.1, s)) kv.2 x)
    (um_list storage2iset) (∅, s).

Definition intervalReader (q : QueryInterval) s : outcome (gmap Z (cursor Chunk.cursor) * t E K) :=
  ask_shards (qi_ids q) (fun i => ie_intervalReader (IEngine.local_query q i)) s.

Definition readTimePoint (q : QueryTimePoint) s : outcome (gmap Z Meas * t E K) :=
  ask_shards (qt_ids q) (fun i => ie_readTimePoint (mkQueryTimePoint [i] (qt_flag q) (qt_time_point q))) s.

Definition currentValue (l : list Z) (fl : Z) s : outcome (gmap Z Meas * t E K) :=
  ask_shards l (fun i => ie_currentValue [i] fl) s.

(** [readInterval] of [IMeasSource]. *)
Definition readInterval (q : QueryInterval) s : outcome (list Meas * t E K) :=
  '(r, s) ← intervalReader q s;
  p ← foldM (read_one q) (qi_ids q) (r, []);
  Ok (p.2, s).

Definition stat (i from to : Z) s : outcome (Statistic * t E K) :=
  on_shard i Statistic_empty (ie_stat i from to) s.

(** *** Maintenance *)

Definition fsck s : outcome (t E K) := each_storage ie_fsck s.
Definition eraseOld (i tm : Z) s : outcome (t E K) := change_shard i (ie_eraseOld i tm) s.
Definition repack (i : Z) s : outcome (t E K) := change_shard i (ie_repack i) s.
Definition compact (logic : CompactionController) s : outcome (t E K) :=
  change_shard (targetId logic) (ie_compact logic) s.
Definition compress_all s : outcome (t E K) := each_storage ie_compress_all s.

Definition description (works : Z) s : outcome Engine.Description :=
  '(d, _) ← over_storages (fun result e => d ← ie_description e; Ok (Description_update d result, e))
    (Engine.mkDescription 0 0 0 (0, 0) (0, 0)) s;
  Ok (Engine.mkDescription (Engine.wal_count d) (Engine.pages_count d) works (Engine.d_dropper d)
        (Engine.d_memstorage d)).

(** The callback gets the next address. *)
Definition subscribe (l : list Z) (fl : Z) (clbk : K) s : t E K :=
  set_subscribe (Subscribe.add (Subscribe.mkSubscribeInfo l fl (length (_clbks s))) (_subscribe_notify s))
    (_clbks s ++ [clbk]) s.

(** *** Starting and stopping *)

(** [f] has the files of the directory, [dirs] those of the directories of the shards. *)
Definition make (storage : string) (force_unlock : bool) (f : fs) (dirs : gmap string env)
  : outcome (t E K) :=
  '(st, f) ← Settings.create storage f;
  let s := mk false force_unlock ∅ ∅ ∅ [] None st None (Subscribe.mk [] true) [] [] f dirs in
  s ← (if file_exists (shardFileName s) f then Ok s else saveShardFile s);
  loadShardFile (set_subscribe (Subscribe.start (_subscribe_notify s)) (_clbks s) s).

Definition stop s : outcome (t E K) :=
  if _stoped s then Ok s
  else
    let s := set_subscribe (Subscribe.stop (_subscribe_notify s)) (_clbks s) s in
    s ← each_storage ie_stop (set_id2shard ∅ s);
    Ok (set_stoped true s).

End ShardEngine.
End ShardEngine.
