(* ===== verification/ShardSpec.v ===== *)
(** * The engine over shards: one log

    Whatever engines the shards have, as long as each answers from all that was appended
    to it, the engine over them answers from all that was appended to any: every series
    is in one shard, the shard for it is made when it is first asked for, and stays the
    same. *)

From Stdlib Require Import ZArith Lia String.
From stdpp Require Import base numbers list gmap strings.
From S2P Require Import Prelude Float64 Meas Stat StdSort ICursor FullCursor Chunk KMerge Cursors Colapse TimeTrackSpec Series.
From S2P Require Import StripedMap Storages TimeUtil Scheme Settings Files Options PageSpec PageManager Engine EngineSpec Shard.

Local Open Scope Z_scope.

(** ** What the shards promise *)

(** Some of the series of a log. *)
Record part_of (part log : list Meas) : Prop := {
  po_sub : part `sublist_of` log;
  po_series : ∀ i, series i part = series i log ∨ series i part = [];
}.

(** An engine that answers from its log: [el_fits] says what can be appended, [el_opens]
    which directories it starts on, and [el_turn] what its threads do between calls. *)
Class EngineLaws (E : Type) `{IEngine E} `{Paths} `{FloatText} `{Json} := {
  el_holds : list Meas → E → Prop;
  el_fits : list Meas → Prop;
  el_opens : Settings.t → env → Prop;
  el_turn : E → outcome E;
  el_prefix : ∀ l1 l2, el_fits (l1 ++ l2) → el_fits l1;
  el_part : ∀ part log, el_fits log → part_of part log → el_fits part;
  el_new : ∀ st force d, el_opens st d →
    ∃ e, ie_new st force d = Ok e ∧ el_holds [] e ∧
      ∃ f, Settings.save st (e_fs (ie_env e)) = Ok f ∧ el_holds [] (ie_set_env (set_fs f (ie_env e)) e);
  el_append : ∀ log m e, el_holds log e → el_fits (log ++ [m]) → meas_wf m →
    ∃ e', ie_append m e = Ok (Status_writed 1, e') ∧ el_holds (log ++ [m]) e';
  el_read : ∀ log q i e, el_holds log e → el_fits log → qi_ids q = [i] → flags_exact q (series i log) →
    ∃ r e', ie_intervalReader q e = Ok (r, e') ∧ el_holds log e' ∧
      ∀ j, match r !! j with
        | None => j = i → base.filter (in_query q) (series i log) = []
        | Some c => j = i ∧ ∃ l, rep c l ∧ l `sublist_of` series i log ∧
            base.filter (in_query q) l = base.filter (in_query q) (series i log)
        end;
  el_current : ∀ log i fl e, el_holds log e → el_fits log →
    ∃ e', ie_currentValue [i] fl e = Ok (base.filter (asked [i] fl) (latest log), e') ∧ el_holds log e';
  el_turns : ∀ log e, el_holds log e → el_fits log → ∃ e', el_turn e = Ok e' ∧ el_holds log e';
}.

Section Shards.
Context {E K : Type} `{!IEngine E} `{IReadCallback K}.
Context `{Paths} `{FloatText} `{Json} `{!ShardEngine.ShardJson} `{UnorderedMap} `{!EngineLaws E}.
Variable empty_dir : env.
(** the intervals a shard may be made for *)
Variable used : string → Prop.
Hypothesis used_plain : ∀ x, used x → plain_name x = true.
Hypothesis used_default : used "default".

Implicit Types s : ShardEngine.t E K.

(** ** Which shard has a series *)

Definition of_interval (i : Z) (sc : Scheme.t) : bool :=
  let d := Scheme.descriptionFor i sc in negb (md_id d =? MAX_ID) && negb (String.eqb (md_interval d) "").

(** The shard of an identifier, when it was made. *)
Definition route s (i : Z) : option nat :=
  match ShardEngine._id2shard s !! i with
  | Some p => p
  | None =>
    match ShardEngine._scheme s with
    | None => ShardEngine._default_shard s
    | Some sc =>
      if of_interval i sc
      then default None (ShardEngine._interval2shard s !! md_interval (Scheme.descriptionFor i sc))
      else ShardEngine._default_shard s
    end
  end.

Abbreviation interval_dir st x := (append_path (ShardEngine.shards_dir st) x).

(** The shard has the whole series of those it is the shard of, and of no others. *)
Record split_log (s : ShardEngine.t E K) (log : list Meas) (logs : list (list Meas)) : Prop := {
  sl_holds : Forall2 el_holds logs (ShardEngine.heap s);
  sl_sub : Forall (fun l => l `sublist_of` log) logs;
  sl_series : ∀ i a l, logs !! a = Some l → series i l = if decide (route s i = Some a) then series i log else [];
  sl_route : ∀ i, match route s i with None => series i log = [] | Some a => (a < length logs)%nat end;
}.

(** No pointer is null, and what a new shard needs is there. *)
Record wired (st : Settings.t) s : Prop := {
  sh_settings : ShardEngine._settings s = st;
  sh_ids : ∀ i p, ShardEngine._id2shard s !! i = Some p → is_Some p;
  sh_intervals : ∀ x p, ShardEngine._interval2shard s !! x = Some p → is_Some p;
  sh_default : ShardEngine._default_shard s = None → ShardEngine._interval2shard s !! "default"%string = None;
  sh_dirs : ShardEngine._dirs s = ∅;
  sh_paths : ∀ x, used x → ShardEngine._interval2shard s !! x = None →
    interval_dir st x ∉ (ShardEngine._sub_storages s).*1;
  sh_file : fs_writable (ShardEngine._fs s) (ShardEngine.shardFileName s) = true;
}.

(** Every identifier has a shard, or gets one. *)
Definition covers (p : option nat) (scheme : option Scheme.t) : Prop :=
  match scheme with
  | None => is_Some p
  | Some sc => ∀ i, of_interval i sc = true →
      let x := md_interval (Scheme.descriptionFor i sc) in used x ∧ x ≠ "default"%string
  end.

Definition shards (st : Settings.t) (log : list Meas) s : Prop :=
  wired st s ∧ covers (ShardEngine._default_shard s) (ShardEngine._scheme s) ∧ ∃ logs, split_log s log logs.

Lemma split_part s log logs a l : split_log s log logs → logs !! a = Some l → part_of l log.
Proof.
  intros [_ Hs He _] Hl. split.
  - rewrite Forall_lookup in Hs. by eapply Hs.
  - intros i. rewrite (He i a l Hl). case_decide; [by left|by right].
Qed.

Lemma split_at s log logs i a : split_log s log logs → route s i = Some a →
  ∃ l, logs !! a = Some l ∧ series i l = series i log.
Proof.
  intros [_ _ He Hr] Ha. specialize (Hr i). rewrite Ha in Hr. destruct (lookup_lt_is_Some_2 _ _ Hr) as [l Hl].
  exists l. split; [done|]. by rewrite (He i a l Hl), decide_True.
Qed.

Lemma wired_heap st h s : wired st s → wired st (ShardEngine.set_heap h s).
Proof. by intros []. Qed.

(** A call of a shard that leaves its log as it is. *)
Lemma on_engine_ok {X} (P : X → Prop) (f : E → outcome (X * E)) s log logs a l :
  split_log s log logs → logs !! a = Some l →
  (∀ e, el_holds l e → ∃ x e', f e = Ok (x, e') ∧ P x ∧ el_holds l e') →
  ∃ x h, ShardEngine.on_engine a f s = Ok (x, ShardEngine.set_heap h s) ∧ P x ∧
    split_log (ShardEngine.set_heap h s) log logs.
Proof.
  intros [Hh Hsub Hser Hrt] Hl Hf. destruct (Forall2_lookup_l _ _ _ _ _ Hh Hl) as (e & He & Hle).
  destruct (Hf e Hle) as (x & e' & E1 & Hx & Hle'). unfold ShardEngine.on_engine. rewrite He, E1, bind_Ok.
  eexists x, _. split; [done|]. split; [done|]. split; try done. cbn.
  rewrite <- (list_insert_id logs a l Hl). by apply Forall2_insert.
Qed.

(** *** Making shards *)

Lemma split_grow s s' log logs e : split_log s log logs → ShardEngine.heap s' = ShardEngine.heap s ++ [e] →
  el_holds [] e →
  (∀ j, route s' j = route s j ∨ route s j = None ∧ route s' j = Some (length (ShardEngine.heap s))) →
  split_log s' log (logs ++ [[]]).
Proof.
  intros [Hh Hsub Hser Hrt] Eh He Hr. pose proof (Forall2_length _ _ _ Hh) as El. split.
  - rewrite Eh. apply Forall2_app; [done|]. by constructor.
  - apply Forall_app. split; [done|]. constructor; [apply sublist_nil_l|constructor].
  - intros i a l Hl. specialize (Hrt i). destruct (Hr i) as [Ei|[E1 E2]].
    + rewrite Ei. apply lookup_app_Some in Hl as [Hl|[Hge Hl]]; [by apply Hser|].
      destruct (a - length logs)%nat as [|k] eqn:Ek; [|by destruct k]. injection Hl as <-.
      rewrite decide_False; [done|]. intros Ea. rewrite Ea in Hrt. lia.
    + rewrite E1 in Hrt. rewrite E2, Hrt. assert (series i l = []) as ->; [|by case_decide].
      apply lookup_app_Some in Hl as [Hl|[Hge Hl]].
      * rewrite (Hser i a l Hl), E1. by case_decide.
      * destruct (a - length logs)%nat as [|k]; [|by destruct k]. by injection Hl as <-.
  - intros i. specialize (Hrt i). destruct (Hr i) as [->|[E1 ->]].
    + case_match; [|done]. rewrite length_app. cbn. lia.
    + rewrite length_app. cbn. lia.
Qed.

Lemma interval_dir_inj st x y : used x → used y → interval_dir st x = interval_dir st y → x = y.
Proof.
  intros Hx%used_plain Hy%used_plain Exy%(f_equal extract_filename). by rewrite !extract_append in Exy.
Qed.

(** The directory of every interval is one an engine can start on. *)
Definition can_make (st : Settings.t) : Prop := ∀ x, used x →
  ∃ st' d, ShardEngine.interval_storage empty_dir st x (interval_dir st x) empty_dir = Ok (st', interval_dir st x, d) ∧
    el_opens st' d.

Lemma dir_env_new st s p : wired st s → p ∉ (ShardEngine._sub_storages s).*1 → ShardEngine.dir_env empty_dir p s = empty_dir.
Proof.
  intros Hw Hp. unfold ShardEngine.dir_env. rewrite (sh_dirs _ _ Hw), lookup_empty.
  destruct (list_find _ _) as [[n [q a]]|] eqn:Ef; [|done]. apply list_find_Some in Ef as (Hn & <- & _).
  destruct Hp. apply list_elem_of_lookup_2 in Hn. by apply (list_elem_of_fmap_2 fst _ (q, a)).
Qed.

Lemma save_ok s : fs_writable (ShardEngine._fs s) (ShardEngine.shardFileName s) = true →
  ∃ f, ShardEngine.saveShardFile s = Ok (ShardEngine.set_files f s) ∧ fs_writable f = fs_writable (ShardEngine._fs s).
Proof. intros Hf. unfold ShardEngine.saveShardFile. rewrite Hf. by eexists. Qed.

Lemma make_shard_ok st s x : wired st s → can_make st → used x → ShardEngine._interval2shard s !! x = None →
  let a := length (ShardEngine.heap s) in
  ∃ e sm f, el_holds [] e ∧ fs_writable f = fs_writable (ShardEngine._fs s) ∧
    ShardEngine.createShardForInterval empty_dir x s = Ok (a,
      ShardEngine.mk (ShardEngine._stoped s) (ShardEngine._force_unlock s) (ShardEngine._id2shard s) sm
        (<[x := Some a]> (ShardEngine._interval2shard s)) (ShardEngine._sub_storages s ++ [(interval_dir st x, a)])
        (ShardEngine._default_shard s) st (ShardEngine._scheme s) (ShardEngine._subscribe_notify s)
        (ShardEngine._clbks s) (ShardEngine.heap s ++ [e]) f (ShardEngine._dirs s)).
Proof.
  intros Hw Hm Hx Hn a. destruct (Hm x Hx) as (st' & d & Ei & Ho).
  destruct (el_new st' false d Ho) as (e & Ee & _ & f & Ef & He).
  unfold ShardEngine.createShardForInterval. rewrite (sh_settings _ _ Hw).
  set (s1 := if path_exists _ _ then s else _).
  assert (Hs1 : ∃ f1, s1 = ShardEngine.set_files f1 s ∧ fs_writable f1 = fs_writable (ShardEngine._fs s)).
  { unfold s1. destruct (path_exists _ _); [|by eexists]. exists (ShardEngine._fs s). by destruct s. }
  destruct Hs1 as (f1 & -> & Hf1). cbn [ShardEngine._settings ShardEngine.set_files]. rewrite (sh_settings _ _ Hw).
  assert (ShardEngine.dir_env empty_dir (interval_dir st x) (ShardEngine.set_files f1 s) = empty_dir) as ->.
  { change (ShardEngine.dir_env empty_dir (interval_dir st x) s = empty_dir). eapply dir_env_new; [done|]. by apply (sh_paths _ _ Hw). }
  rewrite Ei, bind_Ok. unfold ShardEngine.new_engine. rewrite Ee, !bind_Ok.
  unfold ShardEngine.change_engine, ShardEngine.on_engine. cbn [ShardEngine.heap ShardEngine.set_heap ShardEngine.set_files].
  rewrite lookup_app_r, Nat.sub_diag by done. cbn [lookup list_lookup]. rewrite Ef, !bind_Ok.
  rewrite insert_app_r_alt, Nat.sub_diag by done. cbn [app insert list_insert].
  match goal with |- context [ShardEngine.saveShardFile ?s] => destruct (save_ok s) as (f2 & -> & Hf2) end.
  { change (fs_writable f1 (ShardEngine.shardFileName s) = true). rewrite Hf1. apply (sh_file _ _ Hw). }
  rewrite bind_Ok. eexists _, _, f2. split; [exact He|]. rewrite Hf2, <- Hf1. split; [done|].
  rewrite <- (sh_settings _ _ Hw). done.
Qed.

(** Series that have a shard keep it. *)
Record grows s s' : Prop := {
  gr_route : ∀ j a, route s j = Some a → route s' j = Some a;
  gr_subs : ShardEngine._subscribe_notify s' = ShardEngine._subscribe_notify s;
  gr_clbks : ShardEngine._clbks s' = ShardEngine._clbks s;
}.

Lemma grows_refl s : grows s s.
Proof. by split. Qed.

Lemma grows_trans s1 s2 s3 : grows s1 s2 → grows s2 s3 → grows s1 s3.
Proof.
  intros [R1 S1 C1] [R2 S2 C2]. split; [|congruence..]. intros j a Hj. by apply R2, R1.
Qed.

Lemma split_same s s' log logs : split_log s log logs → ShardEngine.heap s' = ShardEngine.heap s →
  (∀ j, route s' j = route s j) → split_log s' log logs.
Proof.
  intros [Hh Hsub Hser Hrt] Eh Er. split; [by rewrite Eh|done| |].
  - intros i a l Hl. rewrite Er. by apply Hser.
  - intros i. rewrite Er. apply Hrt.
Qed.

(** The shard of an interval is known from now on for the identifier. *)
Lemma cache_ok st log s i a : shards st log s → route s i = Some a →
  let s' := ShardEngine.set_id2shard (<[i := Some a]> (ShardEngine._id2shard s)) s in
  shards st log s' ∧ route s' i = Some a ∧ grows s s'.
Proof.
  intros (Hw & Hc & logs & Hl) Hr s'.
  assert (Er : ∀ j, route s' j = route s j).
  { intros j. destruct (decide (j = i)) as [->|Hj]; unfold route at 1; cbn.
    - rewrite lookup_insert_eq. done.
    - by rewrite lookup_insert_ne. }
  split; [split; [|split; [done|]]|split; [by rewrite Er|]].
  - destruct Hw. split; try done. intros j p. cbn. destruct (decide (j = i)) as [->|Hj].
    + rewrite lookup_insert_eq. by intros [= <-].
    + rewrite lookup_insert_ne by done. eauto.
  - exists logs. by eapply split_same.
  - split; [|done..]. intros j b. by rewrite Er.
Qed.

(** A shard made for an interval; [p] is the shard for all others afterwards. *)
Lemma made_ok st log s x e sm f p : shards st log s → used x → ShardEngine._interval2shard s !! x = None →
  let a := length (ShardEngine.heap s) in
  el_holds [] e → fs_writable f = fs_writable (ShardEngine._fs s) →
  (p = ShardEngine._default_shard s ∧ x ≠ "default"%string ∨ ShardEngine._default_shard s = None ∧ p = Some a) →
  let s' := ShardEngine.mk (ShardEngine._stoped s) (ShardEngine._force_unlock s) (ShardEngine._id2shard s) sm
    (<[x := Some a]> (ShardEngine._interval2shard s)) (ShardEngine._sub_storages s ++ [(interval_dir st x, a)])
    p st (ShardEngine._scheme s) (ShardEngine._subscribe_notify s) (ShardEngine._clbks s)
    (ShardEngine.heap s ++ [e]) f (ShardEngine._dirs s) in
  shards st log s' ∧ grows s s'.
Proof.
  intros (Hw & Hc & logs & Hl) Hx Hn a He Hf Hp s'.
  assert (Er : ∀ j, route s' j = route s j ∨ route s j = None ∧ route s' j = Some a).
  { intros j. unfold route. cbn. destruct (ShardEngine._id2shard s !! j); [by left|].
    assert (Hd : p = ShardEngine._default_shard s ∨ ShardEngine._default_shard s = None ∧ p = Some a) by naive_solver.
    destruct (ShardEngine._scheme s) as [sc|]; [|done]. destruct (of_interval j sc); [|done].
    destruct (decide (md_interval (Scheme.descriptionFor j sc) = x)) as [->|Hne].
    - right. by rewrite Hn, lookup_insert_eq.
    - left. by rewrite lookup_insert_ne. }
  split; [split; [|split]|].
  - destruct Hw as [W1 W3 W4 W5 W6 W7 W8]. split; try done; cbn.
    + intros y q. destruct (decide (y = x)) as [->|Hy].
      * rewrite lookup_insert_eq. by intros [= <-].
      * rewrite lookup_insert_ne by done. apply W4.
    + intros Hd. destruct Hp as [[-> Hne]|[_ ->]]; [|done]. rewrite lookup_insert_ne by done. by apply W5.
    + intros y Hy Hny. destruct (decide (y = x)) as [->|Hne]; [by rewrite lookup_insert_eq in Hny|].
      rewrite lookup_insert_ne in Hny by done. rewrite fmap_app, elem_of_app. cbn [fmap list_fmap fst]. rewrite list_elem_of_singleton.
      intros [Hin|Hin]; [by apply (W7 y)|]. by apply interval_dir_inj in Hin.
    + rewrite Hf. unfold ShardEngine.shardFileName. cbn. rewrite <- W1. apply W8.
  - cbn. destruct Hp as [[-> _]|[_ ->]]; [done|]. unfold covers in *. destruct (ShardEngine._scheme s); [done|by eexists].
  - exists (logs ++ [[]]). by eapply split_grow.
  - split; [|done..]. intros j b Hj. destruct (Er j) as [->|[E1 _]]; [done|]. congruence.
Qed.

Lemma get_shard_ok st log s i : shards st log s → can_make st →
  ∃ a s', ShardEngine.get_shard_for_id empty_dir i s = Ok (Some a, s') ∧ shards st log s' ∧ route s' i = Some a ∧ grows s s'.
Proof.
  intros Hs Hm. pose proof Hs as (Hw & Hsc & _). unfold ShardEngine.get_shard_for_id.
  destruct (ShardEngine._id2shard s !! i) as [p|] eqn:Ei.
  { destruct (sh_ids _ _ Hw i p Ei) as [a ->]. exists a, s. split; [done|]. split; [done|].
    split; [unfold route; by rewrite Ei|apply grows_refl]. }
  unfold covers in Hsc. destruct (ShardEngine._scheme s) as [sc|] eqn:Es.
  2:{ destruct Hsc as [a Ha]. exists a, s. split; [by rewrite Ha|]. split; [done|].
      split; [unfold route; by rewrite Ei, Es|apply grows_refl]. }
  fold (of_interval i sc). destruct (of_interval i sc) eqn:Eo.
  - set (x := md_interval (Scheme.descriptionFor i sc)). destruct (Hsc i Eo) as [Hx Hxd]. fold x in Hx, Hxd.
    assert (Hrx : ∀ s', ShardEngine._id2shard s' = ShardEngine._id2shard s → ShardEngine._scheme s' = Some sc →
      route s' i = default None (ShardEngine._interval2shard s' !! x)).
    { intros s' E1 E2. unfold route. by rewrite E1, Ei, E2, Eo. }
    unfold ShardEngine.shard_for_interval. destruct (ShardEngine._interval2shard s !! x) as [p|] eqn:Ex.
    + destruct (sh_intervals _ _ Hw x p Ex) as [a ->]. rewrite bind_Ok.
      eexists a, _. split; [done|]. apply cache_ok; [done|]. by rewrite Hrx, Ex.
    + destruct (make_shard_ok st s x Hw Hm Hx Ex) as (e & sm & f & He & Hf & ->). rewrite !bind_Ok.
      destruct (made_ok st log s x e sm f (ShardEngine._default_shard s) Hs Hx Ex He Hf) as [Hs' Hg].
      { by left. }
      match type of Hs' with shards _ _ ?s' => set (s1 := s') in * end.
      destruct (cache_ok st log s1 i (length (ShardEngine.heap s)) Hs') as (C1 & C2 & C3).
      { rewrite Hrx by done. cbn. by rewrite lookup_insert_eq. }
      eexists _, _. split; [done|]. split; [done|]. split; [done|]. by eapply grows_trans.
  - destruct (ShardEngine._default_shard s) as [a|] eqn:Ed.
    { exists a, s. split; [done|]. split; [done|]. split; [unfold route; by rewrite Ei, Es, Eo|apply grows_refl]. }
    destruct (make_shard_ok st s "default" Hw Hm used_default (sh_default _ _ Hw Ed)) as (e & sm & f & He & Hf & ->).
    rewrite !bind_Ok.
    destruct (made_ok st log s "default" e sm f (Some (length (ShardEngine.heap s))) Hs used_default (sh_default _ _ Hw Ed) He Hf)
      as [Hs' Hg]; [by right|].
    eexists _, _. split; [done|]. split; [done|]. split; [|done]. unfold route. cbn. by rewrite Ei, Es, Eo.
Qed.

(** ** Asking the shards *)

Lemma elem_of_id_insert i j l : j ∈ Engine.id_insert i l ↔ j = i ∨ j ∈ l.
Proof.
  induction l as [|k l IH]; cbn [Engine.id_insert]; [by rewrite list_elem_of_singleton, elem_of_nil; naive_solver|].
  destruct (i <? k); [by rewrite elem_of_cons|]. destruct (Z.eqb_spec i k) as [->|_]; rewrite elem_of_cons; [naive_solver|].
  rewrite IH. set_solver.
Qed.

Lemma id_insert_sorted i l : Sorted.StronglySorted Z.lt l → Sorted.StronglySorted Z.lt (Engine.id_insert i l).
Proof.
  induction 1 as [|k l Hl IH Hk]; cbn [Engine.id_insert]; [by repeat constructor|].
  destruct (Z.ltb_spec i k) as [Hi|Hi].
  { constructor; [by constructor|]. constructor; [done|]. eapply Forall_impl; [exact Hk|]. cbn. lia. }
  destruct (Z.eqb_spec i k) as [->|Hne]; [by constructor|]. constructor; [done|]. apply Forall_forall. intros j.
  rewrite elem_of_id_insert. rewrite Forall_forall in Hk. intros [->|Hj]; [lia|by apply Hk].
Qed.

Lemma sorted_NoDup (l : list Z) : Sorted.StronglySorted Z.lt l → NoDup l.
Proof.
  induction 1 as [|k l Hl IH Hk]; constructor; [|done]. intros Hin. rewrite Forall_forall in Hk. specialize (Hk k Hin). lia.
Qed.

(** The identifiers by their shards. *)
Record by_shard s (l : list Z) (m : gmap nat (list Z)) : Prop := {
  bs_routed : ∀ i, i ∈ l → is_Some (route s i);
  bs_elem : ∀ a i, i ∈ default [] (m !! a) ↔ i ∈ l ∧ route s i = Some a;
  bs_sorted : ∀ a, Sorted.StronglySorted Z.lt (default [] (m !! a));
}.

Lemma by_shard_grows s s' l m : by_shard s l m → grows s s' → by_shard s' l m.
Proof.
  intros [B1 B2 B3] [G _ _]. split; [| |done].
  - intros i Hi. destruct (B1 i Hi) as [a Ha]. exists a. by apply G.
  - intros a i. rewrite B2. split; intros [Hi Ha]; (split; [done|]); [by apply G|].
    destruct (B1 i Hi) as [b Hb]. rewrite (G _ _ Hb) in Ha. congruence.
Qed.

Lemma by_shard_put s l m i a : by_shard s l m → route s i = Some a →
  by_shard s (l ++ [i]) (<[a := Engine.id_insert i (default [] (m !! a))]> m).
Proof.
  intros [B1 B2 B3] Ha. split.
  - intros j [Hj|Hj%list_elem_of_singleton]%elem_of_app; [by apply B1|subst; by eexists].
  - intros b j. rewrite elem_of_app, list_elem_of_singleton. destruct (decide (b = a)) as [->|Hb].
    + rewrite lookup_insert_eq. change (j ∈ Engine.id_insert i (default [] (m !! a)) ↔ (j ∈ l ∨ j = i) ∧ route s j = Some a).
      rewrite elem_of_id_insert, B2. naive_solver.
    + rewrite lookup_insert_ne by done. rewrite B2. split; [naive_solver|]. intros [[Hj| ->] Hr]; [done|congruence].
  - intros b. destruct (decide (b = a)) as [->|Hb].
    + rewrite lookup_insert_eq. by apply id_insert_sorted.
    + by rewrite lookup_insert_ne.
Qed.

Definition put_id (x : gmap nat (list Z) * ShardEngine.t E K) (i : Z) : outcome (gmap nat (list Z) * ShardEngine.t E K) :=
  '(p, s) ← ShardEngine.get_shard_for_id empty_dir i x.2;
  match p with
  | None => Ok (x.1, s)
  | Some a => Ok (<[a := Engine.id_insert i (default [] (x.1 !! a))]> x.1, s)
  end.

Lemma put_ids_ok st log l done_ m s : shards st log s → can_make st → by_shard s done_ m →
  ∃ m' s', foldM put_id l (m, s) = Ok (m', s') ∧ shards st log s' ∧ grows s s' ∧ by_shard s' (done_ ++ l) m'.
Proof.
  revert done_ m s. induction l as [|i l IH]; intros done_ m s Hs Hm Hb.
  { exists m, s. rewrite app_nil_r. split; [done|]. split; [done|]. split; [apply grows_refl|done]. }
  cbn [foldM]. unfold put_id at 2. cbn [fst snd].
  destruct (get_shard_ok st log s i Hs Hm) as (a & s1 & -> & Hs1 & Hr & Hg). rewrite !bind_Ok.
  pose proof (by_shard_put s1 _ _ i a (by_shard_grows _ _ _ _ Hb Hg) Hr) as Hb1.
  destruct (IH _ _ s1 Hs1 Hm Hb1) as (m' & s' & E' & Hs' & Hg' & Hb'). exists m', s'. split; [done|]. split; [done|].
  split; [by eapply grows_trans|]. by rewrite <- app_assoc in Hb'.
Qed.

Lemma iset_ok st log l s : shards st log s → can_make st →
  ∃ m s', ShardEngine.makeStorage2iset empty_dir l s = Ok (m, s') ∧ shards st log s' ∧ grows s s' ∧ by_shard s' l m.
Proof.
  intros Hs Hm. apply (put_ids_ok st log l [] ∅ s Hs Hm).
  split; [by intros i Hi%elem_of_nil| |intros a; rewrite lookup_empty; constructor].
  intros a i. rewrite lookup_empty. cbn. rewrite elem_of_nil. naive_solver.
Qed.

Lemma put_all_lookup {V} (r R : gmap Z V) j :
  ShardEngine.put_all r R !! j = match r !! j with Some v => Some v | None => R !! j end.
Proof.
  unfold ShardEngine.put_all. assert (Hp : um_list r ≡ₚ map_to_list r) by apply um_perm.
  assert (Hnd : NoDup (um_list r).*1) by (rewrite Hp; apply NoDup_fst_map_to_list).
  assert (r !! j = list_to_map (M := gmap Z V) (um_list r) !! j) as ->.
  { by rewrite (list_to_map_proper _ _ Hnd Hp), list_to_map_to_list. }
  clear Hp. revert R Hnd. generalize (um_list r). intros l. induction l as [|[i v] l IH]; intros R Hnd; [by cbn; rewrite lookup_empty|].
  rewrite fmap_cons in Hnd. apply NoDup_cons in Hnd as [Hi Hnd]. cbn [fold_left list_to_map foldr fst snd uncurry].
  rewrite IH by done. change (foldr _ _ l) with (list_to_map (M := gmap Z V) l). destruct (decide (j = i)) as [->|Hj].
  - by rewrite not_elem_of_list_to_map_1, !lookup_insert_eq.
  - by rewrite !lookup_insert_ne.
Qed.

Lemma foldM_nested {X A B} (g : A → X → B → outcome X) (ls : list (A * list B)) x :
  foldM (fun x kv => foldM (g kv.1) kv.2 x) ls x =
  foldM (fun x p => g p.1 x p.2) (concat ((fun kv : A * list B => pair kv.1 <$> kv.2) <$> ls)) x.
Proof.
  revert x. induction ls as [|[a l] ls IH]; intros x; [done|]. cbn [foldM fmap list_fmap concat fst snd].
  rewrite foldM_app. assert (∀ x, foldM (g a) l x = foldM (fun x p => g p.1 x p.2) (pair a <$> l) x) as E1.
  { clear. induction l as [|b l IH]; intros x; [done|]. cbn. destruct (g a x b); cbn; [apply IH|done..]. }
  rewrite <- E1. destruct (foldM (g a) l x); cbn; [apply IH|done..].
Qed.

(** All pairs of a shard and one of its identifiers. *)
Definition asked_pairs (m : gmap nat (list Z)) : list (nat * Z) :=
  concat ((fun kv : nat * list Z => pair kv.1 <$> kv.2) <$> um_list m).

Lemma elem_of_asked_pairs m a i : (a, i) ∈ asked_pairs m ↔ i ∈ default [] (m !! a).
Proof.
  unfold asked_pairs. rewrite list_elem_of_In, in_concat. setoid_rewrite <- list_elem_of_In. split.
  - intros (l & Hl & Hi). apply list_elem_of_fmap in Hl as ([b is_] & -> & Hb). cbn in Hi.
    apply list_elem_of_fmap in Hi as (j & [= -> ->] & Hj). rewrite um_perm, elem_of_map_to_list in Hb. by rewrite Hb.
  - intros Hi. destruct (m !! a) as [is_|] eqn:Ea; [|by apply elem_of_nil in Hi].
    exists (pair a <$> is_). split; [|by apply list_elem_of_fmap_2].
    apply list_elem_of_fmap. exists (a, is_). split; [done|]. by rewrite um_perm, elem_of_map_to_list.
Qed.

Lemma asked_pairs_nodup s l m : by_shard s l m → NoDup (asked_pairs m).*2.
Proof.
  intros [_ B2 B3]. unfold asked_pairs.
  assert (Hp : um_list m ≡ₚ map_to_list m) by apply um_perm.
  assert (Hnd : NoDup (um_list m).*1) by (rewrite Hp; apply NoDup_fst_map_to_list).
  assert (Hin : ∀ kv, kv ∈ um_list m → m !! kv.1 = Some kv.2).
  { intros [a is_] Hk. by rewrite Hp, elem_of_map_to_list in Hk. }
  clear Hp. revert Hnd Hin. generalize (um_list m). intros ls. induction ls as [|[a is_] ls IH]; intros Hnd Hin; [constructor|].
  rewrite fmap_cons in Hnd. apply NoDup_cons in Hnd as [Ha Hnd]. cbn [fmap list_fmap concat fst snd].
  assert (Em : m !! a = Some is_) by (apply (Hin (a, is_)); left).
  rewrite fmap_app. apply NoDup_app. split_and!.
  - rewrite <- list_fmap_compose. unfold compose. cbn. rewrite list_fmap_id. apply sorted_NoDup. specialize (B3 a). by rewrite Em in B3.
  - intros i Hi Hc. rewrite <- list_fmap_compose in Hi. unfold compose in Hi. cbn in Hi. rewrite list_fmap_id in Hi.
    apply list_elem_of_fmap in Hc as ([b j] & -> & Hc). cbn in *.
    apply list_elem_of_In, in_concat in Hc as (l' & Hl%list_elem_of_In & Hc%list_elem_of_In).
    apply list_elem_of_fmap in Hl as ([b' js] & -> & Hb). apply list_elem_of_fmap in Hc as (j' & [= -> ->] & Hj). cbn in Hj.
    pose proof (Hin (b', js) ltac:(by right)) as Eb. cbn in Eb.
    assert (route s j' = Some a) as Ra by (apply (B2 a j'); by rewrite Em).
    assert (route s j' = Some b') as Rb by (apply (B2 b' j'); by rewrite Eb).
    rewrite Ra in Rb. injection Rb as ->. destruct Ha. by apply (list_elem_of_fmap_2 fst _ (b', js)).
  - apply IH; [done|]. intros kv Hk. apply Hin. by right.
Qed.

(** One question to one shard; [P] is what the answer for an identifier has to be. *)
Section Ask.
Context {V : Type}.
Variable log : list Meas.
Variable l : list Z.
Variable f : Z → E → outcome (gmap Z V * E).
Variable P : Z → option V → Prop.
Hypothesis fits : el_fits log.
Hypothesis answers : ∀ i la e, i ∈ l → el_holds la e → el_fits la → series i la = series i log →
  ∃ r e', f i e = Ok (r, e') ∧ (P i (r !! i) ∧ ∀ j, j ≠ i → r !! j = None) ∧ el_holds la e'.

Definition ask_pair (x : gmap Z V * ShardEngine.t E K) (p : nat * Z) : outcome (gmap Z V * ShardEngine.t E K) :=
  '(subresult, s) ← ShardEngine.on_engine p.1 (f p.2) x.2; Ok (ShardEngine.put_all subresult x.1, s).

Lemma ask_pairs_ok st ps done_ (R : gmap Z V) s : shards st log s → NoDup (done_ ++ ps.*2) →
  (∀ a i, (a, i) ∈ ps → i ∈ l ∧ route s i = Some a) →
  (∀ i, if decide (i ∈ done_) then P i (R !! i) else R !! i = None) →
  ∃ R' s', foldM ask_pair ps (R, s) = Ok (R', s') ∧ shards st log s' ∧ grows s s' ∧
    ∀ i, if decide (i ∈ done_ ++ ps.*2) then P i (R' !! i) else R' !! i = None.
Proof.
  revert done_ R s. induction ps as [|[a i] ps IH]; intros done_ R s Hs Hnd Hps HR.
  { exists R, s. split; [done|]. split; [done|]. split; [apply grows_refl|]. by rewrite app_nil_r. }
  destruct Hs as (Hw & Hc & logs & Hl). destruct (Hps a i ltac:(left)) as [Hi Ha].
  destruct (split_at s log logs i a Hl Ha) as (la & Hla & Ela).
  pose proof (el_part _ _ fits (split_part _ _ _ _ _ Hl Hla)) as Hfit.
  destruct (on_engine_ok (fun r : gmap Z V => P i (r !! i) ∧ ∀ j, j ≠ i → r !! j = None) (f i) s log logs a la Hl Hla)
    as (r & h & E1 & [HP Hno] & Hl').
  { intros e He. by apply answers. }
  cbn [foldM]. unfold ask_pair at 2. cbn [fst snd]. rewrite E1, !bind_Ok.
  rewrite fmap_cons in Hnd |- *. rewrite cons_middle, app_assoc in Hnd |- *.
  assert (Hni : i ∉ done_).
  { rewrite <- app_assoc in Hnd. apply NoDup_app in Hnd as (_ & Hd & _). intros Hin. apply (Hd i Hin). left. }
  destruct (IH (done_ ++ [i]) (ShardEngine.put_all r R) (ShardEngine.set_heap h s)) as (R' & s' & E' & Hs' & Hg' & HR').
  - split; [by apply wired_heap|]. split; [done|by exists logs].
  - done.
  - intros b j Hj. apply Hps. by right.
  - intros j. rewrite put_all_lookup. specialize (HR j). destruct (decide (j = i)) as [->|Hne].
    + rewrite decide_True by (apply elem_of_app; right; left). rewrite decide_False in HR by done. rewrite HR.
      by destruct (r !! i).
    + rewrite (Hno j Hne). destruct (decide (j ∈ done_)) as [Hd|Hd].
      * by rewrite decide_True by (apply elem_of_app; by left).
      * rewrite decide_False; [done|]. rewrite elem_of_app, list_elem_of_singleton. naive_solver.
  - exists R', s'. split; [done|]. split; [done|]. split; [|done]. eapply grows_trans; [|exact Hg']. by split.
Qed.

Lemma ask_ok st s : shards st log s → can_make st →
  ∃ R s', ShardEngine.ask_shards empty_dir l f s = Ok (R, s') ∧ shards st log s' ∧ grows s s' ∧
    ∀ i, if decide (i ∈ l) then P i (R !! i) else R !! i = None.
Proof.
  intros Hs Hm. unfold ShardEngine.ask_shards.
  destruct (iset_ok st log l s Hs Hm) as (m & s1 & -> & Hs1 & Hg1 & Hb). rewrite bind_Ok.
  rewrite (foldM_nested (fun a (x : gmap Z V * ShardEngine.t E K) i =>
    '(subresult, s) ← ShardEngine.on_engine a (f i) x.2; Ok (ShardEngine.put_all subresult x.1, s))).
  destruct (ask_pairs_ok st (asked_pairs m) [] ∅ s1) as (R & s' & E' & Hs' & Hg' & HR); try done.
  - by eapply asked_pairs_nodup.
  - intros a i Hi%elem_of_asked_pairs. by apply (bs_elem _ _ _ Hb).
  - exists R, s'. split; [done|]. split; [done|]. split; [by eapply grows_trans|]. intros i. specialize (HR i).
    assert (Hiff : i ∈ [] ++ (asked_pairs m).*2 ↔ i ∈ l).
    { cbn [app]. rewrite list_elem_of_fmap. split.
      - intros ([a j] & -> & Hj). apply elem_of_asked_pairs in Hj. by apply (bs_elem _ _ _ Hb) in Hj as [? _].
      - intros Hi. destruct (bs_routed _ _ _ Hb i Hi) as [a Ha]. exists (a, i). split; [done|].
        apply elem_of_asked_pairs. by apply (bs_elem _ _ _ Hb). }
    destruct (decide (i ∈ l)) as [Hi|Hi].
    + by rewrite decide_True in HR by by apply Hiff.
    + rewrite decide_False in HR; [done|]. by rewrite Hiff.
Qed.
End Ask.

(** ** The calls *)

(** Calls of the engine; with [DropRound] the threads of the shard at the address take
    their turn. *)
Definition shard_op (turn : E → outcome E) (o : nat * op K) s : outcome (answer * ShardEngine.t E K) :=
  match o.2 with
  | Append m => '(x, s) ← ShardEngine.append empty_dir m s; Ok (Wrote x, s)
  | Subscribe ids fl clbk => Ok (Done, ShardEngine.subscribe ids fl clbk s)
  | DropRound =>
    match ShardEngine.heap s !! o.1 with
    | None => Ok (Done, s)
    | Some _ => s ← ShardEngine.change_engine o.1 turn s; Ok (Done, s)
    end
  | Read q => '(l, s) ← ShardEngine.readInterval empty_dir q s; Ok (Values l, s)
  | Current ids fl => '(m, s) ← ShardEngine.currentValue empty_dir ids fl s; Ok (Latest m, s)
  end.

(** The engine has what [x] has. *)
Record serves (st : Settings.t) (x : spec K) s : Prop := {
  sv_shards : shards st (sp_log x) s;
  sv_subs : subscribed (sp_subs x) (ShardEngine._subscribe_notify s) (ShardEngine._clbks s);
}.

Lemma serves_grows st x s s' : serves st x s → shards st (sp_log x) s' → grows s s' → serves st x s'.
Proof. intros [_ Hsub] Hs [_ G2 G3]. split; [done|]. by rewrite G2, G3. Qed.

Lemma split_append s log logs a la m e h : split_log s log logs → route s (id m) = Some a → logs !! a = Some la →
  ShardEngine.heap s !! a = Some h → el_holds (la ++ [m]) e →
  split_log (ShardEngine.set_heap (<[a := e]> (ShardEngine.heap s)) s) (log ++ [m]) (<[a := la ++ [m]]> logs).
Proof.
  intros [Hh Hsub Hser Hrt] Ha Hla He Hle. rewrite Forall_lookup in Hsub.
  assert (Hsn : ∀ i l, id m ≠ i → series i (l ++ [m]) = series i l).
  { intros i l Hi. by rewrite series_snoc, decide_False, app_nil_r. }
  assert (Hlt : (a < length logs)%nat) by by eapply lookup_lt_Some. split.
  - by apply Forall2_insert.
  - apply Forall_lookup. intros b l Hl. apply list_lookup_insert_Some in Hl as [(<- & <- & _)|[_ Hl]].
    + by apply sublist_app; [eapply Hsub|].
    + apply sublist_inserts_r. by eapply Hsub.
  - intros i b l Hl. change (route _ i) with (route s i).
    destruct (decide (id m = i)) as [<-|Hi].
    + rewrite Ha. apply list_lookup_insert_Some in Hl as [(<- & <- & _)|[Hb Hl]].
      * rewrite decide_True, !series_snoc by done. by rewrite (Hser (id m) a la Hla), decide_True.
      * rewrite decide_False by congruence. by rewrite (Hser _ b l Hl), Ha, decide_False by congruence.
    + rewrite Hsn by done. apply list_lookup_insert_Some in Hl as [(<- & <- & _)|[Hb Hl]]; [|by apply Hser].
      rewrite Hsn by done. by apply Hser.
  - intros i. change (route _ i) with (route s i). specialize (Hrt i). rewrite length_insert.
    destruct (route s i) eqn:Ei; [done|]. rewrite Hsn; [done|]. congruence.
Qed.

Lemma shard_append_ok st x s n m : serves st x s → can_make st → el_fits (sp_log x ++ [m]) → meas_wf m →
  ∃ s', shard_op el_turn (n, Append m) s = Ok (Wrote (Status_writed 1), s') ∧ serves st (spec_op (Append m) x).2 s'.
Proof.
  intros [Hs Hsub] Hm Hfit Hwf. destruct (get_shard_ok st _ s (id m) Hs Hm) as (a & s1 & E1 & Hs1 & Hr & Hg).
  destruct Hs1 as (Hw & Hc & logs & Hl). destruct (split_at s1 _ logs _ a Hl Hr) as (la & Hla & Ela).
  pose proof (split_part _ _ _ _ _ Hl Hla) as [Hpsub Hpser].
  destruct (Forall2_lookup_l _ _ _ _ _ (sl_holds _ _ _ Hl) Hla) as (e & He & Hle).
  destruct (el_append la m e Hle) as (e' & Ee & Hle'); [|done|].
  { eapply el_part; [exact Hfit|]. split; [by apply sublist_app|]. intros i. rewrite !series_snoc.
    destruct (Hpser i) as [->| Hno]; [by left|]. destruct (decide (id m = i)) as [<-|Hi]; [|right; by rewrite Hno].
    left. by rewrite Ela. }
  destruct (subscribed_append x m _ _ Hsub) as (ks & Ek & Hsub').
  unfold shard_op, ShardEngine.append. cbn [snd]. rewrite E1, bind_Ok. unfold ShardEngine.on_engine. rewrite He, Ee, !bind_Ok.
  cbn [writed Status_writed]. rewrite bool_decide_true by done.
  cbn [ShardEngine._subscribe_notify ShardEngine._clbks ShardEngine.set_heap].
  rewrite (gr_subs _ _ Hg), (gr_clbks _ _ Hg), Ek, !bind_Ok. eexists. split; [done|]. split; [|done].
  split; [by destruct Hw|]. split; [done|]. exists (<[a := la ++ [m]]> logs).
  eapply split_same; [by eapply split_append|done..].
Qed.

Lemma shard_subscribe_ok st x s n ids fl clbk : serves st x s →
  ∃ s', shard_op el_turn (n, Subscribe ids fl clbk) s = Ok (Done, s') ∧ serves st (spec_op (Subscribe ids fl clbk) x).2 s'.
Proof.
  intros [(Hw & Hc & logs & Hl) Hsub]. eexists. split; [done|]. split; [|by apply subscribed_add].
  split; [by destruct Hw|]. split; [done|]. exists logs. by eapply split_same.
Qed.

Lemma shard_turn_ok st x s n : serves st x s → el_fits (sp_log x) →
  ∃ s', shard_op el_turn (n, DropRound) s = Ok (Done, s') ∧ serves st x s'.
Proof.
  intros [(Hw & Hc & logs & Hl) Hsub] Hfit. unfold shard_op. cbn [fst snd].
  destruct (ShardEngine.heap s !! n) as [e|] eqn:En; [|exists s; split; [done|]; split; [|done]; split; [done|]; split; [done|by exists logs]].
  destruct (Forall2_lookup_r _ _ _ _ _ (sl_holds _ _ _ Hl) En) as (la & Hla & _).
  unfold ShardEngine.change_engine.
  destruct (on_engine_ok (fun _ => True) (fun e => e ← el_turn e; Ok ((), e)) s _ logs n la Hl Hla) as (u & h & -> & _ & Hl').
  { intros e0 He0. destruct (el_turns la e0 He0) as (e' & -> & He').
    - eapply el_part; [done|by eapply split_part].
    - exists (), e'. by rewrite bind_Ok. }
  rewrite !bind_Ok. eexists. split; [done|]. split; [|done]. split; [by apply wired_heap|]. split; [done|by exists logs].
Qed.

Lemma shard_read_ok st x s n q : serves st x s → can_make st → el_fits (sp_log x) → NoDup (qi_ids q) →
  flags_exact q (sp_log x) →
  ∃ s', shard_op el_turn (n, Read q) s = Ok ((spec_op (Read q) x).1, s') ∧ serves st x s'.
Proof.
  intros Hsv Hm Hfit Hnd Hfl. pose proof Hsv as [Hs _]. unfold shard_op, ShardEngine.readInterval, ShardEngine.intervalReader. cbn [snd].
  destruct (ask_ok (sp_log x) (qi_ids q) (fun i => ie_intervalReader (IEngine.local_query q i))
    (fun i c => match c with
      | None => base.filter (in_query q) (series i (sp_log x)) = []
      | Some c => ∃ l, rep c l ∧ base.filter (in_query q) l = base.filter (in_query q) (series i (sp_log x))
      end) Hfit) with (st := st) (s := s) as (r & s' & -> & Hs' & Hg & Hr); [|done..|].
  { intros i la e Hi He Hfa Es.
    assert (Hse : ∀ m, m ∈ series i la → id m = i) by (intros m; apply series_id).
    destruct (el_read la (IEngine.local_query q i) i e He Hfa eq_refl) as (r & e' & E1 & He' & Hr).
    { rewrite Es. by apply local_flags. }
    exists r, e'. split; [done|]. split; [|done]. split.
    - specialize (Hr i). destruct (r !! i) as [c|].
      + destruct Hr as (_ & l & Hl & Hsub & Ef). exists l. split; [done|].
        rewrite !local_filter, Es in Ef; try done. intros m Hmem. apply Hse. by eapply elem_of_submseteq, sublist_submseteq.
      + rewrite local_filter, Es in Hr by done. by apply Hr.
    - intros j Hj. specialize (Hr j). destruct (r !! j); [|done]. by destruct Hr. }
  rewrite !bind_Ok.
  destruct (read_one_fold q r [] (fun i => base.filter (in_query q) (series i (sp_log x))) (qi_ids q) Hnd) as [r' ->].
  { intros i Hi. specialize (Hr i). by rewrite decide_True in Hr. }
  rewrite !bind_Ok. exists s'. split; [done|]. by eapply serves_grows.
Qed.

Lemma latest_series log i : latest log !! i = latest (series i log) !! i.
Proof.
  induction log as [|m log IH] using rev_ind; [done|]. rewrite latest_snoc, series_snoc.
  destruct (decide (id m = i)) as [<-|Hne].
  - rewrite latest_snoc, !lookup_insert_eq. by rewrite IH.
  - by rewrite app_nil_r, lookup_insert_ne.
Qed.

Lemma asked_one ids fl i (m : gmap Z Meas) : i ∈ ids →
  base.filter (asked [i] fl) m !! i = base.filter (asked ids fl) m !! i.
Proof.
  intros Hi. rewrite !map_lookup_filter. destruct (m !! i) as [v|]; [|done]. cbn. unfold asked. cbn.
  assert (i ∈ [i]) by left. repeat case_guard; try done; naive_solver.
Qed.

Lemma shard_current_ok st x s n ids fl : serves st x s → can_make st → el_fits (sp_log x) → ids ≠ [] →
  ∃ s', shard_op el_turn (n, Current ids fl) s = Ok ((spec_op (Current ids fl) x).1, s') ∧ serves st x s'.
Proof.
  intros Hsv Hm Hfit Hne. pose proof Hsv as [Hs _]. unfold shard_op, ShardEngine.currentValue. cbn [snd].
  destruct (ask_ok (sp_log x) ids (fun i => ie_currentValue [i] fl)
    (fun i v => v = base.filter (asked ids fl) (latest (sp_log x)) !! i) Hfit) with (st := st) (s := s)
    as (R & s' & -> & Hs' & Hg & HR); [|done..|].
  { intros i la e Hi He Hfa Es. destruct (el_current la i fl e He Hfa) as (e' & E1 & He').
    eexists _, e'. split; [done|]. split; [|done]. split.
    - rewrite <- (asked_one ids fl i _ Hi), !map_lookup_filter. by rewrite latest_series, Es, <- latest_series.
    - intros j Hj. apply map_lookup_filter_None. right. intros v _ [[Ha|Ha%list_elem_of_singleton] _]; done. }
  rewrite bind_Ok. exists s'. split; [|by eapply serves_grows]. cbn [spec_op fst]. do 3 f_equal. apply map_eq. intros i.
  specialize (HR i). case_decide as Hi; [done|]. rewrite HR. symmetry. apply map_lookup_filter_None.
  right. by intros v _ [[Ha|Ha] _].
Qed.

(** ** Starting *)

(** A shard that can be added: it is not for an interval, and an engine can start on its
    directory. *)
Record addable (st : Settings.t) (d : ShardEngine.Shard) : Prop := {
  aa_alias : Scheme.is_interval (ShardEngine.alias d) = false;
  aa_path : ∀ x, used x → ShardEngine.path d ≠ interval_dir st x;
  aa_opens : ∃ st' f, Settings.create (ShardEngine.path d) (e_fs empty_dir) = Ok (st', f) ∧
    el_opens st' (set_fs f empty_dir);
}.

(** Shards were added, and nothing was written. *)
Record set_up (st : Settings.t) (scheme : option Scheme.t) (added : list ShardEngine.Shard) s : Prop := {
  su_wired : wired st s;
  su_scheme : ShardEngine._scheme s = scheme;
  su_intervals : ShardEngine._interval2shard s = ∅;
  su_heap : Forall (el_holds []) (ShardEngine.heap s);
  su_ids : ∀ i p, ShardEngine._id2shard s !! i = Some p → ∃ a, p = Some a ∧ (a < length (ShardEngine.heap s))%nat;
  su_default : ∀ a, ShardEngine._default_shard s = Some a → (a < length (ShardEngine.heap s))%nat;
  su_default_made : (∃ d, d ∈ added ∧ ShardEngine.ids d = []) → is_Some (ShardEngine._default_shard s);
  su_shards : ∀ x, is_Some (ShardEngine._shards s !! x) → x ∈ ShardEngine.alias <$> added;
  su_paths : (ShardEngine._sub_storages s).*1 = ShardEngine.path <$> added;
  su_subs : subscribed [] (ShardEngine._subscribe_notify s) (ShardEngine._clbks s);
}.

Lemma fold_ids (p : option nat) (l : list Z) (m : gmap Z (option nat)) i q :
  fold_left (fun (m : gmap Z (option nat)) i => match m !! i with None => <[i := p]> m | Some _ => m end) l m !! i = Some q →
  m !! i = Some q ∨ q = p.
Proof.
  revert m. induction l as [|j l IH]; intros m; [by left|]. cbn [fold_left]. intros Hi. apply IH in Hi as [Hi|Hi]; [|by right].
  destruct (m !! j) eqn:Ej; [by left|]. destruct (decide (i = j)) as [->|Hne].
  - rewrite lookup_insert_eq in Hi. right. congruence.
  - rewrite lookup_insert_ne in Hi by done. by left.
Qed.

Lemma set_up_shards st scheme added s : set_up st scheme added s → covers (ShardEngine._default_shard s) scheme →
  serves st (mkSpec [] []) s.
Proof.
  intros [S1 S2 S3 S4 S5 S6 S7 S8 S9 S10] Hc. split; [|done]. split; [done|]. split; [by rewrite S2|].
  exists (replicate (length (ShardEngine.heap s)) []). split.
  - apply Forall2_same_length_lookup_2; [by rewrite length_replicate|]. intros a l e Hl He.
    apply lookup_replicate in Hl as [-> _]. rewrite Forall_lookup in S4. by eapply S4.
  - apply Forall_replicate. apply sublist_nil_l.
  - intros i a l [-> _]%lookup_replicate. by case_decide.
  - intros i. rewrite length_replicate. destruct (route s i) as [a|] eqn:Ea; [|done]. unfold route in Ea.
    destruct (ShardEngine._id2shard s !! i) as [p|] eqn:Ei.
    + destruct (S5 i p Ei) as (b & -> & Hb). by injection Ea as ->.
    + destruct (ShardEngine._scheme s) as [sc|]; [|by apply S6]. destruct (of_interval i sc); [|by apply S6].
      by rewrite S3, lookup_empty in Ea.
Qed.

(** The state with one more engine; [m] and [p] are the shards of identifiers and the
    one for all others. *)
Lemma opened_set_up st scheme added d s e (m : gmap Z (option nat)) p :
  set_up st scheme added s → addable st d → el_holds [] e →
  let a := length (ShardEngine.heap s) in
  (∀ i q, m !! i = Some q → ShardEngine._id2shard s !! i = Some q ∨ q = Some a) →
  (p = Some a ∨ p = ShardEngine._default_shard s ∧ ShardEngine.ids d ≠ []) →
  set_up st scheme (added ++ [d])
    (ShardEngine.mk (ShardEngine._stoped s) (ShardEngine._force_unlock s) m
       (<[ShardEngine.alias d := d]> (ShardEngine._shards s)) (ShardEngine._interval2shard s)
       (ShardEngine._sub_storages s ++ [(ShardEngine.path d, a)]) p (ShardEngine._settings s) (ShardEngine._scheme s)
       (ShardEngine._subscribe_notify s) (ShardEngine._clbks s) (ShardEngine.heap s ++ [e]) (ShardEngine._fs s)
       (ShardEngine._dirs s)).
Proof.
  intros [S1 S2 S3 S4 S5 S6 S7 S8 S9 S10] [A1 A2 _] He a Hm Hp.
  assert (Hlen : length (ShardEngine.heap s ++ [e]) = S a) by (rewrite length_app; cbn; unfold a; lia).
  assert (Hm' : ∀ i q, m !! i = Some q → ∃ b, q = Some b ∧ (b < S a)%nat).
  { intros i q Hq. destruct (Hm i q Hq) as [Hq'| ->]; [|exists a; split; [done|lia]].
    destruct (S5 i q Hq') as (b & -> & Hb). exists b. split; [done|]. unfold a. lia. }
  split; try done; cbn.
  - destruct S1 as [W1 W3 W4 W5 W6 W7 W8]. split; try done; cbn; [|by rewrite S3|].
    + intros i q Hq. destruct (Hm' i q Hq) as (b & -> & _). by eexists.
    + intros x Hx Hn. rewrite fmap_app, elem_of_app. cbn. rewrite list_elem_of_singleton.
      intros [Hin|Hin]; [by apply (W7 x)|by apply (A2 x Hx)].
  - apply Forall_app. split; [done|]. by constructor.
  - by rewrite Hlen.
  - rewrite Hlen. intros b ->. destruct Hp as [[= ->]|[Hp _]]; [lia|]. symmetry in Hp. apply S6 in Hp. unfold a. lia.
  - intros (d' & [Hd|Hd%list_elem_of_singleton]%elem_of_app & Hi).
    + destruct Hp as [->|[-> _]]; [by eexists|]. apply S7. by exists d'.
    + subst d'. destruct Hp as [->|[_ Hne]]; [by eexists|done].
  - intros x [sh Hx]. rewrite fmap_app, elem_of_app. destruct (decide (x = ShardEngine.alias d)) as [->|Hne]; [right; left|].
    rewrite lookup_insert_ne in Hx by done. left. apply S8. by eexists.
  - by rewrite !fmap_app, S9.
Qed.

Lemma add_set_up st scheme added d s : set_up st scheme added s → addable st d →
  ShardEngine.alias d ∉ ShardEngine.alias <$> added → ShardEngine.path d ∉ ShardEngine.path <$> added →
  ∃ s', ShardEngine.shardAdd empty_dir d s = Ok s' ∧ set_up st scheme (added ++ [d]) s'.
Proof.
  intros Hsu Haa Ha Hp. pose proof Haa as [A1 A2 (st' & f & Ec & Ho)].
  destruct (el_new st' (ShardEngine._force_unlock s) _ Ho) as (e & Ee & He & _).
  assert (En : ShardEngine._shards s !! ShardEngine.alias d = None).
  { apply eq_None_not_Some. intros Hx. by apply Ha, (su_shards _ _ _ _ Hsu). }
  unfold ShardEngine.shardAdd, ShardEngine.shardAdd_inner. rewrite En, A1.
  assert (String.eqb (ShardEngine.alias d) "raw" = false) as ->.
  { destruct (String.eqb_spec (ShardEngine.alias d) "raw") as [Er|]; [|done]. by rewrite Er in A1. }
  cbn [andb]. unfold ShardEngine.open_shard_path.
  change (ShardEngine.dir_env empty_dir (ShardEngine.path d) (ShardEngine.set_shards _ s))
    with (ShardEngine.dir_env empty_dir (ShardEngine.path d) s).
  rewrite (dir_env_new st s) by (apply Hsu || by rewrite (su_paths _ _ _ _ Hsu)).
  rewrite Ec, bind_Ok. unfold ShardEngine.new_engine.
  cbn [ShardEngine._force_unlock ShardEngine.set_shards]. rewrite Ee, !bind_Ok.
  set (sh := match ShardEngine.ids d with [] => _ | _ => _ end).
  assert (Hsh : ∃ s2, sh = Ok s2 ∧ set_up st scheme (added ++ [d]) s2).
  { unfold sh. destruct (ShardEngine.ids d) as [|i0 l0] eqn:Eids; (eexists; split; [done|]).
    - apply (opened_set_up st scheme added d s e (ShardEngine._id2shard s)); [done..|by left|by left].
    - apply (opened_set_up st scheme added d s e); [done..| |by right; rewrite Eids].
      intros i q Hq. by apply fold_ids in Hq. }
  destruct Hsh as (s2 & -> & Hs2). rewrite bind_Ok.
  destruct (save_ok s2 (sh_file _ _ (su_wired _ _ _ _ Hs2))) as (f2 & -> & Hf2). eexists. split; [done|].
  destruct Hs2 as [[W1 W3 W4 W5 W6 W7 W8] T2 T3 T4 T5 T6 T7 T8 T9 T10]. split; try done. split; try done.
  cbn. rewrite Hf2. apply W8.
Qed.

(** The shards, one after the other. *)
Definition add_shards (ds : list ShardEngine.Shard) s : outcome (ShardEngine.t E K) :=
  foldM (fun s d => ShardEngine.shardAdd empty_dir d s) ds s.

Lemma add_shards_ok st scheme ds added s : set_up st scheme added s → Forall (addable st) ds →
  NoDup (ShardEngine.alias <$> added ++ ds) → NoDup (ShardEngine.path <$> added ++ ds) →
  ∃ s', add_shards ds s = Ok s' ∧ set_up st scheme (added ++ ds) s'.
Proof.
  revert added s. induction ds as [|d ds IH]; intros added s Hs Hf Hna Hnp.
  { exists s. by rewrite app_nil_r. }
  apply Forall_cons in Hf as [Hd Hf]. rewrite cons_middle, app_assoc in Hna, Hnp |- *.
  assert (Hnew : ∀ X (g : ShardEngine.Shard → X), NoDup (g <$> (added ++ [d]) ++ ds) → g d ∉ g <$> added).
  { intros X g Hn. rewrite !fmap_app in Hn. apply NoDup_app in Hn as (Hn & _ & _). apply NoDup_app in Hn as (_ & Hn & _).
    intros Hin. apply (Hn _ Hin). left. }
  destruct (add_set_up st scheme added d s Hs Hd) as (s1 & E1 & Hs1); [by apply Hnew..|].
  unfold add_shards. cbn [foldM]. rewrite E1, bind_Ok. by apply IH.
Qed.

(** A directory without a file of shards. *)
Lemma make_set_up storage force f st f1 scheme : Settings.create storage f = Ok (st, f1) →
  let file := append_path (Settings.storage_path st) ShardEngine.SHARD_FILE_NAME in
  path_exists file f1 = false → fs_writable f1 file = true →
  ∃ s, ShardEngine.make empty_dir storage force f ∅ = Ok s ∧ set_up st scheme [] (ShardEngine.setScheme scheme s).
Proof.
  intros Ec file Hno Hwr. unfold ShardEngine.make. rewrite Ec, bind_Ok. set (s0 := ShardEngine.mk _ _ _ _ _ _ _ _ _ _ _ _ _ _).
  change (ShardEngine.shardFileName s0) with file. unfold file_exists. rewrite Hno.
  assert (ShardEngine.saveShardFile s0 = Ok (ShardEngine.set_files
    (mkFs (<[file := ShardEngine.shards_dump []]> (fs_files f1)) (fs_dirs f1) (fs_writable f1)) s0)) as ->.
  { unfold ShardEngine.saveShardFile. change (ShardEngine.shardFileName s0) with file. cbn. rewrite Hwr. do 4 f_equal.
    assert (um_list (∅ : gmap string ShardEngine.Shard) = []) as ->; [|done]. apply Permutation_nil. by rewrite um_perm, map_to_list_empty. }
  rewrite bind_Ok. unfold ShardEngine.loadShardFile. set (s1 := ShardEngine.set_subscribe _ _ _).
  change (ShardEngine.shardFileName s1) with file. unfold file_exists, path_exists, read_file. cbn. rewrite lookup_insert_eq.
  rewrite bool_decide_true by by eexists. cbn [orb]. rewrite bind_Ok.
  rewrite ShardEngine.shards_parse_dump by constructor. eexists. split; [done|].
  split; try done; cbn.
  - split; try done. intros x _ _. by apply not_elem_of_nil.
  - by intros (d & Hd%elem_of_nil & _).
  - by intros x [? Hx].
Qed.

(** ** Sequences of calls *)

Fixpoint shard_run (turn : E → outcome E) (ops : list (nat * op K)) s : outcome (list answer * ShardEngine.t E K) :=
  match ops with
  | [] => Ok ([], s)
  | o :: ops =>
    '(a, s) ← shard_op turn o s;
    '(rest, s) ← shard_run turn ops s;
    Ok (a :: rest, s)
  end.

(** As for one engine; the current values of no identifiers are not asked for. *)
Definition shard_fair (log : list Meas) (o : nat * op K) : Prop :=
  plays_fair log o.2 ∧ match o.2 with Current ids _ => ids ≠ [] | _ => True end.

Lemma shard_op_ok st x s o log : serves st x s → can_make st → el_fits log → shard_fair log o →
  sp_log (spec_op o.2 x).2 `prefix_of` log →
  ∃ s', shard_op el_turn o s = Ok ((spec_op o.2 x).1, s') ∧ serves st (spec_op o.2 x).2 s'.
Proof.
  intros Hs Hm Hfit Hf [l' El]. destruct o as [n o]. cbn [snd] in *.
  assert (Hfx : el_fits (sp_log x)).
  { subst log. apply el_prefix in Hfit. rewrite spec_op_log in Hfit. by apply el_prefix in Hfit. }
  destruct o as [m|ids fl clbk| |q|ids fl]; destruct Hf as [Hf Hne]; cbn [snd] in *.
  - apply shard_append_ok; try done. subst log. by apply el_prefix in Hfit.
  - by apply shard_subscribe_ok.
  - by apply shard_turn_ok.
  - destruct Hf as [Hnd Hfl]. apply shard_read_ok; try done. subst log. by apply Forall_app in Hfl as [? _].
  - by apply shard_current_ok.
Qed.

Lemma shard_run_ok st ops x s : serves st x s → can_make st →
  el_fits (sp_log x ++ appended ops.*2) → Forall (shard_fair (sp_log x ++ appended ops.*2)) ops →
  ∃ s', shard_run el_turn ops s = Ok ((spec_run ops.*2 x).1, s') ∧ serves st (spec_run ops.*2 x).2 s'.
Proof.
  revert x s. induction ops as [|o ops IH]; intros x s Hs Hm Hfit Hf; [by exists s|].
  apply Forall_cons in Hf as [Ho Hf]. rewrite fmap_cons, appended_cons, app_assoc in *.
  pose proof (spec_op_log o.2 x) as El.
  destruct (shard_op_ok st x s o _ Hs Hm Hfit Ho) as (s1 & E1 & Hs1); [rewrite El; by eexists|].
  cbn [shard_run spec_run]. rewrite E1, bind_Ok. destruct (spec_op o.2 x) as [a x1]. cbn [fst snd] in *.
  rewrite <- El in *. destruct (IH x1 s1 Hs1 Hm Hfit Hf) as (s' & E' & Hs').
  destruct (spec_run ops.*2 x1) as [rest x']. exists s'. by rewrite E', bind_Ok.
Qed.
End Shards.

(** ** Removing a shard *)

Section Remove.
Context {E K : Type} `{!IEngine E} `{Paths} `{FloatText} `{Json} `{!ShardEngine.ShardJson} `{UnorderedMap}.
Variable empty_dir : env.

Implicit Types s : ShardEngine.t E K.

Lemma delete_ids (l : list Z) (m : gmap Z (option nat)) i : i ∉ l →
  fold_left (fun (m : gmap Z (option nat)) i => delete i m) l m !! i = m !! i.
Proof.
  revert m. induction l as [|j l IH]; intros m Hi; [done|]. cbn [fold_left]. apply not_elem_of_cons in Hi as [Hj Hi].
  by rewrite IH, lookup_delete_ne.
Qed.

(** The engine of a shard that was removed still gets the calls for the identifiers the
    shard was not added with: those of an interval keep the pointer to it. *)
Theorem removed_shard_still_used name rm s s' d n a e i :
  ShardEngine._shards s !! name = Some d →
  list_find (fun ss => ss.1 = ShardEngine.path d) (ShardEngine._sub_storages s) = Some (n, (ShardEngine.path d, a)) →
  ShardEngine.heap s !! a = Some e →
  route s i = Some a → i ∉ ShardEngine.ids d → ShardEngine._default_shard s ≠ Some a →
  ShardEngine.shardRm empty_dir name rm s = Ok s' →
  route s' i = Some a ∧ (ShardEngine._sub_storages s') = delete n (ShardEngine._sub_storages s) ∧
  ∃ e', ie_stop e = Ok e' ∧ ShardEngine.heap s' !! a = Some e'.
Proof.
  intros Hd Hf He Hr Hi Hdef Erm. unfold ShardEngine.shardRm in Erm. rewrite Hd in Erm.
  unfold ShardEngine.close_shard in Erm. rewrite Hf in Erm.
  unfold ShardEngine.change_engine, ShardEngine.on_engine in Erm. rewrite He in Erm.
  destruct (ie_stop e) as [e'| | |]; [|done..]. rewrite !bind_Ok in Erm.
  cbn [ShardEngine._default_shard ShardEngine.set_dirs ShardEngine.set_sub_storages ShardEngine.set_heap] in Erm.
  rewrite bool_decide_false in Erm by done.
  unfold ShardEngine.saveShardFile in Erm. case_match; [|done]. injection Erm as <-.
  assert (Hh : (<[a := e']> (ShardEngine.heap s)) !! a = Some e').
  { apply list_lookup_insert_eq. by eapply lookup_lt_Some. }
  unfold route in *. destruct rm; cbn; rewrite delete_ids by done; (split; [done|]); (split; [done|]); by exists e'.
Qed.
End Remove.
