(* ===== verification/ShardRefine.v ===== *)
(** * Shards of compressed storages

    The engine of [engines/engine.cpp] with the strategy [COMPRESSED] is what the engine
    over shards needs of its shards, and the whole answers as one list of all that was
    appended. *)

From Stdlib Require Import ZArith Lia String.
From stdpp Require Import base numbers list gmap strings.
From S2P Require Import Prelude Float64 Meas Bloom Stat StdSort ICursor FullCursor Chunk KMerge Cursors Colapse TimeTrackSpec Series.
From S2P Require Import StripedMap Allocators TimeTrack Storages MemStorage TimeUtil Scheme Settings Files Options.
From S2P Require Import WalFile WalManager WalManagerSpec PageFormat PageIndex Page PageSpec PageWrite PageProps.
From S2P Require Import PageManager PageManagerSpec PageManagerOps PageManagerProps Dropper DropperSpec DropperQueue.
From S2P Require Import MemStorageSpec Engine EngineSpec Shard ShardSpec.

Local Open Scope Z_scope.
#[local] Opaque jenkins_one_at_a_time_hash.

Section Compressed.
Context {A K : Type} `{MemAllocator A} `{IReadCallback K}.
Context `{BtreeMultimap} `{Paths} `{FileNames} `{!DirectoryNames} `{StdSort} `{UnorderedMap} `{FloatText} `{Json}.
Variable allocator : Settings.t → outcome A.
Variable crc32 : list Z → Z.
Variable raw_header : ChunkHeader.t.
Variable fuel : nat.
Variable now now' works : Z.
Hypothesis names_differ : ∀ i j,
  random_file_name i WAL_FILE_EXT = random_file_name j WAL_FILE_EXT → i = j.
Hypothesis crc_range : ∀ bs, 0 <= crc32 bs < 2 ^ 32.
(** the sizes the shards have in common *)
Variable file_size chunk : Z.

#[local] Instance shard_engine : IEngine (Engine.t A K) :=
  Engine_IEngine allocator crc32 raw_header fuel now now' works.

Implicit Types s : Engine.t A K.

Record sized (st : Settings.t) : Prop := {
  sz_compressed : compressed_storage st;
  sz_file : Settings.wal_file_size st = file_size;
  sz_chunk : Settings.chunk_size st = chunk;
}.

Definition shard_holds (log : list Meas) s : Prop :=
  ∃ st n, sized st ∧ n <= Z.of_nat (length log) ∧ keeps st false n (mkSpec log []) s.

Definition shard_fits (log : list Meas) : Prop := ∀ st, sized st → admissible st log.

Definition shard_opens (st : Settings.t) (e : env) : Prop :=
  sized st ∧ new_directory st e ∧ fs_writable (e_fs e) (Settings.settings_file_path (Settings.storage_path st)) = true.

Definition shard_turn s : outcome (Engine.t A K) := Engine.drop_round crc32 (Engine._settings s) s.

Lemma admissible_part st part log : admissible st log → part_of part log → admissible st part.
Proof.
  intros [A1 A2 A3] [P1 P2]. apply sublist_length in P1. split; [lia| |].
  - intros i. destruct (P2 i) as [->| ->]; [done|]. repeat constructor.
  - intros i. destruct (P2 i) as [->| ->]; [done|]. intros a r b Er Hr. by destruct a, r.
Qed.

Lemma shard_new st force e : shard_opens st e →
  ∃ s, ie_new st force e = Ok s ∧ shard_holds [] s ∧
    ∃ f, Settings.save st (e_fs (ie_env s)) = Ok f ∧ shard_holds [] (ie_set_env (set_fs f (ie_env s)) s).
Proof.
  intros (Hz & Hn & Hw). pose proof Hz as [[S1 S2 S3 S4 S5] _ _].
  destruct (make_started (K := K) crc32 st names_differ crc_range S1 S2 S3 S4 S5 false (allocator st) force e Hn)
    as (e' & pm & E & Hb & Hwr & Hsame).
  assert (Hk : ∀ e2, bare st e2 → shard_holds [] (started st false e2 pm : Engine.t A K)).
  { intros e2 H2'. exists st, 0. split; [done|]. split; [done|]. by apply started_keeps. }
  exists (started st false e' pm). split; [exact E|]. split; [by apply Hk|].
  change (ie_env (started st false e' pm : Engine.t A K)) with e'. unfold Settings.save.
  destruct (String.eqb (Settings.storage_path st) MEMORY_ONLY_PATH).
  { exists (e_fs e'). split; [done|]. assert (set_fs (e_fs e') e' = e') as -> by by destruct e'. by apply Hk. }
  unfold Settings.save_to. rewrite <- Hwr in Hw. rewrite Hw. eexists. split; [done|].
  match goal with |- shard_holds [] (ie_set_env ?e2 _) => change (shard_holds [] (started st false e2 pm : Engine.t A K)) end.
  apply Hk. apply bare_write; [done|]. unfold Settings.settings_file_path, other_file. eexists _, _. split; [|reflexivity].
  set_solver.
Qed.

Lemma shard_append log m s : shard_holds log s → shard_fits (log ++ [m]) → meas_wf m →
  ∃ s', ie_append m s = Ok (Status_writed 1, s') ∧ shard_holds (log ++ [m]) s'.
Proof.
  intros (st & n & Hz & Hle & Hk) Hf Hwf. pose proof Hz as [[S1 S2 S3 S4 S5] _ _].
  destruct (Hf st Hz) as [Hc _ _]. rewrite length_app in Hc. cbn in Hc.
  destruct (append_keeps crc32 raw_header st names_differ crc_range S1 S2 S3 S4 false n _ s fuel m Hk ltac:(lia) Hwf)
    as (s' & E & Hk'). unfold engine_op in E.
  change (ie_append m s) with (Engine.append crc32 raw_header (Engine._settings s) fuel m s). rewrite (kp_settings _ _ _ _ _ Hk).
  destruct (Engine.append crc32 raw_header st fuel m s) as [[x s1]| | |]; [|done..]. rewrite bind_Ok in E. cbn in E.
  injection E as -> ->. exists s'. split; [done|]. exists st, (n + 1). split; [done|]. split; [|done].
  rewrite length_app. cbn. lia.
Qed.

Lemma shard_read log q i s : shard_holds log s → shard_fits log → qi_ids q = [i] → flags_exact q (series i log) →
  ∃ r s', ie_intervalReader q s = Ok (r, s') ∧ shard_holds log s' ∧
    ∀ j, match r !! j with
      | None => j = i → base.filter (in_query q) (series i log) = []
      | Some c => j = i ∧ ∃ l, rep c l ∧ l `sublist_of` series i log ∧
          base.filter (in_query q) l = base.filter (in_query q) (series i log)
      end.
Proof.
  intros (st & n & Hz & Hle & Hk) Hf Hq Hfl. pose proof Hz as [[S1 S2 S3 S4 S5] _ _].
  change (ie_intervalReader q s) with (Engine.intervalReader (Engine._settings s) q s). rewrite (kp_settings _ _ _ _ _ Hk).
  destruct (reader_keeps st S1 S2 false n _ s q i Hk Hq) as (r & s' & E & Hk' & Hr); [apply (Hf st Hz)|done|].
  exists r, s'. split; [done|]. split; [by exists st, n|done].
Qed.

Lemma shard_current log i fl s : shard_holds log s → shard_fits log →
  ∃ s', ie_currentValue [i] fl s = Ok (base.filter (asked [i] fl) (latest log), s') ∧ shard_holds log s'.
Proof.
  intros (st & n & Hz & Hle & Hk) _.
  destruct (current_keeps crc32 raw_header st false n _ s fuel [i] fl Hk) as (s' & E & Hk'). unfold engine_op in E.
  change (ie_currentValue [i] fl s) with (Engine.currentValue (Engine._settings s) [i] fl s). rewrite (kp_settings _ _ _ _ _ Hk).
  destruct (Engine.currentValue st [i] fl s) as [[x s1]| | |]; [|done..]. rewrite bind_Ok in E. cbn in E.
  injection E as -> ->. exists s'. split; [done|]. by exists st, n.
Qed.

Lemma shard_turns log s : shard_holds log s → shard_fits log → ∃ s', shard_turn s = Ok s' ∧ shard_holds log s'.
Proof.
  intros (st & n & Hz & Hle & Hk) Hf. pose proof Hz as [[S1 S2 S3 S4 S5] _ _]. destruct (Hf st Hz) as [_ A2 A3].
  destruct (drop_keeps crc32 raw_header st names_differ crc_range S1 S2 S3 S4 false n _ s fuel Hk) as (s' & E & Hk').
  { intros i. split; [apply A2|apply A3]. }
  unfold engine_op in E. unfold shard_turn. rewrite (kp_settings _ _ _ _ _ Hk).
  destruct (Engine.drop_round crc32 st s) as [s1| | |]; [|done..]. rewrite bind_Ok in E. injection E as ->.
  exists s'. split; [done|]. by exists st, n.
Qed.

Definition compressed_laws : EngineLaws (Engine.t A K) := {|
  el_holds := shard_holds;
  el_fits := shard_fits;
  el_opens := shard_opens;
  el_turn := shard_turn;
  el_prefix l1 l2 Hf st Hz := admissible_prefix st l1 l2 (Hf st Hz);
  el_part part log Hf Hp st Hz := admissible_part st part log (Hf st Hz) Hp;
  el_new := shard_new;
  el_append := shard_append;
  el_read := shard_read;
  el_current := shard_current;
  el_turns := shard_turns;
|}.
End Compressed.

(** ** New directories *)

Section New.
Context `{Paths} `{FileNames} `{FloatText} `{Json}.
Hypothesis append_moves : ∀ d f, plain_name f = true → append_path d f ≠ d.

(** A directory nothing was written to, and all can be. *)
Record blank (e : env) : Prop := {
  bl_db : Manifest.db_ok (e_manifest e) = true;
  bl_pages : Manifest.pages (e_manifest e) = [];
  bl_wal : Manifest.wal (e_manifest e) = [];
  bl_files : fs_files (e_fs e) = ∅;
  bl_dirs : fs_dirs (e_fs e) = ∅;
  bl_writable : ∀ p, fs_writable (e_fs e) p = true;
}.

(** The settings of a new shard. *)
Lemma create_blank e p f : blank e → p ≠ MEMORY_ONLY_PATH → (f = e_fs e ∨ f = mkdir p (e_fs e)) →
  ∃ f', Settings.create p f = Ok (Settings.defaults p, f') ∧ fs_writable f' = fs_writable (e_fs e) ∧
    fs_dirs f' ⊆ {[p; append_path p "raw"]} ∧ ∃ bs, fs_files f' = {[Settings.settings_file_path p := bs]}.
Proof.
  intros [B1 B2 B3 B4 B5 B6] Hp Hf.
  assert (Hf' : fs_files f = ∅ ∧ fs_writable f = fs_writable (e_fs e) ∧ fs_dirs f ⊆ {[p]}).
  { destruct Hf as [->| ->]; cbn; rewrite B5; (split; [done|]); (split; [done|]); set_solver. }
  destruct Hf' as (F1 & F2 & F3).
  unfold Settings.create. rewrite (proj2 (String.eqb_neq p MEMORY_ONLY_PATH) Hp).
  assert (path_exists (Settings.settings_file_path p) f = false) as ->.
  { unfold path_exists. rewrite F1, lookup_empty, bool_decide_false by by intros [? [=]]. cbn. apply bool_decide_eq_false.
    intros Hin. apply F3, elem_of_singleton in Hin. by apply (append_moves p SETTINGS_FILE_NAME). }
  unfold Settings.save. cbn [Settings.storage_path Settings.defaults].
  rewrite (proj2 (String.eqb_neq p MEMORY_ONLY_PATH) Hp). unfold Settings.save_to.
  cbn [fs_writable mkdir]. rewrite F2, B6, bind_Ok. eexists. split; [done|]. cbn. split; [done|]. split; [set_solver|].
  eexists. rewrite F1. by apply insert_empty.
Qed.

(** An engine can start on it, with another strategy or with the one it has. *)
Lemma blank_opens e p f st : blank e → p ≠ MEMORY_ONLY_PATH → (f = e_fs e ∨ f = mkdir p (e_fs e)) →
  (st = Settings.defaults p ∨ st = Settings.setStrategy COMPRESSED (Settings.defaults p)) →
  ∃ f', Settings.create p f = Ok (Settings.defaults p, f') ∧ shard_opens WAL_FILE_SIZE CHUNK_SIZE st (set_fs f' e).
Proof.
  intros Hb Hp Hf Hst. destruct (create_blank e p f Hb Hp Hf) as (f' & E & F1 & F2 & bs & F3). exists f'. split; [done|].
  destruct Hb as [B1 B2 B3 B4 B5 B6].
  assert (Hpath : Settings.storage_path st = p ∧ Settings.raw_path st = append_path p "raw") by by destruct Hst as [->| ->].
  destruct Hpath as [P1 P2].
  assert (Hset : ∀ g, g ≠ Settings.settings_file_path p → fs_files f' !! g = None).
  { intros g Hg. rewrite F3. by apply lookup_singleton_ne. }
  assert (Hother : other_file (Settings.settings_file_path p)).
  { exists p, SETTINGS_FILE_NAME. split; [set_solver|done]. }
  split; [|split; [|cbn; rewrite F1, B6; done]].
  { destruct Hst as [->| ->]; by repeat split. }
  split; try done; cbn; rewrite ?F1.
  - intros g Hg. unfold own_file, Engine.lockfile_path in Hg. rewrite P1 in Hg.
    assert (Hn : ∃ n, plain_name n = true ∧ g = append_path p n ∧ n ≠ "raw"%string ∧ n ≠ SETTINGS_FILE_NAME).
    { by destruct Hg as [->| ->]; eexists; (split; [|split; [reflexivity|]]). }
    destruct Hn as (n & N1 & -> & N2 & N3). rewrite P1, P2.
    assert (Hne : append_path p n ≠ append_path p "raw").
    { intros Ex%(f_equal extract_filename). rewrite !extract_append in Ex by done. done. }
    split; [|by split; [apply append_moves|]]. unfold path_exists. rewrite Hset.
    + rewrite bool_decide_false by by intros [? [=]]. cbn. apply bool_decide_eq_false. intros Hin%F2.
      apply elem_of_union in Hin as [Hin%elem_of_singleton|Hin%elem_of_singleton]; [by apply (append_moves p n)|done].
    + intros Ex%(f_equal extract_filename). unfold Settings.settings_file_path in Ex. rewrite !extract_append in Ex by done. done.
  - apply B6.
  - intros k. destruct (other_file_managers st _ k Hother) as (G1 & _ & _). split; [by apply Hset|apply B6].
  - intros k. destruct (other_file_managers st _ k Hother) as (_ & G2 & G3).
    split; cbn; rewrite ?F1; first [apply B6|by apply Hset].
Qed.
End New.

(** ** Properties *)

(** The intervals shards are made for: those of the scheme, and the one for all others. *)
Definition used (scheme : option Scheme.t) (x : string) : Prop :=
  x = "default"%string ∨
  ∃ sc i, scheme = Some sc ∧ of_interval i sc = true ∧ x = md_interval (Scheme.descriptionFor i sc).

(** Shards with directories of their own, for a scheme whose intervals are stored with
    the strategy [COMPRESSED]; without a scheme one of them is for all identifiers. *)
Record shard_plan `{Paths} (st : Settings.t) (scheme : option Scheme.t) (ds : list ShardEngine.Shard) : Prop := {
  pl_memonly : Settings.raw_is_memonly st = false;
  pl_intervals : ∀ x, used scheme x → plain_name x = true ∧
    append_path (ShardEngine.shards_dir st) x ≠ MEMORY_ONLY_PATH ∧
    strategy_for_interval (Settings.intervals st) x = COMPRESSED;
  pl_default : ∀ sc i, scheme = Some sc → of_interval i sc = true →
    md_interval (Scheme.descriptionFor i sc) ≠ "default"%string;
  pl_shards : Forall (fun d => Scheme.is_interval (ShardEngine.alias d) = false ∧
    ShardEngine.path d ≠ MEMORY_ONLY_PATH ∧
    ∀ x, used scheme x → ShardEngine.path d ≠ append_path (ShardEngine.shards_dir st) x) ds;
  pl_aliases : NoDup (ShardEngine.alias <$> ds);
  pl_paths : NoDup (ShardEngine.path <$> ds);
  pl_covers : scheme = None → ∃ d, d ∈ ds ∧ ShardEngine.ids d = [];
}.

Section Plan.
Context {A K : Type} `{MemAllocator A} `{IReadCallback K}.
Context `{BtreeMultimap} `{Paths} `{FileNames} `{!DirectoryNames} `{StdSort} `{UnorderedMap} `{FloatText} `{Json}.
Variable allocator : Settings.t → outcome A.
Variable crc32 : list Z → Z.
Variable raw_header : ChunkHeader.t.
Variable fuel : nat.
Variable now now' works : Z.
Hypothesis names_differ : ∀ i j,
  random_file_name i WAL_FILE_EXT = random_file_name j WAL_FILE_EXT → i = j.
Hypothesis crc_range : ∀ bs, 0 <= crc32 bs < 2 ^ 32.
Hypothesis append_moves : ∀ d f, plain_name f = true → append_path d f ≠ d.

#[local] Instance plan_engine : IEngine (Engine.t A K) := Engine_IEngine allocator crc32 raw_header fuel now now' works.
#[local] Instance plan_laws : EngineLaws (Engine.t A K) :=
  compressed_laws allocator crc32 raw_header fuel now now' works names_differ crc_range WAL_FILE_SIZE CHUNK_SIZE.

Lemma plan_can_make st scheme ds e : shard_plan st scheme ds → blank e →
  can_make (E := Engine.t A K) e (used scheme) st.
Proof.
  intros Hp Hb x Hx. destruct (pl_intervals _ _ _ Hp x Hx) as (X1 & X2 & X3). unfold ShardEngine.interval_storage.
  rewrite (pl_memonly _ _ _ Hp), andb_false_r. set (f := if path_exists _ _ then _ else _).
  destruct (blank_opens append_moves e _ f (Settings.setStrategy COMPRESSED (Settings.defaults
    (append_path (ShardEngine.shards_dir st) x))) Hb X2) as (f' & E & Ho).
  { unfold f. destruct (path_exists _ _); [by left|by right]. }
  { by right. }
  rewrite E, bind_Ok, X3. by eexists _, _.
Qed.

Lemma plan_addable st scheme ds e : shard_plan st scheme ds → blank e →
  Forall (addable (E := Engine.t A K) e (used scheme) st) ds.
Proof.
  intros Hp Hb. eapply Forall_impl; [apply (pl_shards _ _ _ Hp)|]. cbn. intros d (D1 & D2 & D3). split; [done|done|].
  destruct (blank_opens append_moves e (ShardEngine.path d) (e_fs e) (Settings.defaults (ShardEngine.path d)) Hb D2)
    as (f' & E & Ho); [by left|by left|]. by eexists _, _.
Qed.
End Plan.


(** ** Three shards *)

#[local] Existing Instance small_float_text.
#[local] Existing Instance number_json.

#[local] Instance Shard_eq_dec : EqDecision ShardEngine.Shard.
Proof. solve_decision. Defined.
#[local] Instance Shard_countable : Countable ShardEngine.Shard.
Proof.
  refine (inj_countable' (fun d => (ShardEngine.path d, ShardEngine.alias d, ShardEngine.ids d))
    (fun x => ShardEngine.mkShard x.1.1 x.1.2 x.2) _). by intros [].
Defined.

(** The shards as one number. *)
#[local] Instance number_shards : ShardEngine.ShardJson.
Proof.
  refine {| ShardEngine.shards_dump l := [Z.pos (encode l) + 10];
            ShardEngine.shards_parse bs := match bs with [z] => decode (Z.to_pos (z - 10)) | _ => None end |}.
  intros l _. rewrite filter_cons, decide_True, filter_nil by lia. cbn [fst]. rewrite Z.add_simpl_r.
  rewrite Pos2Z.id. apply decode_encode.
Defined.

Lemma unix_moves d f : plain_name f = true → unix_append d f ≠ d.
Proof.
  intros [Hf _]%andb_true_iff. apply negb_true_iff, String.eqb_neq in Hf. unfold unix_append.
  assert (Hlen : ∀ a b, String.length (a +:+ b) = (String.length a + String.length b)%nat).
  { intros a b. induction a as [|c a IH]; [done|]. exact (f_equal S IH). }
  destruct (String.eqb_spec d "") as [->|_]; [done|]. destruct (ends_with_slash d); intros E%(f_equal String.length);
    rewrite Hlen in E; cbn in E; [|lia]. destruct f; [done|cbn in E; lia].
Qed.

(** The series 0 is stored by minutes, 9 in a shard of its own, 7 with all others. *)
Definition minutes : Scheme.t := (Scheme.addParam "x.minute" Scheme.empty).2.
Definition nines : ShardEngine.Shard := ShardEngine.mkShard "nines" "nines" [9].

Definition at_time (i t : Z) : Meas := mkMeas i t 5 3.

Definition shard_ops : list (nat * op (list Meas)) :=
  [(0%nat, Subscribe [9] 0 []); (0%nat, Append (at_time 0 1)); (0%nat, Append (at_time 9 2)); (0%nat, Append (at_time 7 3));
   (1%nat, DropRound); (0%nat, Append (at_time 0 4)); (0%nat, Read (mkQueryInterval [0; 9; 7] 0 0 3 0));
   (0%nat, Current [0; 9] 0)].

Lemma minutes_plan : shard_plan (Settings.defaults "db") (Some minutes) [nines].
Proof.
  assert (Hm : ∀ i, of_interval i minutes = true → i = 0).
  { intros i. unfold of_interval, Scheme.descriptionFor. destruct (decide (i = 0)) as [->|Hne]; [done|].
    change (Scheme._id2descr minutes) with ({[0 := mkDescription "x.minute" 0 "minute" ""]} : gmap Z MeasurementDescription).
    by rewrite lookup_singleton_ne. }
  assert (Hu : ∀ x, used (Some minutes) x → x = "default"%string ∨ x = "minute"%string).
  { intros x [->|(sc & i & [= <-] & Hi%Hm & ->)]; [by left|right; by subst]. }
  split; try done.
  - intros x Hx. by destruct (Hu x Hx) as [->| ->].
  - intros sc i [= <-] Hi%Hm. by subst.
  - apply Forall_singleton. split; [done|]. split; [done|]. intros x Hx. by destruct (Hu x Hx) as [->| ->].
  - apply NoDup_singleton.
  - apply NoDup_singleton.
Qed.

Definition shard_series (i : Z) : list Meas :=
  if decide (i = 0) then [at_time 0 1; at_time 0 4]
  else if decide (i = 9) then [at_time 9 2] else if decide (i = 7) then [at_time 7 3] else [].

Lemma shard_ops_series i : series i (appended shard_ops.*2) = shard_series i.
Proof.
  change (appended shard_ops.*2) with [at_time 0 1; at_time 9 2; at_time 7 3; at_time 0 4]. unfold series, shard_series.
  rewrite !filter_cons, filter_nil. cbn [id at_time]. by repeat case_decide; simplify_eq.
Qed.

Lemma infix_short (l a r b : list Meas) (P : list Meas → Prop) : l = a ++ r ++ b → r ≠ [] → (length l <= 2)%nat →
  (∀ m, m ∈ l → P [m]) → P l → P r.
Proof.
  intros -> Hr Hl H1 H2. rewrite !length_app in Hl.
  destruct r as [|m [|m' [|]]]; [done| | |cbn in Hl; lia]; cbn in Hl.
  - apply H1. set_solver.
  - destruct a; [|cbn in Hl; lia]. destruct b; [done|cbn in Hl; lia].
Qed.

Lemma shard_ops_storable st i : sized WAL_FILE_SIZE CHUNK_SIZE st → storable st i (series i (appended shard_ops.*2)).
Proof.
  intros [_ _ Hc]. rewrite shard_ops_series. intros a r b E Hr _. rewrite Hc. unfold shard_series in E.
  repeat case_decide; subst; [..|by destruct a, r].
  all: eapply infix_short; [exact E|done|cbn; lia|intros m Hm|].
  all: repeat (apply elem_of_cons in Hm as [->|Hm]); try by apply elem_of_nil in Hm.
  all: split; [unfold CHUNK_SIZE; lia|done| |done|by vm_compute|apply (bool_decide_unpack _); by vm_compute|by repeat constructor].
  all: split; [repeat constructor; vm_compute; congruence|by repeat constructor|by intros ? ? [= <- <-]|done].
Qed.

Lemma shard_ops_fit : shard_fits WAL_FILE_SIZE CHUNK_SIZE (appended shard_ops.*2).
Proof.
  intros st Hz. split; [done| |intros i; by apply shard_ops_storable]. intros i. rewrite shard_ops_series. unfold shard_series.
  repeat case_decide; (split_and!; [by repeat constructor|apply (bool_decide_unpack _); by vm_compute|done]).
Qed.

Lemma shard_ops_fair : Forall (shard_fair (appended shard_ops.*2)) shard_ops.
Proof.
  repeat (apply Forall_cons; split); [..|by apply Forall_nil]; try done.
  all: split; [|done]; try (split; [apply (bool_decide_unpack _); by vm_compute|apply (bool_decide_unpack _); by vm_compute]).
  all: repeat split; vm_compute; congruence.
Qed.

(** The engines of the shards: memory is not used. *)
Abbreviation shard_type := (Engine.t UnlimitMemoryAllocator.t (list Meas)).
#[local] Instance small_engine : IEngine shard_type :=
  Engine_IEngine (fun _ => Throw) (fun _ => 0) ChunkHeader.zero 0 0 0 0.

