(* ===== verification/NetData.v ===== *)
(** * Messages of the network

    [network/common/net_common.h], [net_data.h], [net_data.cpp] and the framing of
    [async_connection.cpp]: the packed headers of the messages, the measurements of an
    append in variable-length bytes, and a message on the stream of a socket.  Sockets
    themselves are not modelled; a stream is a list of bytes. *)

From Stdlib Require Import ZArith Lia String.
From stdpp Require Import base numbers list.
From S2P Require Import Prelude Float64 Meas Stat PageFormat.

Local Open Scope Z_scope.

(** ** Kinds, states and errors *)

Definition PROTOCOL_VERSION : Z := 1.

Inductive DATA_KINDS :=
| OK | ERR | HELLO | DISCONNECT | PING | PONG | APPEND | READ_INTERVAL | READ_TIMEPOINT | CURRENT_VALUE
| SUBSCRIBE.

Definition all_kinds : list DATA_KINDS :=
  [OK; ERR; HELLO; DISCONNECT; PING; PONG; APPEND; READ_INTERVAL; READ_TIMEPOINT; CURRENT_VALUE; SUBSCRIBE].

Definition kind_number (k : DATA_KINDS) : Z :=
  match k with
  | OK => 0 | ERR => 1 | HELLO => 2 | DISCONNECT => 3 | PING => 4 | PONG => 5 | APPEND => 6
  | READ_INTERVAL => 7 | READ_TIMEPOINT => 8 | CURRENT_VALUE => 9 | SUBSCRIBE => 10
  end.

(** [(DATA_KINDS)qh->kind]; [None] for the numbers that go to [default]. *)
Definition kind_of (n : Z) : option DATA_KINDS := if n <? 0 then None else all_kinds !! Z.to_nat n.

Inductive CLIENT_STATE := CONNECT | WORK | DISCONNETION_START | DISCONNECTED.

#[export] Instance CLIENT_STATE_eq_dec : EqDecision CLIENT_STATE.
Proof. solve_decision. Defined.
#[export] Instance DATA_KINDS_eq_dec : EqDecision DATA_KINDS.
Proof. solve_decision. Defined.

Inductive ERRORS := WRONG_PROTOCOL_VERSION | WRONG_QUERY_PARAM_FROM_GE_TO | APPEND_ERROR_CODE.

Definition error_number (e : ERRORS) : Z :=
  match e with WRONG_PROTOCOL_VERSION => 0 | WRONG_QUERY_PARAM_FROM_GE_TO => 1 | APPEND_ERROR_CODE => 2 end.

Definition state_to_string (st : CLIENT_STATE) : string :=
  match st with
  | WORK => "CLIENT_STATE::WORK"
  | DISCONNECTED => "CLIENT_STATE::DISCONNECTED"
  | DISCONNETION_START => "CLIENT_STATE::DISCONNETION_START"
  | CONNECT => "CLIENT_STATE::CONNECT"
  end.

Definition error_to_string (e : ERRORS) : string :=
  match e with
  | WRONG_PROTOCOL_VERSION => "ERRORS::WRONG_PROTOCOL_VERSION"
  | WRONG_QUERY_PARAM_FROM_GE_TO => "ERRORS::WRONG_QUERY_PARAM_FROM_GE_TO"
  | APPEND_ERROR_CODE => "ERRORS::APPEND_ERROR"
  end.

(** ** Headers *)

Record QueryHello_header := mkHello { he_kind : Z; he_version : Z; he_host_size : Z }.
(** [QueryOk_header] and [QueryHelloFromServer_header] *)
Record QueryOk_header := mkOk { ok_kind : Z; ok_id : Z }.
Record QueryError_header := mkError { er_kind : Z; er_id : Z; er_error_code : Z }.
Record QueryAppend_header := mkAppend { ap_kind : Z; ap_id : Z; ap_count : Z }.
Record QueryInterval_header := mkInterval {
  in_kind : Z; in_id : Z; in_from : Z; in_to : Z; in_flag : Z; in_ids_count : Z;
}.
Record QueryTimePoint_header := mkTimePoint {
  tp_kind : Z; tp_id : Z; tp_tp : Z; tp_flag : Z; tp_ids_count : Z;
}.
(** [QueryCurrentValue_header] and [QuerSubscribe_header] *)
Record QueryCurrentValue_header := mkCurrentValue { cv_kind : Z; cv_id : Z; cv_flag : Z; cv_ids_count : Z }.
Record PackHeader := mkPack { pk_id : Z; pk_count : Z }.

#[export] Instance QueryHello_Packed : Packed QueryHello_header.
Proof.
  refine {| layout := [1; 4; 4]%nat; fields h := [he_kind h; he_version h; he_host_size h];
            of_fields l := match l with [a; b; c] => mkHello a b c | _ => mkHello 0 0 0 end |}; by intros [].
Defined.
#[export] Instance QueryOk_Packed : Packed QueryOk_header.
Proof.
  refine {| layout := [1; 4]%nat; fields h := [ok_kind h; ok_id h];
            of_fields l := match l with [a; b] => mkOk a b | _ => mkOk 0 0 end |}; by intros [].
Defined.
#[export] Instance QueryError_Packed : Packed QueryError_header.
Proof.
  refine {| layout := [1; 4; 2]%nat; fields h := [er_kind h; er_id h; er_error_code h];
            of_fields l := match l with [a; b; c] => mkError a b c | _ => mkError 0 0 0 end |}; by intros [].
Defined.
#[export] Instance QueryAppend_Packed : Packed QueryAppend_header.
Proof.
  refine {| layout := [1; 4; 4]%nat; fields h := [ap_kind h; ap_id h; ap_count h];
            of_fields l := match l with [a; b; c] => mkAppend a b c | _ => mkAppend 0 0 0 end |}; by intros [].
Defined.
#[export] Instance QueryInterval_Packed : Packed QueryInterval_header.
Proof.
  refine {| layout := [1; 4; 8; 8; 4; 2]%nat;
            fields h := [in_kind h; in_id h; in_from h; in_to h; in_flag h; in_ids_count h];
            of_fields l := match l with
              | [a; b; c; d; e; f] => mkInterval a b c d e f
              | _ => mkInterval 0 0 0 0 0 0
              end |}; by intros [].
Defined.
#[export] Instance QueryTimePoint_Packed : Packed QueryTimePoint_header.
Proof.
  refine {| layout := [1; 4; 8; 4; 2]%nat;
            fields h := [tp_kind h; tp_id h; tp_tp h; tp_flag h; tp_ids_count h];
            of_fields l := match l with
              | [a; b; c; d; e] => mkTimePoint a b c d e
              | _ => mkTimePoint 0 0 0 0 0
              end |}; by intros [].
Defined.
#[export] Instance QueryCurrentValue_Packed : Packed QueryCurrentValue_header.
Proof.
  refine {| layout := [1; 4; 4; 2]%nat; fields h := [cv_kind h; cv_id h; cv_flag h; cv_ids_count h];
            of_fields l := match l with [a; b; c; d] => mkCurrentValue a b c d | _ => mkCurrentValue 0 0 0 0 end |};
    by intros [].
Defined.
#[export] Instance PackHeader_Packed : Packed PackHeader.
Proof.
  refine {| layout := [4; 2]%nat; fields h := [pk_id h; pk_count h];
            of_fields l := match l with [a; b] => mkPack a b | _ => mkPack 0 0 end |}; by intros [].
Defined.

(** ** Messages *)

Definition MARKER_SIZE : Z := 2.

Module NetData.

Definition MAX_MESSAGE_SIZE : Z := 65535.

(** [data] has the bytes from the first one on; those it does not have are zero. *)
Record t := mk { size : Z; data : list Z }.

Definition make : t := mk 0 [].
Definition make_kind (k : DATA_KINDS) : t := mk 1 [kind_number k].

(** All the bytes of the array. *)
Definition all_data (d : t) : list Z :=
  data d ++ replicate (Z.to_nat MAX_MESSAGE_SIZE - length (data d)) 0.

(** The bytes of the message, from the size on; their number is a [uint16_t]. *)
Definition as_buffer (d : t) : list Z :=
  take (Z.to_nat (u16 (MARKER_SIZE + size d))) (to_le 2 (size d) ++ all_data d).

End NetData.

(** The structure at the beginning of the data. *)
Definition header_of (A : Type) `{Packed A} (d : NetData.t) : A := of_bytes (NetData.all_data d).

(** [readNextAsync] on the bytes that arrived: the size, then as many bytes; [None] while
    they have not arrived. *)
Definition read_frame (stream : list Z) : option (NetData.t * list Z) :=
  if (length stream <? Z.to_nat MARKER_SIZE)%nat then None
  else
    let size := of_le (take 2 stream) in
    let rest := drop 2 stream in
    if (length rest <? Z.to_nat size)%nat then None
    else Some (NetData.mk size (take (Z.to_nat size) rest), drop (Z.to_nat size) rest).

(** ** Measurements in a message *)

Module PackMeas.

Definition PACKED_BUFFER_MAX_SIZE : nat := 20.

(** LEB128.  [packed] has the bytes so far; the value of a double is a signed number,
    and is shifted as one. *)
Fixpoint pack (fuel : nat) (x : Z) (packed : list Z) : outcome (list Z) :=
  match fuel with
  | O => Diverge
  | S fuel =>
    let sub_res := Z.land x 0x7f in
    let x := Z.shiftr x 7 in
    let sub_res := if x =? 0 then sub_res else Z.lor sub_res 0x80 in
    if (length packed <? PACKED_BUFFER_MAX_SIZE)%nat then
      let packed := packed ++ [u8 sub_res] in
      if x =? 0 then Ok packed else pack fuel x packed
    else UB
  end.

(** Enough to fill the buffer. *)
Definition pack_fuel : nat := S PACKED_BUFFER_MAX_SIZE.

Definition make (flg tm val : Z) : outcome (list Z) :=
  p ← pack pack_fuel flg [];
  p ← pack pack_fuel tm p;
  pack pack_fuel (s64 val) p.

End PackMeas.

Module UnpackMeas.

(** A number of [w] bits; [bytes] of it were read. *)
Fixpoint unpack (w : Z) (bytes : Z) (result : Z) (ptr : list Z) : outcome (Z * list Z) :=
  match ptr with
  | [] => UB
  | readed :: ptr =>
    if 64 <=? 7 * bytes then UB
    else
      let result := wrap w (Z.lor result (u64 (Z.shiftl (Z.land readed 0x7f) (7 * bytes)))) in
      if Z.land readed 0x80 =? 0 then Ok (result, ptr) else unpack w (bytes + 1) result ptr
  end.

(** The flag, the time and the value, and what follows. *)
Definition make (ptr : list Z) : outcome (Z * Z * Z * list Z) :=
  '(flag, ptr) ← unpack 32 0 0 ptr;
  '(time, ptr) ← unpack 64 0 0 ptr;
  '(value, ptr) ← unpack 64 0 0 ptr;
  Ok (flag, time, value, ptr).

End UnpackMeas.

Module QueryAppend.

Definition free_space : Z :=
  NetData.MAX_MESSAGE_SIZE - MARKER_SIZE - 1 - Z.of_nat (size_of QueryAppend_header).

(** What was written after the header: complete packs, and the pack that is being
    filled. *)
Record packing := mkPacking {
  p_done : list Z;
  p_pack : PackHeader;
  p_body : list Z;
  p_result : Z;
}.

Definition packed_bytes (p : packing) : list Z := p_done p ++ bytes_of (p_pack p) ++ p_body p.

(** [end - ptr] *)
Definition bytes_left (p : packing) : Z :=
  free_space - Z.of_nat (size_of QueryAppend_header) - Z.of_nat (length (packed_bytes p)).

Definition new_pack (i : Z) (p : packing) : packing :=
  mkPacking (packed_bytes p) (mkPack i 0) [] (p_result p).

Definition put (sm : list Z) (p : packing) : packing :=
  mkPacking (p_done p) (mkPack (pk_id (p_pack p)) (u16 (pk_count (p_pack p) + 1))) (p_body p ++ sm)
    (u32 (p_result p + 1)).

(** The loop; the measurements from [pos] on. *)
Fixpoint pack_loop (ms : list Meas) (p : packing) : outcome packing :=
  match ms with
  | [] => Ok p
  | m :: ms =>
    let left := bytes_left p in
    if left =? 0 then Ok p
    else
      sm ← PackMeas.make (flag m) (time m) (value m);
      let sm_size := Z.of_nat (length sm) in
      if negb (id m =? pk_id (p_pack p)) then
        if left <=? Z.of_nat (size_of PackHeader) + sm_size then Ok p
        else if left <=? sm_size then Ok (new_pack (id m) p)
        else pack_loop ms (put sm (new_pack (id m) p))
      else if left <=? sm_size then Ok p
      else pack_loop ms (put sm p)
  end.

(** The bytes after the header, the number of measurements in them and the space left. *)
Definition make_query (m_array : list Meas) (pos : nat) : outcome (list Z * Z * Z) :=
  match m_array !! pos with
  | None => UB
  | Some m =>
    p ← pack_loop (drop pos m_array) (mkPacking [] (mkPack (id m) 0) [] 0);
    Ok (packed_bytes p, p_result p, bytes_left p)
  end.

(** The measurements of one pack; [ma] has those before, [n] is the size of the array. *)
Fixpoint read_pack (k : nat) (i : Z) (n : nat) (ma : list Meas) (ptr : list Z)
  : outcome (list Meas * list Z) :=
  match k with
  | O => Ok (ma, ptr)
  | S k =>
    '(flg, tm, val, ptr) ← UnpackMeas.make ptr;
    if (length ma <? n)%nat then read_pack k i n (ma ++ [mkMeas i tm val flg]) ptr else UB
  end.

(** [fuel] bounds the number of packs; each one takes bytes. *)
Fixpoint read_loop (fuel : nat) (n : nat) (ma : list Meas) (ptr : list Z) : outcome (list Meas) :=
  if (n <=? length ma)%nat then Ok ma
  else
    match fuel with
    | O => Diverge
    | S fuel =>
      if (length ptr <? size_of PackHeader)%nat then UB
      else
        let pack : PackHeader := of_bytes ptr in
        '(ma, ptr) ← read_pack (Z.to_nat (pk_count pack)) (pk_id pack) n ma (drop (size_of PackHeader) ptr);
        read_loop fuel n ma ptr
    end.

Definition read_measarray (d : NetData.t) : outcome (list Meas) :=
  let count := Z.to_nat (ap_count (header_of QueryAppend_header d)) in
  let ptr := drop (size_of QueryAppend_header) (NetData.all_data d) in
  read_loop (length ptr) count [] ptr.

(** The message of a query with measurements from [pos] on, and how many. *)
Definition append_message (query_num : Z) (m_array : list Meas) (pos : nat) : outcome (NetData.t * Z) :=
  '(body, count, space_left) ← make_query m_array pos;
  Ok (NetData.mk (u16 (NetData.MAX_MESSAGE_SIZE - MARKER_SIZE - space_left))
        (bytes_of (mkAppend (kind_number APPEND) query_num count) ++ body), count).

End QueryAppend.

(** ** Variable-length numbers *)

(** The bytes of a number. *)
Fixpoint leb (fuel : nat) (x : Z) : list Z :=
  match fuel with
  | O => []
  | S fuel =>
    if Z.shiftr x 7 =? 0 then [Z.land x 0x7f] else Z.lor (Z.land x 0x7f) 0x80 :: leb fuel (Z.shiftr x 7)
  end.

Definition leb_size (x : Z) : nat := length (leb 10 x).

Lemma low7 x : Z.land x 0x7f = x mod 2 ^ 7.
Proof. by rewrite <- (Z.land_ones x 7). Qed.

Lemma high7 x : Z.lor (Z.land x 0x7f) 0x80 = x mod 2 ^ 7 + 2 ^ 7.
Proof.
  rewrite low7. change 0x80 with (1 * 2 ^ 7) at 1. rewrite Z.lor_comm, lor_mul_pow2; [lia|lia|apply Z.mod_pos_bound; lia].
Qed.

Lemma leb_bytes fuel x : Forall byte_range (leb fuel x).
Proof.
  revert x. induction fuel as [|fuel IH]; intros x; cbn [leb]; [constructor|]. unfold byte_range.
  pose proof (Z.mod_pos_bound x (2 ^ 7) ltac:(lia)).
  destruct (_ =? 0); (constructor; [rewrite ?high7, ?low7; lia|]); [constructor|apply IH].
Qed.

Lemma pack_leb n fuel x p : 0 <= x < 2 ^ (7 * Z.of_nat n) → (0 < n)%nat → (PackMeas.PACKED_BUFFER_MAX_SIZE - length p < fuel)%nat →
  (length p <= PackMeas.PACKED_BUFFER_MAX_SIZE)%nat →
  PackMeas.pack fuel x p =
  if (length p + length (leb n x) <=? PackMeas.PACKED_BUFFER_MAX_SIZE)%nat then Ok (p ++ leb n x) else UB.
Proof.
  revert fuel x p. induction n as [|n IH]; intros fuel x p Hx Hn Hf Hp; [lia|]. destruct fuel as [|fuel]; [lia|].
  cbn [PackMeas.pack leb]. rewrite Z.shiftr_div_pow2 by lia.
  pose proof (Z.mod_pos_bound x (2 ^ 7) ltac:(lia)) as Hm.
  assert (Hb : u8 (if x / 2 ^ 7 =? 0 then Z.land x 0x7f else Z.lor (Z.land x 0x7f) 0x80) =
    if x / 2 ^ 7 =? 0 then Z.land x 0x7f else Z.lor (Z.land x 0x7f) 0x80).
  { apply wrap_small. rewrite high7, low7. destruct (_ =? 0); lia. }
  rewrite Hb. destruct (Z.eqb_spec (x / 2 ^ 7) 0) as [Ez|Ez].
  - cbn [length]. rewrite Nat.add_1_r. by destruct (Nat.ltb_spec (length p) PackMeas.PACKED_BUFFER_MAX_SIZE);
      destruct (Nat.leb_spec (S (length p)) PackMeas.PACKED_BUFFER_MAX_SIZE); try lia.
  - cbn [length]. destruct (Nat.ltb_spec (length p) PackMeas.PACKED_BUFFER_MAX_SIZE) as [Hl|Hl].
    + destruct n as [|n].
      { exfalso. apply Ez, Z.div_small. done. }
      rewrite IH.
      * rewrite length_app. cbn [length]. rewrite <- app_assoc, <- Nat.add_assoc. done.
      * split; [apply Z.div_pos; lia|]. apply Z.div_lt_upper_bound; [lia|]. rewrite <- Z.pow_add_r by lia.
        replace (7 + 7 * Z.of_nat (S n)) with (7 * Z.of_nat (S (S n))) by lia. apply Hx.
      * lia.
      * rewrite length_app. cbn [length]. lia.
      * rewrite length_app. cbn [length]. lia.
    + destruct (Nat.leb_spec (length p + S (length (leb n (x / 2 ^ 7)))) PackMeas.PACKED_BUFFER_MAX_SIZE); [lia|done].
Qed.

Lemma byte_low b : 0 <= b < 128 → Z.land b 0x7f = b ∧ Z.land b 0x80 = 0.
Proof.
  intros Hb. pose proof (forallb_range (fun b => (Z.land b 0x7f =? b) && (Z.land b 0x80 =? 0)) 0 128 b) as Hf.
  cbn beta in Hf. rewrite andb_true_iff, !Z.eqb_eq in Hf. apply Hf; [by vm_compute|lia].
Qed.

Lemma byte_high b : 0 <= b < 128 → Z.land (b + 2 ^ 7) 0x7f = b ∧ Z.land (b + 2 ^ 7) 0x80 = 128.
Proof.
  intros Hb. pose proof (forallb_range (fun b => (Z.land (b + 2 ^ 7) 0x7f =? b) && (Z.land (b + 2 ^ 7) 0x80 =? 128)) 0 128 b) as Hf.
  cbn beta in Hf. rewrite andb_true_iff, !Z.eqb_eq in Hf. apply Hf; [by vm_compute|lia].
Qed.

(** A number is read back from its bytes. *)
Lemma unpack_leb n w k r x rest : 0 <= x < 2 ^ (7 * Z.of_nat n) → (0 < n)%nat → 0 <= k → 7 * k < 64 →
  0 <= r < 2 ^ (7 * k) → 0 <= w <= 64 → r + x * 2 ^ (7 * k) < 2 ^ w →
  UnpackMeas.unpack w k r (leb n x ++ rest) = Ok (r + x * 2 ^ (7 * k), rest).
Proof.
  revert k r x. induction n as [|n IH]; intros k r x Hx Hn Hk Hk64 Hr Hw Hsum; [lia|]. cbn [leb].
  pose proof (Z.mod_pos_bound x (2 ^ 7) ltac:(lia)) as Hm. pose proof (Z.div_mod x (2 ^ 7) ltac:(lia)) as Hdm.
  rewrite Z.shiftr_div_pow2 by lia. assert (H2 : 0 < 2 ^ (7 * k)) by (apply Z.pow_pos_nonneg; lia).
  assert (Hw64 : 2 ^ w <= 2 ^ 64) by (apply Z.pow_le_mono_r; lia).
  assert (Hstep : wrap w (Z.lor r (u64 (Z.shiftl (x mod 2 ^ 7) (7 * k)))) = r + x mod 2 ^ 7 * 2 ^ (7 * k)).
  { rewrite Z.shiftl_mul_pow2 by lia. assert (0 <= x / 2 ^ 7) by (apply Z.div_pos; lia).
    rewrite (wrap_small 64) by nia. rewrite Z.lor_comm, lor_mul_pow2 by lia. rewrite wrap_small; [lia|nia]. }
  destruct (Z.eqb_spec (x / 2 ^ 7) 0) as [Ez|Ez]; cbn [app UnpackMeas.unpack].
  - rewrite (proj2 (Z.leb_gt _ _)) by lia. destruct (byte_low (x mod 2 ^ 7)) as [B1 B2]; [lia|].
    rewrite low7, B1, B2, Hstep. cbn. rewrite Z.mod_small by lia. done.
  - rewrite (proj2 (Z.leb_gt _ _)) by lia. rewrite high7. destruct (byte_high (x mod 2 ^ 7)) as [B1 B2]; [lia|].
    rewrite B1, B2. cbn [Z.eqb].
    assert (Hd : 1 <= x / 2 ^ 7) by (pose proof (Z.div_pos x (2 ^ 7) ltac:(lia) ltac:(lia)); lia).
    assert (H2k : 2 ^ (7 * (k + 1)) = 128 * 2 ^ (7 * k)).
    { replace (7 * (k + 1)) with (7 + 7 * k) by lia. by rewrite Z.pow_add_r by lia. }
    rewrite Hstep, IH.
    + f_equal. f_equal. rewrite H2k. nia.
    + split; [lia|]. apply Z.div_lt_upper_bound; [lia|]. rewrite <- Z.pow_add_r by lia.
      replace (7 + 7 * Z.of_nat n) with (7 * Z.of_nat (S n)) by lia. apply Hx.
    + destruct n; [|lia]. exfalso. apply Ez, Z.div_small. done.
    + lia.
    + destruct (Z_lt_le_dec (7 * (k + 1)) 64); [done|]. exfalso.
      assert (2 ^ 64 <= 2 ^ (7 * (k + 1))) by (apply Z.pow_le_mono_r; lia). nia.
    + rewrite H2k. nia.
    + done.
    + rewrite H2k. nia.
Qed.

(** A negative number is shifted for ever. *)
Lemma pack_negative fuel x p : x < 0 → (PackMeas.PACKED_BUFFER_MAX_SIZE - length p < fuel)%nat →
  (length p <= PackMeas.PACKED_BUFFER_MAX_SIZE)%nat → PackMeas.pack fuel x p = UB.
Proof.
  revert x p. induction fuel as [|fuel IH]; intros x p Hx Hf Hp; [lia|]. cbn [PackMeas.pack].
  assert (Hs : Z.shiftr x 7 < 0) by (apply Z.shiftr_neg; done).
  rewrite (proj2 (Z.eqb_neq _ _)) by lia.
  destruct (Nat.ltb_spec (length p) PackMeas.PACKED_BUFFER_MAX_SIZE); [|done].
  apply IH; [done|rewrite length_app; cbn [length]; lia..].
Qed.

(** ** A measurement *)

Definition meas_bytes (m : Meas) : list Z := leb 10 (flag m) ++ leb 10 (time m) ++ leb 10 (value m).

(** Its value is not negative, and it fits the buffer. *)
Definition sendable (m : Meas) : bool :=
  (value m <? 2 ^ 63) && (length (meas_bytes m) <=? PackMeas.PACKED_BUFFER_MAX_SIZE)%nat.

Lemma leb_length n x : (length (leb n x) <= n)%nat.
Proof. revert x. induction n as [|n IH]; intros x; cbn [leb]; [done|]. destruct (_ =? 0); cbn [length]; [lia|]. specialize (IH (Z.shiftr x 7)). lia. Qed.

Lemma leb_length_bits k n x : 0 <= x < 2 ^ (7 * Z.of_nat k) → (0 < k)%nat → (length (leb n x) <= k)%nat.
Proof.
  revert n x. induction k as [|k IH]; intros n x Hx Hk; [lia|]. destruct n as [|n]; cbn [leb]; [cbn; lia|].
  rewrite Z.shiftr_div_pow2 by lia. destruct (Z.eqb_spec (x / 2 ^ 7) 0) as [Ez|Ez]; cbn [length]; [lia|].
  destruct k as [|k]; [exfalso; apply Ez, Z.div_small; done|].
  assert (length (leb n (x / 2 ^ 7)) <= S k)%nat; [|lia]. apply IH; [|lia].
  split; [apply Z.div_pos; lia|]. apply Z.div_lt_upper_bound; [lia|]. rewrite <- Z.pow_add_r by lia.
  replace (7 + 7 * Z.of_nat (S k)) with (7 * Z.of_nat (S (S k))) by lia. apply Hx.
Qed.

Lemma pack_meas m : meas_wf m →
  PackMeas.make (flag m) (time m) (value m) = if sendable m then Ok (meas_bytes m) else UB.
Proof.
  intros (_ & Ht & Hv & Hf). unfold is_time, is_value, is_flag in *. unfold PackMeas.make, sendable, meas_bytes.
  assert (H32 : 2 ^ 32 <= 2 ^ (7 * Z.of_nat 5)) by (apply Z.pow_le_mono_r; lia).
  assert (H70 : 2 ^ 64 <= 2 ^ (7 * Z.of_nat 10)) by (apply Z.pow_le_mono_r; lia).
  assert (H35 : 2 ^ (7 * Z.of_nat 5) <= 2 ^ (7 * Z.of_nat 10)) by (apply Z.pow_le_mono_r; lia).
  pose proof (leb_length_bits 5 10 (flag m) ltac:(lia) ltac:(lia)) as Lf.
  pose proof (leb_length 10 (time m)) as Lt.
  assert (Hp : PackMeas.PACKED_BUFFER_MAX_SIZE = 20%nat) by done.
  assert (Hfu : PackMeas.pack_fuel = 21%nat) by done.
  rewrite (pack_leb 10); [|lia|lia|rewrite Hfu, Hp; cbn; lia|cbn; lia]. cbn [length app Nat.add].
  rewrite (proj2 (Nat.leb_le _ _)), bind_Ok by lia.
  rewrite (pack_leb 10); [|lia|lia|rewrite Hfu, Hp; lia|lia].
  rewrite (proj2 (Nat.leb_le _ _)), bind_Ok by lia.
  destruct (Z.ltb_spec (value m) (2 ^ 63)) as [Hpos|Hneg]; cbn [andb].
  - rewrite swrap_small by lia. rewrite (pack_leb 10); [|lia|lia|rewrite Hfu, Hp; lia|rewrite length_app; lia].
    rewrite !length_app, Nat.add_assoc. by rewrite <- app_assoc.
  - apply pack_negative; [|rewrite Hfu, Hp; lia|rewrite length_app; lia].
    unfold swrap. change (64 - 1) with 63. rewrite Zmod_eq by lia.
    assert ((value m + 2 ^ 63) / 2 ^ 64 = 1) as ->; [|lia].
    symmetry. apply Z.div_unique_pos with (r := value m - 2 ^ 63); lia.
Qed.

Lemma unpack_meas m rest : meas_wf m → UnpackMeas.make (meas_bytes m ++ rest) = Ok (flag m, time m, value m, rest).
Proof.
  intros (_ & Ht & Hv & Hf). unfold is_time, is_value, is_flag in *. unfold UnpackMeas.make, meas_bytes.
  assert (H32 : 2 ^ 32 <= 2 ^ 64) by (apply Z.pow_le_mono_r; lia).
  assert (H70 : 2 ^ 64 <= 2 ^ (7 * Z.of_nat 10)) by (apply Z.pow_le_mono_r; lia).
  rewrite <- !app_assoc.
  rewrite unpack_leb; [|lia..]. rewrite bind_Ok, unpack_leb; [|lia..]. rewrite bind_Ok, unpack_leb; [|lia..].
  rewrite bind_Ok. cbn [Z.mul Z.pow]. change (7 * 0) with 0. rewrite Z.pow_0_r. by rewrite !Z.mul_1_r.
Qed.

(** ** The measurements of a message *)

(** A pack: an identifier and measurements of it. *)
Definition group_bytes (g : Z * list Meas) : list Z :=
  bytes_of (mkPack g.1 (Z.of_nat (length g.2))) ++ concat (meas_bytes <$> g.2).

Definition group_ok (g : Z * list Meas) : Prop :=
  is_id g.1 ∧ Z.of_nat (length g.2) < 2 ^ 16 ∧ Forall (fun m => meas_wf m ∧ id m = g.1) g.2.

Lemma read_pack_ok l i n ma rest : Forall (fun m => meas_wf m ∧ id m = i) l → (length ma + length l <= n)%nat →
  QueryAppend.read_pack (length l) i n ma (concat (meas_bytes <$> l) ++ rest) = Ok (ma ++ l, rest).
Proof.
  revert ma. induction l as [|m l IH]; intros ma Hl Hn; [by rewrite app_nil_r|].
  apply Forall_cons in Hl as [[Hm Hi] Hl]. cbn [length] in *. cbn [QueryAppend.read_pack fmap list_fmap concat].
  rewrite <- app_assoc, unpack_meas, bind_Ok by done. rewrite (proj2 (Nat.ltb_lt _ _)) by lia.
  assert (mkMeas i (time m) (value m) (flag m) = m) as -> by (destruct m; cbn in *; by subst).
  rewrite IH; [by rewrite <- app_assoc|done|]. rewrite length_app. cbn. lia.
Qed.

Lemma read_loop_ok gs fuel n ma rest : Forall group_ok gs → (length gs <= fuel)%nat →
  n = (length ma + length (concat gs.*2))%nat →
  QueryAppend.read_loop fuel n ma (concat (group_bytes <$> gs) ++ rest) = Ok (ma ++ concat gs.*2).
Proof.
  revert fuel ma. induction gs as [|[i l] gs IH]; intros fuel ma Hg Hf Hn.
  { cbn [fmap list_fmap concat] in *. rewrite app_nil_r. destruct fuel; cbn [QueryAppend.read_loop];
      by rewrite (proj2 (Nat.leb_le _ _)) by (cbn in Hn; lia). }
  apply Forall_cons in Hg as [(Hi & Hc & Hl) Hg]. cbn [fst snd] in *. destruct fuel as [|fuel]; [cbn in Hf; lia|].
  cbn [fmap list_fmap concat fst snd] in *. rewrite length_app in Hn. cbn [QueryAppend.read_loop].
  destruct (Nat.leb_spec n (length ma)) as [Hle|Hlt].
  { assert (length (l ++ concat gs.*2) = 0)%nat as Hz%nil_length_inv by (rewrite length_app; lia). by rewrite Hz, app_nil_r. }
  unfold group_bytes. cbn [fst snd]. rewrite <- !app_assoc.
  rewrite (proj2 (Nat.ltb_ge _ _)) by (rewrite length_app, length_bytes_of; lia).
  rewrite of_bytes_of.
  2:{ constructor; [exact Hi|]. constructor; [|constructor]. cbn [pk_count]. unfold in_width.
      change (256 ^ Z.of_nat 2) with (2 ^ 16). lia. }
  rewrite drop_app_length' by by rewrite length_bytes_of. cbn [pk_count pk_id]. rewrite Nat2Z.id.
  rewrite read_pack_ok, bind_Ok by (done || lia). rewrite IH; [by rewrite <- app_assoc|done|cbn in Hf; lia|].
  rewrite length_app. lia.
Qed.

(** What the loop has written. *)
Record packed (p : QueryAppend.packing) (gs : list (Z * list Meas)) (i : Z) (l : list Meas) : Prop := {
  pd_done : QueryAppend.p_done p = concat (group_bytes <$> gs);
  pd_pack : QueryAppend.p_pack p = mkPack i (Z.of_nat (length l));
  pd_body : QueryAppend.p_body p = concat (meas_bytes <$> l);
  pd_result : QueryAppend.p_result p = Z.of_nat (length (concat (gs ++ [(i, l)]).*2));
  pd_ok : Forall group_ok (gs ++ [(i, l)]);
  pd_room : 0 < QueryAppend.bytes_left p;
}.

Lemma packed_bytes_ok p gs i l : packed p gs i l → QueryAppend.packed_bytes p = concat (group_bytes <$> gs ++ [(i, l)]).
Proof.
  intros [P1 P2 P3 _ _ _]. unfold QueryAppend.packed_bytes. rewrite P1, P2, P3, fmap_app, concat_app. cbn. by rewrite app_nil_r.
Qed.

Lemma meas_bytes_pos m : (3 <= length (meas_bytes m))%nat.
Proof.
  unfold meas_bytes. rewrite !length_app.
  assert (Hl : ∀ x, (1 <= length (leb 10 x))%nat) by (intros x; cbn [leb]; destruct (_ =? 0); cbn; lia).
  pose proof (Hl (flag m)). pose proof (Hl (time m)). pose proof (Hl (value m)). lia.
Qed.

Lemma concat_bytes_length l : (3 * length l <= length (concat (meas_bytes <$> l)))%nat.
Proof.
  induction l as [|m l IH]; [done|]. cbn [fmap list_fmap concat length]. rewrite length_app. pose proof (meas_bytes_pos m). lia.
Qed.

Lemma flat_length_groups (gs : list (Z * list Meas)) :
  (3 * length (concat gs.*2) + 6 * length gs <= length (concat (group_bytes <$> gs)))%nat.
Proof.
  induction gs as [|[i l] gs IH]; [done|]. cbn [fmap list_fmap concat length fst snd]. rewrite !length_app. unfold group_bytes at 1.
  cbn [fst snd]. rewrite length_app, length_bytes_of. pose proof (concat_bytes_length l). change (size_of PackHeader) with 6%nat. lia.
Qed.

Lemma packed_small p gs i l : packed p gs i l → Z.of_nat (length (concat (gs ++ [(i, l)]).*2)) < 21840.
Proof.
  intros Hp. pose proof (pd_room _ _ _ _ Hp) as Hr. unfold QueryAppend.bytes_left in Hr.
  rewrite (packed_bytes_ok _ _ _ _ Hp) in Hr. pose proof (flat_length_groups (gs ++ [(i, l)])) as Hf.
  change QueryAppend.free_space with 65523 in Hr. change (size_of QueryAppend_header) with 9%nat in Hr. lia.
Qed.

(** One measurement more, in the pack or in a new one. *)
Lemma packed_put p gs i l m : packed p gs i l → meas_wf m → id m = i →
  Z.of_nat (length (meas_bytes m)) < QueryAppend.bytes_left p →
  packed (QueryAppend.put (meas_bytes m) p) gs i (l ++ [m]).
Proof.
  intros Hp Hm Hi Hroom. pose proof (packed_small _ _ _ _ Hp) as Hs. destruct Hp as [P1 P2 P3 P4 P5 P6].
  rewrite fmap_app, concat_app, length_app in Hs. cbn [fmap list_fmap concat snd] in Hs. rewrite app_nil_r in Hs.
  assert (Ec : u16 (Z.of_nat (length l) + 1) = Z.of_nat (length (l ++ [m]))).
  { rewrite length_app. cbn [length]. rewrite wrap_small; lia. }
  split; cbn [QueryAppend.put QueryAppend.p_done QueryAppend.p_pack QueryAppend.p_body QueryAppend.p_result].
  - done.
  - rewrite P2. cbn [pk_id pk_count]. by rewrite Ec.
  - rewrite P3, fmap_app, concat_app. cbn. by rewrite app_nil_r.
  - rewrite P4, !fmap_app, !concat_app. cbn [fmap list_fmap concat snd]. rewrite !app_nil_r, !length_app.
    cbn [length]. rewrite wrap_small; lia.
  - apply Forall_app in P5 as [P5 Pg]. apply Forall_app. split; [done|]. apply Forall_singleton in Pg as (G1 & G2 & G3).
    apply Forall_singleton. unfold group_ok. cbn [fst snd] in *. split; [done|]. split; [rewrite length_app; cbn [length]; lia|].
    apply Forall_app. split; [done|]. by apply Forall_singleton.
  - unfold QueryAppend.bytes_left, QueryAppend.packed_bytes in *.
    cbn [QueryAppend.put QueryAppend.p_done QueryAppend.p_pack QueryAppend.p_body]. rewrite !length_app, !length_bytes_of in *. lia.
Qed.

Lemma packed_new p gs i l j : packed p gs i l → is_id j → 6 < QueryAppend.bytes_left p →
  packed (QueryAppend.new_pack j p) (gs ++ [(i, l)]) j [] ∧
  QueryAppend.bytes_left (QueryAppend.new_pack j p) = QueryAppend.bytes_left p - 6.
Proof.
  intros Hp Hj Hroom.
  assert (El : QueryAppend.bytes_left (QueryAppend.new_pack j p) = QueryAppend.bytes_left p - 6).
  { unfold QueryAppend.bytes_left, QueryAppend.new_pack. unfold QueryAppend.packed_bytes at 1.
    cbn [QueryAppend.p_done QueryAppend.p_pack QueryAppend.p_body]. rewrite !length_app, length_bytes_of.
    change (size_of PackHeader) with 6%nat. cbn [length]. lia. }
  split; [|done]. split; try done; cbn [QueryAppend.new_pack QueryAppend.p_done QueryAppend.p_result].
  - by apply packed_bytes_ok.
  - rewrite (pd_result _ _ _ _ Hp), (fmap_app snd (gs ++ _)), concat_app. cbn. by rewrite app_nil_r.
  - apply Forall_app. split; [apply Hp|]. apply Forall_singleton. split; [done|]. split; [done|constructor].
  - rewrite El. lia.
Qed.

(** The loop takes measurements while there is room. *)
Lemma pack_loop_ok ms p gs i l : packed p gs i l → Forall (fun m => meas_wf m ∧ sendable m = true) ms →
  ∃ p' gs' i' l' k, QueryAppend.pack_loop ms p = Ok p' ∧ packed p' gs' i' l' ∧
    concat (gs' ++ [(i', l')]).*2 = concat (gs ++ [(i, l)]).*2 ++ take k ms ∧ (k <= length ms)%nat ∧
    (ms ≠ [] → 26 < QueryAppend.bytes_left p → (1 <= k)%nat).
Proof.
  revert p gs i l. induction ms as [|m ms IH]; intros p gs i l Hp Hms.
  { exists p, gs, i, l, 0%nat. by rewrite app_nil_r. }
  apply Forall_cons in Hms as [[Hm Hsend] Hms]. cbn [QueryAppend.pack_loop].
  pose proof (pd_room _ _ _ _ Hp) as Hroom. rewrite (proj2 (Z.eqb_neq _ _)) by lia.
  rewrite pack_meas, Hsend, bind_Ok by done. rewrite (pd_pack _ _ _ _ Hp). cbn [pk_id].
  assert (Hsz : (length (meas_bytes m) <= 20)%nat).
  { unfold sendable in Hsend. apply andb_true_iff in Hsend as [_ Hs%Nat.leb_le]. exact Hs. }
  assert (Hgo : ∀ p1 gs1 i1 l1, packed p1 gs1 i1 l1 → concat (gs1 ++ [(i1, l1)]).*2 = concat (gs ++ [(i, l)]).*2 ++ [m] →
    ∃ p' gs' i' l' k, QueryAppend.pack_loop ms p1 = Ok p' ∧ packed p' gs' i' l' ∧
    concat (gs' ++ [(i', l')]).*2 = concat (gs ++ [(i, l)]).*2 ++ take k (m :: ms) ∧ (k <= length (m :: ms))%nat ∧
    (m :: ms ≠ [] → 26 < QueryAppend.bytes_left p → (1 <= k)%nat)).
  { intros p1 gs1 i1 l1 Hp1 Ef. destruct (IH p1 gs1 i1 l1 Hp1 Hms) as (p' & gs' & i' & l' & k & E & Hp' & Ek & Hk & _).
    exists p', gs', i', l', (S k). split; [done|]. split; [done|]. split; [by rewrite Ek, Ef, <- app_assoc|]. cbn [length]. lia. }
  assert (Hstop : QueryAppend.bytes_left p <= 26 → ∃ p' gs' i' l' k, Ok p = Ok p' ∧ packed p' gs' i' l' ∧
    concat (gs' ++ [(i', l')]).*2 = concat (gs ++ [(i, l)]).*2 ++ take k (m :: ms) ∧ (k <= length (m :: ms))%nat ∧
    (m :: ms ≠ [] → 26 < QueryAppend.bytes_left p → (1 <= k)%nat)).
  { intros Hle. exists p, gs, i, l, 0%nat. rewrite app_nil_r. split_and!; try done; cbn [length]; lia. }
  destruct (Z.eqb_spec (id m) i) as [Hi|Hi]; cbn [negb].
  - destruct (Z.leb_spec (QueryAppend.bytes_left p) (Z.of_nat (length (meas_bytes m)))); [apply Hstop; lia|].
    eapply Hgo; [by apply packed_put|]. rewrite !fmap_app, !concat_app. cbn. by rewrite !app_nil_r, app_assoc.
  - change (size_of PackHeader) with 6%nat.
    destruct (Z.leb_spec (QueryAppend.bytes_left p) (Z.of_nat 6 + Z.of_nat (length (meas_bytes m)))); [apply Hstop; lia|].
    rewrite (proj2 (Z.leb_gt _ _)) by lia.
    destruct (packed_new p gs i l (id m) Hp) as [Hnew Hleft]; [apply Hm|lia|].
    eapply Hgo; [apply packed_put; [done|done|done|lia]|]. rewrite !fmap_app, !concat_app. cbn. by rewrite !app_nil_r.
Qed.

(** ** Messages on a stream *)

Definition fits_frame (d : NetData.t) : Prop :=
  Z.of_nat (length (NetData.data d)) <= NetData.size d <= NetData.MAX_MESSAGE_SIZE - MARKER_SIZE.

(** The message that arrives. *)
Definition received (d : NetData.t) : NetData.t :=
  NetData.mk (NetData.size d) (take (Z.to_nat (NetData.size d)) (NetData.all_data d)).

Lemma all_data_length d : Z.of_nat (length (NetData.data d)) <= NetData.MAX_MESSAGE_SIZE →
  length (NetData.all_data d) = Z.to_nat NetData.MAX_MESSAGE_SIZE.
Proof. intros Hl. unfold NetData.all_data. rewrite length_app, length_replicate. lia. Qed.

Lemma received_data d : fits_frame d → NetData.all_data (received d) = NetData.all_data d.
Proof.
  intros [F1 F2]. change NetData.MAX_MESSAGE_SIZE with 65535 in F2. change MARKER_SIZE with 2 in F2.
  unfold received, NetData.all_data at 1. cbn [NetData.data]. rewrite length_take, all_data_length by (unfold NetData.MAX_MESSAGE_SIZE; lia).
  unfold NetData.all_data. rewrite take_app_ge by lia. rewrite <- app_assoc. f_equal.
  rewrite take_replicate, <- replicate_add. f_equal. change NetData.MAX_MESSAGE_SIZE with 65535. lia.
Qed.

Lemma read_frame_ok d rest : fits_frame d → read_frame (NetData.as_buffer d ++ rest) = Some (received d, rest).
Proof.
  intros [F1 F2]. change NetData.MAX_MESSAGE_SIZE with 65535 in F2. change MARKER_SIZE with 2 in F2.
  unfold NetData.as_buffer. change MARKER_SIZE with 2.
  rewrite wrap_small by lia. replace (Z.to_nat (2 + NetData.size d)) with (2 + Z.to_nat (NetData.size d))%nat by lia.
  rewrite take_app_add' by by rewrite length_to_le. rewrite <- app_assoc. unfold read_frame.
  pose proof (all_data_length d ltac:(change NetData.MAX_MESSAGE_SIZE with 65535; lia)) as El.
  set (body := take _ (NetData.all_data d)).
  assert (Hb : length body = Z.to_nat (NetData.size d)).
  { unfold body. rewrite length_take, El. change NetData.MAX_MESSAGE_SIZE with 65535. lia. }
  change (Z.to_nat MARKER_SIZE) with 2%nat. rewrite length_app, length_to_le, (proj2 (Nat.ltb_ge (2 + _) 2)) by lia.
  rewrite take_app_length', drop_app_length' by by rewrite length_to_le.
  rewrite of_to_le_small by (change (256 ^ Z.of_nat 2) with 65536; lia).
  rewrite length_app, (proj2 (Nat.ltb_ge _ _)) by lia. by rewrite take_app_length', drop_app_length' by done.
Qed.

Lemma same_data_header (A : Type) `{Packed A} d d' : NetData.all_data d = NetData.all_data d' → header_of A d = header_of A d'.
Proof. unfold header_of. by intros ->. Qed.

Lemma same_data_array d d' : NetData.all_data d = NetData.all_data d' →
  QueryAppend.read_measarray d = QueryAppend.read_measarray d'.
Proof. unfold QueryAppend.read_measarray. intros Hd. by rewrite (same_data_header _ d d' Hd), Hd. Qed.

Lemma header_first {A : Type} `{Packed A} (h : A) n body : in_range h → header_of A (NetData.mk n (bytes_of h ++ body)) = h.
Proof. intros Hh. unfold header_of, NetData.all_data. cbn [NetData.data]. rewrite <- app_assoc. by apply of_bytes_of. Qed.

(** A message with measurements: some of them are in it, and are read from it. *)
Lemma append_message_ok qn ms pos : 0 <= qn < 2 ^ 32 → (pos < length ms)%nat →
  Forall (fun m => meas_wf m ∧ sendable m = true) (drop pos ms) →
  ∃ d n, QueryAppend.append_message qn ms pos = Ok (d, Z.of_nat n) ∧ (1 <= n <= length ms - pos)%nat ∧ fits_frame d ∧
    header_of QueryAppend_header d = mkAppend (kind_number APPEND) qn (Z.of_nat n) ∧
    QueryAppend.read_measarray d = Ok (take n (drop pos ms)).
Proof.
  intros Hq Hpos Hms. destruct (lookup_lt_is_Some_2 ms pos Hpos) as [m Hm].
  assert (Hin : m ∈ drop pos ms) by (apply list_elem_of_lookup; exists 0%nat; by rewrite lookup_drop, Nat.add_0_r).
  assert (Hwf : meas_wf m) by (rewrite Forall_forall in Hms; by apply Hms).
  unfold QueryAppend.append_message, QueryAppend.make_query. rewrite Hm.
  set (p0 := QueryAppend.mkPacking [] (mkPack (id m) 0) [] 0).
  assert (Hp0 : packed p0 [] (id m) []).
  { split; try done. apply Forall_singleton. split; [apply Hwf|]. split; [done|constructor]. }
  destruct (pack_loop_ok _ p0 [] (id m) [] Hp0 Hms) as (p & gs & i & l & k & E & Hp & Ef & Hk & Hk1).
  rewrite E, !bind_Ok. cbn [fmap list_fmap concat app snd] in Ef.
  assert (Hne : drop pos ms ≠ []) by (intros Hn; rewrite Hn in Hin; by apply elem_of_nil in Hin).
  specialize (Hk1 Hne ltac:(by vm_compute)). rewrite length_drop in Hk.
  assert (En : QueryAppend.p_result p = Z.of_nat k).
  { rewrite (pd_result _ _ _ _ Hp), Ef, length_take, length_drop. lia. }
  pose proof (packed_bytes_ok _ _ _ _ Hp) as Eb. pose proof (packed_small _ _ _ _ Hp) as Hs.
  rewrite Ef, length_take, length_drop in Hs.
  pose proof (pd_room _ _ _ _ Hp) as Hroom.
  assert (Hl : Z.of_nat (length (QueryAppend.packed_bytes p)) = 65514 - QueryAppend.bytes_left p).
  { unfold QueryAppend.bytes_left. change QueryAppend.free_space with 65523. change (size_of QueryAppend_header) with 9%nat. lia. }
  assert (Hr : in_range (mkAppend (kind_number APPEND) qn (Z.of_nat k))).
  { constructor; [done|]. constructor; [done|]. constructor; [|constructor]. cbn [ap_count]. unfold in_width.
    change (256 ^ Z.of_nat 4) with (2 ^ 32). lia. }
  set (d := NetData.mk _ _). exists d, k. rewrite En. split; [done|]. split; [lia|].
  assert (Hd : header_of QueryAppend_header d = mkAppend (kind_number APPEND) qn (Z.of_nat k)).
  { unfold d. rewrite En. by apply header_first. }
  split; [|split; [done|]].
  - unfold fits_frame, d. cbn [NetData.data NetData.size]. rewrite length_app, length_bytes_of.
    change (size_of QueryAppend_header) with 9%nat. unfold NetData.MAX_MESSAGE_SIZE, MARKER_SIZE. rewrite wrap_small by lia. lia.
  - unfold QueryAppend.read_measarray. rewrite Hd. cbn [ap_count]. rewrite Nat2Z.id.
    unfold NetData.all_data, d. cbn [NetData.data]. rewrite <- app_assoc, drop_app_length' by by rewrite length_bytes_of.
    rewrite Eb, <- Ef. apply (read_loop_ok _ _ _ []); [apply Hp| |].
    + rewrite (length_app (concat _)). pose proof (flat_length_groups (gs ++ [(i, l)])). lia.
    + rewrite Ef, length_take, length_drop. cbn [length]. lia.
Qed.

(** ** Properties *)

(** C8: a message with measurements arrives.  Of measurements that can be sent, the
    message a client or a server makes from some position on holds at least one; read
    from the stream of the socket it is one message, whatever follows it, it has the
    number of its query, and the measurements in it are those of the array from that
    position on. *)
Theorem append_message_roundtrip qn ms pos rest : 0 <= qn < 2 ^ 32 → (pos < length ms)%nat →
  Forall (fun m => meas_wf m ∧ sendable m = true) (drop pos ms) →
  ∃ d n d', QueryAppend.append_message qn ms pos = Ok (d, Z.of_nat n) ∧ (1 <= n <= length ms - pos)%nat ∧
    read_frame (NetData.as_buffer d ++ rest) = Some (d', rest) ∧
    header_of QueryAppend_header d' = mkAppend (kind_number APPEND) qn (Z.of_nat n) ∧
    QueryAppend.read_measarray d' = Ok (take n (drop pos ms)).
Proof.
  intros Hq Hpos Hms. destruct (append_message_ok qn ms pos Hq Hpos Hms) as (d & n & E & Hn & Hf & Hh & Hr).
  exists d, n, (received d). split; [done|]. split; [done|]. split; [by apply read_frame_ok|].
  pose proof (received_data d Hf) as Hd. by rewrite (same_data_header _ _ d Hd), (same_data_array _ d Hd).
Qed.

(** Two series; what follows is another message. *)
Lemma append_message_roundtrip_witness :
  let ms := [mkMeas 7 1000 (2 ^ 62) 3; mkMeas 7 1001 5 0; mkMeas 8 4 (2 ^ 63 - 1) (2 ^ 32 - 1)] in
  ∃ d n d', QueryAppend.append_message 12 ms 1 = Ok (d, Z.of_nat n) ∧ (1 <= n <= 2)%nat ∧
    read_frame (NetData.as_buffer d ++ [3; 0; 1]) = Some (d', [3; 0; 1]) ∧
    header_of QueryAppend_header d' = mkAppend 6 12 (Z.of_nat n) ∧
    QueryAppend.read_measarray d' = Ok (take n [mkMeas 7 1001 5 0; mkMeas 8 4 (2 ^ 63 - 1) (2 ^ 32 - 1)]).
Proof.
  intros ms. apply (append_message_roundtrip 12 ms 1 [3; 0; 1]).
  - lia.
  - cbn. lia.
  - repeat constructor; vm_compute; congruence.
Defined.

(** C40: which measurements can be sent.  The buffer of a measurement has twenty bytes: a
    measurement that needs more of them is written over its end, and so is every one with
    a negative value, whose bits are shifted as a signed number and never become zero. *)
Theorem pack_meas_exact m : meas_wf m →
  PackMeas.make (flag m) (time m) (value m) =
  if bool_decide (value m < 2 ^ 63 ∧ (length (meas_bytes m) <= 20)%nat) then Ok (meas_bytes m) else UB.
Proof.
  intros Hm. rewrite pack_meas by done. case_bool_decide as Hs.
  - assert (E : sendable m = true); [|by rewrite E]. destruct Hs as [Hv Hl].
    apply andb_true_iff. split; [by apply Z.ltb_lt|by apply Nat.leb_le].
  - assert (E : sendable m = false); [|by rewrite E]. apply not_true_is_false. intros [Hv Hl]%andb_true_iff.
    apply Hs. split; [by apply Z.ltb_lt|by apply Nat.leb_le].
Qed.

(** One half, minus one, and a flag with a late time. *)
Lemma pack_meas_exact_witness :
  PackMeas.make 0 0 0x3fe0000000000000 = Ok [0; 0; 128; 128; 128; 128; 128; 128; 128; 240; 63] ∧
  PackMeas.make 0 0 0xbff0000000000000 = UB ∧
  PackMeas.make (2 ^ 32 - 1) (2 ^ 64 - 1) 0x3fe0000000000000 = UB.
Proof.
  assert (Hw : ∀ f t v, 0 <= f < 2 ^ 32 → 0 <= t < 2 ^ 64 → 0 <= v < 2 ^ 64 → meas_wf (mkMeas 1 t v f)).
  { intros f t v Hf Ht Hv. unfold meas_wf, is_id, is_time, is_value, is_flag. cbn. lia. }
  split; [|split].
  - etransitivity; [apply (pack_meas_exact (mkMeas 1 0 0x3fe0000000000000 0)); apply Hw; lia|by vm_compute].
  - etransitivity; [apply (pack_meas_exact (mkMeas 1 0 0xbff0000000000000 0)); apply Hw; lia|by vm_compute].
  - etransitivity; [apply (pack_meas_exact (mkMeas 1 (2 ^ 64 - 1) 0x3fe0000000000000 (2 ^ 32 - 1))); apply Hw; lia|by vm_compute].
Defined.
