(* ===== verification/NetServer.v ===== *)
(** * The server of the network

    [network/common/async_connection.cpp] on the bytes of a socket, [libserver/ioclient.cpp],
    [subscribecallback.cpp] and the part of [libserver/server.cpp] that is not sockets,
    threads and signals.  A handler is run for a message and to its end: a query of an
    interval, which the pool of threads works on, is over with it.  A write to a socket
    is over when [send] returns, and its bytes are together on the stream, so that
    [_messages_to_send] is zero between calls.  The storage is any [IEngine]. *)

From Stdlib Require Import ZArith Lia String.
From stdpp Require Import base numbers list gmap strings.
From S2P Require Import Prelude Float64 Meas Stat StdSort ICursor FullCursor Chunk Cursors Storages.
From S2P Require Import PageFormat Engine Shard NetData.

Local Open Scope Z_scope.

(** ** Connections *)

(** A socket, with all that was written to it. *)
Record socket := mkSocket { is_open : bool; written : list Z }.

Module AsyncConnection.

(** [_sock]: there is a socket.  The constructor does not set [_begin_stoping_flag]. *)
Record t := mk {
  _async_con_id : Z;
  _is_stoped : bool;
  _begin_stoping_flag : bool;
  _sock : bool;
}.

Definition make (raw_flag : bool) : t := mk 0 true raw_flag false.

Definition set_id (i : Z) (c : t) : t := mk i (_is_stoped c) (_begin_stoping_flag c) (_sock c).

Definition start (c : t) : t :=
  if negb (_is_stoped c) then c else mk (_async_con_id c) false false true.

Definition mark_stoped (c : t) : t := mk (_async_con_id c) (_is_stoped c) true (_sock c).

Definition full_stop (c : t) (sock : socket) : t * socket :=
  let c := mark_stoped c in
  (c, if _sock c && is_open sock then mkSocket false (written sock) else sock).

(** Nothing is written to a closed socket. *)
Definition send (c : t) (d : NetData.t) (sock : socket) : socket :=
  if negb (_begin_stoping_flag c) && _sock c && is_open sock
  then mkSocket true (written sock ++ NetData.as_buffer d) else sock.

End AsyncConnection.

(** ** Readers *)

Module ClientDataReader.

(** [_buffer] has the measurements up to [pos]; [_parent]: it is not null. *)
Record t := mk {
  _parent : bool;
  _query_num : Z;
  _buffer : list Meas;
  is_needed : bool;
  is_end_called : bool;
  is_cancel : bool;
}.

Definition BUFFER_LENGTH : nat := 2730.

Definition make (query_num : Z) : t := mk true query_num [] true false false.

Definition set_buffer (b : list Meas) (r : t) : t :=
  mk (_parent r) (_query_num r) b (is_needed r) (is_end_called r) (is_cancel r).

(** The messages [send_buffer] sends, from the [writed]-th measurement on; each has
    one measurement at least. *)
Fixpoint messages (fuel : nat) (writed : nat) (r : t) : outcome (list NetData.t) :=
  if (writed =? length (_buffer r))%nat then Ok []
  else if negb (_parent r) then Ok []
  else
    match fuel with
    | O => Diverge
    | S fuel =>
      '(nd, count) ← QueryAppend.append_message (_query_num r) (_buffer r) writed;
      l ← messages fuel (writed + Z.to_nat count) r;
      Ok (nd :: l)
    end.

Definition send_buffer (r : t) : outcome (list NetData.t * t) :=
  if (length (_buffer r) =? 0)%nat then Ok ([], r)
  else l ← messages (length (_buffer r)) 0 r; Ok (l, set_buffer [] r).

Definition apply (m : Meas) (r : t) : outcome (list NetData.t * t) :=
  '(l, r) ← (if (length (_buffer r) =? BUFFER_LENGTH)%nat then send_buffer r else Ok ([], r));
  Ok (l, set_buffer (_buffer r ++ [m]) r).

(** The message after all others. *)
Definition end_message (query_num : Z) : NetData.t :=
  NetData.mk (Z.of_nat (size_of QueryAppend_header)) (bytes_of (mkAppend (kind_number APPEND) query_num 0)).

Definition is_end (r : t) : outcome (list NetData.t * t) :=
  '(l, r) ← send_buffer r;
  if negb (_parent r) then UB
  else Ok (l ++ [end_message (_query_num r)], mk false (_query_num r) (_buffer r) false true (is_cancel r)).

End ClientDataReader.

(** ** Clients of the server *)

Definition PING_TIMER_INTERVAL : Z := 1000.

Module IOClient.

Record t := mk {
  _last_query_time : Z;
  sock : socket;
  host : list Z;
  state : CLIENT_STATE;
  pings_missed : Z;
  (** the number of the query of the callback *)
  subscribe_reader : option Z;
  _async_connection : option AsyncConnection.t;
  _readers : gmap Z ClientDataReader.t;
}.

Definition set_time (now : Z) (c : t) : t :=
  mk now (sock c) (host c) (state c) (pings_missed c) (subscribe_reader c) (_async_connection c) (_readers c).
Definition set_sock (k : socket) (c : t) : t :=
  mk (_last_query_time c) k (host c) (state c) (pings_missed c) (subscribe_reader c) (_async_connection c) (_readers c).
Definition set_host (h : list Z) (c : t) : t :=
  mk (_last_query_time c) (sock c) h (state c) (pings_missed c) (subscribe_reader c) (_async_connection c) (_readers c).
Definition set_state (st : CLIENT_STATE) (c : t) : t :=
  mk (_last_query_time c) (sock c) (host c) st (pings_missed c) (subscribe_reader c) (_async_connection c) (_readers c).
Definition set_pings (n : Z) (c : t) : t :=
  mk (_last_query_time c) (sock c) (host c) (state c) n (subscribe_reader c) (_async_connection c) (_readers c).
Definition set_subscribe (r : option Z) (c : t) : t :=
  mk (_last_query_time c) (sock c) (host c) (state c) (pings_missed c) r (_async_connection c) (_readers c).
Definition set_connection (a : option AsyncConnection.t) (c : t) : t :=
  mk (_last_query_time c) (sock c) (host c) (state c) (pings_missed c) (subscribe_reader c) a (_readers c).
Definition set_readers (rs : gmap Z ClientDataReader.t) (c : t) : t :=
  mk (_last_query_time c) (sock c) (host c) (state c) (pings_missed c) (subscribe_reader c) (_async_connection c) rs.

(** On a socket that was just accepted. *)
Definition make (raw_flag : bool) (now : Z) (i : Z) : t :=
  mk now (mkSocket true []) [] CONNECT 0 None (Some (AsyncConnection.set_id i (AsyncConnection.make raw_flag))) ∅.

Definition start (c : t) : outcome t :=
  match _async_connection c with
  | None => UB
  | Some a => Ok (set_connection (Some (AsyncConnection.start a)) c)
  end.

(** [_async_connection->send(nd)] *)
Definition send (nd : NetData.t) (c : t) : outcome t :=
  match _async_connection c with
  | None => UB
  | Some a => Ok (set_sock (AsyncConnection.send a nd (sock c)) c)
  end.

Definition send_all (l : list NetData.t) (c : t) : outcome t := foldM (fun c nd => send nd c) l c.

Definition end_session (c : t) : outcome t :=
  if decide (state c = DISCONNETION_START) then Ok c
  else
    let c := set_state DISCONNETION_START c in
    if is_open (sock c) then send (NetData.make_kind DISCONNECT) c else Ok c.

(** The search starts again after each reader it erases. *)
Definition readersEraseUnneeded (c : t) : t :=
  set_readers (base.filter (fun kv => ClientDataReader.is_needed kv.2 = true) (_readers c)) c.

(** [insert] leaves a reader that has the number. *)
Definition readerAdd (r : ClientDataReader.t) (c : t) : t :=
  let i := ClientDataReader._query_num r in
  readersEraseUnneeded
    (set_readers (match _readers c !! i with Some _ => _readers c | None => <[i := r]> (_readers c) end) c).

Definition readerRemove_unsafe (number : Z) (c : t) : outcome t :=
  match _readers c !! number with
  | None => Throw
  | Some _ => Ok (set_readers (delete number (_readers c)) c)
  end.

Definition readerRemove (number : Z) (c : t) : outcome t :=
  c ← readerRemove_unsafe number c; Ok (readersEraseUnneeded c).

(** The element the iterator is at is erased, and the iterator then moved on. *)
Definition readerClear (c : t) : outcome t :=
  let c := readersEraseUnneeded c in
  if decide (_readers c = ∅) then Ok c else UB.

Definition close (c : t) : outcome t :=
  if decide (state c = DISCONNECTED) then Ok c
  else
    c ← readerClear (set_state DISCONNECTED c);
    match _async_connection c with
    | None => Ok c
    | Some a =>
      let '(_, k) := AsyncConnection.full_stop a (sock c) in
      Ok (set_connection None (set_sock k c))
    end.

Definition ping (now : Z) (c : t) : outcome t :=
  if u64 (now - _last_query_time c) <? PING_TIMER_INTERVAL then Ok c
  else send (NetData.make_kind PING) (set_pings (pings_missed c + 1) c).

Definition onNetworkError (c : t) : outcome t :=
  if decide (state c ≠ DISCONNECTED ∧ state c ≠ DISCONNETION_START) then
    match _async_connection c with None => UB | Some _ => close c end
  else Ok c.

Definition ok_message (query_num : Z) : NetData.t :=
  NetData.mk (Z.of_nat (size_of QueryOk_header)) (bytes_of (mkOk (kind_number OK) query_num)).

Definition sendOk (query_num : Z) (c : t) : outcome t := send (ok_message query_num) c.

(** The message has the kind [OK]. *)
Definition error_message (query_num : Z) (err : ERRORS) : NetData.t :=
  NetData.mk (Z.of_nat (size_of QueryError_header)) (bytes_of (mkError (kind_number OK) query_num (error_number err))).

Definition sendError (query_num : Z) (err : ERRORS) (c : t) : outcome t := send (error_message query_num err) c.

(** *** A reader of the client *)

(** The reader of a query sends through the client it belongs to. *)
Definition on_reader (query_num : Z) (f : ClientDataReader.t → outcome (list NetData.t * ClientDataReader.t)) (c : t)
  : outcome t :=
  match _readers c !! query_num with
  | None => UB
  | Some r => '(l, r) ← f r; send_all l (set_readers (<[query_num := r]> (_readers c)) c)
  end.

(** The callback a storage is given is the reader; the state of a callback is the client
    with it. *)
Definition reader_callback (query_num : Z) : IReadCallback (outcome t) := {|
  is_canceled k := match k with
    | Ok c => match _readers c !! query_num with Some r => ClientDataReader.is_cancel r | None => false end
    | _ => false
    end;
  callback m k := c ← k; on_reader query_num (ClientDataReader.apply m) c;
|}.

Definition reader_end (query_num : Z) (k : outcome t) : outcome t :=
  c ← k; on_reader query_num ClientDataReader.is_end c.

(** [SubscribeCallback::send_buffer] *)
Definition subscribe_send_buffer (query_num : Z) (m : Meas) (c : t) : outcome t :=
  '(nd, _) ← QueryAppend.append_message query_num [m] 0; send nd c.

End IOClient.

(** ** Subscriptions *)

(** A callback a storage has for a client; [sc_calls] are the measurements [apply] is to
    send. *)
Record SubscribeCallback := mkSubscribeCallback { sc_parent : Z; sc_query_num : Z; sc_calls : list Meas }.

#[export] Instance SubscribeCallback_IReadCallback : IReadCallback SubscribeCallback := {
  is_canceled k := false;
  callback m k := mkSubscribeCallback (sc_parent k) (sc_query_num k) (sc_calls k ++ [m]);
}.

(** [IEngine::subscribe], and the callbacks the storage has. *)
Class ISubscribe (E : Type) := {
  sb_subscribe : list Z → Z → SubscribeCallback → E → outcome E;
  sb_callbacks : E → list SubscribeCallback;
  sb_set_callbacks : list SubscribeCallback → E → E;
}.

#[export] Instance Engine_ISubscribe {A} : ISubscribe (Engine.t A SubscribeCallback) := {
  sb_subscribe := Engine.subscribe;
  sb_callbacks := Engine._clbks;
  sb_set_callbacks ks s := Engine.set_subscribe (Engine._subscribe_notify s) ks s;
}.

(** [append] and the readers of an engine. *)
Definition IEngine_writer {E} `{IEngine E} : IMeasWriter E := {| mw_append := ie_append |}.
Definition IEngine_source {E} `{IEngine E} : IMeasSource E (cursor Chunk.cursor) := {|
  ms_minMaxTime i e := '(found, mn, mx, e) ← ie_minMaxTime i e; Ok (if found : bool then Some (mn, mx) else None, e);
  ms_intervalReader := ie_intervalReader;
  ms_readTimePoint := ie_readTimePoint;
  ms_currentValue := ie_currentValue;
|}.

(** ** The server *)

Definition MAX_MISSED_PINGS : Z := 100.

Module Server.

(** [_ping_timer]: it was set and has not fired. *)
Record t (E : Type) := mk {
  _clients : gmap Z IOClient.t;
  _next_client_id : Z;
  _connections_accepted : Z;
  total_writed : Z;
  _writes_in_progress : Z;
  _stop_flag : bool;
  _in_stop_logic : bool;
  _ping_timer : bool;
  storage : option E;
}.
Arguments mk {E} _ _ _ _ _ _ _ _ _.
Arguments _clients {E} _.
Arguments _next_client_id {E} _.
Arguments _connections_accepted {E} _.
Arguments total_writed {E} _.
Arguments _writes_in_progress {E} _.
Arguments _stop_flag {E} _.
Arguments _in_stop_logic {E} _.
Arguments _ping_timer {E} _.
Arguments storage {E} _.

Section Server.
Context {E : Type} `{!IEngine E} `{!ISubscribe E} `{UnorderedMap}.
Implicit Types s : t E.

Definition set_clients (m : gmap Z IOClient.t) s : t E :=
  mk m (_next_client_id s) (_connections_accepted s) (total_writed s) (_writes_in_progress s) (_stop_flag s)
    (_in_stop_logic s) (_ping_timer s) (storage s).
Definition set_accepted (n : Z) s : t E :=
  mk (_clients s) (_next_client_id s) n (total_writed s) (_writes_in_progress s) (_stop_flag s)
    (_in_stop_logic s) (_ping_timer s) (storage s).
Definition set_writes (total writes : Z) s : t E :=
  mk (_clients s) (_next_client_id s) (_connections_accepted s) total writes (_stop_flag s)
    (_in_stop_logic s) (_ping_timer s) (storage s).
Definition set_flags (stop logic timer : bool) s : t E :=
  mk (_clients s) (_next_client_id s) (_connections_accepted s) (total_writed s) (_writes_in_progress s) stop
    logic timer (storage s).
Definition set_storage_ptr (e : option E) s : t E :=
  mk (_clients s) (_next_client_id s) (_connections_accepted s) (total_writed s) (_writes_in_progress s)
    (_stop_flag s) (_in_stop_logic s) (_ping_timer s) e.

(** The constructor; [total_writed] is not set by it. *)
Definition make (raw_total : Z) : t E := mk ∅ 1 0 raw_total 0 false false false None.

(** [set_storage]; [log_server_info_internal] takes the count of writes. *)
Definition set_storage (e : E) s : t E := set_writes 0 (_writes_in_progress s) (set_storage_ptr (Some e) s).

Definition stop s : t E := set_flags true (_in_stop_logic s) (_ping_timer s) s.

(** The client with the number, which is there. *)
Definition with_client (i : Z) (f : IOClient.t → outcome IOClient.t) s : outcome (t E) :=
  match _clients s !! i with
  | None => UB
  | Some c => c ← f c; Ok (set_clients (<[i := c]> (_clients s)) s)
  end.

Definition with_storage {X} (f : E → outcome (X * E)) s : outcome (X * t E) :=
  match storage s with
  | None => UB
  | Some e => '(x, e) ← f e; Ok (x, set_storage_ptr (Some e) s)
  end.

(** [handle_accept] without an error. *)
Definition handle_accept (raw_flag : bool) (now : Z) s : outcome (t E) :=
  if _in_stop_logic s then Ok s
  else
    let cur_id := _next_client_id s in
    c ← IOClient.start (IOClient.make raw_flag now cur_id);
    Ok (mk (match _clients s !! cur_id with Some _ => _clients s | None => <[cur_id := c]> (_clients s) end)
          (cur_id + 1) (_connections_accepted s) (total_writed s) (_writes_in_progress s) (_stop_flag s)
          (_in_stop_logic s) (_ping_timer s) (storage s)).

Definition addWritedCount (count : Z) s : t E := set_writes (u64 (total_writed s + count)) (_writes_in_progress s) s.
Definition write_begin s : t E := set_writes (total_writed s) (_writes_in_progress s + 1) s.
Definition write_end s : t E := set_writes (total_writed s) (_writes_in_progress s - 1) s.

Definition client_connect (i : Z) s : outcome (t E) :=
  match _clients s !! i with
  | None => Throw
  | Some c =>
    Ok (set_clients (<[i := IOClient.set_state WORK c]> (_clients s))
          (set_accepted (u64 (_connections_accepted s + 1)) s))
  end.

(** The destructor of the client closes it. *)
Definition client_disconnect (i : Z) s : outcome (t E) :=
  match _clients s !! i with
  | None => Ok s
  | Some c =>
    _ ← IOClient.close c;
    Ok (set_clients (delete i (_clients s)) (set_accepted (u64 (_connections_accepted s - 1)) s))
  end.

Definition reset_ping_timer s : t E := set_flags (_stop_flag s) (_in_stop_logic s) true s.

(** [ping_all], called when the timer fires; the clients to remove are collected first. *)
Definition ping_one (now : Z) (p : t E * list Z) (kv : Z * IOClient.t) : outcome (t E * list Z) :=
  let '(s, to_remove) := p in
  let '(i, c) := kv in
  if decide (IOClient.state c = CONNECT) then Ok (s, to_remove)
  else if bool_decide (MAX_MISSED_PINGS < IOClient.pings_missed c) || bool_decide (IOClient.state c = DISCONNECTED) then
    s ← with_client i IOClient.close s; Ok (s, to_remove ++ [i])
  else s ← with_client i (IOClient.ping now) s; Ok (s, to_remove).

Definition ping_all (now : Z) s : outcome (t E) :=
  let s := set_flags (_stop_flag s) (_in_stop_logic s) false s in
  if decide (_clients s = ∅) then Ok s
  else if _in_stop_logic s then Ok s
  else
    '(s, to_remove) ← foldM (ping_one now) (um_list (_clients s)) (s, []);
    s ← foldM (fun s i => client_disconnect i s) to_remove s;
    Ok (reset_ping_timer s).

Definition disconnect_all s : outcome (t E) :=
  s ← foldM (fun s (kv : Z * IOClient.t) => with_client kv.1 (fun c =>
        if decide (IOClient.state c = DISCONNECTED) then Ok c else IOClient.end_session c) s) (um_list (_clients s)) s;
  s ← foldM (fun s (kv : Z * IOClient.t) => with_client kv.1 (fun c =>
        if decide (IOClient.state c = DISCONNECTED) then Ok c
        else match IOClient._async_connection c with None => UB | Some _ => IOClient.close c end) s)
      (um_list (_clients s)) s;
  Ok (set_clients ∅ s).

(** [on_stop], called by [start] when the flag is set; it waits for the writes. *)
Definition on_stop s : outcome (t E) :=
  if negb (_writes_in_progress s =? 0) then Diverge
  else
    s ← disconnect_all (set_flags (_stop_flag s) true false s);
    Ok (set_flags (_stop_flag s) false (_ping_timer s) (set_storage_ptr None s)).

(** *** Queries of a client *)

(** [SubscribeCallback::apply], for the callbacks that were called. *)
Definition send_calls (k : SubscribeCallback) s : outcome (t E) :=
  foldM (fun s m => with_client (sc_parent k) (IOClient.subscribe_send_buffer (sc_query_num k) m) s) (sc_calls k) s.

Definition forget_calls (k : SubscribeCallback) : SubscribeCallback :=
  mkSubscribeCallback (sc_parent k) (sc_query_num k) [].

Definition notify s : outcome (t E) :=
  match storage s with
  | None => UB
  | Some e =>
    s ← foldM (fun s k => send_calls k s) (sb_callbacks e) s;
    Ok (set_storage_ptr (Some (sb_set_callbacks (forget_calls <$> sb_callbacks e) e)) s)
  end.

(** [append] of the storage calls the subscribers of each measurement. *)
Definition storage_append (m : Meas) s : outcome (Status * t E) :=
  '(st, s) ← with_storage (ie_append m) s; s ← notify s; Ok (st, s).

#[local] Instance storage_writer : IMeasWriter (t E) := {| mw_append := storage_append |}.

(** [IOClient::append] *)
Definition append (i : Z) (d : NetData.t) s : outcome (t E) :=
  let query_num := ap_id (header_of QueryAppend_header d) in
  ma ← QueryAppend.read_measarray d;
  '(ar, s) ← append_range ma (addWritedCount (Z.of_nat (length ma)) s);
  let s := write_end s in
  if negb (ignored ar =? 0) then with_client i (IOClient.sendError query_num APPEND_ERROR_CODE) s
  else with_client i (IOClient.sendOk query_num) s.

(** [count] bytes of the array from the [n]-th on. *)
Definition bytes_at (n count : nat) (d : NetData.t) : outcome (list Z) :=
  if Z.of_nat (n + count) <=? NetData.MAX_MESSAGE_SIZE then Ok (take count (drop n (NetData.all_data d))) else UB.

(** The identifiers after a header of [n] bytes. *)
Definition ids_of (n : nat) (count : Z) (d : NetData.t) : outcome (list Z) :=
  bs ← bytes_at n (4 * Z.to_nat count) d;
  Ok ((fun k => of_le (take 4 (drop (4 * k) bs))) <$> seq 0 (Z.to_nat count)).

(** A reader for the client, and the storage gives it what it has. *)
Definition run_reader (i query_num : Z) (f : outcome IOClient.t → E → outcome (outcome IOClient.t * E)) s
  : outcome (t E) :=
  match _clients s !! i with
  | None => UB
  | Some c =>
    let c := IOClient.readerAdd (ClientDataReader.make query_num) c in
    '(k, s) ← with_storage (f (Ok c)) s;
    c ← k;
    Ok (set_clients (<[i := c]> (_clients s)) s)
  end.

(** The pool runs the task of [foreach] once for each identifier. *)
Definition readInterval (i : Z) (d : NetData.t) s : outcome (t E) :=
  let hdr := header_of QueryInterval_header d in
  all_ids ← ids_of (size_of QueryInterval_header) (in_ids_count hdr) d;
  let query_num := in_id hdr in
  if in_to hdr <=? in_from hdr then with_client i (IOClient.sendError query_num WRONG_QUERY_PARAM_FROM_GE_TO) s
  else
    let qi := mkQueryInterval all_ids (in_flag hdr) (in_from hdr) (in_to hdr) 0 in
    run_reader i query_num (fun k e =>
      IEngine.foreach (IMeasSource0 := IEngine_source) (H0 := IOClient.reader_callback query_num) (IOClient.reader_end query_num)
        (S (length all_ids)) qi k e) s.

Definition readTimePoint (i : Z) (d : NetData.t) s : outcome (t E) :=
  let hdr := header_of QueryTimePoint_header d in
  all_ids ← ids_of (size_of QueryTimePoint_header) (tp_ids_count hdr) d;
  let query_num := tp_id hdr in
  let qp := mkQueryTimePoint all_ids (tp_flag hdr) (tp_tp hdr) in
  run_reader i query_num (fun k e =>
    IEngine.foreach_point (IMeasSource0 := IEngine_source) (H0 := IOClient.reader_callback query_num) (IOClient.reader_end query_num)
      qp k e) s.

Definition currentValue (i : Z) (d : NetData.t) s : outcome (t E) :=
  let hdr := header_of QueryCurrentValue_header d in
  all_ids ← ids_of (size_of QueryCurrentValue_header) (cv_ids_count hdr) d;
  let query_num := cv_id hdr in
  run_reader i query_num (fun k e =>
    '(result, e) ← ie_currentValue all_ids (cv_flag hdr) e;
    Ok (IOClient.reader_end query_num
          (fold_left (fun k (v : Z * Meas) => callback (IReadCallback := IOClient.reader_callback query_num) v.2 k)
             (um_list result) k), e)) s.

(** The callback of the first subscription is used for the others too. *)
Definition subscribe (i : Z) (d : NetData.t) s : outcome (t E) :=
  let hdr := header_of QueryCurrentValue_header d in
  all_ids ← ids_of (size_of QueryCurrentValue_header) (cv_ids_count hdr) d;
  match _clients s !! i with
  | None => UB
  | Some c =>
    let query_num := default (cv_id hdr) (IOClient.subscribe_reader c) in
    let c := IOClient.set_subscribe (Some query_num) c in
    '(_, s) ← with_storage (fun e =>
        e ← sb_subscribe all_ids (cv_flag hdr) (mkSubscribeCallback i query_num []) e; Ok (tt, e))
      (set_clients (<[i := c]> (_clients s)) s);
    Ok s
  end.

(** [HELLO] with the version of the server. *)
Definition hello (i : Z) (d : NetData.t) s : outcome (t E) :=
  let hdr := header_of QueryHello_header d in
  name ← bytes_at (size_of QueryHello_header) (Z.to_nat (he_host_size hdr)) d;
  s ← with_client i (fun c => Ok (IOClient.set_host name c)) s;
  s ← client_connect i s;
  with_client i (IOClient.send (NetData.mk (1 + 4) (bytes_of (mkOk (kind_number HELLO) i)))) s.

(** [onDataRecv] for the client [i]; [true]: nothing more is read from it. *)
Definition onDataRecv (now i : Z) (d : NetData.t) s : outcome (bool * t E) :=
  s ← with_client i (fun c => Ok (IOClient.set_time now c)) s;
  let accept (f : t E → outcome (t E)) := if _in_stop_logic s then Ok (false, s) else s ← f s; Ok (false, s) in
  match kind_of (nth 0 (NetData.all_data d) 0) with
  | Some APPEND => accept (fun s => append i d (write_begin s))
  | Some PONG => s ← with_client i (fun c => Ok (IOClient.set_pings (IOClient.pings_missed c - 1) c)) s; Ok (false, s)
  | Some DISCONNECT =>
    s ← with_client i IOClient.end_session s; s ← client_disconnect i s; Ok (true, s)
  | Some READ_INTERVAL => accept (fun s =>
      s ← with_client i (IOClient.sendOk (in_id (header_of QueryInterval_header d))) s; readInterval i d s)
  | Some READ_TIMEPOINT => accept (fun s =>
      s ← with_client i (IOClient.sendOk (tp_id (header_of QueryTimePoint_header d))) s; readTimePoint i d s)
  | Some CURRENT_VALUE => accept (fun s =>
      s ← with_client i (IOClient.sendOk (cv_id (header_of QueryCurrentValue_header d))) s; currentValue i d s)
  | Some SUBSCRIBE => accept (fun s =>
      s ← with_client i (IOClient.sendOk (cv_id (header_of QueryCurrentValue_header d))) s; subscribe i d s)
  | Some HELLO => accept (fun s =>
      if negb (he_version (header_of QueryHello_header d) =? PROTOCOL_VERSION) then
        with_client i (fun c => c ← IOClient.sendError 0 WRONG_PROTOCOL_VERSION c; Ok (IOClient.set_state DISCONNECTED c)) s
      else hello i d s)
  | _ => Ok (false, s)
  end.

End Server.
End Server.
