(* ===== verification/NetClient.v ===== *)
(** * The client of the network, and the two together

    [network/libclient/client.h] and [client.cpp] without the resolver, the thread and
    the HTTP requests.  A call that waits for an answer lets the server and the client
    handle what was sent; it does not return when the answer is not among it.  [Link] is
    a server and one of its clients. *)

From Stdlib Require Import ZArith Lia String.
From stdpp Require Import base numbers list gmap strings.
From S2P Require Import Prelude Float64 Meas Stat StdSort ICursor Storages.
From S2P Require Import PageFormat Engine Shard NetData NetServer.

Local Open Scope Z_scope.

(** ** Results *)

(** [locked]: the state of [locker]; [calls]: the calls of [clbk], with [is_closed] at the
    time.  An append has no callback. *)
Record ReadResult := mkReadResult {
  rr_id : Z;
  rr_kind : DATA_KINDS;
  locked : bool;
  is_ok : bool;
  is_closed : bool;
  is_error : bool;
  errc : Z;
  clbk : bool;
  calls : list (bool * Meas);
}.

(** [locker.lock()], when it is not locked, and [locker.unlock()] *)
Definition lock (r : ReadResult) : ReadResult :=
  mkReadResult (rr_id r) (rr_kind r) true (is_ok r) (is_closed r) (is_error r) (errc r) (clbk r) (calls r).

Definition unlock (r : ReadResult) : ReadResult :=
  mkReadResult (rr_id r) (rr_kind r) false (is_ok r) (is_closed r) (is_error r) (errc r) (clbk r) (calls r).

Definition accepted (r : ReadResult) : ReadResult :=
  mkReadResult (rr_id r) (rr_kind r) (locked r) true (is_closed r) (is_error r) (errc r) (clbk r) (calls r).

Definition failed (err : Z) (r : ReadResult) : ReadResult :=
  mkReadResult (rr_id r) (rr_kind r) (locked r) (is_ok r) true true err (clbk r) (calls r).

Definition closed (r : ReadResult) : ReadResult :=
  mkReadResult (rr_id r) (rr_kind r) (locked r) (is_ok r) true (is_error r) (errc r) (clbk r) (calls r).

(** An empty [std::function] throws. *)
Definition call (m : Meas) (r : ReadResult) : outcome ReadResult :=
  if clbk r then
    Ok (mkReadResult (rr_id r) (rr_kind r) (locked r) (is_ok r) (is_closed r) (is_error r) (errc r) (clbk r)
          (calls r ++ [(is_closed r, m)]))
  else Throw.

(** What the callbacks of the calls that wait keep. *)
Definition given (r : ReadResult) : list Meas := (base.filter (fun x : bool * Meas => x.1 = false) (calls r)).*2.

(** ** The client *)

Module Client.

(** Results are shared objects: [results] has them by address. *)
Record t := mk {
  _state : CLIENT_STATE;
  _pings_answers : Z;
  _query_num : Z;
  _query_results : gmap Z nat;
  results : list ReadResult;
  _async_connection : AsyncConnection.t;
  _socket : socket;
}.

Definition set_state (st : CLIENT_STATE) (c : t) : t :=
  mk st (_pings_answers c) (_query_num c) (_query_results c) (results c) (_async_connection c) (_socket c).
Definition set_queries (n : Z) (m : gmap Z nat) (rs : list ReadResult) (c : t) : t :=
  mk (_state c) (_pings_answers c) n m rs (_async_connection c) (_socket c).
Definition set_connection (a : AsyncConnection.t) (k : socket) (c : t) : t :=
  mk (_state c) (_pings_answers c) (_query_num c) (_query_results c) (results c) a k.
Definition set_pings (n : Z) (c : t) : t :=
  mk (_state c) n (_query_num c) (_query_results c) (results c) (_async_connection c) (_socket c).

Definition make (raw_flag : bool) : t :=
  mk CONNECT 0 1 ∅ [] (AsyncConnection.make raw_flag) (mkSocket false []).

Definition send (nd : NetData.t) (c : t) : t :=
  set_connection (_async_connection c) (AsyncConnection.send (_async_connection c) nd (_socket c)) c.

(** [_query_results[query_num]] is the null pointer when there is none. *)
Definition with_result (query_num : Z) (f : ReadResult → outcome ReadResult) (c : t) : outcome t :=
  match _query_results c !! query_num with
  | None => UB
  | Some a =>
    match results c !! a with
    | None => UB
    | Some r => r ← f r; Ok (set_queries (_query_num c) (_query_results c) (<[a := r]> (results c)) c)
    end
  end.

Definition erase (query_num : Z) (c : t) : t :=
  set_queries (_query_num c) (delete query_num (_query_results c)) (results c) c.

(** [Meas()] *)
Definition no_meas : Meas := mkMeas 0 0 0 0.

(** The answer with measurements; without any it is the last. *)
Definition on_append (d : NetData.t) (c : t) : outcome t :=
  let hdr := header_of QueryAppend_header d in
  if ap_count hdr =? 0 then
    c ← with_result (ap_id hdr) (fun r => r ← call no_meas (closed r); Ok (unlock r)) c;
    Ok (erase (ap_id hdr) c)
  else
    match _query_results c !! ap_id hdr with
    | None => UB
    | Some _ => ma ← QueryAppend.read_measarray d; with_result (ap_id hdr) (foldM (fun r v => call v r) ma) c
    end.

(** [true]: nothing more is read. *)
Definition onDataRecv (d : NetData.t) (c : t) : outcome (bool * t) :=
  match kind_of (nth 0 (NetData.all_data d) 0) with
  | Some OK =>
    let query_num := ok_id (header_of QueryOk_header d) in
    if decide (_state c = WORK) then
      match _query_results c !! query_num with
      | None => Throw
      | Some _ =>
        c ← with_result query_num (fun r =>
              let r := accepted r in Ok (if decide (rr_kind r = SUBSCRIBE) then unlock r else r)) c;
        Ok (false, c)
      end
    else Throw
  | Some ERR =>
    let hdr := header_of QueryError_header d in
    if decide (_state c = WORK) then
      c ← with_result (er_id hdr) (fun r => Ok (unlock (failed (er_error_code hdr) r))) c;
      Ok (false, erase (er_id hdr) c)
    else Ok (false, c)
  | Some APPEND => c ← on_append d c; Ok (false, c)
  | Some PING => Ok (false, set_pings (_pings_answers c + 1) (send (NetData.make_kind PONG) c))
  | Some DISCONNECT =>
    let '(a, k) := AsyncConnection.full_stop (_async_connection c) (_socket c) in
    Ok (true, set_connection a (mkSocket false (written k)) (set_state DISCONNECTED c))
  | Some HELLO =>
    let i := ok_id (header_of QueryOk_header d) in
    Ok (false, set_state WORK (set_connection (AsyncConnection.set_id i (_async_connection c)) (_socket c) c))
  | _ => Ok (false, c)
  end.

(** Network errors throw, except after a disconnection. *)
Definition onNetworkError (c : t) : outcome t := if decide (_state c = DISCONNECTED) then Ok c else Throw.

(** What is sent when the socket is connected; [hn] is the name of the host. *)
Definition hello_message (hn : list Z) : NetData.t :=
  let size := u16 (u16 (Z.of_nat (length hn)) + Z.of_nat (size_of QueryHello_header)) in
  let total_size := Z.of_nat (length hn) + size in
  let sz := if NetData.MAX_MESSAGE_SIZE <=? total_size then NetData.MAX_MESSAGE_SIZE - size else Z.of_nat (length hn) in
  NetData.mk size (bytes_of (mkHello (kind_number HELLO) PROTOCOL_VERSION sz) ++ take (Z.to_nat sz) hn).

Definition connected (hn : list Z) (c : t) : t :=
  send (hello_message hn) (set_connection (AsyncConnection.start (_async_connection c)) (mkSocket true []) c).

(** A query with identifiers: the beginning of [readInterval], [readTimePoint],
    [currentValue] and [subscribe].  [header] makes the header from the number of the
    query and the number of identifiers. *)
Definition ask {H} `{Packed H} (kind : DATA_KINDS) (header : Z → Z → H) (ids : list Z) (c : t) : outcome (nat * t) :=
  let cur_id := _query_num c in
  let size := Z.of_nat (size_of H) in
  let id_size := 4 * Z.of_nat (length ids) in
  if NetData.MAX_MESSAGE_SIZE <? id_size + size then Throw
  else
    let nd := NetData.mk (u16 (size + u16 id_size))
                (bytes_of (header cur_id (u16 (Z.of_nat (length ids)))) ++ concat (to_le 4 <$> ids)) in
    let qres := mkReadResult cur_id kind true false false false 0 true [] in
    let a := length (results c) in
    Ok (a, send nd (set_queries (u32 (cur_id + 1)) (<[cur_id := a]> (_query_results c)) (results c ++ [qres]) c)).

Definition readInterval (q : QueryInterval) (c : t) : outcome (nat * t) :=
  ask READ_INTERVAL (fun n count => mkInterval (kind_number READ_INTERVAL) n (qi_from q) (qi_to q) (qi_flag q) count) (qi_ids q) c.

Definition readTimePoint (q : QueryTimePoint) (c : t) : outcome (nat * t) :=
  ask READ_TIMEPOINT (fun n count => mkTimePoint (kind_number READ_TIMEPOINT) n (qt_time_point q) (qt_flag q) count) (qt_ids q) c.

Definition currentValue (ids : list Z) (fl : Z) (c : t) : outcome (nat * t) :=
  ask CURRENT_VALUE (fun n count => mkCurrentValue (kind_number CURRENT_VALUE) n fl count) ids c.

Definition subscribe (ids : list Z) (fl : Z) (c : t) : outcome (nat * t) :=
  ask SUBSCRIBE (fun n count => mkCurrentValue (kind_number SUBSCRIBE) n fl count) ids c.

(** One message of [append]: the address of its result and the number of measurements. *)
Definition append_one (ma : list Meas) (writed : nat) (c : t) : outcome (nat * Z * t) :=
  let cur_id := _query_num c in
  let a := length (results c) in
  let qres := mkReadResult cur_id APPEND false false false false 0 false [] in
  '(nd, count) ← QueryAppend.append_message cur_id ma writed;
  Ok (a, count, send nd (set_queries (u32 (cur_id + 1)) (<[cur_id := a]> (_query_results c)) (results c ++ [qres]) c)).

End Client.

(** ** A server and a client *)

Module Link.

(** [up] and [down]: how much of what the client and the server wrote was read. *)
Record t (E : Type) := mk {
  client : Client.t;
  server : Server.t E;
  number : Z;
  up : nat;
  down : nat;
}.
Arguments mk {E} _ _ _ _ _.
Arguments client {E} _.
Arguments server {E} _.
Arguments number {E} _.
Arguments up {E} _.
Arguments down {E} _.

Section Link.
Context {E : Type} `{!IEngine E} `{!ISubscribe E} `{UnorderedMap}.
(** the time at the server *)
Variable now : Z.
Implicit Types n : t E.

Definition set_client (c : Client.t) n : t E := mk c (server n) (number n) (up n) (down n).

Definition to_server n : list Z := drop (up n) (written (Client._socket (client n))).
Definition to_client n : list Z :=
  match Server._clients (server n) !! number n with
  | None => []
  | Some c => drop (down n) (written (IOClient.sock c))
  end.

(** The number of bytes a message took. *)
Definition taken (stream rest : list Z) : nat := length stream - length rest.

(** The server or the client handles a message; [None]: there is none for either. *)
Definition turn n : outcome (option (t E)) :=
  match read_frame (to_server n) with
  | Some (d, rest) =>
    '(_, s) ← Server.onDataRecv now (number n) d (server n);
    Ok (Some (mk (client n) s (number n) (up n + taken (to_server n) rest) (down n)))
  | None =>
    match read_frame (to_client n) with
    | Some (d, rest) =>
      '(_, c) ← Client.onDataRecv d (client n);
      Ok (Some (mk c (server n) (number n) (up n) (down n + taken (to_client n) rest)))
    | None => Ok None
    end
  end.

(** Until there are none; [fuel] bounds their number. *)
Fixpoint settle (fuel : nat) n : outcome (t E) :=
  match fuel with
  | O => Diverge
  | S fuel => x ← turn n; match x with None => Ok n | Some n => settle fuel n end
  end.

(** A client connects: the server accepts the connection, and both handle what is sent
    until the client works.  [hn] is the name of its host. *)
Definition connect (fuel : nat) (raw_client raw_server : bool) (hn : list Z) (s : Server.t E) : outcome (t E) :=
  let i := Server._next_client_id s in
  s ← Server.handle_accept raw_server now s;
  n ← settle fuel (mk (Client.connected hn (Client.make raw_client)) s i 0 0);
  if decide (Client._state (client n) = WORK) then Ok n else Diverge.

(** [wait] on a result, which locks it again. *)
Definition wait (a : nat) n : outcome (ReadResult * t E) :=
  match Client.results (client n) !! a with
  | None => UB
  | Some r =>
    if locked r then Diverge
    else
      let c := client n in
      Ok (r, set_client (Client.set_queries (Client._query_num c) (Client._query_results c)
                           (<[a := lock r]> (Client.results c)) c) n)
  end.

(** A query and its answer. *)
Definition answer (fuel : nat) (f : Client.t → outcome (nat * Client.t)) n : outcome (ReadResult * t E) :=
  '(a, c) ← f (client n);
  n ← settle fuel (set_client c n);
  wait a n.

(** [result[m.id] = m] *)
Definition by_id (ms : list Meas) : gmap Z Meas := fold_left (fun r m => <[id m := m]> r) ms ∅.

Definition readInterval (fuel : nat) (q : QueryInterval) n : outcome (list Meas * t E) :=
  '(r, n) ← answer fuel (Client.readInterval q) n; Ok (given r, n).
Definition readTimePoint (fuel : nat) (q : QueryTimePoint) n : outcome (gmap Z Meas * t E) :=
  '(r, n) ← answer fuel (Client.readTimePoint q) n; Ok (by_id (given r), n).
Definition currentValue (fuel : nat) (ids : list Z) (fl : Z) n : outcome (gmap Z Meas * t E) :=
  '(r, n) ← answer fuel (Client.currentValue ids fl) n; Ok (by_id (given r), n).
(** The caller waits for the result of its subscription. *)
Definition subscribe (fuel : nat) (ids : list Z) (fl : Z) n : outcome (ReadResult * t E) :=
  answer fuel (Client.subscribe ids fl) n.

(** [append]; [fuel] bounds its messages too. *)
Fixpoint append_from (fuel : nat) (ma : list Meas) (writed : nat) n : outcome (t E) :=
  if (writed =? length ma)%nat then Ok n
  else
    match fuel with
    | O => Diverge
    | S fuel' =>
      '(a, count, c) ← Client.append_one ma writed (client n);
      let cur_id := Client._query_num (client n) in
      n ← settle fuel (set_client c n);
      match Client.results (client n) !! a with
      | None => UB
      | Some r =>
        if negb (is_ok r) && negb (is_error r) then Diverge
        else append_from fuel' ma (writed + Z.to_nat count) (set_client (Client.erase cur_id (client n)) n)
      end
    end.

Definition append (fuel : nat) (ma : list Meas) n : outcome (t E) := append_from fuel ma 0 n.

End Link.
End Link.
