(* ===== verification/NetServerSpec.v ===== *)
(** * The server of the network: what its clients are sent

    What a storage promises to the server, and what the handlers of the server write to
    the socket of a client then: a query is answered with messages that hold what the
    storage has, in its order, and an append with a message for each subscription and the
    acknowledgement. *)

From Stdlib Require Import ZArith Lia String.
From stdpp Require Import base numbers list gmap strings.
From S2P Require Import Prelude Float64 Meas Stat StdSort ICursor FullCursor Chunk Cursors TimeTrackSpec Series Storages.
From S2P Require Import PageFormat PageSpec Engine EngineSpec Shard NetData NetServer.

Local Open Scope Z_scope.

(** ** Messages *)

(** The first byte is the kind, whatever the header. *)
Lemma first_append d : nth 0 (NetData.all_data d) 0 = ap_kind (header_of QueryAppend_header d).
Proof. unfold header_of. destruct (NetData.all_data d) as [|b l]; cbn; rewrite ?take_0; cbn; lia. Qed.
Lemma first_ok d : nth 0 (NetData.all_data d) 0 = ok_kind (header_of QueryOk_header d).
Proof. unfold header_of. destruct (NetData.all_data d) as [|b l]; cbn; rewrite ?take_0; cbn; lia. Qed.
Lemma first_interval d : nth 0 (NetData.all_data d) 0 = in_kind (header_of QueryInterval_header d).
Proof. unfold header_of. destruct (NetData.all_data d) as [|b l]; cbn; rewrite ?take_0; cbn; lia. Qed.
Lemma first_current d : nth 0 (NetData.all_data d) 0 = cv_kind (header_of QueryCurrentValue_header d).
Proof. unfold header_of. destruct (NetData.all_data d) as [|b l]; cbn; rewrite ?take_0; cbn; lia. Qed.

(** A message of the query [qn] with the measurements [ms]. *)
Record carries (qn : Z) (d : NetData.t) (ms : list Meas) : Prop := {
  ca_fits : fits_frame d;
  ca_header : header_of QueryAppend_header d = mkAppend (kind_number APPEND) qn (Z.of_nat (length ms));
  ca_some : ms ≠ [];
  ca_data : QueryAppend.read_measarray d = Ok ms;
}.

(** What can be in a message. *)
Definition clean (m : Meas) : Prop := meas_wf m ∧ sendable m = true.

Lemma append_message_carries qn ms pos : 0 <= qn < 2 ^ 32 → (pos < length ms)%nat → Forall clean (drop pos ms) →
  ∃ d n, QueryAppend.append_message qn ms pos = Ok (d, Z.of_nat n) ∧ (1 <= n <= length ms - pos)%nat ∧
    carries qn d (take n (drop pos ms)).
Proof.
  intros Hq Hp Hms. destruct (append_message_ok qn ms pos Hq Hp Hms) as (d & n & E & Hn & Hf & Hh & Hr).
  exists d, n. split; [done|]. split; [done|].
  assert (Hl : length (take n (drop pos ms)) = n) by (rewrite length_take, length_drop; lia).
  split; [done|by rewrite Hl| |done]. intros E0. rewrite E0 in Hl. cbn in Hl. lia.
Qed.

Lemma received_carries qn d ms : carries qn d ms → carries qn (received d) ms.
Proof.
  intros [F Hh Hn Hr]. pose proof (received_data d F) as Hd.
  split; [|by rewrite (same_data_header _ _ d Hd)|done|by rewrite (same_data_array _ d Hd)].
  destruct F as [F1 F2]. split; cbn [NetData.size NetData.data received]; [|done]. unfold received. cbn. rewrite length_take. lia.
Qed.

(** What is on the stream when messages were sent. *)
Definition wire (ds : list NetData.t) : list Z := concat (NetData.as_buffer <$> ds).

Lemma wire_app l1 l2 : wire (l1 ++ l2) = wire l1 ++ wire l2.
Proof. unfold wire. by rewrite fmap_app, concat_app. Qed.

Lemma wire_one d : wire [d] = NetData.as_buffer d.
Proof. unfold wire. cbn. apply app_nil_r. Qed.

(** ** Sending *)

(** Connections that send. *)
Definition ready (a : AsyncConnection.t) (k : socket) : Prop :=
  AsyncConnection._begin_stoping_flag a = false ∧ AsyncConnection._sock a = true ∧ is_open k = true.

Definition live (c : IOClient.t) : Prop := ∃ a, IOClient._async_connection c = Some a ∧ ready a (IOClient.sock c).

Definition sent (ds : list NetData.t) (c : IOClient.t) : IOClient.t :=
  IOClient.set_sock (mkSocket true (written (IOClient.sock c) ++ wire ds)) c.

Lemma live_sent ds c : live c → live (sent ds c).
Proof. intros (a & Ea & Hf & Hs & _). by exists a. Qed.

Lemma sent_sent l1 l2 c : sent l2 (sent l1 c) = sent (l1 ++ l2) c.
Proof. unfold sent. destruct c. cbn. by rewrite wire_app, app_assoc. Qed.

Lemma sent_nil c : live c → sent [] c = c.
Proof. intros (a & _ & _ & _ & Ho). destruct c as [? [o w]]. cbn in *. subst o. unfold sent. cbn. by rewrite app_nil_r. Qed.

Lemma send_live nd c : live c → IOClient.send nd c = Ok (sent [nd] c).
Proof.
  intros (a & Ea & Hf & Hs & Ho). unfold IOClient.send. rewrite Ea. unfold AsyncConnection.send. rewrite Hf, Hs, Ho. cbn [negb andb].
  unfold sent. by rewrite wire_one.
Qed.

Lemma send_all_live ds c : live c → IOClient.send_all ds c = Ok (sent ds c).
Proof.
  unfold IOClient.send_all. revert c. induction ds as [|d ds IH]; intros c Hc; cbn [foldM]; [by rewrite sent_nil|].
  rewrite send_live, bind_Ok, IH by (done || by apply live_sent). by rewrite sent_sent.
Qed.

(** ** Readers *)

Definition carry_all (qn : Z) (ds : list NetData.t) (ms : list Meas) : Prop :=
  ∃ gs, Forall2 (carries qn) ds gs ∧ concat gs = ms.

Lemma carry_all_app qn d1 d2 m1 m2 : carry_all qn d1 m1 → carry_all qn d2 m2 → carry_all qn (d1 ++ d2) (m1 ++ m2).
Proof. intros (g1 & H1 & <-) (g2 & H2 & <-). exists (g1 ++ g2). by rewrite concat_app; split; [apply Forall2_app|]. Qed.

Lemma messages_ok fuel w r : ClientDataReader._parent r = true → 0 <= ClientDataReader._query_num r < 2 ^ 32 →
  (w <= length (ClientDataReader._buffer r))%nat → (length (ClientDataReader._buffer r) - w <= fuel)%nat →
  Forall clean (ClientDataReader._buffer r) →
  ∃ ds, ClientDataReader.messages fuel w r = Ok ds ∧
    carry_all (ClientDataReader._query_num r) ds (drop w (ClientDataReader._buffer r)).
Proof.
  intros Hp Hq. revert w. induction fuel as [|fuel IH]; intros w Hw Hf Hc.
  - exists []. cbn [ClientDataReader.messages]. rewrite (proj2 (Nat.eqb_eq _ _)) by lia. split; [done|].
    exists []. split; [constructor|]. by rewrite drop_ge by lia.
  - cbn [ClientDataReader.messages]. destruct (Nat.eqb_spec w (length (ClientDataReader._buffer r))) as [->|Hne].
    { exists []. split; [done|]. exists []. split; [constructor|]. by rewrite drop_ge by lia. }
    rewrite Hp. cbn [negb].
    destruct (append_message_carries (ClientDataReader._query_num r) (ClientDataReader._buffer r) w Hq ltac:(lia))
      as (d & n & -> & Hn & Hd); [by apply Forall_drop|].
    rewrite bind_Ok, Nat2Z.id. destruct (IH (w + n)%nat) as (ds & -> & gs & Hds & Eg); [lia|lia|done|]. rewrite bind_Ok.
    exists (d :: ds). split; [done|]. exists (take n (drop w (ClientDataReader._buffer r)) :: gs). split; [by constructor|].
    cbn [concat]. rewrite Eg, <- drop_drop. apply take_drop.
Qed.

Lemma send_buffer_ok r : ClientDataReader._parent r = true → 0 <= ClientDataReader._query_num r < 2 ^ 32 →
  Forall clean (ClientDataReader._buffer r) →
  ∃ ds, ClientDataReader.send_buffer r = Ok (ds, ClientDataReader.set_buffer [] r) ∧
    carry_all (ClientDataReader._query_num r) ds (ClientDataReader._buffer r).
Proof.
  intros Hp Hq Hc. unfold ClientDataReader.send_buffer.
  destruct (Nat.eqb_spec (length (ClientDataReader._buffer r)) 0) as [E%nil_length_inv|Hne].
  - exists []. split; [by destruct r; cbn in *; subst|]. exists []. by rewrite E.
  - destruct (messages_ok (length (ClientDataReader._buffer r)) 0 r Hp Hq) as (ds & -> & Hds); [lia|lia|done|].
    rewrite bind_Ok. by exists ds.
Qed.

(** The client while its reader [qn] is given measurements: [l] were given, those of
    [b] are in the buffer and the others in the messages. *)
Definition reader_with (qn : Z) (b : list Meas) : ClientDataReader.t := ClientDataReader.mk true qn b true false false.

Definition reading (qn : Z) (c0 c : IOClient.t) (l : list Meas) : Prop :=
  ∃ ds b l', c = IOClient.set_readers (<[qn := reader_with qn b]> (IOClient._readers c0)) (sent ds c0) ∧
    carry_all qn ds l' ∧ l = l' ++ b.

Section Reading.
Variable qn : Z.
Variable c0 : IOClient.t.
Hypothesis number_ok : 0 <= qn < 2 ^ 32.
Hypothesis c0_live : live c0.

Abbreviation with_reader r c := (IOClient.set_readers (<[qn := r]> (IOClient._readers c0)) c).

Lemma on_reader_ok f r ds ds' r' : f r = Ok (ds', r') →
  IOClient.on_reader qn f (with_reader r (sent ds c0)) = Ok (with_reader r' (sent (ds ++ ds') c0)).
Proof.
  intros E. unfold IOClient.on_reader. cbn [IOClient._readers IOClient.set_readers]. rewrite lookup_insert_eq, E, bind_Ok, insert_insert_eq.
  rewrite send_all_live; [|by apply (live_sent ds)]. rewrite <- sent_sent. done.
Qed.

Lemma reading_apply c l m : reading qn c0 c l → Forall clean (l ++ [m]) →
  ∃ c', IOClient.on_reader qn (ClientDataReader.apply m) c = Ok c' ∧ reading qn c0 c' (l ++ [m]).
Proof.
  intros (ds & b & l' & -> & Hds & ->) [Hc Hm]%Forall_app.
  destruct (decide (length b = ClientDataReader.BUFFER_LENGTH)) as [Hfull|Hroom].
  - destruct (send_buffer_ok (reader_with qn b)) as (ds' & E & Hds'); [done|done|by apply Forall_app in Hc as [_ ?]|].
    eexists. split.
    + apply on_reader_ok. unfold ClientDataReader.apply. cbn [ClientDataReader._buffer reader_with].
      rewrite (proj2 (Nat.eqb_eq _ _) Hfull). change (ClientDataReader.mk true qn b true false false) with (reader_with qn b).
      rewrite E, bind_Ok. reflexivity.
    + exists (ds ++ ds'), [m], (l' ++ b). split; [done|]. split; [by apply carry_all_app|done].
  - eexists. split.
    + apply on_reader_ok. unfold ClientDataReader.apply. cbn [ClientDataReader._buffer reader_with].
      rewrite (proj2 (Nat.eqb_neq _ _) Hroom). rewrite bind_Ok. reflexivity.
    + exists ds, (b ++ [m]), l'. rewrite app_nil_r, app_assoc. done.
Qed.

#[local] Instance client_callback : IReadCallback (outcome IOClient.t) := IOClient.reader_callback qn.

Lemma reading_not_canceled c l : reading qn c0 c l → is_canceled (Ok c) = false.
Proof. intros (ds & b & l' & -> & _). cbn. by rewrite lookup_insert_eq. Qed.

Lemma reading_callback c l m : reading qn c0 c l → Forall clean (l ++ [m]) →
  ∃ c', callback m (Ok c) = Ok c' ∧ reading qn c0 c' (l ++ [m]).
Proof. intros Hr Hc. destruct (reading_apply c l m Hr Hc) as (c' & E & Hr'). exists c'. split; [|done]. cbn. by rewrite E. Qed.

Lemma reading_feed c l ms : reading qn c0 c l → Forall clean (l ++ ms) →
  ∃ c', feed (Ok c) ms = Ok c' ∧ reading qn c0 c' (l ++ ms).
Proof.
  revert c l. induction ms as [|m ms IH]; intros c l Hr Hc; [exists c; by rewrite app_nil_r|].
  assert (E0 : l ++ m :: ms = (l ++ [m]) ++ ms) by apply (app_assoc l [m] ms). rewrite E0 in Hc |- *. pose proof Hc as [Hcm _]%Forall_app.
  destruct (reading_callback c l m Hr Hcm) as (c1 & E1 & Hr1).
  destruct (IH c1 _ Hr1 Hc) as (c' & E & Hr'). exists c'. split; [|done].
  unfold feed in *. cbn [fold_left]. rewrite (reading_not_canceled c l Hr), E1. exact E.
Qed.

(** The calls without a look at the cancellation. *)
Lemma reading_calls c l ms : reading qn c0 c l → Forall clean (l ++ ms) →
  ∃ c', fold_left (fun k m => callback m k) ms (Ok c) = Ok c' ∧ reading qn c0 c' (l ++ ms).
Proof.
  revert c l. induction ms as [|m ms IH]; intros c l Hr Hc; [exists c; by rewrite app_nil_r|].
  assert (E0 : l ++ m :: ms = (l ++ [m]) ++ ms) by apply (app_assoc l [m] ms). rewrite E0 in Hc |- *. pose proof Hc as [Hcm _]%Forall_app.
  destruct (reading_callback c l m Hr Hcm) as (c1 & E1 & Hr1).
  destruct (IH c1 _ Hr1 Hc) as (c' & E & Hr'). exists c'. split; [|done]. cbn [fold_left]. rewrite E1. exact E.
Qed.

Definition finished : ClientDataReader.t := ClientDataReader.mk false qn [] false true false.

Lemma reading_end c l : reading qn c0 c l → Forall clean l →
  ∃ ds, IOClient.reader_end qn (Ok c) = Ok (with_reader finished (sent (ds ++ [ClientDataReader.end_message qn]) c0)) ∧
    carry_all qn ds l.
Proof.
  intros (ds & b & l' & -> & Hds & ->) Hc.
  destruct (send_buffer_ok (reader_with qn b)) as (ds' & E & Hds'); [done|done|by apply Forall_app in Hc as [_ ?]|].
  exists (ds ++ ds'). split; [|by apply carry_all_app].
  unfold IOClient.reader_end. rewrite bind_Ok, <- app_assoc. apply on_reader_ok. unfold ClientDataReader.is_end. by rewrite E, bind_Ok.
Qed.
End Reading.

(** A reader that was just added. *)
Lemma reading_start qn c : live c → (∀ i r, IOClient._readers c !! i = Some r → ClientDataReader.is_needed r = false) →
  IOClient._readers c !! qn = None →
  reading qn (IOClient.set_readers ∅ c) (IOClient.readerAdd (ClientDataReader.make qn) c) [].
Proof.
  intros Hl Hold Hn. exists [], [], []. split; [|split; [by exists []|done]].
  assert (live (IOClient.set_readers ∅ c)) by by destruct Hl as (a & ? & ?); exists a.
  rewrite sent_nil by done. unfold IOClient.readerAdd, IOClient.readersEraseUnneeded, IOClient.set_readers. cbn. rewrite Hn. f_equal.
  apply map_eq. intros i. destruct (decide (i = qn)) as [->|Hne].
  - rewrite lookup_insert_eq. apply map_lookup_filter_Some. by rewrite lookup_insert_eq.
  - rewrite lookup_insert_ne, lookup_empty by done. apply map_lookup_filter_None. right. intros r Hr. rewrite lookup_insert_ne in Hr by done.
    cbn. by rewrite (Hold i r Hr).
Qed.

(** ** What the storage promises *)

(** An engine that answers from its log, and calls its subscribers.  [sto_fits] says what
    can be appended, and [sto_turn] is what its threads do between calls. *)
Class StorageLaws (E : Type) `{!IEngine E} `{!ISubscribe E} := {
  sto_holds : spec SubscribeCallback → E → Prop;
  sto_fits : list Meas → Prop;
  sto_turn : E → outcome E;
  sto_prefix : ∀ l1 l2, sto_fits (l1 ++ l2) → sto_fits l1;
  sto_append : ∀ x m e, sto_holds x e → sto_fits (sp_log x ++ [m]) → meas_wf m →
    ∃ e', ie_append m e = Ok (Status_writed 1, e') ∧ sto_holds (spec_op (Append m) x).2 e';
  sto_subscribe : ∀ x ids fl k e, sto_holds x e →
    ∃ e', sb_subscribe ids fl k e = Ok e' ∧ sto_holds (spec_op (Subscribe ids fl k) x).2 e';
  sto_read : ∀ x q i e, sto_holds x e → sto_fits (sp_log x) → qi_ids q = [i] → flags_exact q (series i (sp_log x)) →
    ∃ r e', ie_intervalReader q e = Ok (r, e') ∧ sto_holds x e' ∧
      match r !! i with
      | None => base.filter (in_query q) (series i (sp_log x)) = []
      | Some c => ∃ l, rep c l ∧ base.filter (in_query q) l = base.filter (in_query q) (series i (sp_log x))
      end;
  sto_current : ∀ x ids fl e, sto_holds x e → sto_fits (sp_log x) →
    ∃ e', ie_currentValue ids fl e = Ok (base.filter (asked ids fl) (latest (sp_log x)), e') ∧ sto_holds x e';
  sto_turns : ∀ x e, sto_holds x e → sto_fits (sp_log x) → ∃ e', sto_turn e = Ok e' ∧ sto_holds x e';
  sto_callbacks : ∀ x e, sto_holds x e → sb_callbacks e = (sp_subs x).*2;
  sto_set_callbacks : ∀ x subs e, sto_holds x e → subs.*1 = (sp_subs x).*1 →
    sto_holds (mkSpec (sp_log x) subs) (sb_set_callbacks subs.*2 e);
}.

Section Server.
Context {E : Type} `{!IEngine E} `{!ISubscribe E} `{!StorageLaws E} `{UnorderedMap}.
Implicit Types s : Server.t E.

(** [foreach] gives a callback what the storage has of the series, one after another. *)
Definition interval_answer (q : QueryInterval) (log : list Meas) : list Meas :=
  concat ((fun i => base.filter (in_query q) (series i log)) <$> qi_ids q).

Lemma storage_run {K} `{IReadCallback K} is_end fuel q pos (k : K) x e : sto_holds x e → sto_fits (sp_log x) →
  flags_exact q (sp_log x) → (1 `max` (length (qi_ids q) - pos) <= fuel)%nat →
  (∀ l, l `prefix_of` concat ((fun i => base.filter (in_query q) (series i (sp_log x))) <$> drop pos (qi_ids q)) →
    is_canceled (feed k l) = false) →
  ∃ e', IEngine.run (IMeasSource0 := IEngine_source) is_end fuel (IEngine.mkData pos q k) e =
      Ok (is_end (feed k (concat ((fun i => base.filter (in_query q) (series i (sp_log x))) <$>
        drop pos (qi_ids q)))), e') ∧ sto_holds x e'.
Proof.
  intros He Hfit Hfl. revert pos k e He. induction fuel as [|fuel IH]; intros pos k e He Hf Hk; [lia|].
  cbn [IEngine.run]. unfold IEngine.task. cbn [IEngine.q IEngine.next_id_pos IEngine.clbk].
  destruct (qi_ids q !! pos) as [i|] eqn:Hi.
  2: { rewrite bind_Ok. exists e. apply lookup_ge_None in Hi. by rewrite drop_ge. }
  rewrite (Hk [] (prefix_nil _) : is_canceled k = false). rewrite (drop_S _ _ _ Hi) in Hk |- *. cbn [fmap list_fmap concat] in Hk |- *.
  destruct (sto_read x (IEngine.local_query q i) i e He Hfit eq_refl) as (r & e1 & E1 & He1 & Hr).
  { apply local_flags; [by eapply list_elem_of_lookup_2|done]. }
  cbn [ms_intervalReader IEngine_source]. rewrite E1, bind_Ok.
  assert (Hone : match r !! i with
      | Some c => '(k', _) ← apply_query (IEngine.local_query q i) (Datatypes.S (Z.to_nat (cursor_count c))) k c; Ok k'
      | None => Ok k end = Ok (feed k (base.filter (in_query q) (series i (sp_log x))))).
  { rewrite (local_filter q i (series i (sp_log x))) in Hr by (by eapply list_elem_of_lookup_2 || (intros m; apply series_id)).
    destruct (r !! i) as [c|]; [|by rewrite Hr]. destruct Hr as (l & Hc & <-).
    destruct (apply_query_all (IEngine.local_query q i) k c l Hc) as [c' ->]. by rewrite bind_Ok. }
  rewrite Hone, bind_Ok, feed_app. set (k1 := feed k _). cbn [IEngine.next_id_pos IEngine.q].
  apply lookup_lt_Some in Hi. destruct (Nat.ltb_spec (Datatypes.S pos) (length (qi_ids q))).
  - rewrite bind_Ok. apply IH; [done|lia|]. intros l Hl. unfold k1. rewrite <- feed_app. by apply Hk, prefix_app.
  - rewrite bind_Ok. exists e1. by rewrite drop_ge by lia.
Qed.

Lemma storage_foreach {K} `{IReadCallback K} is_end q (k : K) x e : sto_holds x e → sto_fits (sp_log x) →
  flags_exact q (sp_log x) →
  (∀ l, l `prefix_of` interval_answer q (sp_log x) → is_canceled (feed k l) = false) →
  ∃ e', IEngine.foreach (IMeasSource0 := IEngine_source) is_end (S (length (qi_ids q))) q k e =
      Ok (is_end (feed k (interval_answer q (sp_log x))), e') ∧ sto_holds x e'.
Proof. intros He Hfit Hfl Hk. apply (storage_run is_end _ q 0 k x e He Hfit Hfl); [lia|done]. Qed.

(** ** Handlers *)

(** The client can be written to; query numbers are below [b]. *)
Record attached (b i : Z) s (c : IOClient.t) : Prop := {
  at_client : Server._clients s !! i = Some c;
  at_live : live c;
  at_readers : ∀ k r, IOClient._readers c !! k = Some r → ClientDataReader.is_needed r = false ∧ k < b;
  at_stop : Server._in_stop_logic s = false;
  at_number : ∀ q, IOClient.subscribe_reader c = Some q → 0 <= q < 2 ^ 32 ∧ q < b;
}.

Record serving (b i : Z) (x : spec SubscribeCallback) s (c : IOClient.t) : Prop := {
  sv_attached : attached b i s c;
  sv_storage : ∃ e, Server.storage s = Some e ∧ sto_holds x e;
  sv_subs : Forall (fun sub => ∃ q, IOClient.subscribe_reader c = Some q ∧ sub.2 = mkSubscribeCallback i q []) (sp_subs x);
}.

(** The subscriptions of a measurement. *)
Definition heard (subs : list (Subscribe.SubscribeInfo * SubscribeCallback)) (m : Meas) : list Meas :=
  concat ((fun sub : Subscribe.SubscribeInfo * SubscribeCallback => if Subscribe.isYours sub.1 m then [m] else []) <$> subs).

(** The messages to the callback of the client. *)
Definition notes (c : IOClient.t) (ds : list NetData.t) (ms : list Meas) : Prop :=
  match IOClient.subscribe_reader c with None => ds = [] ∧ ms = [] | Some q => carry_all q ds ms end.

Lemma notes_nil c : notes c [] [].
Proof. unfold notes. destruct (IOClient.subscribe_reader c); [by exists []|done]. Qed.

Lemma notes_app c d1 d2 m1 m2 : notes c d1 m1 → notes c d2 m2 → notes c (d1 ++ d2) (m1 ++ m2).
Proof.
  unfold notes. destruct (IOClient.subscribe_reader c); [apply carry_all_app|]. by intros [-> ->] [-> ->].
Qed.

Lemma with_client_ok i f s c c' : Server._clients s !! i = Some c → f c = Ok c' →
  Server.with_client i f s = Ok (Server.set_clients (<[i := c']> (Server._clients s)) s).
Proof. intros Hc Ef. unfold Server.with_client. by rewrite Hc, Ef, bind_Ok. Qed.

(** The server after it wrote to the client. *)
Definition told (i : Z) (ds : list NetData.t) (c : IOClient.t) s : Server.t E :=
  Server.set_clients (<[i := sent ds c]> (Server._clients s)) s.

Lemma attached_told b i s c ds : attached b i s c → attached b i (told i ds c s) (sent ds c).
Proof. intros [A1 A2 A3 A4 A5]. split; try done; [by cbn; rewrite lookup_insert_eq|by apply live_sent]. Qed.

Lemma serving_told b i x s c ds : serving b i x s c → serving b i x (told i ds c s) (sent ds c).
Proof. intros [S1 S2 S3]. split; [by apply attached_told|done|done]. Qed.

Lemma told_told i d1 d2 c s : told i d2 (sent d1 c) (told i d1 c s) = told i (d1 ++ d2) c s.
Proof. unfold told, Server.set_clients. cbn. by rewrite insert_insert_eq, sent_sent. Qed.

Lemma told_nil b i s c : attached b i s c → told i [] c s = s.
Proof. intros [A1 A2 _ _ _]. unfold told. rewrite sent_nil, insert_id by done. by destruct s. Qed.

Lemma tell b i s c nd : attached b i s c → Server.with_client i (IOClient.send nd) s = Ok (told i [nd] c s).
Proof. intros Hs. by apply (with_client_ok i _ s c); [apply Hs|apply send_live, Hs]. Qed.

(** The calls of one subscription. *)
Lemma send_calls_ok b i s c q ms : attached b i s c → IOClient.subscribe_reader c = Some q → Forall clean ms →
  ∃ ds, Server.send_calls (mkSubscribeCallback i q ms) s = Ok (told i ds c s) ∧ carry_all q ds ms.
Proof.
  unfold Server.send_calls. cbn [sc_parent sc_query_num sc_calls]. intros Hs Hq Hms. revert s c Hs Hq.
  induction Hms as [|m ms Hm Hms IH]; intros s c Hs Hq; cbn [foldM].
  { exists []. rewrite (told_nil b i) by done. by split; [|exists []]. }
  destruct (append_message_carries q [m] 0) as (d & n & Ed & Hn & Hd); [by apply Hs|cbn; lia|by constructor|].
  cbn in Hn. assert (n = 1%nat) as -> by lia.
  assert (Ew : Server.with_client i (IOClient.subscribe_send_buffer q m) s = Ok (told i [d] c s)).
  { apply (with_client_ok i _ s c); [apply Hs|]. unfold IOClient.subscribe_send_buffer. rewrite Ed, bind_Ok. apply send_live, Hs. }
  rewrite Ew, bind_Ok. destruct (IH _ _ (attached_told _ _ _ _ [d] Hs) Hq) as (ds & -> & Hds).
  exists (d :: ds). rewrite told_told. split; [done|]. apply (carry_all_app q [d] ds [m] ms); [|done].
  exists [[m]]. split; [|done]. constructor; [exact Hd|constructor].
Qed.

Lemma sends_calls_ok b i s c q (ks : list SubscribeCallback) : attached b i s c → IOClient.subscribe_reader c = Some q →
  Forall (fun k => sc_parent k = i ∧ sc_query_num k = q ∧ Forall clean (sc_calls k)) ks →
  ∃ ds, foldM (fun s k => Server.send_calls k s) ks s = Ok (told i ds c s) ∧ carry_all q ds (concat (sc_calls <$> ks)).
Proof.
  intros Hs Hq Hks. revert s c Hs Hq. induction Hks as [|[p n ms] ks (Hp & Hn & Hk) Hks IH]; intros s c Hs Hq; cbn [foldM].
  { exists []. rewrite (told_nil b i) by done. by split; [|exists []]. }
  cbn in Hp, Hn, Hk. subst p n. destruct (send_calls_ok b i s c q ms Hs Hq Hk) as (d1 & -> & H1'). rewrite bind_Ok.
  destruct (IH _ _ (attached_told _ _ _ _ d1 Hs) Hq) as (d2 & -> & H2'). exists (d1 ++ d2). rewrite told_told.
  split; [done|]. by apply carry_all_app.
Qed.

(** What an append leaves of a specification when the calls were made. *)
Definition logged (x : spec SubscribeCallback) (ms : list Meas) : spec SubscribeCallback := mkSpec (sp_log x ++ ms) (sp_subs x).

Lemma storage_append_ok b i x s c m : serving b i x s c → sto_fits (sp_log x ++ [m]) → clean m →
  ∃ s' ds, Server.storage_append m s = Ok (Status_writed 1, s') ∧ serving b i (logged x [m]) s' (sent ds c) ∧
    notes c ds (heard (sp_subs x) m).
Proof.
  intros [Ha (e & Ee & He) Hsub] Hfit Hm. unfold Server.storage_append, Server.with_storage. rewrite Ee.
  destruct (sto_append x m e He Hfit (proj1 Hm)) as (e1 & -> & He1). rewrite !bind_Ok.
  unfold Server.notify. cbn [Server.storage Server.set_storage_ptr]. rewrite (sto_callbacks _ _ He1).
  set (s1 := Server.set_storage_ptr (Some e1) s). assert (Ha1 : attached b i s1 c) by (destruct Ha; by split).
  set (subs1 := sp_subs (spec_op (Append m) x).2) in *.
  assert (Hcalls : ∃ ds, foldM (fun s k => Server.send_calls k s) subs1.*2 s1 = Ok (told i ds c s1) ∧
    notes c ds (heard (sp_subs x) m) ∧ Server.forget_calls <$> subs1.*2 = (sp_subs x).*2).
  { unfold notes, heard. unfold subs1. cbn [spec_op snd sp_subs]. destruct (IOClient.subscribe_reader c) as [q|] eqn:Eq.
    - destruct (sends_calls_ok b i s1 c q subs1.*2 Ha1 Eq) as (ds & E1 & Hds).
      + unfold subs1. cbn [spec_op snd sp_subs]. rewrite !Forall_fmap. eapply Forall_impl; [exact Hsub|]. intros [si k] (q' & [= <-] & Hk).
        cbn in Hk. subst k. cbn. destruct (Subscribe.isYours si m); cbn; repeat constructor; apply Hm.
      + exists ds. split; [exact E1|]. split.
        * replace (concat _) with (concat (sc_calls <$> subs1.*2)); [exact Hds|]. f_equal. unfold subs1. cbn [spec_op snd sp_subs].
          rewrite <- !list_fmap_compose. apply list_fmap_ext. intros k [si sc] Hl. rewrite Forall_lookup in Hsub.
          destruct (Hsub _ _ Hl) as (q' & _ & Hk). cbn in *. subst sc. by destruct (Subscribe.isYours si m).
        * rewrite <- !list_fmap_compose. apply list_fmap_ext. intros k [si sc] Hl. rewrite Forall_lookup in Hsub. destruct (Hsub _ _ Hl) as (q' & _ & Hk).
          cbn in *. subst sc. by destruct (Subscribe.isYours si m).
    - assert (sp_subs x = []) as ->; [|exists []; rewrite (told_nil b i) by done; done].
      destruct (sp_subs x) as [|sub l]; [done|]. apply Forall_cons in Hsub as [(q & [=] & _) _]. }
  destruct Hcalls as (ds & -> & Hn & Ef). rewrite !bind_Ok. eexists _, ds. split; [done|]. split; [|done].
  split.
  - apply (attached_told _ _ _ _ ds) in Ha1 as []. by split.
  - eexists. split; [reflexivity|]. rewrite Ef. unfold logged.
    replace (mkSpec (sp_log x ++ [m]) (sp_subs x)) with (mkSpec (sp_log (spec_op (Append m) x).2) (sp_subs x)) by done.
    apply sto_set_callbacks; [done|]. cbn. by rewrite <- list_fmap_compose.
  - done.
Qed.

Lemma storage_range_ok b i x s c ms ar : serving b i x s c → sto_fits (sp_log x ++ ms) → Forall clean ms → ignored ar = 0 →
  ∃ st s' ds, foldM (fun (p : Status * Server.t E) m =>
      '(st, s) ← Server.storage_append m p.2; Ok (Status_plus p.1 st, s)) ms (ar, s) = Ok (st, s') ∧ ignored st = 0 ∧
    serving b i (logged x ms) s' (sent ds c) ∧ notes c ds (concat (heard (sp_subs x) <$> ms)).
Proof.
  intros Hs Hfit Hms. revert x s c ar Hs Hfit. induction Hms as [|m ms Hm Hms IH]; intros x s c ar Hs Hfit Har; cbn [foldM].
  { exists ar, s, []. split; [done|]. split; [done|]. rewrite sent_nil by apply Hs. split; [|apply notes_nil].
    unfold logged. rewrite app_nil_r. by destruct x. }
  assert (E0 : sp_log x ++ m :: ms = (sp_log x ++ [m]) ++ ms) by apply (app_assoc _ [m] ms). rewrite E0 in Hfit.
  destruct (storage_append_ok b i x s c m Hs (sto_prefix _ _ Hfit) Hm) as (s1 & d1 & E1 & Hs1 & N1). cbn [snd fst]. rewrite E1, !bind_Ok.
  destruct (IH _ _ _ (Status_plus ar (Status_writed 1)) Hs1 Hfit) as (st & s' & d2 & E2 & Hi & Hs' & N2).
  { cbn. by rewrite Har. }
  exists st, s', (d1 ++ d2). split; [exact E2|]. split; [done|]. rewrite sent_sent in Hs'. split.
  - unfold logged in *. cbn [sp_log sp_subs] in Hs'. by rewrite <- E0 in Hs'.
  - by apply notes_app.
Qed.

(** What the client was told, besides the readers it has. *)
Definition answered (c c' : IOClient.t) (ds : list NetData.t) : Prop :=
  IOClient.sock c' = mkSocket true (written (IOClient.sock c) ++ wire ds) ∧
  IOClient.subscribe_reader c' = IOClient.subscribe_reader c.

Lemma answered_trans c c1 c2 d1 d2 : answered c c1 d1 → answered c1 c2 d2 → answered c c2 (d1 ++ d2).
Proof. intros [H1' H2'] [H3' H4']. split; [|by rewrite H4']. by rewrite H3', H1', wire_app, app_assoc. Qed.

Lemma serving_time b i x s c now : serving b i x s c →
  let c' := IOClient.set_time now c in
  Server.with_client i (fun c => Ok (IOClient.set_time now c)) s = Ok (Server.set_clients (<[i := c']> (Server._clients s)) s) ∧
  serving b i x (Server.set_clients (<[i := c']> (Server._clients s)) s) c'.
Proof.
  intros [[A1 A2 A3 A4 A5] S2 S3] c'. split; [by apply (with_client_ok i _ s c)|].
  split; [split|..]; try done. by cbn; rewrite lookup_insert_eq.
Qed.

Lemma serving_counts b i x s c total writes : serving b i x s c → serving b i x (Server.set_writes total writes s) c.
Proof. intros [[] S2 S3]. split; [by split|done|done]. Qed.

Lemma serving_mono b b' i x s c : b <= b' → serving b i x s c → serving b' i x s c.
Proof.
  intros Hb [[A1 A2 A3 A4 A5] S2 S3]. split; [split|..]; try done.
  - intros k r Hr. destruct (A3 k r Hr). split; [done|lia].
  - intros q Hq. destruct (A5 q Hq). split; [done|lia].
Qed.

(** An append. *)
Lemma append_handled now b i x s c d qn ms : serving b i x s c → carries qn d ms → sto_fits (sp_log x ++ ms) → Forall clean ms →
  ∃ s' c' ds, Server.onDataRecv now i d s = Ok (false, s') ∧ serving b i (logged x ms) s' c' ∧
    answered c c' (ds ++ [IOClient.ok_message qn]) ∧ notes c ds (concat (heard (sp_subs x) <$> ms)).
Proof.
  intros Hs [Hf Hh _ Hr] Hfit Hms. destruct (serving_time b i x s c now Hs) as [E1 Hs1]. unfold Server.onDataRecv. rewrite E1, bind_Ok.
  set (s1 := Server.set_clients _ s) in *. rewrite first_append, Hh. cbn [ap_kind]. change (kind_of (kind_number APPEND)) with (Some APPEND).
  cbn match. rewrite (at_stop _ _ _ _ (sv_attached _ _ _ _ _ Hs1)). unfold Server.append. rewrite Hr, bind_Ok, Hh. cbn [ap_id].
  set (s2 := Server.addWritedCount _ (Server.write_begin s1)).
  assert (Hs2 : serving b i x s2 (IOClient.set_time now c)) by by apply serving_counts, serving_counts.
  destruct (storage_range_ok b i x s2 _ ms Status_empty Hs2 Hfit Hms eq_refl) as (st & s3 & ds & E3 & Hi & Hs3 & Hn).
  unfold append_range. cbn [mw_append Server.storage_writer]. rewrite E3, bind_Ok, Hi. cbn [Z.eqb negb].
  apply (serving_counts _ _ _ _ _ (Server.total_writed s3) (Server._writes_in_progress s3 - 1)) in Hs3.
  change (Server.set_writes (Server.total_writed s3) (Server._writes_in_progress s3 - 1) s3) with (Server.write_end s3) in Hs3.
  unfold IOClient.sendOk. rewrite (tell b i _ _ _ (sv_attached _ _ _ _ _ Hs3)), bind_Ok.
  eexists _, _, ds. split; [done|]. split; [by apply serving_told|]. split; [|exact Hn].
  rewrite sent_sent. by split.
Qed.

(** A query with a reader: [f] gives it [l]. *)
Lemma run_reader_ok b i x s c qn l f : serving b i x s c → b <= qn → 0 <= qn < 2 ^ 32 → Forall clean l →
  (∀ c1 e, reading qn (IOClient.set_readers ∅ c) c1 [] → sto_holds x e →
    ∃ c2 e', f (Ok c1) e = Ok (IOClient.reader_end qn (Ok c2), e') ∧ reading qn (IOClient.set_readers ∅ c) c2 l ∧ sto_holds x e') →
  ∃ s' c' ds, Server.run_reader i qn f s = Ok s' ∧ serving (qn + 1) i x s' c' ∧
    answered c c' (ds ++ [ClientDataReader.end_message qn]) ∧ carry_all qn ds l.
Proof.
  intros [[A1 A2 A3 A4 A5] (e & Ee & He) S3] Hb Hq Hl Hf. set (c0 := IOClient.set_readers ∅ c).
  assert (Hc0 : live c0) by by destruct A2 as (a & ? & ?); exists a.
  assert (Hstart : reading qn c0 (IOClient.readerAdd (ClientDataReader.make qn) c) []).
  { apply reading_start; [done|intros k r Hr; by eapply A3|]. destruct (IOClient._readers c !! qn) as [r|] eqn:Er; [|done].
    destruct (A3 _ _ Er). lia. }
  destruct (Hf _ e Hstart He) as (c2 & e' & Ef & Hc2 & He').
  destruct (reading_end qn c0 Hq Hc0 c2 l Hc2 Hl) as (ds & Eend & Hds).
  unfold Server.run_reader, Server.with_storage. rewrite A1, Ee. rewrite Ef, !bind_Ok, Eend, bind_Ok.
  eexists _, (IOClient.set_readers (<[qn := finished qn]> (IOClient._readers c0)) (sent (ds ++ [ClientDataReader.end_message qn]) c0)), ds.
  split; [done|]. split; [|split; [by split|done]].
  split; [split|..].
  - cbn. by rewrite lookup_insert_eq.
  - by apply (live_sent (ds ++ [ClientDataReader.end_message qn])) in Hc0.
  - cbn. intros k r Hr. apply lookup_insert_Some in Hr as [[<- <-]|[_ Hr]]; [split; [done|lia]|by rewrite lookup_empty in Hr].
  - done.
  - intros q0 Hq0. destruct (A5 q0 Hq0). split; [done|lia].
  - by eexists.
  - done.
Qed.

(** [handled]: the server said that the query is accepted, and then its answer. *)
Definition handled (now i qn : Z) (d : NetData.t) (l : list Meas) x s c : Prop :=
  ∃ s' c' ds, Server.onDataRecv now i d s = Ok (false, s') ∧ serving (qn + 1) i x s' c' ∧
    answered c c' (IOClient.ok_message qn :: ds ++ [ClientDataReader.end_message qn]) ∧ carry_all qn ds l.

Lemma interval_handled now b i x s c d qn ids fl from to : serving b i x s c → b <= qn → 0 <= qn < 2 ^ 32 →
  let q := mkQueryInterval ids fl from to 0 in
  header_of QueryInterval_header d = mkInterval (kind_number READ_INTERVAL) qn from to fl (Z.of_nat (length ids)) →
  Server.ids_of (size_of QueryInterval_header) (Z.of_nat (length ids)) d = Ok ids → from < to →
  sto_fits (sp_log x) → flags_exact q (sp_log x) → Forall clean (sp_log x) →
  handled now i qn d (interval_answer q (sp_log x)) x s c.
Proof.
  intros Hs Hb Hq q Hh Hids Hft Hfit Hfl Hc. destruct (serving_time b i x s c now Hs) as [E1 Hs1].
  unfold handled, Server.onDataRecv. rewrite E1, bind_Ok. set (s1 := Server.set_clients _ s) in *. set (c1 := IOClient.set_time now c) in *.
  rewrite first_interval, Hh. cbn [in_kind in_id]. change (kind_of (kind_number READ_INTERVAL)) with (Some READ_INTERVAL).
  cbn match. rewrite (at_stop _ _ _ _ (sv_attached _ _ _ _ _ Hs1)).
  unfold IOClient.sendOk. rewrite (tell b i _ _ _ (sv_attached _ _ _ _ _ Hs1)), bind_Ok.
  pose proof (serving_told _ _ _ _ _ [IOClient.ok_message qn] Hs1) as Hs2. set (s2 := told i _ c1 s1) in *.
  unfold Server.readInterval. rewrite Hh. cbn [in_ids_count in_to in_from in_flag in_id]. rewrite Hids, bind_Ok, (proj2 (Z.leb_gt _ _)) by lia.
  assert (Hclean : Forall clean (interval_answer q (sp_log x))).
  { apply Forall_concat, Forall_fmap, Forall_forall. intros j _. cbn.
    eapply Forall_sublist_of; [|exact Hc]. etrans; apply sublist_filter. }
  match goal with |- context [Server.run_reader i qn ?f s2] =>
    destruct (run_reader_ok b i x s2 _ qn (interval_answer q (sp_log x)) f Hs2 Hb Hq Hclean) as (s' & c' & ds & E' & Hs' & Hans & Hds)
  end.
  2: { rewrite E', bind_Ok. exists s', c', ds. split; [done|]. split; [done|]. split; [|done].
    by apply (answered_trans c _ c' [IOClient.ok_message qn] (ds ++ _)) in Hans. }
  intros c3 e Hc3 He. set (c0 := IOClient.set_readers ∅ _) in *.
  assert (Hc0 : live c0) by (destruct (at_live _ _ _ _ (sv_attached _ _ _ _ _ Hs2)) as (a & ? & ?); by exists a).
  destruct (storage_foreach (H0 := client_callback qn) (IOClient.reader_end qn) q (Ok c3) x e He Hfit Hfl) as (e' & E2 & He').
  { intros l [l2 El]. rewrite El in Hclean. apply Forall_app in Hclean as [Hcl _].
    destruct (reading_feed qn c0 Hq Hc0 c3 [] l Hc3 Hcl) as (c4 & -> & Hr4). by eapply reading_not_canceled. }
  destruct (reading_feed qn c0 Hq Hc0 c3 [] _ Hc3 Hclean) as (c4 & E4 & Hr4). rewrite E4 in E2. by eexists _, _.
Qed.

Lemma current_handled now b i x s c d qn ids fl : serving b i x s c → b <= qn → 0 <= qn < 2 ^ 32 →
  header_of QueryCurrentValue_header d = mkCurrentValue (kind_number CURRENT_VALUE) qn fl (Z.of_nat (length ids)) →
  Server.ids_of (size_of QueryCurrentValue_header) (Z.of_nat (length ids)) d = Ok ids →
  sto_fits (sp_log x) → let found := base.filter (asked ids fl) (latest (sp_log x)) in Forall clean (um_list found).*2 →
  handled now i qn d (um_list found).*2 x s c.
Proof.
  intros Hs Hb Hq Hh Hids Hfit found Hc. destruct (serving_time b i x s c now Hs) as [E1 Hs1].
  unfold handled, Server.onDataRecv. rewrite E1, bind_Ok. set (s1 := Server.set_clients _ s) in *. set (c1 := IOClient.set_time now c) in *.
  rewrite first_current, Hh. cbn [cv_kind cv_id]. change (kind_of (kind_number CURRENT_VALUE)) with (Some CURRENT_VALUE).
  cbn match. rewrite (at_stop _ _ _ _ (sv_attached _ _ _ _ _ Hs1)).
  unfold IOClient.sendOk. rewrite (tell b i _ _ _ (sv_attached _ _ _ _ _ Hs1)), bind_Ok.
  pose proof (serving_told _ _ _ _ _ [IOClient.ok_message qn] Hs1) as Hs2. set (s2 := told i _ c1 s1) in *.
  unfold Server.currentValue. rewrite Hh. cbn [cv_ids_count cv_flag cv_id]. rewrite Hids, bind_Ok.
  match goal with |- context [Server.run_reader i qn ?f s2] =>
    destruct (run_reader_ok b i x s2 _ qn (um_list found).*2 f Hs2 Hb Hq Hc) as (s' & c' & ds & E' & Hs' & Hans & Hds)
  end.
  2: { rewrite E', bind_Ok. exists s', c', ds. split; [done|]. split; [done|]. split; [|done].
    by apply (answered_trans c _ c' [IOClient.ok_message qn] (ds ++ _)) in Hans. }
  intros c3 e Hc3 He. set (c0 := IOClient.set_readers ∅ _) in *.
  assert (Hc0 : live c0) by (destruct (at_live _ _ _ _ (sv_attached _ _ _ _ _ Hs2)) as (a & ? & ?); by exists a).
  cbn beta. destruct (sto_current x ids fl e He Hfit) as (e' & -> & He'). rewrite bind_Ok.
  destruct (reading_calls qn c0 Hq Hc0 c3 [] _ Hc3 Hc) as (c4 & E4 & Hr4). exists c4, e'. split; [|done].
  do 2 f_equal. rewrite <- E4. fold found. generalize (um_list found), (Ok c3). intros l. induction l as [|v l IH]; intros k; [done|]. apply IH.
Qed.

(** A subscription; the callback of the client is made for the first. *)
Lemma subscribe_handled now b i x s c d qn ids fl : serving b i x s c → b <= qn → 0 <= qn < 2 ^ 32 →
  header_of QueryCurrentValue_header d = mkCurrentValue (kind_number SUBSCRIBE) qn fl (Z.of_nat (length ids)) →
  Server.ids_of (size_of QueryCurrentValue_header) (Z.of_nat (length ids)) d = Ok ids →
  let q := default qn (IOClient.subscribe_reader c) in
  ∃ s' c', Server.onDataRecv now i d s = Ok (false, s') ∧
    serving (qn + 1) i (spec_op (Subscribe ids fl (mkSubscribeCallback i q [])) x).2 s' c' ∧
    IOClient.sock c' = mkSocket true (written (IOClient.sock c) ++ wire [IOClient.ok_message qn]) ∧
    IOClient.subscribe_reader c' = Some q.
Proof.
  intros Hs Hb Hq Hh Hids q. destruct (serving_time b i x s c now Hs) as [E1 Hs1].
  unfold Server.onDataRecv. rewrite E1, bind_Ok. set (s1 := Server.set_clients _ s) in *. set (c1 := IOClient.set_time now c) in *.
  rewrite first_current, Hh. cbn [cv_kind cv_id]. change (kind_of (kind_number SUBSCRIBE)) with (Some SUBSCRIBE).
  cbn match. rewrite (at_stop _ _ _ _ (sv_attached _ _ _ _ _ Hs1)).
  unfold IOClient.sendOk. rewrite (tell b i _ _ _ (sv_attached _ _ _ _ _ Hs1)), bind_Ok.
  pose proof (serving_told _ _ _ _ _ [IOClient.ok_message qn] Hs1) as Hs2. set (s2 := told i _ c1 s1) in *.
  unfold Server.subscribe. rewrite Hh. cbn [cv_ids_count cv_flag cv_id]. rewrite Hids, bind_Ok.
  set (c2 := sent _ c1) in *. destruct Hs2 as [[A1 A2 A3 A4 A5] (e & Ee & He) S3]. rewrite A1. unfold Server.with_storage.
  cbn [Server.storage Server.set_clients]. rewrite Ee. change (IOClient.subscribe_reader c2) with (IOClient.subscribe_reader c). fold q.
  destruct (sto_subscribe x ids fl (mkSubscribeCallback i q []) e He) as (e' & -> & He'). rewrite !bind_Ok.
  eexists _, (IOClient.set_subscribe (Some q) c2). split; [done|]. split; [|by split]. split; [split|..].
  - cbn. by rewrite lookup_insert_eq.
  - by destruct A2 as (a & ? & ?); exists a.
  - intros k r Hr. destruct (A3 k r Hr). split; [done|lia].
  - done.
  - cbn. intros q0 [= <-]. unfold q. destruct (IOClient.subscribe_reader c) as [q0|] eqn:Eq; cbn [default];
      [|change (0 <= qn < 2 ^ 32 ∧ qn < qn + 1); lia].
    destruct (A5 q0 Eq). change (0 <= q0 < 2 ^ 32 ∧ q0 < qn + 1). lia.
  - by eexists.
  - cbn [spec_op snd sp_subs IOClient.subscribe_reader IOClient.set_subscribe]. apply Forall_app. split; [|repeat constructor; by exists q].
    eapply Forall_impl; [exact S3|]. intros sub (q0 & Hq0 & Hk). exists q0. split; [|done].
    change (IOClient.subscribe_reader c2) with (IOClient.subscribe_reader c) in Hq0. unfold q. by rewrite Hq0.
Qed.
End Server.
