(* ===== verification/NetSpec.v ===== *)
(** * A client sees the storage of the server

    Whatever storage the server has, as long as it answers from all that was appended to
    it, its client gets those answers: what it appends arrives in the order it was given,
    what it asks for arrives whole and in the order the storage gave it, and its
    subscriptions get every measurement they ask for once. *)

From Stdlib Require Import ZArith Lia String.
From stdpp Require Import base numbers list gmap strings.
From S2P Require Import Prelude Float64 Meas Stat StdSort ICursor FullCursor Chunk Cursors TimeTrackSpec Series Storages.
From S2P Require Import PageFormat PageSpec Engine EngineSpec Shard NetData NetServer NetClient NetServerSpec.

Local Open Scope Z_scope.

(** ** The client *)

(** The result at an address is changed. *)
Definition set_result (a : nat) (r : ReadResult) (c : Client.t) : Client.t :=
  Client.set_queries (Client._query_num c) (Client._query_results c) (<[a := r]> (Client.results c)) c.

Record asks (qn : Z) (a : nat) (r : ReadResult) (c : Client.t) : Prop := {
  as_work : Client._state c = WORK;
  as_query : Client._query_results c !! qn = Some a;
  as_result : Client.results c !! a = Some r;
}.

Lemma asks_set qn a r r' c : asks qn a r c → asks qn a r' (set_result a r' c).
Proof. intros [W Hq Hr]. split; [done|done|]. cbn. rewrite list_lookup_insert_eq; [done|]. by eapply lookup_lt_Some. Qed.

Lemma set_set_result a r r' c : set_result a r' (set_result a r c) = set_result a r' c.
Proof. unfold set_result, Client.set_queries. cbn. by rewrite list_insert_insert_eq. Qed.

Lemma set_same_result qn a r c : asks qn a r c → set_result a r c = c.
Proof. intros [_ _ Hr]. unfold set_result. rewrite list_insert_id by done. by destruct c. Qed.

Lemma with_result_ok qn a r r' c f : asks qn a r c → f r = Ok r' → Client.with_result qn f c = Ok (set_result a r' c).
Proof. intros [W Hq Hr] E. unfold Client.with_result. by rewrite Hq, Hr, E, bind_Ok. Qed.

(** The calls of measurements. *)
Definition add_calls (ms : list Meas) (r : ReadResult) : ReadResult :=
  mkReadResult (rr_id r) (rr_kind r) (locked r) (is_ok r) (is_closed r) (is_error r) (errc r) (clbk r)
    (calls r ++ ((fun m => (is_closed r, m)) <$> ms)).

Lemma add_calls_nil r : add_calls [] r = r.
Proof. unfold add_calls. cbn. rewrite app_nil_r. by destruct r. Qed.

Lemma add_calls_app l1 l2 r : add_calls l2 (add_calls l1 r) = add_calls (l1 ++ l2) r.
Proof. unfold add_calls. cbn. by rewrite fmap_app, app_assoc. Qed.

Lemma given_add_calls ms r : is_closed r = false → given (add_calls ms r) = given r ++ ms.
Proof.
  intros Hc. unfold given, add_calls. cbn [calls]. rewrite filter_app, fmap_app, Hc. f_equal.
  induction ms as [|m ms IH]; [done|]. cbn [fmap list_fmap]. rewrite filter_cons, decide_True by done. cbn. by f_equal.
Qed.

Lemma calls_ok ms r : clbk r = true → foldM (fun r v => call v r) ms r = Ok (add_calls ms r).
Proof.
  revert r. induction ms as [|m ms IH]; intros r Hr; cbn [foldM]; [by rewrite add_calls_nil|].
  assert (call m r = Ok (add_calls [m] r)) as -> by (unfold call, add_calls; by rewrite Hr).
  rewrite bind_Ok, IH by done. by rewrite add_calls_app.
Qed.

Lemma recv_values qn a r c d ms : asks qn a r c → clbk r = true → carries qn d ms →
  Client.onDataRecv d c = Ok (false, set_result a (add_calls ms r) c).
Proof.
  intros Ha Hc [Hf Hh Hn Hr]. unfold Client.onDataRecv. rewrite first_append, Hh. cbn [ap_kind].
  change (kind_of (kind_number APPEND)) with (Some APPEND). cbn match. unfold Client.on_append. rewrite Hh. cbn [ap_count ap_id].
  rewrite (proj2 (Z.eqb_neq _ _)); [|intros E; apply Hn, length_zero_iff_nil; lia]. rewrite (as_query _ _ _ _ Ha), Hr, bind_Ok.
  rewrite (with_result_ok qn a r (add_calls ms r)), bind_Ok; [done..|by apply calls_ok].
Qed.

Definition client_run (ds : list NetData.t) (c : Client.t) : outcome Client.t :=
  foldM (fun c d => '(_, c) ← Client.onDataRecv (received d) c; Ok c) ds c.

Lemma recv_all qn a r c ds ms : asks qn a r c → clbk r = true → carry_all qn ds ms →
  client_run ds c = Ok (set_result a (add_calls ms r) c).
Proof.
  intros Ha Hc (gs & Hds & <-). unfold client_run. revert r c Ha Hc. induction Hds as [|d g ds gs Hd _ IH]; intros r c Ha Hc; cbn [foldM concat].
  { by rewrite add_calls_nil, (set_same_result qn). }
  rewrite (recv_values qn a r c _ g Ha Hc (received_carries _ _ _ Hd)), !bind_Ok.
  rewrite (IH (add_calls g r)) by (done || by eapply asks_set). by rewrite set_set_result, add_calls_app.
Qed.

(** A query the server accepted. *)
Definition accepted_result (r : ReadResult) : ReadResult :=
  if decide (rr_kind r = SUBSCRIBE) then unlock (accepted r) else accepted r.

(** The fields of a header are in their ranges. *)
Ltac in_fields :=
  repeat match goal with
  | |- in_range _ => unfold in_range; cbn
  | |- Forall2 _ (_ :: _) _ => apply Forall2_cons_2
  | |- Forall2 _ [] _ => constructor
  | |- in_width _ _ => unfold in_width; cbn
  end; try done; try lia.

(** A message that is only a header. *)
Lemma header_fits {A} `{!Packed A} (h : A) : Z.of_nat (size_of A) <= 65533 →
  fits_frame (NetData.mk (Z.of_nat (size_of A)) (bytes_of h)).
Proof.
  intros Hs. unfold fits_frame. cbn [NetData.data NetData.size]. rewrite length_bytes_of.
  change NetData.MAX_MESSAGE_SIZE with 65535. change MARKER_SIZE with 2. lia.
Qed.

Lemma header_received {A} `{!Packed A} n (h : A) body : in_range h → fits_frame (NetData.mk n (bytes_of h ++ body)) →
  header_of A (received (NetData.mk n (bytes_of h ++ body))) = h.
Proof. intros Hh Hf. rewrite (same_data_header A _ _ (received_data _ Hf)). by apply header_first. Qed.

Lemma only_header_received {A} `{!Packed A} (h : A) : in_range h → Z.of_nat (size_of A) <= 65533 →
  header_of A (received (NetData.mk (Z.of_nat (size_of A)) (bytes_of h))) = h.
Proof.
  intros Hh Hs. pose proof (header_fits h Hs) as Hf. rewrite <- (app_nil_r (bytes_of h)) in Hf |- *. by apply header_received.
Qed.

Lemma ok_fits qn : fits_frame (IOClient.ok_message qn).
Proof. by apply (header_fits (A := QueryOk_header)). Qed.
Lemma end_fits qn : fits_frame (ClientDataReader.end_message qn).
Proof. by apply (header_fits (A := QueryAppend_header)). Qed.

Lemma recv_ok qn a r c : 0 <= qn < 2 ^ 32 → asks qn a r c →
  Client.onDataRecv (received (IOClient.ok_message qn)) c = Ok (false, set_result a (accepted_result r) c).
Proof.
  intros Hq Ha. assert (Hh : header_of QueryOk_header (received (IOClient.ok_message qn)) = mkOk (kind_number OK) qn).
  { apply only_header_received; [in_fields|done]. }
  unfold Client.onDataRecv. rewrite first_ok, Hh. cbn [ok_kind ok_id]. change (kind_of (kind_number OK)) with (Some OK). cbn match.
  rewrite decide_True, (as_query _ _ _ _ Ha) by apply Ha.
  rewrite (with_result_ok qn a r (accepted_result r)), bind_Ok; [done..|]. unfold accepted_result. cbn. by case_decide.
Qed.

(** The last message of an answer. *)
Definition closed_result (r : ReadResult) : ReadResult :=
  mkReadResult (rr_id r) (rr_kind r) false (is_ok r) true (is_error r) (errc r) (clbk r) (calls r ++ [(true, Client.no_meas)]).

Lemma recv_end qn a r c : 0 <= qn < 2 ^ 32 → asks qn a r c → clbk r = true →
  Client.onDataRecv (received (ClientDataReader.end_message qn)) c = Ok (false, Client.erase qn (set_result a (closed_result r) c)).
Proof.
  intros Hq Ha Hc. assert (Hh : header_of QueryAppend_header (received (ClientDataReader.end_message qn)) = mkAppend (kind_number APPEND) qn 0).
  { apply only_header_received; [in_fields|done]. }
  unfold Client.onDataRecv. rewrite first_append, Hh. cbn [ap_kind]. change (kind_of (kind_number APPEND)) with (Some APPEND). cbn match.
  unfold Client.on_append. rewrite Hh. cbn [ap_count ap_id Z.eqb].
  rewrite (with_result_ok qn a r (closed_result r)), !bind_Ok; [done..|]. unfold call. cbn. unfold closed_result. by rewrite Hc.
Qed.

Lemma given_closed r : given (closed_result r) = given r.
Proof. unfold given, closed_result. cbn [calls]. by rewrite filter_app, app_nil_r. Qed.

(** ** Queries *)

Lemma ids_chunks (ids : list Z) : Forall (fun i => 0 <= i < 2 ^ 32) ids →
  (fun k => of_le (take 4 (drop (4 * k) (concat (to_le 4 <$> ids))))) <$> seq 0 (length ids) = ids.
Proof.
  induction 1 as [|i ids Hi Hids IH]; [done|]. cbn [fmap list_fmap concat length seq]. f_equal.
  - rewrite drop_0, take_app_length' by by rewrite length_to_le. by apply of_to_le_small.
  - rewrite <- fmap_S_seq, <- list_fmap_compose. etransitivity; [|exact IH]. apply list_fmap_ext. intros k j _. cbn [compose].
    do 2 f_equal. replace (4 * S j)%nat with (length (to_le 4 i) + 4 * j)%nat by (rewrite length_to_le; lia). by rewrite drop_app_add.
Qed.

Lemma length_ids (ids : list Z) : length (concat (to_le 4 <$> ids)) = (4 * length ids)%nat.
Proof. induction ids as [|i ids IH]; [done|]. cbn [fmap list_fmap concat]. rewrite length_app, length_to_le, IH. cbn [length]. lia. Qed.

(** The message of a query has the query. *)
Definition query_message {A} `{!Packed A} (h : A) (ids : list Z) : NetData.t :=
  NetData.mk (u16 (Z.of_nat (size_of A) + u16 (4 * Z.of_nat (length ids)))) (bytes_of h ++ concat (to_le 4 <$> ids)).

Lemma query_message_ok {A} `{!Packed A} (h : A) ids : in_range h → Forall (fun i => 0 <= i < 2 ^ 32) ids →
  Z.of_nat (size_of A) + 4 * Z.of_nat (length ids) <= 65533 →
  fits_frame (query_message h ids) ∧ header_of A (received (query_message h ids)) = h ∧
  Server.ids_of (size_of A) (Z.of_nat (length ids)) (received (query_message h ids)) = Ok ids.
Proof.
  intros Hh Hids Hs. assert (Hf : fits_frame (query_message h ids)).
  { unfold fits_frame, query_message. cbn [NetData.data NetData.size]. rewrite length_app, length_bytes_of, length_ids.
    change NetData.MAX_MESSAGE_SIZE with 65535. change MARKER_SIZE with 2. rewrite !wrap_small; rewrite ?wrap_small; lia. }
  split; [done|]. split; [by apply header_received|].
  unfold Server.ids_of, Server.bytes_at. rewrite Nat2Z.id. change NetData.MAX_MESSAGE_SIZE with 65535.
  rewrite (proj2 (Z.leb_le _ _)) by lia. rewrite bind_Ok, (received_data _ Hf). unfold NetData.all_data, query_message. cbn [NetData.data].
  rewrite <- app_assoc, drop_app_length', take_app_length' by (by rewrite length_bytes_of || by rewrite length_ids).
  by rewrite ids_chunks.
Qed.

(** ** Both *)

(** Messages the client does not answer. *)
Definition quiet (d : NetData.t) : Prop :=
  let kind := kind_of (nth 0 (NetData.all_data d) 0) in kind = Some OK ∨ kind = Some APPEND ∨ kind = Some HELLO.

Lemma carries_quiet qn d ms : carries qn d ms → quiet d.
Proof. intros [_ Hh _ _]. right. left. by rewrite first_append, Hh. Qed.

Lemma ok_quiet qn : quiet (IOClient.ok_message qn).
Proof. by left. Qed.
Lemma end_quiet qn : quiet (ClientDataReader.end_message qn).
Proof. by right; left. Qed.

Definition plain (d : NetData.t) : Prop := fits_frame d ∧ quiet d.

Lemma carry_all_plain qn ds ms : carry_all qn ds ms → Forall plain ds.
Proof.
  intros (gs & Hds & _). induction Hds as [|d g ds gs Hd _ IH]; constructor; [|done]. split; [apply Hd|by eapply carries_quiet].
Qed.

Lemma carry_all_length qn ds ms : carry_all qn ds ms → (length ds <= length ms)%nat.
Proof.
  intros (gs & Hds & <-). induction Hds as [|d g ds gs Hd _ IH]; [done|]. cbn [concat length]. rewrite length_app.
  pose proof (ca_some _ _ _ Hd). destruct g; [done|cbn; lia].
Qed.

Lemma notes_plain c ds ms : notes c ds ms → Forall plain ds ∧ (length ds <= length ms)%nat.
Proof.
  unfold notes. destruct (IOClient.subscribe_reader c); [intros Hd; split; [by eapply carry_all_plain|by eapply carry_all_length]|].
  by intros [-> ->].
Qed.

Lemma with_result_socket qn f c c' : Client.with_result qn f c = Ok c' → Client._socket c' = Client._socket c.
Proof.
  unfold Client.with_result. destruct (_ !! qn) as [a|]; [|done]. destruct (_ !! a) as [r|]; [|done].
  destruct (f r) as [r'| | |]; [|done..]. rewrite bind_Ok. by intros [= <-].
Qed.

Lemma quiet_socket d c x : quiet d → Client.onDataRecv d c = Ok x → Client._socket x.2 = Client._socket c.
Proof.
  intros [E|[E|E]]; unfold Client.onDataRecv; rewrite E; cbn match; [..|by intros [= <-]].
  - case_decide; [|done]. destruct (_ !! _); [|done]. destruct (Client.with_result _ _ c) as [c'| | |] eqn:Ew; [|done..].
    rewrite bind_Ok. intros [= <-]. by eapply with_result_socket.
  - unfold Client.on_append. destruct (_ =? 0).
    + destruct (Client.with_result _ _ c) as [c'| | |] eqn:Ew; [|done..]. rewrite !bind_Ok. intros [= <-]. cbn. by eapply with_result_socket.
    + destruct (_ !! _); [|done]. destruct (QueryAppend.read_measarray d) as [ma| | |]; [|done..]. rewrite bind_Ok.
      destruct (Client.with_result _ _ c) as [c'| | |] eqn:Ew; [|done..]. rewrite bind_Ok. intros [= <-]. by eapply with_result_socket.
Qed.

Section Link.
Context {E : Type} `{!IEngine E} `{!ISubscribe E} `{!StorageLaws E} `{UnorderedMap}.
Variable now : Z.
Implicit Types n : Link.t E.

(** The client handles what was sent to it. *)
Lemma settle_client fuel ds n c' : Link.to_server n = [] → Link.to_client n = wire ds → Forall plain ds →
  client_run ds (Link.client n) = Ok c' → (length ds < fuel)%nat →
  Link.settle now fuel n = Ok (Link.mk c' (Link.server n) (Link.number n) (Link.up n) (Link.down n + length (wire ds))).
Proof.
  revert ds n. induction fuel as [|fuel IH]; intros ds n Hup Hdown Hds Hrun Hf; [lia|]. cbn [Link.settle]. unfold Link.turn.
  rewrite Hup. change (read_frame []) with (@None (NetData.t * list Z)). cbn match. rewrite Hdown. destruct Hds as [|d ds [Hd Hq] Hds].
  { change (read_frame (wire [])) with (@None (NetData.t * list Z)). cbn match. rewrite bind_Ok. cbn in Hrun. injection Hrun as <-. cbn.
    rewrite Nat.add_0_r. by destruct n. }
  change (wire (d :: ds)) with (NetData.as_buffer d ++ wire ds) in *. rewrite read_frame_ok by done.
  unfold client_run in Hrun. cbn [foldM] in Hrun.
  destruct (Client.onDataRecv (received d) (Link.client n)) as [[b c1]| | |] eqn:E1; [|done..]. rewrite !bind_Ok in *.
  assert (Hsock : Client._socket c1 = Client._socket (Link.client n)).
  { apply (quiet_socket (received d) _ (b, c1)); [|done]. unfold quiet. by rewrite received_data. }
  assert (Ht : Link.taken (NetData.as_buffer d ++ wire ds) (wire ds) = length (NetData.as_buffer d)).
  { unfold Link.taken. rewrite length_app. lia. }
  rewrite Ht. rewrite (IH ds); [|unfold Link.to_server in *; cbn in *; by rewrite Hsock| |done|done|cbn in Hf; lia].
  - cbn. rewrite length_app, Nat.add_assoc. done.
  - unfold Link.to_client in *. cbn in *. destruct (_ !! _) as [k|]; [|by symmetry in Hdown; apply app_eq_nil in Hdown as [_ ->]].
    by rewrite <- drop_drop, Hdown, drop_app_length.
Qed.

(** The server handles a message, the client all that it is sent then. *)
Lemma exchange fuel n nd w s' c' v ds c2 :
  Client._socket (Link.client n) = mkSocket true (w ++ NetData.as_buffer nd) → Link.up n = length w → fits_frame nd →
  Server.onDataRecv now (Link.number n) (received nd) (Link.server n) = Ok (false, s') →
  Server._clients s' !! Link.number n = Some c' → IOClient.sock c' = mkSocket true (v ++ wire ds) → Link.down n = length v →
  Forall plain ds → client_run ds (Link.client n) = Ok c2 → (length ds + 2 <= fuel)%nat →
  Link.settle now fuel n =
  Ok (Link.mk c2 s' (Link.number n) (length (w ++ NetData.as_buffer nd)) (length (v ++ wire ds))).
Proof.
  intros Hk Hup Hnd Hrecv Hc' Hsock Hdown Hds Hrun Hf. destruct fuel as [|fuel]; [lia|]. cbn [Link.settle]. unfold Link.turn.
  assert (Ets : Link.to_server n = NetData.as_buffer nd ++ []).
  { unfold Link.to_server. rewrite Hk, Hup, app_nil_r. cbn [written]. by rewrite drop_app_length. }
  rewrite Ets, read_frame_ok by done. rewrite Hrecv, !bind_Ok. unfold Link.taken. rewrite length_app. cbn [length].
  replace (length (NetData.as_buffer nd) + 0 - 0)%nat with (length (NetData.as_buffer nd)) by lia.
  rewrite (settle_client fuel ds _ c2); [| | |done|exact Hrun|lia].
  - cbn. rewrite Hup, Hdown, !length_app. done.
  - unfold Link.to_server. cbn. rewrite Hk, Hup. cbn. by rewrite drop_ge by (rewrite length_app; lia).
  - unfold Link.to_client. cbn. rewrite Hc', Hsock, Hdown. cbn. by rewrite drop_app_length.
Qed.

(** ** Sessions *)

(** All that was appended, the subscriptions, and what they were given. *)
Record session := mkSession {
  se_log : list Meas;
  se_subs : list (list Z * Z);
  se_heard : list Meas;
}.

(** What the subscriptions get of a measurement. *)
Definition session_heard (subs : list (list Z * Z)) (m : Meas) : list Meas :=
  concat ((fun sub => if Subscribe.isYours (Subscribe.mkSubscribeInfo sub.1 sub.2 0) m then [m] else []) <$> subs).

(** The measurements the callback of the first subscription was given. *)
Definition subscription (c : Client.t) : list Meas :=
  match base.filter (fun r => rr_kind r = SUBSCRIBE) (Client.results c) with [] => [] | r :: _ => given r end.

(** The result of a subscription, after others of other kinds. *)
Record hears (q : Z) (a : nat) (r : ReadResult) (c : Client.t) : Prop := {
  hs_asks : asks q a r c;
  hs_kind : rr_kind r = SUBSCRIBE;
  hs_clbk : clbk r = true;
  hs_open : is_closed r = false;
  hs_first : base.filter (fun r => rr_kind r = SUBSCRIBE) (take a (Client.results c)) = [];
}.

Lemma hears_given q a r c : hears q a r c → subscription c = given r.
Proof.
  intros [[_ _ Hr] Hk _ _ Hf]. unfold subscription. rewrite <- (take_drop_middle _ _ _ Hr), filter_app, Hf.
  by rewrite filter_cons, decide_True.
Qed.

(** What the callback of the first subscription, which has the number [o], was given. *)
Definition hearing (l : list Meas) (o : option Z) (c : Client.t) : Prop :=
  match o with
  | None => l = [] ∧ base.filter (fun r => rr_kind r = SUBSCRIBE) (Client.results c) = []
  | Some q => ∃ a r, hears q a r c ∧ given r = l
  end.

Lemma hearing_subscription l o c : hearing l o c → subscription c = l.
Proof.
  destruct o; [intros (a & r & Hr & <-); by eapply hears_given|]. intros [-> Hf]. unfold subscription. by rewrite Hf.
Qed.

(** The client and the server between two calls: [x] is what the client sees, [X] what
    the storage has, [c] the client as the server has it. *)
Record linked_by (x : session) (X : spec SubscribeCallback) (c : IOClient.t) n : Prop := {
  li_serving : serving (Client._query_num (Link.client n)) (Link.number n) X (Link.server n) c;
  li_log : sp_log X = se_log x;
  li_subs : (fun sub => (Subscribe.ids sub.1, Subscribe.sub_flag sub.1)) <$> sp_subs X = se_subs x;
  li_state : Client._state (Link.client n) = WORK;
  li_ready : ready (Client._async_connection (Link.client n)) (Client._socket (Link.client n));
  li_up : Link.up n = length (written (Client._socket (Link.client n)));
  li_down : Link.down n = length (written (IOClient.sock c));
  li_number : 0 <= Client._query_num (Link.client n);
  li_queries : ∀ k a, Client._query_results (Link.client n) !! k = Some a →
    k < Client._query_num (Link.client n) ∧ (a < length (Client.results (Link.client n)))%nat;
  li_heard : hearing (se_heard x) (IOClient.subscribe_reader c) (Link.client n);
}.

Definition linked (x : session) n : Prop := ∃ X c, linked_by x X c n.

Lemma linked_subscription x n : linked x n → subscription (Link.client n) = se_heard x.
Proof.
  intros (X & c & Hl). eapply hearing_subscription, (li_heard _ _ _ _ Hl).
Qed.

Lemma heard_session x X c n m : linked_by x X c n → heard (sp_subs X) m = session_heard (se_subs x) m.
Proof.
  intros Hl. unfold heard, session_heard. rewrite <- (li_subs _ _ _ _ Hl), <- list_fmap_compose. f_equal.
Qed.

(** *** A query *)

Definition new_result (qn : Z) (kind : DATA_KINDS) : ReadResult := mkReadResult qn kind true false false false 0 true [].

(** The client with a query more. *)
Definition asked_with (r : ReadResult) (nd : NetData.t) (c : Client.t) : Client.t :=
  Client.send nd (Client.set_queries (u32 (Client._query_num c + 1))
    (<[Client._query_num c := length (Client.results c)]> (Client._query_results c)) (Client.results c ++ [r]) c).

Lemma ask_sends {A} `{!Packed A} kind (header : Z → Z → A) ids c :
  Z.of_nat (size_of A) + 4 * Z.of_nat (length ids) <= 65533 →
  Client.ask kind header ids c = Ok (length (Client.results c),
    asked_with (new_result (Client._query_num c) kind)
      (query_message (header (Client._query_num c) (Z.of_nat (length ids))) ids) c).
Proof.
  intros Hs. unfold Client.ask. change NetData.MAX_MESSAGE_SIZE with 65535. rewrite (proj2 (Z.ltb_ge _ _)) by lia.
  rewrite (wrap_small 16 (Z.of_nat (length ids))) by lia. done.
Qed.

Lemma asked_asks r nd c : Client._state c = WORK →
  asks (Client._query_num c) (length (Client.results c)) r (asked_with r nd c).
Proof.
  intros Hw. split; [done|cbn; by rewrite lookup_insert_eq|]. cbn. rewrite lookup_app_r, Nat.sub_diag by lia. done.
Qed.

Lemma asked_socket r nd c : ready (Client._async_connection c) (Client._socket c) →
  Client._socket (asked_with r nd c) = mkSocket true (written (Client._socket c) ++ NetData.as_buffer nd).
Proof.
  intros (Hf & Hs & Ho). unfold asked_with, Client.send, AsyncConnection.send. cbn. by rewrite Hf, Hs, Ho.
Qed.

(** The results after the new one was changed. *)
Lemma set_asked r r' nd c : Client.results (set_result (length (Client.results c)) r' (asked_with r nd c)) = Client.results c ++ [r'].
Proof. cbn. by rewrite insert_app_r_alt, Nat.sub_diag by lia. Qed.

(** A result more leaves the subscription. *)
Lemma hears_more q a r c c' r' : hears q a r c → Client._state c' = WORK → Client._query_results c' !! q = Some a →
  Client.results c' = Client.results c ++ [r'] → hears q a r c'.
Proof.
  intros [[W Hq Hr] Hk Hc Ho Hf] W' Hq' E'. pose proof (lookup_lt_Some _ _ _ Hr) as Hlt. split; try done.
  - split; [done|done|]. rewrite E'. by apply lookup_app_l_Some.
  - rewrite E', take_app_le by lia. done.
Qed.

Lemma hearing_more l o c c' r' : hearing l o c → Client._state c' = WORK →
  (∀ q a, o = Some q → Client._query_results c !! q = Some a → Client._query_results c' !! q = Some a) →
  Client.results c' = Client.results c ++ [r'] → rr_kind r' ≠ SUBSCRIBE → hearing l o c'.
Proof.
  intros Hh W Hq Er Hk. destruct o as [q|].
  - destruct Hh as (a & r & Hr & Hg). exists a, r. split; [|done]. eapply hears_more; [done|done| |done]. apply Hq; [done|apply Hr].
  - destruct Hh as [Hl Hf]. split; [done|]. by rewrite Er, filter_app, Hf, filter_cons, decide_False.
Qed.

Lemma hearing_subscribe l o qn c c' r' : hearing l o c → asks qn (length (Client.results c)) r' c' →
  (∀ q a, o = Some q → Client._query_results c !! q = Some a → Client._query_results c' !! q = Some a) →
  Client.results c' = Client.results c ++ [r'] → rr_kind r' = SUBSCRIBE → clbk r' = true → is_closed r' = false → given r' = [] →
  hearing l (Some (default qn o)) c'.
Proof.
  intros Hh Ha Hq Er Hk Hc Ho Hg. destruct o as [q|].
  - destruct Hh as (a & r & Hr & Hl). exists a, r. split; [|done]. change (hears q a r c').
    eapply hears_more; [done|apply Ha| |done]. apply Hq; [done|apply Hr].
  - destruct Hh as [-> Hf]. exists (length (Client.results c)), r'. split; [|done]. split; try done.
    by rewrite Er, take_app_le, take_ge by lia.
Qed.

(** The client on the answer of a query. *)
Lemma client_answer qn a r c ds l : 0 <= qn < 2 ^ 32 → asks qn a r c → clbk r = true → rr_kind r ≠ SUBSCRIBE → carry_all qn ds l →
  client_run (IOClient.ok_message qn :: ds ++ [ClientDataReader.end_message qn]) c =
  Ok (Client.erase qn (set_result a (closed_result (add_calls l (accepted r))) c)).
Proof.
  intros Hq Ha Hc Hk Hds. unfold client_run. cbn [foldM]. rewrite (recv_ok qn a r) by done. rewrite !bind_Ok.
  unfold accepted_result. rewrite decide_False by done. rewrite foldM_app.
  pose proof (recv_all qn a (accepted r) _ ds l (asks_set _ _ _ _ _ Ha) Hc Hds) as E1. unfold client_run in E1. rewrite E1, bind_Ok.
  rewrite set_set_result. cbn [foldM]. rewrite (recv_end qn a (add_calls l (accepted r))), !bind_Ok; [|done|by eapply asks_set|done].
  by rewrite set_set_result.
Qed.

Lemma query_fresh x X c n : linked_by x X c n → Client._query_results (Link.client n) !! Client._query_num (Link.client n) = None.
Proof.
  intros Hl. destruct (_ !! _) as [a|] eqn:Ea; [|done]. destruct (li_queries _ _ _ _ Hl _ _ Ea). lia.
Qed.

(** The client and the server after a query. *)
Lemma linked_after x X c n x' X' c' s' cl up' down' : linked_by x X c n →
  let qn := Client._query_num (Link.client n) in
  serving (qn + 1) (Link.number n) X' s' c' → sp_log X' = se_log x' →
  (fun sub => (Subscribe.ids sub.1, Subscribe.sub_flag sub.1)) <$> sp_subs X' = se_subs x' →
  Client._state cl = WORK → ready (Client._async_connection cl) (Client._socket cl) →
  up' = length (written (Client._socket cl)) → down' = length (written (IOClient.sock c')) →
  Client._query_num cl = u32 (qn + 1) → qn + 1 < 2 ^ 32 →
  (∀ k a, Client._query_results cl !! k = Some a →
    k = qn ∧ a = length (Client.results (Link.client n)) ∨ Client._query_results (Link.client n) !! k = Some a) →
  length (Client.results cl) = S (length (Client.results (Link.client n))) →
  hearing (se_heard x') (IOClient.subscribe_reader c') cl →
  linked x' (Link.mk cl s' (Link.number n) up' down') ∧ Client._query_num cl = qn + 1.
Proof.
  intros [L1 L2 L3 L4 L5 L6 L7 L8 L9 L10] qn Hs El Esub Hst Hr Hu Hd En Hn Hq Er Hh. fold qn in L8, L9. rewrite wrap_small in En by lia.
  split; [|done]. exists X', c'. split; cbn [Link.client Link.server Link.number Link.up Link.down]; try done.
  - by rewrite En.
  - lia.
  - intros k a Ha. rewrite En, Er. destruct (Hq k a Ha) as [[-> ->]|Ho]; [lia|]. destruct (L9 k a Ho). lia.
Qed.

Lemma answer_ok x X c n f nd kind l : linked_by x X c n → let qn := Client._query_num (Link.client n) in
  qn + 1 < 2 ^ 32 → kind ≠ SUBSCRIBE → fits_frame nd →
  f (Link.client n) = Ok (length (Client.results (Link.client n)), asked_with (new_result qn kind) nd (Link.client n)) →
  handled now (Link.number n) qn (received nd) l X (Link.server n) c →
  ∃ n' r, (linked x n' ∧ Client._query_num (Link.client n') = qn + 1) ∧ given r = l ∧
    ∀ fuel, (length l + 4 <= fuel)%nat → Link.answer now fuel f n = Ok (r, n').
Proof.
  intros Hl qn Hn Hk Hnd Ef (s' & c' & ds & Er & Hs' & [Ew Esr] & Hds). pose proof (li_number _ _ _ _ Hl) as Hn0.
  set (cl := Link.client n) in *. set (a := length (Client.results cl)) in *. set (r0 := new_result qn kind) in *.
  pose proof (asked_asks r0 nd cl (li_state _ _ _ _ Hl)) as Hasks.
  pose proof (client_answer qn a r0 _ ds l ltac:(lia) Hasks eq_refl Hk Hds) as Erun.
  pose proof (asked_socket r0 nd cl (li_ready _ _ _ _ Hl)) as Es.
  set (rf := closed_result (add_calls l (accepted r0))) in *. set (c1 := asked_with r0 nd cl) in *.
  set (n2 := Link.mk (Client.erase qn (set_result a rf c1)) s' (Link.number n)
    (length (written (Client._socket cl) ++ NetData.as_buffer nd))
    (length (written (IOClient.sock c) ++ wire (IOClient.ok_message qn :: ds ++ [ClientDataReader.end_message qn])))).
  assert (Eres : Client.results (Link.client n2) !! a = Some rf).
  { unfold n2. cbn [Link.client Client.erase Client.set_queries Client.results]. unfold c1, a. rewrite set_asked.
    rewrite lookup_app_r, Nat.sub_diag by lia. done. }
  exists (Link.set_client (set_result a (lock rf) (Link.client n2)) n2), rf.
  assert (Hq : delete qn (<[qn := a]> (Client._query_results cl)) = Client._query_results cl) by (apply delete_insert_id; by eapply query_fresh).
  assert (Hr : Client.results (set_result a (lock rf) (Link.client n2)) = Client.results cl ++ [lock rf]).
  { cbn. unfold a. by rewrite list_insert_insert_eq, insert_app_r_alt, Nat.sub_diag by lia. }
  split; [|split].
  - eapply (linked_after x X c n x X c'); [done|exact Hs'|apply Hl|apply Hl|apply Hl| | |by rewrite Ew|done|done| | |].
    + change (ready (Client._async_connection cl) (Client._socket c1)). rewrite Es. by destruct (li_ready _ _ _ _ Hl) as (R1 & R2 & R3).
    + change (length (written (Client._socket cl) ++ NetData.as_buffer nd) = length (written (Client._socket c1))). by rewrite Es.
    + intros k b. change (delete qn (<[qn := a]> (Client._query_results cl)) !! k = Some b → k = qn ∧ b = a ∨ Client._query_results cl !! k = Some b).
      rewrite Hq. by right.
    + change (length (Client.results (set_result a (lock rf) (Link.client n2))) = S a). rewrite Hr, length_app. cbn. fold a. lia.
    + rewrite Esr. eapply hearing_more; [apply (li_heard _ _ _ _ Hl)|apply Hl| |exact Hr|done].
      intros q b _ Hb. change (delete qn (<[qn := a]> (Client._query_results cl)) !! q = Some b). by rewrite Hq.
  - unfold rf. rewrite given_closed, given_add_calls by done. done.
  - intros fuel Hf. unfold Link.answer. fold cl. rewrite Ef, bind_Ok.
    rewrite (exchange fuel (Link.set_client c1 n) nd (written (Client._socket cl)) s' c' (written (IOClient.sock c))
      (IOClient.ok_message qn :: ds ++ [ClientDataReader.end_message qn]) (Client.erase qn (set_result a rf c1))); try done.
    + rewrite bind_Ok. unfold Link.wait. change (Link.mk _ _ _ _ _) with n2. by rewrite Eres.
    + apply Hl.
    + apply (at_client _ _ _ _ (sv_attached _ _ _ _ _ Hs')).
    + apply Hl.
    + constructor; [split; [apply ok_fits|apply ok_quiet]|]. apply Forall_app. split; [by eapply carry_all_plain|].
      apply Forall_singleton. split; [apply end_fits|apply end_quiet].
    + pose proof (carry_all_length _ _ _ Hds). cbn [length]. rewrite length_app. cbn [length]. lia.
Qed.

(** *** Reading *)

Definition id_range (ids : list Z) : Prop := Forall (fun i => 0 <= i < 2 ^ 32) ids.

(** What the headers can hold. *)
Record interval_fits (q : QueryInterval) : Prop := {
  if_order : qi_from q < qi_to q;
  if_from : 0 <= qi_from q;
  if_to : qi_to q < 2 ^ 64;
  if_flag : 0 <= qi_flag q < 2 ^ 32;
  if_ids : id_range (qi_ids q);
  if_room : 27 + 4 * Z.of_nat (length (qi_ids q)) <= 65533;
}.

Record current_fits (ids : list Z) (fl : Z) : Prop := {
  cf_flag : 0 <= fl < 2 ^ 32;
  cf_ids : id_range ids;
  cf_room : 11 + 4 * Z.of_nat (length ids) <= 65533;
}.

Lemma read_ok x n q : linked x n → Client._query_num (Link.client n) + 1 < 2 ^ 32 → interval_fits q →
  sto_fits (se_log x) → flags_exact q (se_log x) → Forall clean (se_log x) →
  ∃ n', linked x n' ∧ Client._query_num (Link.client n') = Client._query_num (Link.client n) + 1 ∧
    ∀ fuel, (length (interval_answer q (se_log x)) + 4 <= fuel)%nat →
      Link.readInterval now fuel q n = Ok (interval_answer q (se_log x), n').
Proof.
  intros (X & c & Hl) Hn [Q1 Q2 Q3 Q4 Q5 Q6] Hfit Hfl Hc. set (qn := Client._query_num (Link.client n)) in *.
  pose proof (li_number _ _ _ _ Hl) as Hn0. fold qn in Hn0. rewrite <- (li_log _ _ _ _ Hl) in *.
  set (h := mkInterval (kind_number READ_INTERVAL) qn (qi_from q) (qi_to q) (qi_flag q) (Z.of_nat (length (qi_ids q)))).
  destruct (query_message_ok h (qi_ids q)) as (Hnd & Hh & Hids); [in_fields|done|done|].
  pose proof (ask_sends READ_INTERVAL (fun k count => mkInterval (kind_number READ_INTERVAL) k (qi_from q) (qi_to q) (qi_flag q) count)
    (qi_ids q) (Link.client n) Q6) as Ef. fold qn h in Ef.
  pose proof (interval_handled now qn (Link.number n) X (Link.server n) c _ qn (qi_ids q) (qi_flag q) (qi_from q) (qi_to q)
    (li_serving _ _ _ _ Hl) ltac:(lia) ltac:(lia) Hh Hids Q1 Hfit Hfl Hc) as Hhd.
  destruct (answer_ok x X c n (Client.readInterval q) _ READ_INTERVAL _ Hl Hn ltac:(done) Hnd Ef Hhd) as (n' & r & (Hl' & Hn') & Hg & Ha).
  exists n'. split; [done|]. split; [done|]. intros fuel Hf. unfold Link.readInterval. rewrite (Ha fuel Hf), bind_Ok. by rewrite Hg.
Qed.

Lemma latest_in log i m : Forall (fun m => 0 < time m) log → latest log !! i = Some m → m ∈ log ∧ id m = i.
Proof.
  revert i m. induction log as [|m' log IH] using rev_ind; intros i m Ht Hm; [done|].
  apply Forall_app in Ht as [Ht Htm]. rewrite Forall_singleton in Htm. rewrite latest_snoc in Hm.
  apply lookup_insert_Some in Hm as [[<- <-]|[Hne Hm]].
  - unfold newer. destruct (latest log !! id m') as [c|] eqn:Ec; cbn [default].
    + destruct (IH _ _ Ht Ec) as [Hin Hid]. destruct (_ <? _); set_solver.
    + rewrite (proj2 (Z.ltb_lt _ _)) by exact Htm. set_solver.
  - destruct (IH _ _ Ht Hm). set_solver.
Qed.

(** A map is made again from its measurements. *)
Lemma by_id_values (m : gmap Z Meas) l : (∀ i v, m !! i = Some v → id v = i) → l ≡ₚ map_to_list m → Link.by_id l.*2 = m.
Proof.
  intros Hid Hl. assert (Hk : Forall (fun kv : Z * Meas => id kv.2 = kv.1) l).
  { apply Forall_forall. intros [i v] Hin. rewrite Hl in Hin. apply elem_of_map_to_list in Hin. by apply Hid. }
  assert (Hnd : NoDup l.*1) by (rewrite Hl; apply NoDup_fst_map_to_list).
  rewrite <- (list_to_map_to_list m), <- (list_to_map_proper _ _ Hnd Hl). unfold Link.by_id.
  assert (Hgen : ∀ m0, (∀ i, i ∈ l.*1 → m0 !! i = None) →
    fold_left (fun (r : gmap Z Meas) v => <[id v := v]> r) l.*2 m0 = list_to_map l ∪ m0).
  { clear Hl. induction l as [|[i v] l IH]; intros m0 Hm0; cbn [fmap list_fmap fold_left]; [by rewrite list_to_map_nil, (left_id_L ∅ (∪))|].
    apply Forall_cons in Hk as [Hi Hk]. cbn in Hi. subst i. apply NoDup_cons in Hnd as [Hni Hnd]. rewrite IH; [|done|done|].
    - rewrite list_to_map_cons, <- insert_union_l, insert_union_r; [done|]. by apply not_elem_of_list_to_map_1.
    - intros j Hj. rewrite lookup_insert_ne; [apply Hm0; by right|]. intros Ej. apply Hni. cbn in Ej |- *. by rewrite Ej. }
  rewrite Hgen by (intros; apply lookup_empty). apply (right_id_L ∅ (∪)).
Qed.

Lemma current_ok x n ids fl : linked x n → Client._query_num (Link.client n) + 1 < 2 ^ 32 → current_fits ids fl →
  sto_fits (se_log x) → Forall clean (se_log x) → Forall (fun m => 0 < time m) (se_log x) →
  let found := base.filter (asked ids fl) (latest (se_log x)) in
  ∃ n', linked x n' ∧ Client._query_num (Link.client n') = Client._query_num (Link.client n) + 1 ∧
    ∀ fuel, (size found + 4 <= fuel)%nat → Link.currentValue now fuel ids fl n = Ok (found, n').
Proof.
  intros (X & c & Hl) Hn [Q4 Q5 Q6] Hfit Hc Ht found. set (qn := Client._query_num (Link.client n)) in *.
  pose proof (li_number _ _ _ _ Hl) as Hn0. fold qn in Hn0.
  set (h := mkCurrentValue (kind_number CURRENT_VALUE) qn fl (Z.of_nat (length ids))).
  destruct (query_message_ok h ids) as (Hnd & Hh & Hids); [in_fields|done|done|].
  pose proof (ask_sends CURRENT_VALUE (fun k count => mkCurrentValue (kind_number CURRENT_VALUE) k fl count) ids (Link.client n) Q6) as Ef.
  fold qn h in Ef.
  assert (Hfound : ∀ i v, found !! i = Some v → v ∈ se_log x ∧ id v = i).
  { intros i v [Hv _]%map_lookup_filter_Some. by apply latest_in. }
  assert (Hclean : Forall clean (um_list found).*2).
  { apply Forall_fmap, Forall_forall. intros [i v] Hin. rewrite um_perm in Hin. apply elem_of_map_to_list, Hfound in Hin as [Hin _].
    rewrite Forall_forall in Hc. by apply Hc. }
  assert (Hhd : handled now (Link.number n) qn (received (query_message h ids)) (um_list found).*2 X (Link.server n) c).
  { unfold found in *. rewrite <- (li_log _ _ _ _ Hl) in *.
    apply (current_handled now qn) with (ids := ids) (fl := fl); [apply (li_serving _ _ _ _ Hl)|lia|lia|done|done|done|done]. }
  destruct (answer_ok x X c n (Client.currentValue ids fl) _ CURRENT_VALUE _ Hl Hn ltac:(done) Hnd Ef Hhd) as (n' & r & (Hl' & Hn') & Hg & Ha).
  exists n'. split; [done|]. split; [done|]. intros fuel Hf. unfold Link.currentValue. rewrite (Ha fuel), bind_Ok, Hg.
  - rewrite by_id_values with (m := found); [done|intros i v Hv; by apply Hfound|apply um_perm].
  - rewrite length_fmap, um_perm, length_map_to_list. done.
Qed.

(** *** Subscribing *)

Lemma subscribe_ok x n ids fl : linked x n → Client._query_num (Link.client n) + 1 < 2 ^ 32 → current_fits ids fl →
  ∃ n' r, (linked (mkSession (se_log x) (se_subs x ++ [(ids, fl)]) (se_heard x)) n' ∧
    Client._query_num (Link.client n') = Client._query_num (Link.client n) + 1) ∧
    ∀ fuel, (3 <= fuel)%nat → Link.subscribe now fuel ids fl n = Ok (r, n').
Proof.
  intros (X & c & Hl) Hn [Q4 Q5 Q6]. set (cl := Link.client n) in *. set (qn := Client._query_num cl) in *.
  pose proof (li_number _ _ _ _ Hl) as Hn0. fold cl qn in Hn0.
  set (h := mkCurrentValue (kind_number SUBSCRIBE) qn fl (Z.of_nat (length ids))).
  destruct (query_message_ok h ids) as (Hnd & Hh & Hids); [in_fields|done|done|]. set (nd := query_message h ids) in *.
  pose proof (ask_sends SUBSCRIBE (fun k count => mkCurrentValue (kind_number SUBSCRIBE) k fl count) ids cl Q6) as Ef.
  cbv beta in Ef. fold qn h nd in Ef.
  destruct (subscribe_handled now qn (Link.number n) X (Link.server n) c (received nd) qn ids fl) as (s' & c' & Er & Hs' & Ew & Esr);
    [apply (li_serving _ _ _ _ Hl)|lia|lia|done|done|].
  set (q := default qn (IOClient.subscribe_reader c)) in *. set (a := length (Client.results cl)) in *. set (r0 := new_result qn SUBSCRIBE) in *.
  pose proof (asked_asks r0 nd cl (li_state _ _ _ _ Hl)) as Hasks. pose proof (asked_socket r0 nd cl (li_ready _ _ _ _ Hl)) as Es.
  set (c1 := asked_with r0 nd cl) in *. set (rf := accepted_result r0). set (c2 := set_result a rf c1).
  assert (Erun : client_run [IOClient.ok_message qn] c1 = Ok c2).
  { unfold client_run. cbn [foldM]. by rewrite (recv_ok qn a r0) by (done || lia). }
  exists (Link.mk (set_result a (lock rf) c2) s' (Link.number n) (length (written (Client._socket cl) ++ NetData.as_buffer nd))
    (length (written (IOClient.sock c) ++ wire [IOClient.ok_message qn]))), rf.
  assert (Hres : Client.results (set_result a (lock rf) c2) = Client.results cl ++ [lock rf]).
  { unfold c2. rewrite set_set_result. apply set_asked. }
  split.
  - eapply (linked_after x X c n _ _ c'); [done|exact Hs'|apply Hl| |apply Hl| | |by rewrite Ew|done|done| | |];
      cbn [se_subs se_heard].
    + cbn [spec_op snd sp_subs]. by rewrite fmap_app, (li_subs _ _ _ _ Hl).
    + change (ready (Client._async_connection cl) (Client._socket c1)). rewrite Es. by destruct (li_ready _ _ _ _ Hl) as (R1 & R2 & R3).
    + change (length (written (Client._socket cl) ++ NetData.as_buffer nd) = length (written (Client._socket c1))). by rewrite Es.
    + intros k b. change (<[qn := a]> (Client._query_results cl) !! k = Some b → k = qn ∧ b = a ∨ Client._query_results cl !! k = Some b).
      intros [[<- <-]|[_ Hb]]%lookup_insert_Some; [by left|by right].
    + change (length (Client.results (set_result a (lock rf) c2)) = S a). rewrite Hres, length_app. cbn. fold a. lia.
    + rewrite Esr. unfold q. eapply hearing_subscribe; [apply (li_heard _ _ _ _ Hl)|eapply asks_set, asks_set, Hasks| |exact Hres|done..].
      intros q0 b Hq0 Hb. destruct (at_number _ _ _ _ (sv_attached _ _ _ _ _ (li_serving _ _ _ _ Hl)) q0 Hq0) as [_ B1]. fold cl qn in B1.
      change (<[qn := a]> (Client._query_results cl) !! q0 = Some b). rewrite lookup_insert_ne by lia. apply Hb.
  - intros fuel Hf. unfold Link.subscribe, Link.answer. fold cl. unfold Client.subscribe. rewrite Ef, bind_Ok.
    rewrite (exchange fuel (Link.set_client c1 n) nd (written (Client._socket cl)) s' c' (written (IOClient.sock c))
      [IOClient.ok_message qn] c2); try done.
    + rewrite bind_Ok. unfold Link.wait. cbn [Link.client].
      assert (Client.results c2 !! a = Some rf) as -> by exact (as_result _ _ _ _ (asks_set _ _ _ rf _ Hasks)). done.
    + apply Hl.
    + apply (at_client _ _ _ _ (sv_attached _ _ _ _ _ Hs')).
    + apply Hl.
    + apply Forall_singleton. split; [apply ok_fits|apply ok_quiet].
Qed.

(** *** Appending *)

Definition with_results (rs : list ReadResult) (c : Client.t) : Client.t :=
  Client.set_queries (Client._query_num c) (Client._query_results c) rs c.

(** The client on the messages of its subscriptions, while it waits for an answer. *)
Lemma client_notes x X c n ds ms r0 nd : linked_by x X c n → notes c ds ms → let cl := Link.client n in
  ∃ rs, length rs = length (Client.results cl) ∧ hearing (se_heard x ++ ms) (IOClient.subscribe_reader c) (with_results rs cl) ∧
    client_run ds (asked_with r0 nd cl) = Ok (asked_with r0 nd (with_results rs cl)).
Proof.
  intros Hl Hn cl. pose proof (li_heard _ _ _ _ Hl) as Hh. fold cl in Hh. unfold notes in Hn.
  pose proof (at_number _ _ _ _ (sv_attached _ _ _ _ _ (li_serving _ _ _ _ Hl))) as Hq. fold cl in Hq.
  destruct (IOClient.subscribe_reader c) as [q|].
  - destruct Hh as (a & r & Hr & Hg). destruct (Hq q eq_refl) as [_ B]. pose proof (lookup_lt_Some _ _ _ (as_result _ _ _ _ (hs_asks _ _ _ _ Hr))) as Hlt.
    exists (<[a := add_calls ms r]> (Client.results cl)). split; [apply length_insert|]. destruct Hr as [Ha Hk Hc Ho Hf]. split.
    + exists a, (add_calls ms r). split; [|by rewrite given_add_calls, Hg]. split; try done; [by eapply asks_set|].
      cbn. by rewrite take_insert_ge by lia.
    + assert (Ha1 : asks q a r (asked_with r0 nd cl)).
      { split; [apply Ha|cbn; rewrite lookup_insert_ne by lia; apply Ha|]. cbn. by rewrite lookup_app_l, (as_result _ _ _ _ Ha). }
      rewrite (recv_all q a r _ ds ms Ha1 Hc Hn). f_equal. unfold set_result, asked_with, with_results, Client.set_queries, Client.send.
      cbn. by rewrite insert_app_l, length_insert.
  - destruct Hn as [-> ->]. exists (Client.results cl). split; [done|]. rewrite app_nil_r. unfold with_results. destruct cl. by split.
Qed.

Definition append_result (qn : Z) : ReadResult := mkReadResult qn APPEND false false false false 0 false [].

(** What a client sees after an append. *)
Definition session_append (ms : list Meas) (x : session) : session :=
  mkSession (se_log x ++ ms) (se_subs x) (se_heard x ++ concat (session_heard (se_subs x) <$> ms)).

(** The client and the server when the answer to a message arrived. *)
Lemma append_after x X c n s' c' ds nd rs part hs : linked_by x X c n → let cl := Link.client n in let qn := Client._query_num cl in
  qn + 1 < 2 ^ 32 → serving qn (Link.number n) (logged X part) s' c' →
  IOClient.sock c' = mkSocket true (written (IOClient.sock c) ++ wire ds) →
  IOClient.subscribe_reader c' = IOClient.subscribe_reader c → length rs = length (Client.results cl) →
  hearing (se_heard x ++ hs) (IOClient.subscribe_reader c) (with_results rs cl) →
  let c2 := set_result (length (Client.results cl)) (accepted (append_result qn)) (asked_with (append_result qn) nd (with_results rs cl)) in
  linked (mkSession (se_log x ++ part) (se_subs x) (se_heard x ++ hs))
    (Link.mk (Client.erase qn c2) s' (Link.number n) (length (written (Client._socket cl) ++ NetData.as_buffer nd))
      (length (written (IOClient.sock c) ++ wire ds))) ∧ Client._query_num (Client.erase qn c2) = qn + 1.
Proof.
  intros Hl cl qn Hn Hs' Ew Esr Hlen Hhear c2. set (a := length (Client.results cl)) in *. set (cl' := with_results rs cl) in *.
  pose proof (asked_socket (append_result qn) nd cl (li_ready _ _ _ _ Hl)) as Es.
  assert (Hres : Client.results c2 = rs ++ [accepted (append_result qn)]).
  { unfold c2. rewrite <- Hlen. change (length rs) with (length (Client.results cl')). apply set_asked. }
  assert (Hq : Client._query_results (Client.erase qn c2) = Client._query_results cl).
  { change (Client._query_results (Client.erase qn c2)) with (delete qn (<[qn := length rs]> (Client._query_results cl))).
    apply delete_insert_id. by eapply query_fresh. }
  eapply (linked_after x X c n _ _ c'); [done|apply (serving_mono qn); [change (qn <= qn + 1); lia|exact Hs']| |apply Hl|apply Hl
    | | |by rewrite Ew|done|done| | |].
  - cbn. by rewrite (li_log _ _ _ _ Hl).
  - change (ready (Client._async_connection cl) (Client._socket (asked_with (append_result qn) nd cl))). rewrite Es.
    by destruct (li_ready _ _ _ _ Hl) as (R1 & R2 & R3).
  - change (length (written (Client._socket cl) ++ NetData.as_buffer nd) = length (written (Client._socket (asked_with (append_result qn) nd cl)))).
    by rewrite Es.
  - intros j b. rewrite Hq. by right.
  - change (length (Client.results c2) = S a). rewrite Hres, length_app. cbn. lia.
  - rewrite Esr. eapply hearing_more; [exact Hhear|apply Hl| |exact Hres|done]. intros q b _ Hb. by rewrite Hq.
Qed.

(** One message. *)
Lemma append_step x n ms w : linked x n → let qn := Client._query_num (Link.client n) in qn + 1 < 2 ^ 32 →
  (w < length ms)%nat → Forall clean (drop w ms) → sto_fits (se_log x ++ drop w ms) →
  ∃ k c1 n1, let a := length (Client.results (Link.client n)) in
    let part := take k (drop w ms) in let n' := Link.set_client (Client.erase qn (Link.client n1)) n1 in
    (1 <= k <= length ms - w)%nat ∧ Client.append_one ms w (Link.client n) = Ok (a, Z.of_nat k, c1) ∧
    (linked (session_append part x) n' ∧ Client._query_num (Link.client n') = qn + 1) ∧
    Client.results (Link.client n1) !! a = Some (accepted (append_result qn)) ∧
    ∀ fuel, (length (concat (session_heard (se_subs x) <$> part)) + 3 <= fuel)%nat →
      Link.settle now fuel (Link.set_client c1 n) = Ok n1.
Proof.
  intros (X & c & Hl) qn Hn Hw Hms Hfit. set (cl := Link.client n) in *. pose proof (li_number _ _ _ _ Hl) as Hn0. fold cl qn in Hn0.
  destruct (append_message_carries qn ms w ltac:(lia) Hw Hms) as (nd & k & Em & Hk & Hnd). set (part := take k (drop w ms)) in *.
  assert (Hpart : Forall clean part) by by apply Forall_take.
  assert (Hfit' : sto_fits (sp_log X ++ part)).
  { rewrite (li_log _ _ _ _ Hl). rewrite <- (take_drop k (drop w ms)), app_assoc in Hfit. by eapply sto_prefix. }
  destruct (append_handled now qn (Link.number n) X (Link.server n) c (received nd) qn part (li_serving _ _ _ _ Hl)
    (received_carries _ _ _ Hnd) Hfit' Hpart) as (s' & c' & ds & Er & Hs' & [Ew Esr] & Hnotes).
  assert (Ehe : heard (sp_subs X) <$> part = session_heard (se_subs x) <$> part).
  { apply list_fmap_ext. intros. by eapply heard_session. }
  rewrite Ehe in Hnotes. set (hs := concat (session_heard (se_subs x) <$> part)) in *.
  set (r0 := append_result qn). set (a := length (Client.results cl)).
  destruct (client_notes x X c n ds hs r0 nd Hl Hnotes) as (rs & Hlen & Hhear & Erun). fold cl a in Hlen, Hhear, Erun.
  set (cl' := with_results rs cl) in *. set (c1 := asked_with r0 nd cl) in *. set (c2 := set_result a (accepted r0) (asked_with r0 nd cl')).
  pose proof (asked_asks r0 nd cl' (li_state _ _ _ _ Hl)) as Hasks. change (length (Client.results cl')) with (length rs) in Hasks. rewrite Hlen in Hasks.
  assert (Erun2 : client_run (ds ++ [IOClient.ok_message qn]) c1 = Ok c2).
  { unfold client_run in *. rewrite foldM_app, Erun, bind_Ok. cbn [foldM]. by rewrite (recv_ok qn a r0) by (done || lia). }
  pose proof (asked_socket r0 nd cl (li_ready _ _ _ _ Hl)) as Es. fold c1 in Es.
  assert (Hres : Client.results c2 = rs ++ [accepted r0]).
  { unfold c2. rewrite <- Hlen. change (length rs) with (length (Client.results cl')). apply set_asked. }
  exists k, c1, (Link.mk c2 s' (Link.number n) (length (written (Client._socket cl) ++ NetData.as_buffer nd))
    (length (written (IOClient.sock c) ++ wire (ds ++ [IOClient.ok_message qn])))).
  cbv zeta. split; [done|]. split; [|split; [|split]].
  - unfold Client.append_one. fold qn. by rewrite Em, bind_Ok.
  - exact (append_after x X c n s' c' _ nd rs part hs Hl Hn Hs' Ew Esr Hlen Hhear).
  - cbn [Link.client]. rewrite Hres, lookup_app_r, Hlen, Nat.sub_diag by lia. done.
  - intros fuel Hf. change (length hs + 3 <= fuel)%nat in Hf. destruct (notes_plain _ _ _ Hnotes) as [Hpl Hle].
    apply (exchange fuel (Link.set_client c1 n) nd (written (Client._socket cl)) s' c' (written (IOClient.sock c))); try done.
    + apply Hl.
    + apply Hnd.
    + apply (at_client _ _ _ _ (sv_attached _ _ _ _ _ Hs')).
    + apply Hl.
    + apply Forall_app. split; [done|]. apply Forall_singleton. split; [apply ok_fits|apply ok_quiet].
    + rewrite length_app. cbn [length]. lia.
Qed.

Lemma session_append_app l1 l2 x : session_append l2 (session_append l1 x) = session_append (l1 ++ l2) x.
Proof. unfold session_append. cbn. by rewrite fmap_app, concat_app, !app_assoc. Qed.

Lemma append_loop k x n ms w : linked x n → let qn := Client._query_num (Link.client n) in
  (length ms - w <= k)%nat → (w <= length ms)%nat → qn + Z.of_nat (length ms - w) < 2 ^ 32 →
  Forall clean (drop w ms) → sto_fits (se_log x ++ drop w ms) →
  ∃ n' f, linked (session_append (drop w ms) x) n' ∧
    qn <= Client._query_num (Link.client n') <= qn + Z.of_nat (length ms - w) ∧
    ∀ fuel, (f <= fuel)%nat → Link.append_from now fuel ms w n = Ok n'.
Proof.
  revert x n w. induction k as [|k IH]; intros x n w Hl qn Hk Hw Hn Hms Hfit.
  all: destruct (decide (w = length ms)) as [->|Hne].
  1, 3: exists n, 0%nat; rewrite drop_ge by lia; split; [|split; [lia|]];
    [unfold session_append; cbn; rewrite !app_nil_r; by destruct x|intros [|fuel] _; cbn; by rewrite Nat.eqb_refl].
  - lia.
  - destruct (append_step x n ms w Hl ltac:(fold qn; lia) ltac:(lia) Hms Hfit) as (j & c1 & n1 & Hj & E1 & (Hl1 & Hn1) & Hr & Hset).
    fold qn in Hl1, Hn1, Hr. set (n2 := Link.set_client _ n1) in *. set (part := take j (drop w ms)) in *.
    assert (Edrop : drop w ms = part ++ drop (w + j) ms) by (unfold part; by rewrite <- drop_drop, take_drop).
    destruct (IH _ n2 (w + j)%nat Hl1) as (n' & f & Hl' & Hn' & Ha).
    + lia.
    + lia.
    + rewrite Hn1. lia.
    + rewrite Edrop in Hms. by apply Forall_app in Hms as [_ ?].
    + cbn. by rewrite <- app_assoc, <- Edrop.
    + rewrite session_append_app, <- Edrop in Hl'. rewrite Hn1 in Hn'.
      exists n', (S (f `max` (length (concat (session_heard (se_subs x) <$> part)) + 3)))%nat.
      split; [done|]. split; [lia|]. intros [|fuel] Hf; [lia|]. cbn [Link.append_from]. rewrite (proj2 (Nat.eqb_neq _ _)) by lia.
      rewrite E1, bind_Ok. rewrite (Hset (S fuel)) by lia. rewrite bind_Ok, Hr. cbn [is_ok accepted append_result negb andb].
      rewrite Nat2Z.id. fold qn. apply Ha. lia.
Qed.

Lemma append_ok x n ms : linked x n → let qn := Client._query_num (Link.client n) in qn + Z.of_nat (length ms) < 2 ^ 32 →
  Forall clean ms → sto_fits (se_log x ++ ms) →
  ∃ n' f, linked (session_append ms x) n' ∧ qn <= Client._query_num (Link.client n') <= qn + Z.of_nat (length ms) ∧
    ∀ fuel, (f <= fuel)%nat → Link.append now fuel ms n = Ok n'.
Proof.
  intros Hl qn Hn Hms Hfit. destruct (append_loop (length ms) x n ms 0 Hl) as (n' & f & Hl' & Hn' & Ha);
    rewrite ?Nat.sub_0_r, ?drop_0 in *; [lia|lia|done|done|done|]. by exists n', f.
Qed.

(** *** Sequences of calls *)

(** Calls of the client, and turns of the threads of the storage, which do [turn]. *)
Inductive net_op :=
| NAppend (ms : list Meas)
| NSubscribe (ids : list Z) (fl : Z)
| NRead (q : QueryInterval)
| NCurrent (ids : list Z) (fl : Z)
| NTurn.

Definition net_do (turn : E → outcome E) (fuel : nat) (o : net_op) n : outcome (answer * Link.t E) :=
  match o with
  | NAppend ms => n ← Link.append now fuel ms n; Ok (Done, n)
  | NSubscribe ids fl => '(_, n) ← Link.subscribe now fuel ids fl n; Ok (Done, n)
  | NRead q => '(l, n) ← Link.readInterval now fuel q n; Ok (Values l, n)
  | NCurrent ids fl => '(m, n) ← Link.currentValue now fuel ids fl n; Ok (Latest m, n)
  | NTurn =>
    '(_, s) ← Server.with_storage (fun e => e ← turn e; Ok ((), e)) (Link.server n);
    Ok (Done, Link.mk (Link.client n) s (Link.number n) (Link.up n) (Link.down n))
  end.

Fixpoint net_run (turn : E → outcome E) (fuel : nat) (ops : list net_op) n : outcome (list answer * Link.t E) :=
  match ops with
  | [] => Ok ([], n)
  | o :: ops => '(a, n) ← net_do turn fuel o n; '(rest, n) ← net_run turn fuel ops n; Ok (a :: rest, n)
  end.

(** What the client is to see. *)
Definition net_spec_op (o : net_op) (x : session) : answer * session :=
  match o with
  | NAppend ms => (Done, session_append ms x)
  | NSubscribe ids fl => (Done, mkSession (se_log x) (se_subs x ++ [(ids, fl)]) (se_heard x))
  | NRead q => (Values (interval_answer q (se_log x)), x)
  | NCurrent ids fl => (Latest (base.filter (asked ids fl) (latest (se_log x))), x)
  | NTurn => (Done, x)
  end.

Fixpoint net_spec_run (ops : list net_op) (x : session) : list answer * session :=
  match ops with
  | [] => ([], x)
  | o :: ops => let '(a, x) := net_spec_op o x in let '(rest, x) := net_spec_run ops x in (a :: rest, x)
  end.

Definition net_appended (ops : list net_op) : list Meas :=
  concat ((fun o => match o with NAppend ms => ms | _ => [] end) <$> ops).

(** The numbers a call takes at most. *)
Definition net_cost (o : net_op) : Z := match o with NAppend ms => Z.of_nat (length ms) | NTurn => 0 | _ => 1 end.
Definition net_costs (ops : list net_op) : Z := foldr Z.add 0 (net_cost <$> ops).

(** Calls that keep to the rules; [log] is all that will have been appended. *)
Definition net_fair (log : list Meas) (o : net_op) : Prop :=
  match o with
  | NAppend ms => True
  | NSubscribe ids fl | NCurrent ids fl => current_fits ids fl
  | NRead q => interval_fits q ∧ flags_exact q log
  | NTurn => True
  end.

(** What can be appended through the network: positive values that fit a message, and
    no time of zero. *)
Definition net_clean (log : list Meas) : Prop := Forall clean log ∧ Forall (fun m => 0 < time m) log.

Lemma turn_ok x n : linked x n → sto_fits (se_log x) →
  ∃ n', linked x n' ∧ Client._query_num (Link.client n') = Client._query_num (Link.client n) ∧
    ∀ fuel, net_do sto_turn fuel NTurn n = Ok (Done, n').
Proof.
  intros (X & c & Hl) Hfit. destruct Hl as [[[A1 A2 A3 A4 A5] (e & Ee & He) S3] L2 L3 L4 L5 L6 L7 L8 L9 L10].
  rewrite <- L2 in Hfit. destruct (sto_turns X e He Hfit) as (e' & E' & He').
  eexists (Link.mk (Link.client n) (Server.set_storage_ptr (Some e') (Link.server n)) (Link.number n) (Link.up n) (Link.down n)).
  split; [|split; [done|]].
  - exists X, c. split; try done. split; [by split| |done]. by exists e'.
  - intros fuel. unfold net_do, Server.with_storage. by rewrite Ee, E', !bind_Ok.
Qed.

Lemma net_op_ok o x n log : linked x n → net_clean (se_log x ++ net_appended [o]) → sto_fits (se_log x ++ net_appended [o]) →
  net_fair log o → se_log x `prefix_of` log → Client._query_num (Link.client n) + net_cost o < 2 ^ 32 →
  ∃ n' f, linked (net_spec_op o x).2 n' ∧
    Client._query_num (Link.client n') <= Client._query_num (Link.client n) + net_cost o ∧
    ∀ fuel, (f <= fuel)%nat → net_do sto_turn fuel o n = Ok ((net_spec_op o x).1, n').
Proof.
  intros Hl [Hc Ht] Hfit Hfair [l' Elog] Hn. apply Forall_app in Hc as [Hc Hcm]. apply Forall_app in Ht as [Ht _].
  pose proof (sto_prefix _ _ Hfit) as Hfit0. destruct o as [ms|ids fl|q|ids fl|]; cbn [net_appended fmap list_fmap concat] in *.
  - rewrite app_nil_r in *. destruct (append_ok x n ms Hl Hn Hcm Hfit) as (n' & f & Hl' & Hn' & Ha). exists n', f. split; [done|].
    split; [cbn; lia|]. intros fuel Hf. cbn [net_do]. by rewrite (Ha fuel Hf).
  - destruct (subscribe_ok x n ids fl Hl Hn Hfair) as (n' & r & (Hl' & Hn') & Ha). exists n', 3%nat. split; [done|]. split; [cbn; lia|].
    intros fuel Hf. cbn [net_do]. by rewrite (Ha fuel Hf).
  - destruct Hfair as [Hq Hfl]. destruct (read_ok x n q Hl Hn Hq Hfit0) as (n' & Hl' & Hn' & Ha); [|done|].
    { subst log. by apply Forall_app in Hfl as [? _]. }
    eexists n', _. split; [done|]. split; [cbn; lia|]. intros fuel Hf. cbn [net_do]. by rewrite (Ha fuel Hf).
  - destruct (current_ok x n ids fl Hl Hn Hfair Hfit0 Hc Ht) as (n' & Hl' & Hn' & Ha). eexists n', _. split; [done|].
    split; [cbn; lia|]. intros fuel Hf. cbn [net_do]. by rewrite (Ha fuel Hf).
  - destruct (turn_ok x n Hl Hfit0) as (n' & Hl' & Hn' & Ha). exists n', 0%nat. split; [done|]. split; [cbn; lia|]. intros fuel _. apply Ha.
Qed.

Lemma net_spec_log o x : se_log (net_spec_op o x).2 = se_log x ++ net_appended [o].
Proof. destruct o; cbn; by rewrite ?app_nil_r. Qed.

Lemma net_cost_pos ops : 0 <= net_costs ops.
Proof. unfold net_costs. induction ops as [|o ops IH]; cbn; [lia|]. destruct o; cbn; lia. Qed.

Lemma net_run_ok ops x n : linked x n → net_clean (se_log x ++ net_appended ops) → sto_fits (se_log x ++ net_appended ops) →
  Forall (net_fair (se_log x ++ net_appended ops)) ops → Client._query_num (Link.client n) + net_costs ops < 2 ^ 32 →
  ∃ n' f, linked (net_spec_run ops x).2 n' ∧ ∀ fuel, (f <= fuel)%nat → net_run sto_turn fuel ops n = Ok ((net_spec_run ops x).1, n').
Proof.
  revert x n. induction ops as [|o ops IH]; intros x n Hl Hc Hfit Hf Hn; [by exists n, 0%nat|].
  apply Forall_cons in Hf as [Ho Hf]. pose proof (net_cost_pos ops) as Hpos.
  assert (Eapp : se_log x ++ net_appended (o :: ops) = (se_log x ++ net_appended [o]) ++ net_appended ops).
  { unfold net_appended. cbn. by rewrite app_nil_r, app_assoc. }
  rewrite Eapp in *. change (net_costs (o :: ops)) with (net_cost o + net_costs ops) in Hn.
  destruct (net_op_ok o x n ((se_log x ++ net_appended [o]) ++ net_appended ops) Hl) as (n1 & f1 & Hl1 & Hn1 & E1); try done.
  { destruct Hc as [C1 C2]. apply Forall_app in C1 as [? _]. by apply Forall_app in C2 as [? _]. }
  { by eapply sto_prefix. }
  { eexists. by rewrite <- app_assoc. }
  { lia. }
  pose proof (net_spec_log o x) as El. cbn [net_run net_spec_run]. destruct (net_spec_op o x) as [a x1]. cbn [fst snd] in *.
  destruct (IH x1 n1 Hl1) as (n' & f' & Hl' & E'); [by rewrite El..|lia|].
  destruct (net_spec_run ops x1) as [rest x']. exists n', (f1 `max` f')%nat. split; [done|]. intros fuel Hfu.
  rewrite (E1 fuel), bind_Ok, (E' fuel) by lia. done.
Qed.

(** *** Connecting *)

Lemma first_hello d : nth 0 (NetData.all_data d) 0 = he_kind (header_of QueryHello_header d).
Proof. unfold header_of. destruct (NetData.all_data d) as [|b l]; cbn; rewrite ?take_0; cbn; lia. Qed.

Lemma hello_message_ok hn : Z.of_nat (length hn) <= 30000 →
  let d := Client.hello_message hn in
  fits_frame d ∧ header_of QueryHello_header (received d) = mkHello (kind_number HELLO) PROTOCOL_VERSION (Z.of_nat (length hn)).
Proof.
  intros Hn. unfold Client.hello_message. change (Z.of_nat (size_of QueryHello_header)) with 9. change NetData.MAX_MESSAGE_SIZE with 65535.
  rewrite (wrap_small 16 (Z.of_nat (length hn))), wrap_small, (proj2 (Z.leb_gt _ _)), Nat2Z.id, firstn_all by lia.
  assert (Hf : fits_frame (NetData.mk (Z.of_nat (length hn) + 9)
    (bytes_of (mkHello (kind_number HELLO) PROTOCOL_VERSION (Z.of_nat (length hn))) ++ hn))).
  { unfold fits_frame. cbn [NetData.data NetData.size]. rewrite length_app, length_bytes_of. change (size_of QueryHello_header) with 9%nat.
    change NetData.MAX_MESSAGE_SIZE with 65535. change MARKER_SIZE with 2. lia. }
  split; [done|]. apply header_received; [in_fields|done].
Qed.

(** The message that a client is known. *)
Definition welcome (i : Z) : NetData.t := NetData.mk (1 + 4) (bytes_of (mkOk (kind_number HELLO) i)).

Lemma welcome_ok i : 0 <= i < 2 ^ 32 →
  fits_frame (welcome i) ∧ header_of QueryOk_header (received (welcome i)) = mkOk (kind_number HELLO) i.
Proof.
  intros Hi. change (welcome i) with (NetData.mk (Z.of_nat (size_of QueryOk_header)) (bytes_of (mkOk (kind_number HELLO) i))).
  split; [by apply header_fits|]. apply only_header_received; [in_fields|done].
Qed.

Lemma hello_handled s raw e hn : Server.storage s = Some e → Server._in_stop_logic s = false → Server._clients s = ∅ →
  0 <= Server._next_client_id s < 2 ^ 32 → sto_holds (mkSpec [] []) e → Z.of_nat (length hn) <= 30000 →
  let i := Server._next_client_id s in
  ∃ s1 s2 c, Server.handle_accept raw now s = Ok s1 ∧
    Server.onDataRecv now i (received (Client.hello_message hn)) s1 = Ok (false, s2) ∧
    serving 1 i (mkSpec [] []) s2 c ∧ IOClient.sock c = mkSocket true (wire [welcome i]) ∧ IOClient.subscribe_reader c = None.
Proof.
  intros Ee Hst Hcl Hi He Hn i. destruct (hello_message_ok hn Hn) as [Hf Hh]. unfold Server.handle_accept. rewrite Hst. fold i.
  cbn [IOClient.start IOClient.make IOClient._async_connection]. rewrite bind_Ok, Hcl, lookup_empty.
  set (s1 := Server.mk _ _ _ _ _ _ _ _ _). set (c0 := IOClient.set_connection _ _) in s1. exists s1.
  unfold Server.onDataRecv. rewrite (with_client_ok i _ s1 c0 (IOClient.set_time now c0)), bind_Ok by (done || apply lookup_singleton_eq).
  rewrite first_hello, Hh. cbn [he_kind he_version]. change (kind_of (kind_number HELLO)) with (Some HELLO). cbn match.
  change (Server._in_stop_logic (Server.set_clients _ s1)) with false. cbn match. rewrite Z.eqb_refl. cbn [negb]. unfold Server.hello, Server.bytes_at.
  rewrite Hh. cbn [he_host_size]. change NetData.MAX_MESSAGE_SIZE with 65535. change (size_of QueryHello_header) with 9%nat.
  rewrite (proj2 (Z.leb_le _ _)), bind_Ok by lia. set (name := take _ _).
  rewrite (with_client_ok i _ _ (IOClient.set_time now c0) (IOClient.set_host name (IOClient.set_time now c0))), bind_Ok;
    [|apply lookup_insert_eq|done].
  unfold Server.client_connect. cbn [Server._clients Server.set_clients]. rewrite lookup_insert_eq, bind_Ok.
  set (c1 := IOClient.set_state WORK _). set (s2 := Server.set_clients _ (Server.set_accepted _ _)).
  assert (Hc1 : live c1) by by eexists.
  rewrite (with_client_ok i _ s2 c1 (sent [welcome i] c1)), bind_Ok; [|apply lookup_insert_eq|by apply send_live].
  eexists _, (sent [welcome i] c1). split; [done|]. split; [done|]. split; [|done].
  split; [split|..].
  - apply lookup_insert_eq.
  - by apply live_sent.
  - intros k r Hr. change ((∅ : gmap Z ClientDataReader.t) !! k = Some r) in Hr. by rewrite lookup_empty in Hr.
  - done.
  - done.
  - by exists e.
  - by constructor.
Qed.

Lemma connect_ok s raw_client raw_server e hn : Server.storage s = Some e → Server._in_stop_logic s = false → Server._clients s = ∅ →
  0 <= Server._next_client_id s < 2 ^ 32 → sto_holds (mkSpec [] []) e → Z.of_nat (length hn) <= 30000 →
  ∃ n, linked (mkSession [] [] []) n ∧ Client._query_num (Link.client n) = 1 ∧
    ∀ fuel, (3 <= fuel)%nat → Link.connect now fuel raw_client raw_server hn s = Ok n.
Proof.
  intros Ee Hst Hcl Hi He Hn. set (i := Server._next_client_id s) in *.
  destruct (hello_handled s raw_server e hn Ee Hst Hcl Hi He Hn) as (s1 & s2 & c & E1 & E2 & Hs & Ew & Esr). fold i in E2, Hs, Ew.
  destruct (hello_message_ok hn Hn) as [Hf _]. set (hello := Client.hello_message hn) in *. set (c0 := Client.connected hn (Client.make raw_client)).
  assert (Ek : Client._socket c0 = mkSocket true (NetData.as_buffer hello)) by done.
  destruct (welcome_ok i Hi) as [Hwf Hwh].
  set (c1 := Client.set_state WORK (Client.set_connection (AsyncConnection.set_id i (Client._async_connection c0)) (Client._socket c0) c0)).
  assert (Erc : Client.onDataRecv (received (welcome i)) c0 = Ok (false, c1)).
  { unfold Client.onDataRecv. rewrite first_ok, Hwh. done. }
  exists (Link.mk c1 s2 i (length (NetData.as_buffer hello)) (length (wire [welcome i]))). split; [|split; [done|]].
  - exists (mkSpec [] []), c. split; cbn [Link.client Link.server Link.number Link.up Link.down]; try done.
    + by rewrite Ew.
    + by rewrite Esr.
  - intros fuel Hfu. unfold Link.connect. rewrite E1, bind_Ok. fold i c0.
    rewrite (exchange fuel (Link.mk c0 s1 i 0 0) hello [] s2 c [] [welcome i] c1); try done.
    + apply (at_client _ _ _ _ (sv_attached _ _ _ _ _ Hs)).
    + apply Forall_singleton. split; [done|]. by right; right.
    + unfold client_run. cbn [foldM Link.client]. by rewrite Erc.
Qed.
End Link.
