(* ===== verification/NetRefine.v ===== *)
(** * The network over the storage

    The engine with the strategy [COMPRESSED] keeps what the server of the network needs
    of a storage; a client that connects to a server with a new storage sees the list of
    all that it appends. *)

From Stdlib Require Import ZArith Lia String.
From stdpp Require Import base numbers list gmap strings.
From S2P Require Import Prelude Float64 Meas Bloom Stat StdSort ICursor FullCursor Chunk KMerge Cursors Colapse TimeTrackSpec Series.
From S2P Require Import StripedMap Allocators TimeTrack Storages MemStorage TimeUtil Scheme Settings Files Options.
From S2P Require Import WalFile WalManager WalManagerSpec PageFormat PageIndex Page PageSpec PageWrite PageProps.
From S2P Require Import PageManager PageManagerSpec PageManagerOps PageManagerProps Dropper DropperSpec DropperQueue.
From S2P Require Import MemStorageSpec Engine EngineSpec Shard NetData NetServer NetClient NetServerSpec NetSpec.

Local Open Scope Z_scope.
#[local] Opaque jenkins_one_at_a_time_hash.

(** ** The engine as the storage of a server *)

Section Storage.
Context {A : Type} `{MemAllocator A}.
Context `{BtreeMultimap} `{Paths} `{FileNames} `{!DirectoryNames} `{StdSort} `{UnorderedMap}.
Variable allocator : Settings.t → outcome A.
Variable crc32 : list Z → Z.
Variable raw_header : ChunkHeader.t.
Variable fuel : nat.
Variable now now' works : Z.
Variable st : Settings.t.
Hypothesis names_differ : ∀ i j,
  random_file_name i WAL_FILE_EXT = random_file_name j WAL_FILE_EXT → i = j.
Hypothesis crc_range : ∀ bs, 0 <= crc32 bs < 2 ^ 32.
Hypothesis st_compressed : compressed_storage st.

Abbreviation engine := (Engine.t A SubscribeCallback).
#[local] Instance net_engine : IEngine engine := Engine_IEngine allocator crc32 raw_header fuel now now' works.

Implicit Types s : engine.

Definition engine_holds (x : spec SubscribeCallback) s : Prop :=
  ∃ n, n <= Z.of_nat (length (sp_log x)) ∧ keeps st true n x s.

Lemma engine_append x m s : engine_holds x s → admissible st (sp_log x ++ [m]) → meas_wf m →
  ∃ s', ie_append m s = Ok (Status_writed 1, s') ∧ engine_holds (spec_op (Append m) x).2 s'.
Proof.
  intros (n & Hle & Hk) [Hc _ _] Hwf. destruct st_compressed as [S1 S2 S3 S4 S5]. rewrite length_app in Hc. cbn in Hc.
  destruct (append_keeps crc32 raw_header st names_differ crc_range S1 S2 S3 S4 true n x s fuel m Hk ltac:(lia) Hwf)
    as (s' & E & Hk'). unfold engine_op in E.
  change (ie_append m s) with (Engine.append crc32 raw_header (Engine._settings s) fuel m s). rewrite (kp_settings _ _ _ _ _ Hk).
  destruct (Engine.append crc32 raw_header st fuel m s) as [[y s1]| | |]; [|done..]. rewrite bind_Ok in E. cbn in E.
  injection E as -> ->. exists s'. split; [done|]. exists (n + 1). split; [|done]. cbn. rewrite length_app. cbn. lia.
Qed.

Lemma engine_subscribe x ids fl k s : engine_holds x s →
  ∃ s', sb_subscribe ids fl k s = Ok s' ∧ engine_holds (spec_op (Subscribe ids fl k) x).2 s'.
Proof.
  intros (n & Hle & Hk). destruct (subscribe_keeps crc32 raw_header st true n x s fuel ids fl k Hk eq_refl) as (s' & E & Hk').
  unfold engine_op in E. change (sb_subscribe ids fl k s) with (Engine.subscribe ids fl k s).
  destruct (Engine.subscribe ids fl k s) as [s1| | |]; [|done..]. rewrite bind_Ok in E. injection E as ->. exists s'. split; [done|].
  by exists n.
Qed.

Lemma engine_read x q i s : engine_holds x s → admissible st (sp_log x) → qi_ids q = [i] → flags_exact q (series i (sp_log x)) →
  ∃ r s', ie_intervalReader q s = Ok (r, s') ∧ engine_holds x s' ∧
    match r !! i with
    | None => base.filter (in_query q) (series i (sp_log x)) = []
    | Some c => ∃ l, rep c l ∧ base.filter (in_query q) l = base.filter (in_query q) (series i (sp_log x))
    end.
Proof.
  intros (n & Hle & Hk) Ha Hq Hfl. destruct st_compressed as [S1 S2 S3 S4 S5].
  change (ie_intervalReader q s) with (Engine.intervalReader (Engine._settings s) q s). rewrite (kp_settings _ _ _ _ _ Hk).
  destruct (reader_keeps st S1 S2 true n x s q i Hk Hq) as (r & s' & E & Hk' & Hr); [apply Ha|done|].
  exists r, s'. split; [done|]. split; [by exists n|]. specialize (Hr i). destruct (r !! i) as [c|]; [|by apply Hr].
  destruct Hr as (_ & l & Hc & _ & El). by exists l.
Qed.

Lemma engine_current x ids fl s : engine_holds x s →
  ∃ s', ie_currentValue ids fl s = Ok (base.filter (asked ids fl) (latest (sp_log x)), s') ∧ engine_holds x s'.
Proof.
  intros (n & Hle & Hk). destruct (current_keeps crc32 raw_header st true n _ s fuel ids fl Hk) as (s' & E & Hk'). unfold engine_op in E.
  change (ie_currentValue ids fl s) with (Engine.currentValue (Engine._settings s) ids fl s). rewrite (kp_settings _ _ _ _ _ Hk).
  destruct (Engine.currentValue st ids fl s) as [[y s1]| | |]; [|done..]. rewrite bind_Ok in E. cbn in E.
  injection E as -> ->. exists s'. split; [done|]. by exists n.
Qed.

(** The dropper writes a log file to a page. *)
Definition engine_turn s : outcome engine := Engine.drop_round crc32 (Engine._settings s) s.

Lemma engine_turns x s : engine_holds x s → admissible st (sp_log x) → ∃ s', engine_turn s = Ok s' ∧ engine_holds x s'.
Proof.
  intros (n & Hle & Hk) [_ A2 A3]. destruct st_compressed as [S1 S2 S3 S4 S5].
  destruct (drop_keeps crc32 raw_header st names_differ crc_range S1 S2 S3 S4 true n _ s fuel Hk) as (s' & E & Hk').
  { intros i. split; [apply A2|apply A3]. }
  unfold engine_op in E. unfold engine_turn. rewrite (kp_settings _ _ _ _ _ Hk).
  destruct (Engine.drop_round crc32 st s) as [s1| | |]; [|done..]. rewrite bind_Ok in E. injection E as ->.
  exists s'. split; [done|]. by exists n.
Qed.

Lemma engine_set_callbacks x subs s : engine_holds x s → subs.*1 = (sp_subs x).*1 →
  engine_holds (mkSpec (sp_log x) subs) (sb_set_callbacks subs.*2 s).
Proof.
  intros (n & Hle & [K1 K2 K0 K3 K4 K5 (E1 & E2 & E3)]) Es. exists n. split; [done|]. split; try done. cbn [sp_subs].
  split; [by rewrite Es|]. split; [done|]. rewrite Es, E3. f_equal. apply (f_equal length) in Es. by rewrite !length_fmap in Es.
Qed.

#[export] Instance engine_storage : StorageLaws engine := {|
  sto_holds := engine_holds;
  sto_fits := admissible st;
  sto_turn := engine_turn;
  sto_prefix := admissible_prefix st;
  sto_append := engine_append;
  sto_subscribe := engine_subscribe;
  sto_read := engine_read;
  sto_current x ids fl s Hs _ := engine_current x ids fl s Hs;
  sto_turns := engine_turns;
  sto_callbacks x s Hs := match Hs with ex_intro _ _ (conj _ Hk) => proj1 (proj2 (kp_subs _ _ _ _ _ Hk)) end;
  sto_set_callbacks := engine_set_callbacks;
|}.
End Storage.


(** ** A session *)

Definition session_ops : list net_op :=
  [NSubscribe [7] 0; NAppend (seven <$> [1; 2; 3; 4; 5]); NTurn; NRead (mkQueryInterval [7] 0 2 5 0);
   NAppend (seven <$> [6; 7; 8]); NTurn; NTurn; NRead (mkQueryInterval [7] 0 2 7 0); NCurrent [] 0].

Lemma session_fair : net_clean (net_appended session_ops) ∧ Forall (net_fair (net_appended session_ops)) session_ops.
Proof.
  assert (Hi : ∀ i, 0 <= i < 2 ^ 32 → id_range [i]) by (intros; by apply Forall_singleton).
  assert (Hq : ∀ to, 2 < to < 2 ^ 64 → interval_fits (mkQueryInterval [7] 0 2 to 0)).
  { intros to Ht. split; cbn; try lia. apply Hi. lia. }
  split; [split|].
  - change (net_appended session_ops) with (seven <$> [1; 2; 3; 4; 5; 6; 7; 8]). apply Forall_forall. intros m (t & -> & Ht)%list_elem_of_fmap.
    repeat (apply elem_of_cons in Ht as [->|Ht]); [..|by apply elem_of_nil in Ht]; (split; [|by vm_compute]).
    all: repeat split; vm_compute; congruence.
  - apply (bool_decide_unpack _). by vm_compute.
  - repeat (apply Forall_cons; split); [..|by apply Forall_nil]; cbn [net_fair]; try done.
    + split; [lia|apply Hi; lia|cbn; lia].
    + split; [apply Hq; lia|]. apply (bool_decide_unpack _). by vm_compute.
    + split; [apply Hq; lia|]. apply (bool_decide_unpack _). by vm_compute.
    + split; [lia|constructor|cbn; lia].
Qed.


(** A session with a new storage. *)
Definition small_laws : @StorageLaws (Engine.t UnlimitMemoryAllocator.t SubscribeCallback)
    (Engine_IEngine (fun _ => Throw) (fun _ => 0) ChunkHeader.zero 0 0 0 0) _ :=
  engine_storage (fun _ => Throw) (fun _ => 0) ChunkHeader.zero 0 0 0 0 small_storage (ones_inj WAL_FILE_EXT) ltac:(done) ltac:(done).

Lemma new_session time hn raw_client raw_server raw_total : Z.of_nat (length hn) <= 30000 →
  let engine := Engine_IEngine (A := UnlimitMemoryAllocator.t) (K := SubscribeCallback) (fun _ => Throw) (fun _ => 0) ChunkHeader.zero 0 0 0 0 in
  ∃ s0 n0, Engine.make small_storage Throw true false empty_env = Ok s0 ∧
    linked (StorageLaws0 := small_laws) (mkSession [] [] []) n0 ∧ Client._query_num (Link.client n0) = 1 ∧
    ∀ fuel, (3 <= fuel)%nat →
      Link.connect time fuel raw_client raw_server hn (Server.set_storage s0 (Server.make raw_total)) = Ok n0.
Proof.
  intros Hhn engine.
  destruct (make_new (A := UnlimitMemoryAllocator.t) (K := SubscribeCallback) (fun _ => 0) small_storage (ones_inj WAL_FILE_EXT) ltac:(done)
    ltac:(done) ltac:(done) ltac:(done) ltac:(done) ltac:(done) true Throw false empty_env small_new) as (s0 & E0 & Hk).
  destruct (connect_ok (StorageLaws0 := small_laws) time (Server.set_storage s0 (Server.make raw_total)) raw_client raw_server s0 hn)
    as (n0 & Hl0 & Hn0 & E1); [reflexivity|reflexivity|reflexivity|cbn; lia| |exact Hhn|].
  { exists 0. split; [cbn; lia|exact Hk]. }
  exists s0, n0. exact (conj E0 (conj Hl0 (conj Hn0 E1))).
Qed.
