(* ===== verification/NetProps.v ===== *)
(** * Errors of the network

    What a client makes of the errors of a server, and states the server does not get out
    of. *)

From Stdlib Require Import ZArith Lia String.
From stdpp Require Import base numbers list gmap strings.
From S2P Require Import Prelude Float64 Meas Bloom Stat StdSort ICursor FullCursor Chunk KMerge Cursors Colapse TimeTrackSpec Series.
From S2P Require Import StripedMap Allocators TimeTrack Storages MemStorage TimeUtil Scheme Settings Files Options.
From S2P Require Import WalFile WalManager WalManagerSpec PageFormat PageIndex Page PageSpec PageWrite PageProps.
From S2P Require Import PageManager PageManagerSpec PageManagerOps PageManagerProps Dropper DropperSpec DropperQueue.
From S2P Require Import MemStorageSpec Engine EngineSpec Shard NetData NetServer NetClient NetServerSpec NetSpec NetRefine.

Local Open Scope Z_scope.
#[local] Opaque jenkins_one_at_a_time_hash.

(** ** Errors *)

Lemma error_fits qn err : fits_frame (IOClient.error_message qn err).
Proof. by apply (header_fits (A := QueryError_header)). Qed.

(** An error has the kind and the number of an acceptance in the same places. *)
Lemma error_header qn err : 0 <= qn < 2 ^ 32 →
  header_of QueryOk_header (received (IOClient.error_message qn err)) = mkOk (kind_number OK) qn.
Proof.
  intros Hq. rewrite (same_data_header _ _ _ (received_data _ (error_fits qn err))).
  unfold IOClient.error_message. assert (Hs : ∀ e, bytes_of (mkError (kind_number OK) qn e) = bytes_of (mkOk (kind_number OK) qn) ++ to_le 2 e).
  { intros e. unfold bytes_of. cbn [layout fields QueryError_Packed QueryOk_Packed struct_bytes er_kind er_id er_error_code ok_kind ok_id].
    by rewrite !app_nil_r, <- app_assoc. }
  rewrite Hs. apply header_first. in_fields.
Qed.

(** The client takes an error for an acceptance. *)
Lemma error_looks_accepted qn err c : 0 <= qn < 2 ^ 32 →
  Client.onDataRecv (received (IOClient.error_message qn err)) c = Client.onDataRecv (received (IOClient.ok_message qn)) c.
Proof.
  intros Hq. assert (Hh : header_of QueryOk_header (received (IOClient.ok_message qn)) = mkOk (kind_number OK) qn).
  { apply only_header_received; [in_fields|done]. }
  unfold Client.onDataRecv. by rewrite !first_ok, error_header, Hh by done.
Qed.

Section Link.
Context {E : Type} `{!IEngine E} `{!ISubscribe E} `{!StorageLaws E} `{UnorderedMap}.
Variable now : Z.
Implicit Types n : Link.t E.

(** More fuel does not change a result. *)
Lemma settle_more fuel n : Link.settle now fuel n ≠ Diverge → Link.settle now (S fuel) n = Link.settle now fuel n.
Proof.
  revert n. induction fuel as [|fuel IH]; intros n Hn; [done|]. change (Link.settle now (S (S fuel)) n) with
    (x ← Link.turn now n; match x with None => Ok n | Some n => Link.settle now (S fuel) n end).
  cbn [Link.settle] in Hn |- *. destruct (Link.turn now n) as [[n1|]| | |]; try done. rewrite !bind_Ok in *. by apply IH.
Qed.

Lemma settle_enough fuel k n : Link.settle now fuel n ≠ Diverge → Link.settle now (fuel + k) n = Link.settle now fuel n.
Proof.
  intros Hn. induction k as [|k IH]; [by rewrite Nat.add_0_r|]. rewrite Nat.add_succ_r, settle_more by by rewrite IH. done.
Qed.

(** What an interval that is none is answered with. *)
Lemma bad_interval_handled b i x s c d qn ids fl from to : serving b i x s c →
  header_of QueryInterval_header d = mkInterval (kind_number READ_INTERVAL) qn from to fl (Z.of_nat (length ids)) →
  Server.ids_of (size_of QueryInterval_header) (Z.of_nat (length ids)) d = Ok ids → to <= from →
  ∃ s' c', Server.onDataRecv now i d s = Ok (false, s') ∧ serving b i x s' c' ∧
    answered c c' [IOClient.ok_message qn; IOClient.error_message qn WRONG_QUERY_PARAM_FROM_GE_TO].
Proof.
  intros Hs Hh Hids Hft. destruct (serving_time b i x s c now Hs) as [E1 Hs1].
  unfold Server.onDataRecv. rewrite E1, bind_Ok. set (s1 := Server.set_clients _ s) in *. set (c1 := IOClient.set_time now c) in *.
  rewrite first_interval, Hh. cbn [in_kind in_id]. change (kind_of (kind_number READ_INTERVAL)) with (Some READ_INTERVAL).
  cbn match. rewrite (at_stop _ _ _ _ (sv_attached _ _ _ _ _ Hs1)).
  unfold IOClient.sendOk. rewrite (tell b i _ _ _ (sv_attached _ _ _ _ _ Hs1)), bind_Ok.
  pose proof (serving_told _ _ _ _ _ [IOClient.ok_message qn] Hs1) as Hs2. set (s2 := told i _ c1 s1) in *.
  unfold Server.readInterval. rewrite Hh. cbn [in_ids_count in_to in_from in_flag in_id]. rewrite Hids, bind_Ok, (proj2 (Z.leb_le _ _)) by lia.
  unfold IOClient.sendError. rewrite (tell b i _ _ _ (sv_attached _ _ _ _ _ Hs2)), bind_Ok.
  eexists _, _. split; [done|]. split; [by apply serving_told|]. rewrite sent_sent. by split.
Qed.
(** The query is over, and its result is still locked. *)
Lemma bad_interval_settles x n q : linked x n → Client._query_num (Link.client n) < 2 ^ 32 → qi_to q <= qi_from q → 0 <= qi_to q →
  qi_from q < 2 ^ 64 → 0 <= qi_flag q < 2 ^ 32 → id_range (qi_ids q) → 27 + 4 * Z.of_nat (length (qi_ids q)) <= 65533 →
  ∃ a c1 n2 r, Client.readInterval q (Link.client n) = Ok (a, c1) ∧ Client.results (Link.client n2) !! a = Some r ∧ locked r = true ∧
    ∀ fuel, (4 <= fuel)%nat → Link.settle now fuel (Link.set_client c1 n) = Ok n2.
Proof.
  intros (X & c & Hl) Hn Q1 Q2 Q3 Q4 Q5 Q6. set (cl := Link.client n) in *. set (qn := Client._query_num cl) in *.
  pose proof (li_number _ _ _ _ Hl) as Hn0. fold cl qn in Hn0.
  set (h := mkInterval (kind_number READ_INTERVAL) qn (qi_from q) (qi_to q) (qi_flag q) (Z.of_nat (length (qi_ids q)))).
  destruct (query_message_ok h (qi_ids q)) as (Hnd & Hh & Hids); [in_fields|done|done|]. set (nd := query_message h (qi_ids q)) in *.
  pose proof (ask_sends READ_INTERVAL (fun k count => mkInterval (kind_number READ_INTERVAL) k (qi_from q) (qi_to q) (qi_flag q) count)
    (qi_ids q) cl Q6) as Ef. cbv beta in Ef. fold qn h nd in Ef.
  destruct (bad_interval_handled qn (Link.number n) X (Link.server n) c (received nd) qn (qi_ids q) (qi_flag q) (qi_from q) (qi_to q)
    (li_serving _ _ _ _ Hl) Hh Hids Q1) as (s' & c' & Er & Hs' & [Ew Esr]).
  set (a := length (Client.results cl)) in *. set (r0 := new_result qn READ_INTERVAL) in *.
  pose proof (asked_asks r0 nd cl (li_state _ _ _ _ Hl)) as Hasks. pose proof (asked_socket r0 nd cl (li_ready _ _ _ _ Hl)) as Es.
  set (c1 := asked_with r0 nd cl) in *. set (r1 := accepted_result r0). set (c2 := set_result a r1 c1).
  assert (Erun : client_run [IOClient.ok_message qn; IOClient.error_message qn WRONG_QUERY_PARAM_FROM_GE_TO] c1 = Ok c2).
  { unfold client_run. cbn [foldM]. rewrite (recv_ok qn a r0), !bind_Ok by (done || lia).
    rewrite error_looks_accepted by lia. rewrite (recv_ok qn a r1), !bind_Ok; [|lia|by eapply asks_set]. by rewrite set_set_result. }
  eexists a, c1, (Link.mk c2 s' (Link.number n) _ _), r1. split; [exact Ef|].
  split; [exact (as_result _ _ _ _ (asks_set _ _ _ r1 _ Hasks))|]. split; [done|].
  intros fu Hfu. apply (exchange now fu (Link.set_client c1 n) nd (written (Client._socket cl)) s' c' (written (IOClient.sock c))
    [IOClient.ok_message qn; IOClient.error_message qn WRONG_QUERY_PARAM_FROM_GE_TO]); try done.
  - apply Hl.
  - apply (at_client _ _ _ _ (sv_attached _ _ _ _ _ Hs')).
  - apply Hl.
  - repeat (apply Forall_cons; split); [..|done]; (split; [apply ok_fits || apply error_fits|by left]).
Qed.
End Link.

(** C39: a client that asks for an interval that ends before it begins never gets an
    answer.  The server sends that the query is accepted and then an error, but the error
    has the kind of an acceptance, so the client goes on waiting for measurements. *)
Theorem bad_interval_never_answered {E} `{!IEngine E} `{!ISubscribe E} `{!StorageLaws E} `{UnorderedMap} now fuel x (n : Link.t E) q :
  linked x n → Client._query_num (Link.client n) < 2 ^ 32 → qi_to q <= qi_from q → 0 <= qi_to q → qi_from q < 2 ^ 64 →
  0 <= qi_flag q < 2 ^ 32 → id_range (qi_ids q) → 27 + 4 * Z.of_nat (length (qi_ids q)) <= 65533 →
  Link.readInterval now fuel q n = Diverge.
Proof.
  intros Hl Hn Q1 Q2 Q3 Q4 Q5 Q6. destruct (bad_interval_settles now x n q Hl Hn Q1 Q2 Q3 Q4 Q5 Q6) as (a & c1 & n2 & r & Ef & Er & Hlock & Eset).
  unfold Link.readInterval, Link.answer. rewrite Ef, !bind_Ok.
  assert (Hd : Link.settle now fuel (Link.set_client c1 n) = Diverge ∨ Link.settle now fuel (Link.set_client c1 n) ≠ Diverge)
    by (destruct (Link.settle now fuel (Link.set_client c1 n)); by (left + right)).
  destruct Hd as [->|Hd]; [done|]. rewrite <- (settle_enough now fuel 4 _ Hd), Eset, bind_Ok by lia.
  unfold Link.wait. by rewrite Er, Hlock.
Qed.

(** The client of a new storage. *)
Lemma bad_interval_never_answered_witness :
  let engine := Engine_IEngine (A := UnlimitMemoryAllocator.t) (K := SubscribeCallback) (fun _ => Throw) (fun _ => 0) ChunkHeader.zero 0 0 0 0 in
  ∃ s0 n0, Engine.make small_storage Throw true false empty_env = Ok s0 ∧
    (∀ fuel, (3 <= fuel)%nat → Link.connect 1000 fuel false false [104] (Server.set_storage s0 (Server.make 0)) = Ok n0) ∧
    ∀ fuel, Link.readInterval 1000 fuel (mkQueryInterval [7] 0 5 5 0) n0 = Diverge.
Proof.
  destruct (new_session 1000 [104] false false 0 ltac:(done)) as (s0 & n0 & E0 & Hl & Hn & E1).
  exists s0, n0. split; [exact E0|]. split; [exact E1|]. intros fuel.
  apply (bad_interval_never_answered (StorageLaws0 := small_laws) 1000 fuel (mkSession [] [] []) n0 (mkQueryInterval [7] 0 5 5 0) Hl);
    [rewrite Hn; lia|cbn; lia..|apply Forall_singleton; lia|cbn; lia].
Defined.

(** ** Other states *)

Section Server.
Context {E : Type} `{!IEngine E} `{!ISubscribe E} `{UnorderedMap}.
Implicit Types s : Server.t E.

(** When the timer fires while there are no clients it is not set again, and no client
    that connects later is pinged. *)
Theorem pings_stop now s : Server._clients s = ∅ → ∃ s', Server.ping_all now s = Ok s' ∧ Server._ping_timer s' = false.
Proof. intros Hc. unfold Server.ping_all. cbn [Server._clients Server.set_flags]. rewrite decide_True by done. by eexists. Qed.

(** A connection that fails before the client said its name is counted as one that is
    lost: the number of connections is less than nothing. *)
Theorem lost_before_hello raw now now' :
  ∃ s', (s ← Server.handle_accept raw now (Server.make 0 : Server.t E);
         s ← Server.with_client 1 IOClient.onNetworkError s;
         Server.ping_all now' s) = Ok s' ∧ Server._connections_accepted s' = 2 ^ 64 - 1.
Proof.
  set (c := IOClient.make raw now 1).
  assert (E1 : ∃ c1, IOClient.start c = Ok c1 ∧ ∃ c2, IOClient.onNetworkError c1 = Ok c2 ∧ IOClient.state c2 = DISCONNECTED).
  { eexists. split; [reflexivity|]. eexists. split; [|shelve]. unfold IOClient.onNetworkError. rewrite decide_True by done.
    cbn [IOClient._async_connection IOClient.set_connection]. unfold IOClient.close. rewrite decide_False by done.
    unfold IOClient.readerClear, IOClient.readersEraseUnneeded. cbn [IOClient._readers IOClient.set_readers]. rewrite decide_True; [reflexivity|].
    apply map_filter_empty. Unshelve. done. }
  destruct E1 as (c1 & Es & c2 & En & Hst).
  unfold Server.handle_accept. cbn [Server._in_stop_logic Server.make Server._next_client_id]. fold c. rewrite Es, bind_Ok.
  change (Server._clients (Server.make 0 : Server.t E)) with (∅ : gmap Z IOClient.t). rewrite lookup_empty, bind_Ok. unfold Server.with_client at 1. cbn [Server._clients]. rewrite lookup_insert_eq, En, !bind_Ok.
  unfold Server.ping_all. cbn [Server._clients Server.set_flags Server.set_clients Server._in_stop_logic]. rewrite insert_insert_eq.
  change (<[1 := c2]> (∅ : gmap Z IOClient.t)) with ({[1 := c2]} : gmap Z IOClient.t). rewrite decide_False by apply map_non_empty_singleton.
  assert (El : um_list ({[1 := c2]} : gmap Z IOClient.t) = [(1, c2)]).
  { apply Permutation_singleton_r. by rewrite um_perm, map_to_list_singleton. }
  rewrite El. cbn [foldM]. unfold Server.ping_one. rewrite decide_False by (by rewrite Hst). rewrite Hst, (bool_decide_true (DISCONNECTED = DISCONNECTED)), orb_true_r by done.
  assert (Ec : IOClient.close c2 = Ok c2) by (unfold IOClient.close; by rewrite decide_True).
  rewrite (with_client_ok 1 _ _ c2 c2), !bind_Ok; [|apply lookup_insert_eq|exact Ec]. cbn [app foldM]. unfold Server.client_disconnect.
  cbn [Server._clients Server.set_clients]. rewrite lookup_insert_eq, Ec, !bind_Ok. eexists. split; [done|]. done.
Qed.

(** The callback of a client that is gone is still called. *)
Theorem subscriber_gone m s e st e' i q : Server.storage s = Some e → ie_append m e = Ok (st, e') →
  sb_callbacks e' = [mkSubscribeCallback i q [m]] → Server._clients s !! i = None → Server.storage_append m s = UB.
Proof.
  intros Es Ea Ec Hi. unfold Server.storage_append, Server.with_storage. rewrite Es, Ea, !bind_Ok.
  unfold Server.notify. cbn [Server.storage Server.set_storage_ptr]. rewrite Ec. cbn [foldM]. unfold Server.send_calls. cbn [sc_calls foldM sc_parent].
  unfold Server.with_client. cbn [Server._clients Server.set_storage_ptr]. by rewrite Hi.
Qed.
End Server.

(** The client accepts 16377 identifiers, whose message and its size are one byte more
    than a [uint16_t] counts: a single byte of it is sent. *)
Theorem large_query_cut q c : ready (Client._async_connection c) (Client._socket c) → Z.of_nat (length (qi_ids q)) = 16377 →
  ∃ a c', Client.readInterval q c = Ok (a, c') ∧ written (Client._socket c') = written (Client._socket c) ++ [255].
Proof.
  intros (R1 & R2 & R3) Hl. unfold Client.readInterval, Client.ask. rewrite Hl. change (Z.of_nat (size_of QueryInterval_header)) with 27.
  change (4 * 16377) with 65508. change (65508 + 27) with 65535.
  change (NetData.MAX_MESSAGE_SIZE <? 65535) with false. cbn match. eexists _, _. split; [reflexivity|].
  unfold Client.send, AsyncConnection.send. cbn [Client._async_connection Client._socket Client.set_connection Client.set_queries].
  rewrite R1, R2, R3. cbn [negb andb written]. f_equal.
Qed.
